(* ===== verification/_CoqProject ===== *)
-Q . S2P
Prelude.v
Graph.v
Workload.v
TrafficGen.v
Schedule.v
GenSpec.v
SchedFacts.v
GenProps.v
Json.v
JsonParser.v
Top.v
MemCmd.v
TrafficPattern.v
PE.v
PESystem.v
PEInv.v
PERun.v
PEFrame.v
PESteps.v
PESend.v
PEBcast.v
PEIssue.v
PEOperate.v
PEBarrier.v
PEProps.v
PEWitness.v
Link.v
EventQueue.v
EventQueueRep.v
EventQueueProps.v
EventQueueSpec.v
SnoopFilter.v
SnoopFilterProps.v
SnoopFilterSpec.v
Clocked.v
PacketQueue.v
PacketQueueProps.v
XBar.v
XBarProps.v
XBarBcast.v
ConfigProps.v
PETermination.v
BitField.v
AddrRange.v
AddrRangeProps.v
AddrRangeIntlv.v
AddrRangeMap.v
AddrRangeMapProps.v
XBarDecode.v
XBarDecodeProps.v
CoherentXBar.v
CoherentXBarProps.v
CoherentXBarSnoop.v
CoherentXBarSystem.v
CoherentXBarAtomic.v
PacketData.v
PacketDataProps.v
CachePkt.v
CacheBlk.v
CacheTags.v
Cache.v
AbstractMem.v
CacheSys.v
CacheProps.v
CacheBus.v
CacheAccess.v
CacheCoherent.v
CacheRefine.v
CacheFilter.v
CacheWitness.v
Mshr.v
MshrResp.v
MshrProps.v
MshrInv.v
MshrSteps.v
MshrRun.v
MshrServe.v
MshrWitness.v
