(* ===== verification/Prelude.v ===== *)
(** * Verification of the DSEGem5 simulator

    ** The program

    DSEGem5 explores the design space of DNN accelerators.  A traffic generator
    ([src/traffic_generator/]) turns the description of a layer into a traffic
    pattern, the sequence of memory accesses, computations and barriers of each
    processing element (PE) of a grid.  A version of the gem5 simulator
    ([src/gem5/]) replays the pattern: PEs ([src/gem5/src/lab447/]) are simulated
    objects that send packets into a memory system, and gem5 was extended with
    broadcasts, whose response every PE receives.  The parts and their
    interfaces:

    - the generator parses a configuration, splits the layer's tensors, and
      emits traffic entries; it ends by writing them to a file;
    - the PEs read that file ([parseTraffic]) and run one entry after the other,
      driven by two events each and by the memory system's answers; they share
      static state, the barrier of a broadcast;
    - the event queue calls the events of the PEs, of the crossbars and of the
      packet queues;
    - the crossbar finds the destination of a packet in a map of address ranges,
      arbitrates between ports (layers), snoops the caches its snoop filter names,
      remembers where responses go, delivers them through packet queues, and
      copies broadcast responses;
    - on the boards with caches, each PE has a private cache between itself and
      the crossbar; the caches keep their copies coherent by the snoops of the
      crossbar, and the memory below has the bytes;
    - every one of these has a clock derived from the global time.

    ** Files

    Traffic generator.
    - [Graph], [Workload]: the data model ([graph.hpp], [strategy.hpp],
      [util.hpp], [pe.hpp]) with tensors in a shared heap, and the split and size
      computations of the operator classes ([operator/*.hpp]).
    - [TrafficGen]: the nine generators of [traffic_generator.hpp].
    - [Schedule], [GenSpec]: schedules as abstract specification, and the
      refinement of each generator to its schedule.
    - [SchedFacts], [GenProps]: what follows for the emitted traffic: work done,
      addresses, matching barriers, source PEs.
    - [Json], [JsonParser], [Top]: JSON values, the configuration parser, and
      [main] of [top.cpp]; [ConfigProps]: the format of the configuration file
      and that it is read back.

    Processing elements.
    - [MemCmd]: the command table of [mem/packet.cc] and its predicates.
    - [TrafficPattern], [PE]: [traffic_pattern.hh], [pe.hh] and [pe.cc], one
      definition per handler, over a world with the shared static state.
    - [PESystem]: the step relation of PEs, event queue and memory system.
    - [PEInv], [PERun], [PEFrame], [PESteps], [PESend], [PEBcast], [PEOperate],
      [PEBarrier]: the invariant and its preservation, a file per kind of step.
    - [PEIssue]: how an entry becomes packets.
    - [PEProps], [PEWitness]: the theorems about the PEs, and a concrete system.
    - [PETermination]: the worth of the traffic ahead of the PEs, which every
      step but a refusal and its retry decreases.
    - [Link]: the generator's file, parsed and run by the PEs.

    Simulation kernel and memory system.
    - [EventQueue]: [sim/eventq.hh], [sim/eventq.cc], [base/flags.hh] and the
      loop of [sim/simulate.cc]; [EventQueueRep] what its pointers represent;
      [EventQueueProps] the operations on the represented list;
      [EventQueueSpec] the theorems.
    - [Clocked]: [sim/clocked_object.hh].
    - [PacketQueue], [PacketQueueProps]: [mem/packet_queue.cc].
    - [SnoopFilter], [SnoopFilterProps], [SnoopFilterSpec]:
      [mem/snoop_filter.cc], its masks, and its safety.
    - [XBar], [XBarProps], [XBarBcast]: the layers of [mem/xbar.cc] and the
      broadcast of [mem/coherent_xbar.cc].
    - [BitField]: the bit operations of [base/bitfield.hh]; [AddrRange],
      [AddrRangeProps], [AddrRangeIntlv]: [base/addr_range.hh], interleaved
      ranges included; [AddrRangeMap], [AddrRangeMapProps]:
      [base/addr_range_map.hh] with its cache; [XBarDecode], [XBarDecodeProps]: the
      address map of [mem/xbar.cc].
    - [CoherentXBar]: the timing protocol of [mem/coherent_xbar.cc];
      [CoherentXBarProps] the way of a response; [CoherentXBarSnoop] whom it snoops,
      and refused requests; [CoherentXBarSystem] the crossbar with its filter, the
      requests in flight and the copies the caches have; [CoherentXBarAtomic] the
      atomic accesses.
    - [PacketData], [PacketDataProps]: functional accesses:
      [Packet::trySatisfyFunctional], the packet queues' and the crossbar's.

    Caches and memory, in atomic mode.
    - [CachePkt]: packets and requests with their bytes ([mem/packet.hh],
      [mem/request.hh]); [CacheBlk]: blocks, coherence bits and load locks
      ([mem/cache/cache_blk.hh]); [CacheTags]: set-associative tags and LRU
      replacement ([mem/cache/tags/], [mem/cache/replacement_policies/]).
    - [Cache]: the atomic path of [mem/cache/base.cc] and [mem/cache/cache.cc], one
      definition per function; [AbstractMem]: [mem/abstract_mem.cc] and
      [mem/simple_mem.cc].
    - [CacheSys]: caches, crossbar and memory as one state.  Whom the crossbar
      snoops is an interface, [Tracker]; the snoop filter and "everybody" are its
      instances.
    - [CacheProps], [CacheAccess]: what each operation does to the lines a cache
      has; [CacheBus]: requests and evictions on the crossbar, and the class
      [TrackerLaws], the laws of a tracker; [CacheFilter]: the snoop filter has
      them.
    - [CacheCoherent]: the specification, one array of bytes, the coherence
      invariant and its preservation by every access; [CacheRefine],
      [CacheWitness]: the theorems about whole runs, and concrete boards.

    Misses, in timing mode.
    - [Mshr]: the miss status holding registers of [mem/cache/mshr.cc], in a heap
      shared by all caches; [MshrResp]: what a cache does when the response for one
      arrives, its blocks and its assertions included ([recvTimingResp] of
      [mem/cache/base.cc], [serviceMSHRTargets] and the deferred snoops of
      [mem/cache/cache.cc]); [MshrProps]: registers up to the pending flags;
      [MshrInv]: what the flags of a list say of its targets; [MshrSteps]: each
      operation; [MshrRun]: histories; [MshrServe], [MshrWitness]: the theorems,
      concrete histories, and some in which a register goes wrong.

    This file has the error and state monads, machine integers, loops, and the
    lemmas and tactics the others share.

    ** What is proved

    - The generators return normally and emit exactly the traffic of their
      schedules; the output-stationary convolution and the optimised batch
      normalisation compute every tile once; tensors are streamed contiguously;
      every PE gets the same sequence of barriers.  Two generators do not do all
      the work, or too much of it; this is proved as well.
    - PEs that run such traffic never fail, never get stuck, and keep the
      barriers, for every memory system that respects the port protocol and
      every order of simultaneous events.  Their runs are finite: the number of
      steps is bounded by a budget read off the traffic lists and the number of
      packets the memory system refuses.  [Link] composes the two: the file the
      generator writes runs to its end.
    - The event queue serves events in the order of time and priority and never
      goes back in time.
    - The snoop filter never hides a copy of a line nor a request for it in flight,
      as long as no broadcast reaches a port that waits for the same line, and
      undoes retried requests; packet queues lose and reorder nothing they should not and are
      always woken up; crossbar layers never forget a waiting port; a broadcast
      response reaches every other PE exactly once.
    - Address ranges compute membership, overlap and difference of address sets,
      and the bits of interleaving, below bit 31, can be taken out and put back; the
      address map
      finds the one entry for an address; the crossbar sends every packet to the
      one port that covers it and reports exactly the addresses it can route.
    - A response goes back to the port its request came from, whatever happens in
      between.  A refused request leaves no trace but the retry it will get.  The
      copies and the requests in flight, followed by the packets the crossbar takes
      and queues, are always known to its filter; so a request that is no eviction
      and no [WriteClean] is handed on only after every other cache with a copy was
      snooped, in timing and in atomic mode.
    - A functional read gets every byte from the last packet in transit it met
      that has it, and stops when it has all; a functional write updates every
      packet in transit; the crossbar asks snoopers, queues and memory in order.
    - Tags find exactly the blocks that are there and evict the least recently
      used; a store conditional succeeds exactly when its reservation stands.
    - Caches, crossbar and memory together are one memory: every sequence of reads,
      writes, load-locked and store-conditional requests ends without a failing
      assertion and is answered as by one array of bytes, a line has one writer,
      and neither the geometry of the caches nor the snoop filter can be told from
      the responses.
    - Miss registers answer the requests they accept once and in order, whatever is
      snooped, deferred, promoted and sent again; what is snooped while a request is
      out keeps later requests from a block that is lost or shared; a block is asked
      for without its data only if writes cover it; a register can always give the
      targets a response serves, the one that waits longest first.
    - A configuration file is read as it is written.
    - The cached clock computes the same edges as a division.

    ** Conventions and bounds

    Fallible code is in [res], code that changes state in [M St].  Undefined
    behaviour, assertions, panics and exceptions are values of [cpp_error], so
    that a theorem that a function returns [Ok] excludes them.  Machine integers
    are [Z] with their wrap-around or overflow error written out.  Loops whose
    number of iterations is known are [for_up] and [for_each]; the walks over the
    event queue's pointers take the number of events as fuel, which
    [EventQueueRep] shows to be enough; the simulation loop takes the number of
    events to serve and its theorem holds for every number.

    A snooped cache may itself write to memory, by a request that snoops nobody:
    the two levels of [Sys.send] are enough, and its theorems prove that the third
    is never reached.  The flags that caches set in the registers above are cleared
    with the number of levels as fuel; the theorems hold for every number.

    ** Not modelled

    The concrete syntax of JSON (a vendored library) and the files on disk; the
    console output; the timing path of the caches but for their miss registers and
    the responses to misses (requests, write buffers, prefetchers), which in the
    timing theorems is part of the environment, and cache compression; DRAM models; the non-coherent crossbar;
    checkpointing, tracing and statistics output; the parallel
    simulation with several event queues; Ruby; instruction sets, CPUs and
    devices of gem5; the Python scripts.  The theorems about the PEs hold for every
    memory system that keeps the port protocol; that the crossbar with its queues
    is one is proved part by part (responses return, packets are delivered, nobody
    is forgotten) and not as one composed system. *)
From stdpp Require Import base tactics list gmap strings pretty fin_maps.
From Stdlib Require Import ZArith Lia.

(** ** Errors *)

(** Everything the C++ sources can do besides returning normally.  Undefined
    behaviour is made visible: an out-of-range [operator[]], a signed
    overflow, a read of an uninitialised field, a dereference of a pointer
    that points nowhere (or to a deleted object) all are error values, so that
    "the function returns [Ok]" is a total-correctness statement. *)
Inductive cpp_error :=
  | EOutOfRange            (* vector/array index outside [0, size) *)
  | EDivByZero             (* integer division or remainder by zero *)
  | EOverflow              (* signed overflow *)
  | EUninit                (* read of an indeterminate value or pointer *)
  | EBadPointer            (* dereference of a null or dangling pointer *)
  | ENoReturn              (* flowing off the end of a non-void function *)
  | EThrow (what : string) (* a C++ exception nobody catches *)
  | EPanic (what : string) (* gem5 [panic]/[panic_if]/[fatal] *)
  | EAssert (what : string)(* a failing [assert] *)
  | EDiverge               (* a loop did not end within its fuel *).

#[export] Instance cpp_error_eq_dec : EqDecision cpp_error.
Proof. solve_decision. Defined.

(** Results of pure, fallible code. *)
Inductive res (A : Type) :=
  | Ok (a : A)
  | Err (e : cpp_error).
Arguments Ok {A} a.
Arguments Err {A} e.

#[export] Instance res_ret : MRet res := λ A a, Ok a.
#[export] Instance res_bind : MBind res := λ A B f m,
  match m with Ok a => f a | Err e => Err e end.

(** Code that mutates objects: a state monad over [res]. *)
Definition M (St A : Type) : Type := St → res (A * St).

#[export] Instance M_ret {St} : MRet (M St) := λ A a s, Ok (a, s).
#[export] Instance M_bind {St} : MBind (M St) := λ A B f m s,
  match m s with Ok (a, s') => f a s' | Err e => Err e end.

Definition throw {St A} (e : cpp_error) : M St A := λ _, Err e.
Definition lift {St A} (r : res A) : M St A := λ s,
  match r with Ok a => Ok (a, s) | Err e => Err e end.
Definition gets {St A} (f : St → A) : M St A := λ s, Ok (f s, s).
Definition modify {St} (f : St → St) : M St unit := λ s, Ok (tt, f s).

(** [if (c) m;] with nothing to do otherwise. *)
Definition when {St} (c : bool) (m : M St unit) : M St unit :=
  if c then m else mret tt.

(** [assert(c)] *)
Definition massert {St} (what : string) (c : bool) : M St unit :=
  if c then mret tt else throw (EAssert what).

Definition of_option {A} (e : cpp_error) (o : option A) : res A :=
  match o with Some a => Ok a | None => Err e end.

Declare Scope cpp_scope.
Delimit Scope cpp_scope with cpp.
Notation "m '⇓' r" := (m = Ok r) (at level 70, only parsing) : cpp_scope.

(** ** Machine integers *)

Definition u64 (z : Z) : Z := z mod 2 ^ 64.
Definition u32 (z : Z) : Z := z mod 2 ^ 32.
Definition in_i32 (z : Z) : bool := (- 2 ^ 31 <=? z)%Z && (z <? 2 ^ 31)%Z.
Definition in_i64 (z : Z) : bool := (- 2 ^ 63 <=? z)%Z && (z <? 2 ^ 63)%Z.

(** Conversion to [int] (two's complement, modular). *)
Definition to_i32 (z : Z) : Z := ((z + 2 ^ 31) mod 2 ^ 32 - 2 ^ 31)%Z.

(** Signed arithmetic: overflow is undefined. *)
Definition i32 (z : Z) : res Z := if in_i32 z then Ok z else Err EOverflow.
Definition i64 (z : Z) : res Z := if in_i64 z then Ok z else Err EOverflow.

(** [a / b] and [a % b] on [int]: truncation toward zero. *)
Definition i32_div (a b : Z) : res Z :=
  if (b =? 0)%Z then Err EDivByZero else i32 (Z.quot a b).
Definition i32_rem (a b : Z) : res Z :=
  if (b =? 0)%Z then Err EDivByZero
  else if in_i32 (Z.quot a b) then Ok (Z.rem a b) else Err EOverflow.

(** [(int)std::ceil((double)a / b)] on two [int]s.  Both operands are exact
    as doubles and the rounding error of the quotient is below [2^-53 * |a/b|],
    smaller than the distance [1/|b|] of a non-integer quotient to the nearest
    integer, so the rounded quotient has the ceiling of the exact one. *)
Definition i32_ceil_div (a b : Z) : res Z :=
  if (b =? 0)%Z then Err EDivByZero else i32 (- ((- a) / b)).

(** ** Containers *)

(** [v[i]] on a [std::vector]. *)
Definition vec_get {A} (v : list A) (i : Z) : res A :=
  if (i <? 0)%Z then Err EOutOfRange
  else of_option EOutOfRange (v !! Z.to_nat i).

(** [v[i] = x] on a [std::vector]. *)
Definition vec_set {A} (v : list A) (i : Z) (x : A) : res (list A) :=
  if ((0 <=? i) && (i <? Z.of_nat (length v)))%Z
  then Ok (<[Z.to_nat i := x]> v) else Err EOutOfRange.

(** ** Loops *)

Fixpoint for_loop {St} (n : nat) (i : Z) (body : Z → M St unit) : M St unit :=
  match n with
  | O => mret tt
  | S n' => body i ;; for_loop n' (i + 1)%Z body
  end.

(** [for (int i = lo; i < hi; i++) body(i)] where the body does not change
    [i] nor [hi]. *)
Definition for_up {St} (lo hi : Z) (body : Z → M St unit) : M St unit :=
  for_loop (Z.to_nat (hi - lo)) lo body.

(** [for (auto &x : l) body(x)] *)
Fixpoint for_each {St A} (l : list A) (body : A → M St unit) : M St unit :=
  match l with
  | [] => mret tt
  | x :: l' => body x ;; for_each l' body
  end.

(** ** Generic lemmas *)

Section monad_laws.
Context {St : Type}.

Lemma M_bind_ok {A B} (m : M St A) (f : A → M St B) s a s' :
  m s = Ok (a, s') → (m ≫= f) s = f a s'.
Proof. unfold mbind, M_bind. intros ->. done. Qed.

Lemma M_bind_err {A B} (m : M St A) (f : A → M St B) s e :
  m s = Err e → (m ≫= f) s = Err e.
Proof. unfold mbind, M_bind. intros ->. done. Qed.

Lemma M_bind_inv {A B} (m : M St A) (f : A → M St B) s r :
  (m ≫= f) s = Ok r → ∃ a s', m s = Ok (a, s') ∧ f a s' = Ok r.
Proof.
  unfold mbind, M_bind. destruct (m s) as [[a s']|e] eqn:E; [eauto|done].
Qed.

Lemma M_seq_ok {B} (m : M St unit) (k : M St B) s s' :
  m s = Ok (tt, s') → (m ;; k) s = k s'.
Proof. intros H. by rewrite (M_bind_ok _ _ _ _ _ H). Qed.

Lemma M_bind_assoc {A B C} (m : M St A) (f : A → M St B) (g : B → M St C) s :
  ((m ≫= f) ≫= g) s = (m ≫= (λ a, f a ≫= g)) s.
Proof. unfold mbind, M_bind. by destruct (m s) as [[]|]. Qed.

Lemma lift_ok {A} (r : res A) a (s : St) : r = Ok a → lift r s = Ok (a, s).
Proof. by intros ->. Qed.
End monad_laws.

Section loops.
Context {St : Type}.

(** Total-correctness rule for counting loops: an invariant that every
    iteration re-establishes gives termination without error. *)
Lemma for_loop_inv (P : Z → St → Prop) (body : Z → M St unit) n i s :
  P i s →
  (∀ j s, (i ≤ j < i + Z.of_nat n)%Z → P j s →
     ∃ s', body j s = Ok (tt, s') ∧ P (j + 1)%Z s') →
  ∃ s', for_loop n i body s = Ok (tt, s') ∧ P (i + Z.of_nat n)%Z s'.
Proof.
  revert i s. induction n as [|n IH]; intros i s HP Hbody; simpl.
  - exists s. split; [done|]. by replace (i + Z.of_nat 0)%Z with i by lia.
  - destruct (Hbody i s ltac:(lia) HP) as (s1 & Hb & HP1).
    rewrite (M_seq_ok _ _ _ _ Hb).
    destruct (IH (i + 1)%Z s1 HP1) as (s2 & Hl & HP2).
    { intros j t Hj. apply Hbody. lia. }
    exists s2. split; [done|].
    by replace (i + Z.of_nat (S n))%Z with (i + 1 + Z.of_nat n)%Z by lia.
Qed.

Lemma for_up_inv (P : Z → St → Prop) (body : Z → M St unit) lo hi s :
  P lo s →
  (∀ j s, (lo ≤ j < hi)%Z → P j s → ∃ s', body j s = Ok (tt, s') ∧ P (j + 1)%Z s') →
  ∃ s', for_up lo hi body s = Ok (tt, s') ∧ P (lo `max` hi)%Z s'.
Proof.
  intros HP Hb. unfold for_up.
  destruct (for_loop_inv P body (Z.to_nat (hi - lo)) lo s HP) as (s' & E & HP').
  { intros j t Hj. apply Hb. lia. }
  exists s'. split; [done|]. by replace (lo `max` hi)%Z with
    (lo + Z.of_nat (Z.to_nat (hi - lo)))%Z by lia.
Qed.

Lemma for_each_app {A} (l1 l2 : list A) (body : A → M St unit) s :
  for_each (l1 ++ l2) body s = (for_each l1 body ;; for_each l2 body) s.
Proof.
  revert s. induction l1 as [|x l1 IH]; intros s; simpl; [done|].
  rewrite M_bind_assoc. unfold mbind, M_bind. destruct (body x s) as [[[] s']|]; [|done].
  apply IH.
Qed.

(** Unrolling loops with a constant bound. *)
Lemma for_up_unroll1 (i : Z) (body : Z → M St unit) :
  for_up i (i + 1) body = (body i ;; mret tt).
Proof. unfold for_up. by replace (Z.to_nat (i + 1 - i)) with 1%nat by lia. Qed.

Lemma for_up_unroll4 (body : Z → M St unit) :
  for_up 0 4 body = (body 0%Z ;; body 1%Z ;; body 2%Z ;; body 3%Z ;; mret tt).
Proof. done. Qed.

Lemma for_each_inv {A} (P : list A → St → Prop) (body : A → M St unit) l s :
  P [] s →
  (∀ l1 x l2 s, l = l1 ++ x :: l2 → P l1 s →
     ∃ s', body x s = Ok (tt, s') ∧ P (l1 ++ [x]) s') →
  ∃ s', for_each l body s = Ok (tt, s') ∧ P l s'.
Proof.
  intros HP Hb.
  cut (∀ l2 l1 s, l = l1 ++ l2 → P l1 s →
         ∃ s', for_each l2 body s = Ok (tt, s') ∧ P l s').
  { intros Hcut. by apply (Hcut l []). }
  intros l2. induction l2 as [|x l2 IH]; intros l1 t Hl HP1; simpl.
  - exists t. rewrite app_nil_r in Hl. by subst.
  - destruct (Hb l1 x l2 t Hl HP1) as (t1 & E & HP2).
    rewrite (M_seq_ok _ _ _ _ E). apply (IH (l1 ++ [x])); [|done].
    by rewrite <-app_assoc.
Qed.
End loops.

Section integers.
Local Open Scope Z_scope.

Lemma u64_range z : 0 ≤ u64 z < 2 ^ 64.
Proof. apply Z.mod_pos_bound. lia. Qed.

Lemma u64_small z : 0 ≤ z < 2 ^ 64 → u64 z = z.
Proof. apply Z.mod_small. Qed.

Lemma u32_small z : 0 ≤ z < 2 ^ 32 → u32 z = z.
Proof. apply Z.mod_small. Qed.

Lemma u64_idemp z : u64 (u64 z) = u64 z.
Proof. apply u64_small, u64_range. Qed.

Lemma u64_add_l a b : u64 (u64 a + b) = u64 (a + b).
Proof. unfold u64. apply Zplus_mod_idemp_l. Qed.

Lemma in_i32_spec z : in_i32 z = true ↔ - 2 ^ 31 ≤ z < 2 ^ 31.
Proof. unfold in_i32. rewrite andb_true_iff, Z.leb_le, Z.ltb_lt. done. Qed.

Lemma in_i64_spec z : in_i64 z = true ↔ - 2 ^ 63 ≤ z < 2 ^ 63.
Proof. unfold in_i64. rewrite andb_true_iff, Z.leb_le, Z.ltb_lt. done. Qed.

Lemma i32_ok z : - 2 ^ 31 ≤ z < 2 ^ 31 → i32 z = Ok z.
Proof. intros H. unfold i32. by rewrite (proj2 (in_i32_spec z) H). Qed.

Lemma i64_ok z : - 2 ^ 63 ≤ z < 2 ^ 63 → i64 z = Ok z.
Proof. intros H. unfold i64. by rewrite (proj2 (in_i64_spec z) H). Qed.

Lemma i32_inv z r : i32 z = Ok r → r = z ∧ - 2 ^ 31 ≤ z < 2 ^ 31.
Proof.
  unfold i32. destruct (in_i32 z) eqn:E; [|done].
  intros [= ->]. split; [done|]. by apply in_i32_spec.
Qed.

Lemma quot_pos_range a b n : 0 ≤ a < n → 0 < b → 0 ≤ a ÷ b < n.
Proof.
  intros Ha Hb. split; [apply Z.quot_pos; lia|].
  apply Z.le_lt_trans with a; [|lia]. apply Z.quot_le_upper_bound; nia.
Qed.

Lemma i32_div_pos a b : 0 ≤ a < 2 ^ 31 → 0 < b → i32_div a b = Ok (a / b).
Proof.
  intros Ha Hb. unfold i32_div.
  destruct (Z.eqb_spec b 0); [lia|].
  rewrite i32_ok by (pose proof (quot_pos_range a b _ Ha Hb); lia).
  by rewrite Z.quot_div_nonneg by lia.
Qed.

Lemma i32_rem_pos a b : 0 ≤ a < 2 ^ 31 → 0 < b → i32_rem a b = Ok (a mod b).
Proof.
  intros Ha Hb. unfold i32_rem.
  destruct (Z.eqb_spec b 0); [lia|].
  rewrite (proj2 (in_i32_spec _))
    by (pose proof (quot_pos_range a b _ Ha Hb); lia).
  by rewrite Z.rem_mod_nonneg by lia.
Qed.

(** The ceiling of a quotient of positive numbers, as a quotient. *)
Lemma ceil_div_alt a b : 0 < b → - ((- a) / b) = (a + b - 1) / b.
Proof.
  intros Hb. pose proof (Z.div_mod (- a) b ltac:(lia)).
  pose proof (Z.mod_pos_bound (- a) b Hb).
  apply Z.div_unique with (b - 1 - (- a) mod b); lia.
Qed.

Lemma i32_ceil_div_pos a b :
  0 ≤ a < 2 ^ 31 → 0 < b → i32_ceil_div a b = Ok ((a + b - 1) / b).
Proof.
  intros Ha Hb. unfold i32_ceil_div.
  destruct (Z.eqb_spec b 0); [lia|].
  rewrite ceil_div_alt by done.
  rewrite i32_ok; [done|]. split.
  - apply Z.le_trans with 0; [lia|]. apply Z.div_pos; lia.
  - apply Z.div_lt_upper_bound; nia.
Qed.
End integers.

Section vectors.
Context {A : Type}.
Implicit Types v : list A.

Lemma vec_get_nat v (i : nat) x : v !! i = Some x → vec_get v (Z.of_nat i) = Ok x.
Proof.
  intros H. unfold vec_get. destruct (Z.ltb_spec (Z.of_nat i) 0); [lia|].
  by rewrite Nat2Z.id, H.
Qed.

Lemma vec_get_Z v (i : Z) x :
  (0 ≤ i)%Z → v !! Z.to_nat i = Some x → vec_get v i = Ok x.
Proof.
  intros Hi H. unfold vec_get. destruct (Z.ltb_spec i 0); [lia|]. by rewrite H.
Qed.

Lemma vec_get_inv v i x :
  vec_get v i = Ok x → (0 ≤ i)%Z ∧ v !! Z.to_nat i = Some x.
Proof.
  unfold vec_get. destruct (Z.ltb_spec i 0); [done|].
  destruct (v !! Z.to_nat i) eqn:E; simpl; [|done]. intros [= ->]. done.
Qed.

Lemma vec_set_ok v i x :
  (0 ≤ i < Z.of_nat (length v))%Z → vec_set v i x = Ok (<[Z.to_nat i := x]> v).
Proof.
  intros H. unfold vec_set.
  rewrite (proj2 (Z.leb_le 0 i)), (proj2 (Z.ltb_lt i _)) by lia. done.
Qed.
End vectors.

Section filters.
Context {A : Type} (P : A → Prop) `{∀ x, Decision (P x)}.

Lemma filter_none (l : list A) : Forall (λ x, ¬ P x) l → filter P l = [].
Proof. induction 1; [done|]. by rewrite filter_cons_False. Qed.

Lemma filter_all (l : list A) : Forall P l → filter P l = l.
Proof. induction 1 as [|x l Hx Hl IH]; [done|]. by rewrite filter_cons_True, IH. Qed.

Lemma filter_iff_on (Q : A → Prop) `{∀ x, Decision (Q x)} (l : list A) :
  (∀ x, x ∈ l → P x ↔ Q x) → filter P l = filter Q l.
Proof.
  induction l as [|x l IH]; intros HPQ; [done|]. rewrite !filter_cons, IH by set_solver.
  assert (P x ↔ Q x) by (apply HPQ; set_solver). by rewrite (decide_ext (P x) (Q x)).
Qed.

Lemma filter_fmap {B} (f : B → A) (l : list B) :
  filter P (f <$> l) = f <$> filter (λ x, P (f x)) l.
Proof.
  induction l as [|x l IH]; [done|]. csimpl. rewrite !filter_cons, IH. by case_decide.
Qed.
End filters.

(** ** Automation *)

Create HintDb cpp.
Create Rewrite HintDb cpp_arith.
#[export] Hint Resolve M_seq_ok lift_ok i32_ok i64_ok u64_range : cpp.
#[export] Hint Rewrite u64_idemp u64_add_l : cpp_arith.

(** Split a successful monadic run in a hypothesis into its steps. *)
Ltac inv_M H :=
  lazymatch type of H with
  | (_ ≫= _) _ = Ok _ =>
      let a := fresh "a" in let s := fresh "s" in
      let H1 := fresh "Hm" in
      apply M_bind_inv in H as (a & s & H1 & H); inv_M H
  | _ => idtac
  end.

(** Run the first statement of a successful run; a fallible one is known to
    have succeeded. *)
Ltac step_M H :=
  lazymatch type of H with
  | (modify ?g ≫= ?k) ?s = ?r => change (k tt (g s) = r) in H
  | (gets ?g ≫= ?k) ?s = ?r => change (k (g s) s = r) in H
  | (mret ?x ≫= ?k) ?s = ?r => change (k x s = r) in H
  | (when ?b ?m ≫= ?k) ?s = ?r =>
      lazymatch eval hnf in b with
      | true => change ((m ≫= k) s = r) in H
      | false => change (k tt s = r) in H
      end
  | (lift ?m ≫= ?k) ?s = ?r =>
      let x := fresh "x" in let e := fresh "e" in let E := fresh "E" in
      destruct m as [x|e] eqn:E; [change (k x s = r) in H|change (Err e = r) in H; discriminate H]
  | (massert ?w ?b ≫= ?k) ?s = ?r =>
      let E := fresh "E" in
      destruct b eqn:E; [change (k tt s = r) in H|discriminate H]
  end; cbv beta in H.
Ltac run_M H := repeat step_M H.

(** The same in a goal: the statements that cannot fail, and assertions [tac]
    proves. *)
Lemma massert_bind {St B} what (c : bool) (k : unit → M St B) s :
  c = true → (massert what c ≫= k) s = k tt s.
Proof. by intros ->. Qed.

Ltac exec_step tac :=
  lazymatch goal with
  | |- (modify ?g ≫= ?k) ?s = ?r => change (k tt (g s) = r)
  | |- (gets ?g ≫= ?k) ?s = ?r => change (k (g s) s = r)
  | |- (mret ?x ≫= ?k) ?s = ?r => change (k x s = r)
  | |- (massert ?w ?b ≫= ?k) ?s = ?r => rewrite (massert_bind w b k s) by tac
  end; cbv beta.
Ltac exec_M tac := repeat exec_step tac.

(** Case on the innermost [if]/[match] scrutinee of the goal. *)
Ltac case_goal :=
  match goal with
  | |- context [match ?x with _ => _ end] =>
      lazymatch x with context [match _ with _ => _ end] => fail | _ => idtac end;
      destruct x eqn:?
  end.
