(* ===== verification/Graph.v ===== *)
(** * The data model of the traffic generator

    [workload_analysis/graph.hpp], [strategy.hpp], [util.hpp] and [pe.hpp]:
    tensors, operator nodes, the graph, the splitting strategy and the grid of
    processing elements.  Tensors are reached through pointers ([Tensor *]) and
    copies of a [Node] are shallow, so tensors live in a heap [gmap loc Tensor]
    and nodes hold locations: two nodes (or two fields of one node) that hold
    the same location see each other's updates, as in the C++. *)
From stdpp Require Import base tactics list gmap strings.
From Stdlib Require Import ZArith Lia.
From S2P Require Import Prelude.
Local Open Scope Z_scope.

(** ** Enumerations *)

(** [enum class DataType]; its underlying type is [int] and the parser casts
    any integer to it, so values without an enumerator exist too. *)
Inductive DataType :=
  | INT8 | FP8 | BF16 | FP16 | INT32 | FP32 | INT64 | FP64
  | DataType_other (z : Z).

Definition DataType_of_int (z : Z) : DataType :=
  if z =? 0 then INT8 else if z =? 1 then FP8 else if z =? 2 then BF16
  else if z =? 3 then FP16 else if z =? 4 then INT32 else if z =? 5 then FP32
  else if z =? 6 then INT64 else if z =? 7 then FP64 else DataType_other z.

Inductive Operator :=
  | CONV | GEMM | RELU | MAXPOOL | BATCHNORMAL | SOFTMAX | RESHPAE | AVGPOOL.

#[export] Instance DataType_eq_dec : EqDecision DataType.
Proof. solve_decision. Defined.
#[export] Instance Operator_eq_dec : EqDecision Operator.
Proof. solve_decision. Defined.

(** ** Tensors, attributes, nodes, graphs *)

(** [None] is an uninitialised member: [Tensor]'s constructor leaves [id],
    [size], [address] and [original_size] indeterminate. *)
Record Tensor := mkTensor {
  t_id : option Z;
  t_name : string;
  t_shape : list Z;            (* N, C, H, W *)
  t_data_type : DataType;
  t_size : option Z;           (* long long *)
  t_address : option Z;        (* uint64_t *)
  t_original_size : option Z;  (* uint64_t *)
}.

(** The constructor [Tensor(name, shape, datatype)]. *)
Definition Tensor_new (name : string) (shape : list Z) (datatype : DataType) : Tensor :=
  mkTensor None name shape datatype None None None.

Record NodeAttribute := mkNodeAttribute {
  a_name : string;
  a_data_type : DataType;
  a_data : list Z;
}.

(** A [Tensor *]. *)
Abbreviation loc := positive.
Abbreviation heap := (gmap loc Tensor).

Record Node := mkNode {
  n_id : Z;                            (* uint32_t *)
  n_name : string;
  n_op : Operator;
  n_inputs : list loc;
  n_outputs : list loc;
  n_attributes : list NodeAttribute;   (* never written once built *)
  n_parents : list loc;                (* never used *)
  n_childs : list loc;                 (* never used *)
  n_size : option Z;                   (* never used *)
  n_origianl_input_size : list Z;
}.

(** The constructor [Node(id, name, op)]. *)
Definition Node_new (id : Z) (name : string) (op : Operator) : Node :=
  mkNode id name op [] [] [] [] [] None [].

Record Graph := mkGraph { g_name : string; g_nodes : list Node }.

(** ** Field updates *)

Definition set_shape (s : list Z) (t : Tensor) : Tensor :=
  mkTensor (t_id t) (t_name t) s (t_data_type t) (t_size t) (t_address t)
    (t_original_size t).
Definition set_size (z : Z) (t : Tensor) : Tensor :=
  mkTensor (t_id t) (t_name t) (t_shape t) (t_data_type t) (Some z) (t_address t)
    (t_original_size t).
Definition set_address (z : Z) (t : Tensor) : Tensor :=
  mkTensor (t_id t) (t_name t) (t_shape t) (t_data_type t) (t_size t) (Some z)
    (t_original_size t).
Definition set_original_size (z : Z) (t : Tensor) : Tensor :=
  mkTensor (t_id t) (t_name t) (t_shape t) (t_data_type t) (t_size t) (t_address t)
    (Some z).

Definition set_inputs (l : list loc) (n : Node) : Node :=
  mkNode (n_id n) (n_name n) (n_op n) l (n_outputs n) (n_attributes n)
    (n_parents n) (n_childs n) (n_size n) (n_origianl_input_size n).
Definition set_outputs (l : list loc) (n : Node) : Node :=
  mkNode (n_id n) (n_name n) (n_op n) (n_inputs n) l (n_attributes n)
    (n_parents n) (n_childs n) (n_size n) (n_origianl_input_size n).
Definition set_attributes (l : list NodeAttribute) (n : Node) : Node :=
  mkNode (n_id n) (n_name n) (n_op n) (n_inputs n) (n_outputs n) l
    (n_parents n) (n_childs n) (n_size n) (n_origianl_input_size n).
Definition set_origianl_input_size (l : list Z) (n : Node) : Node :=
  mkNode (n_id n) (n_name n) (n_op n) (n_inputs n) (n_outputs n) (n_attributes n)
    (n_parents n) (n_childs n) (n_size n) l.

(** ** Pointers *)

(** [*p] *)
Definition deref (h : heap) (p : loc) : res Tensor := of_option EBadPointer (h !! p).
(** Reads of members that may be uninitialised. *)
Definition get_size (t : Tensor) : res Z := of_option EUninit (t_size t).
Definition get_address (t : Tensor) : res Z := of_option EUninit (t_address t).

(** ** Strategy ([strategy.hpp]) and its sub-graph count ([util.hpp]) *)

Record Strategy := mkStrategy {
  splitSize : list (list Z);
  mappingStrategy : string;
}.

(** [strategy.splitSize[i][j]] *)
Definition split_at (s : Strategy) (i j : Z) : res Z :=
  row ← vec_get (splitSize s) i; vec_get row j.

(** [for (auto &i : l) acc *= i] on [int]s. *)
Fixpoint i32_prod (acc : Z) (l : list Z) : res Z :=
  match l with
  | [] => Ok acc
  | x :: l' => acc' ← i32 (acc * x); i32_prod acc' l'
  end.

Definition get_num_subgraph (s : Strategy) : res Z :=
  if (length (splitSize s) =? 2)%nat then
    a ← split_at s 0 2;
    n ← i32 (1 * a);
    b ← split_at s 0 3;
    n ← i32 (n * b);
    row ← vec_get (splitSize s) 1;
    i32_prod n row
  else
    row ← vec_get (splitSize s) 0;
    i32_prod 1 row.

(** ** The PE grid ([pe.hpp]) *)
Module PEGrid.
Record t := mk {
  peNum : Z;
  peMemory : Z;
  peMemArr : list Z;
}.

(** The constructor: [peMemArr.resize(peNum)] throws on a negative count
    (converted to [size_t] it exceeds [max_size()]). *)
Definition new (peNum memory : Z) : res t :=
  if peNum <? 0 then Err (EThrow "length_error")
  else Ok (mk peNum memory (replicate (Z.to_nat peNum) memory)).

(** [isRunnable] returns [true] before it reaches its comparison. *)
Definition isRunnable (g : t) (subgraphMem : Z) : bool := true.

(** The comparison [isRunnable] was written for, which is dead code. *)
Definition isRunnable_intended (g : t) (subgraphMem : Z) : bool :=
  subgraphMem <=? peMemory g.

Definition numRound (g : t) (numSubgraph : Z) : res (Z * Z) :=
  r ← i32_ceil_div numSubgraph (peNum g);
  m ← i32_rem numSubgraph (peNum g);
  Ok (r, m).
End PEGrid.

(** ** Lemmas *)

Definition prod (l : list Z) : Z := foldr Z.mul 1 l.

Lemma prod_nonneg l : Forall (λ x, 0 ≤ x) l → 0 ≤ prod l.
Proof. induction 1; unfold prod in *; simpl; nia. Qed.

Lemma prod_pos l : Forall (λ x, 0 < x) l → 0 < prod l.
Proof. induction 1; unfold prod in *; simpl; nia. Qed.

Lemma i32_prod_ok acc l :
  1 ≤ acc → Forall (λ x, 1 ≤ x) l → acc * prod l < 2 ^ 31 →
  i32_prod acc l = Ok (acc * prod l).
Proof.
  intros Hacc Hl. revert acc Hacc.
  induction Hl as [|x l Hx Hl IH]; intros acc Hacc Hb; simpl in *.
  - by rewrite Z.mul_1_r.
  - fold (prod l) in *. pose proof (prod_pos l) as Hp.
    assert (0 < prod l) by (apply Hp; eapply Forall_impl; [done|]; simpl; lia).
    rewrite i32_ok by nia. simpl. rewrite IH; [f_equal; lia|nia|nia].
Qed.

Lemma get_num_subgraph_conv s r0 r1 h w :
  splitSize s = [r0; r1] → r0 !! 2%nat = Some h → r0 !! 3%nat = Some w →
  1 ≤ h → 1 ≤ w → Forall (λ x, 1 ≤ x) r1 → h * w * prod r1 < 2 ^ 31 →
  get_num_subgraph s = Ok (h * w * prod r1).
Proof.
  intros Hs Hh Hw Hh1 Hw1 Hr Hb. unfold get_num_subgraph, split_at.
  rewrite Hs. simpl. rewrite (vec_get_Z r0 2 h), (vec_get_Z r0 3 w) by (lia || done).
  simpl.
  assert (0 < prod r1) by (apply prod_pos; eapply Forall_impl; [done|]; simpl; lia).
  rewrite Z.mul_1_l, i32_ok by nia. simpl. rewrite i32_ok by nia. simpl.
  apply i32_prod_ok; nia || done.
Qed.

Lemma get_num_subgraph_single s r0 :
  splitSize s = [r0] → Forall (λ x, 1 ≤ x) r0 → prod r0 < 2 ^ 31 →
  get_num_subgraph s = Ok (prod r0).
Proof.
  intros Hs Hr Hb. unfold get_num_subgraph. rewrite Hs. simpl.
  rewrite i32_prod_ok; [f_equal; lia|lia|done|lia].
Qed.
