(* ===== verification/Workload.v ===== *)
(** * Workload analysis: splitting an operator node into tiles

    [workload_analysis/operator/*.hpp].  A [Workload] object has a pointer to
    the base node, a pointer to a shallow copy of it (the split node) and a
    copy of the strategy.  [split] divides tensor shapes in place, [computeSize]
    stores the byte size of every tensor of the split node,
    [compute_original_size] records the element counts before the split.
    The state is the tensor heap and the split node; the base node is only
    read through. *)
From stdpp Require Import base tactics list gmap strings.
From Stdlib Require Import ZArith Lia.
From S2P Require Import Prelude Graph.
Local Open Scope Z_scope.

Record wstate := mkWstate {
  w_heap : heap;
  w_split : Node;
}.

(** The classes derived from [Workload]. *)
Inductive workload_class :=
  | Conv | ConvBatchnorm | Batchnorm | Relu | MaxPool | AvgPool.

(** ** Accesses *)

Definition w_tensor (p : loc) : M wstate Tensor := λ s,
  lift (deref (w_heap s) p) s.
Definition w_put (p : loc) (t : Tensor) : M wstate unit :=
  modify (λ s, mkWstate (<[p := t]> (w_heap s)) (w_split s)).

(** [split_node->inputs[i]] and [split_node->outputs[i]] *)
Definition w_input (i : Z) : M wstate loc := λ s,
  lift (vec_get (n_inputs (w_split s)) i) s.
Definition w_output (i : Z) : M wstate loc := λ s,
  lift (vec_get (n_outputs (w_split s)) i) s.

(** [split_node->attributes[i]->data[0]] *)
Definition w_attr0 (i : Z) : M wstate Z := λ s,
  lift (a ← vec_get (n_attributes (w_split s)) i; vec_get (a_data a) 0) s.

(** [p->shape[j]] *)
Definition shape_get (p : loc) (j : Z) : M wstate Z :=
  t ← w_tensor p; lift (vec_get (t_shape t) j).

(** [p->shape[j] = x] *)
Definition shape_set (p : loc) (j x : Z) : M wstate unit :=
  t ← w_tensor p; sh ← lift (vec_set (t_shape t) j x); w_put p (set_shape sh t).

(** [p->shape[j] /= d] *)
Definition shape_div (p : loc) (j d : Z) : M wstate unit :=
  x ← shape_get p j; q ← lift (i32_div x d); shape_set p j q.

(** ** [Workload] *)

Section workload.
Variable strategy : Strategy.

(** [Workload::split], inherited by [Relu]: afterwards every output pointer
    of the split node is its first input pointer. *)
Definition Workload_split : M wstate unit :=
  for_up 0 (Z.of_nat (length (splitSize strategy))) (λ i,
    for_up 0 4 (λ j,
      d ← lift (split_at strategy i j);
      p ← w_input i;
      shape_div p j d)) ;;
  n ← gets (λ s, length (n_outputs (w_split s)));
  for_up 0 (Z.of_nat n) (λ i,
    p ← w_input 0;
    outs ← gets (λ s, n_outputs (w_split s));
    outs' ← lift (vec_set outs i p);
    modify (λ s, mkWstate (w_heap s) (set_outputs outs' (w_split s)))).

(** [size = 1; for (auto &j : shape) size *= j;] on [long long]. *)
Fixpoint i64_prod (acc : Z) (l : list Z) : res Z :=
  match l with
  | [] => Ok acc
  | x :: l' => acc' ← i64 (acc * x); i64_prod acc' l'
  end.

(** One iteration of the loops of [computeSize]: store the byte size of the
    tensor and add it to the running total. *)
Definition size_tensor (p : loc) (memory_usage : Z) : M wstate Z :=
  t ← w_tensor p;
  size ← lift (i64_prod 1 (t_shape t));
  size ← lift (i64 (size * 4));
  w_put p (set_size size t) ;;
  lift (i64 (memory_usage + size)).

Fixpoint size_tensors (l : list loc) (memory_usage : Z) : M wstate Z :=
  match l with
  | [] => mret memory_usage
  | p :: l' => m ← size_tensor p memory_usage; size_tensors l' m
  end.

Definition computeSize : M wstate Z :=
  ins ← gets (λ s, n_inputs (w_split s));
  m ← size_tensors ins 0;
  outs ← gets (λ s, n_outputs (w_split s));
  size_tensors outs m.

(** [compute_original_size] iterates over the inputs of the base node. *)
Definition compute_original_size (node : Node) : M wstate unit :=
  for_each (n_inputs node) (λ p,
    t ← w_tensor p;
    size ← lift (i64_prod 1 (t_shape t));
    w_put p (set_size size t) ;;
    modify (λ s, mkWstate (w_heap s)
      (set_origianl_input_size (n_origianl_input_size (w_split s) ++ [size])
         (w_split s)))).

(** ** The overriding [split]s *)

(** [(x - 1) * stride + k - pad], the input extent of an output extent [x]. *)
Definition halo (x stride k pad : Z) : res Z :=
  a ← i32 (x - 1); b ← i32 (a * stride); c ← i32 (b + k); i32 (c - pad).

(** Lines common to [Conv::split] and [ConvBatchnorm::split]: output, input
    and weight tensors. *)
Definition conv_split_tensors : M wstate unit :=
  (* output *)
  d ← lift (split_at strategy 1 0); po ← w_output 0; shape_div po 1 d ;;
  d ← lift (split_at strategy 0 2); po ← w_output 0; shape_div po 2 d ;;
  d ← lift (split_at strategy 0 3); po ← w_output 0; shape_div po 3 d ;;
  (* input tensor *)
  d ← lift (split_at strategy 0 1); pi ← w_input 0; shape_div pi 1 d ;;
  pad ← w_attr0 3;
  stride ← w_attr0 4;
  pw ← w_input 1;
  r ← shape_get pw 2;
  s ← shape_get pw 3;
  (* original size *)
  d2 ← lift (split_at strategy 0 2); pi ← w_input 0; shape_div pi 2 d2 ;;
  d3 ← lift (split_at strategy 0 3); pi ← w_input 0; shape_div pi 3 d3 ;;
  (* update size with padding *)
  when (1 <? d2) (
    po ← w_output 0; x ← shape_get po 2;
    v ← lift (halo x stride r pad);
    pi ← w_input 0; shape_set pi 2 v) ;;
  when (1 <? d3) (
    po ← w_output 0; y ← shape_get po 3;
    v ← lift (halo y stride s pad);
    pi ← w_input 0; shape_set pi 3 v) ;;
  (* weight tensor *)
  for_up 0 4 (λ i,
    d ← lift (split_at strategy 1 i); pw ← w_input 1; shape_div pw i d).

Definition num_inputs : M wstate Z :=
  gets (λ s, Z.of_nat (length (n_inputs (w_split s)))).

(** bias *)
Definition split_bias : M wstate unit :=
  n ← num_inputs;
  when (2 <? n) (
    d ← lift (split_at strategy 1 0); pb ← w_input 2; shape_div pb 0 d).

Definition Conv_split : M wstate unit := conv_split_tensors ;; split_bias.

(** [inputs[i]->shape[0] /= splitSize[1][0]] for [i] in [[lo, n)]. *)
Definition split_params (lo n : Z) : M wstate unit :=
  for_up lo n (λ i,
    d ← lift (split_at strategy 1 0); p ← w_input i; shape_div p 0 d).

Definition ConvBatchnorm_split : M wstate unit :=
  conv_split_tensors ;;
  (* bias + batchnorm weight *)
  n ← num_inputs;
  if n =? 7 then
    d ← lift (split_at strategy 1 0); pb ← w_input 2; shape_div pb 0 d ;;
    d ← lift (split_at strategy 1 0);
    when (1 <? d) (split_params 3 n)
  else
    d ← lift (split_at strategy 1 0);
    when (1 <? d) (split_params 2 n).

Definition Batchnorm_split : M wstate unit :=
  for_up 0 4 (λ j,
    d ← lift (split_at strategy 0 j); pi ← w_input 0; shape_div pi j d ;;
    d ← lift (split_at strategy 0 j); po ← w_output 0; shape_div po j d) ;;
  (* scale, B, mean, var *)
  for_up 1 5 (λ i,
    d ← lift (split_at strategy 0 0); p ← w_input i; shape_div p 0 d).

(** Both input extents are computed from the output height. *)
Definition MaxPool_split : M wstate unit :=
  d ← lift (split_at strategy 0 1); pi ← w_input 0; shape_div pi 1 d ;;
  d ← lift (split_at strategy 0 1); po ← w_output 0; shape_div po 1 d ;;
  d ← lift (split_at strategy 0 2); po ← w_output 0; shape_div po 2 d ;;
  d ← lift (split_at strategy 0 3); po ← w_output 0; shape_div po 3 d ;;
  kernel ← w_attr0 0;
  pad ← w_attr0 1;
  stride ← w_attr0 2;
  po ← w_output 0;
  output_h ← shape_get po 2;
  a ← lift (i32 (output_h - 1)); b ← lift (i32 (a * stride));
  v ← lift (i32 (b + kernel));
  pi ← w_input 0; shape_set pi 2 v ;;
  pi ← w_input 0; shape_set pi 3 v.

Definition AvgPool_split : M wstate unit :=
  d ← lift (split_at strategy 0 1); pi ← w_input 0; shape_div pi 1 d ;;
  d ← lift (split_at strategy 0 1); po ← w_output 0; shape_div po 1 d.

(** Dynamic dispatch of the virtual [split()]. *)
Definition split (c : workload_class) : M wstate unit :=
  match c with
  | Conv => Conv_split
  | ConvBatchnorm => ConvBatchnorm_split
  | Batchnorm => Batchnorm_split
  | Relu => Workload_split
  | MaxPool => MaxPool_split
  | AvgPool => AvgPool_split
  end.
End workload.

(** ** Symbolic execution of the accessors *)

Section steps.
Implicit Types (s : wstate) (t : Tensor).

Lemma w_tensor_ok s p t : w_heap s !! p = Some t → w_tensor p s = Ok (t, s).
Proof. intros H. unfold w_tensor, deref. by rewrite H. Qed.

Lemma shape_get_ok s p t j x :
  w_heap s !! p = Some t → vec_get (t_shape t) j = Ok x →
  shape_get p j s = Ok (x, s).
Proof.
  intros Hp Hx. unfold shape_get.
  rewrite (M_bind_ok _ _ _ _ _ (w_tensor_ok _ _ _ Hp)). by apply lift_ok.
Qed.

Lemma shape_set_ok s p t j x :
  w_heap s !! p = Some t → 0 ≤ j < Z.of_nat (length (t_shape t)) →
  shape_set p j x s =
    Ok (tt, mkWstate (<[p := set_shape (<[Z.to_nat j := x]> (t_shape t)) t]> (w_heap s))
              (w_split s)).
Proof.
  intros Hp Hj. unfold shape_set.
  rewrite (M_bind_ok _ _ _ _ _ (w_tensor_ok _ _ _ Hp)).
  by rewrite (M_bind_ok _ _ _ _ _ (lift_ok _ _ _ (vec_set_ok _ _ x Hj))).
Qed.

Lemma shape_div_ok s p t j x d :
  w_heap s !! p = Some t → vec_get (t_shape t) j = Ok x →
  0 ≤ x < 2 ^ 31 → 0 < d →
  shape_div p j d s =
    Ok (tt, mkWstate (<[p := set_shape (<[Z.to_nat j := x / d]> (t_shape t)) t]> (w_heap s))
              (w_split s)).
Proof.
  intros Hp Hx Hr Hd. unfold shape_div.
  rewrite (M_bind_ok _ _ _ _ _ (shape_get_ok _ _ _ _ _ Hp Hx)).
  rewrite (M_bind_ok _ _ _ _ _ (lift_ok _ _ _ (i32_div_pos _ _ Hr Hd))).
  apply shape_set_ok; [done|]. apply vec_get_inv in Hx as [Hj Hx].
  apply lookup_lt_Some in Hx. lia.
Qed.

Lemma w_input_ok s i p : vec_get (n_inputs (w_split s)) i = Ok p → w_input i s = Ok (p, s).
Proof. intros H. by apply lift_ok. Qed.
Lemma w_output_ok s i p : vec_get (n_outputs (w_split s)) i = Ok p → w_output i s = Ok (p, s).
Proof. intros H. by apply lift_ok. Qed.

Lemma w_attr0_ok s i a x :
  vec_get (n_attributes (w_split s)) i = Ok a → vec_get (a_data a) 0 = Ok x →
  w_attr0 i s = Ok (x, s).
Proof. intros H1 H2. unfold w_attr0. rewrite H1. simpl. by rewrite H2. Qed.

Lemma halo_ok x stride k pad :
  1 ≤ x → 0 ≤ stride → 0 ≤ k → 0 ≤ pad < 2 ^ 31 → (x - 1) * stride + k < 2 ^ 31 →
  x < 2 ^ 31 →
  halo x stride k pad = Ok ((x - 1) * stride + k - pad).
Proof.
  intros. unfold halo. rewrite i32_ok by lia. simpl.
  rewrite i32_ok by nia. simpl. rewrite i32_ok by nia. simpl. by rewrite i32_ok by nia.
Qed.
End steps.

(** ** Tensor sizes *)

Definition nelems (t : Tensor) : Z := prod (t_shape t).
Definition nbytes (t : Tensor) : Z := nelems t * 4.

(** The shapes the analysis works on: positive extents, byte size in range. *)
Definition tensor_ok (t : Tensor) : Prop :=
  Forall (λ x, 1 ≤ x) (t_shape t) ∧ nbytes t < 2 ^ 62.

Lemma nelems_pos t : tensor_ok t → 0 < nelems t.
Proof.
  intros [H _]. apply prod_pos. eapply Forall_impl; [done|]. simpl; lia.
Qed.

Lemma i64_prod_ok acc l :
  1 ≤ acc → Forall (λ x, 1 ≤ x) l → acc * prod l < 2 ^ 63 →
  i64_prod acc l = Ok (acc * prod l).
Proof.
  intros Hacc Hl. revert acc Hacc.
  induction Hl as [|x l Hx Hl IH]; intros acc Hacc Hb; simpl in *.
  - by rewrite Z.mul_1_r.
  - fold (prod l) in *.
    assert (0 < prod l)
      by (apply prod_pos; eapply Forall_impl; [done|]; simpl; lia).
    rewrite i64_ok by nia. simpl. rewrite IH; [f_equal; lia|nia|nia].
Qed.

Lemma tensor_prod_ok t : tensor_ok t → i64_prod 1 (t_shape t) = Ok (nelems t).
Proof.
  intros Ht. pose proof (nelems_pos t Ht) as Hp. destruct Ht as [Hs Hb].
  unfold nbytes, nelems in *. rewrite i64_prod_ok; [f_equal; lia|lia|done|lia].
Qed.

(** What [computeSize] leaves in the heap: the byte size in every tensor of
    [l], everything else untouched. *)
Definition sized (l : list loc) (h : heap) : heap :=
  map_imap (λ p t, Some (if decide (p ∈ l) then set_size (nbytes t) t else t)) h.

Lemma lookup_sized l h p :
  sized l h !! p = (λ t, if decide (p ∈ l) then set_size (nbytes t) t else t) <$> h !! p.
Proof. unfold sized. rewrite map_lookup_imap. by destruct (h !! p). Qed.

Lemma sized_nil h : sized [] h = h.
Proof.
  apply map_eq. intros p. rewrite lookup_sized. by destruct (h !! p).
Qed.

Lemma sized_snoc l h p t :
  h !! p = Some t →
  sized (l ++ [p]) h = <[p := set_size (nbytes t) t]> (sized l h).
Proof.
  intros Hp. apply map_eq. intros q. rewrite lookup_insert.
  destruct (decide (p = q)) as [<-|Hne].
  - rewrite lookup_sized, Hp. simpl. rewrite decide_True; [done|set_solver].
  - rewrite !lookup_sized. destruct (h !! q); simpl; [|done].
    repeat case_decide; set_solver.
Qed.

(** [Σ] of the byte sizes of the tensors [l] points to. *)
Definition sum_bytes (h : heap) (l : list loc) : Z :=
  foldr (λ p acc, default 0 (nbytes <$> h !! p) + acc) 0 l.

Lemma sum_bytes_app h l1 l2 : sum_bytes h (l1 ++ l2) = sum_bytes h l1 + sum_bytes h l2.
Proof. induction l1; simpl; lia. Qed.

Lemma sum_bytes_nonneg h l :
  (∀ p, p ∈ l → ∃ t, h !! p = Some t ∧ tensor_ok t) → 0 ≤ sum_bytes h l.
Proof.
  induction l as [|p l IH]; simpl; intros Hok; [lia|].
  destruct (Hok p) as (t & Ht & Hp); [set_solver|]. rewrite Ht. simpl.
  pose proof (nelems_pos t Hp). unfold nbytes.
  assert (0 ≤ sum_bytes h l) by (apply IH; set_solver). lia.
Qed.

Lemma size_tensor_ok h l p t m nd :
  h !! p = Some t → tensor_ok t → 0 ≤ m < 2 ^ 62 →
  size_tensor p m (mkWstate (sized l h) nd) =
    Ok (m + nbytes t, mkWstate (sized (l ++ [p]) h) nd).
Proof.
  intros Hp Ht Hm. unfold size_tensor.
  set (t' := if decide (p ∈ l) then set_size (nbytes t) t else t).
  assert (sized l h !! p = Some t') as Hl by (by rewrite lookup_sized, Hp).
  assert (t_shape t' = t_shape t) as Hsh by (by subst t'; case_decide).
  rewrite (M_bind_ok _ _ _ _ _ (w_tensor_ok (mkWstate _ nd) _ _ Hl)).
  rewrite Hsh, (M_bind_ok _ _ _ _ _ (lift_ok _ _ _ (tensor_prod_ok t Ht))).
  pose proof (nelems_pos t Ht) as Hpos. destruct Ht as [Hs Hb]. unfold nbytes in *.
  rewrite (M_bind_ok _ _ _ _ _ (lift_ok _ _ _ (i64_ok (nelems t * 4) ltac:(lia)))).
  simpl. unfold mbind, M_bind, w_put, modify; simpl.
  rewrite (lift_ok _ _ _ (i64_ok (m + nelems t * 4) ltac:(lia))).
  do 3 f_equal. rewrite (sized_snoc _ _ _ _ Hp). f_equal.
  subst t'. by case_decide.
Qed.

Lemma size_tensors_ok h l ps m nd :
  (∀ p, p ∈ ps → ∃ t, h !! p = Some t ∧ tensor_ok t) →
  0 ≤ m → m + sum_bytes h ps < 2 ^ 62 →
  size_tensors ps m (mkWstate (sized l h) nd) =
    Ok (m + sum_bytes h ps, mkWstate (sized (l ++ ps) h) nd).
Proof.
  revert l m. induction ps as [|p ps IH]; intros l m Hok Hm Hb; simpl in *.
  - rewrite app_nil_r, Z.add_0_r. done.
  - destruct (Hok p) as (t & Ht & Hto); [set_solver|]. rewrite Ht in *. simpl in *.
    assert (0 ≤ sum_bytes h ps) by (apply sum_bytes_nonneg; set_solver).
    pose proof (nelems_pos t Hto) as Hpos. unfold nbytes in Hb.
    rewrite (M_bind_ok _ _ _ _ _ (size_tensor_ok h l p t m nd Ht Hto ltac:(lia))).
    rewrite IH; [|set_solver|unfold nbytes; lia|unfold nbytes; lia].
    by rewrite <-app_assoc, Z.add_assoc.
Qed.

(** ** Splitting a convolution *)

(** Lookup in a heap that is a chain of updates at distinct locations. *)
Ltac heap_lookup :=
  cbn [w_heap w_split];
  repeat (rewrite lookup_insert_ne by congruence);
  first [ apply lookup_insert_eq | eassumption ].

(** Put the state reached so far in normal form: one update per location. *)
Ltac heap_norm :=
  cbn [w_heap w_split];
  change (Z.to_nat 0) with 0%nat; change (Z.to_nat 1) with 1%nat;
  change (Z.to_nat 2) with 2%nat; change (Z.to_nat 3) with 3%nat;
  repeat match goal with
    | |- context [set_shape ?a (set_shape ?b ?t)] =>
        change (set_shape a (set_shape b t)) with (set_shape a t)
    end;
  cbn [set_shape t_shape insert list_insert];
  rewrite ?insert_insert_eq.

(** One step of symbolic execution of the split code: the first action of the
    monadic program is run on the known heap. *)
Ltac wstep :=
  cbn [w_heap w_split];
  rewrite ?M_bind_assoc;
  first
  [ erewrite M_bind_ok; [| reflexivity ]; cbv beta
  | erewrite M_bind_ok; [| solve [ apply lift_ok; eauto ] ]
  | erewrite M_bind_ok; [| solve [ apply w_input_ok; cbn [w_split]; eassumption ] ]
  | erewrite M_bind_ok; [| solve [ apply w_output_ok; cbn [w_split]; eassumption ] ]
  | erewrite M_bind_ok; [| solve [ eapply w_attr0_ok; cbn [w_split]; eassumption ] ]
  | erewrite M_bind_ok;
      [| solve [ eapply shape_get_ok; [ heap_lookup | reflexivity ] ] ]
  | erewrite M_bind_ok;
      [| solve [ eapply shape_div_ok;
                   [ heap_lookup | reflexivity | cbn in *; lia | lia ] ] ]
  | erewrite M_bind_ok;
      [| solve [ eapply shape_set_ok; [ heap_lookup | cbn; lia ] ] ] ];
  heap_norm.

Definition dim (x : Z) : Prop := 0 ≤ x < 2 ^ 31.

(** The geometry of a convolution and of its strategy: shapes of the input
    [n c ih iw], of the weight [k wc r s], of the output [on oc oh ow], the
    padding and stride, and the two rows of split factors. *)
Record conv_geom := mkGeom {
  cg_n : Z; cg_c : Z; cg_ih : Z; cg_iw : Z;
  cg_k : Z; cg_wc : Z; cg_r : Z; cg_s : Z;
  cg_on : Z; cg_oc : Z; cg_oh : Z; cg_ow : Z;
  cg_pad : Z; cg_stride : Z;
  cg_s0 : Z; cg_s1 : Z; cg_s2 : Z; cg_s3 : Z;
  cg_k0 : Z; cg_k1 : Z; cg_k2 : Z; cg_k3 : Z;
}.

Definition geom_strategy (G : conv_geom) (m : string) : Strategy :=
  mkStrategy [[cg_s0 G; cg_s1 G; cg_s2 G; cg_s3 G];
              [cg_k0 G; cg_k1 G; cg_k2 G; cg_k3 G]] m.

Definition shape_at (h : heap) (p : loc) (sh : list Z) : Prop :=
  t_shape <$> h !! p = Some sh.

(** The node is a convolution as the parser builds it: an input, a weight and
    an output tensor that are different objects with four-dimensional shapes,
    [pads] and [strides] as its fourth and fifth attribute. *)
Record conv_node (G : conv_geom) (nd : Node) (h : heap) (pi pw po : loc) : Prop := {
  cn_in : vec_get (n_inputs nd) 0 = Ok pi;
  cn_w : vec_get (n_inputs nd) 1 = Ok pw;
  cn_out : vec_get (n_outputs nd) 0 = Ok po;
  cn_distinct : pi ≠ pw ∧ pi ≠ po ∧ pw ≠ po;
  cn_si : shape_at h pi [cg_n G; cg_c G; cg_ih G; cg_iw G];
  cn_sw : shape_at h pw [cg_k G; cg_wc G; cg_r G; cg_s G];
  cn_so : shape_at h po [cg_on G; cg_oc G; cg_oh G; cg_ow G];
  cn_pad : ∃ a, vec_get (n_attributes nd) 3 = Ok a ∧ vec_get (a_data a) 0 = Ok (cg_pad G);
  cn_stride : ∃ a, vec_get (n_attributes nd) 4 = Ok a ∧
                   vec_get (a_data a) 0 = Ok (cg_stride G);
  cn_dims : Forall dim [cg_c G; cg_ih G; cg_iw G; cg_k G; cg_wc G; cg_r G; cg_s G;
                        cg_oc G; cg_oh G; cg_ow G; cg_pad G; cg_stride G];
  cn_factors : Forall (λ x, 0 < x) [cg_s1 G; cg_s2 G; cg_s3 G;
                                    cg_k0 G; cg_k1 G; cg_k2 G; cg_k3 G];
  cn_tiles : 1 ≤ cg_oh G / cg_s2 G ∧ 1 ≤ cg_ow G / cg_s3 G;
  cn_halo : cg_oh G / cg_s2 G * cg_stride G + cg_r G < 2 ^ 31 ∧
            cg_ow G / cg_s3 G * cg_stride G + cg_s G < 2 ^ 31;
}.

(** The tile shapes. *)
Definition out_tile (G : conv_geom) : list Z :=
  [cg_on G; cg_oc G / cg_k0 G; cg_oh G / cg_s2 G; cg_ow G / cg_s3 G].
Definition in_tile (G : conv_geom) : list Z :=
  [cg_n G; cg_c G / cg_s1 G;
   if 1 <? cg_s2 G then (cg_oh G / cg_s2 G - 1) * cg_stride G + cg_r G - cg_pad G
   else cg_ih G / cg_s2 G;
   if 1 <? cg_s3 G then (cg_ow G / cg_s3 G - 1) * cg_stride G + cg_s G - cg_pad G
   else cg_iw G / cg_s3 G].
Definition w_tile (G : conv_geom) : list Z :=
  [cg_k G / cg_k0 G; cg_wc G / cg_k1 G; cg_r G / cg_k2 G; cg_s G / cg_k3 G].

Definition conv_split_heap (G : conv_geom) (pi pw po : loc) (h : heap) : heap :=
  alter (set_shape (w_tile G)) pw (alter (set_shape (in_tile G)) pi
    (alter (set_shape (out_tile G)) po h)).

(** The bias, when there is one, is split along the output channels. *)
Definition conv_bias_heap (G : conv_geom) (nd : Node) (h : heap) : heap :=
  match n_inputs nd !! 2%nat with
  | Some pb => alter (λ t, set_shape (match t_shape t with
                                      | b :: rest => b / cg_k0 G :: rest
                                      | [] => [] end) t) pb h
  | None => h
  end.

Lemma alter_insert_Some {A} (f : A → A) (p : loc) (h : gmap loc A) t :
  h !! p = Some t → alter f p h = <[p := f t]> h.
Proof.
  intros H. apply map_eq. intros q. rewrite lookup_alter, lookup_insert.
  case_decide; subst; [by rewrite H|done].
Qed.

Lemma conv_split_tensors_ok G nd h pi pw po m :
  conv_node G nd h pi pw po →
  conv_split_tensors (geom_strategy G m) (mkWstate h nd) =
    Ok (tt, mkWstate (conv_split_heap G pi pw po h) nd).
Proof.
  intros [Hi Hw Ho (D1 & D2 & D3) Si Sw So (ap & P1 & P2) (as_ & Q1 & Q2) Hd Hf (T1 & T2) (B1 & B2)].
  unfold shape_at in *. apply fmap_Some in Si as (ti & Lhi & Si), Sw as (tw & Lhw & Sw),
    So as (to & Lho & So).
  unfold conv_split_heap. rewrite (alter_insert_Some _ po _ _ Lho).
  rewrite (alter_insert_Some _ pi _ ti) by (by rewrite lookup_insert_ne).
  rewrite (alter_insert_Some _ pw _ tw) by (by rewrite !lookup_insert_ne).
  destruct ti as [? ? shi ? ? ? ?], tw as [? ? shw ? ? ? ?], to as [? ? sho ? ? ? ?].
  simpl in Si, Sw, So. subst shi shw sho.
  destruct G as [n c ih iw k wc r s on oc oh ow pad stride s0 s1 s2 s3 k0 k1 k2 k3].
  simpl in *. unfold dim in Hd. repeat setoid_rewrite Forall_cons in Hd.
  repeat setoid_rewrite Forall_cons in Hf. destruct_and!.
  unfold conv_split_tensors. rewrite for_up_unroll4.
  assert (halo (oh / s2) stride r pad = Ok ((oh / s2 - 1) * stride + r - pad)) as Hh.
  { pose proof (Z.div_le_upper_bound oh s2 oh). apply halo_ok; nia. }
  assert (halo (ow / s3) stride s pad = Ok ((ow / s3 - 1) * stride + s - pad)) as Hv.
  { pose proof (Z.div_le_upper_bound ow s3 ow). apply halo_ok; nia. }
  unfold geom_strategy, out_tile, in_tile, w_tile; simpl.
  do 23 wstep.
  destruct (1 <? s2), (1 <? s3); cbn [when]; repeat wstep; reflexivity.
Qed.

(** The bias tensor, if any, is an object of its own with a first extent. *)
Definition bias_ok (nd : Node) (h : heap) (ps : list loc) : Prop :=
  ∀ pb, n_inputs nd !! 2%nat = Some pb →
    (pb ∉ ps) ∧ ∃ b rest, shape_at h pb (b :: rest) ∧ dim b.

Lemma conv_bias_ok G nd h pi pw po m :
  conv_node G nd h pi pw po → bias_ok nd h [pi; pw; po] →
  split_bias (geom_strategy G m) (mkWstate (conv_split_heap G pi pw po h) nd) =
  Ok (tt, mkWstate (conv_bias_heap G nd (conv_split_heap G pi pw po h)) nd).
Proof.
  intros Hn Hb. unfold split_bias, num_inputs, conv_bias_heap.
  erewrite M_bind_ok; [|reflexivity]. cbn [w_split].
  destruct (n_inputs nd !! 2%nat) as [pb|] eqn:E.
  - destruct (Hb pb E) as (Hnin & b & rest & Hs & Hbd).
    rewrite !not_elem_of_cons in Hnin. destruct Hnin as (N1 & N2 & N3 & _).
    apply fmap_Some in Hs as (tb & Ltb & Stb).
    pose proof (lookup_lt_Some _ _ _ E).
    destruct (Z.ltb_spec 2 (Z.of_nat (length (n_inputs nd)))); [|lia]. simpl.
    assert (vec_get (n_inputs nd) 2 = Ok pb) as Hpb by (apply vec_get_Z; [lia|done]).
    assert (conv_split_heap G pi pw po h !! pb = Some tb) as Lc.
    { unfold conv_split_heap. by rewrite !lookup_alter_ne by congruence. }
    destruct Hn as [_ _ _ _ _ _ _ _ _ _ Hf _ _].
    repeat setoid_rewrite Forall_cons in Hf. destruct_and!.
    wstep. wstep.
    rewrite (alter_insert_Some _ pb _ _ Lc).
    rewrite (shape_div_ok _ pb tb 0 b); [by rewrite <-Stb|done|by rewrite <-Stb|done|done].
  - apply lookup_ge_None in E.
    destruct (Z.ltb_spec 2 (Z.of_nat (length (n_inputs nd)))); [lia|]. done.
Qed.

(** The whole method. *)
Lemma Conv_split_tiles G nd h pi pw po m :
  conv_node G nd h pi pw po → bias_ok nd h [pi; pw; po] →
  split (geom_strategy G m) Conv (mkWstate h nd) =
    Ok (tt, mkWstate (conv_bias_heap G nd (conv_split_heap G pi pw po h)) nd).
Proof.
  intros Hn Hb. simpl. unfold Conv_split.
  rewrite (M_seq_ok _ _ _ _ (conv_split_tensors_ok _ _ _ _ _ _ _ Hn)).
  by apply conv_bias_ok.
Qed.

Lemma conv_bias_heap_other G nd h ps p :
  bias_ok nd h ps → p ∈ ps → ∀ h', conv_bias_heap G nd h' !! p = h' !! p.
Proof.
  intros Hb Hp h'. unfold conv_bias_heap.
  destruct (n_inputs nd !! 2%nat) as [pb|] eqn:E; [|done].
  destruct (Hb pb E) as [Hn _]. rewrite lookup_alter_ne; [done|]. by intros ->.
Qed.

Lemma conv_split_shapes G nd h pi pw po :
  conv_node G nd h pi pw po → bias_ok nd h [pi; pw; po] →
  let h' := conv_bias_heap G nd (conv_split_heap G pi pw po h) in
  shape_at h' pi (in_tile G) ∧ shape_at h' pw (w_tile G) ∧ shape_at h' po (out_tile G).
Proof.
  intros [_ _ _ (D1 & D2 & D3) Si Sw So _ _ _ _ _ _] Hb h'. unfold shape_at in *.
  apply fmap_Some in Si as (ti & Lhi & Si), Sw as (tw & Lhw & Sw), So as (to & Lho & So).
  subst h'. rewrite !(conv_bias_heap_other G nd h _ _ Hb) by set_solver.
  unfold conv_split_heap. rewrite !lookup_alter.
  repeat case_decide; simplify_eq.
  by rewrite Lhi, Lhw, Lho.
Qed.

(** An exact split: every factor divides the extent it splits. *)
Definition exact_split (G : conv_geom) : Prop :=
  (cg_k0 G | cg_oc G) ∧ (cg_s2 G | cg_oh G) ∧ (cg_s3 G | cg_ow G) ∧
  (cg_k0 G | cg_k G) ∧ (cg_k1 G | cg_wc G) ∧ (cg_k2 G | cg_r G) ∧ (cg_k3 G | cg_s G).

Lemma exact_tiles G :
  Forall (λ x, 0 < x) [cg_s1 G; cg_s2 G; cg_s3 G; cg_k0 G; cg_k1 G; cg_k2 G; cg_k3 G] →
  exact_split G →
  prod (out_tile G) * (cg_k0 G * cg_s2 G * cg_s3 G) =
    prod [cg_on G; cg_oc G; cg_oh G; cg_ow G] ∧
  prod (w_tile G) * prod [cg_k0 G; cg_k1 G; cg_k2 G; cg_k3 G] =
    prod [cg_k G; cg_wc G; cg_r G; cg_s G].
Proof.
  intros Hf (E1 & E2 & E3 & E4 & E5 & E6 & E7).
  repeat setoid_rewrite Forall_cons in Hf. destruct_and!.
  unfold out_tile, w_tile, prod; simpl.
  destruct E1 as [? ->], E2 as [? ->], E3 as [? ->], E4 as [? E4], E5 as [? ->],
    E6 as [? ->], E7 as [? ->].
  rewrite E4. rewrite !Z.div_mul by lia. split; ring.
Qed.

(** ** Splitting the other operators *)

Definition strategy1 (s0 s1 s2 s3 : Z) (m : string) : Strategy :=
  mkStrategy [[s0; s1; s2; s3]] m.

Ltac forall_cons H := repeat setoid_rewrite Forall_cons in H; destruct_and!.

(** Overwriting a whole vector of pointers, entry by entry. *)
Lemma overwrite_outputs h nd p :
  vec_get (n_inputs nd) 0 = Ok p →
  for_up 0 (Z.of_nat (length (n_outputs nd))) (λ i,
      p ← w_input 0;
      outs ← gets (λ s, n_outputs (w_split s));
      outs' ← lift (vec_set outs i p);
      modify (λ s, mkWstate (w_heap s) (set_outputs outs' (w_split s))))
    (mkWstate h nd) =
  Ok (tt, mkWstate h (set_outputs (replicate (length (n_outputs nd)) p) nd)).
Proof.
  intros Hp. set (L := length (n_outputs nd)).
  edestruct (for_up_inv (λ j s, ∃ outs, s = mkWstate h (set_outputs outs nd) ∧
     length outs = L ∧ (∀ i : nat, Z.of_nat i < j → (i < L)%nat → outs !! i = Some p))
     ) as (s' & -> & outs & -> & Hl & Hall).
  - exists (n_outputs nd). split; [by destruct nd|]. split; [done|]. intros; lia.
  - intros j s Hj (outs & -> & Hl & Hall). eexists. split.
    + erewrite M_bind_ok; [|by apply w_input_ok]. erewrite M_bind_ok; [|done].
      simpl. erewrite M_bind_ok; [done|]. apply lift_ok, vec_set_ok. lia.
    + simpl. eexists. split; [done|]. split; [by rewrite length_insert|].
      intros i Hi HL. destruct (decide (i = Z.to_nat j)) as [->|].
      * apply list_lookup_insert_eq. lia.
      * rewrite list_lookup_insert_ne by done. apply Hall; lia.
  - do 4 f_equal. apply list_eq. intros i. destruct (decide (i < L)%nat).
    + rewrite Hall by lia. by rewrite lookup_replicate_2.
    + rewrite !lookup_ge_None_2; rewrite ?length_replicate; lia || done.
Qed.

Lemma Workload_split_ok nd h p a b c d s0 s1 s2 s3 m :
  vec_get (n_inputs nd) 0 = Ok p → shape_at h p [a; b; c; d] →
  Forall dim [a; b; c; d] → Forall (λ x, 0 < x) [s0; s1; s2; s3] →
  Workload_split (strategy1 s0 s1 s2 s3 m) (mkWstate h nd) =
    Ok (tt, mkWstate (alter (set_shape [a / s0; b / s1; c / s2; d / s3]) p h)
              (set_outputs (replicate (length (n_outputs nd)) p) nd)).
Proof.
  intros Hp Hs Hd Hf. apply fmap_Some in Hs as (t & Lt & St).
  rewrite (alter_insert_Some _ _ _ _ Lt).
  destruct t as [? ? sh ? ? ? ?]. simpl in St. subst sh.
  unfold dim in Hd. forall_cons Hd. forall_cons Hf.
  unfold Workload_split. cbn [strategy1 splitSize length].
  rewrite (for_up_unroll1 0 _), for_up_unroll4.
  do 15 wstep. by apply overwrite_outputs.
Qed.

Lemma MaxPool_split_ok nd h pi po n c ih iw on oc oh ow s0 s1 s2 s3 m
    ak ap ast kernel pad stride :
  vec_get (n_inputs nd) 0 = Ok pi → vec_get (n_outputs nd) 0 = Ok po → pi ≠ po →
  shape_at h pi [n; c; ih; iw] → shape_at h po [on; oc; oh; ow] →
  vec_get (n_attributes nd) 0 = Ok ak → vec_get (a_data ak) 0 = Ok kernel →
  vec_get (n_attributes nd) 1 = Ok ap → vec_get (a_data ap) 0 = Ok pad →
  vec_get (n_attributes nd) 2 = Ok ast → vec_get (a_data ast) 0 = Ok stride →
  Forall dim [c; oc; oh; ow; kernel; stride] → Forall (λ x, 0 < x) [s1; s2; s3] →
  1 ≤ oh / s2 → oh / s2 * stride + kernel < 2 ^ 31 →
  let x := (oh / s2 - 1) * stride + kernel in
  MaxPool_split (strategy1 s0 s1 s2 s3 m) (mkWstate h nd) =
    Ok (tt, mkWstate (alter (set_shape [n; c / s1; x; x]) pi
                       (alter (set_shape [on; oc / s1; oh / s2; ow / s3]) po h)) nd).
Proof.
  intros Hi Ho D Si So A1 A2 A3 A4 A5 A6 Hd Hf T B x.
  apply fmap_Some in Si as (ti & Lhi & Si), So as (to & Lho & So).
  rewrite (alter_insert_Some _ po _ _ Lho).
  rewrite (alter_insert_Some _ pi _ ti) by (by rewrite lookup_insert_ne).
  destruct ti as [? ? shi ? ? ? ?], to as [? ? sho ? ? ? ?]. simpl in Si, So. subst shi sho.
  unfold dim in Hd. forall_cons Hd. forall_cons Hf.
  pose proof (Z.div_le_upper_bound oh s2 oh).
  unfold MaxPool_split. do 17 wstep.
  erewrite M_bind_ok; [|apply lift_ok, i32_ok; nia].
  erewrite M_bind_ok; [|apply lift_ok, i32_ok; nia].
  erewrite M_bind_ok; [|apply lift_ok, i32_ok; nia].
  do 3 wstep. erewrite shape_set_ok; [|heap_lookup|cbn; lia]. heap_norm.
  rewrite (insert_insert_ne h po pi) by done. by rewrite insert_insert_eq.
Qed.

Lemma AvgPool_split_ok nd h pi po n c ih iw on oc oh ow s0 s1 s2 s3 m :
  vec_get (n_inputs nd) 0 = Ok pi → vec_get (n_outputs nd) 0 = Ok po → pi ≠ po →
  shape_at h pi [n; c; ih; iw] → shape_at h po [on; oc; oh; ow] →
  Forall dim [c; oc] → 0 < s1 →
  AvgPool_split (strategy1 s0 s1 s2 s3 m) (mkWstate h nd) =
    Ok (tt, mkWstate (alter (set_shape [on; oc / s1; oh; ow]) po
                       (alter (set_shape [n; c / s1; ih; iw]) pi h)) nd).
Proof.
  intros Hi Ho D Si So Hd Hf.
  apply fmap_Some in Si as (ti & Lhi & Si), So as (to & Lho & So).
  rewrite (alter_insert_Some _ pi _ _ Lhi).
  rewrite (alter_insert_Some _ po _ to) by (by rewrite lookup_insert_ne).
  destruct ti as [? ? shi ? ? ? ?], to as [? ? sho ? ? ? ?]. simpl in Si, So. subst shi sho.
  unfold dim in Hd. forall_cons Hd. unfold AvgPool_split. do 5 wstep.
  erewrite shape_div_ok; [|heap_lookup|reflexivity|cbn; lia|lia]. reflexivity.
Qed.

(** ** Properties *)

(** [computeSize] returns the sum, over the input and output pointers of
    the split node, of the byte sizes (four bytes per element) of the tensors
    they point to, and stores each of these sizes in its tensor; nothing else
    changes.  An aliased tensor is counted once per pointer. *)
Theorem computeSize_spec (s : wstate) :
  (∀ p, p ∈ n_inputs (w_split s) ++ n_outputs (w_split s) →
     ∃ t, w_heap s !! p = Some t ∧ tensor_ok t) →
  sum_bytes (w_heap s) (n_inputs (w_split s) ++ n_outputs (w_split s)) < 2 ^ 62 →
  computeSize s =
    Ok (sum_bytes (w_heap s) (n_inputs (w_split s) ++ n_outputs (w_split s)),
        mkWstate (sized (n_inputs (w_split s) ++ n_outputs (w_split s)) (w_heap s))
          (w_split s)).
Proof.
  destruct s as [h nd]. simpl. intros Hok Hb. rewrite sum_bytes_app in *.
  assert (0 ≤ sum_bytes h (n_outputs nd)) by (apply sum_bytes_nonneg; set_solver).
  assert (0 ≤ sum_bytes h (n_inputs nd)) by (apply sum_bytes_nonneg; set_solver).
  unfold computeSize. erewrite M_bind_ok; [|reflexivity]. cbn [w_split].
  rewrite <-(sized_nil h) at 1.
  erewrite M_bind_ok; [|apply size_tensors_ok; [set_solver|lia|lia]].
  erewrite M_bind_ok; [|reflexivity]. cbn [w_split].
  rewrite size_tensors_ok by (set_solver || lia).
  by rewrite app_nil_l, Z.add_0_l.
Qed.

(** Splitting a convolution gives the tile shapes of the strategy: the
    output is divided by the output-channel, height and width factors, the
    weight by its own factors, the input by the channel factor, and its height
    and width become the extent [(out - 1) * stride + kernel - pad] needed by
    one output tile when they are split (the plain quotient otherwise); the
    bias follows the output channels.  When the factors divide the extents,
    the output tiles (and the weight tiles) partition the tensor: tile size
    times number of tiles is the original size. *)
Theorem Conv_split_partitions G nd h pi pw po m :
  conv_node G nd h pi pw po → bias_ok nd h [pi; pw; po] → exact_split G →
  ∃ h', split (geom_strategy G m) Conv (mkWstate h nd) = Ok (tt, mkWstate h' nd) ∧
    shape_at h' pi (in_tile G) ∧ shape_at h' pw (w_tile G) ∧ shape_at h' po (out_tile G) ∧
    prod (out_tile G) * (cg_k0 G * cg_s2 G * cg_s3 G) =
      prod [cg_on G; cg_oc G; cg_oh G; cg_ow G] ∧
    prod (w_tile G) * prod [cg_k0 G; cg_k1 G; cg_k2 G; cg_k3 G] =
      prod [cg_k G; cg_wc G; cg_r G; cg_s G].
Proof.
  intros Hn Hb He. eexists. split; [by apply Conv_split_tiles|].
  pose proof (conv_split_shapes G nd h pi pw po Hn Hb) as (S1 & S2 & S3).
  pose proof (exact_tiles G (cn_factors _ _ _ _ _ _ Hn) He) as [E1 E2]. done.
Qed.

(** The [split] that [Relu] inherits makes every output pointer of the
    split node the pointer of its first input: the output tensor of the
    operator is no longer reachable from the split node, and later updates of
    the input tensor (its size, its address) are updates of the output. *)
Theorem Relu_split_aliases nd h p a b c d s0 s1 s2 s3 m :
  vec_get (n_inputs nd) 0 = Ok p → shape_at h p [a; b; c; d] →
  Forall dim [a; b; c; d] → Forall (λ x, 0 < x) [s0; s1; s2; s3] →
  ∃ nd', split (strategy1 s0 s1 s2 s3 m) Relu (mkWstate h nd) =
    Ok (tt, mkWstate (alter (set_shape [a / s0; b / s1; c / s2; d / s3]) p h) nd') ∧
    n_inputs nd' = n_inputs nd ∧
    n_outputs nd' = replicate (length (n_outputs nd)) p.
Proof. intros. eexists. split; [by apply Workload_split_ok|done]. Qed.

(** [MaxPool::split] computes both spatial extents of the input tile from
    the output height: the width of the tile does not depend on the output
    width nor on how it is split. *)
Theorem MaxPool_split_square nd h pi po n c ih iw on oc oh ow s0 s1 s2 s3 m
    ak ap ast kernel pad stride :
  vec_get (n_inputs nd) 0 = Ok pi → vec_get (n_outputs nd) 0 = Ok po → pi ≠ po →
  shape_at h pi [n; c; ih; iw] → shape_at h po [on; oc; oh; ow] →
  vec_get (n_attributes nd) 0 = Ok ak → vec_get (a_data ak) 0 = Ok kernel →
  vec_get (n_attributes nd) 1 = Ok ap → vec_get (a_data ap) 0 = Ok pad →
  vec_get (n_attributes nd) 2 = Ok ast → vec_get (a_data ast) 0 = Ok stride →
  Forall dim [c; oc; oh; ow; kernel; stride] → Forall (λ x, 0 < x) [s1; s2; s3] →
  1 ≤ oh / s2 → oh / s2 * stride + kernel < 2 ^ 31 →
  ∃ h', split (strategy1 s0 s1 s2 s3 m) MaxPool (mkWstate h nd) = Ok (tt, mkWstate h' nd) ∧
    shape_at h' pi [n; c / s1; (oh / s2 - 1) * stride + kernel;
                               (oh / s2 - 1) * stride + kernel] ∧
    shape_at h' po [on; oc / s1; oh / s2; ow / s3].
Proof.
  intros Hi Ho D Si So A1 A2 A3 A4 A5 A6 Hd Hf T B. eexists. split.
  { cbn [split]. eapply MaxPool_split_ok; eassumption. }
  unfold shape_at in *. apply fmap_Some in Si as (ti & Lhi & _), So as (to & Lho & _).
  rewrite !lookup_alter. repeat case_decide; simplify_eq. by rewrite Lhi, Lho.
Qed.

(** ** Witnesses: the first layer of ResNet-50 *)

Definition ex_tensor (name : string) (shape : list Z) (address : Z) : Tensor :=
  mkTensor None name shape FP8 None (Some address) None.

(** A convolution with bias, split into 4 output-channel and 2x2 spatial tiles. *)
Definition ex_conv_heap : heap :=
  {[ 1%positive := ex_tensor "data" [1; 3; 224; 224] 0;
     2%positive := ex_tensor "weight" [64; 3; 7; 7] 602112;
     3%positive := ex_tensor "bias" [64] 639744;
     4%positive := ex_tensor "conv0_fwd" [1; 64; 112; 112] 103118240 ]}.
Definition ex_attrs : list NodeAttribute :=
  [mkNodeAttribute "dilations" FP64 []; mkNodeAttribute "group" BF16 [];
   mkNodeAttribute "kernel_shape" FP64 [7; 7]; mkNodeAttribute "pads" FP64 [3; 3; 3; 3];
   mkNodeAttribute "strides" FP64 [2; 2]].
Definition ex_conv_node : Node :=
  mkNode 0 "conv0" CONV [1; 2; 3]%positive [4%positive] ex_attrs [] [] None [].
Definition ex_geom : conv_geom :=
  mkGeom 1 3 224 224 64 3 7 7 1 64 112 112 3 2 1 1 2 2 4 1 1 1.

Lemma ex_conv_node_ok : conv_node ex_geom ex_conv_node ex_conv_heap 1 2 4.
Proof.
  constructor; try done.
  - eexists. split; reflexivity.
  - eexists. split; reflexivity.
  - repeat constructor; vm_compute; (done || (intros ?; done)).
  - repeat constructor.
Qed.

Lemma ex_bias_ok : bias_ok ex_conv_node ex_conv_heap [1; 2; 4]%positive.
Proof.
  intros pb [= <-]. split; [set_solver|].
  exists 64, []. split; [reflexivity|unfold dim; lia].
Qed.

Lemma computeSize_spec_witness :
  computeSize (mkWstate ex_conv_heap ex_conv_node) =
    Ok (3851264, mkWstate (sized [1; 2; 3; 4]%positive ex_conv_heap) ex_conv_node).
Proof.
  apply (computeSize_spec (mkWstate ex_conv_heap ex_conv_node)).
  - intros p Hp. simpl in Hp.
    repeat (apply elem_of_cons in Hp as [->|Hp];
      [eexists; split; [reflexivity|split; [repeat constructor; done|by vm_compute]]|]).
    by apply elem_of_nil in Hp.
  - by vm_compute.
Defined.

Lemma Conv_split_partitions_witness :
  ∃ h', split (geom_strategy ex_geom "weight") Conv (mkWstate ex_conv_heap ex_conv_node)
        = Ok (tt, mkWstate h' ex_conv_node) ∧
    shape_at h' 1 [1; 3; 114; 114] ∧ shape_at h' 2 [16; 3; 7; 7] ∧
    shape_at h' 4 [1; 16; 56; 56] ∧
    prod (out_tile ex_geom) * (4 * 2 * 2) = prod [1; 64; 112; 112] ∧
    prod (w_tile ex_geom) * prod [4; 1; 1; 1] = prod [64; 3; 7; 7].
Proof.
  apply (Conv_split_partitions ex_geom ex_conv_node ex_conv_heap 1 2 4 "weight"
           ex_conv_node_ok ex_bias_ok).
  repeat split; apply Z.mod_divide; done.
Defined.

Definition ex_relu_node : Node :=
  mkNode 2 "relu0" RELU [1%positive] [4%positive] [] [] [] None [].

Lemma Relu_split_aliases_witness :
  ∃ nd', split (strategy1 1 1 2 2 "weight") Relu (mkWstate ex_conv_heap ex_relu_node) =
    Ok (tt, mkWstate (alter (set_shape [1; 3; 112; 112]) 1%positive ex_conv_heap) nd') ∧
    n_inputs nd' = [1%positive] ∧ n_outputs nd' = [1%positive].
Proof.
  apply (Relu_split_aliases ex_relu_node ex_conv_heap 1%positive 1 3 224 224 1 1 2 2).
  - reflexivity.
  - reflexivity.
  - repeat constructor; vm_compute; (done || (intros ?; done)).
  - repeat constructor.
Defined.

Definition ex_pool_node : Node :=
  mkNode 3 "pool0" MAXPOOL [1%positive] [4%positive]
    [mkNodeAttribute "kernel_shape" FP64 [3; 3]; mkNodeAttribute "pads" FP64 [1; 1; 1; 1];
     mkNodeAttribute "strides" FP64 [2; 2]] [] [] None [].

Lemma MaxPool_split_square_witness :
  ∃ h', split (strategy1 1 1 2 8 "weight") MaxPool (mkWstate ex_conv_heap ex_pool_node) =
    Ok (tt, mkWstate h' ex_pool_node) ∧
    shape_at h' 1 [1; 3; 113; 113] ∧ shape_at h' 4 [1; 64; 56; 14].
Proof.
  apply (MaxPool_split_square ex_pool_node ex_conv_heap 1 4 1 3 224 224 1 64 112 112
           1 1 2 8 "weight" (mkNodeAttribute "kernel_shape" FP64 [3; 3])
           (mkNodeAttribute "pads" FP64 [1; 1; 1; 1])
           (mkNodeAttribute "strides" FP64 [2; 2]) 3 1 2);
    try reflexivity; try done.
  - repeat constructor; vm_compute; (done || (intros ?; done)).
  - repeat constructor.
Defined.
