(* ===== verification/TrafficGen.v ===== *)
(** * The traffic generator

    [traffic_generator/traffic.hpp] and [traffic_generator.hpp]: the traffic
    records and the nine generators.  A generator appends to [trafficList] and
    advances the base addresses of the tensors it streams
    ([uint64_t &addr = tensor->address], so the tensor itself is updated).
    The state is the list and the tensor heap; the other members of the class
    do not change once it is constructed. *)
From stdpp Require Import base tactics list gmap strings.
From Stdlib Require Import ZArith Lia.
From S2P Require Import Prelude Graph.
Local Open Scope Z_scope.

(** ** [traffic.hpp] *)

Inductive RequestType := READ | WRITE | COMPUTE | SYNC.
Inductive TrafficType := UNICAST | MULTICAST | BROADCAST.

#[export] Instance RequestType_eq_dec : EqDecision RequestType.
Proof. solve_decision. Defined.
#[export] Instance TrafficType_eq_dec : EqDecision TrafficType.
Proof. solve_decision. Defined.

Record Traffic := mkTraffic {
  tr_type : RequestType;
  tr_src : Z * Z;
  tr_dest : Z * Z;
  tr_addr : Z;          (* uint64_t *)
  tr_size : Z;          (* uint64_t *)
  tr_request : TrafficType;
  tr_response : TrafficType;
}.

#[export] Instance Traffic_eq_dec : EqDecision Traffic.
Proof. solve_decision. Defined.

(** The global [uint64_t addr] of [traffic.hpp]: zero-initialised and only
    read, by [compute]. *)
Definition global_addr : Z := 0.

(** ** The class *)

Record TrafficGenerator := mkTG {
  tg_numPE : Z;
  tg_numSubgraph : Z;
  tg_split_node : Node;
  tg_base_node : Node;
  tg_round : Z;
  tg_remainder : Z;
  tg_strategy : Strategy;
}.

(** The constructor. *)
Definition TrafficGenerator_new (numPE numSubgraph : Z) (split_node base_node : Node)
    : res TrafficGenerator :=
  round ← i32_ceil_div numSubgraph numPE;
  remainder ← i32_rem numSubgraph numPE;
  Ok (mkTG numPE numSubgraph split_node base_node round remainder (mkStrategy [] "")).

Definition init_strategy (g : TrafficGenerator) (s : Strategy) : TrafficGenerator :=
  mkTG (tg_numPE g) (tg_numSubgraph g) (tg_split_node g) (tg_base_node g)
    (tg_round g) (tg_remainder g) s.

Record gstate := mkG {
  g_list : list Traffic;
  g_heap : heap;
}.

Definition push_back (t : Traffic) : M gstate unit :=
  modify (λ s, mkG (g_list s ++ [t]) (g_heap s)).

Definition g_tensor (p : loc) : M gstate Tensor := λ s, lift (deref (g_heap s) p) s.
Definition g_put (p : loc) (t : Tensor) : M gstate unit :=
  modify (λ s, mkG (g_list s) (<[p := t]> (g_heap s))).

(** [p->size], converted to the [uint64_t] parameter it is passed as. *)
Definition g_size (p : loc) : M gstate Z :=
  t ← g_tensor p; z ← lift (get_size t); mret (u64 z).

(** ** The general functions *)

(** The loop of [unicast_read] and [unicast_write]; [p] stands for the
    reference [uint64_t &addr] to the address of the tensor at [p]. *)
Definition unicast (ty : RequestType) (num_subgraph size : Z) (p : loc) : M gstate unit :=
  for_up 0 num_subgraph (λ i,
    t ← g_tensor p;
    addr ← lift (get_address t);
    push_back (mkTraffic ty (0, i) (1, 0) addr size UNICAST UNICAST) ;;
    t ← g_tensor p;
    g_put p (set_address (u64 (addr + size)) t)).

Definition unicast_read := unicast READ.
Definition unicast_write := unicast WRITE.

Section generator.
Variable g : TrafficGenerator.
Let numPE := tg_numPE g.
Let split_node := tg_split_node g.
Let strategy := tg_strategy g.

Definition broadcast_read (size : Z) (p : loc) : M gstate unit :=
  t ← g_tensor p;
  addr ← lift (get_address t);
  push_back (mkTraffic READ (0, 0) (1, 0) addr size UNICAST BROADCAST) ;;
  t ← g_tensor p;
  g_put p (set_address (u64 (addr + size)) t) ;;
  (* SYNC *)
  for_up 1 numPE (λ i,
    push_back (mkTraffic SYNC (0, i) (1, 0) 0 0 UNICAST UNICAST)).

Definition compute (num_subgraph : Z) : M gstate unit :=
  for_up 0 num_subgraph (λ i,
    push_back (mkTraffic COMPUTE (0, i) (1, 0) global_addr 0 UNICAST UNICAST)).

(** [split_node.inputs[i]] and [split_node.outputs[i]] *)
Definition g_input (i : Z) : M gstate loc := lift (vec_get (n_inputs split_node) i).
Definition g_output (i : Z) : M gstate loc := lift (vec_get (n_outputs split_node) i).
Definition inputs_size : Z := Z.of_nat (length (n_inputs split_node)).

(** [unicast_read(n, inputs[i]->size, inputs[i]->address)] and the like. *)
Definition read_input (n i : Z) : M gstate unit :=
  p ← g_input i; z ← g_size p; unicast_read n z p.
Definition bcast_input (i : Z) : M gstate unit :=
  p ← g_input i; z ← g_size p; broadcast_read z p.
Definition write_output (n : Z) : M gstate unit :=
  p ← g_output 0; z ← g_size p; unicast_write n z p.

(** [int hw = splitSize[0][2] * splitSize[0][3]] *)
Definition get_hw : res Z :=
  a ← split_at strategy 0 2; b ← split_at strategy 0 3; i32 (a * b).

(** ** Element-wise operators *)

(** [output_subgraph_size] is read once, before the loops. *)
Definition generate_traffic_element_wise : M gstate unit :=
  po ← g_output 0;
  output_subgraph_size ← g_size po;
  for_up 0 (tg_round g) (λ _,
    for_up 0 inputs_size (λ j, read_input numPE j) ;;
    compute numPE ;;
    po ← g_output 0; unicast_write numPE output_subgraph_size po) ;;
  when (negb (tg_remainder g =? 0)) (
    for_up 0 inputs_size (λ j, read_input numPE j) ;;
    compute (tg_remainder g) ;;
    po ← g_output 0; unicast_write (tg_remainder g) output_subgraph_size po).

(** ** Convolution *)

Definition generate_traffic_conv_weight_stationary : M gstate unit :=
  kn ← lift (split_at strategy 1 0);
  weight_round ← lift (i32_div kn numPE);
  c ← lift (split_at strategy 0 1);
  hw ← lift get_hw;
  for_up 0 weight_round (λ _,
    when (2 <? inputs_size) (read_input numPE 2) ;;
    for_up 0 c (λ _,
      read_input numPE 1 ;;
      for_up 0 hw (λ _,
        bcast_input 0 ;;
        compute numPE ;;
        write_output numPE))).

Definition generate_traffic_conv_output_stationary : M gstate unit :=
  c ← lift (split_at strategy 0 1);
  knum ← lift (split_at strategy 1 0);
  hw_mult ← lift get_hw;
  input_round ← lift (i32_div hw_mult numPE);
  input_remainder ← lift (i32_rem hw_mult numPE);
  for_up 0 c (λ _,
    for_up 0 input_round (λ _,
      read_input numPE 0 ;;
      for_up 0 knum (λ _,
        bcast_input 1 ;;
        when (2 <? inputs_size) (read_input numPE 2) ;;
        compute numPE)) ;;
    when (negb (input_remainder =? 0)) (
      read_input input_remainder 0 ;;
      when (2 <? inputs_size) (read_input input_remainder 2) ;;
      for_up 0 knum (λ _,
        bcast_input 1 ;;
        when (2 <? inputs_size) (read_input numPE 2) ;;
        compute input_remainder))) ;;
  write_output numPE.

(** ** Batch normalisation *)

(** [for (int j = 1; j < inputs.size(); j++) broadcast_read(inputs[j])]:
    scale, B, mean, var. *)
Definition bcast_params : M gstate unit :=
  for_up 1 inputs_size (λ j, bcast_input j).

(** One tile per PE: read, compute, write. *)
Definition tile_round (n : Z) : M gstate unit :=
  read_input n 0 ;; compute n ;; write_output n.

(** The branch that splits the channel dimension only. *)
Definition batchnorm_split_c (c : Z) : M gstate unit :=
  c_round ← lift (i32_div c numPE);
  c_remainder ← lift (i32_rem c numPE);
  for_up 0 c_round (λ _,
    read_input numPE 0 ;;
    for_up 1 inputs_size (λ j, read_input numPE j) ;;
    compute numPE ;;
    write_output numPE) ;;
  when (negb (c_remainder =? 0)) (
    read_input c_remainder 0 ;;
    bcast_params ;;
    compute c_remainder ;;
    write_output c_remainder).

(** The branch that splits channel, height and width. *)
Definition batchnorm_split_chw (c input_round input_remainder : Z) : M gstate unit :=
  for_up 0 c (λ _,
    bcast_params ;;
    for_up 0 input_round (λ _, tile_round numPE) ;;
    when (negb (input_remainder =? 0)) (tile_round input_remainder)).

(** The branch that does not split channels.  [input_subgraph_size] is
    declared without initialiser and assigned in the loop body only. *)
Definition batchnorm_split_hw (output_subgraph_size : Z) : M gstate unit :=
  bcast_params ;;
  for_up 0 (tg_round g) (λ _,
    p ← g_input 0; input_subgraph_size ← g_size p;
    unicast_read numPE input_subgraph_size p ;;
    compute numPE ;;
    po ← g_output 0; unicast_write numPE output_subgraph_size po) ;;
  when (negb (tg_remainder g =? 0)) (
    (if tg_round g <=? 0 then throw EUninit else mret tt) ;;
    p ← g_input 0; input_subgraph_size ← g_size p;
    unicast_read numPE input_subgraph_size p ;;
    compute (tg_remainder g) ;;
    po ← g_output 0; unicast_write (tg_remainder g) output_subgraph_size po).

Definition generate_traffic_batchnorm : M gstate unit :=
  po ← g_output 0;
  output_subgraph_size ← g_size po;
  c ← lift (split_at strategy 0 1);
  hw ← lift get_hw;
  input_round ← lift (i32_div hw numPE);
  input_remainder ← lift (i32_rem hw numPE);
  s2 ← lift (split_at strategy 0 2);
  s3 ← lift (split_at strategy 0 3);
  if (1 <? c) && (s2 =? 1) && (s3 =? 1) then batchnorm_split_c c
  else if (1 <? c) && negb (s2 =? 1) && negb (s3 =? 1) then
    batchnorm_split_chw c input_round input_remainder
  else if c =? 1 then batchnorm_split_hw output_subgraph_size
  else mret tt.

(** ** Traffic reduction (compiled with [TRAFFIC_OPTIMIZE]) *)

(** Reads of the sizes of [inputs[0]], [inputs[1]], [outputs[0]] and, when
    there is one, the bias, into locals that are not used any further. *)
Definition read_sizes : M gstate unit :=
  p ← g_input 0; _ ← g_size p;
  p ← g_input 1; _ ← g_size p;
  p ← g_output 0; _ ← g_size p;
  when (2 <? inputs_size) (p ← g_input 2; _ ← g_size p; mret tt).

Definition generate_traffic_conv_weight_reduction : M gstate unit :=
  read_sizes ;;
  kn ← lift (split_at strategy 1 0);
  weight_round ← lift (i32_div kn numPE);
  c ← lift (split_at strategy 0 1);
  hw ← lift get_hw;
  when (2 <? inputs_size) (bcast_input 2) ;;
  for_up 0 weight_round (λ _,
    for_up 0 c (λ _,
      read_input numPE 1 ;;
      for_up 0 hw (λ _,
        bcast_input 0 ;;
        compute numPE ;;
        write_output numPE))).

(** [broadcast_read(split_node.origianl_input_size[i], inputs[i]->address)] *)
Definition bcast_original (i : Z) : M gstate unit :=
  z ← lift (vec_get (n_origianl_input_size split_node) i);
  p ← g_input i; broadcast_read (u64 z) p.

Definition generate_traffic_conv_output_reduction : M gstate unit :=
  read_sizes ;;
  c ← lift (split_at strategy 0 1);
  knum ← lift (split_at strategy 1 0);
  hw_mult ← lift get_hw;
  input_round ← lift (i32_div hw_mult numPE);
  input_remainder ← lift (i32_rem hw_mult numPE);
  when (2 <? inputs_size) (bcast_original 2) ;;
  for_up 0 c (λ _,
    for_up 0 input_round (λ _,
      read_input numPE 0 ;;
      for_up 0 knum (λ _, bcast_input 1 ;; compute numPE)) ;;
    when (negb (input_remainder =? 0)) (
      read_input input_remainder 0 ;;
      when (2 <? inputs_size) (read_input input_remainder 2) ;;
      for_up 0 knum (λ _, bcast_input 1 ;; compute input_remainder))) ;;
  write_output numPE.

Definition generate_traffic_batchnorm_reduction : M gstate unit :=
  po ← g_output 0;
  _ ← g_size po;
  c ← lift (split_at strategy 0 1);
  hw ← lift get_hw;
  _ ← lift (i32_div hw numPE);
  _ ← lift (i32_rem hw numPE);
  a ← lift (split_at strategy 0 1);
  b ← lift (split_at strategy 0 2);
  ab ← lift (i32 (a * b));
  d ← lift (split_at strategy 0 3);
  num_subgraph ← lift (i32 (ab * d));
  round ← lift (i32_div num_subgraph numPE);
  remainder ← lift (i32_rem num_subgraph numPE);
  for_up 1 (Z.of_nat (length (n_origianl_input_size split_node))) (λ j,
    bcast_original j) ;;
  for_up 0 round (λ _, tile_round numPE) ;;
  when (negb (remainder =? 0)) (tile_round remainder).

(** ** Fused convolution and batch normalisation *)

(** [for (int j = 0; j < 4; j++) unicast_read(numPE, inputs[n-1-j], ...)] *)
Definition read_bn_params : M gstate unit :=
  for_up 0 4 (λ j, read_input numPE (inputs_size - 1 - j)).

Definition generate_traffic_conv_batchnorm_weight : M gstate unit :=
  kn ← lift (split_at strategy 1 0);
  weight_round ← lift (i32_div kn numPE);
  c ← lift (split_at strategy 0 1);
  hw ← lift get_hw;
  for_up 0 weight_round (λ _,
    when (inputs_size =? 7) (read_input numPE 2) ;;
    read_bn_params ;;
    for_up 0 c (λ _,
      read_input numPE 1 ;;
      for_up 0 hw (λ _,
        bcast_input 0 ;;
        compute numPE ;;
        write_output numPE))).

Definition generate_traffic_conv_batchnorm_output : M gstate unit :=
  c ← lift (split_at strategy 0 1);
  knum ← lift (split_at strategy 1 0);
  hw_mult ← lift get_hw;
  input_round ← lift (i32_div hw_mult numPE);
  input_remainder ← lift (i32_rem hw_mult numPE);
  for_up 0 c (λ _,
    for_up 0 input_round (λ _,
      read_input numPE 0 ;;
      for_up 0 knum (λ _,
        bcast_input 1 ;;
        when (inputs_size =? 7) (read_input numPE 2) ;;
        read_bn_params ;;
        compute numPE)) ;;
    when (negb (input_remainder =? 0)) (
      read_input input_remainder 0 ;;
      when (inputs_size =? 7) (read_input numPE 2) ;;
      for_up 0 knum (λ _,
        bcast_input 1 ;;
        when (2 <? inputs_size) (read_input numPE 2) ;;
        read_bn_params ;;
        compute input_remainder))) ;;
  write_output numPE.
End generator.
