(* ===== verification/Schedule.v ===== *)
(** * Schedules: the abstract specification of the traffic generator

    A generator is specified by its schedule, the sequence of bulk operations
    (each PE reads a tile of tensor [p], tensor [p] is broadcast, ...) it
    stands for.  [apply_ops] gives a schedule its meaning: the traffic it emits
    and the tensor addresses it leaves behind.  [implements m ops] says that the
    monadic program [m] returns normally and does exactly [ops]; it composes
    along sequencing, conditionals and loops. *)
From stdpp Require Import base tactics list gmap strings.
From Stdlib Require Import ZArith Lia.
From S2P Require Import Prelude Graph TrafficGen.
Local Open Scope Z_scope.

(** ** Operations *)

Inductive op :=
  | OpRead (n : Z) (p : loc)            (* PEs 0..n-1 read a tile each *)
  | OpWrite (n : Z) (p : loc)           (* PEs 0..n-1 write a tile each *)
  | OpBcast (size : option Z) (p : loc) (* PE 0 reads for all; [None]: the tile size *)
  | OpCompute (n : Z).                  (* PEs 0..n-1 compute *)

Definition size_of (h : heap) (p : loc) : Z :=
  u64 (default 0 (h !! p ≫= t_size)).
Definition addr_of (h : heap) (p : loc) : Z :=
  default 0 (h !! p ≫= t_address).

(** [addr += k] *)
Definition advance (p : loc) (k : Z) (h : heap) : heap :=
  alter (λ t, set_address (u64 (default 0 (t_address t) + k)) t) p h.

(** PEs [0 .. n-1] access consecutive tiles of [size] bytes from [a]. *)
Definition unicast_list (ty : RequestType) (n a size : Z) : list Traffic :=
  (λ i, mkTraffic ty (0, i) (1, 0) (u64 (a + i * size)) size UNICAST UNICAST)
    <$> seqZ 0 n.

(** One broadcast read by PE 0 and a [SYNC] in every other PE. *)
Definition bcast_list (numPE a size : Z) : list Traffic :=
  mkTraffic READ (0, 0) (1, 0) a size UNICAST BROADCAST ::
  ((λ i, mkTraffic SYNC (0, i) (1, 0) 0 0 UNICAST UNICAST) <$> seqZ 1 (numPE - 1)).

Definition compute_list (n : Z) : list Traffic :=
  (λ i, mkTraffic COMPUTE (0, i) (1, 0) global_addr 0 UNICAST UNICAST) <$> seqZ 0 n.

Definition bcast_size (h : heap) (z : option Z) (p : loc) : Z :=
  match z with Some z => u64 z | None => size_of h p end.

(** A tensor the generator can stream: size and address are initialised. *)
Definition tensor_ready (h : heap) (p : loc) : Prop :=
  ∃ t z a, h !! p = Some t ∧ t_size t = Some z ∧ t_address t = Some a ∧ u64 a = a.

Section schedules.
Variable numPE : Z.

Definition op_traffic (h : heap) (o : op) : list Traffic :=
  match o with
  | OpRead n p => unicast_list READ n (addr_of h p) (size_of h p)
  | OpWrite n p => unicast_list WRITE n (addr_of h p) (size_of h p)
  | OpBcast z p => bcast_list numPE (addr_of h p) (bcast_size h z p)
  | OpCompute n => compute_list n
  end.

Definition op_heap (h : heap) (o : op) : heap :=
  match o with
  | OpRead n p | OpWrite n p => advance p (0 `max` n * size_of h p) h
  | OpBcast z p => advance p (bcast_size h z p) h
  | OpCompute _ => h
  end.

Definition apply_op (o : op) (s : gstate) : gstate :=
  mkG (g_list s ++ op_traffic (g_heap s) o) (op_heap (g_heap s) o).

Fixpoint apply_ops (ops : list op) (s : gstate) : gstate :=
  match ops with
  | [] => s
  | o :: ops' => apply_ops ops' (apply_op o s)
  end.

(** Loops of schedules. *)
Definition loop (n : Z) (ops : list op) : list op :=
  mjoin (replicate (Z.to_nat n) ops).

(** Tensor sizes do not change while traffic is generated: [sz] are the
    sizes at the beginning. *)
Variable sz : loc → Z.

Definition ready (ps : list loc) (s : gstate) : Prop :=
  Forall (λ p, tensor_ready (g_heap s) p ∧ size_of (g_heap s) p = sz p) ps.

(** The program returns normally and does [ops]. *)
Definition implements (ps : list loc) (m : M gstate unit) (ops : list op) : Prop :=
  ∀ s, ready ps s → m s = Ok (tt, apply_ops ops s).

(** ** [apply_ops] *)

Lemma apply_ops_app o1 o2 s : apply_ops (o1 ++ o2) s = apply_ops o2 (apply_ops o1 s).
Proof. revert s. induction o1; intros; simpl; auto. Qed.

Lemma tensor_ready_advance h p q k : tensor_ready h q → tensor_ready (advance p k h) q.
Proof.
  intros (t & z & a & Ht & Hz & Ha & Hu). unfold advance, tensor_ready.
  destruct (decide (p = q)) as [->|].
  - eexists _, z, _. rewrite lookup_alter_eq, Ht. simpl.
    split_and!; [done|done|done|]. by rewrite u64_idemp.
  - exists t, z, a. by rewrite lookup_alter_ne.
Qed.

Lemma tensor_ready_op h o q : tensor_ready h q → tensor_ready (op_heap h o) q.
Proof. intros H. destruct o; simpl; auto using tensor_ready_advance. Qed.

Lemma size_of_advance h p q k : size_of (advance p k h) q = size_of h q.
Proof.
  unfold size_of, advance. rewrite lookup_alter. case_decide; [subst|done].
  by destruct (h !! q).
Qed.

Lemma size_of_op h o q : size_of (op_heap h o) q = size_of h q.
Proof. destruct o; simpl; auto using size_of_advance. Qed.

Lemma ready_apply ps ops s : ready ps s → ready ps (apply_ops ops s).
Proof.
  revert s. induction ops as [|o ops IH]; intros s H; simpl; [done|].
  apply IH. unfold ready in *. eapply Forall_impl; [done|].
  simpl. intros q [Hq Hs]. split; [by apply tensor_ready_op|]. by rewrite size_of_op.
Qed.

(** ** Composition *)

Lemma impl_seq ps m1 m2 o1 o2 :
  implements ps m1 o1 → implements ps m2 o2 → implements ps (m1 ;; m2) (o1 ++ o2).
Proof.
  intros H1 H2 s Hs. rewrite (M_seq_ok _ _ _ _ (H1 s Hs)).
  rewrite apply_ops_app. apply H2. by apply ready_apply.
Qed.

Lemma impl_ret ps : implements ps (mret tt) [].
Proof. by intros s Hs. Qed.

Lemma impl_when ps c m ops :
  implements ps m ops → implements ps (when c m) (if c then ops else []).
Proof. destruct c; simpl; auto using impl_ret. Qed.

Lemma impl_bind {A} ps (m : M gstate A) a f ops :
  (∀ s, ready ps s → m s = Ok (a, s)) → implements ps (f a) ops →
  implements ps (m ≫= f) ops.
Proof.
  intros Hm Hf s Hs. rewrite (M_bind_ok _ _ _ _ _ (Hm s Hs)). by apply Hf.
Qed.

Lemma impl_lift {A} ps (r : res A) a f ops :
  r = Ok a → implements ps (f a) ops → implements ps (lift r ≫= f) ops.
Proof. intros Hr. apply impl_bind. intros s _. by apply lift_ok. Qed.

Lemma impl_for ps lo hi (body : Z → M gstate unit) (ops : Z → list op) :
  (∀ i, lo ≤ i < hi → implements ps (body i) (ops i)) →
  implements ps (for_up lo hi body) (mjoin (ops <$> seqZ lo (hi - lo))).
Proof.
  intros Hb s Hs. unfold for_up, seqZ.
  assert (∀ n i s, lo ≤ i → i + Z.of_nat n ≤ lo `max` hi → ready ps s →
    for_loop n i body s =
      Ok (tt, apply_ops (mjoin (ops <$> ((λ j, Z.of_nat j + i) <$> seq 0 n))) s)) as Hl.
  { induction n as [|n IH]; intros i t Hi Hn Ht; simpl; [done|].
    rewrite (M_seq_ok _ _ _ _ (Hb i ltac:(lia) t Ht)).
    rewrite apply_ops_app, IH by (lia || by apply ready_apply).
    rewrite <-fmap_S_seq, <-!list_fmap_compose. do 3 f_equal.
    f_equal. apply list_fmap_ext. intros ? j _. simpl. f_equal. lia. }
  rewrite (Hl (Z.to_nat (hi - lo)) lo) by (done || lia). done.
Qed.

Lemma impl_loop ps n m ops :
  implements ps m ops → implements ps (for_up 0 n (λ _, m)) (loop n ops).
Proof.
  intros Hm. pose proof (impl_for ps 0 n (λ _, m) (λ _, ops) (λ _ _, Hm)) as Hf.
  unfold loop. replace (replicate (Z.to_nat n) ops)
    with ((λ _, ops) <$> seqZ 0 (n - 0)); [done|].
  rewrite Z.sub_0_r. unfold seqZ. rewrite <-list_fmap_compose.
  apply list_eq. intros i. rewrite list_lookup_fmap.
  destruct (decide (i < Z.to_nat n)%nat).
  - rewrite lookup_seq_lt by done. by rewrite lookup_replicate_2.
  - rewrite lookup_seq_ge by lia. rewrite lookup_ge_None_2; [done|].
    rewrite length_replicate. lia.
Qed.

(** A change of schedule that makes no difference. *)
Lemma impl_eq ps m o1 o2 : implements ps m o1 → o1 = o2 → implements ps m o2.
Proof. by intros ? <-. Qed.

(** ** The primitives *)

Lemma push_list {A} (f : A → Traffic) l s :
  for_each l (λ x, push_back (f x)) s = Ok (tt, mkG (g_list s ++ (f <$> l)) (g_heap s)).
Proof.
  revert s. induction l as [|x l IH]; intros s; simpl.
  - rewrite app_nil_r. by destruct s.
  - erewrite M_seq_ok; [|reflexivity]. rewrite IH. simpl. by rewrite <-app_assoc.
Qed.

Lemma for_up_push (f : Z → Traffic) lo hi s :
  for_up lo hi (λ i, push_back (f i)) s =
    Ok (tt, mkG (g_list s ++ (f <$> seqZ lo (hi - lo))) (g_heap s)).
Proof.
  unfold for_up, seqZ. generalize (Z.to_nat (hi - lo)) as n. intros n.
  revert lo s. induction n as [|n IH]; intros lo s; simpl.
  - rewrite app_nil_r. by destruct s.
  - erewrite M_seq_ok; [|reflexivity]. rewrite IH. simpl. rewrite <-app_assoc.
    simpl. do 4 f_equal. f_equal.
    rewrite <-fmap_S_seq, <-!list_fmap_compose.
    apply list_fmap_ext. intros ? j _. simpl. f_equal. lia.
Qed.

Lemma seqZ_snoc lo n : 0 ≤ n → seqZ lo (n + 1) = seqZ lo n ++ [lo + n].
Proof. intros. rewrite seqZ_app by lia. done. Qed.

Lemma unicast_ok ty n size p s t a :
  g_heap s !! p = Some t → t_address t = Some a → u64 a = a →
  unicast ty n size p s =
    Ok (tt, mkG (g_list s ++ unicast_list ty n a size)
                (advance p (0 `max` n * size) (g_heap s))).
Proof.
  intros Ht Ha Hu. unfold unicast.
  edestruct (for_up_inv (λ j s', s' =
     mkG (g_list s ++ unicast_list ty j a size) (advance p (j * size) (g_heap s)))
     ) as (s' & E & ->); [| |rewrite E; unfold unicast_list].
  - destruct s as [l h]. simpl in *. unfold unicast_list. simpl.
    rewrite app_nil_r. f_equal. unfold advance.
    apply map_eq. intros q. rewrite lookup_alter. case_decide as Hq; [subst q|done].
    rewrite Ht. simpl. rewrite Ha. simpl. rewrite Z.mul_0_l, Z.add_0_r, Hu.
    destruct t; simpl in *. by subst.
  - intros j s' Hj ->. eexists. split.
    + assert (∀ l, g_tensor p (mkG l (advance p (j * size) (g_heap s))) =
        Ok (set_address (u64 (a + j * size)) t, mkG l (advance p (j * size) (g_heap s)))) as Hg.
      { intros l. unfold g_tensor, deref. simpl. unfold advance.
        rewrite lookup_alter_eq, Ht. simpl. by rewrite Ha. }
      erewrite M_bind_ok by apply Hg. erewrite M_bind_ok; [|by apply lift_ok].
      erewrite M_seq_ok; [|reflexivity]. simpl. erewrite M_bind_ok by apply Hg. done.
    + simpl. unfold unicast_list. rewrite seqZ_snoc by lia.
      rewrite fmap_app, <-app_assoc. simpl. f_equal.
      apply map_eq. intros q. rewrite lookup_insert. unfold advance.
      rewrite !lookup_alter. repeat case_decide; try done. rewrite Ht. simpl.
      rewrite Ha. simpl. rewrite u64_add_l. unfold set_address; simpl.
      do 3 f_equal. f_equal. lia.
  - f_equal. destruct (decide (0 ≤ n)).
    + by rewrite Z.max_r by lia.
    + rewrite Z.max_l by lia. unfold seqZ.
      by replace (Z.to_nat n) with 0%nat by lia.
Qed.

Lemma ready_elem ps p s :
  p ∈ ps → ready ps s → tensor_ready (g_heap s) p ∧ size_of (g_heap s) p = sz p.
Proof. intros Hp Hs. unfold ready in Hs. rewrite Forall_forall in Hs. by apply Hs. Qed.

Lemma g_size_ok ps p s :
  p ∈ ps → ready ps s → g_size p s = Ok (sz p, s).
Proof.
  intros Hp Hs. destruct (ready_elem _ _ _ Hp Hs) as [(t & z & a & Ht & Hz & _) <-].
  unfold g_size, size_of. rewrite Ht. simpl. rewrite Hz.
  erewrite M_bind_ok; [|unfold g_tensor, deref; by rewrite Ht].
  erewrite M_bind_ok; [done|]. apply lift_ok. unfold get_size. by rewrite Hz.
Qed.

Lemma unicast_op ty n p s ps :
  p ∈ ps → ready ps s →
  unicast ty n (sz p) p s =
    Ok (tt, mkG (g_list s ++ unicast_list ty n (addr_of (g_heap s) p) (size_of (g_heap s) p))
                (advance p (0 `max` n * size_of (g_heap s) p) (g_heap s))).
Proof.
  intros Hp Hs.
  destruct (ready_elem _ _ _ Hp Hs) as [(t & z & a & Ht & Hz & Ha & Hu) ->].
  rewrite (unicast_ok _ _ _ _ _ _ _ Ht Ha Hu). unfold addr_of.
  by rewrite Ht; simpl; rewrite Ha.
Qed.
End schedules.
