(* ===== verification/GenSpec.v ===== *)
(** * The generators refine their schedules

    For each of the nine generators of [traffic_generator.hpp] its schedule,
    and the proof that the generator returns normally and does that schedule,
    whatever the addresses and the aliasing between tensors. *)
From stdpp Require Import base tactics list gmap strings.
From Stdlib Require Import ZArith Lia.
From S2P Require Import Prelude Graph TrafficGen Schedule.
Local Open Scope Z_scope.

(** ** The schedules *)

Definition opt_read (n : Z) (bias : option loc) : list op :=
  match bias with Some p => [OpRead n p] | None => [] end.
Definition opt_bcast (z : option Z) (bias : option loc) : list op :=
  match bias with Some p => [OpBcast z p] | None => [] end.

(** One tile per PE, [n] PEs. *)
Definition tile_ops (pi po : loc) (n : Z) : list op :=
  [OpRead n pi; OpCompute n; OpWrite n po].

(** Rounds of [numPE] tiles and, when something is left, one smaller round. *)
Definition rounds (r m : Z) (full : list op) (rest : list op) : list op :=
  loop r full ++ (if m =? 0 then [] else rest).

(** Read the inputs, compute on [n] PEs, write the output tiles. *)
Definition element_ops (numPE n : Z) (ins : list loc) (po : loc) : list op :=
  (OpRead numPE <$> ins) ++ [OpCompute n; OpWrite n po].

Definition element_wise_schedule (numPE r m : Z) (ins : list loc) (po : loc) : list op :=
  rounds r m (element_ops numPE numPE ins po) (element_ops numPE m ins po).

(** The inner loops of the weight-stationary dataflow. *)
Definition weight_ops (numPE c hw : Z) (pi pw po : loc) : list op :=
  loop c (OpRead numPE pw ::
    loop hw [OpBcast None pi; OpCompute numPE; OpWrite numPE po]).

Definition conv_weight_schedule (numPE kn c hw : Z) (bias : option loc) (pi pw po : loc)
    : list op :=
  loop (kn / numPE) (opt_read numPE bias ++ weight_ops numPE c hw pi pw po).

Definition conv_weight_reduction_schedule (numPE kn c hw : Z) (bias : option loc)
    (pi pw po : loc) : list op :=
  opt_bcast None bias ++ loop (kn / numPE) (weight_ops numPE c hw pi pw po).

Definition conv_bn_weight_schedule (numPE kn c hw : Z) (bias : option loc)
    (params : list loc) (pi pw po : loc) : list op :=
  loop (kn / numPE)
    (opt_read numPE bias ++ (OpRead numPE <$> params) ++ weight_ops numPE c hw pi pw po).

(** The output-stationary dataflow: [full] and [rest] are what is read besides
    the weight for each of the [kn] kernels, in a full round and in the last
    one; [rest0] is read once at the beginning of the last round. *)
Definition output_ops (numPE kn c hw : Z) (full rest0 rest : list op) (pi pw po : loc)
    : list op :=
  loop c (rounds (hw / numPE) (hw mod numPE)
    (OpRead numPE pi ::
       loop kn (OpBcast None pw :: full ++ [OpCompute numPE]))
    (OpRead (hw mod numPE) pi :: rest0 ++
       loop kn (OpBcast None pw :: rest ++ [OpCompute (hw mod numPE)]))) ++
  [OpWrite numPE po].

Definition conv_output_schedule (numPE kn c hw : Z) (bias : option loc) (pi pw po : loc)
    : list op :=
  output_ops numPE kn c hw (opt_read numPE bias) (opt_read (hw mod numPE) bias)
    (opt_read numPE bias) pi pw po.

Definition conv_output_reduction_schedule (numPE kn c hw : Z) (z : Z) (bias : option loc)
    (pi pw po : loc) : list op :=
  opt_bcast (Some z) bias ++
  output_ops numPE kn c hw [] (opt_read (hw mod numPE) bias) [] pi pw po.

(** In the last round a fused node without bias reads its third input, the
    first batch-normalisation parameter, once more in the place of the bias. *)
Definition conv_bn_output_schedule (numPE kn c hw : Z) (bias : option loc) (p2 : loc)
    (params : list loc) (pi pw po : loc) : list op :=
  output_ops numPE kn c hw
    (opt_read numPE bias ++ (OpRead numPE <$> params))
    (opt_read numPE bias)
    (OpRead numPE p2 :: (OpRead numPE <$> params)) pi pw po.

Definition bn_params (ins : list loc) : list op := OpBcast None <$> drop 1 ins.

Definition bn_split_c_schedule (numPE c : Z) (ins : list loc) (pi po : loc) : list op :=
  rounds (c / numPE) (c mod numPE)
    (OpRead numPE pi :: (OpRead numPE <$> drop 1 ins) ++ [OpCompute numPE; OpWrite numPE po])
    (OpRead (c mod numPE) pi :: bn_params ins ++
       [OpCompute (c mod numPE); OpWrite (c mod numPE) po]).

Definition bn_split_chw_schedule (numPE c hw : Z) (ins : list loc) (pi po : loc) : list op :=
  loop c (bn_params ins ++
    rounds (hw / numPE) (hw mod numPE) (tile_ops pi po numPE) (tile_ops pi po (hw mod numPE))).

Definition bn_split_hw_schedule (numPE r m : Z) (ins : list loc) (pi po : loc) : list op :=
  bn_params ins ++
  rounds r m (tile_ops pi po numPE) [OpRead numPE pi; OpCompute m; OpWrite m po].

Definition batchnorm_schedule (numPE r m c s2 s3 : Z) (ins : list loc) (pi po : loc)
    : list op :=
  if (1 <? c) && (s2 =? 1) && (s3 =? 1) then bn_split_c_schedule numPE c ins pi po
  else if (1 <? c) && negb (s2 =? 1) && negb (s3 =? 1) then
    bn_split_chw_schedule numPE c (s2 * s3) ins pi po
  else if c =? 1 then bn_split_hw_schedule numPE r m ins pi po
  else [].

Definition bn_reduction_schedule (numPE n : Z) (params : list (Z * loc)) (pi po : loc)
    : list op :=
  ((λ zp, OpBcast (Some zp.1) zp.2) <$> params) ++
  rounds (n / numPE) (n mod numPE) (tile_ops pi po numPE) (tile_ops pi po (n mod numPE)).

(** ** Refinement of the building blocks *)

Lemma rounds_when r m full rest :
  loop r full ++ (if negb (m =? 0) then rest else []) = rounds r m full rest.
Proof. unfold rounds. by destruct (m =? 0). Qed.

(** Looping over the positions of a vector from [k] on. *)
Lemma mjoin_positions {A B} (f : A → B) (l : list A) (k : nat) :
  mjoin ((λ j, match l !! Z.to_nat j with Some p => [f p] | None => [] end)
           <$> seqZ (Z.of_nat k) (Z.of_nat (length l) - Z.of_nat k)) = f <$> drop k l.
Proof.
  destruct (decide (length l ≤ k)%nat) as [Hge|Hlt].
  - rewrite drop_ge by done. unfold seqZ.
    by replace (Z.to_nat (Z.of_nat (length l) - Z.of_nat k)) with 0%nat by lia.
  - remember (length l - k)%nat as n eqn:Hn.
    replace (Z.of_nat (length l) - Z.of_nat k) with (Z.of_nat n) by lia.
    revert k Hlt Hn. induction n as [|n IH]; intros k Hlt Hn; [lia|].
    rewrite seqZ_cons by lia. simpl. rewrite Nat2Z.id.
    destruct (lookup_lt_is_Some_2 l k) as [x Hx]; [lia|]. rewrite Hx.
    rewrite (drop_S _ _ _ Hx). simpl. f_equal.
    replace (Z.succ (Z.of_nat k)) with (Z.of_nat (S k)) by lia.
    replace (Z.pred (Z.of_nat (S n))) with (Z.of_nat n) by lia.
    destruct (decide (S k < length l)%nat); [apply IH; lia|].
    assert (n = 0%nat) as -> by lia. rewrite drop_ge by lia. done.
Qed.

Section refinement.
Variables (g : TrafficGenerator) (sz : loc → Z).
Let numPE := tg_numPE g.
Let ins := n_inputs (tg_split_node g).
Let outs := n_outputs (tg_split_node g).
Let ps := ins ++ outs.
Local Abbreviation impl := (implements numPE sz ps).
Local Abbreviation ready := (ready sz).

Lemma input_in_ps i p : vec_get ins i = Ok p → p ∈ ps.
Proof.
  intros H. apply vec_get_inv in H as [_ H]. apply elem_of_app. left.
  by eapply list_elem_of_lookup_2.
Qed.
Lemma output_in_ps i p : vec_get outs i = Ok p → p ∈ ps.
Proof.
  intros H. apply vec_get_inv in H as [_ H]. apply elem_of_app. right.
  by eapply list_elem_of_lookup_2.
Qed.

Lemma compute_impl n : impl (compute n) [OpCompute n].
Proof.
  intros s _. unfold compute. rewrite for_up_push. simpl.
  unfold apply_op. simpl. unfold compute_list. by rewrite Z.sub_0_r.
Qed.

Lemma unicast_read_impl n p : p ∈ ps → impl (unicast_read n (sz p) p) [OpRead n p].
Proof. intros Hp s Hs. by apply unicast_op with ps. Qed.

Lemma unicast_write_impl n p : p ∈ ps → impl (unicast_write n (sz p) p) [OpWrite n p].
Proof. intros Hp s Hs. by apply unicast_op with ps. Qed.

Lemma size_impl p f ops : p ∈ ps → impl (f (sz p)) ops → impl (g_size p ≫= f) ops.
Proof. intros Hp. apply impl_bind. intros s Hs. by apply g_size_ok with ps. Qed.

Lemma broadcast_impl p z s :
  p ∈ ps → ready ps s →
  broadcast_read g z p s =
    Ok (tt, mkG (g_list s ++ bcast_list numPE (addr_of (g_heap s) p) z)
                (advance p z (g_heap s))).
Proof.
  intros Hp Hs.
  destruct (ready_elem _ _ _ _ Hp Hs) as [(t & zz & a & Ht & Hz & Ha & Hu) _].
  unfold broadcast_read, addr_of. rewrite Ht. simpl. rewrite Ha. simpl.
  assert (∀ l, g_tensor p (mkG l (g_heap s)) = Ok (t, mkG l (g_heap s))) as Hg.
  { intros l. unfold g_tensor, deref. simpl. by rewrite Ht. }
  erewrite M_bind_ok; [|destruct s; apply Hg].
  erewrite M_bind_ok; [|apply lift_ok; unfold get_address; by rewrite Ha].
  erewrite M_seq_ok; [|reflexivity]. erewrite M_bind_ok; [|apply Hg].
  erewrite M_seq_ok; [|reflexivity]. rewrite for_up_push. simpl.
  unfold bcast_list. rewrite <-app_assoc. do 3 f_equal.
  unfold advance. apply map_eq. intros q. rewrite lookup_insert, lookup_alter.
  case_decide; [subst|done]. rewrite Ht. simpl. by rewrite Ha.
Qed.

Lemma read_input_impl n i p : vec_get ins i = Ok p → impl (read_input g n i) [OpRead n p].
Proof.
  intros Hp. unfold read_input. apply (impl_lift _ _ _ _ p); [done|].
  apply input_in_ps in Hp. by apply size_impl, unicast_read_impl.
Qed.

Lemma bcast_input_impl i p : vec_get ins i = Ok p → impl (bcast_input g i) [OpBcast None p].
Proof.
  intros Hp. unfold bcast_input. apply (impl_lift _ _ _ _ p); [done|].
  apply input_in_ps in Hp. apply size_impl; [done|]. intros s Hs.
  rewrite (broadcast_impl _ _ _ Hp Hs). simpl. unfold apply_op. simpl.
  by destruct (ready_elem _ _ _ _ Hp Hs) as [_ ->].
Qed.

Lemma bcast_original_impl i z p :
  vec_get (n_origianl_input_size (tg_split_node g)) i = Ok z → vec_get ins i = Ok p →
  impl (bcast_original g i) [OpBcast (Some z) p].
Proof.
  intros Hz Hp. unfold bcast_original. apply (impl_lift _ _ _ _ z); [done|].
  apply (impl_lift _ _ _ _ p); [done|]. intros s Hs. apply input_in_ps in Hp.
  by apply broadcast_impl.
Qed.

Lemma write_output_impl n p : vec_get outs 0 = Ok p → impl (write_output g n) [OpWrite n p].
Proof.
  intros Hp. unfold write_output. apply (impl_lift _ _ _ _ p); [done|].
  apply output_in_ps in Hp. by apply size_impl, unicast_write_impl.
Qed.

Lemma tile_round_impl n pi po :
  vec_get ins 0 = Ok pi → vec_get outs 0 = Ok po →
  impl (tile_round g n) (tile_ops pi po n).
Proof.
  intros Hi Ho. unfold tile_round.
  eapply impl_eq; [|reflexivity].
  eapply (impl_seq _ _ _ _ _ [OpRead n pi]); [by apply read_input_impl|].
  eapply (impl_seq _ _ _ _ _ [OpCompute n]); [apply compute_impl|by apply write_output_impl].
Qed.

Lemma for_inputs_impl (k : nat) (body : Z → M gstate unit) (f : loc → op) :
  (∀ i p, vec_get ins i = Ok p → impl (body i) [f p]) →
  impl (for_up (Z.of_nat k) (inputs_size g) body) (f <$> drop k ins).
Proof.
  intros Hb. eapply impl_eq; [apply impl_for|apply mjoin_positions].
  intros i Hi. unfold inputs_size in Hi.
  destruct (lookup_lt_is_Some_2 ins (Z.to_nat i)) as [p Hp]; [subst ins; lia|].
  rewrite Hp. apply Hb. apply vec_get_Z; [lia|done].
Qed.

Lemma bcast_params_impl : impl (bcast_params g) (bn_params ins).
Proof.
  unfold bcast_params. change 1 with (Z.of_nat 1).
  apply for_inputs_impl. intros. by apply bcast_input_impl.
Qed.

(** [if (inputs.size() > 2)] tests for a third input. *)
Lemma bias_when (m : M gstate unit) (f : loc → list op) :
  (∀ p, vec_get ins 2 = Ok p → impl m (f p)) →
  impl (when (2 <? inputs_size g) m)
    (match ins !! 2%nat with Some p => f p | None => [] end).
Proof.
  intros Hm. unfold inputs_size. fold ins.
  destruct (ins !! 2%nat) as [p|] eqn:E.
  - pose proof (lookup_lt_Some _ _ _ E).
    destruct (Z.ltb_spec 2 (Z.of_nat (length ins))); [|lia].
    apply Hm. by apply vec_get_Z.
  - apply lookup_ge_None in E.
    destruct (Z.ltb_spec 2 (Z.of_nat (length ins))); [lia|]. apply impl_ret.
Qed.
End refinement.

Create HintDb impl.
#[export] Hint Resolve impl_ret : impl.

(** Compute the schedule of a program from its structure. *)
Ltac impl_go :=
  first
  [ eapply compute_impl
  | eapply read_input_impl; eassumption
  | eapply bcast_input_impl; eassumption
  | eapply write_output_impl; eassumption
  | eapply tile_round_impl; eassumption
  | eapply bcast_original_impl; eassumption
  | eapply bcast_params_impl
  | solve [eauto with impl]
  | eapply impl_seq; [impl_go | impl_go]
  | eapply impl_loop; impl_go
  | eapply bias_when; intros ? ?; impl_go
  | eapply impl_when; impl_go ].

(** What the convolution generators need of the node and the strategy. *)
Record conv_gen (g : TrafficGenerator) (pi pw po : loc) (kn c a b : Z) : Prop := {
  cv_in : vec_get (n_inputs (tg_split_node g)) 0 = Ok pi;
  cv_w : vec_get (n_inputs (tg_split_node g)) 1 = Ok pw;
  cv_out : vec_get (n_outputs (tg_split_node g)) 0 = Ok po;
  cv_kn : split_at (tg_strategy g) 1 0 = Ok kn;
  cv_c : split_at (tg_strategy g) 0 1 = Ok c;
  cv_a : split_at (tg_strategy g) 0 2 = Ok a;
  cv_b : split_at (tg_strategy g) 0 3 = Ok b;
  cv_pe : 0 < tg_numPE g;
  cv_kn_range : 0 ≤ kn < 2 ^ 31;
  cv_hw_range : 0 ≤ a * b < 2 ^ 31;
}.

Abbreviation node_ptrs g := (n_inputs (tg_split_node g) ++ n_outputs (tg_split_node g)).
Abbreviation bias_of g := (n_inputs (tg_split_node g) !! 2%nat).

Lemma get_hw_ok g pi pw po kn c a b :
  conv_gen g pi pw po kn c a b → get_hw g = Ok (a * b).
Proof.
  intros []. unfold get_hw. rewrite cv_a0. simpl. rewrite cv_b0. simpl. by apply i32_ok; lia.
Qed.

Section conv.
Variables (g : TrafficGenerator) (sz : loc → Z) (pi pw po : loc) (kn c a b : Z).
Hypothesis H : conv_gen g pi pw po kn c a b.
Local Abbreviation numPE := (tg_numPE g).
Local Abbreviation impl := (implements numPE sz (node_ptrs g)).

Lemma conv_weight_impl :
  impl (generate_traffic_conv_weight_stationary g)
    (conv_weight_schedule numPE kn c (a * b) (bias_of g) pi pw po).
Proof.
  pose proof (get_hw_ok _ _ _ _ _ _ _ _ H) as Hhw. destruct H.
  unfold generate_traffic_conv_weight_stationary.
  apply (impl_lift _ _ _ _ kn); [done|].
  apply (impl_lift _ _ _ _ (kn / numPE)); [by apply i32_div_pos|].
  apply (impl_lift _ _ _ _ c); [done|]. apply (impl_lift _ _ _ _ (a * b)); [done|].
  eapply impl_eq; [impl_go|].
  unfold conv_weight_schedule, weight_ops, opt_read. done.
Qed.

Lemma conv_output_impl :
  impl (generate_traffic_conv_output_stationary g)
    (conv_output_schedule numPE kn c (a * b) (bias_of g) pi pw po).
Proof.
  pose proof (get_hw_ok _ _ _ _ _ _ _ _ H) as Hhw. destruct H.
  unfold generate_traffic_conv_output_stationary.
  apply (impl_lift _ _ _ _ c); [done|]. apply (impl_lift _ _ _ _ kn); [done|].
  apply (impl_lift _ _ _ _ (a * b)); [done|].
  apply (impl_lift _ _ _ _ (a * b / numPE)); [by apply i32_div_pos|].
  apply (impl_lift _ _ _ _ ((a * b) mod numPE)); [by apply i32_rem_pos|].
  eapply impl_eq; [impl_go|].
  unfold conv_output_schedule, output_ops, opt_read. rewrite <-rounds_when. done.
Qed.

Lemma read_sizes_impl : impl (read_sizes g) [].
Proof.
  destruct H. unfold read_sizes.
  apply (impl_lift _ _ _ _ pi); [done|]. apply size_impl; [by eapply input_in_ps|].
  apply (impl_lift _ _ _ _ pw); [done|]. apply size_impl; [by eapply input_in_ps|].
  apply (impl_lift _ _ _ _ po); [done|]. apply size_impl; [by eapply output_in_ps|].
  eapply impl_eq.
  - eapply (bias_when _ _ _ (λ _, [])). intros p Hp.
    apply (impl_lift _ _ _ _ p); [done|]. apply size_impl; [by eapply input_in_ps|].
    apply impl_ret.
  - by destruct (bias_of g).
Qed.

Lemma conv_weight_reduction_impl :
  impl (generate_traffic_conv_weight_reduction g)
    (conv_weight_reduction_schedule numPE kn c (a * b) (bias_of g) pi pw po).
Proof.
  pose proof (get_hw_ok _ _ _ _ _ _ _ _ H) as Hhw.
  unfold generate_traffic_conv_weight_reduction.
  eapply impl_eq; [eapply impl_seq; [apply read_sizes_impl|]|reflexivity]. destruct H.
  apply (impl_lift _ _ _ _ kn); [done|].
  apply (impl_lift _ _ _ _ (kn / numPE)); [by apply i32_div_pos|].
  apply (impl_lift _ _ _ _ c); [done|]. apply (impl_lift _ _ _ _ (a * b)); [done|].
  eapply impl_eq; [impl_go|]. done.
Qed.

Lemma conv_output_reduction_impl z :
  (∀ p, vec_get (n_inputs (tg_split_node g)) 2 = Ok p →
     vec_get (n_origianl_input_size (tg_split_node g)) 2 = Ok z) →
  impl (generate_traffic_conv_output_reduction g)
    (conv_output_reduction_schedule numPE kn c (a * b) z (bias_of g) pi pw po).
Proof.
  intros Hz. pose proof (get_hw_ok _ _ _ _ _ _ _ _ H) as Hhw.
  unfold generate_traffic_conv_output_reduction.
  eapply impl_eq; [eapply impl_seq; [apply read_sizes_impl|]|reflexivity]. destruct H.
  apply (impl_lift _ _ _ _ c); [done|]. apply (impl_lift _ _ _ _ kn); [done|].
  apply (impl_lift _ _ _ _ (a * b)); [done|].
  apply (impl_lift _ _ _ _ (a * b / numPE)); [by apply i32_div_pos|].
  apply (impl_lift _ _ _ _ ((a * b) mod numPE)); [by apply i32_rem_pos|].
  eapply impl_eq.
  - eapply impl_seq; [|impl_go].
    eapply bias_when. intros p Hp. eapply bcast_original_impl; [by eapply Hz|done].
  - unfold conv_output_reduction_schedule, output_ops, opt_read, opt_bcast.
    rewrite <-rounds_when. done.
Qed.

(** The last four inputs, from the end: var, mean, B, scale. *)
Lemma read_bn_params_impl :
  (4 ≤ length (n_inputs (tg_split_node g)))%nat →
  impl (read_bn_params g) (OpRead numPE <$> take 4 (reverse (n_inputs (tg_split_node g)))).
Proof.
  intros Hl. unfold read_bn_params. rewrite for_up_unroll4. unfold inputs_size.
  set (l := n_inputs (tg_split_node g)) in *.
  assert (∀ (j : nat) p, reverse l !! j = Some p →
    vec_get l (Z.of_nat (length l) - 1 - Z.of_nat j) = Ok p) as Hg.
  { intros j p Hj. pose proof (lookup_lt_Some _ _ _ Hj). rewrite length_reverse in *.
    rewrite reverse_lookup in Hj by lia. apply vec_get_Z; [lia|].
    by replace (Z.to_nat (Z.of_nat (length l) - 1 - Z.of_nat j))
      with (length l - S j)%nat by lia. }
  assert (length (reverse l) = length l) as Hr by apply length_reverse.
  destruct (reverse l) as [|p0 [|p1 [|p2 [|p3 rest]]]] eqn:E; simpl in Hr; try lia.
  pose proof (Hg 0%nat p0 eq_refl) as H0. pose proof (Hg 1%nat p1 eq_refl) as H1.
  pose proof (Hg 2%nat p2 eq_refl) as H2. pose proof (Hg 3%nat p3 eq_refl) as H3.
  simpl in *. eapply impl_eq; [impl_go|]. done.
Qed.

(** Seven inputs: input, weight, bias and the four parameters. *)
Definition fused_bias : option loc :=
  if (length (n_inputs (tg_split_node g)) =? 7)%nat then bias_of g else None.
Definition fused_params : list loc := take 4 (reverse (n_inputs (tg_split_node g))).

Lemma fused_bias_when (m : M gstate unit) (f : loc → list op) :
  (∀ p, vec_get (n_inputs (tg_split_node g)) 2 = Ok p → impl m (f p)) →
  impl (when (inputs_size g =? 7) m)
    (match fused_bias with Some p => f p | None => [] end).
Proof.
  intros Hm. unfold inputs_size, fused_bias.
  destruct (Nat.eqb_spec (length (n_inputs (tg_split_node g))) 7) as [E|E].
  - rewrite E. simpl.
    destruct (lookup_lt_is_Some_2 (n_inputs (tg_split_node g)) 2) as [p Hp]; [lia|].
    rewrite Hp. apply Hm. by apply vec_get_Z.
  - destruct (Z.eqb_spec (Z.of_nat (length (n_inputs (tg_split_node g)))) 7); [lia|].
    apply impl_ret.
Qed.

Lemma conv_bn_weight_impl :
  (4 ≤ length (n_inputs (tg_split_node g)))%nat →
  impl (generate_traffic_conv_batchnorm_weight g)
    (conv_bn_weight_schedule numPE kn c (a * b) fused_bias fused_params pi pw po).
Proof.
  intros Hl. pose proof (get_hw_ok _ _ _ _ _ _ _ _ H) as Hhw.
  pose proof (read_bn_params_impl Hl) as Hp. destruct H.
  unfold generate_traffic_conv_batchnorm_weight.
  apply (impl_lift _ _ _ _ kn); [done|].
  apply (impl_lift _ _ _ _ (kn / numPE)); [by apply i32_div_pos|].
  apply (impl_lift _ _ _ _ c); [done|]. apply (impl_lift _ _ _ _ (a * b)); [done|].
  eapply impl_eq.
  - eapply impl_loop, impl_seq; [eapply fused_bias_when; intros; impl_go|].
    eapply impl_seq; [exact Hp|impl_go].
  - done.
Qed.

Lemma conv_bn_output_impl p2 :
  (4 ≤ length (n_inputs (tg_split_node g)))%nat → bias_of g = Some p2 →
  impl (generate_traffic_conv_batchnorm_output g)
    (conv_bn_output_schedule numPE kn c (a * b) fused_bias p2 fused_params pi pw po).
Proof.
  intros Hl H2. pose proof (get_hw_ok _ _ _ _ _ _ _ _ H) as Hhw.
  pose proof (read_bn_params_impl Hl) as Hp. destruct H.
  unfold generate_traffic_conv_batchnorm_output.
  apply (impl_lift _ _ _ _ c); [done|]. apply (impl_lift _ _ _ _ kn); [done|].
  apply (impl_lift _ _ _ _ (a * b)); [done|].
  apply (impl_lift _ _ _ _ (a * b / numPE)); [by apply i32_div_pos|].
  apply (impl_lift _ _ _ _ ((a * b) mod numPE)); [by apply i32_rem_pos|].
  eapply impl_eq.
  - eapply impl_seq; [eapply impl_loop, impl_seq|impl_go].
    + eapply impl_loop, impl_seq; [impl_go|].
      eapply impl_loop, impl_seq; [impl_go|].
      eapply impl_seq; [eapply fused_bias_when; intros; impl_go|].
      eapply impl_seq; [exact Hp|impl_go].
    + eapply impl_when, impl_seq; [impl_go|].
      eapply impl_seq; [eapply fused_bias_when; intros; impl_go|].
      eapply impl_loop, impl_seq; [impl_go|].
      eapply impl_seq; [eapply bias_when; intros; impl_go|].
      eapply impl_seq; [exact Hp|impl_go].
  - rewrite rounds_when, H2. unfold conv_bn_output_schedule, output_ops. simpl.
    unfold opt_read, fused_params. rewrite <-?app_assoc. done.
Qed.
End conv.

(** What the element-wise and batch-normalisation generators need. *)
Record bn_gen (g : TrafficGenerator) (pi po : loc) (c s2 s3 : Z) : Prop := {
  bg_in : vec_get (n_inputs (tg_split_node g)) 0 = Ok pi;
  bg_out : vec_get (n_outputs (tg_split_node g)) 0 = Ok po;
  bg_c : split_at (tg_strategy g) 0 1 = Ok c;
  bg_s2 : split_at (tg_strategy g) 0 2 = Ok s2;
  bg_s3 : split_at (tg_strategy g) 0 3 = Ok s3;
  bg_pe : 0 < tg_numPE g;
  bg_c_range : 0 ≤ c < 2 ^ 31;
  bg_hw_range : 0 ≤ s2 * s3 < 2 ^ 31;
}.

Section elementwise.
Variables (g : TrafficGenerator) (sz : loc → Z).
Local Abbreviation numPE := (tg_numPE g).
Local Abbreviation ins := (n_inputs (tg_split_node g)).
Local Abbreviation impl := (implements numPE sz (node_ptrs g)).

Lemma read_all_impl n (k : nat) :
  impl (for_up (Z.of_nat k) (inputs_size g) (λ j, read_input g n j)) (OpRead n <$> drop k ins).
Proof. apply for_inputs_impl. intros. by apply read_input_impl. Qed.

Lemma write_sized_impl n po :
  vec_get (n_outputs (tg_split_node g)) 0 = Ok po →
  impl (p ← g_output g 0; unicast_write n (sz po) p) [OpWrite n po].
Proof.
  intros Ho. apply (impl_lift _ _ _ _ po); [done|].
  apply unicast_write_impl. by eapply output_in_ps.
Qed.

Lemma element_wise_impl po :
  vec_get (n_outputs (tg_split_node g)) 0 = Ok po →
  impl (generate_traffic_element_wise g)
    (element_wise_schedule numPE (tg_round g) (tg_remainder g) ins po).
Proof.
  intros Ho. unfold generate_traffic_element_wise.
  apply (impl_lift _ _ _ _ po); [done|]. apply size_impl; [by eapply output_in_ps|].
  eapply impl_eq.
  - eapply impl_seq.
    + eapply impl_loop, impl_seq; [exact (read_all_impl numPE 0)|].
      eapply impl_seq; [apply compute_impl|by apply write_sized_impl].
    + eapply impl_when, impl_seq; [exact (read_all_impl numPE 0)|].
      eapply impl_seq; [apply compute_impl|by apply write_sized_impl].
  - by rewrite rounds_when.
Qed.

Variables (pi po : loc) (c s2 s3 : Z).
Hypothesis H : bn_gen g pi po c s2 s3.

Lemma bn_split_c_impl : impl (batchnorm_split_c g c) (bn_split_c_schedule numPE c ins pi po).
Proof.
  destruct H. unfold batchnorm_split_c.
  apply (impl_lift _ _ _ _ (c / numPE)); [by apply i32_div_pos|].
  apply (impl_lift _ _ _ _ (c mod numPE)); [by apply i32_rem_pos|].
  eapply impl_eq.
  - eapply impl_seq; [|impl_go].
    eapply impl_loop, impl_seq; [impl_go|].
    eapply impl_seq; [exact (read_all_impl numPE 1)|impl_go].
  - by rewrite rounds_when.
Qed.

Lemma bn_split_chw_impl :
  impl (batchnorm_split_chw g c (s2 * s3 / numPE) ((s2 * s3) mod numPE))
    (bn_split_chw_schedule numPE c (s2 * s3) ins pi po).
Proof.
  destruct H. unfold batchnorm_split_chw. eapply impl_eq; [impl_go|].
  by rewrite rounds_when.
Qed.

Lemma bn_split_hw_impl :
  (tg_remainder g ≠ 0 → 0 < tg_round g) →
  impl (batchnorm_split_hw g (sz po))
    (bn_split_hw_schedule numPE (tg_round g) (tg_remainder g) ins pi po).
Proof.
  intros Hr. destruct H. unfold batchnorm_split_hw.
  eapply impl_eq.
  - eapply impl_seq; [impl_go|]. eapply impl_seq.
    + eapply impl_loop. apply (impl_lift _ _ _ _ pi); [done|].
      apply size_impl; [by eapply input_in_ps|].
      eapply impl_seq; [apply unicast_read_impl; by eapply input_in_ps|].
      eapply impl_seq; [apply compute_impl|by apply write_sized_impl].
    + instantiate (1 := if negb (tg_remainder g =? 0) then _ else []).
      destruct (Z.eqb_spec (tg_remainder g) 0) as [->|Hne]; simpl; [apply impl_ret|].
      destruct (Z.leb_spec (tg_round g) 0); [specialize (Hr Hne); lia|].
      eapply (impl_seq _ _ _ _ _ []); [apply impl_ret|].
      apply (impl_lift _ _ _ _ pi); [done|].
      apply size_impl; [by eapply input_in_ps|].
      eapply impl_seq; [apply unicast_read_impl; by eapply input_in_ps|].
      eapply impl_seq; [apply compute_impl|by apply write_sized_impl].
  - by rewrite rounds_when.
Qed.

Lemma batchnorm_impl :
  (tg_remainder g ≠ 0 → 0 < tg_round g) →
  impl (generate_traffic_batchnorm g)
    (batchnorm_schedule numPE (tg_round g) (tg_remainder g) c s2 s3 ins pi po).
Proof.
  intros Hr. unfold generate_traffic_batchnorm.
  pose proof bn_split_c_impl as H1. pose proof bn_split_chw_impl as H2.
  pose proof (bn_split_hw_impl Hr) as H3. destruct H.
  assert (get_hw g = Ok (s2 * s3)) as Hhw.
  { unfold get_hw. rewrite bg_s4. simpl. rewrite bg_s5. simpl. apply i32_ok. lia. }
  apply (impl_lift _ _ _ _ po); [done|]. apply size_impl; [by eapply output_in_ps|].
  apply (impl_lift _ _ _ _ c); [done|]. apply (impl_lift _ _ _ _ (s2 * s3)); [done|].
  apply (impl_lift _ _ _ _ (s2 * s3 / numPE)); [by apply i32_div_pos|].
  apply (impl_lift _ _ _ _ ((s2 * s3) mod numPE)); [by apply i32_rem_pos|].
  apply (impl_lift _ _ _ _ s2); [done|]. apply (impl_lift _ _ _ _ s3); [done|].
  unfold batchnorm_schedule.
  destruct ((1 <? c) && (s2 =? 1) && (s3 =? 1)); [done|].
  destruct ((1 <? c) && negb (s2 =? 1) && negb (s3 =? 1)); [done|].
  destruct (c =? 1); [done|apply impl_ret].
Qed.

Lemma bn_reduction_impl :
  (length (n_origianl_input_size (tg_split_node g)) ≤ length ins)%nat →
  0 ≤ c * s2 < 2 ^ 31 → 0 ≤ c * s2 * s3 < 2 ^ 31 →
  impl (generate_traffic_batchnorm_reduction g)
    (bn_reduction_schedule numPE (c * s2 * s3)
       (drop 1 (zip (n_origianl_input_size (tg_split_node g)) ins)) pi po).
Proof.
  intros Hl Hb1 Hb2. destruct H. unfold generate_traffic_batchnorm_reduction.
  assert (get_hw g = Ok (s2 * s3)) as Hhw.
  { unfold get_hw. rewrite bg_s4. simpl. rewrite bg_s5. simpl. apply i32_ok. lia. }
  apply (impl_lift _ _ _ _ po); [done|]. apply size_impl; [by eapply output_in_ps|].
  apply (impl_lift _ _ _ _ c); [done|]. apply (impl_lift _ _ _ _ (s2 * s3)); [done|].
  eapply (impl_lift _ _ _ _ (s2 * s3 / numPE)); [by apply i32_div_pos|].
  eapply (impl_lift _ _ _ _ ((s2 * s3) mod numPE)); [by apply i32_rem_pos|].
  apply (impl_lift _ _ _ _ c); [done|]. apply (impl_lift _ _ _ _ s2); [done|].
  apply (impl_lift _ _ _ _ (c * s2)); [apply i32_ok; lia|].
  apply (impl_lift _ _ _ _ s3); [done|].
  apply (impl_lift _ _ _ _ (c * s2 * s3)); [apply i32_ok; lia|].
  apply (impl_lift _ _ _ _ (c * s2 * s3 / numPE)); [by apply i32_div_pos|].
  apply (impl_lift _ _ _ _ ((c * s2 * s3) mod numPE)); [by apply i32_rem_pos|].
  set (orig := n_origianl_input_size (tg_split_node g)) in *.
  assert (impl (for_up 1 (Z.of_nat (length orig)) (λ j, bcast_original g j))
    ((λ zp, OpBcast (Some zp.1) zp.2) <$> drop 1 (zip orig ins))) as Hbc.
  { assert (length (zip orig ins) = length orig) as <- by (rewrite length_zip; lia).
    eapply impl_eq; [change 1 with (Z.of_nat 1); apply impl_for|apply mjoin_positions].
    intros i Hi. destruct (lookup_lt_is_Some_2 (zip orig ins) (Z.to_nat i)) as [[z p] Hp]; [lia|].
    rewrite Hp. simpl. apply lookup_zip_with_Some in Hp as (z' & p' & [= -> ->] & Hz & Hp).
    apply bcast_original_impl; (apply vec_get_Z; [lia|done]). }
  eapply impl_eq; [eapply impl_seq; [exact Hbc|impl_go]|].
  by rewrite rounds_when.
Qed.
End elementwise.
