(* ===== verification/SchedFacts.v ===== *)
(** * What the generated traffic does

    Consequences of the refinement of the generators to their schedules: how
    much work they emit, where they access memory, and that the traffic of the
    processing elements agrees on the synchronisation barriers. *)
From stdpp Require Import base tactics list gmap strings.
From Stdlib Require Import ZArith Lia.
From S2P Require Import Prelude Graph TrafficGen Schedule GenSpec.
Local Open Scope Z_scope.

(** ** Counting traffic *)

Definition count (ty : RequestType) (l : list Traffic) : Z :=
  Z.of_nat (length (filter (λ t, tr_type t = ty) l)).

Lemma count_app ty l1 l2 : count ty (l1 ++ l2) = count ty l1 + count ty l2.
Proof. unfold count. rewrite filter_app, length_app. lia. Qed.

Lemma count_nil ty : count ty [] = 0.
Proof. done. Qed.

Lemma count_fmap {A} ty (f : A → Traffic) l ty' :
  (∀ x, tr_type (f x) = ty') →
  count ty (f <$> l) = if decide (ty' = ty) then Z.of_nat (length l) else 0.
Proof.
  intros Hf. unfold count. induction l as [|x l IH]; csimpl; [by case_decide|].
  rewrite filter_cons, Hf. case_decide; simpl; lia.
Qed.

Lemma count_cons ty t l : count ty (t :: l) = (if decide (tr_type t = ty) then 1 else 0) + count ty l.
Proof. unfold count. rewrite filter_cons. case_decide; simpl; lia. Qed.

Section facts.
Variable numPE : Z.

Definition op_count (ty : RequestType) (o : op) : Z :=
  match o, ty with
  | OpRead n _, READ => 0 `max` n
  | OpWrite n _, WRITE => 0 `max` n
  | OpBcast _ _, READ => 1
  | OpBcast _ _, SYNC => 0 `max` (numPE - 1)
  | OpCompute n, COMPUTE => 0 `max` n
  | _, _ => 0
  end.

Definition ops_count (ty : RequestType) (ops : list op) : Z :=
  foldr (λ o acc, op_count ty o + acc) 0 ops.

Lemma ops_count_app ty o1 o2 : ops_count ty (o1 ++ o2) = ops_count ty o1 + ops_count ty o2.
Proof. induction o1; simpl; lia. Qed.

Lemma ops_count_loop ty n ops : ops_count ty (loop n ops) = 0 `max` n * ops_count ty ops.
Proof.
  unfold loop. assert (∀ k : nat, ops_count ty (mjoin (replicate k ops)) =
    Z.of_nat k * ops_count ty ops) as ->; [|f_equal; lia].
  intros k. induction k as [|k IH]; simpl; [lia|]. rewrite ops_count_app, IH. lia.
Qed.

Lemma ops_count_rounds ty r m full rest :
  ops_count ty (rounds r m full rest) =
    0 `max` r * ops_count ty full + (if m =? 0 then 0 else ops_count ty rest).
Proof.
  unfold rounds. rewrite ops_count_app, ops_count_loop. by destruct (m =? 0).
Qed.

Lemma ops_count_reads n l : ops_count COMPUTE (OpRead n <$> l) = 0.
Proof. induction l; csimpl; lia. Qed.

Lemma ops_count_bcasts f (l : list loc) : ops_count COMPUTE (OpBcast f <$> l) = 0.
Proof. induction l; csimpl; lia. Qed.

Lemma count_op ty h o : count ty (op_traffic numPE h o) = op_count ty o.
Proof.
  destruct o as [n p|n p|z p|n]; simpl.
  - unfold unicast_list. rewrite (count_fmap _ _ _ READ) by done.
    rewrite length_seqZ. destruct ty; case_decide; simplify_eq; lia.
  - unfold unicast_list. rewrite (count_fmap _ _ _ WRITE) by done.
    rewrite length_seqZ. destruct ty; case_decide; simplify_eq; lia.
  - unfold bcast_list.
    rewrite count_cons, (count_fmap _ _ _ SYNC) by done. rewrite length_seqZ. simpl.
    destruct ty; repeat case_decide; simplify_eq; lia.
  - unfold compute_list. rewrite (count_fmap _ _ _ COMPUTE) by done.
    rewrite length_seqZ. destruct ty; case_decide; simplify_eq; lia.
Qed.

Lemma count_apply ty ops s :
  count ty (g_list (apply_ops numPE ops s)) = count ty (g_list s) + ops_count ty ops.
Proof.
  revert s. induction ops as [|o ops IH]; intros s; simpl; [lia|].
  rewrite IH. simpl. rewrite count_app, count_op. lia.
Qed.

(** ** Barriers *)

(** The entries on which a PE meets the others: PE 0 broadcasts, every other
    PE synchronises. *)
Definition is_barrier (t : Traffic) : bool :=
  bool_decide (tr_type t = SYNC) ||
  (bool_decide (tr_type t = READ) && bool_decide (tr_response t = BROADCAST)).

Definition of_pe (i : Z) (t : Traffic) : bool := bool_decide (tr_src t = (0, i)).

Definition barriers (i : Z) (l : list Traffic) : list Traffic :=
  filter (λ t, of_pe i t && is_barrier t) l.

Definition is_bcast (o : op) : bool := match o with OpBcast _ _ => true | _ => false end.
Definition ops_bcasts (ops : list op) : nat := length (filter (λ o, is_bcast o) ops).

Lemma barriers_app i l1 l2 : barriers i (l1 ++ l2) = barriers i l1 ++ barriers i l2.
Proof. apply filter_app. Qed.

Lemma barriers_none {A} i (f : A → Traffic) l :
  (∀ x, is_barrier (f x) = false) → barriers i (f <$> l) = [].
Proof.
  intros Hf. apply filter_none, Forall_fmap, Forall_forall. intros x _. simpl.
  rewrite Hf. destruct (of_pe i (f x)); simpl; tauto.
Qed.

Lemma barriers_sync i lo n :
  lo ≤ i < lo + n →
  length (barriers i ((λ j, mkTraffic SYNC (0, j) (1, 0) 0 0 UNICAST UNICAST) <$> seqZ lo n)) = 1%nat.
Proof.
  intros Hi. replace n with ((i - lo) + (n - (i - lo))) by lia.
  rewrite seqZ_app by lia. rewrite fmap_app, barriers_app, length_app.
  assert (∀ lo' n', i < lo' ∨ lo' + n' ≤ i → barriers i
    ((λ j, mkTraffic SYNC (0, j) (1, 0) 0 0 UNICAST UNICAST) <$> seqZ lo' n') = []) as Hout.
  { intros lo' n' Hne. apply filter_none, Forall_fmap, Forall_forall.
    intros j Hj%elem_of_seqZ. unfold of_pe. simpl.
    rewrite bool_decide_false; [tauto|]. intros [= ->]. lia. }
  rewrite Hout by lia. replace (lo + (i - lo)) with i by lia.
  rewrite seqZ_cons by lia. csimpl. unfold barriers.
  rewrite filter_cons_True by (unfold of_pe; simpl; by rewrite bool_decide_true).
  fold (barriers i). simpl. f_equal.
  change (filter _ ?l) with (barriers i l). by rewrite Hout by lia.
Qed.

Lemma barriers_op i h o :
  0 ≤ i < numPE →
  length (barriers i (op_traffic numPE h o)) =
    (if is_bcast o then 1 else 0)%nat.
Proof.
  intros Hi. destruct o as [n p|n p|z p|n]; simpl.
  1, 2, 4: unfold unicast_list, compute_list; by rewrite barriers_none.
  unfold bcast_list.
  match goal with |- length (barriers i (?x :: ?l)) = _ => change (x :: l) with ([x] ++ l) end.
  rewrite barriers_app, length_app. destruct (decide (i = 0)) as [->|Hne].
  - unfold barriers at 1. rewrite filter_cons_True by done. rewrite filter_nil. simpl.
    f_equal. apply length_zero_iff_nil.
    apply filter_none, Forall_fmap, Forall_forall. intros j Hj%elem_of_seqZ.
    unfold of_pe. simpl. rewrite bool_decide_false; [tauto|]. intros [= ->]. lia.
  - unfold barriers at 1. rewrite filter_cons_False.
    + rewrite filter_nil. rewrite barriers_sync by lia. done.
    + unfold of_pe. simpl. rewrite bool_decide_false; [tauto|]. intros [= Hi0]. lia.
Qed.

Lemma barriers_apply i ops s :
  0 ≤ i < numPE →
  length (barriers i (g_list (apply_ops numPE ops s))) =
    (length (barriers i (g_list s)) + ops_bcasts ops)%nat.
Proof.
  intros Hi. revert s. induction ops as [|o ops IH]; intros s; simpl; [unfold ops_bcasts; simpl; lia|].
  rewrite IH. simpl. rewrite barriers_app, length_app, barriers_op by done.
  unfold ops_bcasts. rewrite filter_cons.
  destruct (is_bcast o); simpl; lia.
Qed.

(** ** Sources *)

Definition op_width (o : op) : Z :=
  match o with OpRead n _ | OpWrite n _ | OpCompute n => n | OpBcast _ _ => 1 end.

Definition src_ok (t : Traffic) : Prop := (tr_src t).1 = 0 ∧ 0 ≤ (tr_src t).2 < numPE.

Lemma src_op h o : 0 < numPE → op_width o ≤ numPE → Forall src_ok (op_traffic numPE h o).
Proof.
  intros Hpe Hw. destruct o as [n p|n p|z p|n]; simpl in *.
  1, 2, 4: apply Forall_fmap, Forall_forall; intros j Hj%elem_of_seqZ;
    unfold src_ok; simpl; lia.
  constructor; [unfold src_ok; simpl; lia|].
  apply Forall_fmap, Forall_forall; intros j Hj%elem_of_seqZ; unfold src_ok; simpl; lia.
Qed.

Lemma src_apply ops s :
  0 < numPE → Forall (λ o, op_width o ≤ numPE) ops →
  Forall src_ok (g_list s) → Forall src_ok (g_list (apply_ops numPE ops s)).
Proof.
  intros Hpe Hw. revert s. induction Hw as [|o ops Ho Hw IH]; intros s Hs; simpl; [done|].
  apply IH. simpl. apply Forall_app. split; [done|]. by apply src_op.
Qed.
End facts.

(** ** Address streams *)

Section streams.
Variable numPE : Z.

(** The traffic of a schedule, each entry with the tensor it accesses. *)
Definition op_tagged (h : heap) (o : op) : list (option loc * Traffic) :=
  match o with
  | OpRead _ p | OpWrite _ p => (Some p,.) <$> op_traffic numPE h o
  | OpBcast _ p =>
      match op_traffic numPE h o with
      | t :: sync => (Some p, t) :: ((None,.) <$> sync)
      | [] => []
      end
  | OpCompute _ => (None,.) <$> op_traffic numPE h o
  end.

Fixpoint tagged (ops : list op) (h : heap) : list (option loc * Traffic) :=
  match ops with
  | [] => []
  | o :: ops' => op_tagged h o ++ tagged ops' (op_heap h o)
  end.

(** The addresses accessed through [p], in order. *)
Definition stream (p : loc) (l : list (option loc * Traffic)) : list Z :=
  (λ x, tr_addr x.2) <$> filter (λ x, x.1 = Some p) l.

(** The number of accesses through [p]. *)
Definition op_accesses (p : loc) (o : op) : Z :=
  match o with
  | OpRead n q | OpWrite n q => if decide (q = p) then 0 `max` n else 0
  | OpBcast _ q => if decide (q = p) then 1 else 0
  | OpCompute _ => 0
  end.
Definition accesses (p : loc) (ops : list op) : Z :=
  foldr (λ o acc, op_accesses p o + acc) 0 ops.

(** All accesses have the tile size of the tensor. *)
Definition uniform (ops : list op) : Prop :=
  Forall (λ o, match o with OpBcast (Some _) _ => False | _ => True end) ops.

Lemma tagged_traffic ops s :
  g_list (apply_ops numPE ops s) = g_list s ++ (snd <$> tagged ops (g_heap s)).
Proof.
  revert s. induction ops as [|o ops IH]; intros s; simpl; [by rewrite app_nil_r|].
  rewrite IH. simpl. rewrite <-app_assoc. f_equal. rewrite fmap_app. f_equal.
  destruct o; simpl; unfold bcast_list; csimpl; rewrite <-?list_fmap_compose;
    try f_equal; apply list_fmap_id || (symmetry; apply list_fmap_id).
Qed.

Lemma addr_of_advance h p q k :
  is_Some (h !! q) →
  addr_of (advance p k h) q = if decide (p = q) then u64 (addr_of h q + k) else addr_of h q.
Proof.
  intros [t Ht]. unfold addr_of, advance. rewrite lookup_alter.
  case_decide; [subst|done]. by rewrite Ht.
Qed.

Lemma addr_of_ready h p : tensor_ready h p → u64 (addr_of h p) = addr_of h p.
Proof. intros (t & z & a & Ht & _ & Ha & Hu). unfold addr_of. by rewrite Ht; simpl; rewrite Ha. Qed.

Lemma stream_app p l1 l2 : stream p (l1 ++ l2) = stream p l1 ++ stream p l2.
Proof. unfold stream. by rewrite filter_app, fmap_app. Qed.

Lemma stream_cons p x l :
  stream p (x :: l) = (if decide (x.1 = Some p) then [tr_addr x.2] else []) ++ stream p l.
Proof. unfold stream. rewrite filter_cons. by case_decide. Qed.

Lemma stream_tag p q (l : list Traffic) :
  stream p ((Some q,.) <$> l) = if decide (q = p) then tr_addr <$> l else [].
Proof.
  unfold stream. case_decide as Hq.
  - subst. rewrite filter_all; [by rewrite <-list_fmap_compose|].
    apply Forall_fmap, Forall_forall. done.
  - rewrite filter_none; [done|]. apply Forall_fmap, Forall_forall.
    intros t _ [= ?]. done.
Qed.

Lemma stream_untagged p (l : list Traffic) : stream p ((None,.) <$> l) = [].
Proof.
  unfold stream. rewrite filter_none; [done|]. apply Forall_fmap, Forall_forall. done.
Qed.

Lemma op_accesses_nonneg p o : 0 ≤ op_accesses p o.
Proof. destruct o; simpl; repeat case_decide; lia. Qed.

Lemma accesses_nonneg p ops : 0 ≤ accesses p ops.
Proof. induction ops as [|o ops IH]; simpl; [lia|]. pose proof (op_accesses_nonneg p o). lia. Qed.

(** Progress of the address of [p] over one operation. *)
Lemma op_addr h o p :
  tensor_ready h p → uniform [o] →
  addr_of (op_heap h o) p = u64 (addr_of h p + op_accesses p o * size_of h p).
Proof.
  intros Hr Hu. pose proof (addr_of_ready _ _ Hr) as Ha.
  assert (is_Some (h !! p)) as Hs by (destruct Hr as (t & ? & ? & Ht & _); eauto).
  unfold uniform in Hu; rewrite Forall_singleton in Hu.
  destruct o as [n q|n q|[z|] q|n]; simpl in *; try done;
    rewrite ?addr_of_advance by done; repeat case_decide; subst;
    rewrite ?Z.mul_0_l, ?Z.add_0_r, ?Z.mul_1_l, ?Ha; done.
Qed.

Lemma op_stream h o p :
  tensor_ready h p → uniform [o] →
  stream p (op_tagged h o) =
    (λ k, u64 (addr_of h p + k * size_of h p)) <$> seqZ 0 (op_accesses p o).
Proof.
  intros Hr Hu. pose proof (addr_of_ready _ _ Hr) as Ha. unfold uniform in Hu; rewrite Forall_singleton in Hu.
  assert (∀ ty n q, stream p ((Some q,.) <$>
      unicast_list ty n (addr_of h q) (size_of h q)) =
    (λ k, u64 (addr_of h p + k * size_of h p)) <$>
      seqZ 0 (if decide (q = p) then 0 `max` n else 0)) as Huni.
  { intros ty n q. rewrite stream_tag. case_decide as Hq; [subst|done].
    unfold unicast_list. rewrite <-list_fmap_compose. simpl. unfold compose. simpl.
    destruct (decide (0 ≤ n)); [by rewrite Z.max_r|]. unfold seqZ.
    by replace (Z.to_nat n) with 0%nat by lia; replace (Z.to_nat (0 `max` n)) with 0%nat by lia. }
  destruct o as [n q|n q|[z|] q|n]; simpl in *; try done.
  - rewrite stream_cons, stream_untagged. simpl.
    case_decide as Hq; case_decide as Hq'; simplify_eq; try done.
    simpl. by rewrite Z.add_0_r, Ha.
  - by rewrite stream_untagged.
Qed.

Lemma stream_ops ops h p :
  uniform ops → tensor_ready h p →
  stream p (tagged ops h) =
    (λ k, u64 (addr_of h p + k * size_of h p)) <$> seqZ 0 (accesses p ops).
Proof.
  intros Hu. revert h. induction ops as [|o ops IH]; intros h Hr; simpl; [done|].
  apply Forall_cons in Hu as [Ho Hu].
  assert (uniform [o]) as Ho' by (by apply Forall_singleton).
  rewrite stream_app, op_stream, IH by (done || by apply tensor_ready_op).
  rewrite seqZ_app by (apply op_accesses_nonneg || apply accesses_nonneg).
  rewrite fmap_app. f_equal. rewrite size_of_op, op_addr by done.
  rewrite Z.add_0_l. unfold seqZ. rewrite <-!list_fmap_compose.
  apply list_fmap_ext. intros _ j _. unfold compose. simpl.
  rewrite u64_add_l. f_equal. lia.
Qed.
End streams.
