(* ===== verification/GenProps.v ===== *)
(** * Correctness of the traffic generator

    The properties of [traffic_generator.hpp]: every generator refines its
    schedule, how many tiles it computes, that tensors are streamed
    contiguously, that the barriers of the processing elements match and that
    every entry belongs to an existing processing element. *)
From stdpp Require Import base tactics list gmap strings.
From Stdlib Require Import ZArith Lia.
From S2P Require Import Prelude Graph TrafficGen Schedule GenSpec SchedFacts.
Local Open Scope Z_scope.

(** ** The generators and their schedules *)

(** The object was built by the constructor on sensible arguments. *)
Definition built (g : TrafficGenerator) : Prop :=
  0 < tg_numPE g ∧ 0 ≤ tg_numSubgraph g < 2 ^ 31 ∧
  tg_round g = (tg_numSubgraph g + tg_numPE g - 1) / tg_numPE g ∧
  tg_remainder g = tg_numSubgraph g mod tg_numPE g.

Lemma TrafficGenerator_new_built numPE n nd bn :
  0 < numPE → 0 ≤ n < 2 ^ 31 →
  ∃ g, TrafficGenerator_new numPE n nd bn = Ok g ∧ built g ∧
       tg_split_node g = nd ∧ tg_numPE g = numPE ∧ tg_numSubgraph g = n.
Proof.
  intros Hp Hn. unfold TrafficGenerator_new.
  rewrite i32_ceil_div_pos by done. simpl. rewrite i32_rem_pos by done. simpl.
  eexists. split; [done|]. done.
Qed.

Lemma built_rem_round g : built g → tg_remainder g ≠ 0 → 0 < tg_round g.
Proof.
  intros (Hp & Hn & -> & ->) Hm. apply Z.div_str_pos.
  assert (tg_numSubgraph g ≠ 0) by (intros E; rewrite E in Hm; by rewrite Z.mod_0_l in Hm by lia).
  lia.
Qed.

Inductive generator_of (g : TrafficGenerator) : M gstate unit → list op → Prop :=
  | gen_element_wise po :
      built g → vec_get (n_outputs (tg_split_node g)) 0 = Ok po →
      generator_of g (generate_traffic_element_wise g)
        (element_wise_schedule (tg_numPE g) (tg_round g) (tg_remainder g)
           (n_inputs (tg_split_node g)) po)
  | gen_conv_weight pi pw po kn c a b :
      conv_gen g pi pw po kn c a b →
      generator_of g (generate_traffic_conv_weight_stationary g)
        (conv_weight_schedule (tg_numPE g) kn c (a * b) (bias_of g) pi pw po)
  | gen_conv_output pi pw po kn c a b :
      conv_gen g pi pw po kn c a b →
      generator_of g (generate_traffic_conv_output_stationary g)
        (conv_output_schedule (tg_numPE g) kn c (a * b) (bias_of g) pi pw po)
  | gen_batchnorm pi po c s2 s3 :
      built g → bn_gen g pi po c s2 s3 →
      generator_of g (generate_traffic_batchnorm g)
        (batchnorm_schedule (tg_numPE g) (tg_round g) (tg_remainder g) c s2 s3
           (n_inputs (tg_split_node g)) pi po)
  | gen_conv_weight_reduction pi pw po kn c a b :
      conv_gen g pi pw po kn c a b →
      generator_of g (generate_traffic_conv_weight_reduction g)
        (conv_weight_reduction_schedule (tg_numPE g) kn c (a * b) (bias_of g) pi pw po)
  | gen_conv_output_reduction pi pw po kn c a b z :
      conv_gen g pi pw po kn c a b →
      (∀ p, vec_get (n_inputs (tg_split_node g)) 2 = Ok p →
         vec_get (n_origianl_input_size (tg_split_node g)) 2 = Ok z) →
      generator_of g (generate_traffic_conv_output_reduction g)
        (conv_output_reduction_schedule (tg_numPE g) kn c (a * b) z (bias_of g) pi pw po)
  | gen_batchnorm_reduction pi po c s2 s3 :
      bn_gen g pi po c s2 s3 →
      (length (n_origianl_input_size (tg_split_node g)) ≤
       length (n_inputs (tg_split_node g)))%nat →
      0 ≤ c * s2 < 2 ^ 31 → 0 ≤ c * s2 * s3 < 2 ^ 31 →
      generator_of g (generate_traffic_batchnorm_reduction g)
        (bn_reduction_schedule (tg_numPE g) (c * s2 * s3)
           (drop 1 (zip (n_origianl_input_size (tg_split_node g))
                        (n_inputs (tg_split_node g)))) pi po)
  | gen_conv_bn_weight pi pw po kn c a b :
      conv_gen g pi pw po kn c a b → (4 ≤ length (n_inputs (tg_split_node g)))%nat →
      generator_of g (generate_traffic_conv_batchnorm_weight g)
        (conv_bn_weight_schedule (tg_numPE g) kn c (a * b) (fused_bias g) (fused_params g)
           pi pw po)
  | gen_conv_bn_output pi pw po kn c a b p2 :
      conv_gen g pi pw po kn c a b → (4 ≤ length (n_inputs (tg_split_node g)))%nat →
      bias_of g = Some p2 →
      generator_of g (generate_traffic_conv_batchnorm_output g)
        (conv_bn_output_schedule (tg_numPE g) kn c (a * b) (fused_bias g) p2
           (fused_params g) pi pw po).

(** Every tensor of the node can be streamed. *)
Definition all_ready (g : TrafficGenerator) (h : heap) : Prop :=
  Forall (tensor_ready h) (node_ptrs g).

Lemma generator_runs g m ops l h :
  generator_of g m ops → all_ready g h →
  m (mkG l h) = Ok (tt, apply_ops (tg_numPE g) ops (mkG l h)).
Proof.
  intros Hg Hr.
  assert (ready (size_of h) (node_ptrs g) (mkG l h)) as Hrd.
  { unfold ready. eapply Forall_impl; [exact Hr|]. done. }
  destruct Hg.
  - by apply (element_wise_impl g (size_of h) po).
  - by apply (conv_weight_impl g (size_of h)).
  - by apply (conv_output_impl g (size_of h)).
  - apply (batchnorm_impl g (size_of h) pi po); [done|by apply built_rem_round|done].
  - by apply (conv_weight_reduction_impl g (size_of h)).
  - by apply (conv_output_reduction_impl g (size_of h)).
  - by apply (bn_reduction_impl g (size_of h)).
  - by apply (conv_bn_weight_impl g (size_of h)).
  - by apply (conv_bn_output_impl g (size_of h)).
Qed.

(** ** Loops of schedules *)

Lemma Forall_loop (P : op → Prop) n ops : Forall P ops → Forall P (loop n ops).
Proof.
  intros H. unfold loop. induction (Z.to_nat n) as [|k IH]; simpl; [constructor|].
  by apply Forall_app.
Qed.

Lemma Forall_rounds (P : op → Prop) r m full rest :
  Forall P full → (m ≠ 0 → Forall P rest) → Forall P (rounds r m full rest).
Proof.
  intros H1 H2. unfold rounds. apply Forall_app. split; [by apply Forall_loop|].
  destruct (Z.eqb_spec m 0); [constructor|auto].
Qed.

Lemma Forall_opt_read (P : op → Prop) n b : (∀ p, P (OpRead n p)) → Forall P (opt_read n b).
Proof. intros. destruct b; repeat constructor; auto. Qed.

Lemma Forall_reads (P : op → Prop) n l : (∀ p, P (OpRead n p)) → Forall P (OpRead n <$> l).
Proof. intros. apply Forall_fmap, Forall_forall. intros. simpl. auto. Qed.

(** No operation of a generator uses more than [numPE] elements. *)
Ltac widths :=
  repeat first
  [ apply Forall_loop | apply Forall_rounds; [|intros _]
  | apply Forall_app; split | apply Forall_opt_read; intros
  | apply Forall_reads; intros | apply Forall_cons; split | apply Forall_nil; done ];
  simpl; try lia.

Lemma generator_widths g m ops :
  generator_of g m ops →
  0 < tg_numPE g ∧ Forall (λ o, op_width o ≤ tg_numPE g) ops.
Proof.
  assert (∀ x, 0 < tg_numPE g → x mod tg_numPE g ≤ tg_numPE g) as Hmod.
  { intros x Hp. pose proof (Z.mod_pos_bound x _ Hp). lia. }
  destruct 1 as
    [po (Hp & _ & _ & Hm) Ho|pi pw po kn c a b []|pi pw po kn c a b []
    |pi po c s2 s3 (Hp & _ & _ & Hm) []|pi pw po kn c a b []|pi pw po kn c a b z []
    |pi po c s2 s3 [] Hl|pi pw po kn c a b []|pi pw po kn c a b p2 []];
    (split; [done|]).
  - unfold element_wise_schedule, element_ops. rewrite Hm.
    specialize (Hmod (tg_numSubgraph g)). widths.
  - specialize (Hmod (a * b)). unfold conv_weight_schedule, weight_ops. widths.
  - specialize (Hmod (a * b)). unfold conv_output_schedule, output_ops. widths.
  - unfold batchnorm_schedule. rewrite Hm. pose proof (Hmod (tg_numSubgraph g)).
    pose proof (Hmod c). pose proof (Hmod (s2 * s3)).
    repeat case_match; [| | |constructor];
      unfold bn_split_c_schedule, bn_split_chw_schedule, bn_split_hw_schedule, tile_ops, bn_params;
      widths; apply Forall_fmap, Forall_forall; simpl; lia.
  - unfold conv_weight_reduction_schedule, weight_ops, opt_bcast.
    destruct (bias_of g); widths.
  - specialize (Hmod (a * b)).
    unfold conv_output_reduction_schedule, output_ops, opt_bcast.
    destruct (bias_of g); widths.
  - specialize (Hmod (c * s2 * s3)). unfold bn_reduction_schedule, tile_ops. widths.
    apply Forall_fmap, Forall_forall; simpl; lia.
  - unfold conv_bn_weight_schedule, weight_ops. widths.
  - specialize (Hmod (a * b)). unfold conv_bn_output_schedule, output_ops. widths.
Qed.

(** ** Work *)

Section work.
Variable numPE : Z.
Hypothesis Hpe : 0 < numPE.
Local Abbreviation computes := (ops_count numPE COMPUTE).

Lemma computes_cons o ops : computes (o :: ops) = op_count numPE COMPUTE o + computes ops.
Proof. done. Qed.

Lemma computes_opt_read n b : computes (opt_read n b) = 0.
Proof. by destruct b. Qed.

Lemma computes_opt_bcast z b : computes (opt_bcast z b) = 0.
Proof. by destruct b. Qed.

Lemma computes_weight_ops c hw pi pw po :
  computes (weight_ops numPE c hw pi pw po) = 0 `max` c * (0 `max` hw * numPE).
Proof.
  unfold weight_ops. rewrite ops_count_loop, computes_cons, ops_count_loop. simpl.
  rewrite (Z.max_r 0 numPE) by lia. lia.
Qed.

(** Full rounds and the remainder add up. *)
Lemma round_sum x : 0 ≤ x →
  0 `max` (x / numPE) * numPE + (if x mod numPE =? 0 then 0 else x mod numPE) = x.
Proof.
  intros Hx. pose proof (Z.div_mod x numPE). pose proof (Z.div_pos x numPE).
  pose proof (Z.mod_pos_bound x numPE). destruct (Z.eqb_spec (x mod numPE) 0); lia.
Qed.

Lemma computes_output_ops kn c hw full rest0 rest pi pw po :
  0 ≤ hw → computes full = 0 → computes rest0 = 0 → computes rest = 0 →
  computes (output_ops numPE kn c hw full rest0 rest pi pw po) =
    0 `max` c * (0 `max` kn * hw).
Proof.
  intros Hhw Hf Hr0 Hr. unfold output_ops.
  rewrite ops_count_app, ops_count_loop, ops_count_rounds, !computes_cons.
  rewrite ops_count_app, !ops_count_loop, !computes_cons, !ops_count_app, Hf, Hr0, Hr. simpl.
  pose proof (round_sum hw Hhw) as Hs. pose proof (Z.mod_pos_bound hw numPE).
  transitivity (0 `max` c * (0 `max` kn * (0 `max` (hw / numPE) * numPE +
    (if hw mod numPE =? 0 then 0 else hw mod numPE)))); [|by rewrite Hs].
  rewrite (Z.max_r 0 numPE), (Z.max_r 0 (hw mod numPE)) by lia.
  destruct (hw mod numPE =? 0); ring.
Qed.

Lemma computes_conv_weight kn c hw bias pi pw po :
  0 ≤ kn → 0 ≤ c → 0 ≤ hw →
  computes (conv_weight_schedule numPE kn c hw bias pi pw po) =
    (kn - kn mod numPE) * c * hw.
Proof.
  intros Hk Hc Hw. unfold conv_weight_schedule.
  rewrite ops_count_loop, ops_count_app, computes_opt_read, computes_weight_ops.
  rewrite !Z.max_r by (lia || by apply Z.div_pos).
  pose proof (Z.div_mod kn numPE ltac:(lia)) as E.
  replace (kn - kn mod numPE) with (numPE * (kn / numPE)) by lia. ring.
Qed.

Lemma computes_element n ins po :
  computes (element_ops numPE n ins po) = 0 `max` n.
Proof.
  unfold element_ops. rewrite ops_count_app, ops_count_reads. simpl. lia.
Qed.

Lemma computes_tiles pi po n : computes (tile_ops pi po n) = 0 `max` n.
Proof. simpl. lia. Qed.

Lemma computes_bn_reduction n params pi po :
  0 ≤ n → computes (bn_reduction_schedule numPE n params pi po) = n.
Proof.
  intros Hn. unfold bn_reduction_schedule.
  rewrite ops_count_app, ops_count_rounds, !computes_tiles.
  assert (computes ((λ zp, OpBcast (Some zp.1) zp.2) <$> params) = 0) as ->.
  { induction params; csimpl; lia. }
  pose proof (round_sum n Hn). pose proof (Z.mod_pos_bound n numPE).
  rewrite (Z.max_r 0 numPE) by lia. destruct (n mod numPE =? 0); lia.
Qed.
End work.

(** ** Properties *)

(** C7. Each of the nine generators returns normally (no out-of-range access,
    no uninitialised read, no overflow) and does exactly its schedule: the
    traffic list and the tensor addresses it leaves are those of the schedule,
    for any aliasing between the tensors of the node. *)
Theorem generators_refine_schedules g m ops l h :
  generator_of g m ops → all_ready g h →
  m (mkG l h) = Ok (tt, apply_ops (tg_numPE g) ops (mkG l h)).
Proof. apply generator_runs. Qed.

(** The output-stationary convolution emits one COMPUTE per channel tile,
    kernel tile and spatial tile, whatever the number of PEs: the full rounds
    and the last, partial one together cover every spatial tile exactly once. *)
Theorem conv_output_computes_all_tiles g pi pw po kn c a b h :
  conv_gen g pi pw po kn c a b → 0 ≤ c → all_ready g h →
  ∃ s, generate_traffic_conv_output_stationary g (mkG [] h) = Ok (tt, s) ∧
       count COMPUTE (g_list s) = c * kn * (a * b).
Proof.
  intros Hg Hc Hr. eexists. split; [by apply generator_runs; [econstructor|]|].
  rewrite count_apply. simpl. rewrite count_nil. unfold conv_output_schedule.
  destruct Hg. rewrite computes_output_ops by (lia || apply computes_opt_read).
  rewrite !Z.max_r by lia. lia.
Qed.

(** The weight-stationary convolution computes only the kernel tiles of the
    full rounds: [kn mod numPE] of the [kn] kernel tiles are never processed,
    so all tiles are computed exactly when the number of PEs divides [kn] (or
    there is nothing to compute per kernel tile). *)
Theorem conv_weight_drops_remainder g pi pw po kn c a b h :
  conv_gen g pi pw po kn c a b → 0 ≤ c → all_ready g h →
  ∃ s, generate_traffic_conv_weight_stationary g (mkG [] h) = Ok (tt, s) ∧
       count COMPUTE (g_list s) = (kn - kn mod tg_numPE g) * c * (a * b) ∧
       (count COMPUTE (g_list s) = kn * c * (a * b) ↔
          kn mod tg_numPE g = 0 ∨ c * (a * b) = 0) ∧
       (kn < tg_numPE g → g_list s = []).
Proof.
  intros Hg Hc Hr. pose proof Hg as []. eexists.
  split; [by apply generator_runs; [econstructor|]|].
  rewrite count_apply. simpl. rewrite count_nil, computes_conv_weight by lia.
  split; [lia|]. split.
  { set (r := kn mod tg_numPE g).
    replace (0 + (kn - r) * c * (a * b)) with (kn * c * (a * b) - r * (c * (a * b))) by ring.
    rewrite <-Z.mul_eq_0. lia. }
  intros Hlt. unfold conv_weight_schedule. by rewrite Z.div_small by lia.
Qed.

(** The element-wise generator rounds the number of rounds up and then adds
    the remainder once more: for [n] tiles it emits [ceil(n/p)*p + n mod p]
    COMPUTEs, which is [n] exactly when the number of PEs [p] divides [n]. *)
Theorem element_wise_overcounts numPE n nd bn po h :
  0 < numPE → 0 ≤ n < 2 ^ 31 → vec_get (n_outputs nd) 0 = Ok po →
  Forall (tensor_ready h) (n_inputs nd ++ n_outputs nd) →
  ∃ g s, TrafficGenerator_new numPE n nd bn = Ok g ∧
    generate_traffic_element_wise g (mkG [] h) = Ok (tt, s) ∧
    count COMPUTE (g_list s) = (n + numPE - 1) / numPE * numPE + n mod numPE ∧
    (count COMPUTE (g_list s) = n ↔ n mod numPE = 0).
Proof.
  intros Hp Hn Ho Hr.
  destruct (TrafficGenerator_new_built numPE n nd bn Hp Hn) as (g & Eg & Hb & <- & <- & <-).
  eexists g, _. split; [done|]. split; [apply generator_runs; [by econstructor|done]|].
  destruct Hb as (_ & _ & Hrd & Hm).
  rewrite count_apply. simpl. rewrite count_nil. unfold element_wise_schedule.
  rewrite ops_count_rounds, !computes_element, Hrd, Hm.
  set (p := tg_numPE g) in *. set (k := tg_numSubgraph g) in *.
  pose proof (Z.div_mod k p ltac:(lia)). pose proof (Z.mod_pos_bound k p Hp).
  assert (0 ≤ (k + p - 1) / p) by (apply Z.div_pos; lia).
  assert (k mod p = 0 → (k + p - 1) / p = k / p) as E0.
  { intros Hz. symmetry. apply Z.div_unique with (p - 1); lia. }
  assert (k mod p ≠ 0 → (k + p - 1) / p = k / p + 1) as E1.
  { intros Hz. symmetry. apply Z.div_unique with (k mod p - 1); lia. }
  destruct (Z.eqb_spec (k mod p) 0) as [Hz|Hz]; split.
  - rewrite Hz. lia.
  - rewrite E0 by done. split; [done|]. intros _. rewrite !Z.max_r by (rewrite <-?E0; lia). lia.
  - lia.
  - split; [|done]. rewrite E1 by done. intros E. nia.
Qed.

(** The optimised batch-normalisation generator computes every tile of the
    strategy exactly once, for any number of PEs. *)
Theorem batchnorm_reduction_computes_all_tiles g pi po c s2 s3 h :
  bn_gen g pi po c s2 s3 →
  (length (n_origianl_input_size (tg_split_node g)) ≤ length (n_inputs (tg_split_node g)))%nat →
  0 ≤ c * s2 < 2 ^ 31 → 0 ≤ c * s2 * s3 < 2 ^ 31 → all_ready g h →
  ∃ s, generate_traffic_batchnorm_reduction g (mkG [] h) = Ok (tt, s) ∧
       count COMPUTE (g_list s) = c * s2 * s3.
Proof.
  intros Hg Hl H1 H2 Hr. eexists. split; [by apply generator_runs; [econstructor|]|].
  rewrite count_apply. simpl. destruct Hg. by rewrite count_nil, computes_bn_reduction by lia.
Qed.

(** Tensors are streamed contiguously: in the traffic of a generator that
    moves whole tiles, the [k]-th access through the tensor [p] (over all PEs,
    rounds, reads, writes and broadcasts) is at its base address plus [k] tiles,
    modulo 2^64, and [p] ends up pointing right behind its last access. *)
Theorem generators_stream_contiguously g m ops h p :
  generator_of g m ops → uniform ops → all_ready g h → p ∈ node_ptrs g →
  ∃ s, m (mkG [] h) = Ok (tt, s) ∧
       g_list s = (snd <$> tagged (tg_numPE g) ops h) ∧
       stream p (tagged (tg_numPE g) ops h) =
         ((λ k, u64 (addr_of h p + k * size_of h p)) <$> seqZ 0 (accesses p ops)).
Proof.
  intros Hg Hu Hr Hp. eexists. split; [by apply generator_runs|].
  rewrite tagged_traffic. split; [done|]. apply stream_ops; [done|].
  unfold all_ready in Hr. rewrite Forall_forall in Hr. by apply Hr.
Qed.

(** C34. The barriers match: in the traffic of any generator every PE below
    [numPE] has the same number of barrier entries (the broadcast reads of
    PE 0, the SYNCs of the others), one per broadcast of the schedule. *)
Theorem generators_align_barriers g m ops h i :
  generator_of g m ops → all_ready g h → 0 ≤ i < tg_numPE g →
  ∃ s, m (mkG [] h) = Ok (tt, s) ∧
       length (barriers i (g_list s)) = ops_bcasts ops.
Proof.
  intros Hg Hr Hi. eexists. split; [by apply generator_runs|]. by rewrite barriers_apply.
Qed.

(** Every entry a generator emits has as source a PE of row 0 with a column
    below [numPE]. *)
Theorem generators_sources_exist g m ops h :
  generator_of g m ops → all_ready g h →
  ∃ s, m (mkG [] h) = Ok (tt, s) ∧ Forall (src_ok (tg_numPE g)) (g_list s).
Proof.
  intros Hg Hr. destruct (generator_widths _ _ _ Hg) as [Hp Hw].
  eexists. split; [by apply generator_runs|]. by apply src_apply.
Qed.

(** ** Witnesses *)

(** A small convolution with bias on four PEs: six kernel tiles, two channel
    tiles and 3x3 spatial tiles. *)
Definition ex_sized (name : string) (size address : Z) : Tensor :=
  mkTensor None name [] FP8 (Some size) (Some address) None.
Definition ex_heap : heap :=
  {[ 1%positive := ex_sized "data" 64 0; 2%positive := ex_sized "weight" 128 4096;
     3%positive := ex_sized "bias" 64 8192; 4%positive := ex_sized "out" 256 12288;
     5%positive := ex_sized "var" 64 16384 ]}.
Definition ex_node : Node :=
  mkNode 0 "conv" CONV [1; 2; 3]%positive [4%positive] [] [] [] None [24; 48; 6].
Definition ex_g : TrafficGenerator :=
  mkTG 4 54 ex_node ex_node 14 2 (mkStrategy [[1; 2; 3; 3]; [6; 1; 1; 1]] "output").

Lemma ex_conv_gen : conv_gen ex_g 1 2 4 6 2 3 3.
Proof. constructor; (done || simpl; lia). Qed.

Lemma ex_ready : all_ready ex_g ex_heap.
Proof. repeat constructor; eexists _, _, _; done. Qed.

Lemma ex_bn_gen : bn_gen ex_g 1 4 2 3 3.
Proof. constructor; (done || simpl; lia). Qed.

Lemma ex_generator : generator_of ex_g (generate_traffic_conv_output_stationary ex_g)
  (conv_output_schedule 4 6 2 9 (Some 3%positive) 1 2 4).
Proof. exact (gen_conv_output ex_g 1 2 4 6 2 3 3 ex_conv_gen). Qed.

Lemma generators_refine_schedules_witness :
  generate_traffic_conv_batchnorm_output
      (mkTG 4 54 (set_inputs [1; 2; 3; 5; 5; 5]%positive ex_node) ex_node 14 2
         (mkStrategy [[1; 2; 3; 3]; [6; 1; 1; 1]] "output")) (mkG [] ex_heap) =
    Ok (tt, apply_ops 4 (conv_bn_output_schedule 4 6 2 9 None 3 [5; 5; 5; 3]%positive 1 2 4)
              (mkG [] ex_heap)).
Proof.
  apply (generators_refine_schedules
    (mkTG 4 54 (set_inputs [1; 2; 3; 5; 5; 5]%positive ex_node) ex_node 14 2
         (mkStrategy [[1; 2; 3; 3]; [6; 1; 1; 1]] "output"))).
  - apply (gen_conv_bn_output
      (mkTG 4 54 (set_inputs [1; 2; 3; 5; 5; 5]%positive ex_node) ex_node 14 2
         (mkStrategy [[1; 2; 3; 3]; [6; 1; 1; 1]] "output")) 1 2 4 6 2 3 3 3).
    + constructor; (done || simpl; lia).
    + simpl; lia.
    + done.
  - repeat constructor; eexists _, _, _; done.
Defined.

Lemma conv_output_computes_all_tiles_witness :
  ∃ s, generate_traffic_conv_output_stationary ex_g (mkG [] ex_heap) = Ok (tt, s) ∧
       count COMPUTE (g_list s) = 2 * 6 * (3 * 3).
Proof.
  apply (conv_output_computes_all_tiles ex_g 1 2 4 6 2 3 3 ex_heap ex_conv_gen); [lia|].
  exact ex_ready.
Defined.

Lemma conv_weight_drops_remainder_witness :
  ∃ s, generate_traffic_conv_weight_stationary ex_g (mkG [] ex_heap) = Ok (tt, s) ∧
       count COMPUTE (g_list s) = (6 - 6 mod 4) * 2 * (3 * 3) ∧
       (count COMPUTE (g_list s) = 6 * 2 * (3 * 3) ↔ 6 mod 4 = 0 ∨ 2 * (3 * 3) = 0) ∧
       (6 < 4 → g_list s = []).
Proof.
  apply (conv_weight_drops_remainder ex_g 1 2 4 6 2 3 3 ex_heap ex_conv_gen); [lia|].
  exact ex_ready.
Defined.

Lemma element_wise_overcounts_witness :
  ∃ g s, TrafficGenerator_new 4 6 ex_node ex_node = Ok g ∧
    generate_traffic_element_wise g (mkG [] ex_heap) = Ok (tt, s) ∧
    count COMPUTE (g_list s) = (6 + 4 - 1) / 4 * 4 + 6 mod 4 ∧
    (count COMPUTE (g_list s) = 6 ↔ 6 mod 4 = 0).
Proof.
  apply (element_wise_overcounts 4 6 ex_node ex_node 4 ex_heap); [lia|lia|done|].
  exact ex_ready.
Defined.

Lemma batchnorm_reduction_computes_all_tiles_witness :
  ∃ s, generate_traffic_batchnorm_reduction ex_g (mkG [] ex_heap) = Ok (tt, s) ∧
       count COMPUTE (g_list s) = 2 * 3 * 3.
Proof.
  apply (batchnorm_reduction_computes_all_tiles ex_g 1 4 2 3 3 ex_heap ex_bn_gen);
    [simpl; lia|lia|lia|exact ex_ready].
Defined.

Lemma generators_stream_contiguously_witness :
  ∃ s, generate_traffic_conv_output_stationary ex_g (mkG [] ex_heap) = Ok (tt, s) ∧
       g_list s = (snd <$> tagged 4
         (conv_output_schedule 4 6 2 9 (Some 3%positive) 1 2 4) ex_heap) ∧
       stream 2 (tagged 4 (conv_output_schedule 4 6 2 9 (Some 3%positive) 1 2 4) ex_heap) =
         ((λ k, u64 (4096 + k * 128)) <$> seqZ 0 36).
Proof.
  apply (generators_stream_contiguously ex_g _ _ ex_heap 2 ex_generator).
  - by vm_compute; repeat constructor.
  - exact ex_ready.
  - set_solver.
Defined.

Lemma generators_align_barriers_witness :
  ∃ s, generate_traffic_conv_output_stationary ex_g (mkG [] ex_heap) = Ok (tt, s) ∧
       length (barriers 3 (g_list s)) = 36%nat.
Proof.
  apply (generators_align_barriers ex_g _ _ ex_heap 3 ex_generator ex_ready).
  simpl. lia.
Defined.

Lemma generators_sources_exist_witness :
  ∃ s, generate_traffic_conv_output_stationary ex_g (mkG [] ex_heap) = Ok (tt, s) ∧
       Forall (src_ok 4) (g_list s).
Proof. apply (generators_sources_exist ex_g _ _ ex_heap ex_generator ex_ready). Defined.
