(* ===== verification/Json.v ===== *)
(** * JSON values

    What the program uses of the JSON library it is built on (nlohmann/json
    3.11): the value type, element access with [operator[]], iteration, and the
    conversions to C++ values.  Both the configuration the traffic generator
    reads and the traffic pattern that links the generator to the simulated
    PEs are such values.  The concrete syntax (reading and writing the text) is
    not modelled: it is a parameter of the theorems that need it. *)
From stdpp Require Import base tactics list strings pretty.
From Stdlib Require Import ZArith Lia Ascii.
From S2P Require Import Prelude.
Local Open Scope Z_scope.

(** [JInt] is a [number_integer] (the parser produces it for negative numbers,
    the constructor for signed C++ integers), [JUInt] a [number_unsigned];
    [JFloat] keeps the integral part, the only part a conversion to an
    integer looks at.  The members of an object are sorted by key, without
    duplicates ([std::map]). *)
Inductive json :=
  | JNull
  | JBool (b : bool)
  | JInt (z : Z)
  | JUInt (z : Z)
  | JFloat (trunc : Z)
  | JString (s : string)
  | JArray (l : list json)
  | JObject (l : list (string * json)).

Definition type_error {A} : res A := Err (EThrow "type_error").

(** ** Access *)

Fixpoint assoc (k : string) (l : list (string * json)) : option json :=
  match l with
  | [] => None
  | (k', v) :: l' => if bool_decide (k = k') then Some v else assoc k l'
  end.

(** The value of [j[key]] on a non-const value: a missing key, or any key of
    [null], gives [null] (and inserts it, in a copy nobody reads again). *)
Definition json_at (j : json) (k : string) : res json :=
  match j with
  | JNull => Ok JNull
  | JObject l => Ok (default JNull (assoc k l))
  | _ => type_error
  end.

(** [j[key]] on a const value: the key must exist. *)
Definition json_at_const (j : json) (k : string) : res json :=
  match j with
  | JObject l => of_option (EAssert "json key") (assoc k l)
  | _ => type_error
  end.

(** [j[idx]] on a non-const value: arrays grow, [null] becomes an array. *)
Definition json_idx (j : json) (i : nat) : res json :=
  match j with
  | JNull => Ok JNull
  | JArray l => Ok (default JNull (l !! i))
  | _ => type_error
  end.

(** The values a range-based [for] visits. *)
Definition json_elems (j : json) : list json :=
  match j with
  | JNull => []
  | JArray l => l
  | JObject l => l.*2
  | _ => [j]
  end.

(** [j.items()]: arrays have their indices as keys; a primitive value has an
    empty key. *)
Definition json_items (j : json) : list (string * json) :=
  match j with
  | JNull => []
  | JArray l => imap (λ i v, (pretty (N.of_nat i), v)) l
  | JObject l => l
  | _ => [(EmptyString, j)]
  end.

(** [j.find(key) != j.end()] *)
Definition json_has (j : json) (k : string) : bool :=
  match j with JObject l => bool_decide (is_Some (assoc k l)) | _ => false end.

(** ** Conversions *)

Definition get_string (j : json) : res string :=
  match j with JString s => Ok s | _ => type_error end.

(** Conversion to [int]: any number or boolean, reduced modulo 2^32; a
    floating-point value outside the range of [int] is undefined. *)
Definition get_int (j : json) : res Z :=
  match j with
  | JInt z | JUInt z => Ok (to_i32 z)
  | JFloat z => i32 z
  | JBool b => Ok (Z.b2z b)
  | _ => type_error
  end.

(** Conversion to an [enum class]: like [int], but not from a boolean. *)
Definition get_enum (j : json) : res Z :=
  match j with JBool _ => type_error | _ => get_int j end.

(** Conversion to [uint64_t]. *)
Definition get_u64 (j : json) : res Z :=
  match j with
  | JInt z | JUInt z => Ok (u64 z)
  | JFloat z => if ((0 <=? z) && (z <? 2 ^ 64))%Z then Ok z else Err EOverflow
  | _ => type_error
  end.

(** [std::vector<int> v; for (auto i : j) v.push_back(i);] *)
Fixpoint get_ints (l : list json) : res (list Z) :=
  match l with
  | [] => Ok []
  | j :: l' => z ← get_int j; r ← get_ints l'; Ok (z :: r)
  end.

(** [j == s] for a string [s] *)
Definition json_is (j : json) (s : string) : bool :=
  match j with JString s' => bool_decide (s' = s) | _ => false end.

(** ** Construction *)

(** [obj[key] = v] on an object or [null]. *)
Fixpoint obj_insert (k : string) (v : json) (l : list (string * json)) : list (string * json) :=
  match l with
  | [] => [(k, v)]
  | (k', v') :: l' =>
      match String.compare k k' with
      | Lt => (k, v) :: (k', v') :: l'
      | Eq => (k, v) :: l'
      | Gt => (k', v') :: obj_insert k v l'
      end
  end.

(** What writing a value to a file and reading it back preserves: everything
    but the distinction between a non-negative [number_integer] and a
    [number_unsigned], which have the same text. *)
Fixpoint reread (j : json) : json :=
  match j with
  | JInt z => if 0 <=? z then JUInt z else JInt z
  | JArray l => JArray (map reread l)
  | JObject l => JObject (map (λ kv, (kv.1, reread kv.2)) l)
  | _ => j
  end.

(** ** Lemmas *)

Lemma get_int_reread j : get_int (reread j) = get_int j.
Proof. destruct j; simpl; try done. by case_match. Qed.

Lemma to_i32_small z : - 2 ^ 31 ≤ z < 2 ^ 31 → to_i32 z = z.
Proof. intros H. unfold to_i32. rewrite Z.mod_small; lia. Qed.

Lemma get_ints_ints l : Forall (λ z, in_i32 z = true) l → get_ints (JInt <$> l) = Ok l.
Proof.
  induction 1 as [|z l Hz Hl IH]; [done|]. csimpl. rewrite IH. simpl.
  by rewrite to_i32_small by (by apply in_i32_spec).
Qed.
