(* ===== verification/JsonParser.v ===== *)
(** * The configuration parser

    [parser/json_parser.hpp]: the configuration of a run (the layers to
    simulate, how to split them, the hardware) becomes a graph, a strategy and
    a table of hardware parameters.  The parser allocates tensors, so it runs
    over a heap; the parsed file itself is its argument. *)
From stdpp Require Import base tactics list gmap strings.
From Stdlib Require Import ZArith Lia.
From S2P Require Import Prelude Json Graph.
Local Open Scope Z_scope.

Record pstate := mkP {
  p_heap : heap;
  p_next : loc;
}.

(** [new Tensor(name, shape, datatype)] *)
Definition new_tensor (name : string) (shape : list Z) (dt : DataType) : M pstate loc := λ s,
  Ok (p_next s, mkP (<[p_next s := Tensor_new name shape dt]> (p_heap s)) (Pos.succ (p_next s))).

Definition p_tensor (p : loc) : M pstate Tensor := λ s, lift (deref (p_heap s) p) s.
Definition p_put (p : loc) (t : Tensor) : M pstate unit :=
  modify (λ s, mkP (<[p := t]> (p_heap s)) (p_next s)).

Definition getOpType (type : string) : res Operator :=
  if bool_decide (type = "Conv") then Ok CONV
  else if bool_decide (type = "Gemm") then Ok GEMM
  else if bool_decide (type = "Relu") then Ok RELU
  else if bool_decide (type = "MaxPool") then Ok MAXPOOL
  else if bool_decide (type = "BatchNormalization") then Ok BATCHNORMAL
  else if bool_decide (type = "SoftMax") then Ok SOFTMAX
  else if bool_decide (type = "Reshape") then Ok RESHPAE
  else if bool_decide (type = "GlobalAveragePool") then Ok AVGPOOL
  else Err ENoReturn.

(** The parser's members. *)
Record JsonParser := mkParser {
  m_layout : string;
  m_name : string;
  m_mapping : string;
  m_hardwareInfo : gmap string Z;
  m_model : Graph;
  m_strategy : Strategy;
}.

(** [j[key]] converted to a string. *)
Definition at_string (j : json) (k : string) : res string := v ← json_at j k; get_string v.

(** The split sizes: one row per element of ["Split"]. *)
Fixpoint parse_split (rows : list json) : res (list (list Z)) :=
  match rows with
  | [] => Ok []
  | r :: rows' => shape ← get_ints (json_elems r); l ← parse_split rows'; Ok (shape :: l)
  end.

(** [m_hardwareInfo[key] = val] for each item. *)
Fixpoint parse_hardware (items : list (string * json)) (m : gmap string Z) : res (gmap string Z) :=
  match items with
  | [] => Ok m
  | (k, v) :: items' => z ← get_int v; parse_hardware items' (<[k := z]> m)
  end.

(** The attributes whose values are kept. *)
Definition keeps_ints (name : json) : bool :=
  json_is name "kernel_shape" || json_is name "pads" || json_is name "strides".

Definition attr_ints (attr name : json) : res (list Z) :=
  if keeps_ints name then ints ← json_at attr "ints"; get_ints (json_elems ints) else Ok [].

(** The positional read of an attribute with an ["address"]: the first member
    is the address, the second the name, the last of the others the size. *)
Fixpoint read_address (i : nat) (vals : list json) (addr : option Z) (key : string) (size : option Z)
    : res (option Z * string * option Z) :=
  match vals with
  | [] => Ok (addr, key, size)
  | v :: vals' =>
      match i with
      | O => a ← get_u64 v; read_address 1 vals' (Some a) key size
      | S O => k ← get_string v; read_address 2 vals' addr k size
      | S (S _) => z ← get_u64 v; read_address (S i) vals' addr key (Some z)
      end
  end.

(** The first pass over the attributes.  Its results are never used: it can
    only fail. *)
Definition first_pass (attr : json) : res unit :=
  if negb (json_has attr "address") then
    name ← json_at attr "name"; type ← json_at attr "type"; v ← attr_ints attr name; Ok tt
  else
    r ← read_address 0 (json_elems attr) None "" None;
    match r with
    | (Some _, _, Some _) => Ok tt
    | _ => Err EUninit
    end.

(** An input or output tensor. *)
Definition parse_tensor (j : json) : M pstate (string * loc) :=
  type ← lift (json_at j "type");
  sh ← lift (json_at type "shape");
  shape ← lift (get_ints (json_elems sh));
  name ← lift (at_string j "name");
  et ← lift (json_at type "elem_type");
  dt ← lift (get_enum et);
  p ← new_tensor name shape (DataType_of_int dt);
  mret (name, p).

Fixpoint parse_tensors (l : list json) : M pstate (list (string * loc)) :=
  match l with
  | [] => mret []
  | j :: l' => t ← parse_tensor j; r ← parse_tensors l'; mret (t :: r)
  end.

(** [for (auto &i : tensors) if (i->name == name) { i->address = attr["ints"][0];
    i->original_size = attr["ints"][1]; }] *)
Definition set_addresses (attr : json) (name : string) (tensors : list loc) : M pstate unit :=
  for_each tensors (λ p,
    t ← p_tensor p;
    when (bool_decide (t_name t = name))
      (ints ← lift (json_at attr "ints");
       a ← lift (json_idx ints 0); a ← lift (get_u64 a);
       t ← p_tensor p; p_put p (set_address a t) ;;
       z ← lift (json_idx ints 1); z ← lift (get_u64 z);
       t ← p_tensor p; p_put p (set_original_size z t))).

(** The second pass: an attribute named like a tensor gives its address and
    size, any other becomes an attribute of the node.  [names] is the map
    [tensor_name] (1 for an input, 2 for an output). *)
Definition second_pass (names : gmap string Z) (inputs outputs : list loc) (attr : json)
    : M pstate (list NodeAttribute) :=
  jname ← lift (json_at attr "name");
  name ← lift (get_string jname);
  match names !! name with
  | Some kind =>
      (if kind =? 1 then set_addresses attr name inputs
       else if kind =? 2 then set_addresses attr name outputs else mret tt) ;;
      mret []
  | None =>
      type ← lift (json_at attr "type");
      val ← lift (attr_ints attr jname);
      dt ← lift (get_enum type);
      mret [mkNodeAttribute name (DataType_of_int dt) val]
  end.

Fixpoint second_passes (names : gmap string Z) (inputs outputs : list loc) (attrs : list json)
    : M pstate (list NodeAttribute) :=
  match attrs with
  | [] => mret []
  | a :: attrs' =>
      l ← second_pass names inputs outputs a;
      r ← second_passes names inputs outputs attrs';
      mret (l ++ r)
  end.

Fixpoint first_passes (attrs : list json) : res unit :=
  match attrs with [] => Ok tt | a :: attrs' => u ← first_pass a; first_passes attrs' end.

(** One layer of ["Model"]. *)
Definition parse_layer (layer : json) : M pstate Node :=
  name ← lift (at_string layer "name");
  jid ← lift (json_at layer "id"); id ← lift (get_int jid);
  ty ← lift (at_string layer "op_type");
  op ← lift (getOpType ty);
  attributes ← lift (json_at layer "attribute");
  lift (first_passes (json_elems attributes)) ;;
  jin ← lift (json_at layer "input_tensor");
  ins ← parse_tensors (json_elems jin);
  jout ← lift (json_at layer "output_tensor");
  out ← parse_tensor jout;
  let names := <[out.1 := 2]> (foldl (λ m t, <[t.1 := 1]> m) (∅ : gmap string Z) ins) in
  attrs ← second_passes names ins.*2 [out.2] (json_elems attributes);
  mret (set_attributes attrs (set_outputs [out.2] (set_inputs ins.*2 (Node_new (u32 id) name op)))).

Fixpoint parse_layers (l : list json) : M pstate (list Node) :=
  match l with
  | [] => mret []
  | j :: l' => n ← parse_layer j; r ← parse_layers l'; mret (n :: r)
  end.

(** [preprocessing] *)
Definition preprocessing (m_config : json) : M pstate JsonParser :=
  layout ← lift (at_string m_config "Layout");
  name ← lift (at_string m_config "Name");
  mapping ← lift (at_string m_config "Mapping");
  split ← lift (json_at m_config "Split");
  rows ← lift (parse_split (json_elems split));
  hw ← lift (json_at m_config "HardwareInfo");
  info ← lift (parse_hardware (json_items hw) ∅);
  model ← lift (json_at m_config "Model");
  nodes ← parse_layers (json_elems model);
  mret (mkParser layout name mapping info (mkGraph "" nodes) (mkStrategy rows mapping)).

(** The constructor, from the parsed file. *)
Definition JsonParser_new (m_config : json) : M pstate JsonParser := preprocessing m_config.

Definition getTensorLayout (m_config : json) : res string := at_string m_config "Layout".
Definition getModelName (m_config : json) : res string := at_string m_config "Name".
Definition getMapping (m_config : json) : res string := at_string m_config "Mapping".
