(* ===== verification/Top.v ===== *)
(** * The main program of the traffic generator

    [top.cpp]: parse the configuration, fuse the layers, analyse the workload,
    generate the traffic and write it out.  [main] is a function of the parsed
    configuration file; its result is the exit code and, when it gets there,
    the JSON value written to the traffic pattern file. *)
From stdpp Require Import base tactics list gmap strings pretty.
From Stdlib Require Import ZArith Lia.
From S2P Require Import Prelude Json Graph Workload TrafficGen JsonParser.
Local Open Scope Z_scope.

(** [hardware[key]] on a [std::unordered_map<std::string, int>] *)
Definition hardware_at (m : gmap string Z) (k : string) : Z := default 0 (m !! k).

(** ** Fusing the layers of one simulation *)

(** [for (int i = 1; i < n1->inputs.size(); i++) n0->inputs.push_back(n1->inputs[i]);
    n0->outputs.clear(); n0->outputs.push_back(n1->outputs[0]);] *)
Definition fuse_batchnorm (n0 n1 : Node) : res Node :=
  out ← vec_get (n_outputs n1) 0;
  Ok (set_outputs [out] (set_inputs (n_inputs n0 ++ drop 1 (n_inputs n1)) n0)).

Definition fuse (nodes : list Node) : res (list Node) :=
  match nodes with
  | [n0; n1; n2] => n ← fuse_batchnorm n0 n1; Ok [n; n1; n2]
  | [n0; n1] =>
      if bool_decide (n_op n1 = BATCHNORMAL) then n ← fuse_batchnorm n0 n1; Ok [n; n1]
      else if bool_decide (n_op n1 = RELU) then
        out ← vec_get (n_outputs n1) 0; Ok [set_outputs [out] n0; n1]
      else Ok nodes
  | _ => Ok nodes
  end.

(** ** One operator *)

(** [workload->init(...); workload->compute_original_size(); workload->split();
    workload->computeSize();], the second call only where [orig] is set. *)
Definition analyse (strategy : Strategy) (c : workload_class) (orig : bool) (node split_node : Node)
    (h : heap) : res (Z * wstate) :=
  ((if orig then compute_original_size node else mret tt) ;;
   split strategy c ;;
   computeSize) (mkWstate h split_node).

(** [new TrafficGenerator(...); trafficGenerator->init_strategy(strategy);
    trafficGenerator->generate();], the second call only with a strategy. *)
Definition generate (numPE numSubgraph : Z) (split_node base_node : Node) (s : option Strategy)
    (gen : TrafficGenerator → M gstate unit) (h : heap) : res (list Traffic) :=
  g ← TrafficGenerator_new numPE numSubgraph split_node base_node;
  let g := match s with Some s => init_strategy g s | None => g end in
  r ← gen g (mkG [] h);
  Ok (g_list r.2).

Section operators.
Context (optimize : bool).          (* TRAFFIC_OPTIMIZE *)
Context (strategy : Strategy) (PE_Num : Z) (grid : PEGrid.t) (h : heap) (baseNode : Node).

(** The two convolution branches: [None] when no generator was created. *)
Definition run_conv : res (option (list Traffic)) :=
  r ← analyse strategy Conv true baseNode baseNode h;
  let s := r.2 in
  num_subgraph ← get_num_subgraph strategy;
  if PEGrid.isRunnable grid r.1 then
    if bool_decide (mappingStrategy strategy = "weight") then
      l ← generate PE_Num num_subgraph (w_split s) baseNode (Some strategy)
            (if optimize then generate_traffic_conv_weight_reduction
             else generate_traffic_conv_weight_stationary) (w_heap s);
      Ok (Some l)
    else if bool_decide (mappingStrategy strategy = "output") then
      l ← generate PE_Num num_subgraph (w_split s) baseNode (Some strategy)
            (if optimize then generate_traffic_conv_output_reduction
             else generate_traffic_conv_output_stationary) (w_heap s);
      Ok (Some l)
    else Ok None
  else Ok None.

Definition run_conv_fused : res (option (list Traffic)) :=
  r ← analyse strategy ConvBatchnorm true baseNode baseNode h;
  let s := r.2 in
  if PEGrid.isRunnable grid r.1 then
    if bool_decide (mappingStrategy strategy = "weight") then
      l ← generate PE_Num 1 (w_split s) baseNode (Some strategy)
            generate_traffic_conv_batchnorm_weight (w_heap s);
      Ok (Some l)
    else if bool_decide (mappingStrategy strategy = "output") then
      l ← generate PE_Num 1 (w_split s) baseNode (Some strategy)
            generate_traffic_conv_batchnorm_output (w_heap s);
      Ok (Some l)
    else Ok None
  else Ok None.

Definition run_batchnorm : res (option (list Traffic)) :=
  r ← analyse strategy Batchnorm true baseNode baseNode h;
  let s := r.2 in
  num_subgraph ← get_num_subgraph strategy;
  if PEGrid.isRunnable grid r.1 then
    rounds ← PEGrid.numRound grid num_subgraph;
    l ← generate PE_Num num_subgraph (w_split s) baseNode (Some strategy)
          (if optimize then generate_traffic_batchnorm_reduction
           else generate_traffic_batchnorm) (w_heap s);
    Ok (Some l)
  else Ok None.

(** RELU, MAXPOOL and AVGPOOL. *)
Definition run_element_wise (c : workload_class) : res (option (list Traffic)) :=
  r ← analyse strategy c false baseNode baseNode h;
  let s := r.2 in
  num_subgraph ← get_num_subgraph strategy;
  if PEGrid.isRunnable grid r.1 then
    rounds ← PEGrid.numRound grid num_subgraph;
    l ← generate PE_Num num_subgraph (w_split s) baseNode None
          generate_traffic_element_wise (w_heap s);
    Ok (Some l)
  else Ok None.

(** [Err] is undefined behaviour or an exception; [Ok None] the branch that
    returns 1; [Ok (Some g)] the pointer [trafficGenerator]. *)
Definition run_operator : res (option (option (list Traffic))) :=
  let n := Z.of_nat (length (n_inputs baseNode)) in
  match n_op baseNode with
  | CONV => r ← (if n <=? 3 then run_conv else run_conv_fused); Ok (Some r)
  | BATCHNORMAL => r ← run_batchnorm; Ok (Some r)
  | RELU => r ← run_element_wise Relu; Ok (Some r)
  | MAXPOOL => r ← run_element_wise MaxPool; Ok (Some r)
  | AVGPOOL => r ← run_element_wise AvgPool; Ok (Some r)
  | GEMM | SOFTMAX | RESHPAE => Ok None
  end.
End operators.

(** ** The traffic pattern file *)

Definition request_code (t : RequestType) : Z :=
  match t with READ => 0 | WRITE => 1 | COMPUTE => 2 | SYNC => 3 end.
Definition type_code (t : TrafficType) : Z :=
  match t with UNICAST => 0 | MULTICAST => 1 | BROADCAST => 2 end.
Definition pair_string (p : Z * Z) : string := pretty p.1 +:+ "," +:+ pretty p.2.

Definition traffic_json (t : Traffic) : json :=
  JObject
    (obj_insert "response" (JInt (type_code (tr_response t)))
    (obj_insert "request" (JInt (type_code (tr_request t)))
    (obj_insert "size" (JUInt (tr_size t))
    (obj_insert "addr" (JUInt (tr_addr t))
    (obj_insert "dest" (JString (pair_string (tr_dest t)))
    (obj_insert "src" (JString (pair_string (tr_src t)))
    (obj_insert "type" (JInt (request_code (tr_type t))) []))))))).

Definition traffic_file (l : list Traffic) : json := JArray (traffic_json <$> l).

(** ** [main] *)

Record outcome := mkOutcome {
  exit_code : Z;
  pattern_file : option json;
}.

Definition main (optimize : bool) (config : json) : res outcome :=
  p ← JsonParser_new config (mkP ∅ 1);
  let '(j, ps) := p in
  let hardware := m_hardwareInfo j in
  let PE_Num := hardware_at hardware "PE_Num" in
  LocalMem ← i32 (hardware_at hardware "LocalMem" * 1000);
  grid ← PEGrid.new PE_Num LocalMem;
  nodes ← fuse (g_nodes (m_model j));
  baseNode ← vec_get nodes 0;
  r ← run_operator optimize (m_strategy j) PE_Num grid (p_heap ps) baseNode;
  match r with
  | None => Ok (mkOutcome 1 None)
  | Some None => Err EUninit
  | Some (Some l) => Ok (mkOutcome 0 (Some (traffic_file l)))
  end.
