(* ===== verification/MemCmd.v ===== *)
(** * Memory commands

    [mem/packet.hh] and [mem/packet.cc]: the commands a packet carries and the
    table of their attributes.  The table is indexed by the enumeration, in
    which two codes are skipped, so its alignment with the enumerators is a
    property of the code, not of the translation. *)
From stdpp Require Import base tactics list sets strings.
From Stdlib Require Import ZArith Lia.
From S2P Require Import Prelude.
Local Open Scope Z_scope.

(** [MemCmd::Command] *)
Inductive Command :=
  | InvalidCmd | ReadReq | ReadResp | ReadRespWithInvalidate | WriteReq | WriteResp
  | WriteCompleteResp | WritebackDirty | WritebackClean | WriteClean | CleanEvict
  | SoftPFReq | SoftPFExReq | HardPFReq | SoftPFResp | HardPFResp | WriteLineReq
  | UpgradeReq | SCUpgradeReq | UpgradeResp | SCUpgradeFailReq | UpgradeFailResp
  | ReadExReq | ReadExResp | ReadCleanReq | ReadSharedReq | LoadLockedReq | StoreCondReq
  | StoreCondFailReq | StoreCondResp | LockedRMWReadReq | LockedRMWReadResp
  | LockedRMWWriteReq | LockedRMWWriteResp | SwapReq | SwapResp | MemFenceReq
  | MemSyncReq | MemSyncResp | MemFenceResp | CleanSharedReq | CleanSharedResp
  | CleanInvalidReq | CleanInvalidResp | InvalidDestError | BadAddressError | ReadError
  | WriteError | FunctionalReadError | FunctionalWriteError | PrintReq | FlushReq
  | InvalidateReq | InvalidateResp | HTMReq | HTMReqResp | HTMAbort | TlbiExtSync.

(** All commands, in the order of the enumeration. *)
Definition all_commands : list Command :=
  [InvalidCmd; ReadReq; ReadResp; ReadRespWithInvalidate; WriteReq; WriteResp;
   WriteCompleteResp; WritebackDirty; WritebackClean; WriteClean; CleanEvict; SoftPFReq;
   SoftPFExReq; HardPFReq; SoftPFResp; HardPFResp; WriteLineReq; UpgradeReq;
   SCUpgradeReq; UpgradeResp; SCUpgradeFailReq; UpgradeFailResp; ReadExReq; ReadExResp;
   ReadCleanReq; ReadSharedReq; LoadLockedReq; StoreCondReq; StoreCondFailReq;
   StoreCondResp; LockedRMWReadReq; LockedRMWReadResp; LockedRMWWriteReq;
   LockedRMWWriteResp; SwapReq; SwapResp; MemFenceReq; MemSyncReq; MemSyncResp;
   MemFenceResp; CleanSharedReq; CleanSharedResp; CleanInvalidReq; CleanInvalidResp;
   InvalidDestError; BadAddressError; ReadError; WriteError; FunctionalReadError;
   FunctionalWriteError; PrintReq; FlushReq; InvalidateReq; InvalidateResp; HTMReq;
   HTMReqResp; HTMAbort; TlbiExtSync].

#[export] Instance Command_eq_dec : EqDecision Command.
Proof. solve_decision. Defined.

Lemma all_commands_complete c : c ∈ all_commands.
Proof. destruct c; vm_compute; repeat constructor. Qed.

(** [MemCmd::Attribute] *)
Inductive Attribute :=
  | IsRead | IsWrite | IsUpgrade | IsInvalidate | IsClean | NeedsWritable | IsRequest
  | IsResponse | NeedsResponse | IsEviction | IsSWPrefetch | IsHWPrefetch | IsLlsc
  | IsLockedRMW | HasData | IsError | IsPrint | IsFlush | FromCache.

Definition all_attributes : list Attribute :=
  [IsRead; IsWrite; IsUpgrade; IsInvalidate; IsClean; NeedsWritable; IsRequest;
   IsResponse; NeedsResponse; IsEviction; IsSWPrefetch; IsHWPrefetch; IsLlsc;
   IsLockedRMW; HasData; IsError; IsPrint; IsFlush; FromCache].

#[export] Instance Attribute_eq_dec : EqDecision Attribute.
Proof. solve_decision. Defined.

(** The position of an enumerator without an initialiser. *)
Fixpoint position {A} `{EqDecision A} (x : A) (l : list A) : Z :=
  match l with
  | [] => 0
  | y :: l' => if bool_decide (x = y) then 0 else 1 + position x l'
  end.

Definition Attribute_code (a : Attribute) : Z := position a all_attributes.

(** [MemFenceReq = SwapResp + 3]: the enumerators from [MemFenceReq] on are
    two codes further. *)
Definition Command_code (c : Command) : Z :=
  let p := position c all_commands in
  if p <=? position SwapResp all_commands then p else p + 2.

(** [ret |= (1ULL << attr)] over the list *)
Definition buildAttributes (attrs : list Attribute) : Z :=
  fold_left (λ ret a, Z.lor ret (u64 (Z.shiftl 1 (Attribute_code a)))) attrs 0.

Record CommandInfo := mkInfo {
  ci_attributes : Z;
  ci_response : Command;
  ci_str : string;
}.

Definition info (attrs : list Attribute) (r : Command) (s : string) : CommandInfo :=
  mkInfo (buildAttributes attrs) r s.

(** [MemCmd::commandInfo] *)
Definition commandInfo : list CommandInfo :=
  [info [] InvalidCmd "InvalidCmd";
   info [IsRead; IsRequest; NeedsResponse] ReadResp "ReadReq";
   info [IsRead; IsResponse; HasData] InvalidCmd "ReadResp";
   info [IsRead; IsResponse; HasData; IsInvalidate] InvalidCmd "ReadRespWithInvalidate";
   info [IsWrite; NeedsWritable; IsRequest; NeedsResponse; HasData] WriteResp "WriteReq";
   info [IsWrite; IsResponse] InvalidCmd "WriteResp";
   info [IsWrite; IsResponse] InvalidCmd "WriteCompleteResp";
   info [IsWrite; IsRequest; IsEviction; HasData; FromCache] InvalidCmd "WritebackDirty";
   info [IsWrite; IsRequest; IsEviction; HasData; FromCache] InvalidCmd "WritebackClean";
   info [IsWrite; IsRequest; HasData; FromCache] InvalidCmd "WriteClean";
   info [IsRequest; IsEviction; FromCache] InvalidCmd "CleanEvict";
   info [IsRead; IsRequest; IsSWPrefetch; NeedsResponse] SoftPFResp "SoftPFReq";
   info [IsRead; NeedsWritable; IsInvalidate; IsRequest; IsSWPrefetch; NeedsResponse] SoftPFResp "SoftPFExReq";
   info [IsRead; IsRequest; IsHWPrefetch; NeedsResponse; FromCache] HardPFResp "HardPFReq";
   info [IsRead; IsResponse; IsSWPrefetch; HasData] InvalidCmd "SoftPFResp";
   info [IsRead; IsResponse; IsHWPrefetch; HasData] InvalidCmd "HardPFResp";
   info [IsWrite; NeedsWritable; IsRequest; NeedsResponse; HasData] WriteResp "WriteLineReq";
   info [IsInvalidate; NeedsWritable; IsUpgrade; IsRequest; NeedsResponse; FromCache] UpgradeResp "UpgradeReq";
   info [IsInvalidate; NeedsWritable; IsUpgrade; IsLlsc; IsRequest; NeedsResponse; FromCache] UpgradeResp "SCUpgradeReq";
   info [IsUpgrade; IsResponse] InvalidCmd "UpgradeResp";
   info [IsRead; NeedsWritable; IsInvalidate; IsLlsc; IsRequest; NeedsResponse; FromCache] UpgradeFailResp "SCUpgradeFailReq";
   info [IsRead; IsResponse; HasData] InvalidCmd "UpgradeFailResp";
   info [IsRead; NeedsWritable; IsInvalidate; IsRequest; NeedsResponse; FromCache] ReadExResp "ReadExReq";
   info [IsRead; IsResponse; HasData] InvalidCmd "ReadExResp";
   info [IsRead; IsRequest; NeedsResponse; FromCache] ReadResp "ReadCleanReq";
   info [IsRead; IsRequest; NeedsResponse; FromCache] ReadResp "ReadSharedReq";
   info [IsRead; IsLlsc; IsRequest; NeedsResponse] ReadResp "LoadLockedReq";
   info [IsWrite; NeedsWritable; IsLlsc; IsRequest; NeedsResponse; HasData] StoreCondResp "StoreCondReq";
   info [IsWrite; NeedsWritable; IsLlsc; IsRequest; NeedsResponse; HasData] StoreCondResp "StoreCondFailReq";
   info [IsWrite; IsLlsc; IsResponse] InvalidCmd "StoreCondResp";
   info [IsRead; IsLockedRMW; NeedsWritable; IsRequest; NeedsResponse] LockedRMWReadResp "LockedRMWReadReq";
   info [IsRead; IsLockedRMW; NeedsWritable; IsResponse; HasData] InvalidCmd "LockedRMWReadResp";
   info [IsWrite; IsLockedRMW; NeedsWritable; IsRequest; NeedsResponse; HasData] LockedRMWWriteResp "LockedRMWWriteReq";
   info [IsWrite; IsLockedRMW; NeedsWritable; IsResponse] InvalidCmd "LockedRMWWriteResp";
   info [IsRead; IsWrite; NeedsWritable; IsRequest; HasData; NeedsResponse] SwapResp "SwapReq";
   info [IsRead; IsWrite; IsResponse; HasData] InvalidCmd "SwapResp";
   info [] InvalidCmd "Deprecated_MessageReq";
   info [] InvalidCmd "Deprecated_MessageResp";
   info [IsRequest; NeedsResponse] MemFenceResp "MemFenceReq";
   info [IsRequest; NeedsResponse] MemSyncResp "MemSyncReq";
   info [IsResponse] InvalidCmd "MemSyncResp";
   info [IsResponse] InvalidCmd "MemFenceResp";
   info [IsRequest; IsClean; NeedsResponse; FromCache] CleanSharedResp "CleanSharedReq";
   info [IsResponse; IsClean] InvalidCmd "CleanSharedResp";
   info [IsRequest; IsInvalidate; IsClean; NeedsResponse; FromCache] CleanInvalidResp "CleanInvalidReq";
   info [IsResponse; IsInvalidate; IsClean] InvalidCmd "CleanInvalidResp";
   info [IsResponse; IsError] InvalidCmd "InvalidDestError";
   info [IsResponse; IsError] InvalidCmd "BadAddressError";
   info [IsRead; IsResponse; IsError] InvalidCmd "ReadError";
   info [IsWrite; IsResponse; IsError] InvalidCmd "WriteError";
   info [IsRead; IsResponse; IsError] InvalidCmd "FunctionalReadError";
   info [IsWrite; IsResponse; IsError] InvalidCmd "FunctionalWriteError";
   info [IsRequest; IsPrint] InvalidCmd "PrintReq";
   info [IsRequest; IsFlush; NeedsWritable] InvalidCmd "FlushReq";
   info [IsInvalidate; IsRequest; NeedsWritable; NeedsResponse; FromCache] InvalidateResp "InvalidateReq";
   info [IsInvalidate; IsResponse] InvalidCmd "InvalidateResp";
   info [IsRead; IsRequest; NeedsResponse] HTMReqResp "HTMReq";
   info [IsRead; IsResponse] InvalidCmd "HTMReqResp";
   info [IsRead; IsRequest] InvalidCmd "HTMAbort";
   info [IsRequest] InvalidCmd "TlbiExtSync"].

Definition command_info (c : Command) : res CommandInfo :=
  vec_get commandInfo (Command_code c).

(** [testCmdAttrib]: bit [attrib] of the attributes of [cmd]. *)
Definition testCmdAttrib (c : Command) (a : Attribute) : bool :=
  match command_info c with
  | Ok i => Z.testbit (ci_attributes i) (Attribute_code a)
  | Err _ => false
  end.

Definition isRead (c : Command) : bool := testCmdAttrib c IsRead.
Definition isWrite (c : Command) : bool := testCmdAttrib c IsWrite.
Definition isUpgrade (c : Command) : bool := testCmdAttrib c IsUpgrade.
Definition isRequest (c : Command) : bool := testCmdAttrib c IsRequest.
Definition isResponse (c : Command) : bool := testCmdAttrib c IsResponse.
Definition needsWritable (c : Command) : bool := testCmdAttrib c NeedsWritable.
Definition needsResponse (c : Command) : bool := testCmdAttrib c NeedsResponse.
Definition isInvalidate (c : Command) : bool := testCmdAttrib c IsInvalidate.
Definition isEviction (c : Command) : bool := testCmdAttrib c IsEviction.
Definition isClean (c : Command) : bool := testCmdAttrib c IsClean.
Definition fromCache (c : Command) : bool := testCmdAttrib c FromCache.
Definition hasData (c : Command) : bool := testCmdAttrib c HasData.
Definition isLLSC (c : Command) : bool := testCmdAttrib c IsLlsc.
Definition isLockedRMW (c : Command) : bool := testCmdAttrib c IsLockedRMW.
Definition isSWPrefetch (c : Command) : bool := testCmdAttrib c IsSWPrefetch.
Definition isHWPrefetch (c : Command) : bool := testCmdAttrib c IsHWPrefetch.
Definition isPrefetch (c : Command) : bool := testCmdAttrib c IsSWPrefetch || testCmdAttrib c IsHWPrefetch.
Definition isError (c : Command) : bool := testCmdAttrib c IsError.
Definition isPrint (c : Command) : bool := testCmdAttrib c IsPrint.
Definition isFlush (c : Command) : bool := testCmdAttrib c IsFlush.
Definition isDemand (c : Command) : bool :=
  bool_decide (c ∈ [ReadReq; WriteReq; WriteLineReq; ReadExReq; ReadCleanReq; ReadSharedReq]).
(** A writeback is an eviction that carries data. *)
Definition isWriteback (c : Command) : bool := isEviction c && hasData c.

Definition responseCommand (c : Command) : res Command :=
  i ← command_info c; Ok (ci_response i).

Definition toString (c : Command) : res string :=
  i ← command_info c; Ok (ci_str i).

(** The name of each enumerator. *)
Definition Command_name (c : Command) : string :=
  match c with
  | InvalidCmd => "InvalidCmd"
  | ReadReq => "ReadReq"
  | ReadResp => "ReadResp"
  | ReadRespWithInvalidate => "ReadRespWithInvalidate"
  | WriteReq => "WriteReq"
  | WriteResp => "WriteResp"
  | WriteCompleteResp => "WriteCompleteResp"
  | WritebackDirty => "WritebackDirty"
  | WritebackClean => "WritebackClean"
  | WriteClean => "WriteClean"
  | CleanEvict => "CleanEvict"
  | SoftPFReq => "SoftPFReq"
  | SoftPFExReq => "SoftPFExReq"
  | HardPFReq => "HardPFReq"
  | SoftPFResp => "SoftPFResp"
  | HardPFResp => "HardPFResp"
  | WriteLineReq => "WriteLineReq"
  | UpgradeReq => "UpgradeReq"
  | SCUpgradeReq => "SCUpgradeReq"
  | UpgradeResp => "UpgradeResp"
  | SCUpgradeFailReq => "SCUpgradeFailReq"
  | UpgradeFailResp => "UpgradeFailResp"
  | ReadExReq => "ReadExReq"
  | ReadExResp => "ReadExResp"
  | ReadCleanReq => "ReadCleanReq"
  | ReadSharedReq => "ReadSharedReq"
  | LoadLockedReq => "LoadLockedReq"
  | StoreCondReq => "StoreCondReq"
  | StoreCondFailReq => "StoreCondFailReq"
  | StoreCondResp => "StoreCondResp"
  | LockedRMWReadReq => "LockedRMWReadReq"
  | LockedRMWReadResp => "LockedRMWReadResp"
  | LockedRMWWriteReq => "LockedRMWWriteReq"
  | LockedRMWWriteResp => "LockedRMWWriteResp"
  | SwapReq => "SwapReq"
  | SwapResp => "SwapResp"
  | MemFenceReq => "MemFenceReq"
  | MemSyncReq => "MemSyncReq"
  | MemSyncResp => "MemSyncResp"
  | MemFenceResp => "MemFenceResp"
  | CleanSharedReq => "CleanSharedReq"
  | CleanSharedResp => "CleanSharedResp"
  | CleanInvalidReq => "CleanInvalidReq"
  | CleanInvalidResp => "CleanInvalidResp"
  | InvalidDestError => "InvalidDestError"
  | BadAddressError => "BadAddressError"
  | ReadError => "ReadError"
  | WriteError => "WriteError"
  | FunctionalReadError => "FunctionalReadError"
  | FunctionalWriteError => "FunctionalWriteError"
  | PrintReq => "PrintReq"
  | FlushReq => "FlushReq"
  | InvalidateReq => "InvalidateReq"
  | InvalidateResp => "InvalidateResp"
  | HTMReq => "HTMReq"
  | HTMReqResp => "HTMReqResp"
  | HTMAbort => "HTMAbort"
  | TlbiExtSync => "TlbiExtSync"
  end.

(** ** Properties *)

(** A bit of the attribute word is set exactly for the listed attributes. *)
Lemma buildAttributes_bits attrs acc a :
  Z.testbit (fold_left (λ ret a, Z.lor ret (u64 (Z.shiftl 1 (Attribute_code a)))) attrs acc)
    (Attribute_code a) = Z.testbit acc (Attribute_code a) || bool_decide (a ∈ attrs).
Proof.
  revert acc. induction attrs as [|b l IH]; intros acc; cbn [fold_left].
  - by rewrite bool_decide_false, orb_false_r by (by apply not_elem_of_nil).
  - rewrite IH, Z.lor_spec.
    replace (Z.testbit (u64 (Z.shiftl 1 (Attribute_code b))) (Attribute_code a))
      with (bool_decide (a = b)) by (destruct a, b; reflexivity).
    rewrite <-orb_assoc. f_equal. repeat case_bool_decide; set_solver.
Qed.

(** The attribute table is aligned with the enumeration: the entry at the
    code of a command, deprecated slots included, is the entry of that very
    command, so every predicate of [MemCmd] consults the right row. *)
Theorem commandInfo_aligned (c : Command) : toString c = Ok (Command_name c).
Proof. by destruct c. Qed.

(** [MemCmd::responseCommand] is right for every command: exactly the
    requests that need a response have one; it is a response, it is not
    itself in need of a response, and it reads (writes) exactly when the
    request does, so a PE files it under the same kind as its request. *)
Theorem responseCommand_matches (c : Command) :
  ∃ r, responseCommand c = Ok r ∧
    (needsResponse c = true ↔ r ≠ InvalidCmd) ∧
    (needsResponse c = true →
       isRequest c = true ∧ isResponse r = true ∧ needsResponse r = false ∧
       isRead r = isRead c ∧ isWrite r = isWrite c).
Proof. destruct c; (eexists; split; [reflexivity|]; split; [by vm_compute|by vm_compute]). Qed.
