(* ===== verification/TrafficPattern.v ===== *)
(** * The traffic pattern of the simulated PEs

    [gem5/src/lab447/traffic_pattern.hh]: the entries a PE replays.  The
    enumerations are filled by casting integers read from a file, so they have
    values without an enumerator; the PE treats an unknown request type as a
    write. *)
From stdpp Require Import base tactics list strings pretty.
From Stdlib Require Import ZArith Lia Ascii.
From S2P Require Import Prelude.
Local Open Scope Z_scope.

Module TrafficPattern.
Inductive TrafficRequestType := READ | WRITE | COMPUTE | SYNC | Request_other (z : Z).
Inductive TrafficType := UNICAST | MULTICAST | BROADCAST | Type_other (z : Z).

#[global] Instance TrafficRequestType_eq_dec : EqDecision TrafficRequestType.
Proof. solve_decision. Defined.
#[global] Instance TrafficType_eq_dec : EqDecision TrafficType.
Proof. solve_decision. Defined.

(** [TrafficRequestType(i)] and [TrafficType(i)] *)
Definition request_of_int (i : Z) : TrafficRequestType :=
  if i =? 0 then READ else if i =? 1 then WRITE else if i =? 2 then COMPUTE
  else if i =? 3 then SYNC else Request_other i.
Definition type_of_int (i : Z) : TrafficType :=
  if i =? 0 then UNICAST else if i =? 1 then MULTICAST else if i =? 2 then BROADCAST
  else Type_other i.

Record Traffic := mk {
  type : TrafficRequestType;
  src : Z * Z;
  dest : Z * Z;
  addr : Z;          (* uint64_t *)
  size : Z;          (* uint64_t *)
  request : TrafficType;
  response : TrafficType;
}.

#[global] Instance Traffic_eq_dec : EqDecision Traffic.
Proof. solve_decision. Defined.

(** ** [Traffic::toString] *)

Definition tab : string := String "009" EmptyString.
Definition newline : string := String "010" EmptyString.

(** Lower-case hexadecimal, as [std::hex] prints it: at most 16 digits for a
    64-bit number. *)
Definition hex_digit (d : Z) : ascii :=
  ascii_of_N (Z.to_N (if d <? 10 then 48 + d else 87 + d)).
Fixpoint hex_digits (fuel : nat) (z : Z) (acc : string) : string :=
  match fuel with
  | O => acc
  | S n =>
      let acc := String (hex_digit (z mod 16)) acc in
      if z / 16 =? 0 then acc else hex_digits n (z / 16) acc
  end.
Definition hex (z : Z) : string := hex_digits 16 z EmptyString.

Definition request_name (t : TrafficRequestType) : string :=
  match t with
  | READ => ("read" +:+ tab) | WRITE => ("write" +:+ tab)
  | COMPUTE => ("compute" +:+ tab) | SYNC => ("sync" +:+ tab) | Request_other _ => ""
  end.
Definition type_name (t : TrafficType) : string :=
  match t with
  | UNICAST => "uni-cast" | MULTICAST => "multi-cast" | BROADCAST => "broad-cast"
  | Type_other _ => ""
  end.

Definition toString (t : Traffic) : string :=
  "type: " +:+ request_name (type t) +:+
  ",src(" +:+ pretty (src t).1 +:+ "," +:+ pretty (src t).2 +:+ ")" +:+
  "," +:+ tab +:+ "dest(" +:+ pretty (dest t).1 +:+ "," +:+ pretty (dest t).2 +:+ ")" +:+
  "," +:+ tab +:+ "addr: 0x" +:+ hex (addr t) +:+
  "," +:+ tab +:+ "size: " +:+ pretty (size t) +:+
  "," +:+ tab +:+ "reuest: " +:+ type_name (request t) +:+
  "," +:+ tab +:+ "response: " +:+ type_name (response t) +:+ newline.
End TrafficPattern.
