(* ===== verification/PE.v ===== *)
(** * The processing element

    [gem5/src/lab447/pe.hh] and [pe.cc].  The PEs share static state (the list
    of PEs by coordinate, the set of PEs that reached a barrier, the issuer of
    the pending broadcast), a packet heap and the clock, so a handler is a
    computation over the whole [World].  Pointers are ids: a [PEPtr] is the
    creation index of the PE, a [PacketPtr] a key of the packet heap (a deleted
    packet is absent, and using it an error), a [RequestPtr] the [rq_id] of the
    request.  The answer of [port.sendTimingReq] is an argument of the handler
    that calls it, [System::isMemAddr] a parameter. *)
From stdpp Require Import base tactics list gmap strings pretty.
From Stdlib Require Import ZArith Lia Ascii.
From S2P Require Import Prelude Json MemCmd TrafficPattern.
Local Open Scope Z_scope.

(** ** State *)

Record Request := mkRequest {
  rq_id : positive;
  rq_addr : Z;
  rq_size : Z;
  rq_requestorId : Z;
  rq_pc : Z;
  rq_broadcast : bool;
}.

(** [pk_data]: the bytes of the dynamically allocated payload, [None] where
    they were never written. *)
Record Packet := mkPacket {
  pk_cmd : Command;
  pk_req : Request;
  pk_data : list (option Z);
}.

Record StatGroup := mkStats {
  numSuppressed : Z; numPackets : Z; numRetries : Z; retryTicks : Z;
  bytesRead : Z; bytesWritten : Z; totalReadLatency : Z; totalWriteLatency : Z;
  totalReads : Z; totalWrites : Z;
}.

Definition zero_stats : StatGroup := mkStats 0 0 0 0 0 0 0 0 0 0.

(** The members that do not change after construction. *)
Record PEParams := mkParams {
  requestorId : Z;
  px : Z;
  py : Z;
  block_size : Z;
  cache_line_size : Z;
  global_mem_size : Z;
  local_mem_offset : Z;
}.

(** An event is [Some t] when it is scheduled for tick [t].  [waitingResp_*]
    map an outstanding request to the tick it was sent at. *)
Record PE := mkPE {
  pe_params : PEParams;
  operateNextEvent : option Z;
  scheduleReqEvent : option Z;
  waitingSend_read : list positive;
  waitingSend_write : list positive;
  retryPktTick : Z;
  waitingResp_read : gmap positive Z;
  waitingResp_write : gmap positive Z;
  stats : StatGroup;
  traffic_list : list TrafficPattern.Traffic;
  cur_traffic : Z;              (* uint32_t *)
}.

Record World := mkWorld {
  curTick : Z;
  pes : gmap nat PE;
  pe_list : gmap string nat;
  rdy_sync_list : gset nat;
  broadcast_issuer : option nat;
  packets : gmap positive Packet;
  next_packet : positive;
  next_request : positive;
  exits : list string;          (* exitSimLoop calls, latest first *)
}.

(** ** Field updates *)

Definition set_operateNextEvent (e : option Z) (p : PE) : PE :=
  mkPE (pe_params p) e (scheduleReqEvent p) (waitingSend_read p) (waitingSend_write p)
    (retryPktTick p) (waitingResp_read p) (waitingResp_write p) (stats p)
    (traffic_list p) (cur_traffic p).
Definition set_scheduleReqEvent (e : option Z) (p : PE) : PE :=
  mkPE (pe_params p) (operateNextEvent p) e (waitingSend_read p) (waitingSend_write p)
    (retryPktTick p) (waitingResp_read p) (waitingResp_write p) (stats p)
    (traffic_list p) (cur_traffic p).
Definition set_waitingSend (write : bool) (q : list positive) (p : PE) : PE :=
  mkPE (pe_params p) (operateNextEvent p) (scheduleReqEvent p)
    (if write then waitingSend_read p else q) (if write then q else waitingSend_write p)
    (retryPktTick p) (waitingResp_read p) (waitingResp_write p) (stats p)
    (traffic_list p) (cur_traffic p).
Definition set_retryPktTick (t : Z) (p : PE) : PE :=
  mkPE (pe_params p) (operateNextEvent p) (scheduleReqEvent p) (waitingSend_read p)
    (waitingSend_write p) t (waitingResp_read p) (waitingResp_write p) (stats p)
    (traffic_list p) (cur_traffic p).
Definition set_waitingResp (read : bool) (m : gmap positive Z) (p : PE) : PE :=
  mkPE (pe_params p) (operateNextEvent p) (scheduleReqEvent p) (waitingSend_read p)
    (waitingSend_write p) (retryPktTick p) (if read then m else waitingResp_read p)
    (if read then waitingResp_write p else m) (stats p)
    (traffic_list p) (cur_traffic p).
Definition set_stats (s : StatGroup) (p : PE) : PE :=
  mkPE (pe_params p) (operateNextEvent p) (scheduleReqEvent p) (waitingSend_read p)
    (waitingSend_write p) (retryPktTick p) (waitingResp_read p) (waitingResp_write p) s
    (traffic_list p) (cur_traffic p).
Definition set_traffic_list (l : list TrafficPattern.Traffic) (p : PE) : PE :=
  mkPE (pe_params p) (operateNextEvent p) (scheduleReqEvent p) (waitingSend_read p)
    (waitingSend_write p) (retryPktTick p) (waitingResp_read p) (waitingResp_write p)
    (stats p) l (cur_traffic p).
Definition set_cur_traffic (c : Z) (p : PE) : PE :=
  mkPE (pe_params p) (operateNextEvent p) (scheduleReqEvent p) (waitingSend_read p)
    (waitingSend_write p) (retryPktTick p) (waitingResp_read p) (waitingResp_write p)
    (stats p) (traffic_list p) c.

Definition waitingSend (write : bool) (p : PE) : list positive :=
  if write then waitingSend_write p else waitingSend_read p.
Definition waitingResp (read : bool) (p : PE) : gmap positive Z :=
  if read then waitingResp_read p else waitingResp_write p.

Definition set_curTick (t : Z) (w : World) : World :=
  mkWorld t (pes w) (pe_list w) (rdy_sync_list w) (broadcast_issuer w) (packets w)
    (next_packet w) (next_request w) (exits w).
Definition set_pes (m : gmap nat PE) (w : World) : World :=
  mkWorld (curTick w) m (pe_list w) (rdy_sync_list w) (broadcast_issuer w) (packets w)
    (next_packet w) (next_request w) (exits w).
Definition set_pe_list (m : gmap string nat) (w : World) : World :=
  mkWorld (curTick w) (pes w) m (rdy_sync_list w) (broadcast_issuer w) (packets w)
    (next_packet w) (next_request w) (exits w).
Definition set_sync (l : gset nat) (b : option nat) (w : World) : World :=
  mkWorld (curTick w) (pes w) (pe_list w) l b (packets w)
    (next_packet w) (next_request w) (exits w).
Definition set_packets (m : gmap positive Packet) (np nr : positive) (w : World) : World :=
  mkWorld (curTick w) (pes w) (pe_list w) (rdy_sync_list w) (broadcast_issuer w) m
    np nr (exits w).
Definition add_exit (s : string) (w : World) : World :=
  mkWorld (curTick w) (pes w) (pe_list w) (rdy_sync_list w) (broadcast_issuer w) (packets w)
    (next_packet w) (next_request w) (s :: exits w).

(** ** Pointers and events *)

Definition get_pe (i : nat) : M World PE := λ w,
  lift (of_option EBadPointer (pes w !! i)) w.
Definition upd_pe (i : nat) (f : PE → PE) : M World unit :=
  modify (λ w, set_pes (alter f i (pes w)) w).
Definition get_packet (p : positive) : M World Packet := λ w,
  lift (of_option EBadPointer (packets w !! p)) w.

(** [delete pkt] *)
Definition delete_packet (p : positive) : M World unit :=
  get_packet p ;;
  modify (λ w, set_packets (delete p (packets w)) (next_packet w) (next_request w) w).

(** [schedule(event, when)], with the assertions of [EventQueue::schedule]. *)
Definition schedule_event (cur : option Z) (t when : Z) : M World unit :=
  massert "when >= getCurTick()" (t <=? when) ;;
  massert "!event->scheduled()" (bool_decide (cur = None)).
Definition schedule_operateNext (i : nat) (delay : Z) : M World unit :=
  p ← get_pe i;
  t ← gets curTick;
  schedule_event (operateNextEvent p) t (u64 (t + delay)) ;;
  upd_pe i (set_operateNextEvent (Some (u64 (t + delay)))).
Definition schedule_scheduleReq (i : nat) (delay : Z) : M World unit :=
  p ← get_pe i;
  t ← gets curTick;
  schedule_event (scheduleReqEvent p) t (u64 (t + delay)) ;;
  upd_pe i (set_scheduleReqEvent (Some (u64 (t + delay)))).

(** ** Construction *)

(** [getCoordinate]: [std::to_string(x) + "," + std::to_string(y)] *)
Definition coordinate (x y : Z) : string := pretty x +:+ "," +:+ pretty y.
Definition getCoordinate (p : PE) : string := coordinate (px (pe_params p)) (py (pe_params p)).

(** The constructor: coordinates are given out in creation order, [grid_width]
    to a row.  [unordered_map::insert] keeps an existing entry. *)
Definition PE_new (self : nat) (reqId block line gmem loff grid_width : Z) : M World unit :=
  n ← gets (λ w, Z.of_nat (size (pe_list w)));
  if grid_width =? 0 then throw EDivByZero else
  let pe := mkPE (mkParams reqId (u32 (n / grid_width)) (u32 (n mod grid_width))
                    block line gmem loff)
              None None [] [] 0 ∅ ∅ zero_stats [] 0 in
  modify (λ w, set_pe_list
    (match pe_list w !! getCoordinate pe with
     | Some _ => pe_list w | None => <[getCoordinate pe := self]> (pe_list w) end)
    (set_pes (<[self := pe]> (pes w)) w)).

(** ** Handlers *)

Section handlers.
Context (isMemAddr : Z → bool).

Definition getPacket (self : nat) (addr size : Z) (cmd : Command) : M World positive :=
  p ← get_pe self;
  w ← gets (λ w, w);
  let rid := requestorId (pe_params p) in
  let req := mkRequest (next_request w) addr size rid (u64 (Z.shiftl rid 2)) false in
  let data := replicate (Z.to_nat size)
                (if isWrite cmd then Some (rid mod 2 ^ 8) else None) in
  modify (set_packets (<[next_packet w := mkPacket cmd req data]> (packets w))
            (Pos.succ (next_packet w)) (Pos.succ (next_request w))) ;;
  mret (next_packet w).

(** [pkt->req->setBroadcast()] *)
Definition setBroadcast (pkt : positive) : M World unit :=
  k ← get_packet pkt;
  let r := pk_req k in
  modify (λ w, set_packets (<[pkt := mkPacket (pk_cmd k)
             (mkRequest (rq_id r) (rq_addr r) (rq_size r) (rq_requestorId r) (rq_pc r) true)
             (pk_data k)]> (packets w)) (next_packet w) (next_request w) w).

Definition retryReq (self : nat) : M World unit :=
  p ← get_pe self;
  massert "waitingSend not empty"
    (bool_decide (waitingSend_read p ≠ []) || bool_decide (waitingSend_write p ≠ [])) ;;
  schedule_scheduleReq self 1.

Definition inc_numRetries (s : StatGroup) : StatGroup :=
  mkStats (numSuppressed s) (numPackets s) (numRetries s + 1) (retryTicks s) (bytesRead s)
    (bytesWritten s) (totalReadLatency s) (totalWriteLatency s) (totalReads s) (totalWrites s).

Definition recvReqRetry (self : nat) : M World unit :=
  upd_pe self (λ p, set_stats (inc_numRetries (stats p)) p) ;;
  retryReq self.

Definition stat_write (bytes lat : Z) (s : StatGroup) : StatGroup :=
  mkStats (numSuppressed s) (numPackets s) (numRetries s) (retryTicks s) (bytesRead s)
    (bytesWritten s + bytes) (totalReadLatency s) (totalWriteLatency s + lat)
    (totalReads s) (totalWrites s + 1).
Definition stat_read (bytes lat : Z) (s : StatGroup) : StatGroup :=
  mkStats (numSuppressed s) (numPackets s) (numRetries s) (retryTicks s) (bytesRead s + bytes)
    (bytesWritten s) (totalReadLatency s + lat) (totalWriteLatency s)
    (totalReads s + 1) (totalWrites s).

Definition empty_queue (q : list positive) : bool := bool_decide (q = []).
Definition empty_map (m : gmap positive Z) : bool := bool_decide (m = ∅).

(** All four containers are empty and no barrier is open. *)
Definition quiescent (p : PE) (w : World) : bool :=
  (empty_map (waitingResp_read p) && empty_queue (waitingSend_read p)) &&
  (empty_map (waitingResp_write p) && empty_queue (waitingSend_write p)) &&
  (bool_decide (broadcast_issuer w = None) && bool_decide (rdy_sync_list w = ∅)).

(** [pe_list.erase(getCoordinate()); if (pe_list.empty()) exitSimLoop(...)] *)
Definition retire (self : nat) : M World unit :=
  p ← get_pe self;
  modify (λ w, set_pe_list (delete (getCoordinate p) (pe_list w)) w) ;;
  l ← gets pe_list;
  when (bool_decide (l = ∅)) (modify (add_exit (getCoordinate p))).

Definition recvTimingResp (self : nat) (pkt : positive) : M World bool :=
  k ← get_packet pkt;
  p ← get_pe self;
  now ← gets curTick;
  let rd := isRead (pk_cmd k) in
  let req := pk_req k in
  match waitingResp rd p !! rq_id req with
  | None => throw (EPanic "Received unexpected response")
  | Some sent =>
      massert "iter->second <= curTick()" (sent <=? now) ;;
      (if isWrite (pk_cmd k) then
         upd_pe self (λ p, set_stats (stat_write (rq_size req) (now - sent) (stats p)) p) ;;
         upd_pe self (λ p, set_waitingResp rd (delete (rq_id req) (waitingResp rd p)) p)
       else
         upd_pe self (λ p, set_stats (stat_read (rq_size req) (now - sent) (stats p)) p) ;;
         upd_pe self (λ p, set_waitingResp rd (delete (rq_id req) (waitingResp rd p)) p) ;;
         p ← get_pe self;
         rdy ← gets rdy_sync_list;
         when (empty_queue (waitingSend_read p) && empty_map (waitingResp rd p) &&
               bool_decide (self ∉ rdy))
           (schedule_operateNext self 1)) ;;
      delete_packet pkt ;;
      p ← get_pe self;
      w ← gets (λ w, w);
      when (quiescent p w && (Z.of_nat (length (traffic_list p)) <=? cur_traffic p))
        (retire self) ;;
      mret true
  end.

Definition inc_numPackets (s : StatGroup) : StatGroup :=
  mkStats (numSuppressed s) (numPackets s + 1) (numRetries s) (retryTicks s) (bytesRead s)
    (bytesWritten s) (totalReadLatency s) (totalWriteLatency s) (totalReads s) (totalWrites s).
Definition add_retryTicks (t : Z) (s : StatGroup) : StatGroup :=
  mkStats (numSuppressed s) (numPackets s) (numRetries s) (retryTicks s + t) (bytesRead s)
    (bytesWritten s) (totalReadLatency s) (totalWriteLatency s) (totalReads s) (totalWrites s).
Definition inc_numSuppressed (s : StatGroup) : StatGroup :=
  mkStats (numSuppressed s + 1) (numPackets s) (numRetries s) (retryTicks s) (bytesRead s)
    (bytesWritten s) (totalReadLatency s) (totalWriteLatency s) (totalReads s) (totalWrites s).

(** [for (const auto& iter : pe_list) iter.second->waitingResp_read[req] = curTick()] *)
Definition await_broadcast (req : positive) : M World unit :=
  w ← gets (λ w, w);
  for_each (map_to_list (pe_list w)).*2 (λ i,
    p ← get_pe i;
    upd_pe i (set_waitingResp true (<[req := curTick w]> (waitingResp_read p)))).

(** The branch taken once [sendTimingReq] accepted the packet. *)
Definition packet_sent (self : nat) (write : bool) (k : Packet) : M World unit :=
  now ← gets curTick;
  upd_pe self (λ p, set_waitingSend write (tail (waitingSend write p)) p) ;;
  (if rq_broadcast (pk_req k) then await_broadcast (rq_id (pk_req k))
   else upd_pe self (λ p,
          let rd := isRead (pk_cmd k) in
          set_waitingResp rd (<[rq_id (pk_req k) := now]> (waitingResp rd p)) p)) ;;
  p ← get_pe self;
  when (negb (retryPktTick p =? 0))
    (upd_pe self (λ p, set_stats (add_retryTicks (now - retryPktTick p) (stats p)) p) ;;
     upd_pe self (set_retryPktTick 0)) ;;
  p ← get_pe self;
  b ← gets broadcast_issuer;
  if empty_queue (waitingSend write p) then
    if empty_map (waitingResp_read p) then schedule_operateNext self 1
    else when (bool_decide (b = Some self)) (modify (set_sync ∅ None))
  else schedule_scheduleReq self 1.

(** The branch for an address outside the memory: the packet is deleted, but
    it stays at the front of its queue. *)
Definition suppress (self : nat) (write : bool) (pkt : positive) : M World unit :=
  upd_pe self (λ p, set_stats (inc_numSuppressed (stats p)) p) ;;
  delete_packet pkt ;;
  p ← get_pe self;
  b ← gets broadcast_issuer;
  if empty_queue (waitingSend write p) then
    when (empty_map (waitingResp_read p)) (schedule_operateNext self 1) ;;
    when (bool_decide (b = Some self)) (modify (set_sync ∅ None))
  else schedule_scheduleReq self 1.

(** [accepted] is what [port.sendTimingReq(pkt)] answers. *)
Definition scheduleReq (self : nat) (accepted : bool) : M World unit :=
  p ← get_pe self;
  let write := negb (empty_queue (waitingSend_write p)) in
  match waitingSend write p with
  | [] => throw (EAssert "!waitingSend.empty()")
  | pkt :: _ =>
      k ← get_packet pkt;
      if isMemAddr (rq_addr (pk_req k)) then
        upd_pe self (λ p, set_stats (inc_numPackets (stats p)) p) ;;
        if accepted then packet_sent self write k
        else now ← gets curTick; upd_pe self (set_retryPktTick now)
      else suppress self write pkt
  end.

Definition getComputeTime : Z := 100.

Definition sendBroadcast (self : nat) : M World unit := schedule_scheduleReq self 1.

Definition sync_complete (w : World) : bool :=
  (size (rdy_sync_list w) =? size (pe_list w))%nat.

Definition waitSync (self : nat) : M World unit :=
  modify (λ w, set_sync ({[self]} ∪ rdy_sync_list w) (Some self) w) ;;
  w ← gets (λ w, w);
  when (sync_complete w) (sendBroadcast self).

(** The READ/WRITE branch of [operateTraffic]: the queue receives one packet
    per cache line.  [size] is an [unsigned], the other quantities [Addr]. *)
Definition issue (self : nat) (t : TrafficPattern.Traffic) : M World unit :=
  p ← get_pe self;
  let line := cache_line_size (pe_params p) in
  let rd := bool_decide (TrafficPattern.type t = TrafficPattern.READ) in
  let size := u32 (if TrafficPattern.size t <=? line then line else TrafficPattern.size t) in
  let cmd := if rd then ReadReq else WriteReq in
  let broadcast := bool_decide (TrafficPattern.response t = TrafficPattern.BROADCAST) in
  let base := TrafficPattern.addr t in
  if line =? 0 then throw EDivByZero else
  let size := if base mod line =? 0 then size else u32 (size + base mod line) in
  let base := if base mod line =? 0 then base else u64 (base - base mod line) in
  if 2 ^ 31 <=? size / line then throw EOverflow else
  for_up 0 (size / line) (λ i,
    pkt ← getPacket self (u64 (base + u64 (i * line))) (u32 line) cmd;
    when broadcast (setBroadcast pkt) ;;
    upd_pe self (λ p, set_waitingSend (negb rd) (waitingSend (negb rd) p ++ [pkt]) p)) ;;
  if broadcast then waitSync self else schedule_scheduleReq self 1.

Definition operateTraffic (self : nat) : M World unit :=
  p ← get_pe self;
  w ← gets (λ w, w);
  if Z.of_nat (length (traffic_list p)) <=? cur_traffic p then
    when (quiescent p w) (retire self)
  else
    t ← lift (vec_get (traffic_list p) (cur_traffic p));
    (if bool_decide (TrafficPattern.type t = TrafficPattern.COMPUTE) then
       schedule_operateNext self getComputeTime
     else if bool_decide (TrafficPattern.type t = TrafficPattern.SYNC) then
       modify (λ w, set_sync ({[self]} ∪ rdy_sync_list w) (broadcast_issuer w) w) ;;
       w ← gets (λ w, w);
       when (sync_complete w)
         (match broadcast_issuer w with
          | None => throw (EAssert "broadcast_issuer")
          | Some b => sendBroadcast b
          end)
     else issue self t) ;;
    upd_pe self (λ p, set_cur_traffic (u32 (cur_traffic p + 1)) p).

Definition start (self : nat) : M World unit := schedule_operateNext self 1.
End handlers.

(** ** [parseTraffic] *)

(** [s[i] - '0'] for a [std::string]: the terminating zero may be read, what
    lies behind it may not; [char] is signed. *)
Definition char_at (s : string) (i : nat) : res Z :=
  if (String.length s <? i)%nat then Err EOutOfRange
  else
    let c := match String.get i s with Some a => Z.of_N (N_of_ascii a) | None => 0 end in
    Ok ((if c <? 128 then c else c - 256) - 48).

Definition parse_pair (s : string) : res (Z * Z) :=
  a ← char_at s 0; b ← char_at s 2; Ok (a, b).

(** One entry of the file: its PE's coordinate and the entry. *)
Definition parse_entry (gmem loff : Z) (j : json) : res (string * TrafficPattern.Traffic) :=
  js ← json_at_const j "src"; src ← get_string js;
  ja ← json_at_const j "addr"; addr ← get_u64 ja;
  let addr := if gmem <=? addr then u64 (addr + loff) else addr in
  jt ← json_at_const j "type"; ty ← get_int jt;
  ps ← parse_pair src;
  jd ← json_at_const j "dest"; dest ← get_string jd;
  pd ← parse_pair dest;
  jz ← json_at_const j "size"; size ← get_u64 jz;
  jq ← json_at_const j "request"; rq ← get_int jq;
  jr ← json_at_const j "response"; rs ← get_int jr;
  Ok (src, TrafficPattern.mk (TrafficPattern.request_of_int ty) ps pd addr size
             (TrafficPattern.type_of_int rq) (TrafficPattern.type_of_int rs)).

(** [data] is the parsed file; each entry goes to the PE it names. *)
Definition parseTraffic (self : nat) (data : json) : M World unit :=
  p ← get_pe self;
  let c := pe_params p in
  for_each (json_elems data) (λ j,
    js ← lift (json_at_const j "src"); s ← lift (get_string js);
    l ← gets pe_list;
    match l !! s with
    | None => throw (EPanic "Can't find pe")
    | Some i =>
        e ← lift (parse_entry (global_mem_size c) (local_mem_offset c) j);
        get_pe i ;;
        upd_pe i (λ p, set_traffic_list (traffic_list p ++ [e.2]) p)
    end).
