(* ===== verification/PESystem.v ===== *)
(** * The PEs inside the simulator

    The handlers of [pe.cc] do not run by themselves: the event queue calls
    the two events of a PE when they are due, the memory system (reached
    through [PEPort]) accepts or refuses packets, asks a refused PE to retry
    and delivers responses.  This file closes the model: the state of the
    system is the world of the PEs plus what the memory system owes them, and
    a label is one thing the simulator can do next.  Nothing is assumed about
    the order of events of the same tick, about latencies or about which
    packets are refused. *)
From stdpp Require Import base tactics list gmap strings.
From Stdlib Require Import ZArith Lia.
From S2P Require Import Prelude MemCmd TrafficPattern PE.
Local Open Scope Z_scope.

(** [pending]: the responses the memory system still has to deliver, by PE and
    request.  [refused]: the PEs whose last packet was refused. *)
Record Sys := mkSys {
  world : World;
  pending : gset (nat * positive);
  refused : gset nat;
}.

Inductive label :=
  | LOperate (i : nat) (t : Z)
  | LSend (i : nat) (t : Z) (accepted : bool)
  | LRetry (i : nat) (t : Z)
  | LResp (i : nat) (r : positive) (t : Z).

(** ** Time *)

Definition not_before (t : Z) (e : option Z) : Prop :=
  match e with Some t' => t ≤ t' | None => True end.
#[export] Instance not_before_dec t e : Decision (not_before t e).
Proof. unfold not_before. destruct e; apply _. Defined.

(** No event is due before [t]. *)
Definition earliest (t : Z) (w : World) : Prop :=
  map_Forall (λ _ p, not_before t (operateNextEvent p) ∧ not_before t (scheduleReqEvent p))
    (pes w).

(** The simulation stops at this tick ([simulate(num_cycles)]); no tick
    computed before it overflows. *)
Definition horizon : Z := 2 ^ 63.

(** ** Steps *)

Section system.
Context (isMemAddr : Z → bool).

Definition front (p : PE) : option positive :=
  head (waitingSend (negb (empty_queue (waitingSend_write p))) p).

Definition front_packet (w : World) (i : nat) : option Packet :=
  match pes w !! i with
  | Some p => match front p with Some q => packets w !! q | None => None end
  | None => None
  end.

(** Who gets a response to the packet [k] sent by [i]. *)
Definition targets (w : World) (i : nat) (k : Packet) : gset nat :=
  if rq_broadcast (pk_req k) then list_to_set (map_to_list (pe_list w)).*2 else {[i]}.

(** The response to a request packet: a packet of its own, with the response
    command and the same request. *)
Definition response_packet (k : Packet) : res Packet :=
  c ← responseCommand (pk_cmd k); Ok (mkPacket c (pk_req k) (pk_data k)).

Definition run {A} (m : M World A) (w : World) : res World :=
  match m w with Ok (_, w') => Ok w' | Err e => Err e end.

Definition sys_step (s : Sys) (l : label) : res Sys :=
  let w := world s in
  match l with
  | LOperate i t =>
      w' ← run (operateTraffic i)
             (set_curTick t (set_pes (alter (set_operateNextEvent None) i (pes w)) w));
      Ok (mkSys w' (pending s) (refused s))
  | LSend i t accepted =>
      w' ← run (scheduleReq isMemAddr i accepted)
             (set_curTick t (set_pes (alter (set_scheduleReqEvent None) i (pes w)) w));
      Ok (match front_packet w i with
          | Some k =>
              if isMemAddr (rq_addr (pk_req k)) then
                if accepted then
                  mkSys w' (set_map (λ j, (j, rq_id (pk_req k))) (targets w i k) ∪ pending s)
                    (refused s)
                else mkSys w' (pending s) ({[i]} ∪ refused s)
              else mkSys w' (pending s) (refused s)
          | None => mkSys w' (pending s) (refused s)
          end)
  | LRetry i t =>
      w' ← run (recvReqRetry i) (set_curTick t w);
      Ok (mkSys w' (pending s) (refused s ∖ {[i]}))
  | LResp i r t =>
      k ← of_option EBadPointer (packets w !! r);
      k' ← response_packet k;
      w' ← run (recvTimingResp i (next_packet w))
             (set_curTick t
               (set_packets (<[next_packet w := k']> (packets w))
                  (next_packet w) (next_request w) w));
      Ok (mkSys w' (pending s ∖ {[(i, r)]}) (refused s))
  end.

(** What the simulator may do in a state: serve an event that is due next, let
    the memory system answer one of the things it owes, at any tick up to the
    next event. *)
Definition enabled (s : Sys) (l : label) : Prop :=
  let w := world s in
  match l with
  | LOperate i t =>
      t < horizon ∧ earliest t w ∧ ∃ p, pes w !! i = Some p ∧ operateNextEvent p = Some t
  | LSend i t _ =>
      t < horizon ∧ earliest t w ∧ ∃ p, pes w !! i = Some p ∧ scheduleReqEvent p = Some t
  | LRetry i t => curTick w ≤ t < horizon ∧ earliest t w ∧ i ∈ refused s
  | LResp i r t => curTick w ≤ t < horizon ∧ earliest t w ∧ (i, r) ∈ pending s
  end.

Inductive reachable (s0 : Sys) : Sys → Prop :=
  | reach_refl : reachable s0 s0
  | reach_step s l s' :
      reachable s0 s → enabled s l → sys_step s l = Ok s' → reachable s0 s'.

(** ** What a traffic list must satisfy

    [issuer] is the PE that issues every broadcast; the other PEs take part in
    it with a SYNC entry. *)
Definition is_bcast_read (t : TrafficPattern.Traffic) : bool :=
  bool_decide (TrafficPattern.type t = TrafficPattern.READ) &&
  bool_decide (TrafficPattern.response t = TrafficPattern.BROADCAST).
Definition is_sync (t : TrafficPattern.Traffic) : bool :=
  bool_decide (TrafficPattern.type t = TrafficPattern.SYNC).
Definition is_barrier_entry (t : TrafficPattern.Traffic) : bool :=
  is_sync t || is_bcast_read t.
Definition is_transfer (t : TrafficPattern.Traffic) : bool :=
  bool_decide (TrafficPattern.type t ≠ TrafficPattern.COMPUTE) && negb (is_sync t).

(** The number of cache lines an entry is split into, and the address of the
    first. *)
Definition entry_lines (line : Z) (t : TrafficPattern.Traffic) : Z :=
  (Z.max (TrafficPattern.size t) line + TrafficPattern.addr t mod line) / line.
Definition entry_base (line : Z) (t : TrafficPattern.Traffic) : Z :=
  TrafficPattern.addr t - TrafficPattern.addr t mod line.

Record transfer_ok (line : Z) (t : TrafficPattern.Traffic) : Prop := {
  to_addr : 0 ≤ TrafficPattern.addr t;
  to_size : 0 ≤ TrafficPattern.size t;
  to_small : TrafficPattern.size t + 2 * line < 2 ^ 31;
  to_end : TrafficPattern.addr t + TrafficPattern.size t + 2 * line < 2 ^ 64;
  to_mem : ∀ j, 0 ≤ j < entry_lines line t → isMemAddr (entry_base line t + j * line) = true;
}.

Definition entry_ok (issuer i : nat) (line : Z) (t : TrafficPattern.Traffic) : Prop :=
  (is_sync t = true → i ≠ issuer) ∧
  (is_transfer t = true → transfer_ok line t ∧
     (TrafficPattern.response t = TrafficPattern.BROADCAST →
      TrafficPattern.type t = TrafficPattern.READ ∧ i = issuer)).

(** The barriers a PE still has to enter. *)
Definition barriers_left (p : PE) : Z :=
  Z.of_nat (length (filter (λ t, is_barrier_entry t = true)
                      (drop (Z.to_nat (cur_traffic p)) (traffic_list p)))).

(** ** The initial states: every PE is started and has not moved yet. *)
Record started (issuer : nat) (s : Sys) : Prop := {
  st_time : 0 ≤ curTick (world s) < horizon;
  st_idle : rdy_sync_list (world s) = ∅ ∧ broadcast_issuer (world s) = None ∧
            pending s = ∅ ∧ refused s = ∅ ∧ exits (world s) = [];
  st_packets : packets (world s) = ∅;
  st_ids : next_packet (world s) = next_request (world s);
  st_issuer : is_Some (pes (world s) !! issuer);
  st_list : ∀ c i, pe_list (world s) !! c = Some i ↔
              ∃ p, pes (world s) !! i = Some p ∧ c = getCoordinate p;
  st_pe : ∀ i p, pes (world s) !! i = Some p →
      operateNextEvent p = Some (curTick (world s) + 1) ∧ scheduleReqEvent p = None ∧
      waitingSend_read p = [] ∧ waitingSend_write p = [] ∧
      waitingResp_read p = ∅ ∧ waitingResp_write p = ∅ ∧ cur_traffic p = 0 ∧
      0 < cache_line_size (pe_params p) < 2 ^ 29 ∧
      Z.of_nat (length (traffic_list p)) < 2 ^ 32 ∧
      Forall (entry_ok issuer i (cache_line_size (pe_params p))) (traffic_list p);
  st_aligned : ∀ i j p q, pes (world s) !! i = Some p → pes (world s) !! j = Some q →
      barriers_left p = barriers_left q;
}.
End system.
