(* ===== verification/PEInv.v ===== *)
(** * The invariant of the running PEs

    Each PE is in one of seven phases; the phase fixes which of its events is
    scheduled, which queue holds packets, whether reads may be outstanding and
    whether it stands at a barrier.  The invariant of the system adds the link
    between the outstanding requests of the PEs and what the memory system
    owes them, and counts the barriers: every PE has the same number of
    barriers before it, a PE standing at one counted before that barrier. *)
From stdpp Require Import base tactics list gmap strings sets.
From Stdlib Require Import ZArith Lia.
From S2P Require Import Prelude MemCmd TrafficPattern PE PESystem.
Local Open Scope Z_scope.

Inductive phase :=
  | Ready       (* the next entry is about to be operated *)
  | SendingR    (* reads are being sent *)
  | SendingW    (* writes are being sent *)
  | Waiting     (* everything is sent, reads are outstanding *)
  | Synced      (* at a barrier another PE issues *)
  | Issuing     (* at a barrier it issues itself *)
  | Done.       (* every entry was operated *)

(** The event that sends packets is scheduled, or the PE waits for a retry. *)
Definition armed (ref : gset nat) (i : nat) (p : PE) : Prop :=
  (scheduleReqEvent p ≠ None ∧ i ∉ ref) ∨ (scheduleReqEvent p = None ∧ i ∈ ref).
Definition unarmed (ref : gset nat) (i : nat) (p : PE) : Prop :=
  scheduleReqEvent p = None ∧ i ∉ ref.

Section invariant.
Context (isMemAddr : Z → bool) (issuer : nat).

(** [full]: all PEs stand at the barrier, so its broadcast is being sent. *)
Definition in_phase (full : bool) (rdy ref : gset nat) (i : nat) (p : PE) (ph : phase) : Prop :=
  let op := operateNextEvent p in
  let qr := waitingSend_read p in
  let qw := waitingSend_write p in
  let rr := waitingResp_read p in
  match ph with
  | Ready => op ≠ None ∧ unarmed ref i p ∧ qr = [] ∧ qw = [] ∧ rr = ∅ ∧ i ∉ rdy
  | SendingR => op = None ∧ armed ref i p ∧ qr ≠ [] ∧ qw = [] ∧ i ∉ rdy
  | SendingW => op = None ∧ armed ref i p ∧ qr = [] ∧ qw ≠ [] ∧ rr = ∅ ∧ i ∉ rdy
  | Waiting => op = None ∧ unarmed ref i p ∧ qr = [] ∧ qw = [] ∧ rr ≠ ∅ ∧ i ∉ rdy
  | Synced => op = None ∧ unarmed ref i p ∧ qr = [] ∧ qw = [] ∧ (full = false → rr = ∅) ∧
              i ∈ rdy ∧ i ≠ issuer
  | Issuing => op = None ∧ (if full then armed ref i p else unarmed ref i p) ∧ qr ≠ [] ∧
               qw = [] ∧ (full = false → rr = ∅) ∧ i ∈ rdy ∧ i = issuer
  | Done => op = None ∧ unarmed ref i p ∧ qr = [] ∧ qw = [] ∧ rr = ∅ ∧ i ∉ rdy ∧
            cur_traffic p = Z.of_nat (length (traffic_list p))
  end.

(** A queued packet: alive, of the kind of its queue, to an address of the
    memory, and a broadcast exactly when the PE is issuing one. *)
Definition queued (pk : gmap positive Packet) (cmd : Command) (bc : bool) (q : positive) : Prop :=
  ∃ k, pk !! q = Some k ∧ pk_cmd k = cmd ∧ rq_broadcast (pk_req k) = bc ∧
    isMemAddr (rq_addr (pk_req k)) = true.

(** The outstanding requests of one kind are those the memory system owes. *)
Definition owed (pk : gmap positive Packet) (pend : gset (nat * positive)) (i : nat)
    (cmd : Command) (m : gmap positive Z) : Prop :=
  ∀ r, is_Some (m !! r) ↔ (i, r) ∈ pend ∧ ∃ k, pk !! r = Some k ∧ pk_cmd k = cmd.

(** What holds of a PE besides its phase. *)
Record local_ok (now : Z) (pk : gmap positive Packet) (pend : gset (nat * positive))
    (i : nat) (p : PE) : Prop := {
  lo_line : 0 < cache_line_size (pe_params p) < 2 ^ 29;
  lo_len : Z.of_nat (length (traffic_list p)) < 2 ^ 32;
  lo_traffic : Forall (entry_ok isMemAddr issuer i (cache_line_size (pe_params p))) (traffic_list p);
  lo_cur : 0 ≤ cur_traffic p ≤ Z.of_nat (length (traffic_list p));
  lo_op : not_before now (operateNextEvent p);
  lo_sr : not_before now (scheduleReqEvent p);
  lo_read : owed pk pend i ReadReq (waitingResp_read p);
  lo_write : owed pk pend i WriteReq (waitingResp_write p);
  lo_rticks : map_Forall (λ _ t, t ≤ now) (waitingResp_read p);
  lo_wticks : map_Forall (λ _ t, t ≤ now) (waitingResp_write p);
}.

Definition queues_ok (pk : gmap positive Packet) (i : nat) (rdy : gset nat) (p : PE) : Prop :=
  Forall (queued pk ReadReq (bool_decide (i ∈ rdy))) (waitingSend_read p) ∧
  Forall (queued pk WriteReq false) (waitingSend_write p).

(** A PE that left the list of PEs has nothing left to do; one that has nothing
    left to do has left it. *)
Definition listed_ok (pl : gmap string nat) (rdy : gset nat) (i : nat) (p : PE) : Prop :=
  (pl !! getCoordinate p = Some i ∧
     (operateNextEvent p = None → waitingSend_read p = [] → waitingSend_write p = [] →
      waitingResp_read p = ∅ → i ∉ rdy → waitingResp_write p ≠ ∅)) ∨
  (pl !! getCoordinate p = None ∧ i ∉ rdy ∧
     cur_traffic p = Z.of_nat (length (traffic_list p)) ∧
     waitingSend_read p = [] ∧ waitingSend_write p = [] ∧
     waitingResp_read p = ∅ ∧ waitingResp_write p = ∅).

Definition full (w : World) : bool := bool_decide (rdy_sync_list w = dom (pes w)).

(** All of a PE, when [k] barriers are not passed yet. *)
Definition pe_ok (k : Z) (s : Sys) (i : nat) (p : PE) : Prop :=
  (∃ ph, in_phase (full (world s)) (rdy_sync_list (world s)) (refused s) i p ph) ∧
  local_ok (curTick (world s)) (packets (world s)) (pending s) i p ∧
  queues_ok (packets (world s)) i (rdy_sync_list (world s)) p ∧
  listed_ok (pe_list (world s)) (rdy_sync_list (world s)) i p ∧
  barriers_left p + Z.b2z (bool_decide (i ∈ rdy_sync_list (world s))) = k.

Record inv (k : Z) (s : Sys) : Prop := {
  i_time : 0 ≤ curTick (world s) < horizon;
  i_pe : ∀ i p, pes (world s) !! i = Some p → pe_ok k s i p;
  i_rdy : rdy_sync_list (world s) ⊆ dom (pes (world s));
  i_issuer : is_Some (pes (world s) !! issuer);
  i_bcast : broadcast_issuer (world s) =
      if bool_decide (issuer ∈ rdy_sync_list (world s)) then Some issuer else None;
  i_list : ∀ c i, pe_list (world s) !! c = Some i →
      ∃ p, pes (world s) !! i = Some p ∧ c = getCoordinate p;
  i_coord : ∀ i j p q, pes (world s) !! i = Some p → pes (world s) !! j = Some q →
      getCoordinate p = getCoordinate q → i = j;
  i_ids : next_packet (world s) = next_request (world s);
  i_packets : ∀ q k, packets (world s) !! q = Some k →
      (q < next_packet (world s))%positive ∧ rq_id (pk_req k) = q;
  i_pend : ∀ i r, (i, r) ∈ pending s → is_Some (pes (world s) !! i) ∧
      ∃ k, packets (world s) !! r = Some k ∧ (pk_cmd k = ReadReq ∨ pk_cmd k = WriteReq);
  i_ref : refused s ⊆ dom (pes (world s));
  i_exit : pe_list (world s) = ∅ → exits (world s) ≠ [];
}.
End invariant.
