(* ===== verification/PERun.v ===== *)
(** * Symbolic execution of the PE handlers

    Lemmas that give the result of each primitive of the handlers when its
    preconditions hold, and a tactic that runs a handler with them. *)
From stdpp Require Import base tactics list gmap strings sets.
From Stdlib Require Import ZArith Lia.
From S2P Require Import Prelude MemCmd TrafficPattern PE PESystem PEInv.
Local Open Scope Z_scope.

Lemma alter_known {K A} `{Countable K} (f : A → A) (i : K) (m : gmap K A) x :
  m !! i = Some x → alter f i m = <[i := f x]> m.
Proof.
  intros H1. apply map_eq. intros j. destruct (decide (j = i)) as [->|].
  - by rewrite lookup_alter_eq, lookup_insert_eq, H1.
  - by rewrite lookup_alter_ne, lookup_insert_ne.
Qed.

Lemma get_pe_run i w p : pes w !! i = Some p → get_pe i w = Ok (p, w).
Proof. unfold get_pe. intros ->. done. Qed.

Lemma upd_pe_run i f w p :
  pes w !! i = Some p → upd_pe i f w = Ok (tt, set_pes (<[i := f p]> (pes w)) w).
Proof. intros H. unfold upd_pe, modify. by rewrite (alter_known _ _ _ _ H). Qed.

Lemma get_packet_run q w k : packets w !! q = Some k → get_packet q w = Ok (k, w).
Proof. unfold get_packet. intros ->. done. Qed.

Lemma massert_run {St} what (c : bool) (w : St) : c = true → massert what c w = Ok (tt, w).
Proof. by intros ->. Qed.

Lemma set_pes_set_pes m m' w : set_pes m (set_pes m' w) = set_pes m w.
Proof. done. Qed.

Section schedule.
Context (i : nat) (d : Z) (w : World) (p : PE).
Hypothesis (Hp : pes w !! i = Some p) (Hd : 0 ≤ d).
Hypothesis (Ht : 0 ≤ curTick w) (Hov : curTick w + d < 2 ^ 64).

Lemma schedule_operateNext_run :
  operateNextEvent p = None →
  schedule_operateNext i d w =
    Ok (tt, set_pes (<[i := set_operateNextEvent (Some (curTick w + d)) p]> (pes w)) w).
Proof.
  intros He. unfold schedule_operateNext. rewrite (M_bind_ok _ _ _ _ _ (get_pe_run _ _ _ Hp)).
  rewrite (M_bind_ok _ _ w _ w eq_refl), u64_small by lia.
  rewrite (M_bind_ok _ _ w tt w).
  - by apply upd_pe_run.
  - unfold schedule_event. rewrite He, (proj2 (Z.leb_le _ _)) by lia. done.
Qed.

Lemma schedule_scheduleReq_run :
  scheduleReqEvent p = None →
  schedule_scheduleReq i d w =
    Ok (tt, set_pes (<[i := set_scheduleReqEvent (Some (curTick w + d)) p]> (pes w)) w).
Proof.
  intros He. unfold schedule_scheduleReq. rewrite (M_bind_ok _ _ _ _ _ (get_pe_run _ _ _ Hp)).
  rewrite (M_bind_ok _ _ w _ w eq_refl), u64_small by lia.
  rewrite (M_bind_ok _ _ w tt w).
  - by apply upd_pe_run.
  - unfold schedule_event. rewrite He, (proj2 (Z.leb_le _ _)) by lia. done.
Qed.
End schedule.

Lemma empty_queue_true q : empty_queue q = true ↔ q = [].
Proof. apply bool_decide_eq_true. Qed.
Lemma empty_queue_false q : empty_queue q = false ↔ q ≠ [].
Proof. apply bool_decide_eq_false. Qed.
Lemma empty_map_true m : empty_map m = true ↔ m = ∅.
Proof. apply bool_decide_eq_true. Qed.
Lemma empty_map_false m : empty_map m = false ↔ m ≠ ∅.
Proof. apply bool_decide_eq_false. Qed.

(** The world after [retire]. *)
Definition retired_world (p : PE) (w : World) : World :=
  let w' := set_pe_list (delete (getCoordinate p) (pe_list w)) w in
  if bool_decide (pe_list w' = ∅) then add_exit (getCoordinate p) w' else w'.

Lemma retire_run i w p : pes w !! i = Some p → retire i w = Ok (tt, retired_world p w).
Proof.
  intros H. unfold retire, retired_world. rewrite (M_bind_ok _ _ _ _ _ (get_pe_run _ _ _ H)).
  do 2 (erewrite M_bind_ok by reflexivity; cbv beta). unfold when. by destruct (bool_decide _).
Qed.

Record only_list_changed (w w' : World) : Prop := {
  oc_tick : curTick w' = curTick w;
  oc_pes : pes w' = pes w;
  oc_rdy : rdy_sync_list w' = rdy_sync_list w;
  oc_bcast : broadcast_issuer w' = broadcast_issuer w;
  oc_packets : packets w' = packets w;
  oc_np : next_packet w' = next_packet w;
  oc_nr : next_request w' = next_request w;
}.

Lemma retired_only_list p w : only_list_changed w (retired_world p w).
Proof. unfold retired_world. by destruct (bool_decide _). Qed.

Lemma retired_list p w : pe_list (retired_world p w) = delete (getCoordinate p) (pe_list w).
Proof. unfold retired_world. by destruct (bool_decide _). Qed.

Lemma retired_exits p w : pe_list (retired_world p w) = ∅ → exits (retired_world p w) ≠ [].
Proof. unfold retired_world. case_bool_decide; done. Qed.

(** Leaving the list of PEs once there is nothing left to do. *)
Lemma maybe_retire_run i w p (c : bool) :
  pes w !! i = Some p →
  when c (retire i) w = Ok (tt, if c then retired_world p w else w).
Proof. intros H. destruct c; [by apply retire_run|done]. Qed.

Lemma maybe_retired (c : bool) p w :
  (pe_list w = ∅ → exits w ≠ []) →
  let w' := if c then retired_world p w else w in
  only_list_changed w w' ∧
  pe_list w' = (if c then delete (getCoordinate p) (pe_list w) else pe_list w) ∧
  (pe_list w' = ∅ → exits w' ≠ []).
Proof.
  intros Hex. destruct c; [|done].
  split_and!; [apply retired_only_list|apply retired_list|apply retired_exits].
Qed.

(** Projections of updated worlds and PEs. *)
Ltac wsimpl := cbn [pes set_pes set_curTick set_pe_list set_sync set_packets add_exit
  curTick pe_list rdy_sync_list broadcast_issuer packets next_packet next_request exits
  pe_params operateNextEvent scheduleReqEvent waitingSend_read waitingSend_write
  retryPktTick waitingResp_read waitingResp_write stats traffic_list cur_traffic
  set_operateNextEvent set_scheduleReqEvent set_waitingSend set_retryPktTick
  set_waitingResp set_stats set_traffic_list set_cur_traffic waitingSend waitingResp
  negb world pending refused] in *.

Ltac solve_lookup := wsimpl; first [eassumption | apply lookup_insert_eq].

(** One primitive of a handler. *)
Ltac pe_prim :=
  first [ eapply get_pe_run; solve_lookup
        | eapply upd_pe_run; solve_lookup
        | eapply get_packet_run; solve_lookup
        | reflexivity ].

Ltac pe_step := erewrite M_bind_ok; [|pe_prim]; cbv beta; wsimpl; rewrite ?insert_insert_eq.
