(* ===== verification/PEFrame.v ===== *)
(** * Framing lemmas for the invariant of the PEs

    A step changes one PE (or, for a broadcast, all of them); these lemmas
    carry the invariant of the PEs a step does not touch over to the new
    state, and assemble the invariant of the new state. *)
From stdpp Require Import base tactics list gmap strings sets.
From Stdlib Require Import ZArith Lia.
From S2P Require Import Prelude MemCmd TrafficPattern PE PESystem PEInv PERun.
Local Open Scope Z_scope.

Section frame.
Context (isMemAddr : Z → bool) (issuer : nat).
Local Abbreviation inv := (inv isMemAddr issuer).
Local Abbreviation pe_ok := (pe_ok isMemAddr issuer).
Local Abbreviation local_ok := (local_ok isMemAddr issuer).

(** Two states that differ for [j] at most by time and by new packets. *)
Record same_for (j : nat) (s s' : Sys) : Prop := {
  sf_rdy : j ∈ rdy_sync_list (world s) ↔ j ∈ rdy_sync_list (world s');
  sf_ref : j ∈ refused s ↔ j ∈ refused s';
  sf_pend : ∀ r, (j, r) ∈ pending s ↔ (j, r) ∈ pending s';
  sf_packets : packets (world s) ⊆ packets (world s');
  sf_time : curTick (world s) ≤ curTick (world s');
}.

Lemma not_before_mono t t' e : t' ≤ t → not_before t e → not_before t' e.
Proof. destruct e; simpl; lia. Qed.

Lemma queued_mono pk pk' cmd b q :
  pk ⊆ pk' → queued isMemAddr pk cmd b q → queued isMemAddr pk' cmd b q.
Proof. intros Hs (k & H & ?). exists k. split; [|done]. by eapply lookup_weaken. Qed.

Lemma owed_frame k s j cmd m pk' pend' :
  inv k s → packets (world s) ⊆ pk' →
  (∀ r, (j, r) ∈ pending s ↔ (j, r) ∈ pend') →
  owed (packets (world s)) (pending s) j cmd m → owed pk' pend' j cmd m.
Proof.
  intros Hi Hsub Hpend Ho r. rewrite (Ho r), <-(Hpend r). split.
  - intros [Hr (q & Hq & ?)]. split; [done|]. exists q. split; [|done]. by eapply lookup_weaken.
  - intros [Hr (q & Hq & Hc)]. split; [done|].
    destruct (i_pend _ _ _ _ Hi _ _ Hr) as (_ & q' & Hq' & _). exists q'. split; [done|].
    pose proof (lookup_weaken _ _ _ _ Hq' Hsub). by simplify_eq.
Qed.

Lemma local_frame k s s' j p :
  inv k s → same_for j s s' → earliest (curTick (world s')) (world s) →
  pes (world s) !! j = Some p →
  local_ok (curTick (world s)) (packets (world s)) (pending s) j p →
  local_ok (curTick (world s')) (packets (world s')) (pending s') j p.
Proof.
  intros Hi [Hrdy Href Hpend Hpk Ht] He Hp [].
  destruct (He j p Hp) as [He1 He2].
  constructor; try done.
  - by eapply owed_frame.
  - by eapply owed_frame.
  - eapply map_Forall_impl; [done|]. simpl. lia.
  - eapply map_Forall_impl; [done|]. simpl. lia.
Qed.

Lemma in_phase_frame f rdy rdy' ref ref' j p ph :
  (j ∈ rdy ↔ j ∈ rdy') → (j ∈ ref ↔ j ∈ ref') →
  in_phase issuer f rdy ref j p ph → in_phase issuer f rdy' ref' j p ph.
Proof.
  intros Hrdy Href. unfold in_phase, armed, unarmed. destruct ph, f; by rewrite ?Hrdy, ?Href.
Qed.

Lemma pe_ok_frame k s s' j p :
  inv k s → same_for j s s' → earliest (curTick (world s')) (world s) →
  full (world s') = full (world s) →
  pe_list (world s') !! getCoordinate p = pe_list (world s) !! getCoordinate p →
  pes (world s) !! j = Some p → pe_ok k s' j p.
Proof.
  intros Hi Hsf He Hf Hl Hp. destruct (i_pe _ _ _ _ Hi j p Hp) as ([ph Hph] & Hlo & Hq & Hli & Hb).
  pose proof Hsf as [Hrdy Href Hpend Hpk Ht].
  split_and!.
  - exists ph. rewrite Hf. by eapply in_phase_frame.
  - by eapply local_frame.
  - destruct Hq as [Hq1 Hq2]. split; [|eapply Forall_impl; [done|]; intros; by eapply queued_mono].
    rewrite <-(bool_decide_ext _ _ Hrdy).
    eapply Forall_impl; [done|]; intros; by eapply queued_mono.
  - unfold listed_ok in *. rewrite Hl, <-Hrdy. done.
  - by rewrite <-(bool_decide_ext _ _ Hrdy).
Qed.

Lemma same_packets_ok w w' :
  packets w' = packets w → next_packet w' = next_packet w →
  (∀ q k, packets w !! q = Some k → (q < next_packet w)%positive ∧ rq_id (pk_req k) = q) →
  (∀ q k, packets w' !! q = Some k → (q < next_packet w')%positive ∧ rq_id (pk_req k) = q).
Proof. by intros -> ->. Qed.

(** The invariant after a step that changes the PE [i] only, and neither the
    barrier nor the list of PEs. *)
Lemma inv_update k s s' i p p' :
  inv k s → pes (world s) !! i = Some p →
  pes (world s') = <[i := p']> (pes (world s)) →
  pe_params p' = pe_params p →
  rdy_sync_list (world s') = rdy_sync_list (world s) →
  broadcast_issuer (world s') = broadcast_issuer (world s) →
  (∀ c, getCoordinate p ≠ c → pe_list (world s') !! c = pe_list (world s) !! c) →
  (∀ c j, pe_list (world s') !! c = Some j → pe_list (world s) !! c = Some j) →
  (pe_list (world s') = ∅ → exits (world s') ≠ []) →
  (∀ j, j ≠ i → same_for j s s') →
  packets (world s) ⊆ packets (world s') →
  next_packet (world s') = next_request (world s') →
  (∀ q k, packets (world s') !! q = Some k →
     (q < next_packet (world s'))%positive ∧ rq_id (pk_req k) = q) →
  (∀ r, (i, r) ∈ pending s' →
     ∃ k, packets (world s') !! r = Some k ∧ (pk_cmd k = ReadReq ∨ pk_cmd k = WriteReq)) →
  refused s' ⊆ dom (pes (world s)) →
  earliest (curTick (world s')) (world s) → 0 ≤ curTick (world s') < horizon →
  (∃ ph, in_phase issuer (full (world s)) (rdy_sync_list (world s)) (refused s') i p' ph) →
  local_ok (curTick (world s')) (packets (world s')) (pending s') i p' →
  queues_ok isMemAddr (packets (world s')) i (rdy_sync_list (world s)) p' →
  listed_ok (pe_list (world s')) (rdy_sync_list (world s)) i p' →
  barriers_left p' = barriers_left p →
  inv k s'.
Proof.
  intros Hi Hp Hps Hpar Hrdy Hbc Hlist Hlist' Hex Hsame Hsub Hids Hpk Hpend Href He Ht
    Hph Hlo Hqs Hli Hb.
  assert (Hdom : dom (pes (world s')) = dom (pes (world s))).
  { rewrite Hps, dom_insert_L. apply elem_of_dom_2 in Hp. set_solver. }
  assert (Hfull : full (world s') = full (world s)) by (unfold full; by rewrite Hrdy, Hdom).
  assert (Hcoord : getCoordinate p' = getCoordinate p) by (unfold getCoordinate; by rewrite Hpar).
  assert (Hold : ∀ j q, pes (world s') !! j = Some q →
            ∃ q', pes (world s) !! j = Some q' ∧ getCoordinate q = getCoordinate q').
  { intros j q. rewrite Hps. intros [[-> <-]|[? ?]]%lookup_insert_Some; eauto. }
  constructor.
  - done.
  - intros j q. rewrite Hps. intros [[<- <-]|[Hne Hq]]%lookup_insert_Some.
    { destruct (i_pe _ _ _ _ Hi i p Hp) as (_ & _ & _ & _ & Hb0).
      unfold PEInv.pe_ok. rewrite Hfull, Hrdy, Hb. by split_and!. }
    eapply pe_ok_frame; eauto. apply Hlist. intros Hc. apply Hne.
    by eapply (i_coord _ _ _ _ Hi).
  - rewrite Hrdy, Hdom. apply Hi.
  - rewrite <-elem_of_dom, Hdom, elem_of_dom. apply Hi.
  - rewrite Hbc, Hrdy. apply Hi.
  - intros c j Hj%Hlist'. destruct (i_list _ _ _ _ Hi _ _ Hj) as (q & Hq & ->).
    rewrite Hps. destruct (decide (i = j)) as [<-|Hne].
    + exists p'. rewrite lookup_insert_eq. by simplify_eq.
    + exists q. by rewrite lookup_insert_ne.
  - intros j1 j2 q1 q2 H1 H2 Hc. apply Hold in H1 as (q1' & H1 & Hc1).
    apply Hold in H2 as (q2' & H2 & Hc2). eapply (i_coord _ _ _ _ Hi); [done..|congruence].
  - done.
  - done.
  - intros j r Hjr. destruct (decide (j = i)) as [->|Hne].
    + split; [|by apply Hpend]. rewrite Hps, lookup_insert_eq. eauto.
    + apply (sf_pend _ _ _ (Hsame j Hne)) in Hjr.
      destruct (i_pend _ _ _ _ Hi _ _ Hjr) as (Hj & q & Hq & Hc).
      split; [rewrite Hps, lookup_insert_ne by done; done|].
      exists q. split; [by eapply lookup_weaken|done].
  - by rewrite Hdom.
  - done.
Qed.

Lemma full_same w w' :
  dom (pes w') = dom (pes w) → rdy_sync_list w' = rdy_sync_list w → full w' = full w.
Proof. unfold full. by intros -> ->. Qed.

(** [local_ok] does not depend on the queues, the statistics or the retry tick. *)
Lemma local_ok_ext now pk pend i p p' :
  local_ok now pk pend i p →
  pe_params p' = pe_params p → traffic_list p' = traffic_list p →
  0 ≤ cur_traffic p' ≤ Z.of_nat (length (traffic_list p)) →
  not_before now (operateNextEvent p') → not_before now (scheduleReqEvent p') →
  waitingResp_read p' = waitingResp_read p → waitingResp_write p' = waitingResp_write p →
  local_ok now pk pend i p'.
Proof.
  intros [] E1 E2 E3 E4 E5 E6 E7. constructor; rewrite ?E1, ?E2, ?E6, ?E7; done.
Qed.

Lemma owed_ext pk pend pend' i cmd m :
  (∀ r, (i, r) ∈ pend ↔ (i, r) ∈ pend') → owed pk pend i cmd m → owed pk pend' i cmd m.
Proof. intros He Ho r. by rewrite (Ho r), (He r). Qed.

(** The invariant after a step that may change every PE, but not who is in the
    list of PEs. *)
Lemma inv_build k k' s s' :
  inv k s →
  dom (pes (world s')) = dom (pes (world s)) →
  (∀ j p p', pes (world s) !! j = Some p → pes (world s') !! j = Some p' →
     pe_params p' = pe_params p) →
  (∀ j p', pes (world s') !! j = Some p' → pe_ok k' s' j p') →
  pe_list (world s') = pe_list (world s) → exits (world s') = exits (world s) →
  rdy_sync_list (world s') ⊆ dom (pes (world s)) →
  broadcast_issuer (world s') =
    (if bool_decide (issuer ∈ rdy_sync_list (world s')) then Some issuer else None) →
  next_packet (world s') = next_request (world s') →
  (∀ q k, packets (world s') !! q = Some k →
     (q < next_packet (world s'))%positive ∧ rq_id (pk_req k) = q) →
  (∀ i r, (i, r) ∈ pending s' → i ∈ dom (pes (world s)) ∧
     ∃ k, packets (world s') !! r = Some k ∧ (pk_cmd k = ReadReq ∨ pk_cmd k = WriteReq)) →
  refused s' ⊆ dom (pes (world s)) → 0 ≤ curTick (world s') < horizon →
  inv k' s'.
Proof.
  intros Hi Hdom Hpar Hok Hlist Hex Hrdy Hbc Hids Hpk Hpend Href Ht.
  assert (Hold : ∀ j q, pes (world s') !! j = Some q →
            ∃ q', pes (world s) !! j = Some q' ∧ getCoordinate q = getCoordinate q').
  { intros j q Hq. pose proof Hq as Hd%elem_of_dom_2. rewrite Hdom in Hd.
    apply elem_of_dom in Hd as [q' Hq']. exists q'. split; [done|].
    unfold getCoordinate. by rewrite (Hpar j q' q). }
  constructor; try done.
  - by rewrite Hdom.
  - rewrite <-elem_of_dom, Hdom, elem_of_dom. apply Hi.
  - intros c j. rewrite Hlist. intros (p & Hp & ->)%(i_list _ _ _ _ Hi).
    assert (is_Some (pes (world s') !! j)) as [p' Hp']
      by (rewrite <-elem_of_dom, Hdom; by eapply elem_of_dom_2).
    exists p'. split; [done|]. unfold getCoordinate. by rewrite (Hpar j p p').
  - intros j1 j2 q1 q2 H1 H2 Hc. apply Hold in H1 as (q1' & H1 & Hc1).
    apply Hold in H2 as (q2' & H2 & Hc2). eapply (i_coord _ _ _ _ Hi); [done..|congruence].
  - intros i r Hir. rewrite <-elem_of_dom, Hdom. by apply Hpend.
  - by rewrite Hdom.
  - rewrite Hlist, Hex. apply Hi.
Qed.
End frame.
