(* ===== verification/PESteps.v ===== *)
(** * Every step of the system succeeds and keeps the invariant

    One lemma per label: retry, response, send (of an ordinary packet and of a
    broadcast) and operate (one lemma per kind of traffic entry). *)
From stdpp Require Import base tactics list gmap strings sets.
From Stdlib Require Import ZArith Lia.
From S2P Require Import Prelude MemCmd TrafficPattern PE PESystem PEInv PERun PEFrame.
Local Open Scope Z_scope.

Section steps.
Context (isMemAddr : Z → bool) (issuer : nat).
Local Abbreviation inv := (inv isMemAddr issuer).
Local Abbreviation pe_ok := (pe_ok isMemAddr issuer).
Local Abbreviation local_ok := (local_ok isMemAddr issuer).
Local Abbreviation sys_step := (sys_step isMemAddr).

(** The invariant after the clock moved to [t]. *)
Lemma local_now k s t i p :
  inv k s → earliest t (world s) → curTick (world s) ≤ t → pes (world s) !! i = Some p →
  local_ok t (packets (world s)) (pending s) i p.
Proof.
  intros Hi He Ht Hp. destruct (i_pe _ _ _ _ Hi i p Hp) as (_ & Hlo & _).
  assert (Hs : same_for i s (mkSys (set_curTick t (world s)) (pending s) (refused s)))
    by (by constructor).
  exact (local_frame _ _ _ _ _ i p Hi Hs He Hp Hlo).
Qed.

(** [same_for] after changes that concern another PE only. *)
Lemma same_for_other i j s s' :
  j ≠ i → rdy_sync_list (world s') = rdy_sync_list (world s) →
  refused s' ∖ {[i]} = refused s ∖ {[i]} →
  (∀ r, (j, r) ∈ pending s ↔ (j, r) ∈ pending s') →
  packets (world s) ⊆ packets (world s') →
  curTick (world s) ≤ curTick (world s') → same_for j s s'.
Proof. intros Hne Hr Href Hp Hpk Ht. constructor; try done; [by rewrite Hr|set_solver]. Qed.

(** ** Retry *)

Lemma refused_armed k s i p :
  inv k s → pes (world s) !! i = Some p → i ∈ refused s →
  scheduleReqEvent p = None ∧ (waitingSend_read p ≠ [] ∨ waitingSend_write p ≠ []).
Proof.
  intros Hi Hp Hr. destruct (i_pe _ _ _ _ Hi i p Hp) as ([ph Hph] & _).
  unfold in_phase, armed, unarmed in Hph.
  destruct ph; try destruct (full (world s)); naive_solver.
Qed.

Lemma step_retry k s i t :
  inv k s → enabled s (LRetry i t) → ∃ s', sys_step s (LRetry i t) = Ok s' ∧ inv k s'.
Proof.
  intros Hi (Ht & He & Hr). pose proof (i_time _ _ _ _ Hi) as Hnow.
  destruct (elem_of_dom (pes (world s)) i) as [Hd _].
  destruct (Hd (i_ref _ _ _ _ Hi i Hr)) as [p Hp].
  destruct (refused_armed _ _ _ _ Hi Hp Hr) as [Hsr Hq].
  pose proof (local_now _ _ _ _ _ Hi He ltac:(lia) Hp) as Hlo.
  destruct (i_pe _ _ _ _ Hi i p Hp) as ([ph Hph] & _ & Hqs & Hli & Hb).
  unfold PESystem.sys_step, run, recvReqRetry, retryReq. do 2 pe_step.
  erewrite M_bind_ok by (apply massert_run; wsimpl;
    rewrite orb_true_iff, !bool_decide_eq_true; exact Hq).
  erewrite schedule_scheduleReq_run; [|wsimpl; apply lookup_insert_eq|lia|wsimpl; lia|
    wsimpl; unfold horizon in *; lia|done].
  wsimpl. rewrite insert_insert_eq. eexists. split; [reflexivity|].
  eapply (inv_update _ _ _ _ _ i p); wsimpl; try done; try apply Hi; try lia.
  - intros j Hne. apply (same_for_other i); wsimpl; [done|done|set_solver|done|done|lia].
  - pose proof (i_ref _ _ _ _ Hi). set_solver.
  - exists ph. match goal with |- in_phase _ _ _ ?ref _ ?p' _ =>
      assert (armed ref i p') as Harm by (left; split; [done|set_solver]) end.
    destruct ph; cbn [in_phase] in Hph |- *; try (destruct Hph as (_ & [_ ?] & _); done).
    1,2: wsimpl; naive_solver.
    destruct (full (world s)); [wsimpl; naive_solver|destruct Hph as (_ & [_ ?] & _); done].
  - destruct Hlo; constructor; wsimpl; simpl; try done; lia.
Qed.

(** ** Leaving the list of PEs *)

Lemma barriers_left_nonneg p : 0 ≤ barriers_left p.
Proof. unfold barriers_left. lia. Qed.

Lemma barriers_left_end p :
  cur_traffic p = Z.of_nat (length (traffic_list p)) → barriers_left p = 0.
Proof. unfold barriers_left. intros ->. by rewrite Nat2Z.id, drop_all. Qed.

(** A PE that has no barrier left and stands at none: nobody stands at one. *)
Lemma no_barrier_open k s i p :
  inv k s → pes (world s) !! i = Some p → i ∉ rdy_sync_list (world s) →
  cur_traffic p = Z.of_nat (length (traffic_list p)) →
  rdy_sync_list (world s) = ∅ ∧ broadcast_issuer (world s) = None.
Proof.
  intros Hi Hp Hr Hc. destruct (i_pe _ _ _ _ Hi i p Hp) as (_ & _ & _ & _ & Hk).
  rewrite (barriers_left_end _ Hc), bool_decide_false in Hk by done.
  assert (Hemp : rdy_sync_list (world s) = ∅).
  { apply set_eq. intros j. split; [|set_solver]. intros Hj. exfalso.
    pose proof (i_rdy _ _ _ _ Hi j Hj) as [q Hq]%elem_of_dom.
    destruct (i_pe _ _ _ _ Hi j q Hq) as (_ & _ & _ & _ & Hk').
    rewrite bool_decide_true in Hk' by done. pose proof (barriers_left_nonneg q).
    simpl in *. lia. }
  split; [done|]. rewrite (i_bcast _ _ _ _ Hi), Hemp. by rewrite bool_decide_false by set_solver.
Qed.

(** The list of PEs after a PE, all of whose other state is settled, was given
    the chance to leave it. *)
Lemma listed_after k s i p p' pl' (c : bool) :
  inv k s → pes (world s) !! i = Some p → pe_params p' = pe_params p →
  traffic_list p' = traffic_list p → cur_traffic p' = cur_traffic p →
  pe_list (world s) !! getCoordinate p = Some i →
  (* whoever has nothing left to do has operated all its traffic *)
  (operateNextEvent p' = None → waitingSend_read p' = [] → waitingSend_write p' = [] →
   waitingResp_read p' = ∅ → i ∉ rdy_sync_list (world s) →
   cur_traffic p' = Z.of_nat (length (traffic_list p'))) →
  cur_traffic p ≤ Z.of_nat (length (traffic_list p)) →
  c = quiescent p' (world s) && (Z.of_nat (length (traffic_list p')) <=? cur_traffic p') →
  pl' = (if c then delete (getCoordinate p') (pe_list (world s)) else pe_list (world s)) →
  listed_ok pl' (rdy_sync_list (world s)) i p'.
Proof.
  intros Hi Hp Hpar Htl Hcu Hl Hdone Hle Hc ->.
  assert (Hco : getCoordinate p' = getCoordinate p) by (unfold getCoordinate; by rewrite Hpar).
  unfold listed_ok. destruct c; rewrite Hco.
  - right. symmetry in Hc. apply andb_true_iff in Hc as [Hq Hcur%Z.leb_le].
    unfold quiescent, empty_map, empty_queue in Hq.
    rewrite !andb_true_iff, !bool_decide_eq_true in Hq.
    destruct Hq as (([? ?] & [? ?]) & [? HR]). rewrite lookup_delete_eq, HR.
    split_and!; [done|set_solver|rewrite Htl, Hcu in *; lia|done..].
  - left. split; [done|]. intros Ho Hqr Hqw Hrr HR Hrw.
    pose proof (Hdone Ho Hqr Hqw Hrr HR) as Hend.
    destruct (no_barrier_open _ _ _ _ Hi Hp HR) as [HR0 HB0]; [congruence|].
    revert Hc. unfold quiescent. rewrite Hqr, Hqw, Hrr, Hrw, HR0, HB0, Hend.
    by rewrite Z.leb_refl.
Qed.

(** ** Responses *)

Lemma owed_delete pk pend i cmd m r :
  owed pk pend i cmd m → owed pk (pend ∖ {[(i, r)]}) i cmd (delete r m).
Proof.
  intros Ho r'. destruct (decide (r' = r)) as [->|Hne].
  - rewrite lookup_delete_eq. split; [by intros [? ?]|]. set_solver.
  - rewrite lookup_delete_ne by done. rewrite (Ho r'). set_solver.
Qed.

(** Removing a request of the other kind. *)
Lemma owed_delete_other pk pend i cmd m r k :
  pk !! r = Some k → pk_cmd k ≠ cmd →
  owed pk pend i cmd m → owed pk (pend ∖ {[(i, r)]}) i cmd m.
Proof.
  intros Hk Hc Ho r'. rewrite (Ho r'). split; intros [Hin (k' & Hk' & ?)];
    (split; [|eauto]); [|set_solver].
  apply elem_of_difference. split; [done|]. intros ?%elem_of_singleton. by simplify_eq.
Qed.

(** The PE before the last statements of [recvTimingResp]. *)
Definition after_resp (now : Z) (rd : bool) (r : positive) (size sent : Z) (p : PE) : PE :=
  set_waitingResp rd (delete r (waitingResp rd p))
    (set_stats ((if rd then stat_read else stat_write) size (now - sent) (stats p)) p).

Definition resumes (i : nat) (rdy : gset nat) (p : PE) : bool :=
  empty_queue (waitingSend_read p) && empty_map (waitingResp_read p) && bool_decide (i ∉ rdy).

Lemma recvTimingResp_run (w : World) (i : nat) (p : PE) (np : positive) (k : Packet)
    (rd : bool) (sent : Z) :
  pes w !! i = Some p → packets w !! np = Some k → 0 ≤ curTick w < horizon →
  pk_cmd k = (if rd then ReadResp else WriteResp) →
  waitingResp rd p !! rq_id (pk_req k) = Some sent → sent ≤ curTick w →
  let p1 := after_resp (curTick w) rd (rq_id (pk_req k)) (rq_size (pk_req k)) sent p in
  (rd = true → resumes i (rdy_sync_list w) p1 = true → operateNextEvent p = None) →
  let p2 := if rd && resumes i (rdy_sync_list w) p1
            then set_operateNextEvent (Some (curTick w + 1)) p1 else p1 in
  let w2 := set_packets (delete np (packets w)) (next_packet w) (next_request w)
              (set_pes (<[i := p2]> (pes w)) w) in
  recvTimingResp i np w =
    Ok (true, if quiescent p2 w && (Z.of_nat (length (traffic_list p2)) <=? cur_traffic p2)
              then retired_world p2 w2 else w2).
Proof.
  intros Hp Hk Ht Hcmd Hs Hle p1 Hev p2 w2. unfold recvTimingResp.
  pe_step. pe_step. pe_step.
  assert (isRead (pk_cmd k) = rd) as -> by (rewrite Hcmd; by destruct rd).
  assert (isWrite (pk_cmd k) = negb rd) as -> by (rewrite Hcmd; by destruct rd).
  rewrite Hs. erewrite M_bind_ok by (apply massert_run, Z.leb_le; done).
  erewrite (M_bind_ok _ _ _ tt (set_pes (<[i := p2]> (pes w)) w)).
  2:{ destruct rd; cbn [negb].
    - pe_step. pe_step. pe_step. pe_step. unfold when. fold p1.
      change (empty_queue _ && _ && _) with (resumes i (rdy_sync_list w) p1).
      unfold p2. cbn [andb]. destruct (resumes i (rdy_sync_list w) p1) eqn:E; [|done].
      erewrite schedule_operateNext_run; [|wsimpl; apply lookup_insert_eq|lia|wsimpl; lia|
        wsimpl; unfold horizon in *; lia|by apply Hev].
      wsimpl. by rewrite insert_insert_eq.
    - pe_step. erewrite upd_pe_run by (wsimpl; apply lookup_insert_eq). wsimpl.
      by rewrite insert_insert_eq. }
  cbv beta. erewrite (M_bind_ok _ _ _ tt w2).
  2:{ unfold delete_packet. by pe_step. }
  cbv beta. erewrite M_bind_ok by (apply (get_pe_run i w2 p2); apply lookup_insert_eq).
  erewrite M_bind_ok by reflexivity. cbv beta.
  erewrite M_bind_ok by (apply (maybe_retire_run i w2 p2), lookup_insert_eq). done.
Qed.

(** A PE that gets a read response and may go on was waiting for it. *)
Lemma resumes_waiting f rdy ref i p ph :
  in_phase issuer f rdy ref i p ph → waitingResp_read p ≠ ∅ → waitingSend_read p = [] →
  i ∉ rdy → ph = Waiting.
Proof. destruct ph; cbn [in_phase]; naive_solver. Qed.

(** A PE with nothing left to do is through. *)
Lemma idle_done f rdy ref i p ph :
  in_phase issuer f rdy ref i p ph → operateNextEvent p = None → waitingSend_read p = [] →
  waitingSend_write p = [] → waitingResp_read p = ∅ → i ∉ rdy →
  ph = Done.
Proof. destruct ph; cbn [in_phase]; naive_solver. Qed.

Lemma phase_after_resp k s i p (rd : bool) r size sent now :
  inv k s → pes (world s) !! i = Some p → is_Some (waitingResp rd p !! r) →
  let R := rdy_sync_list (world s) in
  let p1 := after_resp now rd r size sent p in
  let p2 := if rd && resumes i R p1 then set_operateNextEvent (Some (now + 1)) p1 else p1 in
  (rd = true → resumes i R p1 = true → operateNextEvent p = None) ∧
  (∃ ph, in_phase issuer (full (world s)) R (refused s) i p2 ph) ∧
  (operateNextEvent p2 = None → waitingSend_read p2 = [] → waitingSend_write p2 = [] →
   waitingResp_read p2 = ∅ → i ∉ R →
   cur_traffic p2 = Z.of_nat (length (traffic_list p2))).
Proof.
  intros Hi Hp Hr R p1 p2. destruct (i_pe _ _ _ _ Hi i p Hp) as ([ph Hph] & _). fold R in Hph.
  destruct rd; cbn [andb] in p2.
  - assert (waitingResp_read p ≠ ∅) as Hne by (intros E; cbn in Hr; rewrite E, lookup_empty in Hr; by destruct Hr).
    destruct (resumes i R p1) eqn:E; subst p2.
    + pose proof E as E'. unfold resumes in E. rewrite !andb_true_iff in E.
      destruct E as [[Eq%empty_queue_true Em%empty_map_true] ER%bool_decide_eq_true].
      assert (ph = Waiting) as -> by (by eapply resumes_waiting).
      destruct Hph as (Hop & Ha & Hqr & Hqw & _ & _).
      split_and!; [done|by exists Ready; split_and!|by intros].
    + split_and!; [done| |].
      * exists ph. destruct ph; cbn [in_phase] in Hph |- *; try naive_solver.
        destruct Hph as (Hop & Ha & Hqr & Hqw & _ & HR). split_and!; try done.
        intros Em. revert E. unfold resumes. rewrite (proj2 (empty_queue_true _)) by done.
        rewrite (proj2 (empty_map_true _)) by done. by rewrite bool_decide_true.
      * intros ? Eq ? Em ER. revert E. unfold resumes.
        rewrite (proj2 (empty_queue_true _)), (proj2 (empty_map_true _)) by done.
        by rewrite bool_decide_true.
  - subst p2. split_and!; [done|exists ph; by destruct ph|].
    intros Ho Hqr Hqw Hrr HR.
    rewrite (idle_done _ _ _ _ _ _ Hph Ho Hqr Hqw Hrr HR) in Hph.
    by destruct Hph as (_ & _ & _ & _ & _ & _ & ?).
Qed.

Lemma local_after_resp now pk pend i p (rd c : bool) r size sent q :
  local_ok now pk pend i p → pk !! r = Some q →
  pk_cmd q = (if rd then ReadReq else WriteReq) →
  let p1 := after_resp now rd r size sent p in
  local_ok now pk (pend ∖ {[(i, r)]}) i
    (if c then set_operateNextEvent (Some (now + 1)) p1 else p1).
Proof.
  intros [] Hq Hc p1. assert (ReadReq ≠ WriteReq) by done.
  destruct c, rd; constructor; unfold p1, after_resp; wsimpl; simpl; try done; try lia;
    (eapply owed_delete_other; [done|congruence|done]) || (by apply owed_delete) ||
    (by apply map_Forall_delete).
Qed.

Lemma step_resp k s i r t :
  inv k s → enabled s (LResp i r t) → ∃ s', sys_step s (LResp i r t) = Ok s' ∧ inv k s'.
Proof.
  intros Hi (Ht & He & Hr). pose proof (i_time _ _ _ _ Hi) as Hnow.
  destruct (i_pend _ _ _ _ Hi _ _ Hr) as ([p Hp] & q & Hq & Hc).
  destruct (i_packets _ _ _ _ Hi _ _ Hq) as [_ Hid].
  destruct (i_pe _ _ _ _ Hi i p Hp) as (_ & Hlo0 & Hqs & Hli & _).
  pose proof (local_now _ _ _ _ _ Hi He ltac:(lia) Hp) as Hlo.
  set (rd := bool_decide (pk_cmd q = ReadReq)).
  assert (Hcmd : pk_cmd q = if rd then ReadReq else WriteReq)
    by (unfold rd; case_bool_decide; naive_solver).
  assert (Hw : is_Some (waitingResp rd p !! r)).
  { destruct rd; [apply (lo_read _ _ _ _ _ _ _ Hlo)|apply (lo_write _ _ _ _ _ _ _ Hlo)]; eauto. }
  destruct (phase_after_resp _ _ _ _ rd r (rq_size (pk_req q)) (default 0 (waitingResp rd p !! r)) t
              Hi Hp Hw) as (Hev & Hph & Hdone).
  destruct Hw as [sent Hsent]. rewrite Hsent in Hev, Hph, Hdone. cbn [default] in Hev, Hph, Hdone.
  set (np := next_packet (world s)) in *.
  assert (Hfresh : packets (world s) !! np = None).
  { destruct (packets (world s) !! np) eqn:E; [|done].
    apply (i_packets _ _ _ _ Hi) in E as [E _]. unfold np in E. lia. }
  assert (Hlist : pe_list (world s) !! getCoordinate p = Some i).
  { destruct Hli as [[? _]|(_ & _ & _ & _ & _ & Hrr & Hrw)]; [done|].
    destruct rd; cbn in Hsent; by rewrite ?Hrr, ?Hrw in Hsent. }
  set (p1 := after_resp t rd r (rq_size (pk_req q)) sent p) in *.
  set (p2 := if rd && resumes i (rdy_sync_list (world s)) p1
             then set_operateNextEvent (Some (t + 1)) p1 else p1) in *.
  set (c := quiescent p2 (world s) && (Z.of_nat (length (traffic_list p2)) <=? cur_traffic p2)).
  set (w2 := set_curTick t (set_pes (<[i := p2]> (pes (world s))) (world s))).
  set (w' := if c then retired_world p2 w2 else w2).
  exists (mkSys w' (pending s ∖ {[(i, r)]}) (refused s)). split.
  { unfold PESystem.sys_step. fold np. rewrite Hq. cbn [of_option mbind res_bind].
    assert (response_packet q =
              Ok (mkPacket (if rd then ReadResp else WriteResp) (pk_req q) (pk_data q)))
      as -> by (unfold response_packet; rewrite Hcmd; by destruct rd).
    cbn [mbind res_bind]. unfold run.
    rewrite (recvTimingResp_run _ i p np
      (mkPacket (if rd then ReadResp else WriteResp) (pk_req q) (pk_data q)) rd sent);
      cbn [pk_cmd pk_req]; rewrite ?Hid;
      [|done|apply lookup_insert_eq|wsimpl; lia|done|done| |exact Hev].
    - cbn [curTick set_curTick]. fold p1. wsimpl. fold p2.
      change (quiescent p2 _ && _) with c. rewrite delete_insert_id by done.
      unfold w'. by destruct c.
    - wsimpl. destruct rd; [apply (lo_rticks _ _ _ _ _ _ _ Hlo r)|
        apply (lo_wticks _ _ _ _ _ _ _ Hlo r)]; done. }
  destruct (maybe_retired c p2 w2 (i_exit _ _ _ _ Hi)) as (Hoc & Hpl & Hex).
  fold w' in Hoc, Hpl, Hex. destruct Hoc as [Eti Eps Erd Ebc Epk Enp Enr]. unfold w2 in *. wsimpl.
  assert (Hpar : pe_params p2 = pe_params p) by (unfold p2; by destruct (_ && _)).
  assert (Hco : getCoordinate p2 = getCoordinate p) by (unfold getCoordinate; by rewrite Hpar).
  eapply (inv_update _ _ _ _ _ i p p2); wsimpl; rewrite ?Eti, ?Epk, ?Enp, ?Enr;
    try done; try solve [apply Hi]; try lia.
  - intros c0 Hne. rewrite Hpl. destruct c; [|done]. by rewrite lookup_delete_ne by congruence.
  - intros c0 j. rewrite Hpl. destruct c; [|done]. by intros [_ ?]%lookup_delete_Some.
  - intros j Hne. apply (same_for_other i); wsimpl; rewrite ?Epk, ?Eti; try done; [|lia].
    intros r'. rewrite elem_of_difference, elem_of_singleton.
    split; [intros H; split; [done|by intros [= ->]]|by intros [? _]].
  - intros r' [Hr' _]%elem_of_difference. by apply (i_pend _ _ _ _ Hi) in Hr' as [_ ?].
  - eapply local_after_resp; eauto.
  - unfold p2, p1. by destruct (_ && _), rd.
  - eapply (listed_after _ _ _ _ p2); eauto; unfold p2; try by destruct (_ && _).
    apply (lo_cur _ _ _ _ _ _ _ Hlo).
  - unfold p2. by destruct (_ && _).
Qed.
End steps.
