(* ===== verification/PESend.v ===== *)
(** * Sending packets keeps the invariant

    The step in which the event queue serves [scheduleReqEvent] of a PE: the
    port refuses the packet, or accepts an ordinary one, or accepts one of a
    broadcast, which every PE then waits for. *)
From stdpp Require Import base tactics list gmap strings sets.
From Stdlib Require Import ZArith Lia.
From S2P Require Import Prelude MemCmd TrafficPattern PE PESystem PEInv PERun PEFrame PESteps.
Local Open Scope Z_scope.

Section send.
Context (isMemAddr : Z → bool) (issuer : nat).
Local Abbreviation inv := (inv isMemAddr issuer).
Local Abbreviation pe_ok := (pe_ok isMemAddr issuer).
Local Abbreviation local_ok := (local_ok isMemAddr issuer).
Local Abbreviation sys_step := (sys_step isMemAddr).

(** What a PE whose sending event is due looks like: [write] says which queue
    it sends from, [k] is the packet [q] at its front. *)
Record sending (s : Sys) (i : nat) (p : PE) (write : bool) (q : positive)
    (rest : list positive) (k : Packet) : Prop := {
  sd_write : negb (empty_queue (waitingSend_write p)) = write;
  sd_queue : waitingSend write p = q :: rest;
  sd_other : waitingSend (negb write) p = [];
  sd_packet : packets (world s) !! q = Some k;
  sd_cmd : pk_cmd k = (if write then WriteReq else ReadReq);
  sd_bcast : rq_broadcast (pk_req k) = bool_decide (i ∈ rdy_sync_list (world s));
  sd_mem : isMemAddr (rq_addr (pk_req k)) = true;
  sd_id : rq_id (pk_req k) = q;
  sd_op : operateNextEvent p = None;
  sd_ref : i ∉ refused s;
  sd_reads : write = true → waitingResp_read p = ∅;
  sd_issuer : i ∈ rdy_sync_list (world s) → i = issuer ∧ full (world s) = true;
}.

Lemma send_ready k s i p t :
  inv k s → pes (world s) !! i = Some p → scheduleReqEvent p = Some t →
  ∃ write q rest pk, sending s i p write q rest pk.
Proof.
  intros Hi Hp Hsr. destruct (i_pe _ _ _ _ Hi i p Hp) as ([ph Hph] & _ & [Hqr Hqw] & _ & _).
  assert (Harm : ∀ ref, armed ref i p → i ∉ ref) by (intros ref [[_ ?]|[? _]]; congruence).
  destruct ph; cbn [in_phase] in Hph; try (destruct Hph as (_ & [? _] & _); congruence).
  - destruct Hph as (Hop & Ha & Hnr & Ew & HR). destruct (waitingSend_read p) as [|q rest] eqn:Er; [done|].
    apply Forall_cons in Hqr as [(pk & Hk & Hc & Hb & Hm) _].
    destruct (i_packets _ _ _ _ Hi _ _ Hk) as [_ ?].
    exists false, q, rest, pk. constructor; try done; [by rewrite Ew|by apply Harm].
  - destruct Hph as (Hop & Ha & Er & Hnw & Hrr & HR). destruct (waitingSend_write p) as [|q rest] eqn:Ew; [done|].
    apply Forall_cons in Hqw as [(pk & Hk & Hc & Hb & Hm) _].
    destruct (i_packets _ _ _ _ Hi _ _ Hk) as [_ ?].
    exists true, q, rest, pk. constructor; try done; [by rewrite Ew|by rewrite bool_decide_false|by apply Harm].
  - destruct Hph as (Hop & Ha & Hnr & Ew & Hrr & HR & Hiss).
    destruct (full (world s)) eqn:Hf; [|destruct Ha; congruence].
    destruct (waitingSend_read p) as [|q rest] eqn:Er; [done|].
    apply Forall_cons in Hqr as [(pk & Hk & Hc & Hb & Hm) _].
    destruct (i_packets _ _ _ _ Hi _ _ Hk) as [_ ?].
    exists false, q, rest, pk. constructor; try done; [by rewrite Ew|by apply Harm].
Qed.

(** The state before the handler runs, and the statements up to the call of
    [sendTimingReq]. *)
Lemma scheduleReq_run w i p write q rest k (accepted : bool) :
  pes w !! i = Some p → negb (empty_queue (waitingSend_write p)) = write →
  waitingSend write p = q :: rest → packets w !! q = Some k →
  isMemAddr (rq_addr (pk_req k)) = true →
  let w1 := set_pes (<[i := set_stats (inc_numPackets (stats p)) p]> (pes w)) w in
  scheduleReq isMemAddr i accepted w =
    if accepted then packet_sent i write k w1
    else Ok (tt, set_pes (<[i := set_retryPktTick (curTick w)
                                   (set_stats (inc_numPackets (stats p)) p)]> (pes w)) w).
Proof.
  intros Hp Hw Hq Hk Hm w1. unfold scheduleReq. pe_step. rewrite Hw, Hq. pe_step.
  rewrite Hm. pe_step. destruct accepted; [done|]. pe_step.
  erewrite upd_pe_run by (wsimpl; apply lookup_insert_eq). wsimpl. by rewrite insert_insert_eq.
Qed.

Lemma front_sending s i p write q rest k :
  pes (world s) !! i = Some p → sending s i p write q rest k →
  front_packet (world s) i = Some k.
Proof.
  intros Hp []. unfold front_packet, front. rewrite Hp, sd_write0, sd_queue0. done.
Qed.

(** ** The port refuses *)

Lemma step_refused k s i t :
  inv k s → enabled s (LSend i t false) →
  ∃ s', sys_step s (LSend i t false) = Ok s' ∧ inv k s'.
Proof.
  intros Hi (Ht & He & p & Hp & Hsr). pose proof (i_time _ _ _ _ Hi) as Hnow.
  destruct (i_pe _ _ _ _ Hi i p Hp) as ([ph Hph] & Hlo0 & Hqs & Hli & _).
  assert (curTick (world s) ≤ t) as Hle.
  { pose proof (lo_sr _ _ _ _ _ _ _ Hlo0) as H. by rewrite Hsr in H. }
  pose proof (local_now _ _ _ _ _ _ _ Hi He Hle Hp) as Hlo.
  destruct (send_ready _ _ _ _ _ Hi Hp Hsr) as (write & q & rest & pk & Hs).
  unfold PESystem.sys_step. rewrite (front_sending _ _ _ _ _ _ _ Hp Hs). destruct Hs.
  rewrite (alter_known _ _ _ _ Hp), sd_mem0. unfold run.
  erewrite scheduleReq_run; [|wsimpl; apply lookup_insert_eq|exact sd_write0|
    exact sd_queue0|exact sd_packet0|done].
  cbn [mbind res_bind]. wsimpl. rewrite insert_insert_eq. eexists. split; [reflexivity|].
  eapply (inv_update _ _ _ _ _ i p); wsimpl; try done; try solve [apply Hi]; try lia.
  - intros j Hne. apply (same_for_other i); wsimpl; [done|done|set_solver|done|done|lia].
  - pose proof (i_ref _ _ _ _ Hi). apply elem_of_dom_2 in Hp. set_solver.
  - exists ph. match goal with |- in_phase _ _ _ ?ref _ ?p' _ =>
      assert (armed ref i p') as Harm by (right; split; [done|set_solver]) end.
    destruct ph; cbn [in_phase] in Hph |- *;
      try (destruct Hph as (_ & [? _] & _); congruence).
    1,2: wsimpl; naive_solver.
    destruct (full (world s)); [wsimpl; naive_solver|destruct Hph as (_ & [? _] & _); congruence].
  - destruct Hlo; constructor; wsimpl; simpl; done.
Qed.

(** ** The port accepts an ordinary packet *)

(** The bookkeeping of the back-pressure statistics. *)
Definition clear_retry (now : Z) (p : PE) : PE :=
  if retryPktTick p =? 0 then p
  else set_retryPktTick 0 (set_stats (add_retryTicks (now - retryPktTick p) (stats p)) p).

Definition sent_unicast (now : Z) (write : bool) (q : positive) (rest : list positive) (p : PE) : PE :=
  clear_retry now
    (set_waitingResp (negb write) (<[q := now]> (waitingResp (negb write) p))
       (set_waitingSend write rest p)).

(** What the PE schedules once the packet is away. *)
Definition after_unicast (now : Z) (write : bool) (rest : list positive) (p : PE) : PE :=
  match rest with
  | [] => if write then set_operateNextEvent (Some (now + 1)) p else p
  | _ => set_scheduleReqEvent (Some (now + 1)) p
  end.

Lemma clear_retry_run i w p now :
  pes w !! i = Some p →
  when (negb (retryPktTick p =? 0))
    (upd_pe i (λ p, set_stats (add_retryTicks (now - retryPktTick p) (stats p)) p) ;;
     upd_pe i (set_retryPktTick 0)) w =
  Ok (tt, set_pes (<[i := clear_retry now p]> (pes w)) w).
Proof.
  intros Hp. unfold clear_retry, when. destruct (retryPktTick p =? 0); cbn [negb].
  - rewrite insert_id by done. by destruct w.
  - pe_step. erewrite upd_pe_run by (wsimpl; apply lookup_insert_eq). wsimpl.
    by rewrite insert_insert_eq.
Qed.

Lemma packet_sent_unicast_run w i p write q rest k :
  pes w !! i = Some p → waitingSend write p = q :: rest →
  rq_broadcast (pk_req k) = false → rq_id (pk_req k) = q →
  pk_cmd k = (if write then WriteReq else ReadReq) →
  operateNextEvent p = None → scheduleReqEvent p = None → 0 ≤ curTick w < horizon →
  broadcast_issuer w ≠ Some i → (write = true → waitingResp_read p = ∅) →
  packet_sent i write k w =
    Ok (tt, set_pes (<[i := after_unicast (curTick w) write rest
                              (sent_unicast (curTick w) write q rest p)]> (pes w)) w).
Proof.
  intros Hp Hq Hb Hid Hc Hop Hsr Ht Hbi Hrr. unfold packet_sent. pe_step. pe_step.
  rewrite Hb. assert (isRead (pk_cmd k) = negb write) as -> by (rewrite Hc; by destruct write).
  rewrite Hid, Hq. cbn [tail]. pe_step.
  assert (∀ x, x = set_waitingResp (negb write) (<[q := curTick w]>
            (waitingResp (negb write) (set_waitingSend write rest p))) (set_waitingSend write rest p) →
          clear_retry (curTick w) x = sent_unicast (curTick w) write q rest p) as Esent
    by (intros x ->; unfold sent_unicast; by destruct write).
  match goal with |- context [<[i := ?x]> (pes w)] => remember x as px eqn:Epx end.
  specialize (Esent px eq_refl). clear Epx. pe_step.
  erewrite M_bind_ok by (eapply (clear_retry_run i _ px); apply lookup_insert_eq).
  cbv beta. wsimpl. rewrite insert_insert_eq, Esent.
  set (p1 := sent_unicast (curTick w) write q rest p).
  assert (waitingSend write p1 = rest) as E1
    by (unfold p1, sent_unicast, clear_retry; destruct (_ =? _), write; done).
  assert (operateNextEvent p1 = None ∧ scheduleReqEvent p1 = None) as [E2 E3]
    by (unfold p1, sent_unicast, clear_retry; destruct (_ =? _), write; done).
  assert (empty_map (waitingResp_read p1) = write) as E4.
  { unfold p1, sent_unicast, clear_retry. destruct (_ =? _), write; wsimpl;
      try (rewrite Hrr by done; done); apply empty_map_false, insert_non_empty. }
  pe_step. pe_step. rewrite E1, E4, bool_decide_false by done. unfold after_unicast.
  destruct rest as [|q' rest].
  - change (empty_queue []) with true. cbv iota. destruct write; [|done].
    erewrite schedule_operateNext_run; [|wsimpl; apply lookup_insert_eq|lia|wsimpl; lia|
      wsimpl; unfold horizon in *; lia|done]. wsimpl. by rewrite insert_insert_eq.
  - change (empty_queue (q' :: rest)) with false. cbv iota.
    erewrite schedule_scheduleReq_run; [|wsimpl; apply lookup_insert_eq|lia|wsimpl; lia|
      wsimpl; unfold horizon in *; lia|done]. wsimpl. by rewrite insert_insert_eq.
Qed.

Lemma owed_insert pk pend i cmd m q k now :
  pk !! q = Some k → pk_cmd k = cmd → owed pk pend i cmd m →
  owed pk ({[(i, q)]} ∪ pend) i cmd (<[q := now]> m).
Proof.
  intros Hk Hc Ho r. destruct (decide (r = q)) as [->|Hne].
  - rewrite lookup_insert_eq. split; [intros _; split; [set_solver|eauto]|eauto].
  - rewrite lookup_insert_ne by done. rewrite (Ho r).
    by rewrite elem_of_union, elem_of_singleton; naive_solver.
Qed.

Lemma owed_insert_other pk pend i cmd m q k :
  pk !! q = Some k → pk_cmd k ≠ cmd → owed pk pend i cmd m →
  owed pk ({[(i, q)]} ∪ pend) i cmd m.
Proof.
  intros Hk Hc Ho r. rewrite (Ho r), elem_of_union, elem_of_singleton.
  split; [naive_solver|]. intros [[[= ->]|Hr] (k' & Hk' & ?)]; [by simplify_eq|eauto].
Qed.

Lemma local_sent now pk pend i p (write : bool) q rest k :
  local_ok now pk pend i p → pk !! q = Some k →
  pk_cmd k = (if write then WriteReq else ReadReq) →
  local_ok now pk ({[(i, q)]} ∪ pend) i
    (after_unicast now write rest (sent_unicast now write q rest p)).
Proof.
  intros [] Hk Hc. assert (ReadReq ≠ WriteReq) by done.
  assert (Hgen : ∀ p', pe_params p' = pe_params p → traffic_list p' = traffic_list p →
    cur_traffic p' = cur_traffic p → not_before now (operateNextEvent p') →
    not_before now (scheduleReqEvent p') →
    waitingResp (negb write) p' = <[q := now]> (waitingResp (negb write) p) →
    waitingResp write p' = waitingResp write p →
    local_ok now pk ({[(i, q)]} ∪ pend) i p').
  { intros p' E1 E2 E3 E4 E5 E6 E7. destruct write; cbn in E6, E7;
      constructor; rewrite ?E1, ?E2, ?E3, ?E6, ?E7; try done;
      (by eapply owed_insert) || (eapply owed_insert_other; [done|congruence|done]) ||
      (apply map_Forall_insert_2; [lia|done]). }
  apply Hgen; unfold after_unicast, sent_unicast, clear_retry;
    destruct rest, write; wsimpl; destruct (retryPktTick p =? 0); wsimpl; simpl; try done; lia.
Qed.

(** Fields [sent_unicast] and [after_unicast] determine. *)
Lemma after_unicast_fields now write q rest p :
  let p' := after_unicast now write rest (sent_unicast now write q rest p) in
  pe_params p' = pe_params p ∧ traffic_list p' = traffic_list p ∧
  cur_traffic p' = cur_traffic p ∧
  waitingSend write p' = rest ∧ waitingSend (negb write) p' = waitingSend (negb write) p ∧
  waitingResp (negb write) p' = <[q := now]> (waitingResp (negb write) p) ∧
  waitingResp write p' = waitingResp write p ∧
  operateNextEvent p' = (match rest with [] => if write then Some (now + 1) else operateNextEvent p
                         | _ => operateNextEvent p end) ∧
  scheduleReqEvent p' = (match rest with [] => scheduleReqEvent p | _ => Some (now + 1) end).
Proof.
  unfold after_unicast, sent_unicast, clear_retry.
  destruct rest, write; wsimpl; destruct (retryPktTick p =? 0); wsimpl; done.
Qed.

Lemma step_accepted_unicast k s i p t write q rest pk :
  inv k s → pes (world s) !! i = Some p → scheduleReqEvent p = Some t → t < horizon →
  earliest t (world s) → sending s i p write q rest pk → i ∉ rdy_sync_list (world s) →
  ∃ s', sys_step s (LSend i t true) = Ok s' ∧ inv k s'.
Proof.
  intros Hi Hp Hsr Ht He Hs HR. pose proof (i_time _ _ _ _ Hi) as Hnow.
  destruct (i_pe _ _ _ _ Hi i p Hp) as (_ & Hlo0 & [Hqr Hqw] & Hli & _).
  assert (curTick (world s) ≤ t) as Hle.
  { pose proof (lo_sr _ _ _ _ _ _ _ Hlo0) as H. by rewrite Hsr in H. }
  pose proof (local_now _ _ _ _ _ _ _ Hi He Hle Hp) as Hlo.
  unfold PESystem.sys_step. rewrite (front_sending _ _ _ _ _ _ _ Hp Hs). destruct Hs.
  rewrite (alter_known _ _ _ _ Hp), sd_mem0. unfold run, targets.
  rewrite sd_bcast0, bool_decide_false, sd_id0, set_map_singleton_L by done.
  erewrite scheduleReq_run; [|wsimpl; apply lookup_insert_eq|exact sd_write0|
    exact sd_queue0|exact sd_packet0|done].
  wsimpl. rewrite insert_insert_eq.
  set (p0 := set_stats (inc_numPackets (stats p)) (set_scheduleReqEvent None p)).
  assert (broadcast_issuer (world s) ≠ Some i) as Hbi.
  { rewrite (i_bcast _ _ _ _ Hi). intros Eb. by case_bool_decide; simplify_eq. }
  erewrite (packet_sent_unicast_run _ i p0 write q rest);
    [|apply lookup_insert_eq|exact sd_queue0|by rewrite sd_bcast0, bool_decide_false|done|done|
     exact sd_op0|done|wsimpl; lia|exact Hbi|exact sd_reads0].
  cbn [mbind res_bind]. wsimpl. rewrite insert_insert_eq. eexists. split; [reflexivity|].
  assert (Hlo' : local_ok t (packets (world s)) ({[(i, q)]} ∪ pending s) i
     (after_unicast t write rest (sent_unicast t write q rest p0))).
  { eapply local_sent; [|done|done]. destruct Hlo; constructor; done. }
  destruct (after_unicast_fields t write q rest p0) as (F1 & F2 & F3 & F4 & F5 & F6 & F7 & F8 & F9).
  set (p' := after_unicast t write rest (sent_unicast t write q rest p0)) in *. clearbody p'.
  eapply (inv_update _ _ _ _ _ i p); wsimpl; try done; try solve [apply Hi]; try lia.
  - intros j Hne. apply (same_for_other i); wsimpl; try done.
    intros r. rewrite elem_of_union, elem_of_singleton.
    split; [by right|]. by intros [[= ]|].
  - intros r. rewrite elem_of_union, elem_of_singleton. intros [[= ->]|Hr].
    + exists pk. split; [done|]. destruct write; naive_solver.
    + by apply (i_pend _ _ _ _ Hi) in Hr as [_ ?].
  - destruct rest as [|q' rest], write; cbn in sd_other0, F4, F5, F6, F7, F8, F9;
      [exists Ready|exists Waiting|exists SendingW|exists SendingR]; cbn [in_phase];
      unfold armed, unarmed; rewrite ?F4, ?F5, ?F6, ?F7, ?F8, ?F9, ?sd_other0, ?sd_op0;
      split_and!; try done; try (by apply sd_reads0); try apply insert_non_empty; try (by left).
  - destruct write; cbn in sd_queue0, F4, F5; rewrite sd_queue0 in *;
      (split; [rewrite ?F4, ?F5|rewrite ?F4, ?F5]; try done);
      by apply Forall_cons in Hqr as [_ ?] || by apply Forall_cons in Hqw as [_ ?].
  - destruct Hli as [[Hl _]|(_ & _ & _ & Eqr & Eqw & _)].
    + left. unfold getCoordinate in *. rewrite F1. split; [exact Hl|]. intros Eo Er Ew Em.
      destruct rest, write; cbn in F4, F6, F8; try congruence.
      rewrite F6 in Em. by apply insert_non_empty in Em.
    + destruct write; cbn in sd_queue0; congruence.
  - unfold barriers_left. by rewrite F2, F3.
Qed.
End send.
