(* ===== verification/PEBcast.v ===== *)
(** * Broadcasts keep the invariant

    A packet of a broadcast is accepted: every PE waits for its response; with
    the last one the barrier opens. *)
From stdpp Require Import base tactics list gmap strings sets.
From Stdlib Require Import ZArith Lia.
From S2P Require Import Prelude MemCmd TrafficPattern PE PESystem PEInv PERun PEFrame PESteps PESend.
Local Open Scope Z_scope.

(** What the issuer's loop does to each PE. *)
Definition awaits (q : positive) (now : Z) (p : PE) : PE :=
  set_waitingResp true (<[q := now]> (waitingResp_read p)) p.

Lemma awaits_loop q now l w :
  (∀ j, j ∈ l → is_Some (pes w !! j)) →
  ∃ m, for_each l (λ i, p ← get_pe i;
         upd_pe i (set_waitingResp true (<[q := now]> (waitingResp_read p)))) w =
         Ok (tt, set_pes m w) ∧
    ∀ j, m !! j = if bool_decide (j ∈ l) then awaits q now <$> pes w !! j else pes w !! j.
Proof.
  revert w. induction l as [|i l IH]; intros w Hl; cbn [for_each].
  - exists (pes w). split; [by destruct w|]. intros j.
    by rewrite bool_decide_false by apply not_elem_of_nil.
  - destruct (Hl i ltac:(by left)) as [p Hp].
    erewrite M_bind_ok; [|pe_step; eapply upd_pe_run; exact Hp]. cbv beta.
    change (set_waitingResp true _ p) with (awaits q now p).
    destruct (IH (set_pes (<[i := awaits q now p]> (pes w)) w)) as (m & Hm & Hlk).
    { intros j Hj. wsimpl. destruct (decide (j = i)) as [->|].
      - rewrite lookup_insert_eq. eauto.
      - rewrite lookup_insert_ne by done. apply Hl. by right. }
    exists m. split; [exact Hm|]. intros j. rewrite Hlk. wsimpl.
    destruct (decide (j = i)) as [->|Hne].
    + rewrite lookup_insert_eq, Hp, (bool_decide_true (i ∈ i :: l)) by (by left).
      case_bool_decide; [|done]. cbn. f_equal. unfold awaits. wsimpl. by rewrite insert_insert_eq.
    + rewrite lookup_insert_ne by done.
      by rewrite (bool_decide_ext (j ∈ i :: l) (j ∈ l)) by (rewrite elem_of_cons; naive_solver).
Qed.

Section bcast.
Context (isMemAddr : Z → bool) (issuer : nat).
Local Abbreviation inv := (inv isMemAddr issuer).
Local Abbreviation pe_ok := (pe_ok isMemAddr issuer).
Local Abbreviation local_ok := (local_ok isMemAddr issuer).
Local Abbreviation sys_step := (sys_step isMemAddr).

(** As long as a barrier is open, no PE has left the list of PEs. *)
Lemma all_listed k s i :
  inv k s → i ∈ rdy_sync_list (world s) →
  ∀ j p, pes (world s) !! j = Some p → pe_list (world s) !! getCoordinate p = Some j.
Proof.
  intros Hi HR j p Hp. destruct (i_pe _ _ _ _ Hi j p Hp) as (_ & _ & _ & [[? _]|H] & Hk); [done|].
  destruct H as (_ & HRj & Hc & _). exfalso.
  destruct (no_barrier_open _ _ _ _ _ _ Hi Hp HRj Hc) as [E _]. rewrite E in HR. set_solver.
Qed.

Lemma in_list k s i :
  inv k s → i ∈ rdy_sync_list (world s) →
  ∀ j, j ∈ (map_to_list (pe_list (world s))).*2 ↔ is_Some (pes (world s) !! j).
Proof.
  intros Hi HR j. rewrite list_elem_of_fmap. split.
  - intros ([c j'] & -> & Hin%elem_of_map_to_list).
    destruct (i_list _ _ _ _ Hi _ _ Hin) as (p & Hp & _). eauto.
  - intros [p Hp]. exists (getCoordinate p, j). split; [done|].
    apply elem_of_map_to_list. by eapply all_listed.
Qed.

(** A broadcast read of [q] sent by the issuer [i]: all PEs wait for it. *)
Lemma packet_sent_bcast_run s w i p q rest k kk :
  inv kk s → i ∈ rdy_sync_list (world s) →
  pes w = <[i := p]> (pes (world s)) → pe_list w = pe_list (world s) →
  is_Some (pes (world s) !! i) →
  waitingSend_read p = q :: rest → rq_broadcast (pk_req k) = true → rq_id (pk_req k) = q →
  operateNextEvent p = None → scheduleReqEvent p = None → 0 ≤ curTick w < horizon →
  broadcast_issuer w = Some i →
  let p1 := clear_retry (curTick w) (awaits q (curTick w) (set_waitingSend false rest p)) in
  let m := awaits q (curTick w) <$> pes (world s) in
  packet_sent i false k w =
    Ok (tt, match rest with
            | [] => set_sync ∅ None (set_pes (<[i := p1]> m) w)
            | _ => set_pes (<[i := set_scheduleReqEvent (Some (curTick w + 1)) p1]> m) w
            end).
Proof.
  intros Hi HR Hps Hpl [pold Hpold] Hq Hb Hid Hop Hsr Ht Hbi p1 m.
  assert (Hp : pes w !! i = Some p) by (rewrite Hps; apply lookup_insert_eq).
  unfold packet_sent. pe_step. pe_step. rewrite Hb, Hid, Hq. cbn [tail].
  set (p0 := set_waitingSend false rest p).
  destruct (awaits_loop q (curTick w) (map_to_list (pe_list w)).*2
              (set_pes (<[i := p0]> (pes w)) w)) as (m' & Hloop & Hlk).
  { intros j. rewrite Hpl, (in_list _ _ _ Hi HR). intros [pj Hj]. wsimpl.
    rewrite Hps, insert_insert_eq. destruct (decide (j = i)) as [->|];
      [rewrite lookup_insert_eq|rewrite lookup_insert_ne by done]; eauto. }
  assert (m' = <[i := awaits q (curTick w) p0]> m) as ->.
  { apply map_eq. intros j. rewrite Hlk. wsimpl. rewrite Hps, insert_insert_eq.
    destruct (decide (j = i)) as [->|Hne].
    - rewrite !lookup_insert_eq, bool_decide_true; [done|].
      rewrite Hpl. apply (in_list _ _ _ Hi HR). eauto.
    - rewrite !lookup_insert_ne by done. unfold m. rewrite lookup_fmap, Hpl.
      destruct (pes (world s) !! j) eqn:E; [|by case_bool_decide].
      rewrite bool_decide_true; [done|]. apply (in_list _ _ _ Hi HR). eauto. }
  erewrite M_bind_ok by (unfold await_broadcast; erewrite M_bind_ok by reflexivity; exact Hloop).
  cbv beta. wsimpl. remember (awaits q (curTick w) p0) as pa eqn:Epa. pe_step.
  erewrite M_bind_ok by (eapply (clear_retry_run i _ pa); apply lookup_insert_eq).
  cbv beta. wsimpl. rewrite insert_insert_eq. rewrite Epa. unfold p0. fold p1.
  assert (waitingSend_read p1 = rest ∧ operateNextEvent p1 = None ∧ scheduleReqEvent p1 = None ∧
          waitingResp_read p1 ≠ ∅) as (E1 & E2 & E3 & E4).
  { unfold p1, clear_retry. destruct (_ =? _); wsimpl; split_and!; try done; apply insert_non_empty. }
  pe_step. pe_step. rewrite E1, (proj2 (empty_map_false _) E4), Hbi, bool_decide_true by done.
  destruct rest as [|q' rest].
  - done.
  - change (empty_queue (q' :: rest)) with false. cbv iota.
    erewrite schedule_scheduleReq_run; [|wsimpl; apply lookup_insert_eq|lia|wsimpl; lia|
      wsimpl; unfold horizon in *; lia|done]. wsimpl. by rewrite insert_insert_eq.
Qed.

Lemma local_awaits now pk pend pend' j p q k :
  local_ok now pk pend j p → pk !! q = Some k → pk_cmd k = ReadReq →
  (∀ r, (j, r) ∈ {[(j, q)]} ∪ pend ↔ (j, r) ∈ pend') →
  local_ok now pk pend' j (awaits q now p).
Proof.
  intros [] Hk Hc He. constructor; unfold awaits; wsimpl; try done.
  - eapply owed_ext; [done|]. by eapply owed_insert.
  - eapply owed_ext; [done|]. eapply owed_insert_other; [done|congruence|done].
  - apply map_Forall_insert_2; [lia|done].
Qed.

(** The PEs after a broadcast packet: the issuer's is [pi]. *)
Lemma bcast_pe_fields i pi q now (m : gmap nat PE) j p' :
  <[i := pi]> (awaits q now <$> m) !! j = Some p' →
  (j = i ∧ p' = pi) ∨ (j ≠ i ∧ ∃ p, m !! j = Some p ∧ p' = awaits q now p).
Proof.
  intros [[-> ->]|[Hne Hj]]%lookup_insert_Some; [by left|right].
  split; [done|]. rewrite lookup_fmap in Hj. destruct (m !! j); [|done]. cbn in Hj. naive_solver.
Qed.

Lemma full_all w i : full w = true → i ∈ dom (pes w) → i ∈ rdy_sync_list w.
Proof. unfold full. intros ->%bool_decide_eq_true. done. Qed.

(** One packet [q] of a broadcast: [p] is the issuer before it is sent, [p1]
    after it was taken from the queue. *)
Section one_packet.
Context (k : Z) (s : Sys) (p p1 : PE) (t : Z) (q : positive) (rest : list positive).
Context (pk : Packet) (pend' : gset (nat * positive)).
Hypothesis Hi : inv k s.
Hypothesis Hp : pes (world s) !! issuer = Some p.
Hypothesis HR : issuer ∈ rdy_sync_list (world s).
Hypothesis Hfull : full (world s) = true.
Hypothesis Htime : curTick (world s) ≤ t < horizon.
Hypothesis He : earliest t (world s).
Hypothesis Hq : waitingSend_read p = q :: rest.
Hypothesis Hw : waitingSend_write p = [].
Hypothesis Hpk : packets (world s) !! q = Some pk.
Hypothesis Hcmd : pk_cmd pk = ReadReq.
Hypothesis Href : issuer ∉ refused s.
Hypothesis Hpend : ∀ j r, (j, r) ∈ pend' ↔
  (r = q ∧ j ∈ dom (pes (world s))) ∨ (j, r) ∈ pending s.
Hypothesis Hp1 : pe_params p1 = pe_params p ∧ traffic_list p1 = traffic_list p ∧
  cur_traffic p1 = cur_traffic p ∧ waitingSend_read p1 = rest ∧ waitingSend_write p1 = [] ∧
  waitingResp_read p1 = <[q := t]> (waitingResp_read p) ∧
  waitingResp_write p1 = waitingResp_write p ∧
  operateNextEvent p1 = None ∧ scheduleReqEvent p1 = None.

(** The state after the packet, with [pi] the issuer and the barrier [R], [B]. *)
Local Definition bstate (pi : PE) (R : gset nat) (B : option nat) : Sys :=
  mkSys (mkWorld t (<[issuer := pi]> (awaits q t <$> pes (world s)))
           (pe_list (world s)) R B (packets (world s)) (next_packet (world s))
           (next_request (world s)) (exits (world s))) pend' (refused s).

Lemma bcast_dom pi R B : dom (pes (world (bstate pi R B))) = dom (pes (world s)).
Proof. cbn. rewrite dom_insert_L, dom_fmap_L. apply elem_of_dom_2 in Hp. set_solver. Qed.

Lemma bcast_local j pj :
  pes (world s) !! j = Some pj →
  local_ok t (packets (world s)) pend' j (awaits q t pj).
Proof.
  intros Hj. eapply (local_awaits _ _ (pending s)); [|done|done|].
  - eapply local_now; [done..|lia|done].
  - intros r. rewrite Hpend, elem_of_union, elem_of_singleton.
    pose proof (elem_of_dom_2 _ _ _ Hj). naive_solver.
Qed.

Lemma bcast_local_issuer pi :
  pe_params pi = pe_params p → traffic_list pi = traffic_list p →
  cur_traffic pi = cur_traffic p → operateNextEvent pi = None →
  not_before t (scheduleReqEvent pi) →
  waitingResp_read pi = <[q := t]> (waitingResp_read p) →
  waitingResp_write pi = waitingResp_write p →
  local_ok t (packets (world s)) pend' issuer pi.
Proof.
  intros E1 E2 E3 E4 E5 E6 E7. pose proof (bcast_local _ _ Hp) as Hlo.
  eapply local_ok_ext; [exact Hlo|done|done| | |done..]; [rewrite E3; apply Hlo|by rewrite E4].
Qed.

(** The other PEs stand at the barrier. *)
Lemma bcast_others j pj :
  j ≠ issuer → pes (world s) !! j = Some pj →
  in_phase issuer true (rdy_sync_list (world s)) (refused s) j pj Synced ∧
  barriers_left pj + 1 = k.
Proof.
  intros Hne Hj. destruct (i_pe _ _ _ _ Hi j pj Hj) as ([ph' Hph'] & _ & _ & _ & Hk).
  assert (j ∈ rdy_sync_list (world s)) as HRj
    by (apply full_all; [done|by eapply elem_of_dom_2]).
  rewrite bool_decide_true in Hk by done. rewrite Hfull in Hph'. split; [|done].
  destruct ph'; try done; cbn [in_phase] in Hph'; naive_solver.
Qed.

Lemma bcast_listed j pj p' rdy :
  pes (world s) !! j = Some pj → pe_params p' = pe_params pj →
  j ∈ rdy ∨ waitingResp_read p' ≠ ∅ → listed_ok (pe_list (world s)) rdy j p'.
Proof.
  intros Hj E Hor. left. split; [|naive_solver].
  unfold getCoordinate. rewrite E. by eapply (all_listed _ _ _ Hi HR).
Qed.

Lemma bcast_build pi R B k' :
  pe_params pi = pe_params p → R ⊆ dom (pes (world s)) →
  B = (if bool_decide (issuer ∈ R) then Some issuer else None) →
  pe_ok k' (bstate pi R B) issuer pi →
  (∀ j pj, j ≠ issuer → pes (world s) !! j = Some pj →
     pe_ok k' (bstate pi R B) j (awaits q t pj)) →
  inv k' (bstate pi R B).
Proof.
  intros Epar HRd HB Hok1 Hok2. pose proof (i_time _ _ _ _ Hi).
  apply (inv_build _ _ k k' s); [done|apply bcast_dom|..]; cbn;
    try done; try solve [apply Hi]; try lia.
  - intros j pj p' Hj [[-> ->]|(_ & pj' & Hj' & ->)]%bcast_pe_fields; [congruence|].
    by simplify_eq.
  - intros j p' [[-> ->]|(Hne & pj' & Hj' & ->)]%bcast_pe_fields; [done|]. by apply Hok2.
  - intros j r [[-> Hj]|Hjr]%Hpend; [eauto|].
    destruct (i_pend _ _ _ _ Hi _ _ Hjr). by rewrite elem_of_dom.
Qed.

Lemma bcast_more k2 pi :
  k2 = k → rest ≠ [] → pi = set_scheduleReqEvent (Some (t + 1)) p1 →
  inv k2 (bstate pi (rdy_sync_list (world s)) (broadcast_issuer (world s))).
Proof.
  intros -> Hrest ->. destruct Hp1 as (F1 & F2 & F3 & F4 & F5 & F6 & F7 & F8 & F9).
  destruct (i_pe _ _ _ _ Hi issuer p Hp) as (_ & _ & [Hqr _] & _ & Hk).
  apply bcast_build; [done|apply Hi|apply Hi|..].
  - split_and!.
    + exists Issuing. rewrite (full_same (world s)), Hfull by (apply bcast_dom || done).
      cbn [in_phase]. wsimpl. rewrite F4, F5, F8. split_and!; try done. by left.
    + apply bcast_local_issuer; wsimpl; try done. simpl. lia.
    + unfold queues_ok. wsimpl. cbn. rewrite F4, F5. rewrite Hq in Hqr.
      by apply Forall_cons in Hqr as [_ ?].
    + eapply bcast_listed; [exact Hp|done|by left].
    + unfold barriers_left in *. wsimpl. by rewrite F2, F3.
  - intros j pj Hnj Hj. destruct (bcast_others j pj Hnj Hj) as [Hph Hkj]. pose proof Hph as (_ & _ & H3 & H4 & _ & HRj & _).
    split_and!.
    + exists Synced. rewrite (full_same (world s)), Hfull by (apply bcast_dom || done).
      cbn [in_phase] in *. wsimpl. naive_solver.
    + by apply bcast_local.
    + unfold queues_ok, awaits. wsimpl. rewrite H3, H4. done.
    + eapply bcast_listed; [exact Hj|done|by left].
    + cbn. by rewrite bool_decide_true.
Qed.

Lemma bcast_last :
  rest = [] → inv (k - 1) (bstate p1 ∅ None).
Proof.
  intros Hrest. destruct Hp1 as (F1 & F2 & F3 & F4 & F5 & F6 & F7 & F8 & F9).
  destruct (i_pe _ _ _ _ Hi issuer p Hp) as (_ & _ & _ & _ & Hk).
  rewrite bool_decide_true in Hk by done.
  assert (Hne : ∀ pj, waitingResp_read (awaits q t pj) ≠ ∅) by (intros; apply insert_non_empty).
  apply bcast_build; [done|set_solver|done|..].
  - split_and!.
    + exists Waiting. cbn [in_phase]. unfold unarmed. rewrite F4, F5, F6, F8, F9.
      split_and!; try done; apply insert_non_empty.
    + apply bcast_local_issuer; try done. by rewrite F9.
    + unfold queues_ok. by rewrite F4, F5, Hrest.
    + eapply bcast_listed; [exact Hp|done|right; rewrite F6; apply insert_non_empty].
    + change (rdy_sync_list _) with (∅ : gset nat). rewrite bool_decide_false by set_solver.
      unfold barriers_left in *. rewrite F2, F3. simpl in *. lia.
  - intros j pj Hnj Hj. destruct (bcast_others j pj Hnj Hj) as [(H1 & H2 & H3 & H4 & _) Hkj].
    split_and!.
    + exists Waiting. split_and!; try done; apply Hne.
    + by apply bcast_local.
    + unfold queues_ok, awaits. wsimpl. rewrite H3, H4. done.
    + eapply bcast_listed; [exact Hj|done|by right].
    + change (rdy_sync_list _) with (∅ : gset nat). rewrite bool_decide_false by set_solver.
      change (barriers_left (awaits q t pj)) with (barriers_left pj). simpl. lia.
Qed.
End one_packet.

Lemma step_accepted_bcast k s i p t write q rest pk :
  inv k s → pes (world s) !! i = Some p → scheduleReqEvent p = Some t → t < horizon →
  earliest t (world s) → sending isMemAddr issuer s i p write q rest pk →
  i ∈ rdy_sync_list (world s) →
  ∃ s' k', sys_step s (LSend i t true) = Ok s' ∧ inv k' s'.
Proof.
  intros Hi Hp Hsr Ht He Hs HR. pose proof (i_time _ _ _ _ Hi) as Hnow.
  destruct (i_pe _ _ _ _ Hi i p Hp) as ([ph Hph] & Hlo0 & _).
  assert (curTick (world s) ≤ t) as Hle.
  { pose proof (lo_sr _ _ _ _ _ _ _ Hlo0) as H. by rewrite Hsr in H. }
  unfold PESystem.sys_step. rewrite (front_sending _ _ _ _ _ _ _ _ _ Hp Hs). destruct Hs.
  destruct (sd_issuer HR) as [-> Hfull]. rewrite bool_decide_true in sd_bcast by done.
  assert (write = false) as ->.
  { destruct write; [|done]. exfalso. destruct ph; cbn [in_phase] in Hph; naive_solver. }
  rewrite (alter_known _ _ _ _ Hp), sd_mem. unfold run, targets. rewrite sd_bcast, sd_id.
  erewrite scheduleReq_run; [|wsimpl; apply lookup_insert_eq|exact sd_write|
    exact sd_queue|exact sd_packet|done].
  wsimpl. rewrite insert_insert_eq.
  set (p0 := set_stats (inc_numPackets (stats p)) (set_scheduleReqEvent None p)).
  assert (Hbi : broadcast_issuer (world s) = Some issuer)
    by (rewrite (i_bcast _ _ _ _ Hi); by rewrite bool_decide_true).
  erewrite (packet_sent_bcast_run s _ issuer p0 q rest pk k Hi HR);
    [|done|done|eauto|exact sd_queue|done|done|exact sd_op|done|wsimpl; lia|exact Hbi].
  wsimpl. set (p1 := clear_retry t (awaits q t (set_waitingSend false rest p0))).
  assert (Hp1 : pe_params p1 = pe_params p ∧ traffic_list p1 = traffic_list p ∧
     cur_traffic p1 = cur_traffic p ∧ waitingSend_read p1 = rest ∧ waitingSend_write p1 = [] ∧
     waitingResp_read p1 = <[q := t]> (waitingResp_read p) ∧
     waitingResp_write p1 = waitingResp_write p ∧
     operateNextEvent p1 = None ∧ scheduleReqEvent p1 = None).
  { unfold p1, clear_retry. destruct (_ =? _); done. }
  set (pend' := set_map (λ j : nat, (j, q)) _ ∪ pending s).
  assert (Hpend : ∀ j r, (j, r) ∈ pend' ↔
            (r = q ∧ j ∈ dom (pes (world s))) ∨ (j, r) ∈ pending s).
  { intros j r. unfold pend'. rewrite !elem_of_union, elem_of_map, elem_of_dom.
    setoid_rewrite elem_of_list_to_set. setoid_rewrite (in_list _ _ _ Hi HR). naive_solver. }
  destruct (decide (rest = [])) as [->|Hrest]; cbn [mbind res_bind].
  - eexists _, (k - 1). split; [reflexivity|].
    by eapply (bcast_last k s p p1 t q [] pk pend').
  - destruct rest as [|q' rest]; [done|]. eexists _, k. split; [reflexivity|].
    by eapply (bcast_more k s p p1 t q (q' :: rest) pk pend').
Qed.
End bcast.
