(* ===== verification/PEIssue.v ===== *)
(** * How a traffic entry becomes packets

    The READ/WRITE branch of [operateTraffic] splits an entry into cache-line
    packets.  The lemmas below give the packets exactly; the theorems say which
    bytes they cover. *)
From stdpp Require Import base tactics list gmap strings sets.
From Stdlib Require Import ZArith Lia.
From S2P Require Import Prelude MemCmd TrafficPattern PE PESystem PEInv PERun.
Local Open Scope Z_scope.

(** The packet heap is numbered: every packet is stored under the id of its
    request, below the next free one. *)
Definition numbered (pk : gmap positive Packet) (np nr : positive) : Prop :=
  np = nr ∧ ∀ q k, pk !! q = Some k → (q < np)%positive ∧ rq_id (pk_req k) = q.

(** The packet [getPacket] makes for the PE with parameters [c]. *)
Definition line_packet (c : PEParams) (cmd : Command) (bc : bool) (addr : Z) (q : positive) : Packet :=
  let line := u32 (cache_line_size c) in
  mkPacket cmd
    (mkRequest q addr line (requestorId c) (u64 (Z.shiftl (requestorId c) 2)) bc)
    (replicate (Z.to_nat line) (if isWrite cmd then Some (requestorId c mod 2 ^ 8) else None)).

Lemma numbered_fresh pk np nr : numbered pk np nr → pk !! np = None.
Proof.
  intros [_ H]. destruct (pk !! np) eqn:E; [|done]. destruct (H _ _ E). lia.
Qed.

Lemma numbered_insert pk np nr k :
  numbered pk np nr → rq_id (pk_req k) = np →
  numbered (<[np := k]> pk) (Pos.succ np) (Pos.succ nr).
Proof.
  intros [-> H] Hid. split; [done|]. intros q k'.
  intros [[<- <-]|[_ Hq]]%lookup_insert_Some; [split; [lia|done]|].
  destruct (H _ _ Hq). split; [lia|done].
Qed.

(** The state after some packets were queued. *)
Definition queued_state (i : nat) (wr : bool) (p : PE) (new : list positive)
    (pk : gmap positive Packet) (np : positive) (w : World) : World :=
  set_packets pk np np
    (set_pes (<[i := set_waitingSend wr (waitingSend wr p ++ new) p]> (pes w)) w).

Lemma set_waitingSend_id wr p : set_waitingSend wr (waitingSend wr p) p = p.
Proof. by destruct p, wr. Qed.

Lemma set_packets_id w np nr :
  np = next_packet w → nr = next_request w →
  w = set_packets (packets w) np nr (set_pes (pes w) w).
Proof. intros -> ->. by destruct w. Qed.

Section issue.
Context (i : nat) (w : World) (p : PE) (wr : bool) (cmd : Command) (bc : bool) (base : Z).
Let c := pe_params p.
Let line := cache_line_size c.
Hypothesis Hp : pes w !! i = Some p.
Hypothesis Hnum : numbered (packets w) (next_packet w) (next_request w).

Definition issue_body (j : Z) : M World unit :=
  pkt ← getPacket i (u64 (base + u64 (j * line))) (u32 line) cmd;
  when bc (setBroadcast pkt) ;;
  upd_pe i (λ p, set_waitingSend wr (waitingSend wr p ++ [pkt]) p).

Definition issue_inv (j : Z) (w' : World) : Prop :=
  ∃ new pk np, w' = queued_state i wr p new pk np w ∧ Z.of_nat (length new) = j ∧
    packets w ⊆ pk ∧ numbered pk np np ∧
    ∀ m q, new !! m = Some q →
      pk !! q = Some (line_packet c cmd bc (u64 (base + u64 (Z.of_nat m * line))) q).

Lemma issue_body_step j w' :
  0 ≤ j → issue_inv j w' → ∃ w'', issue_body j w' = Ok (tt, w'') ∧ issue_inv (j + 1) w''.
Proof.
  intros Hj (new & pk & np & -> & Hlen & Hsub & Hn & Hnew).
  set (k := line_packet c cmd bc (u64 (base + u64 (j * line))) np).
  exists (queued_state i wr p (new ++ [np]) (<[np := k]> pk) (Pos.succ np) w).
  pose proof (numbered_fresh _ _ _ Hn) as Hfresh. split.
  - unfold issue_body, getPacket, queued_state. wsimpl. rewrite M_bind_assoc. pe_step.
    do 2 (rewrite ?M_bind_assoc; pe_step). erewrite M_bind_ok by reflexivity. cbv beta. wsimpl.
    erewrite (M_bind_ok _ _ _ tt
      (set_packets (<[np := k]> pk) (Pos.succ np) (Pos.succ np)
        (set_pes (<[i := set_waitingSend wr (waitingSend wr p ++ new) p]> (pes w)) w))).
    2:{ unfold when. destruct bc; [|destruct wr; done].
        unfold setBroadcast. pe_step. unfold modify. wsimpl. rewrite insert_insert_eq.
        destruct wr; done. }
    erewrite upd_pe_run by (wsimpl; apply lookup_insert_eq). wsimpl. rewrite insert_insert_eq.
    destruct wr; wsimpl; by rewrite <-app_assoc.
  - exists (new ++ [np]), (<[np := k]> pk), (Pos.succ np). split_and!; [done|..].
    + rewrite length_app. simpl. lia.
    + etrans; [exact Hsub|]. by apply insert_subseteq.
    + by apply numbered_insert.
    + intros m q [Hm|[Hm Hq]]%lookup_app_Some.
      * rewrite lookup_insert_ne; [by apply Hnew|]. intros ->.
        specialize (Hnew _ _ Hm). congruence.
      * apply list_lookup_singleton_Some in Hq as [Hm' <-]. rewrite lookup_insert_eq.
        unfold k. by replace (Z.of_nat m) with j by lia.
Qed.

Lemma issue_loop n :
  0 ≤ n → ∃ w', for_up 0 n issue_body w = Ok (tt, w') ∧ issue_inv n w'.
Proof.
  intros Hn. destruct (for_up_inv issue_inv issue_body 0 n w) as (w' & E & HI).
  - exists [], (packets w), (next_packet w). destruct Hnum as [E Hn']. split_and!; try done.
    + unfold queued_state. rewrite app_nil_r.
      rewrite set_waitingSend_id, insert_id by done. apply set_packets_id; congruence.
  - intros j w' Hj HI. apply issue_body_step; [lia|done].
  - exists w'. split; [done|]. by replace n with (0 `max` n) by lia.
Qed.
End issue.

Section entry.
Context (isMemAddr : Z → bool) (line : Z) (e : TrafficPattern.Traffic).
Hypothesis Hline : 0 < line < 2 ^ 29.
Hypothesis He : transfer_ok isMemAddr line e.
Local Abbreviation size := (TrafficPattern.size e).
Local Abbreviation addr := (TrafficPattern.addr e).

Lemma entry_size :
  u32 (if size <=? line then line else size) = Z.max size line.
Proof.
  destruct He. unfold u32. destruct (Z.leb_spec size line); rewrite Z.mod_small; lia.
Qed.

Lemma addr_mod : 0 ≤ addr mod line < line.
Proof. apply Z.mod_pos_bound. lia. Qed.

Lemma entry_total :
  (if addr mod line =? 0 then Z.max size line else u32 (Z.max size line + addr mod line)) =
  Z.max size line + addr mod line.
Proof.
  pose proof addr_mod. destruct He. destruct (Z.eqb_spec (addr mod line) 0); [lia|].
  unfold u32. rewrite Z.mod_small; lia.
Qed.

Lemma entry_base_ok :
  (if addr mod line =? 0 then addr else u64 (addr - addr mod line)) = entry_base line e.
Proof.
  pose proof addr_mod. destruct He. unfold entry_base.
  destruct (Z.eqb_spec (addr mod line) 0); [lia|].
  apply u64_small. pose proof (Z.mod_le addr line ltac:(lia) ltac:(lia)). lia.
Qed.

Lemma entry_lines_bounds :
  1 ≤ entry_lines line e < 2 ^ 31 ∧ entry_lines line e * line ≤ Z.max size line + addr mod line.
Proof.
  pose proof addr_mod. destruct He. unfold entry_lines.
  set (a := Z.max size line + addr mod line).
  pose proof (Z.mul_div_le a line ltac:(lia)). split; [split|lia].
  - apply Z.div_le_lower_bound; lia.
  - apply Z.div_lt_upper_bound; unfold a; nia.
Qed.

Lemma entry_line_addr j :
  0 ≤ j < entry_lines line e →
  u64 (entry_base line e + u64 (j * line)) = entry_base line e + j * line.
Proof.
  intros Hj. pose proof addr_mod. pose proof entry_lines_bounds. destruct He.
  assert (j * line + line ≤ entry_lines line e * line) by nia. unfold entry_base.
  pose proof (Z.mod_le addr line ltac:(lia) ltac:(lia)).
  rewrite (u64_small (j * line)) by lia. apply u64_small. lia.
Qed.
End entry.

(** [issue] of a transfer: one packet per cache line, then the barrier or the
    sending event. *)
Lemma issue_run isMemAddr i w p e :
  pes w !! i = Some p → numbered (packets w) (next_packet w) (next_request w) →
  0 < cache_line_size (pe_params p) < 2 ^ 29 →
  transfer_ok isMemAddr (cache_line_size (pe_params p)) e →
  let line := cache_line_size (pe_params p) in
  let rd := bool_decide (TrafficPattern.type e = TrafficPattern.READ) in
  let bc := bool_decide (TrafficPattern.response e = TrafficPattern.BROADCAST) in
  let cmd := if rd then ReadReq else WriteReq in
  ∃ new pk np,
    issue i e w =
      (if bc then waitSync i (queued_state i (negb rd) p new pk np w)
       else schedule_scheduleReq i 1 (queued_state i (negb rd) p new pk np w)) ∧
    Z.of_nat (length new) = entry_lines line e ∧ packets w ⊆ pk ∧ numbered pk np np ∧
    ∀ m q, new !! m = Some q →
      pk !! q = Some (line_packet (pe_params p) cmd bc (entry_base line e + Z.of_nat m * line) q).
Proof.
  intros Hp Hnum Hl He line rd bc cmd.
  destruct (entry_lines_bounds _ _ _ Hl He) as [Hlines _]. fold line in Hlines.
  destruct (issue_loop i w p (negb rd) cmd bc (entry_base line e) Hp Hnum
              (entry_lines line e) ltac:(lia)) as (w' & Hloop & new & pk & np & -> & Hlen & Hsub & Hn & Hnew).
  exists new, pk, np. split_and!; [|done..|].
  - unfold issue. pe_step. fold line rd bc cmd.
    destruct (Z.eqb_spec line 0); [lia|].
    rewrite (entry_size isMemAddr line e Hl He), (entry_total isMemAddr line e Hl He),
      (entry_base_ok isMemAddr line e Hl He).
    change ((Z.max (TrafficPattern.size e) line + TrafficPattern.addr e mod line) / line)
      with (entry_lines line e).
    destruct (Z.leb_spec (2 ^ 31) (entry_lines line e)); [lia|].
    erewrite M_bind_ok by exact Hloop. by destruct bc.
  - intros m q Hm. rewrite (Hnew _ _ Hm). apply lookup_lt_Some in Hm.
    fold line. by rewrite (entry_line_addr isMemAddr line e Hl He) by lia.
Qed.

(** ** Which bytes an entry transfers *)

(** The end of the last cache line that is requested. *)
Definition entry_end (line : Z) (e : TrafficPattern.Traffic) : Z :=
  entry_base line e + entry_lines line e * line.

Lemma entry_end_spec line e :
  0 < line → 0 ≤ TrafficPattern.addr e → line ≤ TrafficPattern.size e →
  entry_end line e = TrafficPattern.addr e + TrafficPattern.size e
                     - (TrafficPattern.addr e + TrafficPattern.size e) mod line.
Proof.
  intros Hl Ha Hs. unfold entry_end, entry_lines, entry_base.
  rewrite Z.max_l by lia. set (a := TrafficPattern.addr e) in *. set (z := TrafficPattern.size e) in *.
  pose proof (Z.div_mod (z + a mod line) line ltac:(lia)).
  replace ((a + z) mod line) with ((z + a mod line) mod line); [lia|].
  rewrite Z.add_comm. by rewrite Zplus_mod_idemp_l.
Qed.

Lemma line_of_byte base line n a :
  0 < line → base ≤ a < base + n * line →
  ∃ m, 0 ≤ m < n ∧ base + m * line ≤ a < base + m * line + line.
Proof.
  intros Hl Ha. exists ((a - base) / line).
  pose proof (Z.div_mod (a - base) line ltac:(lia)).
  pose proof (Z.mod_pos_bound (a - base) line ltac:(lia)). split; [split|]; [|nia|nia].
  apply Z.div_pos; lia.
Qed.

(** C35. A READ or WRITE entry is split into packets of one cache line each, at
    consecutive line addresses from the line of its first byte.  A byte of the
    entry is requested exactly when it lies before [entry_end]; for an entry of
    at least one line that is every byte if the entry ends on a line boundary,
    and otherwise the last [(addr + size) mod line] bytes are never requested. *)
Theorem issue_covers isMemAddr i w p e :
  pes w !! i = Some p → numbered (packets w) (next_packet w) (next_request w) →
  0 < cache_line_size (pe_params p) < 2 ^ 29 →
  transfer_ok isMemAddr (cache_line_size (pe_params p)) e →
  TrafficPattern.response e ≠ TrafficPattern.BROADCAST →
  scheduleReqEvent p = None → 0 ≤ curTick w < horizon →
  let line := cache_line_size (pe_params p) in
  let wr := bool_decide (TrafficPattern.type e ≠ TrafficPattern.READ) in
  ∃ w' new, issue i e w = Ok (tt, w') ∧
    pes w' !! i = Some (set_scheduleReqEvent (Some (curTick w + 1))
                          (set_waitingSend wr (waitingSend wr p ++ new) p)) ∧
    (∀ a, TrafficPattern.addr e ≤ a < TrafficPattern.addr e + TrafficPattern.size e →
       (∃ q k, q ∈ new ∧ packets w' !! q = Some k ∧ isWrite (pk_cmd k) = wr ∧
          rq_addr (pk_req k) ≤ a < rq_addr (pk_req k) + rq_size (pk_req k)) ↔
       a < entry_end line e) ∧
    (line ≤ TrafficPattern.size e →
       entry_end line e = TrafficPattern.addr e + TrafficPattern.size e
                          - (TrafficPattern.addr e + TrafficPattern.size e) mod line).
Proof.
  intros Hp Hnum Hl He Hresp Hsr Ht line wr.
  destruct (issue_run isMemAddr i w p e Hp Hnum Hl He) as (new & pk & np & Hrun & Hlen & _ & _ & Hnew).
  rewrite (bool_decide_false (TrafficPattern.response e = _)) in Hrun, Hnew by done.
  set (rd := bool_decide (TrafficPattern.type e = TrafficPattern.READ)) in *.
  assert (wr = negb rd) as Hwr.
  { unfold wr, rd. repeat case_bool_decide; naive_solver. }
  assert (u32 line = line) as Hu by (unfold u32; apply Z.mod_small; unfold line; lia).
  eexists _, new. split_and!.
  - rewrite Hrun. eapply schedule_scheduleReq_run; [apply lookup_insert_eq|done|cbn; lia|
      cbn; unfold horizon in *; lia|by destruct rd].
  - wsimpl. rewrite lookup_insert_eq, Hwr. by destruct rd.
  - intros a Ha. wsimpl. cbn [queued_state set_packets packets]. split.
    + intros (q & k & Hq & Hk & _ & Hb). apply list_elem_of_lookup in Hq as [m Hm].
      rewrite (Hnew _ _ Hm) in Hk. injection Hk as <-. cbn in Hb. fold line in Hb. rewrite Hu in Hb.
      apply lookup_lt_Some in Hm. unfold entry_end.
      assert (Z.of_nat m + 1 ≤ entry_lines line e) by (fold line in Hlen; lia). nia.
    + intros Hend. destruct (line_of_byte (entry_base line e) line (entry_lines line e) a)
        as (m & Hm & Hb); [unfold line; lia| |].
      { pose proof (Z.mod_pos_bound (TrafficPattern.addr e) line ltac:(unfold line; lia)).
        unfold entry_end in Hend. unfold entry_base in *. lia. }
      destruct (lookup_lt_is_Some_2 new (Z.to_nat m)) as [q Hq]; [fold line in Hlen; lia|].
      exists q, (line_packet (pe_params p) (if rd then ReadReq else WriteReq) false
                   (entry_base line e + m * line) q).
      split_and!.
      * by eapply list_elem_of_lookup_2.
      * rewrite (Hnew _ _ Hq). fold line. by replace (Z.of_nat (Z.to_nat m)) with m by lia.
      * rewrite Hwr. by destruct rd.
      * cbn. lia.
      * cbn. fold line. rewrite Hu. lia.
  - intros Hs. apply entry_end_spec; [unfold line; lia|apply He|done].
Qed.

(** ** A packet to an address that is not memory *)

(** A suppressed packet is fatal: when the packet at the front of the queue
    has an address outside the memory, [scheduleReq] deletes it but leaves it
    in the queue and schedules itself again; the next run dereferences the
    deleted packet. *)
Theorem suppressed_packet_dangles isMemAddr i w p q rest k acc :
  pes w !! i = Some p →
  let write := negb (empty_queue (waitingSend_write p)) in
  waitingSend write p = q :: rest → packets w !! q = Some k →
  isMemAddr (rq_addr (pk_req k)) = false →
  scheduleReqEvent p = None → 0 ≤ curTick w < horizon →
  ∃ w', scheduleReq isMemAddr i acc w = Ok (tt, w') ∧
    (∃ p', pes w' !! i = Some p' ∧ scheduleReqEvent p' = Some (curTick w + 1)) ∧
    ∀ t acc', scheduleReq isMemAddr i acc'
      (set_curTick t (set_pes (alter (set_scheduleReqEvent None) i (pes w')) w')) = Err EBadPointer.
Proof.
  intros Hp write Hq Hk Hm Hsr Ht.
  set (p1 := set_scheduleReqEvent (Some (curTick w + 1)) (set_stats (inc_numSuppressed (stats p)) p)).
  exists (set_pes (<[i := p1]> (pes w)) (set_packets (delete q (packets w)) (next_packet w) (next_request w) w)).
  split; [|split].
  - unfold scheduleReq. pe_step. fold write. rewrite Hq. pe_step. rewrite Hm. unfold suppress. pe_step.
    erewrite M_bind_ok by (unfold delete_packet; pe_step; reflexivity). cbv beta. wsimpl.
    pe_step. pe_step.
    match goal with |- context [empty_queue ?x] =>
      assert (empty_queue x = false) as ->
        by (apply empty_queue_false; change x with (waitingSend write p); by rewrite Hq) end.
    erewrite schedule_scheduleReq_run; [|wsimpl; apply lookup_insert_eq|done|wsimpl; lia|
      wsimpl; unfold horizon in *; lia|done]. wsimpl. by rewrite insert_insert_eq.
  - exists p1. wsimpl. by rewrite lookup_insert_eq.
  - intros t acc'. unfold scheduleReq.
    erewrite M_bind_ok by (eapply get_pe_run; wsimpl;
      rewrite (alter_known _ _ _ p1), lookup_insert_eq by apply lookup_insert_eq; reflexivity).
    change (negb (empty_queue (waitingSend_write (set_scheduleReqEvent None p1)))) with write.
    change (waitingSend write (set_scheduleReqEvent None p1)) with (waitingSend write p). rewrite Hq.
    unfold get_packet, mbind, M_bind, lift. wsimpl. by rewrite lookup_delete_eq.
Qed.
