(* ===== verification/PEOperate.v ===== *)
(** * Operating a traffic entry keeps the invariant

    The step in which the event queue serves [operateNextEvent] of a PE, by
    kind of entry: none left, COMPUTE, an ordinary READ or WRITE, and the two
    ways to reach a barrier (SYNC, and a READ whose response is a broadcast). *)
From stdpp Require Import base tactics list gmap strings sets fin_sets.
From Stdlib Require Import ZArith Lia.
From S2P Require Import Prelude MemCmd TrafficPattern PE PESystem PEInv PERun PEFrame PESteps PESend PEBcast PEIssue.
Local Open Scope Z_scope.

(** Passing an entry passes its barrier. *)
Lemma barriers_step p p' e :
  0 ≤ cur_traffic p → traffic_list p !! Z.to_nat (cur_traffic p) = Some e →
  traffic_list p' = traffic_list p → cur_traffic p' = cur_traffic p + 1 →
  barriers_left p = barriers_left p' + Z.b2z (is_barrier_entry e).
Proof.
  intros Hc He E1 E2. unfold barriers_left. rewrite E1, E2.
  rewrite (drop_S _ _ _ He). replace (Z.to_nat (cur_traffic p + 1)) with (S (Z.to_nat (cur_traffic p))) by lia.
  rewrite filter_cons. destruct (is_barrier_entry e); simpl; lia.
Qed.

Lemma barriers_same p p' e :
  0 ≤ cur_traffic p → traffic_list p !! Z.to_nat (cur_traffic p) = Some e →
  traffic_list p' = traffic_list p → cur_traffic p' = cur_traffic p + 1 →
  is_barrier_entry e = false → barriers_left p' = barriers_left p.
Proof. intros H1 H2 H3 H4 H5. rewrite (barriers_step p p' e), H5 by done. simpl. lia. Qed.

Lemma numbered_inv isMemAddr issuer k s :
  inv isMemAddr issuer k s →
  numbered (packets (world s)) (next_packet (world s)) (next_request (world s)).
Proof. intros Hi. split; [apply Hi|]. apply Hi. Qed.

Section operate.
Context (isMemAddr : Z → bool) (issuer : nat).
Local Abbreviation inv := (inv isMemAddr issuer).
Local Abbreviation pe_ok := (pe_ok isMemAddr issuer).
Local Abbreviation local_ok := (local_ok isMemAddr issuer).
Local Abbreviation sys_step := (sys_step isMemAddr).

(** A PE whose next entry is due. *)
Context (k : Z) (s : Sys) (i : nat) (p : PE) (t : Z).
Hypothesis Hi : inv k s.
Hypothesis Hp : pes (world s) !! i = Some p.
Hypothesis Hop : operateNextEvent p = Some t.
Hypothesis Ht : t < horizon.
Hypothesis He : earliest t (world s).

Lemma ready_fields :
  unarmed (refused s) i p ∧ waitingSend_read p = [] ∧ waitingSend_write p = [] ∧
  waitingResp_read p = ∅ ∧ i ∉ rdy_sync_list (world s).
Proof.
  destruct (i_pe _ _ _ _ Hi i p Hp) as ([ph Hph] & _).
  destruct ph; cbn [in_phase] in Hph; destruct Hph as [Ho Hph]; try congruence; done.
Qed.

Lemma ready_time : 0 ≤ curTick (world s) ≤ t.
Proof.
  destruct (i_pe _ _ _ _ Hi i p Hp) as (_ & Hlo & _). pose proof (i_time _ _ _ _ Hi).
  pose proof (lo_op _ _ _ _ _ _ _ Hlo) as H'. rewrite Hop in H'. simpl in H'. lia.
Qed.

Lemma ready_local : local_ok t (packets (world s)) (pending s) i p.
Proof. eapply local_now; eauto. apply ready_time. Qed.

(** ** No entry left *)

Lemma step_end :
  Z.of_nat (length (traffic_list p)) ≤ cur_traffic p →
  ∃ s', sys_step s (LOperate i t) = Ok s' ∧ inv k s'.
Proof.
  intros Hend. pose proof ready_local as Hlo. pose proof ready_time.
  destruct ready_fields as (Hun & Hqr & Hqw & Hrr & HR).
  destruct (i_pe _ _ _ _ Hi i p Hp) as (_ & _ & Hqs & Hli & _).
  pose proof (lo_cur _ _ _ _ _ _ _ Hlo) as Hcur.
  assert (Hc : cur_traffic p = Z.of_nat (length (traffic_list p))) by lia.
  set (p0 := set_operateNextEvent None p).
  set (w0 := set_curTick t (set_pes (<[i := p0]> (pes (world s))) (world s))).
  set (c := quiescent p0 (world s)).
  exists (mkSys (if c then retired_world p0 w0 else w0) (pending s) (refused s)). split.
  { unfold PESystem.sys_step, run. rewrite (alter_known _ _ _ _ Hp). fold p0 w0.
    unfold operateTraffic. erewrite M_bind_ok by (eapply get_pe_run; apply lookup_insert_eq).
    erewrite M_bind_ok by reflexivity. cbv beta.
    rewrite (proj2 (Z.leb_le _ _)) by exact Hend. change (quiescent p0 w0) with c.
    by erewrite maybe_retire_run by apply lookup_insert_eq. }
  destruct (maybe_retired c p0 w0 (i_exit _ _ _ _ Hi)) as (Hoc & Hpl & Hex).
  set (w' := if c then retired_world p0 w0 else w0) in *.
  destruct Hoc as [Eti Eps Erd Ebc Epk Enp Enr]. unfold w0 in *. wsimpl.
  eapply (inv_update _ _ _ _ _ i p p0); wsimpl; rewrite ?Eti, ?Epk, ?Enp, ?Enr;
    try done; try solve [apply Hi]; try lia.
  - intros c0 Hne. rewrite Hpl. destruct c; [|done]. by rewrite lookup_delete_ne.
  - intros c0 j. rewrite Hpl. destruct c; [|done]. by intros [_ ?]%lookup_delete_Some.
  - intros j Hne. apply (same_for_other i); wsimpl; rewrite ?Epk, ?Eti; try done. lia.
  - exists Done. by split_and!.
  - eapply local_ok_ext; [exact Hlo|done..|apply Hlo|done|done].
  - destruct Hli as [[Hl _]|(Hl & _ & _ & _ & _ & Hr & Hw)].
    + eapply (listed_after _ _ k s i p p0 _ c); try done; try lia.
      rewrite (proj2 (Z.leb_le _ _)) by exact Hend. by rewrite andb_true_r.
    + right. split_and!; try done. rewrite Hpl. destruct c; [|done].
      by rewrite lookup_delete_eq.
Qed.

(** ** An entry that is not a barrier *)

(** The entry at hand, and the statements of [operateTraffic] around it. *)
Context (e : TrafficPattern.Traffic).
Hypothesis Hcur : cur_traffic p < Z.of_nat (length (traffic_list p)).
Hypothesis Hent : traffic_list p !! Z.to_nat (cur_traffic p) = Some e.

Definition ready_pe : PE := set_operateNextEvent None p.
Definition ready_world : World := set_curTick t (set_pes (<[i := ready_pe]> (pes (world s))) (world s)).

Definition entry_branch : M World unit :=
  if bool_decide (TrafficPattern.type e = TrafficPattern.COMPUTE) then
    schedule_operateNext i getComputeTime
  else if bool_decide (TrafficPattern.type e = TrafficPattern.SYNC) then
    modify (λ w, set_sync ({[i]} ∪ rdy_sync_list w) (broadcast_issuer w) w) ;;
    w ← gets (λ w, w);
    when (sync_complete w)
      (match broadcast_issuer w with
       | None => throw (EAssert "broadcast_issuer")
       | Some b => sendBroadcast b
       end)
  else issue i e.

Lemma cur_range : 0 ≤ cur_traffic p < 2 ^ 32 - 1.
Proof. pose proof ready_local as []. lia. Qed.

Lemma entry_ok_here : entry_ok isMemAddr issuer i (cache_line_size (pe_params p)) e.
Proof.
  pose proof (lo_traffic _ _ _ _ _ _ _ ready_local) as H. rewrite Forall_lookup in H. by eapply H.
Qed.

(** [operateTraffic] is the branch of the entry, then the increment. *)
Lemma operate_entry w1 p1 :
  entry_branch ready_world = Ok (tt, w1) → pes w1 !! i = Some p1 → cur_traffic p1 = cur_traffic p →
  sys_step s (LOperate i t) =
    Ok (mkSys (set_pes (<[i := set_cur_traffic (cur_traffic p + 1) p1]> (pes w1)) w1)
          (pending s) (refused s)).
Proof.
  intros Hb Hp1 Hc1. pose proof cur_range. unfold PESystem.sys_step, run.
  rewrite (alter_known _ _ _ _ Hp). fold ready_pe ready_world. unfold operateTraffic.
  erewrite M_bind_ok by (eapply get_pe_run; apply lookup_insert_eq).
  erewrite M_bind_ok by reflexivity. cbv beta.
  change (traffic_list ready_pe) with (traffic_list p). change (cur_traffic ready_pe) with (cur_traffic p).
  destruct (Z.leb_spec (Z.of_nat (length (traffic_list p))) (cur_traffic p)); [lia|].
  erewrite M_bind_ok by (apply lift_ok, vec_get_Z; [lia|exact Hent]). cbv beta.
  fold entry_branch. erewrite M_bind_ok by exact Hb. cbv beta.
  erewrite upd_pe_run by exact Hp1. rewrite Hc1. unfold u32. rewrite Z.mod_small by lia. done.
Qed.

(** The list of PEs when an entry was left: the PE is still in it. *)
Lemma still_listed : pe_list (world s) !! getCoordinate p = Some i.
Proof.
  destruct (i_pe _ _ _ _ Hi i p Hp) as (_ & _ & _ & [[Hl _]|H] & _); [done|]. lia.
Qed.

Lemma step_compute :
  TrafficPattern.type e = TrafficPattern.COMPUTE →
  ∃ s', sys_step s (LOperate i t) = Ok s' ∧ inv k s'.
Proof.
  intros Hty. pose proof ready_local as Hlo. pose proof ready_time as Htime. pose proof cur_range.
  destruct ready_fields as ([Hsr Href] & Hqr & Hqw & Hrr & HR).
  set (p1 := set_operateNextEvent (Some (t + 100)) ready_pe).
  eexists. split.
  { apply (operate_entry (set_pes (<[i := p1]> (pes ready_world)) ready_world) p1); [|apply lookup_insert_eq|done].
    unfold entry_branch. rewrite bool_decide_true by done.
    rewrite (schedule_operateNext_run i getComputeTime ready_world ready_pe); [done|apply lookup_insert_eq|done|
      cbn; lia|cbn; unfold horizon, getComputeTime in *; lia|done]. }
  unfold ready_world. wsimpl. rewrite !insert_insert_eq.
  eapply (inv_update _ _ _ _ _ i p); wsimpl; try done; try solve [apply Hi]; try lia.
  - intros j Hne. apply (same_for_other i); wsimpl; try done; lia.
  - exists Ready. by split_and!.
  - eapply local_ok_ext; [exact Hlo|done|done|wsimpl; lia|cbn; lia|apply Hlo|done|done].
  - unfold queues_ok, p1, ready_pe. wsimpl. by rewrite Hqr, Hqw.
  - left. split; [apply still_listed|done].
  - apply (barriers_same p _ e); try done; [lia|].
    unfold is_barrier_entry, is_sync, is_bcast_read. by rewrite Hty.
Qed.

(** The packets of a transfer are fit for its queue. *)
Lemma issued_queued pk cmd bc new :
  transfer_ok isMemAddr (cache_line_size (pe_params p)) e →
  Z.of_nat (length new) = entry_lines (cache_line_size (pe_params p)) e →
  (∀ m q, new !! m = Some q → pk !! q = Some (line_packet (pe_params p) cmd bc
     (entry_base (cache_line_size (pe_params p)) e +
        Z.of_nat m * cache_line_size (pe_params p)) q)) →
  Forall (queued isMemAddr pk cmd bc) new ∧ new ≠ [].
Proof.
  intros Htr Hlen Hnew. pose proof (lo_line _ _ _ _ _ _ _ ready_local) as Hl.
  destruct (entry_lines_bounds _ _ _ Hl Htr) as [Hb _]. split.
  - apply Forall_lookup. intros m q Hm. eexists. split_and!; [by apply Hnew|done|done|].
    apply Htr. apply lookup_lt_Some in Hm. lia.
  - intros ->. simpl in Hlen. lia.
Qed.

Lemma step_transfer :
  is_transfer e = true → TrafficPattern.response e ≠ TrafficPattern.BROADCAST →
  ∃ s', sys_step s (LOperate i t) = Ok s' ∧ inv k s'.
Proof.
  intros Htr Hresp. pose proof ready_local as Hlo. pose proof ready_time as Htime.
  pose proof cur_range. destruct ready_fields as ([Hsr Href] & Hqr & Hqw & Hrr & HR).
  destruct entry_ok_here as [_ Heok]. destruct (Heok Htr) as [Hok _].
  unfold is_transfer, is_sync in Htr.
  rewrite andb_true_iff, negb_true_iff, bool_decide_eq_true, bool_decide_eq_false in Htr.
  destruct Htr as [Hnc Hns].
  pose proof (numbered_inv _ _ _ _ Hi) as Hnum.
  destruct (issue_run isMemAddr i ready_world ready_pe e (lookup_insert_eq _ _ _) Hnum
              (lo_line _ _ _ _ _ _ _ Hlo) Hok) as (new & pk & np & Hrun & Hlen & Hsub & Hn & Hnew).
  rewrite (bool_decide_false (TrafficPattern.response e = _)) in Hrun, Hnew by done.
  set (rd := bool_decide (TrafficPattern.type e = TrafficPattern.READ)) in *.
  destruct (issued_queued pk _ _ new Hok Hlen Hnew) as [Hfq Hne].
  set (w1 := queued_state i (negb rd) ready_pe new pk np ready_world) in *.
  set (q1 := set_waitingSend (negb rd) (waitingSend (negb rd) ready_pe ++ new) ready_pe).
  set (p1 := set_scheduleReqEvent (Some (t + 1)) q1).
  assert (waitingSend (negb rd) ready_pe = []) as Hemp by (destruct rd; done).
  eexists. split.
  { apply (operate_entry (set_pes (<[i := p1]> (pes w1)) w1) p1); [|apply lookup_insert_eq|by destruct rd].
    unfold entry_branch. rewrite !bool_decide_false by done. rewrite Hrun.
    rewrite (schedule_scheduleReq_run i 1 w1 q1); [done|apply lookup_insert_eq|done|
      cbn; lia|cbn; unfold horizon in *; lia|by destruct rd]. }
  unfold w1, queued_state, ready_world. wsimpl. rewrite !insert_insert_eq.
  unfold p1, q1. rewrite Hemp, app_nil_l.
  eapply (inv_update _ _ _ _ _ i p); wsimpl; try done; try solve [apply Hi]; try lia.
  - intros j Hne'. apply (same_for_other i); wsimpl; try done; lia.
  - apply Hn.
  - intros r Hr. apply (i_pend _ _ _ _ Hi) in Hr as (_ & q & Hq & Hc). exists q.
    split; [by eapply lookup_weaken|done].
  - exists (if rd then SendingR else SendingW).
    destruct rd; cbn [in_phase]; unfold armed; wsimpl; split_and!; try done; by left.
  - destruct Hlo; constructor; destruct rd; wsimpl; simpl; try done; try lia;
      by eapply (owed_frame isMemAddr issuer k s).
  - unfold queues_ok. rewrite bool_decide_false by done. destruct rd; wsimpl; simpl;
      rewrite ?Hqr, ?Hqw; done.
  - left. split; [apply still_listed|]. destruct rd; wsimpl; simpl; intros _ ? ?; congruence.
  - apply (barriers_same p _ e); try done; [lia|].
    unfold is_barrier_entry, is_sync, is_bcast_read.
    rewrite (bool_decide_false (_ = TrafficPattern.SYNC)) by done.
    rewrite (bool_decide_false (_ = TrafficPattern.BROADCAST)) by done. by rewrite andb_false_r.
Qed.
End operate.
