(* ===== verification/PEBarrier.v ===== *)
(** * Reaching a barrier keeps the invariant

    A PE enters the set of PEs that stand at the barrier, by a SYNC entry or,
    the issuer, by its broadcast read.  The PE that completes the set starts
    the broadcast. *)
From stdpp Require Import base tactics list gmap strings sets fin_sets.
From Stdlib Require Import ZArith Lia.
From S2P Require Import Prelude MemCmd TrafficPattern PE PESystem PEInv PERun PEFrame PESteps PESend PEBcast PEIssue PEOperate.
Local Open Scope Z_scope.

Section barrier.
Context (isMemAddr : Z → bool) (issuer : nat).
Local Abbreviation inv := (inv isMemAddr issuer).
Local Abbreviation pe_ok := (pe_ok isMemAddr issuer).
Local Abbreviation local_ok := (local_ok isMemAddr issuer).
Local Abbreviation sys_step := (sys_step isMemAddr).

(** While a barrier is ahead, nobody has left the list of PEs. *)
Lemma listed_before k s j p :
  inv k s → 1 ≤ k → pes (world s) !! j = Some p →
  pe_list (world s) !! getCoordinate p = Some j.
Proof.
  intros Hi Hk1 Hp. destruct (i_pe _ _ _ _ Hi j p Hp) as (_ & _ & _ & [[? _]|H] & Hk); [done|].
  destruct H as (_ & HRj & Hc & _). rewrite (barriers_left_end _ Hc), bool_decide_false in Hk by done.
  simpl in Hk. lia.
Qed.

Lemma list_size k s : inv k s → 1 ≤ k → size (pe_list (world s)) = size (dom (pes (world s))).
Proof.
  intros Hi Hk. rewrite <-length_map_to_list.
  rewrite <-(length_fmap snd), <-(size_list_to_set (C := gset nat)).
  - f_equal. apply set_eq. intros j. rewrite elem_of_list_to_set, list_elem_of_fmap, elem_of_dom. split.
    + intros ([c j'] & -> & Hin%elem_of_map_to_list).
      destruct (i_list _ _ _ _ Hi _ _ Hin) as (p & Hp & _). eauto.
    + intros [p Hp]. exists (getCoordinate p, j). split; [done|].
      apply elem_of_map_to_list. by eapply listed_before.
  - apply NoDup_fmap_2_strong; [|apply NoDup_map_to_list].
    intros [c1 j1] [c2 j2] H1%elem_of_map_to_list H2%elem_of_map_to_list E. cbn in E. subst.
    apply (i_list _ _ _ _ Hi) in H1 as (p1 & Hp1 & ->).
    apply (i_list _ _ _ _ Hi) in H2 as (p2 & Hp2 & ->). by simplify_eq.
Qed.

(** The comparison of sizes in the code decides whether all PEs are there. *)
Lemma sync_complete_full k s w :
  inv k s → 1 ≤ k → pe_list w = pe_list (world s) → dom (pes w) = dom (pes (world s)) →
  rdy_sync_list w ⊆ dom (pes (world s)) → sync_complete w = full w.
Proof.
  intros Hi Hk Hl Hd Hsub. unfold sync_complete, full. rewrite Hl, Hd, (list_size _ _ Hi Hk).
  apply eq_true_iff_eq. rewrite Nat.eqb_eq, bool_decide_eq_true. split; [|by intros ->].
  intros E. apply leibniz_equiv, set_subseteq_size_equiv; [done|lia].
Qed.

Section enter.
Context (k : Z) (s : Sys) (i : nat) (p p' : PE) (t : Z) (pk : gmap positive Packet) (np : positive).
Hypothesis Hi : inv k s.
Hypothesis Hk : 1 ≤ k.
Hypothesis Hp : pes (world s) !! i = Some p.
Hypothesis HR : i ∉ rdy_sync_list (world s).
Hypothesis Htime : curTick (world s) ≤ t < horizon.
Hypothesis He : earliest t (world s).
Hypothesis Hsub : packets (world s) ⊆ pk.
Hypothesis Hnum : numbered pk np np.
Hypothesis Hpar : pe_params p' = pe_params p.

(** The PEs after [i] reached the barrier: if it was the last one, the issuer
    starts to send. *)
Definition entered_pes (last : bool) : gmap nat PE :=
  <[i := p']> (if last then alter (set_scheduleReqEvent (Some (t + 1))) issuer (pes (world s))
               else pes (world s)).
Definition entered (last : bool) (B : option nat) : Sys :=
  mkSys (mkWorld t (entered_pes last) (pe_list (world s)) ({[i]} ∪ rdy_sync_list (world s)) B
           pk np np (exits (world s))) (pending s) (refused s).

Lemma entered_dom last : dom (entered_pes last) = dom (pes (world s)).
Proof.
  clear -Hp. unfold entered_pes. rewrite dom_insert_L. apply elem_of_dom_2 in Hp.
  destruct last; [rewrite dom_alter_L|]; set_solver.
Qed.

Lemma not_full : full (world s) = false.
Proof.
  unfold full. apply bool_decide_eq_false. intros E. apply HR. rewrite E. by eapply elem_of_dom_2.
Qed.

Lemma entered_same last B j : j ≠ i → same_for j s (entered last B).
Proof. intros Hne. constructor; cbn; try done; [set_solver|lia]. Qed.

(** The other PEs when the barrier is not complete yet. *)
Lemma entered_other_frame B j pj :
  full (world (entered false B)) = false → j ≠ i → pes (world s) !! j = Some pj →
  pe_ok k (entered false B) j pj.
Proof.
  intros Hf Hne Hj. eapply pe_ok_frame; [exact Hi|by apply entered_same|done|
    by rewrite Hf, not_full|done|done].
Qed.

(** ... and when [i] completed it. *)
Lemma entered_other_last B j pj :
  full (world (entered true B)) = true → j ≠ i → pes (world s) !! j = Some pj →
  pe_ok k (entered true B) j (if bool_decide (j = issuer)
                              then set_scheduleReqEvent (Some (t + 1)) pj else pj).
Proof.
  intros Hf Hne Hj. destruct (i_pe _ _ _ _ Hi j pj Hj) as ([ph Hph] & Hlo & Hq & Hli & Hb).
  assert (j ∈ rdy_sync_list (world s)) as HRj.
  { assert (j ∈ rdy_sync_list (world (entered true B))) as Hj'.
    { apply full_all; [done|]. cbn. rewrite entered_dom. by eapply elem_of_dom_2. }
    cbn in Hj'. set_solver. }
  rewrite not_full in Hph.
  pose proof (local_frame _ _ _ _ (entered true B) _ _ Hi (entered_same true B j Hne) He Hj Hlo) as Hlo'.
  assert (HRj' : j ∈ {[i]} ∪ rdy_sync_list (world s)) by set_solver.
  rewrite (bool_decide_true (j ∈ _)) in Hb by done. unfold queues_ok in Hq. rewrite bool_decide_true in Hq by done.
  split_and!.
  - exists ph. rewrite Hf. destruct ph; cbn [in_phase] in *; try naive_solver.
    + destruct Hph as (H1 & H2 & H3 & H4 & H5 & H6 & H7). rewrite bool_decide_false by done.
      by split_and!.
    + destruct Hph as (H1 & [H2 H2'] & H3 & H4 & H5 & H6 & ->). rewrite bool_decide_true by done.
      unfold armed. wsimpl. split_and!; try done. by left.
  - case_bool_decide; [|done]. eapply local_ok_ext; [exact Hlo'|done|done|apply Hlo'|apply Hlo'|
      cbn; lia|done|done].
  - unfold queues_ok. cbn. rewrite (bool_decide_true (j ∈ _)) by done. destruct Hq as [Hq1 Hq2].
    case_bool_decide; (split; eapply Forall_impl; [done|intros; by eapply queued_mono|done|intros; by eapply queued_mono]).
  - destruct Hli as [[Hl _]|(_ & ? & _)]; [|done]. left. case_bool_decide; (split; [exact Hl|]); intros; exfalso; cbn in *; set_solver.
  - cbn. rewrite (bool_decide_true (j ∈ _)) by done. by destruct (bool_decide (j = issuer)).
Qed.

Lemma entered_inv last B :
  last = full (world (entered last B)) →
  B = (if bool_decide (issuer ∈ {[i]} ∪ rdy_sync_list (world s)) then Some issuer else None) →
  pe_ok k (entered last B) i p' → inv k (entered last B).
Proof.
  intros Hlast HB Hok. pose proof (i_time _ _ _ _ Hi).
  apply (inv_build _ _ k k s); [done|apply entered_dom|..];
    cbn; unfold entered_pes; try done; try solve [apply Hi];
    try lia.
  - intros j pj pj'. intros Hj [[<- <-]|[Hne Hj']]%lookup_insert_Some; [congruence|].
    destruct last; [|congruence]. apply lookup_alter_Some in Hj' as [(<- & ? & ? & ->)|[_ ?]]; [|congruence].
    cbn. congruence.
  - intros j pj [[<- <-]|[Hne Hj]]%lookup_insert_Some; [done|]. destruct last.
    + apply lookup_alter_Some in Hj as [(<- & q & Hq & ->)|[Hni Hj]].
      * pose proof (entered_other_last B issuer q) as Hx. rewrite bool_decide_true in Hx by done.
        by apply Hx.
      * pose proof (entered_other_last B j pj) as Hx. rewrite bool_decide_false in Hx by done.
        by apply Hx.
    + by apply entered_other_frame.
  - pose proof (i_rdy _ _ _ _ Hi). apply elem_of_dom_2 in Hp. set_solver.
  - apply Hnum.
  - intros j r Hjr. destruct (i_pend _ _ _ _ Hi _ _ Hjr) as (Hj & q & Hq & Hc).
    rewrite elem_of_dom. split; [done|]. exists q. split; [by eapply lookup_weaken|done].
Qed.
End enter.

(** ** The two kinds of barrier entries *)
Section entry.
Context (k : Z) (s : Sys) (i : nat) (p : PE) (t : Z) (e : TrafficPattern.Traffic).
Hypothesis Hi : inv k s.
Hypothesis Hp : pes (world s) !! i = Some p.
Hypothesis Hop : operateNextEvent p = Some t.
Hypothesis Ht : t < horizon.
Hypothesis He : earliest t (world s).
Hypothesis Hcur : cur_traffic p < Z.of_nat (length (traffic_list p)).
Hypothesis Hent : traffic_list p !! Z.to_nat (cur_traffic p) = Some e.
Hypothesis Hbar : is_barrier_entry e = true.

Lemma barrier_count p' :
  traffic_list p' = traffic_list p → cur_traffic p' = cur_traffic p + 1 →
  barriers_left p' + 1 = k ∧ 1 ≤ k.
Proof.
  intros E1 E2. destruct (i_pe _ _ _ _ Hi i p Hp) as (_ & Hlo & _ & _ & Hb).
  destruct (ready_fields _ _ _ _ _ _ _ Hi Hp Hop) as (_ & _ & _ & _ & HR).
  rewrite bool_decide_false in Hb by done.
  rewrite (barriers_step p p' e), Hbar in Hb by (done || apply Hlo).
  pose proof (barriers_left_nonneg p'). simpl in Hb. lia.
Qed.

(** The state of a PE that just reached the barrier, up to its queue. *)
Lemma entered_pe_ok last B pk np p' :
  packets (world s) ⊆ pk → pe_params p' = pe_params p → traffic_list p' = traffic_list p →
  cur_traffic p' = cur_traffic p + 1 → operateNextEvent p' = None →
  not_before t (scheduleReqEvent p') → waitingSend_write p' = [] →
  waitingResp_read p' = ∅ → waitingResp_write p' = waitingResp_write p →
  Forall (queued isMemAddr pk ReadReq true) (waitingSend_read p') →
  (let s' := entered s i p' t pk np last B in
   (i ≠ issuer ∧ waitingSend_read p' = [] ∧ unarmed (refused s) i p') ∨
   (i = issuer ∧ waitingSend_read p' ≠ [] ∧
    if full (world s') then armed (refused s) i p' else unarmed (refused s) i p')) →
  pe_ok k (entered s i p' t pk np last B) i p'.
Proof.
  intros Hsub E1 E2 E3 E4 E5 E6 E7 E8 Hq Hkind.
  destruct (ready_fields _ _ _ _ _ _ _ Hi Hp Hop) as (_ & _ & _ & Hrr & HR).
  pose proof (ready_local _ _ _ _ _ _ _ Hi Hp Hop He) as Hlo.
  pose proof (barrier_count p' E2 E3) as [Hk Hk1].
  split_and!.
  - destruct Hkind as [(H1 & H2 & H3)|(H1 & H2 & H3)]; [exists Synced|exists Issuing];
      cbn [in_phase]; cbn; split_and!; try done; set_solver.
  - assert (local_ok t pk (pending s) i p) as Hlo'.
    { destruct Hlo; constructor; try done; by eapply (owed_frame isMemAddr issuer k s). }
    eapply local_ok_ext; [exact Hlo'|done|done|rewrite E3; pose proof (lo_cur _ _ _ _ _ _ _ Hlo); lia|
      by rewrite E4|done|congruence|done].
  - unfold queues_ok. cbn. rewrite bool_decide_true by set_solver. by rewrite E6.
  - left. split; [|cbn; set_solver]. cbn. unfold getCoordinate. rewrite E1.
    by eapply (listed_before k).
  - cbn. rewrite bool_decide_true by set_solver. done.
Qed.

Lemma enter_sub : {[i]} ∪ rdy_sync_list (world s) ⊆ dom (pes (world s)).
Proof. clear -Hi Hp. pose proof (i_rdy _ _ _ _ Hi). apply elem_of_dom_2 in Hp. set_solver. Qed.

(** Whether the barrier is complete, seen before and after the increment. *)
Lemma entered_full w1 p' pk np last B :
  dom (pes w1) = dom (pes (world s)) → rdy_sync_list w1 = {[i]} ∪ rdy_sync_list (world s) →
  full (world (entered s i p' t pk np last B)) = full w1.
Proof. intros Hd Hr. apply full_same; [|done]. cbn. by rewrite (entered_dom s i p p' t Hp). Qed.

(** The issuer waits at the barrier, with its packets queued. *)
Lemma issuer_waits pis :
  issuer ∈ rdy_sync_list (world s) → pes (world s) !! issuer = Some pis →
  scheduleReqEvent pis = None.
Proof.
  intros HRi Hpis. destruct (ready_fields _ _ _ _ _ _ _ Hi Hp Hop) as (_ & _ & _ & _ & HR).
  destruct (i_pe _ _ _ _ Hi issuer pis Hpis) as ([ph Hph] & _).
  rewrite (not_full s i p Hp HR) in Hph.
  destruct ph; cbn [in_phase] in Hph; unfold unarmed in Hph; naive_solver.
Qed.

Lemma step_sync :
  TrafficPattern.type e = TrafficPattern.SYNC →
  ∃ s', sys_step s (LOperate i t) = Ok s' ∧ inv k s'.
Proof.
  intros Hty. pose proof (ready_time _ _ _ _ _ _ _ Hi Hp Hop) as Htime.
  pose proof (i_time _ _ _ _ Hi) as Hnow.
  destruct (ready_fields _ _ _ _ _ _ _ Hi Hp Hop) as (Hun & Hqr & Hqw & Hrr & HR).
  destruct (entry_ok_here _ _ _ _ _ _ _ Hi Hp Hop He e Hent) as [Hiss _].
  assert (i ≠ issuer) as Hni by (apply Hiss; unfold is_sync; by rewrite bool_decide_true).
  pose proof (numbered_inv _ _ _ _ Hi) as Hnum.
  set (q0 := ready_pe p). set (p' := set_cur_traffic (cur_traffic p + 1) q0).
  destruct (barrier_count p' eq_refl eq_refl) as [_ Hk].
  set (w1 := set_sync ({[i]} ∪ rdy_sync_list (world s)) (broadcast_issuer (world s)) (ready_world s i p t)).
  pose proof enter_sub as Hsub.
  assert (Hdom1 : dom (pes w1) = dom (pes (world s))).
  { cbn. rewrite dom_insert_L. apply elem_of_dom_2 in Hp. set_solver. }
  set (B := broadcast_issuer (world s)).
  assert (HB : B = (if bool_decide (issuer ∈ {[i]} ∪ rdy_sync_list (world s))
                    then Some issuer else None)).
  { unfold B. rewrite (i_bcast _ _ _ _ Hi). by rewrite (bool_decide_ext _
      (issuer ∈ {[i]} ∪ rdy_sync_list (world s))) by set_solver. }
  set (last := full w1).
  pose proof (entered_full w1 p' (packets (world s)) (next_packet (world s)) last B Hdom1 eq_refl) as Hlast.
  exists (entered s i p' t (packets (world s)) (next_packet (world s)) last B). split.
  - set (w2 := set_pes (<[i := q0]> (if last then
        alter (set_scheduleReqEvent (Some (t + 1))) issuer (pes (world s)) else pes (world s))) w1).
    rewrite (operate_entry isMemAddr issuer k s i p t Hi Hp Hop He e Hcur Hent w2 q0).
    + unfold entered, w2, w1, ready_world, entered_pes. wsimpl. rewrite insert_insert_eq.
      unfold set_pes, set_sync, set_curTick. wsimpl. by rewrite <-(proj1 Hnum).
    + unfold entry_branch. rewrite bool_decide_false, bool_decide_true by (done || congruence).
      erewrite M_bind_ok by reflexivity. erewrite M_bind_ok by reflexivity. cbv beta.
      match goal with |- context [sync_complete ?x] => change x with w1 end.
      rewrite (sync_complete_full k s w1 Hi Hk eq_refl Hdom1 Hsub). fold last.
      unfold when. destruct last eqn:El; [|done].
      assert (issuer ∈ rdy_sync_list (world s)) as HRi.
      { assert (issuer ∈ rdy_sync_list w1) as H'.
        { apply full_all; [done|]. rewrite Hdom1. apply elem_of_dom, Hi. }
        cbn in H'. set_solver. }
      change (broadcast_issuer w1) with B. rewrite HB, bool_decide_true by set_solver.
      destruct (i_issuer _ _ _ _ Hi) as [pis Hpis].
      pose proof (issuer_waits pis HRi Hpis) as Hsr.
      unfold sendBroadcast.
      rewrite (schedule_scheduleReq_run issuer 1 w1 pis); [|by cbn; rewrite lookup_insert_ne|done|
        cbn; lia|cbn; unfold horizon in *; lia|done].
      unfold w2. cbn. rewrite (alter_known _ _ _ _ Hpis). by rewrite insert_insert_ne.
    + apply lookup_insert_eq.
    + done.
  - apply (entered_inv k s i p p' t (packets (world s)) (next_packet (world s))); try done.
    + lia.
    + split; [done|apply Hnum].
    + apply entered_pe_ok; try done.
      * change (not_before t (scheduleReqEvent p)). by rewrite (proj1 Hun).
      * change (Forall (queued isMemAddr (packets (world s)) ReadReq true) (waitingSend_read p)).
        by rewrite Hqr.
      * left. by split_and!.
Qed.

Lemma step_bcast_read :
  TrafficPattern.type e = TrafficPattern.READ →
  TrafficPattern.response e = TrafficPattern.BROADCAST →
  ∃ s', sys_step s (LOperate i t) = Ok s' ∧ inv k s'.
Proof.
  intros Hty Hresp. pose proof (ready_time _ _ _ _ _ _ _ Hi Hp Hop) as Htime.
  pose proof (i_time _ _ _ _ Hi) as Hnow.
  destruct (ready_fields _ _ _ _ _ _ _ Hi Hp Hop) as ([Hsr Href] & Hqr & Hqw & Hrr & HR).
  pose proof (ready_local _ _ _ _ _ _ _ Hi Hp Hop He) as Hlo.
  destruct (entry_ok_here _ _ _ _ _ _ _ Hi Hp Hop He e Hent) as [_ Heok].
  destruct Heok as [Hok Hiss]; [by unfold is_transfer, is_sync; rewrite Hty|].
  destruct (Hiss Hresp) as [_ Hii].
  pose proof (numbered_inv _ _ _ _ Hi) as Hnum.
  destruct (issue_run isMemAddr i (ready_world s i p t) (ready_pe p) e (lookup_insert_eq _ _ _) Hnum
              (lo_line _ _ _ _ _ _ _ Hlo) Hok) as (new & pk & np & Hrun & Hlen & Hsub & Hn & Hnew).
  rewrite !bool_decide_true in Hrun, Hnew by done. cbn [negb] in Hrun.
  destruct (issued_queued isMemAddr issuer k s i p t Hi Hp Hop He e pk _ _ new Hok Hlen Hnew)
    as [Hfq Hne].
  set (q0 := set_waitingSend false (waitingSend false (ready_pe p) ++ new) (ready_pe p)) in *.
  set (w1 := set_sync ({[i]} ∪ rdy_sync_list (world s)) (Some i)
               (queued_state i false (ready_pe p) new pk np (ready_world s i p t))).
  assert (Hdom1 : dom (pes w1) = dom (pes (world s))).
  { clear -Hp. cbn. rewrite !dom_insert_L. apply elem_of_dom_2 in Hp. set_solver. }
  set (last := full w1).
  set (q1 := if last then set_scheduleReqEvent (Some (t + 1)) q0 else q0).
  set (p' := set_cur_traffic (cur_traffic p + 1) q1).
  assert (Hf : traffic_list p' = traffic_list p ∧ cur_traffic p' = cur_traffic p + 1)
    by (unfold p', q1; by destruct last). destruct Hf as [Htl Hcu].
  destruct (barrier_count p' Htl Hcu) as [_ Hk].
  pose proof (entered_full w1 p' pk np last (Some i) Hdom1 eq_refl) as Hlast.
  assert (Hq0 : waitingSend_read q0 = new) by (unfold q0; cbn; by rewrite Hqr).
  exists (entered s i p' t pk np last (Some i)). split.
  - rewrite (operate_entry isMemAddr issuer k s i p t Hi Hp Hop He e Hcur Hent
               (set_pes (<[i := q1]> (pes (world s))) w1) q1).
    + unfold entered, w1, queued_state, ready_world, entered_pes. wsimpl. rewrite insert_insert_eq.
      fold p'. unfold set_pes, set_sync, set_packets, set_curTick. wsimpl.
      destruct last; [|done]. rewrite <-Hii.
      by rewrite (alter_known _ _ _ _ Hp), insert_insert_eq.
    + unfold entry_branch. rewrite !bool_decide_false by congruence. rewrite Hrun.
      unfold waitSync. erewrite M_bind_ok by reflexivity. erewrite M_bind_ok by reflexivity. cbv beta.
      match goal with |- context [sync_complete ?x] => change x with w1 end.
      rewrite (sync_complete_full k s w1 Hi Hk eq_refl Hdom1 enter_sub). fold last.
      unfold when, q1. destruct last eqn:El.
      * unfold sendBroadcast. rewrite (schedule_scheduleReq_run i 1 w1 q0); [|apply lookup_insert_eq|done|
          cbn; lia|cbn; unfold horizon in *; lia|done].
        unfold w1, queued_state, ready_world. wsimpl. by rewrite !insert_insert_eq.
      * unfold w1, queued_state, ready_world, mret, M_ret. wsimpl. by rewrite !insert_insert_eq.
    + apply lookup_insert_eq.
    + unfold q1. by destruct last.
  - apply (entered_inv k s i p p' t pk np); try done; [lia|unfold p', q1; by destruct last| |].
    + rewrite Hii, bool_decide_true by set_solver. done.
    + assert (not_before t (scheduleReqEvent p')) as Hev
        by (unfold p', q1; destruct last; cbn; [lia|by rewrite Hsr]).
      assert (waitingSend_read p' = new) as Hqq by (unfold p', q1; by destruct last).
      apply entered_pe_ok; rewrite ?Hqq; try done; try (unfold p', q1; by destruct last).
      right. rewrite Hlast. fold last. split_and!; [done..|]. unfold p', q1.
      destruct last; [left|]; done.
Qed.
End entry.
End barrier.
