(* ===== verification/PEProps.v ===== *)
(** * The PEs run to completion

    The properties of the simulated PEs: no handler ever fails, nobody gets
    stuck, a PE goes on only when its reads are answered, a broadcast is sent
    only when every PE waits for it.  They hold for every traffic that enters
    the same number of barriers on every PE, whatever the memory system does
    within its protocol and whatever the order of simultaneous events. *)
From stdpp Require Import base tactics list gmap strings sets fin_maps.
From Stdlib Require Import ZArith Lia.
From S2P Require Import Prelude MemCmd TrafficPattern PE PESystem PEInv PERun PEFrame PESteps PESend PEBcast PEIssue PEOperate PEBarrier.
Local Open Scope Z_scope.

Section props.
Context (isMemAddr : Z → bool) (issuer : nat).
Local Abbreviation inv := (inv isMemAddr issuer).
Local Abbreviation sys_step := (sys_step isMemAddr).

(** ** Every enabled step succeeds *)

Lemma operate_ok k s i t :
  inv k s → enabled s (LOperate i t) → ∃ s', sys_step s (LOperate i t) = Ok s' ∧ inv k s'.
Proof.
  intros Hi (Ht & He & p & Hp & Hop).
  destruct (Z.le_gt_cases (Z.of_nat (length (traffic_list p))) (cur_traffic p)) as [Hend|Hcur].
  { by eapply step_end. }
  pose proof (ready_local _ _ _ _ _ _ _ Hi Hp Hop He) as Hlo.
  pose proof (lo_cur _ _ _ _ _ _ _ Hlo) as Hc.
  destruct (lookup_lt_is_Some_2 (traffic_list p) (Z.to_nat (cur_traffic p))) as [e Hent]; [lia|].
  destruct (decide (TrafficPattern.type e = TrafficPattern.COMPUTE)) as [Hty|Hnc].
  { by eapply step_compute. }
  destruct (decide (TrafficPattern.type e = TrafficPattern.SYNC)) as [Hty|Hns].
  { eapply step_sync; eauto. unfold is_barrier_entry, is_sync. by rewrite bool_decide_true. }
  assert (Htr : is_transfer e = true).
  { unfold is_transfer, is_sync. by rewrite bool_decide_true, bool_decide_false by done. }
  destruct (decide (TrafficPattern.response e = TrafficPattern.BROADCAST)) as [Hr|Hr].
  - destruct (entry_ok_here _ _ _ _ _ _ _ Hi Hp Hop He e Hent) as [_ Hok].
    destruct (Hok Htr) as [_ Hb]. destruct (Hb Hr) as [Hrd _].
    eapply step_bcast_read; eauto. unfold is_barrier_entry, is_bcast_read.
    rewrite !bool_decide_true by done. apply orb_true_r.
  - by eapply step_transfer.
Qed.

Lemma send_ok k s i t acc :
  inv k s → enabled s (LSend i t acc) → ∃ s' k', sys_step s (LSend i t acc) = Ok s' ∧ inv k' s'.
Proof.
  intros Hi Hen. destruct acc; [|destruct (step_refused _ _ _ _ _ _ Hi Hen) as (s' & ? & ?); eauto].
  destruct Hen as (Ht & He & p & Hp & Hsr).
  destruct (send_ready _ _ _ _ _ _ _ Hi Hp Hsr) as (write & q & rest & pk & Hs).
  destruct (decide (i ∈ rdy_sync_list (world s))) as [HR|HR].
  - by eapply step_accepted_bcast.
  - destruct (step_accepted_unicast _ _ _ _ _ _ _ _ _ _ _ Hi Hp Hsr Ht He Hs HR) as (s' & ? & ?). eauto.
Qed.

Lemma step_ok k s l :
  inv k s → enabled s l → ∃ s' k', sys_step s l = Ok s' ∧ inv k' s'.
Proof.
  intros Hi. destruct l as [i t|i t acc|i t|i r t]; intros Hen.
  - destruct (operate_ok _ _ _ _ Hi Hen) as (s' & ? & ?). eauto.
  - by eapply send_ok.
  - destruct (step_retry _ _ _ _ _ _ Hi Hen) as (s' & ? & ?). eauto.
  - destruct (step_resp _ _ _ _ _ _ _ Hi Hen) as (s' & ? & ?). eauto.
Qed.

(** ** The initial states satisfy the invariant *)

Lemma started_inv s : started isMemAddr issuer s → ∃ k, inv k s.
Proof.
  intros []. destruct st_idle as (HR & HB & Hpe & Href & Hex). destruct st_issuer as [pis Hpis].
  assert (Hf : full (world s) = false).
  { unfold full. rewrite HR. apply bool_decide_eq_false. apply elem_of_dom_2 in Hpis. set_solver. }
  assert (Hlk : ∀ i p, pes (world s) !! i = Some p → pe_list (world s) !! getCoordinate p = Some i).
  { intros i p Hp. apply st_list. eauto. }
  exists (barriers_left pis). constructor; try done.
  - intros i p Hp. destruct (st_pe i p Hp) as (H1 & H2 & H3 & H4 & H5 & H6 & H7 & H8 & H9 & H10).
    split_and!.
    + exists Ready. cbn [in_phase]. rewrite HR, Href, H1. by split_and!.
    + constructor; rewrite ?H1, ?H2, ?H5, ?H6, ?H7, ?Hpe; try done; try lia; simpl;
        try lia; intros r; rewrite lookup_empty; split; (by intros [? ?]) || set_solver.
    + split; [by rewrite H3|by rewrite H4].
    + left. split; [by apply Hlk|]. by rewrite H1.
    + rewrite HR, bool_decide_false by set_solver. simpl.
      rewrite (st_aligned i issuer p pis) by done. lia.
  - rewrite HR. set_solver.
  - by rewrite HB, HR, bool_decide_false by set_solver.
  - intros c i Hc. by apply st_list in Hc.
  - intros i j p q Hp Hq Hc. apply Hlk in Hp. apply Hlk in Hq. rewrite Hc in Hp. congruence.
  - intros q k Hq. by rewrite st_packets in Hq.
  - set_solver.
  - set_solver.
  - intros E. apply Hlk in Hpis. by rewrite E in Hpis.
Qed.

Lemma reachable_inv s0 s :
  started isMemAddr issuer s0 → reachable isMemAddr s0 s → ∃ k, inv k s.
Proof.
  intros H0 Hr. induction Hr as [|s l s' Hr [k Hi] Hen Hst]; [by apply started_inv|].
  destruct (step_ok _ _ _ Hi Hen) as (s'' & k' & E & Hi'). rewrite Hst in E. simplify_eq. eauto.
Qed.

(** ** What is left to do when nothing can happen *)

(** There is a first event, or none. *)
Lemma first_event (m : gmap nat PE) :
  map_Forall (λ _ p, operateNextEvent p = None ∧ scheduleReqEvent p = None) m ∨
  ∃ t i p, m !! i = Some p ∧ (operateNextEvent p = Some t ∨ scheduleReqEvent p = Some t) ∧
    map_Forall (λ _ p, not_before t (operateNextEvent p) ∧ not_before t (scheduleReqEvent p)) m.
Proof.
  induction m as [|i p m Hi IH] using map_ind; [left; apply map_Forall_empty|].
  assert (Hp : (operateNextEvent p = None ∧ scheduleReqEvent p = None) ∨
    ∃ t, (operateNextEvent p = Some t ∨ scheduleReqEvent p = Some t) ∧
         not_before t (operateNextEvent p) ∧ not_before t (scheduleReqEvent p)).
  { destruct (operateNextEvent p) as [a|], (scheduleReqEvent p) as [b|]; [|right..|by left].
    - right. destruct (Z.le_gt_cases a b); [exists a|exists b]; simpl; naive_solver lia.
    - exists a. simpl. naive_solver lia.
    - exists b. simpl. naive_solver lia. }
  assert (Hmono : ∀ t u, t ≤ u →
    map_Forall (λ _ p, not_before u (operateNextEvent p) ∧ not_before u (scheduleReqEvent p)) m →
    map_Forall (λ _ p, not_before t (operateNextEvent p) ∧ not_before t (scheduleReqEvent p)) m).
  { intros t u Htu Hm. eapply map_Forall_impl; [exact Hm|]. intros j q [? ?].
    split; by eapply not_before_mono. }
  assert (Hnone : ∀ t, map_Forall (λ _ p, operateNextEvent p = None ∧ scheduleReqEvent p = None) m →
    map_Forall (λ _ p, not_before t (operateNextEvent p) ∧ not_before t (scheduleReqEvent p)) m).
  { intros t Hm. eapply map_Forall_impl; [exact Hm|]. by intros j q [-> ->]. }
  destruct IH as [IH|(t & j & q & Hj & Hev & Hall)], Hp as [Hp|(u & Hu & Hpu)].
  - left. by apply map_Forall_insert.
  - right. exists u, i, p. rewrite lookup_insert_eq. split_and!; [done..|].
    apply map_Forall_insert; eauto.
  - right. exists t, j, q. rewrite lookup_insert_ne by congruence. split_and!; [done..|].
    apply map_Forall_insert; [done|]. by destruct Hp as [-> ->].
  - right. destruct (Z.le_gt_cases u t) as [Hle|Hlt].
    + exists u, i, p. rewrite lookup_insert_eq. split_and!; [done..|]. apply map_Forall_insert; eauto.
    + exists t, j, q. rewrite lookup_insert_ne by congruence. split_and!; [done..|].
      apply map_Forall_insert; [done|]. split; [|done].
      destruct Hpu as [H1 H2]. split; (eapply (not_before_mono u); [lia|done]).
Qed.

(** Events at or beyond the horizon are not served. *)
Definition within_horizon (w : World) : Prop :=
  map_Forall (λ _ p, (∀ t, operateNextEvent p = Some t → t < horizon) ∧
                     (∀ t, scheduleReqEvent p = Some t → t < horizon)) (pes w).

Lemma stuck_idle k s :
  inv k s → (∀ l, ¬ enabled s l) → within_horizon (world s) →
  map_Forall (λ _ p, operateNextEvent p = None ∧ scheduleReqEvent p = None) (pes (world s)) ∧
  pending s = ∅ ∧ refused s = ∅.
Proof.
  intros Hi Hst Hh.
  destruct (first_event (pes (world s))) as [Hno|(t & i & p & Hp & Hev & Hall)].
  - assert (He : earliest (curTick (world s)) (world s)).
    { eapply map_Forall_impl; [exact Hno|]. by intros ? ? [-> ->]. }
    pose proof (i_time _ _ _ _ Hi). split_and!; [done|..]; apply set_eq; (intros x; split; [|set_solver]).
    + destruct x as [i r]. intros Hx. exfalso. apply (Hst (LResp i r (curTick (world s)))).
      cbn. split_and!; [lia|lia|done..].
    + intros Hx. exfalso. apply (Hst (LRetry x (curTick (world s)))). cbn. split_and!; [lia|lia|done..].
  - exfalso. destruct (Hh i p Hp) as [H1 H2]. destruct Hev as [Hev|Hev].
    + apply (Hst (LOperate i t)). cbn. split_and!; [by apply H1|done|eauto].
    + apply (Hst (LSend i t true)). cbn. split_and!; [by apply H2|done|eauto].
Qed.

Lemma owed_none pk i cmd m : owed pk ∅ i cmd m → m = ∅.
Proof.
  intros Ho. apply map_eq. intros r. rewrite lookup_empty.
  destruct (m !! r) eqn:E; [|done]. exfalso.
  destruct (proj1 (Ho r)) as [? _]; [by rewrite E|]. set_solver.
Qed.

Lemma stuck_done k s i p :
  inv k s → (∀ l, ¬ enabled s l) → within_horizon (world s) →
  pes (world s) !! i = Some p →
  cur_traffic p = Z.of_nat (length (traffic_list p)) ∧
  waitingSend_read p = [] ∧ waitingSend_write p = [] ∧
  waitingResp_read p = ∅ ∧ waitingResp_write p = ∅ ∧
  pe_list (world s) !! getCoordinate p = None.
Proof.
  intros Hi Hst Hh. destruct (stuck_idle _ _ Hi Hst Hh) as (Hev & Hpe & Href).
  assert (Hdone : ∀ j q, pes (world s) !! j = Some q → j ∉ rdy_sync_list (world s) →
            in_phase issuer (full (world s)) (rdy_sync_list (world s)) (refused s) j q Done).
  { intros j q Hq HR. destruct (Hev j q Hq) as [Ho Hs].
    destruct (i_pe _ _ _ _ Hi j q Hq) as ([ph Hph] & Hlo & _).
    pose proof (lo_read _ _ _ _ _ _ _ Hlo) as Hr. rewrite Hpe in Hr. apply owed_none in Hr.
    rewrite Href in Hph |- *. destruct ph; cbn [in_phase] in *; unfold armed, unarmed in *; set_solver. }
  assert (HR : rdy_sync_list (world s) = ∅).
  { destruct (full (world s)) eqn:Hf.
    - exfalso. destruct (i_issuer _ _ _ _ Hi) as [pis Hpis].
      destruct (Hev issuer pis Hpis) as [Ho Hs].
      assert (issuer ∈ rdy_sync_list (world s)) as HRi by (apply full_all; [done|by eapply elem_of_dom_2]).
      destruct (i_pe _ _ _ _ Hi issuer pis Hpis) as ([ph Hph] & _). rewrite Hf, Href in Hph.
      destruct ph; cbn [in_phase] in Hph; unfold armed, unarmed in Hph; set_solver.
    - apply bool_decide_eq_false in Hf. pose proof (i_rdy _ _ _ _ Hi) as Hsub.
      destruct (decide (dom (pes (world s)) ⊆ rdy_sync_list (world s))) as [Hs'|Hn]; [set_solver|].
      assert (∃ j, j ∈ dom (pes (world s)) ∧ j ∉ rdy_sync_list (world s)) as (j & Hj & HRj).
      { destruct (set_choose_or_empty (dom (pes (world s)) ∖ rdy_sync_list (world s))) as [[j Hj]|He].
        - exists j. set_solver.
        - exfalso. apply Hn. set_solver. }
      apply elem_of_dom in Hj as [q Hq]. pose proof (Hdone j q Hq HRj) as (_ & _ & _ & _ & _ & _ & Hc).
      by destruct (no_barrier_open _ _ _ _ _ _ Hi Hq HRj Hc). }
  intros Hp. destruct (Hdone i p Hp) as (Ho & _ & Hqr & Hqw & Hrr & HRi & Hc); [set_solver|].
  destruct (i_pe _ _ _ _ Hi i p Hp) as (_ & Hlo & _ & Hli & _).
  pose proof (lo_write _ _ _ _ _ _ _ Hlo) as Hw. rewrite Hpe in Hw. apply owed_none in Hw.
  split_and!; try done. destruct Hli as [[_ Hl]|[Hl _]]; [|done]. by destruct Hl.
Qed.

(** Every PE has done all it had to do. *)
Definition finished (s : Sys) : Prop :=
  (∀ i p, pes (world s) !! i = Some p →
     cur_traffic p = Z.of_nat (length (traffic_list p)) ∧
     waitingSend_read p = [] ∧ waitingSend_write p = [] ∧
     waitingResp_read p = ∅ ∧ waitingResp_write p = ∅) ∧
  pe_list (world s) = ∅ ∧ exits (world s) ≠ [].

Lemma stuck_finished k s :
  inv k s → (∀ l, ¬ enabled s l) → within_horizon (world s) → finished s.
Proof.
  intros Hi Hst Hh.
  assert (pe_list (world s) = ∅) as Hl.
  { apply map_eq. intros c. rewrite lookup_empty. destruct (pe_list (world s) !! c) as [i|] eqn:E; [|done].
    destruct (i_list _ _ _ _ Hi _ _ E) as (p & Hp & ->).
    destruct (stuck_done _ _ _ _ Hi Hst Hh Hp) as (_ & _ & _ & _ & _ & ?). congruence. }
  split_and!; [|done|by apply (i_exit _ _ _ _ Hi)].
  intros i p Hp. by destruct (stuck_done _ _ _ _ Hi Hst Hh Hp) as (? & ? & ? & ? & ? & _).
Qed.
End props.

(** ** The theorems *)

(** C6. No handler of a PE ever fails.  From any state in which the PEs were
    started with well-formed traffic (all transfers inside the memory, the same
    number of barriers on every PE, one issuer), whatever the memory system
    does, every step the simulator can take runs to completion: no assertion of
    [pe.cc] or of the event queue fails (no empty queue is popped, no event is
    scheduled twice or in the past), no response is unexpected, no deleted
    packet is touched. *)
Theorem pes_never_fail isMemAddr issuer s0 s l :
  started isMemAddr issuer s0 → reachable isMemAddr s0 s → enabled s l →
  ∃ s', sys_step isMemAddr s l = Ok s'.
Proof.
  intros H0 Hr Hen. destruct (reachable_inv _ _ _ _ H0 Hr) as [k Hi].
  destruct (step_ok _ _ _ _ _ Hi Hen) as (s' & _ & E & _). eauto.
Qed.

(** C3. The PEs never deadlock: a reachable state in which nothing can happen
    any more (no event before the horizon, no response or retry owed) is one
    in which every PE has operated all its traffic, sent every packet and
    received every response, has left the list of PEs, and the exit of the
    simulation loop was requested. *)
Theorem pes_never_stuck isMemAddr issuer s0 s :
  started isMemAddr issuer s0 → reachable isMemAddr s0 s →
  (∀ l, ¬ enabled s l) → within_horizon (world s) →
  (∀ i p, pes (world s) !! i = Some p →
     cur_traffic p = Z.of_nat (length (traffic_list p)) ∧
     waitingSend_read p = [] ∧ waitingSend_write p = [] ∧
     waitingResp_read p = ∅ ∧ waitingResp_write p = ∅) ∧
  pe_list (world s) = ∅ ∧ exits (world s) ≠ [].
Proof.
  intros H0 Hr Hst Hh. destruct (reachable_inv _ _ _ _ H0 Hr) as [k Hi].
  by eapply stuck_finished.
Qed.

(** C33. The read barrier: whenever the next entry of a PE is scheduled to be
    operated, all packets of its previous entry are sent and all its reads are
    answered; only responses to writes may still be owed to it. *)
Theorem pes_read_barrier isMemAddr issuer s0 s i p t :
  started isMemAddr issuer s0 → reachable isMemAddr s0 s →
  pes (world s) !! i = Some p → operateNextEvent p = Some t →
  waitingSend_read p = [] ∧ waitingSend_write p = [] ∧ waitingResp_read p = ∅ ∧
  ∀ r, (i, r) ∈ pending s → ∃ k, packets (world s) !! r = Some k ∧ pk_cmd k = WriteReq.
Proof.
  intros H0 Hr Hp Hop. destruct (reachable_inv _ _ _ _ H0 Hr) as [k Hi].
  destruct (ready_fields _ _ _ _ _ _ _ Hi Hp Hop) as (_ & ? & ? & Hrr & _). split_and!; try done.
  intros r Hir. destruct (i_pend _ _ _ _ Hi _ _ Hir) as (_ & q & Hq & Hc).
  exists q. split; [done|]. destruct Hc as [Hc|]; [|done]. exfalso.
  destruct (i_pe _ _ _ _ Hi i p Hp) as (_ & Hlo & _).
  destruct (proj2 (lo_read _ _ _ _ _ _ _ Hlo r)) as [x Hx]; [eauto|]. by rewrite Hrr in Hx.
Qed.

(** C23. The broadcast barrier: the packet a PE is about to send belongs to a
    broadcast only if the PE is the issuer and every PE stands at the barrier
    with nothing else to send and no event of its own scheduled; an ordinary
    packet is sent only by a PE that does not stand at a barrier. *)
Theorem pes_broadcast_waits_for_all isMemAddr issuer s0 s i p t k :
  started isMemAddr issuer s0 → reachable isMemAddr s0 s →
  pes (world s) !! i = Some p → scheduleReqEvent p = Some t →
  front_packet (world s) i = Some k →
  if rq_broadcast (pk_req k) then
    i = issuer ∧ broadcast_issuer (world s) = Some i ∧
    rdy_sync_list (world s) = dom (pes (world s)) ∧
    ∀ j q, pes (world s) !! j = Some q → j ≠ i →
      operateNextEvent q = None ∧ scheduleReqEvent q = None ∧
      waitingSend_read q = [] ∧ waitingSend_write q = []
  else i ∉ rdy_sync_list (world s).
Proof.
  intros H0 Hr Hp Hsr Hf. destruct (reachable_inv _ _ _ _ H0 Hr) as [n Hi].
  destruct (send_ready _ _ _ _ _ _ _ Hi Hp Hsr) as (write & q & rest & pk & Hs).
  rewrite (front_sending _ _ _ _ _ _ _ _ _ Hp Hs) in Hf. simplify_eq. destruct Hs.
  rewrite sd_bcast. case_bool_decide as HR; [|done]. destruct (sd_issuer HR) as [-> Hfull].
  split_and!; [done|by rewrite (i_bcast _ _ _ _ Hi), bool_decide_true|by apply bool_decide_eq_true in Hfull|].
  intros j pj Hj Hne. destruct (i_pe _ _ _ _ Hi j pj Hj) as ([ph Hph] & _).
  assert (j ∈ rdy_sync_list (world s)) by (apply full_all; [done|by eapply elem_of_dom_2]).
  destruct ph; cbn [in_phase] in Hph; unfold unarmed in Hph; naive_solver.
Qed.

(** Requests and responses match: in every reachable state the requests a
    PE waits for are exactly those the memory system owes it a response to,
    each filed under its kind and sent no later than now. *)
Theorem pes_account_for_responses isMemAddr issuer s0 s i p r :
  started isMemAddr issuer s0 → reachable isMemAddr s0 s → pes (world s) !! i = Some p →
  (is_Some (waitingResp_read p !! r) ∨ is_Some (waitingResp_write p !! r) ↔ (i, r) ∈ pending s) ∧
  (∀ rd t, waitingResp rd p !! r = Some t → t ≤ curTick (world s) ∧
     ∃ k, packets (world s) !! r = Some k ∧ isRead (pk_cmd k) = rd ∧ rq_id (pk_req k) = r).
Proof.
  intros H0 Hr Hp. destruct (reachable_inv _ _ _ _ H0 Hr) as [k Hi].
  destruct (i_pe _ _ _ _ Hi i p Hp) as (_ & [] & _). split.
  - rewrite (lo_read r), (lo_write r). split; [naive_solver|]. intros Hir.
    destruct (i_pend _ _ _ _ Hi _ _ Hir) as (_ & q & Hq & [Hc|Hc]); [left|right]; eauto.
  - intros rd t Hrd. split; [destruct rd; [by apply (lo_rticks r)|by apply (lo_wticks r)]|].
    assert (∃ q, packets (world s) !! r = Some q ∧ pk_cmd q = if rd then ReadReq else WriteReq)
      as (q & Hq & Hc).
    { destruct rd; [destruct (proj1 (lo_read r)) as [_ ?]|destruct (proj1 (lo_write r)) as [_ ?]]; eauto. }
    exists q. split_and!; [done|rewrite Hc; by destruct rd|by apply (i_packets _ _ _ _ Hi) in Hq as [_ ?]].
Qed.
