(* ===== verification/PEWitness.v ===== *)
(** * A concrete run of two PEs

    Two PEs built by the constructor, with a broadcast read on the first and a
    SYNC on the second, run to completion: the hypotheses of the theorems about
    the PEs hold for them. *)
From stdpp Require Import base tactics list gmap strings sets.
From Stdlib Require Import ZArith Lia.
From S2P Require Import Prelude MemCmd TrafficPattern PE PESystem PEInv PERun PEIssue PEProps.
Local Open Scope Z_scope.

Definition empty_world : World := mkWorld 0 ∅ ∅ ∅ None ∅ 1 1 [].

Definition ex_mem (a : Z) : bool := (0 <=? a) && (a <? 2 ^ 20).

Definition ex_bcast : TrafficPattern.Traffic :=
  TrafficPattern.mk TrafficPattern.READ (0, 0) (0, 0) 128 64
    TrafficPattern.UNICAST TrafficPattern.BROADCAST.
Definition ex_sync : TrafficPattern.Traffic :=
  TrafficPattern.mk TrafficPattern.SYNC (0, 1) (0, 0) 0 0
    TrafficPattern.UNICAST TrafficPattern.UNICAST.

Definition ex_boot : M World unit :=
  PE_new 0 5 64 64 (2 ^ 30) 0 2 ;;
  PE_new 1 6 64 64 (2 ^ 30) 0 2 ;;
  upd_pe 0 (set_traffic_list [ex_bcast]) ;;
  upd_pe 1 (set_traffic_list [ex_sync]) ;;
  start 0 ;; start 1.

Definition ex_s0 : Sys :=
  Eval vm_compute in
  mkSys (match ex_boot empty_world with Ok (_, w) => w | Err _ => empty_world end) ∅ ∅.

(** A run of the system. *)
Fixpoint exec (isMemAddr : Z → bool) (s : Sys) (ls : list label) : res Sys :=
  match ls with
  | [] => Ok s
  | l :: ls' => s' ← sys_step isMemAddr s l; exec isMemAddr s' ls'
  end.

Definition ex_labels : list label :=
  [LOperate 0 1; LOperate 1 1; LSend 0 2 true; LResp 0 1 5; LResp 1 1 5;
   LOperate 0 6; LOperate 1 6].

(** The state after the first [n] steps. *)
Definition ex_state (n : nat) : Sys :=
  match exec ex_mem ex_s0 (take n ex_labels) with Ok s => s | Err _ => ex_s0 end.

Lemma ex_started : started ex_mem 0 ex_s0.
Proof.
  assert (Hcases : ∀ i p, pes (world ex_s0) !! i = Some p →
    (i = 0%nat ∧ Some p = pes (world ex_s0) !! 0%nat) ∨
    (i = 1%nat ∧ Some p = pes (world ex_s0) !! 1%nat)).
  { intros i p Hp. assert (i ∈ [1; 0]%nat) as Hin.
    { assert (i ∈ dom (pes (world ex_s0))) as Hd by (by eapply elem_of_dom_2).
      revert Hd. rewrite <-elem_of_elements.
      assert (elements (dom (pes (world ex_s0))) = [1; 0]%nat) as -> by (vm_compute; reflexivity). done. }
    set_solver. }
  constructor.
  - vm_compute. split; congruence.
  - split_and!; vm_compute; reflexivity.
  - vm_compute. reflexivity.
  - reflexivity.
  - eexists. vm_compute. reflexivity.
  - intros c i. split.
    + intros Hc. assert ((c, i) ∈ [("0,1", 1%nat); ("0,0", 0%nat)]) as Hin.
      { apply elem_of_map_to_list in Hc. revert Hc.
        assert (map_to_list (pe_list (world ex_s0)) = [("0,1", 1%nat); ("0,0", 0%nat)]) as ->
          by (vm_compute; reflexivity). done. }
      rewrite !list_elem_of_In in Hin. destruct Hin as [[= <- <-]|[[= <- <-]|[]]];
        (eexists; split; [vm_compute; reflexivity|vm_compute; reflexivity]).
    + intros (p & Hp & ->). destruct (Hcases i p Hp) as [[-> Hp']|[-> Hp']];
        vm_compute in Hp'; injection Hp' as ->; vm_compute; reflexivity.
  - intros i p Hp. destruct (Hcases i p Hp) as [[-> Hp']|[-> Hp']];
      vm_compute in Hp'; injection Hp' as ->; (split_and!; [vm_compute; reflexivity..|vm_compute; split; congruence|vm_compute; congruence|]).
    + apply Forall_singleton. split; [done|]. intros _. split; [|done].
      constructor; try (cbn; lia). intros j Hj. change (0 ≤ j < 1) in Hj.
      assert (j = 0) as -> by lia. vm_compute. reflexivity.
    + apply Forall_singleton. split; [done|]. by intros ?.
  - intros i j p q Hp Hq. destruct (Hcases i p Hp) as [[-> Hp']|[-> Hp']],
      (Hcases j q Hq) as [[-> Hq']|[-> Hq']]; vm_compute in Hp', Hq'; injection Hp' as ->;
      injection Hq' as ->; vm_compute; reflexivity.
Qed.

(** Every step of the run is enabled and succeeds. *)
Lemma ex_step (n : nat) l :
  enabled (ex_state n) l → sys_step ex_mem (ex_state n) l = Ok (ex_state (S n)) →
  reachable ex_mem ex_s0 (ex_state n) → reachable ex_mem ex_s0 (ex_state (S n)).
Proof. intros Hen Hs Hr. by eapply reach_step. Qed.

Ltac solve_enabled :=
  split; [vm_compute; (reflexivity || (split; congruence))|];
  split; [apply (bool_decide_unpack _); vm_compute; exact I|];
  first [ eexists; split; vm_compute; reflexivity
        | apply (bool_decide_unpack _); vm_compute; exact I ].

Ltac ex_run n l :=
  apply (ex_step n l); [solve_enabled|vm_compute; reflexivity|].

Lemma ex_reachable2 : reachable ex_mem ex_s0 (ex_state 2).
Proof.
  ex_run 1%nat (LOperate 1 1). ex_run 0%nat (LOperate 0 1). apply reach_refl.
Qed.

Lemma ex_reachable5 : reachable ex_mem ex_s0 (ex_state 5).
Proof.
  ex_run 4%nat (LResp 1 1 5). ex_run 3%nat (LResp 0 1 5). ex_run 2%nat (LSend 0 2 true).
  apply ex_reachable2.
Qed.

Lemma ex_reachable7 : reachable ex_mem ex_s0 (ex_state 7).
Proof. ex_run 6%nat (LOperate 1 6). ex_run 5%nat (LOperate 0 6). apply ex_reachable5. Qed.

Lemma ex_idle :
  map_Forall (λ _ p, operateNextEvent p = None ∧ scheduleReqEvent p = None)
    (pes (world (ex_state 7))).
Proof. apply (bool_decide_unpack _). vm_compute. exact I. Qed.

Lemma ex_stuck l : ¬ enabled (ex_state 7) l.
Proof.
  pose proof ex_idle as Hidle.
  assert (pending (ex_state 7) = ∅ ∧ refused (ex_state 7) = ∅) as [Hp Hr]
    by (split; vm_compute; reflexivity).
  destruct l; intros (_ & _ & Hen); cbn in Hen.
  - destruct Hen as (p & Hp' & He). apply Hidle in Hp' as [? _]. congruence.
  - destruct Hen as (p & Hp' & He). apply Hidle in Hp' as [_ ?]. congruence.
  - rewrite Hr in Hen. by apply not_elem_of_empty in Hen.
  - rewrite Hp in Hen. by apply not_elem_of_empty in Hen.
Qed.

(** The theorems at this run. *)
Lemma pes_never_fail_witness :
  enabled (ex_state 2) (LSend 0 2 true) ∧
  ∃ s', sys_step ex_mem (ex_state 2) (LSend 0 2 true) = Ok s'.
Proof.
  assert (enabled (ex_state 2) (LSend 0 2 true)) as He by solve_enabled.
  split; [exact He|].
  exact (pes_never_fail ex_mem 0 ex_s0 _ _ ex_started ex_reachable2 He).
Defined.

Lemma pes_never_stuck_witness :
  pe_list (world (ex_state 7)) = ∅ ∧ exits (world (ex_state 7)) ≠ [].
Proof.
  refine (proj2 (pes_never_stuck ex_mem 0 ex_s0 _ ex_started ex_reachable7 ex_stuck _)).
  intros i p Hp. destruct (ex_idle i p Hp) as [H1 H2].
  split; intros t Ht; [rewrite H1 in Ht|rewrite H2 in Ht]; discriminate Ht.
Defined.

Lemma pes_read_barrier_witness :
  ∃ p, pes (world (ex_state 5)) !! 0%nat = Some p ∧ operateNextEvent p = Some 6 ∧
       waitingResp_read p = ∅.
Proof.
  eexists. split; [vm_compute; reflexivity|]. split; [reflexivity|].
  refine (proj1 (proj2 (proj2 (pes_read_barrier ex_mem 0 ex_s0 (ex_state 5) 0 _ 6
            ex_started ex_reachable5 _ _)))); [vm_compute; reflexivity|reflexivity].
Defined.

Lemma pes_broadcast_waits_for_all_witness :
  rdy_sync_list (world (ex_state 2)) = dom (pes (world (ex_state 2))).
Proof.
  refine (proj1 (proj2 (proj2 (pes_broadcast_waits_for_all ex_mem 0 ex_s0 (ex_state 2) 0 _ 2
            (line_packet (mkParams 5 0 0 64 64 (2 ^ 30) 0) ReadReq true 128 1)
            ex_started ex_reachable2 _ _ _)))); vm_compute; reflexivity.
Defined.

Lemma pes_account_for_responses_witness :
  ∃ p, pes (world (ex_state 3)) !! 1%nat = Some p ∧
       (is_Some (waitingResp_read p !! 1%positive) ∨
        is_Some (waitingResp_write p !! 1%positive) ↔ (1%nat, 1%positive) ∈ pending (ex_state 3)).
Proof.
  eexists. split; [vm_compute; reflexivity|].
  refine (proj1 (pes_account_for_responses ex_mem 0 ex_s0 (ex_state 3) 1 _ 1 ex_started _ _));
    [|vm_compute; reflexivity].
  ex_run 2%nat (LSend 0 2 true). apply ex_reachable2.
Defined.

(** A write of 200 bytes from address 100: the last 44 bytes are not sent. *)
Definition ex_write : TrafficPattern.Traffic :=
  TrafficPattern.mk TrafficPattern.WRITE (0, 1) (0, 0) 100 200
    TrafficPattern.UNICAST TrafficPattern.UNICAST.

Lemma ex_write_ok : transfer_ok ex_mem 64 ex_write.
Proof.
  constructor; try (cbn; lia). intros j Hj. change (0 ≤ j < 3) in Hj. unfold ex_mem.
  change (entry_base 64 ex_write) with 64. apply andb_true_iff.
  rewrite Z.leb_le, Z.ltb_lt. lia.
Qed.

Lemma ex_numbered : numbered (packets (world ex_s0)) (next_packet (world ex_s0)) (next_request (world ex_s0)).
Proof. split; [reflexivity|]. intros q k Hq. change (packets (world ex_s0)) with (∅ : gmap positive Packet) in Hq. by rewrite lookup_empty in Hq. Qed.

Lemma issue_covers_witness :
  entry_end 64 ex_write = 256 ∧
  ∃ w' (new : list positive), issue 1 ex_write (world ex_s0) = Ok (tt, w') ∧
    ((∃ q k, q ∈ new ∧ packets w' !! q = Some k ∧ isWrite (pk_cmd k) = true ∧
        rq_addr (pk_req k) ≤ 255 < rq_addr (pk_req k) + rq_size (pk_req k)) ↔
     255 < entry_end 64 ex_write).
Proof.
  split; [reflexivity|].
  destruct (issue_covers ex_mem 1 (world ex_s0) _ ex_write
    ltac:(vm_compute; reflexivity) ex_numbered ltac:(vm_compute; split; congruence)
    ex_write_ok ltac:(discriminate) ltac:(reflexivity) ltac:(vm_compute; split; congruence))
    as (w' & new & Hrun & _ & Hcov & _).
  exists w', new. split; [exact Hrun|]. apply (Hcov 255). cbn. lia.
Defined.

(** The broadcast packet about to be sent, in a system without memory. *)
Definition ex_w2 : World :=
  set_pes (alter (set_scheduleReqEvent None) 0%nat (pes (world (ex_state 2)))) (world (ex_state 2)).

Lemma suppressed_packet_dangles_witness :
  ∃ w', scheduleReq (λ _, false) 0 true ex_w2 = Ok (tt, w').
Proof.
  destruct (suppressed_packet_dangles (λ _, false) 0 ex_w2
    _ 1%positive [] (line_packet (mkParams 5 0 0 64 64 (2 ^ 30) 0) ReadReq true 128 1) true
    ltac:(vm_compute; reflexivity) ltac:(vm_compute; reflexivity) ltac:(vm_compute; reflexivity)
    eq_refl ltac:(vm_compute; reflexivity) ltac:(vm_compute; split; congruence)) as (w' & H & _).
  exists w'. exact H.
Defined.
