(* ===== verification/Link.v ===== *)
(** * From the traffic generator to the simulated PEs

    The two programs of the repository meet in the traffic pattern file: the
    generator writes it ([top.cpp]), [PE::parseTraffic] reads it.  This file
    shows that the file carries the traffic faithfully, that every entry reaches
    the PE it is meant for, and, with the results on both sides, that the
    traffic of every generator runs to completion on the PEs. *)
From stdpp Require Import base tactics list gmap strings pretty sets.
From Stdlib Require Import ZArith Lia Ascii.
From S2P Require Import Prelude Json Graph TrafficGen Schedule SchedFacts GenProps Top MemCmd TrafficPattern PE PESystem PEInv PERun PEProps.
Local Open Scope Z_scope.

(** ** What the reader makes of an entry *)

Definition tp_type (t : RequestType) : TrafficPattern.TrafficRequestType :=
  match t with
  | READ => TrafficPattern.READ | WRITE => TrafficPattern.WRITE
  | COMPUTE => TrafficPattern.COMPUTE | SYNC => TrafficPattern.SYNC
  end.
Definition tp_cast (t : TrafficType) : TrafficPattern.TrafficType :=
  match t with
  | UNICAST => TrafficPattern.UNICAST | MULTICAST => TrafficPattern.MULTICAST
  | BROADCAST => TrafficPattern.BROADCAST
  end.

(** Addresses behind the global memory are moved to the local memories. *)
Definition relocate (gmem loff addr : Z) : Z := if gmem <=? addr then u64 (addr + loff) else addr.

(** The coordinates as read back: one character each. *)
Definition read_pair (p : Z * Z) : Z * Z :=
  match parse_pair (pair_string p) with Ok q => q | Err _ => (0, 0) end.

Definition tp_of (gmem loff : Z) (t : Traffic) : TrafficPattern.Traffic :=
  TrafficPattern.mk (tp_type (tr_type t)) (read_pair (tr_src t)) (read_pair (tr_dest t))
    (relocate gmem loff (tr_addr t)) (tr_size t) (tp_cast (tr_request t)) (tp_cast (tr_response t)).

(** Addresses and sizes are [uint64_t]. *)
Definition machine_entry (t : Traffic) : Prop :=
  0 ≤ tr_addr t < 2 ^ 64 ∧ 0 ≤ tr_size t < 2 ^ 64.

(** ** Coordinates *)

Lemma pretty_nonempty (z : Z) : ∃ c s, pretty z = String c s.
Proof.
  destruct (pretty z) eqn:E; [|eauto].
  destruct z; simpl in E; try discriminate E.
  change (pretty (Zpos p)) with (pretty (Npos p)) in E. exfalso.
  assert (∀ x s, s ≠ EmptyString → pretty_N_go x s ≠ EmptyString) as Hgo.
  { intros x. induction (N.lt_wf_0 x) as [x _ IH]. intros s Hs.
    destruct (N.eq_0_gt_0_cases x) as [->|Hx]; [by rewrite pretty_N_go_0|].
    rewrite pretty_N_go_step by done. apply IH; [by apply N.div_lt|done]. }
  unfold pretty, pretty_N in E. case_decide; [done|].
  rewrite pretty_N_go_step in E by lia. by apply Hgo in E.
Qed.

Lemma string_length_app (a b : string) :
  String.length (a +:+ b) = (String.length a + String.length b)%nat.
Proof. induction a; simpl; auto. Qed.

Lemma char_at_ok s i : (i ≤ String.length s)%nat → ∃ c, char_at s i = Ok c.
Proof. intros H. unfold char_at. destruct (Nat.ltb_spec (String.length s) i); [lia|eauto]. Qed.

Lemma parse_pair_ok p : parse_pair (pair_string p) = Ok (read_pair p).
Proof.
  unfold read_pair. assert (∃ q, parse_pair (pair_string p) = Ok q) as [q ->]; [|done].
  assert (2 ≤ String.length (pair_string p))%nat as Hlen.
  { unfold pair_string. destruct (pretty_nonempty p.1) as (c & s & ->). simpl.
    rewrite !string_length_app. simpl. lia. }
  unfold parse_pair. destruct (char_at_ok (pair_string p) 0) as [c ->]; [lia|]. simpl.
  destruct (char_at_ok (pair_string p) 2) as [d ->]; [lia|]. simpl. eauto.
Qed.

(** One digit is read back as it was written. *)
Lemma read_pair_digits x y : 0 ≤ x ≤ 9 → 0 ≤ y ≤ 9 → read_pair (x, y) = (x, y).
Proof.
  intros Hx Hy.
  assert (forallb (λ x, forallb (λ y, bool_decide (read_pair (x, y) = (x, y))) (seqZ 0 10))
            (seqZ 0 10) = true) as H by (vm_compute; reflexivity).
  rewrite forallb_forall in H. specialize (H x). rewrite forallb_forall in H.
  eapply bool_decide_eq_true, H; apply list_elem_of_In, elem_of_seqZ; lia.
Qed.

Lemma pair_string_coordinate x y : pair_string (x, y) = coordinate x y.
Proof. done. Qed.

Lemma coordinate_row0_inj i j : coordinate 0 i = coordinate 0 j → i = j.
Proof. unfold coordinate. intros H. by apply (inj (String.app _)), (inj (String.app _)), (inj pretty) in H. Qed.

(** ** One entry *)

Lemma parse_entry_ok gmem loff t :
  machine_entry t →
  parse_entry gmem loff (reread (traffic_json t)) = Ok (pair_string (tr_src t), tp_of gmem loff t).
Proof.
  intros [Ha Hz]. unfold traffic_json, parse_entry. simpl. unfold mbind, res_bind.
  rewrite !parse_pair_ok. simpl. rewrite (u64_small (tr_addr t)), (u64_small (tr_size t)) by done.
  unfold tp_of, relocate.
  destruct (tr_type t), (tr_request t), (tr_response t); reflexivity.
Qed.

(** ** The whole file *)

Section dispatch.
Context (gmem loff : Z).

Definition assigned (l : gmap string nat) (i : nat) (ts : list Traffic) : list Traffic :=
  filter (λ t, l !! pair_string (tr_src t) = Some i) ts.

(** The PEs after the entries [ts] were handed out. *)
Definition delivered (l : gmap string nat) (ts : list Traffic) (m m' : gmap nat PE) : Prop :=
  ∀ i, m' !! i = (λ p, set_traffic_list
    (traffic_list p ++ (tp_of gmem loff <$> assigned l i ts)) p) <$> m !! i.

Lemma delivered_nil l m : delivered l [] m m.
Proof. intros i. destruct (m !! i) as [p|]; [|done]. csimpl. f_equal.
  rewrite app_nil_r. by destruct p.
Qed.

Lemma delivered_snoc l ts t i m m' :
  l !! pair_string (tr_src t) = Some i → delivered l ts m m' →
  delivered l (ts ++ [t]) m
    (alter (λ p, set_traffic_list (traffic_list p ++ [tp_of gmem loff t]) p) i m').
Proof.
  intros Hl Hd j. unfold assigned. rewrite filter_app, filter_cons, filter_nil.
  destruct (decide (i = j)) as [<-|Hij].
  - rewrite lookup_alter_eq, (Hd i), decide_True by done. destruct (m !! i); [|done]. csimpl.
    by rewrite fmap_app, app_assoc.
  - rewrite lookup_alter_ne, (Hd j), decide_False by congruence. by rewrite app_nil_r.
Qed.
End dispatch.

Lemma parseTraffic_ok self p ts w :
  pes w !! self = Some p →
  Forall machine_entry ts →
  Forall (λ t, ∃ i, pe_list w !! pair_string (tr_src t) = Some i ∧ is_Some (pes w !! i)) ts →
  ∃ m, parseTraffic self (reread (traffic_file ts)) w = Ok (tt, set_pes m w) ∧
       delivered (global_mem_size (pe_params p)) (local_mem_offset (pe_params p))
         (pe_list w) ts (pes w) m.
Proof.
  intros Hp Hm Hreg. unfold parseTraffic.
  rewrite (M_bind_ok _ _ _ _ _ (get_pe_run _ _ _ Hp)). cbv beta zeta.
  change (json_elems (reread (traffic_file ts))) with (map reread (traffic_json <$> ts)).
  set (gmem := global_mem_size _). set (loff := local_mem_offset _).
  match goal with |- context [for_each _ ?b] => set (body := b) end.
  cut (∀ ts1 m, delivered gmem loff (pe_list w) ts1 (pes w) m →
    ∃ m', for_each (map reread (traffic_json <$> ts)) body (set_pes m w) = Ok (tt, set_pes m' w) ∧
          delivered gmem loff (pe_list w) (ts1 ++ ts) (pes w) m').
  { intros Hcut. destruct (Hcut [] (pes w) (delivered_nil _ _ _ _)) as (m' & Hrun & Hd).
    exists m'. split; [|done]. rewrite <-Hrun. by destruct w. }
  induction ts as [|t ts IH]; intros ts1 m Hd.
  { exists m. by rewrite app_nil_r. }
  apply Forall_cons in Hm as [Ht Hm]. apply Forall_cons in Hreg as [(i & Hi & [q Hq]) Hreg].
  csimpl. erewrite M_seq_ok.
  - replace (ts1 ++ t :: ts) with ((ts1 ++ [t]) ++ ts) by (by rewrite <-app_assoc).
    apply (IH Hm Hreg). by eapply delivered_snoc.
  - unfold body. erewrite M_bind_ok; [|reflexivity]. erewrite M_bind_ok; [|reflexivity].
    erewrite M_bind_ok; [|reflexivity]. simpl. rewrite Hi.
    erewrite M_bind_ok; [|by apply lift_ok, parse_entry_ok].
    erewrite M_bind_ok; [|apply get_pe_run; wsimpl; by rewrite (Hd i), Hq]. reflexivity.
Qed.

(** ** The shape of generated traffic *)

(** What the PEs rely on: the numbers fit their C++ types, PE 0 issues every
    broadcast, as a read, and the other PEs the SYNCs. *)
Definition entry_shape (t : Traffic) : Prop :=
  machine_entry t ∧ (tr_type t = SYNC → tr_src t ≠ (0, 0)) ∧
  (tr_response t = BROADCAST → tr_type t = READ ∧ tr_src t = (0, 0)).

(** The addresses in the heap are [uint64_t]. *)
Definition heap_typed (h : heap) : Prop :=
  map_Forall (λ _ t, ∀ a, t_address t = Some a → 0 ≤ a < 2 ^ 64) h.

Lemma addr_of_typed h p : heap_typed h → 0 ≤ addr_of h p < 2 ^ 64.
Proof.
  intros Hh. unfold addr_of. destruct (h !! p) as [t|] eqn:Ht; simpl; [|lia].
  destruct (t_address t) as [a|] eqn:Ha; simpl; [|lia]. by apply (Hh p t).
Qed.

Lemma advance_typed h p k : heap_typed h → heap_typed (advance p k h).
Proof.
  intros Hh q t Ht a Ha. unfold advance in Ht. destruct (decide (p = q)) as [->|Hne].
  - rewrite lookup_alter_eq in Ht. destruct (h !! q); simplify_eq/=. apply u64_range.
  - rewrite lookup_alter_ne in Ht by done. by apply (Hh q t).
Qed.

Lemma op_heap_typed h o : heap_typed h → heap_typed (op_heap h o).
Proof. destruct o; simpl; auto using advance_typed. Qed.

Lemma op_shape numPE h o : heap_typed h → Forall entry_shape (op_traffic numPE h o).
Proof.
  intros Hh. destruct o as [n p|n p|z p|n]; simpl.
  1, 2: apply Forall_fmap, Forall_forall; intros i _; unfold entry_shape, machine_entry; simpl;
    split_and!; try done; apply u64_range.
  - unfold bcast_list. constructor.
    + pose proof (addr_of_typed h p Hh).
      assert (0 ≤ bcast_size h z p < 2 ^ 64) by (destruct z; apply u64_range). done.
    + apply Forall_fmap, Forall_forall. intros i Hi%elem_of_seqZ.
      unfold entry_shape, machine_entry. simpl. split_and!; try done. intros _ [= ->]. lia.
  - apply Forall_fmap, Forall_forall. by intros i _.
Qed.

Lemma shape_apply numPE ops s :
  heap_typed (g_heap s) → Forall entry_shape (g_list s) →
  Forall entry_shape (g_list (apply_ops numPE ops s)).
Proof.
  revert s. induction ops as [|o ops IH]; intros s Hh Hl; simpl; [done|].
  apply IH; simpl; [by apply op_heap_typed|]. apply Forall_app. auto using op_shape.
Qed.

(** ** Starting the system *)

(** What [configs/lab447/util/buildSystem.py] does: build the PEs, let the
    first one parse the file, start them all. *)
Section boot.
Context (reqId : nat → Z) (block line gmem loff width : Z).

Definition boot (n : nat) (file : json) : M World unit :=
  for_each (seq 0 n) (λ i, PE_new i (reqId i) block line gmem loff width) ;;
  parseTraffic 0 file ;;
  for_each (seq 0 n) start.

Definition initial_world : World := mkWorld 0 ∅ ∅ ∅ None ∅ 1 1 [].

Definition fresh_pe (i : nat) : PE :=
  mkPE (mkParams (reqId i) 0 (Z.of_nat i) block line gmem loff)
    None None [] [] 0 ∅ ∅ zero_stats [] 0.

(** The first [k] PEs exist, in row 0 of the grid. *)
Record row (k : nat) (w : World) : Prop := {
  row_pes : ∀ i, pes w !! i = if decide (i < k)%nat then Some (fresh_pe i) else None;
  row_list : ∀ c i, pe_list w !! c = Some i ↔ (i < k)%nat ∧ c = coordinate 0 (Z.of_nat i);
  row_size : size (pe_list w) = k;
  row_rest : w = set_pe_list (pe_list w) (set_pes (pes w) initial_world);
}.

Lemma row_new k w :
  row k w → Z.of_nat k < width < 2 ^ 32 →
  ∃ w', PE_new k (reqId k) block line gmem loff width w = Ok (tt, w') ∧ row (S k) w'.
Proof.
  intros [Hp Hl Hs Hr] Hk. unfold PE_new.
  erewrite M_bind_ok by reflexivity. cbv beta. rewrite Hs.
  rewrite (proj2 (Z.eqb_neq width 0)) by lia. cbv zeta.
  rewrite Z.div_small, Z.mod_small by lia.
  change (u32 0) with 0. assert (u32 (Z.of_nat k) = Z.of_nat k) as -> by (apply Z.mod_small; lia).
  change (mkPE _ _ _ _ _ _ _ _ _ _ _) with (fresh_pe k).
  change (getCoordinate (fresh_pe k)) with (coordinate 0 (Z.of_nat k)).
  assert (pe_list w !! coordinate 0 (Z.of_nat k) = None) as Hnew.
  { apply eq_None_not_Some. intros [i [Hi Hc]%Hl]. apply coordinate_row0_inj in Hc. lia. }
  eexists. split; [reflexivity|]. rewrite Hnew. constructor; wsimpl.
  - intros i. destruct (decide (i = k)) as [->|Hne].
    + by rewrite lookup_insert_eq, decide_True by lia.
    + rewrite lookup_insert_ne, Hp by done. repeat case_decide; (done || lia).
  - intros c i. rewrite lookup_insert_Some, Hl. split.
    + intros [[<- <-]|[Hne [Hi ->]]]; split; (lia || done).
    + intros [Hi ->]. destruct (decide (i = k)) as [->|]; [by left|right].
      split; [|split; [lia|done]]. intros Hc%coordinate_row0_inj. lia.
  - rewrite map_size_insert_None by done. by rewrite Hs.
  - by rewrite Hr.
Qed.

Lemma seq_split n l1 (x : nat) l2 : seq 0 n = l1 ++ x :: l2 → x = length l1 ∧ (x < n)%nat.
Proof.
  intros E. assert (seq 0 n !! length l1 = Some x) as H.
  { rewrite E, lookup_app_r, Nat.sub_diag by lia. done. }
  apply lookup_seq in H. lia.
Qed.

Lemma build_row n :
  Z.of_nat n ≤ width < 2 ^ 32 →
  ∃ w, for_each (seq 0 n) (λ i, PE_new i (reqId i) block line gmem loff width) initial_world
         = Ok (tt, w) ∧ row n w.
Proof.
  intros Hn.
  destruct (for_each_inv (λ l w, row (length l) w)
    (λ i, PE_new i (reqId i) block line gmem loff width) (seq 0 n) initial_world)
    as (w & Hrun & Hrow).
  - constructor; [..|done|done]; cbn [length pes pe_list initial_world].
    + intros i. rewrite lookup_empty, decide_False by lia. done.
    + intros c i. rewrite lookup_empty. split; [done|lia].
  - intros l1 x l2 w E Hrow. destruct (seq_split _ _ _ _ E) as [-> Hx].
    destruct (row_new _ _ Hrow) as (w' & Hrun & Hrow'); [lia|].
    exists w'. rewrite length_app, Nat.add_1_r. done.
  - exists w. rewrite length_seq in Hrow. done.
Qed.

Lemma start_row n w :
  0 ≤ curTick w < horizon →
  (∀ i, (i < n)%nat → ∃ p, pes w !! i = Some p ∧ operateNextEvent p = None) →
  ∃ m, for_each (seq 0 n) start w = Ok (tt, set_pes m w) ∧
    ∀ i, m !! i = (if decide (i < n)%nat then set_operateNextEvent (Some (curTick w + 1)) else id)
                  <$> pes w !! i.
Proof.
  intros Ht Hall.
  destruct (for_each_inv (λ l w', ∃ m, w' = set_pes m w ∧
    ∀ i, m !! i = (if decide (i < length l)%nat then set_operateNextEvent (Some (curTick w + 1)) else id)
                  <$> pes w !! i) start (seq 0 n) w) as (w' & Hrun & m & -> & Hm).
  - exists (pes w). split; [by destruct w|]. intros i. by destruct (pes w !! i).
  - intros l1 x l2 w' E (m & -> & Hm). destruct (seq_split _ _ _ _ E) as [-> Hx].
    destruct (Hall _ Hx) as (p & Hp & He).
    assert (m !! length l1 = Some p) as Hmp.
    { rewrite Hm, Hp, decide_False by lia. done. }
    eexists. split.
    + unfold start. unfold horizon in Ht. apply schedule_operateNext_run with (p := p); wsimpl; (done || lia).
    + eexists. split; [reflexivity|]. intros i. wsimpl.
      rewrite length_app. simpl. destruct (decide (i = length l1)) as [->|Hne].
      * rewrite lookup_insert_eq, Hp, decide_True by lia. done.
      * rewrite lookup_insert_ne, Hm by done. repeat case_decide; (done || lia).
  - exists m. rewrite length_seq in Hm. done.
Qed.
End boot.

(** ** The started system *)

Section started.
Context (isMemAddr : Z → bool) (reqId : nat → Z) (block line gmem loff width : Z).
Context (n : nat) (ts : list Traffic).
Hypothesis (Hn : (0 < n)%nat) (Hwidth : Z.of_nat n ≤ width < 2 ^ 32).
Hypothesis (Hline : 0 < line < 2 ^ 29).
Hypothesis (Hsrc : Forall (src_ok (Z.of_nat n)) ts) (Hshape : Forall entry_shape ts).
Hypothesis Hlen : Z.of_nat (length ts) < 2 ^ 32.
Hypothesis Halign : ∀ i j, 0 ≤ i < Z.of_nat n → 0 ≤ j < Z.of_nat n →
  length (barriers i ts) = length (barriers j ts).
Hypothesis Hmem : Forall (λ t, tr_type t = READ ∨ tr_type t = WRITE →
  transfer_ok isMemAddr line (tp_of gmem loff t)) ts.

(** What PE [i] replays. *)
Definition replay (i : nat) : list TrafficPattern.Traffic :=
  tp_of gmem loff <$> filter (λ t, of_pe (Z.of_nat i) t) ts.

Lemma of_pe_true i t : of_pe i t = true ↔ tr_src t = (0, i).
Proof. apply bool_decide_eq_true. Qed.

Lemma src_row t : t ∈ ts → ∃ i, (i < n)%nat ∧ tr_src t = (0, Z.of_nat i).
Proof.
  intros Ht. rewrite Forall_forall in Hsrc. destruct (Hsrc t Ht) as [H1 H2].
  exists (Z.to_nat (tr_src t).2). destruct (tr_src t) as [a b]. simpl in *. split; [lia|].
  rewrite H1, Z2Nat.id by lia. done.
Qed.

Lemma assigned_row w i :
  row reqId block line gmem loff n w → (i < n)%nat →
  assigned (pe_list w) i ts = filter (λ t, of_pe (Z.of_nat i) t) ts.
Proof.
  intros Hr Hi. unfold assigned. apply filter_iff_on. intros t Ht.
  destruct (src_row t Ht) as (j & Hj & Hs). rewrite Is_true_true, of_pe_true, Hs.
  rewrite pair_string_coordinate, (row_list _ _ _ _ _ _ _ Hr). split.
  - intros [_ Hc%coordinate_row0_inj]. by rewrite Hc.
  - intros [= Hc]. split; [done|]. by rewrite Hc.
Qed.

Lemma is_barrier_tp t : is_barrier_entry (tp_of gmem loff t) = is_barrier t.
Proof.
  unfold is_barrier_entry, is_barrier, is_sync, is_bcast_read, tp_of. simpl.
  by destruct (tr_type t), (tr_response t).
Qed.

Lemma replay_barriers i :
  length (filter (λ t, is_barrier_entry t = true) (replay i)) = length (barriers (Z.of_nat i) ts).
Proof.
  unfold replay, barriers. rewrite filter_fmap, length_fmap, list_filter_filter.
  f_equal. apply list_filter_iff. intros t. simpl. rewrite is_barrier_tp, !Is_true_true.
  destruct (of_pe _ t), (is_barrier t); simpl; naive_solver.
Qed.

Lemma replay_ok i :
  Forall (entry_ok isMemAddr 0 i line) (replay i).
Proof.
  unfold replay. apply Forall_fmap, Forall_forall. intros t [Hi Ht]%list_elem_of_filter.
  apply Is_true_true, of_pe_true in Hi. rewrite Forall_forall in Hshape, Hmem.
  destruct (Hshape t Ht) as (_ & Hsync & Hb). specialize (Hmem t Ht).
  unfold entry_ok, is_transfer, is_sync. simpl. split.
  - intros E%bool_decide_eq_true ->. apply Hsync; [|by rewrite Hi].
    by destruct (tr_type t).
  - intros E%andb_true_iff. destruct E as [E1%bool_decide_eq_true E2%negb_true_iff].
    apply bool_decide_eq_false in E2. split.
    + apply Hmem. destruct (tr_type t); simpl in *; auto; done.
    + intros Hr. destruct Hb as [-> Hs]; [by destruct (tr_response t)|].
      split; [done|]. rewrite Hs in Hi. injection Hi. lia.
Qed.

Lemma boot_started :
  ∃ w, boot reqId block line gmem loff width n (reread (traffic_file ts)) initial_world = Ok (tt, w) ∧
       started isMemAddr 0 (mkSys w ∅ ∅).
Proof.
  destruct (build_row reqId block line gmem loff width n Hwidth) as (w & Hb & Hr).
  pose proof (row_pes _ _ _ _ _ _ _ Hr) as Hpes.
  destruct (parseTraffic_ok 0 (fresh_pe reqId block line gmem loff 0) ts w) as (m & Hp & Hd).
  { rewrite Hpes. by rewrite decide_True. }
  { eapply Forall_impl; [exact Hshape|]. by intros t []. }
  { apply Forall_forall. intros t Ht. destruct (src_row t Ht) as (i & Hi & Hs). exists i.
    rewrite Hs, pair_string_coordinate, (row_list _ _ _ _ _ _ _ Hr), Hpes, decide_True; eauto. }
  assert (∀ i, (i < n)%nat → m !! i = Some (set_traffic_list (replay i)
            (fresh_pe reqId block line gmem loff i))) as Hm.
  { intros i Hi. rewrite (Hd i), Hpes, decide_True by done. csimpl.
    by rewrite (assigned_row w i Hr Hi). }
  assert (∀ i, (n ≤ i)%nat → m !! i = None) as Hm'.
  { intros i Hi. rewrite (Hd i), Hpes, decide_False by lia. done. }
  assert (curTick w = 0) as Ht0 by (by rewrite (row_rest _ _ _ _ _ _ _ Hr)).
  destruct (start_row n (set_pes m w)) as (m' & Hs & Hm2).
  { wsimpl. rewrite Ht0. done. }
  { intros i Hi. wsimpl. eauto. }
  exists (set_pes m' w). split.
  { unfold boot. rewrite (M_seq_ok _ _ _ _ Hb), (M_seq_ok _ _ _ _ Hp). by rewrite Hs. }
  assert (∀ i p, m' !! i = Some p → (i < n)%nat ∧ p = set_operateNextEvent (Some 1)
            (set_traffic_list (replay i) (fresh_pe reqId block line gmem loff i))) as Hfin.
  { intros i p Hip. rewrite Hm2 in Hip. revert Hip. wsimpl. destruct (decide (i < n)%nat) as [Hi|Hi].
    - rewrite (Hm i Hi), Ht0. simpl. by intros [= <-].
    - rewrite Hm' by lia. done. }
  assert (∀ i, (i < n)%nat → is_Some (m' !! i)) as Hex.
  { intros i Hi. rewrite Hm2. wsimpl. rewrite (Hm i Hi). by eexists. }
  rewrite (row_rest _ _ _ _ _ _ _ Hr). constructor; wsimpl; try done.
  - by apply Hex.
  - intros c i. rewrite (row_list _ _ _ _ _ _ _ Hr). split.
    + intros [Hi ->]. destruct (Hex i Hi) as [p Hip]. exists p. split; [done|].
      by destruct (Hfin _ _ Hip) as [_ ->].
    + intros (p & Hip & ->). by destruct (Hfin _ _ Hip) as [Hi ->].
  - intros i p Hip. destruct (Hfin _ _ Hip) as [Hi ->]. simpl. split_and!; try done; try lia.
    + unfold replay. rewrite length_fmap.
      pose proof (length_filter (λ t, of_pe (Z.of_nat i) t) ts). lia.
    + apply replay_ok.
  - intros i j p q Hi Hj. destruct (Hfin _ _ Hi) as [Hin ->], (Hfin _ _ Hj) as [Hjn ->].
    unfold barriers_left. f_equal. etrans; [apply replay_barriers|].
    etrans; [|symmetry; apply replay_barriers]. apply Halign; lia.
Qed.
End started.

(** ** End to end *)

(** C1. The two programs fit together: the traffic of any of the nine
    generators, written to the pattern file, read by [parseTraffic] on a row of
    [numPE] PEs and started, runs to completion.  Whatever the memory system
    does within its protocol, no handler ever fails, and when nothing can happen
    any more every PE has operated its whole traffic, received every response
    and the simulation was asked to exit.  It suffices that the transfers lie in
    the memory. *)
Theorem generated_traffic_runs isMemAddr reqId block line gmem loff width g m ops h :
  generator_of g m ops → all_ready g h → heap_typed h →
  tg_numPE g ≤ width < 2 ^ 32 → 0 < line < 2 ^ 29 →
  (∀ s, m (mkG [] h) = Ok (tt, s) → Z.of_nat (length (g_list s)) < 2 ^ 32 ∧
     Forall (λ t, tr_type t = READ ∨ tr_type t = WRITE →
       transfer_ok isMemAddr line (tp_of gmem loff t)) (g_list s)) →
  ∃ s w, m (mkG [] h) = Ok (tt, s) ∧
    boot reqId block line gmem loff width (Z.to_nat (tg_numPE g))
      (reread (traffic_file (g_list s))) initial_world = Ok (tt, w) ∧
    ∀ s', reachable isMemAddr (mkSys w ∅ ∅) s' →
      (∀ l, enabled s' l → ∃ s'', sys_step isMemAddr s' l = Ok s'') ∧
      ((∀ l, ¬ enabled s' l) → within_horizon (world s') → finished s').
Proof.
  intros Hg Hr Hh Hw Hline Hmem. destruct (generator_widths _ _ _ Hg) as [Hpe Hops].
  pose proof (generator_runs _ _ _ [] _ Hg Hr) as Hrun. destruct (Hmem _ Hrun) as [Hlen Htr].
  destruct (boot_started isMemAddr reqId block line gmem loff width (Z.to_nat (tg_numPE g))
    (g_list (apply_ops (tg_numPE g) ops (mkG [] h)))) as (w & Hboot & Hst); try done; try lia.
  - rewrite Z2Nat.id by lia. by apply src_apply.
  - by apply shape_apply.
  - intros i j Hi Hj. rewrite !barriers_apply by lia. done.
  - eexists _, w. split; [exact Hrun|]. split; [exact Hboot|]. intros s' Hs'.
    destruct (reachable_inv _ _ _ _ Hst Hs') as [k Hi]. split.
    + intros l Hen. destruct (step_ok _ _ _ _ _ Hi Hen) as (s'' & _ & E & _). eauto.
    + by eapply stuck_finished.
Qed.

(** C36. The pattern file is lossless for one-digit coordinates: an entry whose four
    coordinates are at most 9 that is written by the generator and read by
    [parseTraffic] is the same entry, relocated to the local memories when it lies
    behind the global memory.  (Larger coordinates are misread:
    [two_digit_coordinates_misread].) *)
Theorem traffic_entry_round_trip gmem loff t :
  machine_entry t →
  0 ≤ (tr_src t).1 ≤ 9 → 0 ≤ (tr_src t).2 ≤ 9 → 0 ≤ (tr_dest t).1 ≤ 9 → 0 ≤ (tr_dest t).2 ≤ 9 →
  parse_entry gmem loff (reread (traffic_json t)) =
    Ok (pair_string (tr_src t),
        TrafficPattern.mk (tp_type (tr_type t)) (tr_src t) (tr_dest t)
          (if gmem <=? tr_addr t then u64 (tr_addr t + loff) else tr_addr t) (tr_size t)
          (tp_cast (tr_request t)) (tp_cast (tr_response t))).
Proof.
  intros Ht H1 H2 H3 H4. rewrite (parse_entry_ok _ _ _ Ht). unfold tp_of, relocate.
  destruct t as [ty [a b] [c d] ad sz rq rs]. simpl in *. by rewrite !read_pair_digits.
Qed.

(** [parseTraffic] reads one character of each coordinate: the entry of the PE
    "0,12" is filed under that PE, but says it is from (0, 1). *)
Theorem two_digit_coordinates_misread gmem loff t x y :
  machine_entry t → tr_src t = (x, y) → 0 ≤ x ≤ 9 → 10 ≤ y ≤ 99 →
  ∃ t', parse_entry gmem loff (reread (traffic_json t)) = Ok (pair_string (x, y), t') ∧
    TrafficPattern.src t' = (x, y / 10) ∧ TrafficPattern.src t' ≠ tr_src t.
Proof.
  intros Ht Hs Hx Hy. rewrite (parse_entry_ok _ _ _ Ht), Hs. eexists. split; [done|].
  assert (read_pair (x, y) = (x, y / 10)) as E.
  { assert (forallb (λ x, forallb (λ y, bool_decide (read_pair (x, y) = (x, y / 10))) (seqZ 10 90)) (seqZ 0 10) = true) as Hf
      by (vm_compute; reflexivity).
    rewrite forallb_forall in Hf. specialize (Hf x). rewrite forallb_forall in Hf.
    apply (bool_decide_unpack _), Is_true_true, Hf; apply list_elem_of_In, elem_of_seqZ; lia. }
  unfold tp_of. simpl. rewrite Hs, E. split; [done|]. intros [= E']. pose proof (Z.div_lt y 10). lia.
Qed.

(** [parseTraffic] hands every entry of the file to the PE registered under
    the entry's source coordinate, in the order of the file, and changes
    nothing else; an entry for a coordinate nobody registered is a panic. *)
Theorem parseTraffic_dispatches self p ts w :
  pes w !! self = Some p → Forall machine_entry ts →
  map_Forall (λ _ i, is_Some (pes w !! i)) (pe_list w) →
  (Forall (λ t, is_Some (pe_list w !! pair_string (tr_src t))) ts →
   ∃ m, parseTraffic self (reread (traffic_file ts)) w = Ok (tt, set_pes m w) ∧
     ∀ i, m !! i = (λ q, set_traffic_list (traffic_list q ++
       (tp_of (global_mem_size (pe_params p)) (local_mem_offset (pe_params p)) <$>
        filter (λ t, pe_list w !! pair_string (tr_src t) = Some i) ts)) q) <$> pes w !! i) ∧
  (∀ t ts1 ts2, ts = ts1 ++ t :: ts2 →
     Forall (λ t, is_Some (pe_list w !! pair_string (tr_src t))) ts1 →
     pe_list w !! pair_string (tr_src t) = None →
     parseTraffic self (reread (traffic_file ts)) w = Err (EPanic "Can't find pe")).
Proof.
  intros Hp Hm Hl.
  assert (Hreg : ∀ ts, Forall (λ t, is_Some (pe_list w !! pair_string (tr_src t))) ts →
    Forall (λ t, ∃ i, pe_list w !! pair_string (tr_src t) = Some i ∧ is_Some (pes w !! i)) ts).
  { intros l Hlf. eapply Forall_impl; [exact Hlf|]. intros t [i Hi]. eauto. }
  split.
  - intros Hs. by apply (parseTraffic_ok self p ts w Hp Hm), Hreg.
  - intros t ts1 ts2 -> H1 Hn. apply Forall_app in Hm as [Hm1 _].
    destruct (parseTraffic_ok self p ts1 w Hp Hm1 (Hreg _ H1)) as (m & Hrun & Hd).
    revert Hrun. unfold parseTraffic.
    rewrite !(M_bind_ok _ _ _ _ _ (get_pe_run _ _ _ Hp)). cbv beta zeta.
    change (json_elems (reread (traffic_file ?l))) with (map reread (traffic_json <$> l)).
    rewrite fmap_app, map_app. intros Hrun. rewrite for_each_app, (M_seq_ok _ _ _ _ Hrun).
    csimpl. apply M_bind_err. erewrite M_bind_ok by reflexivity.
    erewrite M_bind_ok by reflexivity. erewrite M_bind_ok by reflexivity.
    wsimpl. simpl. by rewrite Hn.
Qed.

(** ** Witnesses *)

Definition ram (top a : Z) : bool := (0 <=? a) && (a <? top).

Lemma transfer_in_ram top line t :
  0 < line → 0 ≤ TrafficPattern.addr t → 0 ≤ TrafficPattern.size t →
  TrafficPattern.size t + 2 * line < 2 ^ 31 →
  TrafficPattern.addr t + TrafficPattern.size t + 2 * line ≤ top < 2 ^ 64 →
  transfer_ok (ram top) line t.
Proof.
  intros Hl Ha Hz Hs Ht. constructor; try lia. intros j [Hj Hj'].
  unfold ram, entry_base. unfold entry_lines in Hj'.
  pose proof (Z.mod_pos_bound (TrafficPattern.addr t) line Hl).
  pose proof (Z.mod_le (TrafficPattern.addr t) line Ha Hl).
  set (r := TrafficPattern.addr t mod line) in *.
  set (x := Z.max (TrafficPattern.size t) line + r) in *.
  pose proof (Z.mul_div_le x line Hl). apply andb_true_iff. rewrite Z.leb_le, Z.ltb_lt. nia.
Qed.

Definition in_ram (top line : Z) (t : Traffic) : bool :=
  match tr_type t with
  | READ | WRITE => (0 <=? tr_addr t) && (0 <=? tr_size t) && (tr_size t + 2 * line <? 2 ^ 31) &&
                    (tr_addr t + tr_size t + 2 * line <=? top)
  | _ => true
  end.

Lemma in_ram_ok top line t :
  0 < line → top < 2 ^ 64 → in_ram top line t = true →
  tr_type t = READ ∨ tr_type t = WRITE → transfer_ok (ram top) line (tp_of (2 ^ 64) 0 t).
Proof.
  intros Hl Htop Hr Hty. assert (H :
    (0 <=? tr_addr t) && (0 <=? tr_size t) && (tr_size t + 2 * line <? 2 ^ 31) &&
    (tr_addr t + tr_size t + 2 * line <=? top) = true).
  { unfold in_ram in Hr. by destruct Hty as [E|E]; rewrite E in Hr. }
  rewrite !andb_true_iff, !Z.leb_le, Z.ltb_lt in H. destruct H as [[[H1 H2] H3] H4].
  assert (relocate (2 ^ 64) 0 (tr_addr t) = tr_addr t) as E.
  { unfold relocate. by rewrite (proj2 (Z.leb_gt _ _)) by lia. }
  apply transfer_in_ram; simpl; rewrite ?E; lia.
Qed.

Lemma generated_traffic_runs_witness :
  ∃ s w, generate_traffic_conv_output_stationary ex_g (mkG [] ex_heap) = Ok (tt, s) ∧
    boot (λ _, 1) 64 64 (2 ^ 64) 0 4 4 (reread (traffic_file (g_list s))) initial_world = Ok (tt, w) ∧
    ∀ s', reachable (ram (2 ^ 20)) (mkSys w ∅ ∅) s' →
      (∀ l, enabled s' l → ∃ s'', sys_step (ram (2 ^ 20)) s' l = Ok s'') ∧
      ((∀ l, ¬ enabled s' l) → within_horizon (world s') → finished s').
Proof.
  apply (generated_traffic_runs (ram (2 ^ 20)) (λ _, 1) 64 64 (2 ^ 64) 0 4 ex_g _ _ ex_heap
    ex_generator ex_ready).
  - intros p t Ht a Ha.
    assert (map_Forall (λ _ t, from_option (λ a, 0 ≤ a < 2 ^ 64) True (t_address t)) ex_heap) as Hall
      by (repeat (apply map_Forall_insert_2; [simpl; lia|]); apply map_Forall_empty).
    specialize (Hall p t Ht). cbv beta in Hall. by rewrite Ha in Hall.
  - simpl. lia.
  - lia.
  - intros s Hs.
    assert (Z.of_nat (length (g_list s)) <? 2 ^ 32 = true ∧
            forallb (in_ram (2 ^ 20) 64) (g_list s) = true) as [H1 H2].
    { destruct (generate_traffic_conv_output_stationary ex_g (mkG [] ex_heap)) as [[[] s']|] eqn:E;
        [|discriminate Hs]. injection Hs as <-. vm_compute in E. injection E as <-.
      split; vm_compute; reflexivity. }
    split; [by apply Z.ltb_lt|]. rewrite forallb_forall in H2. apply Forall_forall.
    intros t Ht. apply in_ram_ok; [lia|lia|]. by apply H2, list_elem_of_In.
Defined.

Definition ex_entry : Traffic := mkTraffic WRITE (0, 3) (1, 0) 5000 640 UNICAST UNICAST.

Lemma traffic_entry_round_trip_witness :
  parse_entry 4096 100000 (reread (traffic_json ex_entry)) =
    Ok ("0,3", TrafficPattern.mk TrafficPattern.WRITE (0, 3) (1, 0) 105000 640
                 TrafficPattern.UNICAST TrafficPattern.UNICAST).
Proof.
  refine (traffic_entry_round_trip 4096 100000 ex_entry _ _ _ _ _);
    unfold machine_entry; simpl; lia.
Defined.

(** One PE, and a file with an entry for it and one for nobody. *)
Definition ex_lone : World :=
  set_pe_list {[ "0,0" := 0%nat ]}
    (set_pes {[ 0%nat := fresh_pe (λ _, 1) 64 64 (2 ^ 30) 0 0 ]} initial_world).
Definition ex_mine : Traffic := mkTraffic READ (0, 0) (1, 0) 64 64 UNICAST UNICAST.

Lemma parseTraffic_dispatches_witness :
  (∃ m, parseTraffic 0 (reread (traffic_file [ex_mine])) ex_lone = Ok (tt, set_pes m ex_lone)) ∧
  parseTraffic 0 (reread (traffic_file [ex_mine; ex_entry])) ex_lone = Err (EPanic "Can't find pe").
Proof.
  assert (map_Forall (λ _ i, is_Some (pes ex_lone !! i)) (pe_list ex_lone)) as Hl.
  { apply map_Forall_singleton. by eexists. }
  assert (machine_entry ex_mine ∧ machine_entry ex_entry) as [M1 M2]
    by (unfold machine_entry; simpl; lia).
  split.
  - destruct (proj1 (parseTraffic_dispatches 0 _ [ex_mine] ex_lone eq_refl
      ltac:(by repeat constructor) Hl)) as (m & Hm & _).
    { repeat constructor. by eexists. }
    exists m. exact Hm.
  - refine (proj2 (parseTraffic_dispatches 0 _ [ex_mine; ex_entry] ex_lone eq_refl
      ltac:(by repeat constructor) Hl)
      ex_entry [ex_mine] [] eq_refl _ eq_refl).
    repeat constructor. by eexists.
Defined.
