(* ===== verification/EventQueue.v ===== *)
(** * The event queue

    [sim/eventq.hh] and [sim/eventq.cc]: the queue every simulated object
    schedules its events on.  It is a linked list of linked lists: [nextBin]
    links the bins (one per time and priority), [nextInBin] the events of one
    bin, a stack.  Only the top event of a bin has a valid [nextBin]; the
    others may be stale.  Events live in a heap and pointers are its keys, so
    the model keeps the sharing and the staleness.

    [process] (virtual) and the work done for asynchronous signals are
    arguments; the loops take fuel, the number of events in the heap. *)
From stdpp Require Import base tactics list gmap strings.
From Stdlib Require Import ZArith Lia.
From S2P Require Import Prelude.
Local Open Scope Z_scope.

(** ** [base/flags.hh], for [unsigned short] *)

Module Flags.
Definition t := Z.
Definition isSet (f mask : t) : bool := negb (Z.land f mask =? 0).
Definition allSet (f mask : t) : bool := Z.land f mask =? mask.
Definition noneSet (f mask : t) : bool := Z.land f mask =? 0.
Definition clear (mask f : t) : t := Z.ldiff f mask.
Definition set (mask f : t) : t := Z.lor f mask.
Definition set_if (mask : t) (condition : bool) (f : t) : t :=
  if condition then set mask f else clear mask f.
Definition replace (flags mask f : t) : t := Z.lor (Z.ldiff f mask) (Z.land flags mask).
End Flags.

Module EventQ.
(** ** [EventBase] *)

Definition PublicRead : Z := 0x3f.
Definition PublicWrite : Z := 0x1d.
Definition Squashed : Z := 0x1.
Definition Scheduled : Z := 0x2.
Definition Managed : Z := 0x4.
Definition IsExitEvent : Z := 0x10.
Definition IsMainQueue : Z := 0x20.
Definition Initialized : Z := 0x7a40.
Definition InitMask : Z := 0xffc0.

Definition Minimum_Pri : Z := -128.
Definition Debug_Enable_Pri : Z := -101.
Definition Debug_Break_Pri : Z := -100.
Definition CPU_Switch_Pri : Z := -31.
Definition Delayed_Writeback_Pri : Z := -1.
Definition Default_Pri : Z := 0.
Definition DVFS_Update_Pri : Z := 31.
Definition Serialize_Pri : Z := 32.
Definition CPU_Tick_Pri : Z := 50.
Definition CPU_Exit_Pri : Z := 64.
Definition Stat_Event_Pri : Z := 90.
Definition Progress_Event_Pri : Z := 95.
Definition Sim_Exit_Pri : Z := 100.
Definition Maximum_Pri : Z := 127.

(** ** [Event] *)

Record Event := mkEvent {
  nextBin : option positive;
  nextInBin : option positive;
  when_ : Z;              (* Tick *)
  priority : Z;           (* int8_t *)
  flags : Z;              (* unsigned short *)
  queue : option nat;
}.

Definition Event_new (p f : Z) : res Event :=
  if Flags.noneSet f (0xffff - PublicWrite)
  then Ok (mkEvent None None 0 p (Z.lor Initialized f) None)
  else Err (EAssert "f.noneSet(~PublicWrite)").

Definition set_nextBin (n : option positive) (e : Event) : Event :=
  mkEvent n (nextInBin e) (when_ e) (priority e) (flags e) (queue e).
Definition set_nextInBin (n : option positive) (e : Event) : Event :=
  mkEvent (nextBin e) n (when_ e) (priority e) (flags e) (queue e).
Definition set_flags (f : Z) (e : Event) : Event :=
  mkEvent (nextBin e) (nextInBin e) (when_ e) (priority e) f (queue e).
Definition setWhen (w : Z) (q : nat) (e : Event) : Event :=
  mkEvent (nextBin e) (nextInBin e) w (priority e) (flags e) (Some q).

Definition initialized (e : Event) : bool := Z.land (flags e) InitMask =? Initialized.
Definition scheduled (e : Event) : bool := Flags.isSet (flags e) Scheduled.
Definition squashed (e : Event) : bool := Flags.isSet (flags e) Squashed.
Definition isExitEvent (e : Event) : bool := Flags.isSet (flags e) IsExitEvent.
Definition isManaged (e : Event) : bool := Flags.isSet (flags e) Managed.

(** The comparison operators. *)
Definition ev_lt (l r : Event) : bool :=
  (when_ l <? when_ r) || ((when_ l =? when_ r) && (priority l <? priority r)).
Definition ev_gt (l r : Event) : bool :=
  (when_ r <? when_ l) || ((when_ l =? when_ r) && (priority r <? priority l)).
Definition ev_le (l r : Event) : bool :=
  (when_ l <? when_ r) || ((when_ l =? when_ r) && (priority l <=? priority r)).
Definition ev_ge (l r : Event) : bool :=
  (when_ r <? when_ l) || ((when_ l =? when_ r) && (priority r <=? priority l)).
Definition ev_eq (l r : Event) : bool := (when_ l =? when_ r) && (priority l =? priority r).
Definition ev_ne (l r : Event) : bool := negb (when_ l =? when_ r) || negb (priority l =? priority r).

(** ** [EventQueue] *)

Record EventQueue := mkQueue {
  events : gmap positive Event;
  head : option positive;
  curTick : Z;
  async_queue : list positive;
}.

Definition EventQueue_new (h : gmap positive Event) : EventQueue := mkQueue h None 0 [].

Definition set_events (h : gmap positive Event) (q : EventQueue) : EventQueue :=
  mkQueue h (head q) (curTick q) (async_queue q).
Definition set_head (p : option positive) (q : EventQueue) : EventQueue :=
  mkQueue (events q) p (curTick q) (async_queue q).
Definition set_tick (t : Z) (q : EventQueue) : EventQueue :=
  mkQueue (events q) (head q) t (async_queue q).
Definition set_async (l : list positive) (q : EventQueue) : EventQueue :=
  mkQueue (events q) (head q) (curTick q) l.

Definition get_ev (p : positive) : M EventQueue Event := λ q,
  lift (of_option EBadPointer (events q !! p)) q.
Definition upd_ev (p : positive) (f : Event → Event) : M EventQueue unit :=
  get_ev p ;; modify (λ q, set_events (alter f p (events q)) q).
(** A pointer that may be null, with what it points to. *)
Definition get_ev_opt (p : option positive) : M EventQueue (option (positive * Event)) :=
  match p with
  | None => mret None
  | Some p => e ← get_ev p; mret (Some (p, e))
  end.

(** The fuel of the loops over the queue. *)
Definition fuel : M EventQueue nat := gets (λ q, S (size (events q))).

(** *** Linking *)

Definition insertBefore (event : positive) (curr : option positive) : M EventQueue positive :=
  e ← get_ev event;
  c ← get_ev_opt curr;
  match c with
  | Some (c, x) =>
      if ev_lt e x then
        upd_ev event (set_nextBin curr) ;; upd_ev event (set_nextInBin None)
      else
        upd_ev event (set_nextBin (nextBin x)) ;; upd_ev event (set_nextInBin curr)
  | None => upd_ev event (set_nextBin curr) ;; upd_ev event (set_nextInBin None)
  end ;;
  mret event.

(** [while (curr && *curr < *event) { prev = curr; curr = curr->nextBin; }] *)
Fixpoint find_bin (n : nat) (event prev : positive) (curr : option positive)
    : M EventQueue (positive * option positive) :=
  c ← get_ev_opt curr;
  match c with
  | None => mret (prev, None)
  | Some (c, x) =>
      e ← get_ev event;
      if ev_lt x e then
        match n with
        | O => throw EDiverge
        | S n => find_bin n event c (nextBin x)
        end
      else mret (prev, Some c)
  end.

Definition insert (event : positive) : M EventQueue unit :=
  hd ← gets head;
  h ← get_ev_opt hd;
  e ← get_ev event;
  match h with
  | None => t ← insertBefore event hd; modify (set_head (Some t))
  | Some (h, x) =>
      if ev_le e x then t ← insertBefore event hd; modify (set_head (Some t))
      else
        n ← fuel;
        pc ← find_bin n event h (nextBin x);
        t ← insertBefore event pc.2;
        upd_ev pc.1 (set_nextBin (Some t))
  end.

(** [while (event != next) { if (!next) panic; curr = next; next = next->nextInBin; }] *)
Fixpoint find_item (n : nat) (event curr : positive) (next : option positive)
    : M EventQueue (positive * positive) :=
  match next with
  | None => throw (EPanic "event not found!")
  | Some x =>
      if bool_decide (event = x) then mret (curr, x)
      else
        e ← get_ev x;
        match n with
        | O => throw EDiverge
        | S n => find_item n event x (nextInBin e)
        end
  end.

Definition removeItem (event top : positive) : M EventQueue (option positive) :=
  t ← get_ev top;
  if bool_decide (event = top) then
    match nextInBin t with
    | None => mret (nextBin t)
    | Some next => upd_ev next (set_nextBin (nextBin t)) ;; mret (Some next)
    end
  else
    n ← fuel;
    cn ← find_item n event top (nextInBin t);
    x ← get_ev cn.2;
    upd_ev cn.1 (set_nextInBin (nextInBin x)) ;;
    mret (Some top).

Section queue.
Context (this : nat).             (* the address of this queue *)

Definition remove (event : positive) : M EventQueue unit :=
  hd ← gets head;
  match hd with
  | None => throw (EPanic "event not found!")
  | Some h =>
      e ← get_ev event;
      massert "event->queue == this" (bool_decide (queue e = Some this)) ;;
      x ← get_ev h;
      if ev_eq x e then
        t ← removeItem event h; modify (set_head t)
      else
        n ← fuel;
        pc ← find_bin n event h (nextBin x);
        match pc.2 with
        | None => throw (EPanic "event not found!")
        | Some c =>
            y ← get_ev c;
            if ev_ne y e then throw (EPanic "event not found!") else
            t ← removeItem event c;
            upd_ev pc.1 (set_nextBin t)
        end
  end.

(** *** Life cycle *)

(** [release()]: a managed event deletes itself unless it is scheduled. *)
Definition release (event : positive) : M EventQueue unit :=
  e ← get_ev event;
  when (isManaged e && negb (scheduled e))
    (modify (λ q, set_events (delete event (events q)) q)).

Definition asyncInsert (event : positive) : M EventQueue unit :=
  modify (λ q, set_async (async_queue q ++ [event]) q).

Fixpoint insert_all (l : list positive) : M EventQueue unit :=
  match l with
  | [] => mret tt
  | e :: l' => insert e ;; modify (λ q, set_async (tail (async_queue q)) q) ;; insert_all l'
  end.
Definition handleAsyncInsertions : M EventQueue unit :=
  l ← gets async_queue; insert_all l.

(** [inParallelMode], and whether this queue is the one of the running thread. *)
Context (inParallelMode is_current : bool).

Definition schedule (event : positive) (w : Z) (global : bool) : M EventQueue unit :=
  t ← gets curTick;
  massert "when >= getCurTick()" (t <=? w) ;;
  e ← get_ev event;
  massert "!event->scheduled()" (negb (scheduled e)) ;;
  massert "event->initialized()" (initialized e) ;;
  upd_ev event (setWhen w this) ;;
  (if inParallelMode && (negb is_current || global) then asyncInsert event else insert event) ;;
  upd_ev event (λ e, set_flags (Flags.set Scheduled (flags e)) e).

Definition deschedule (event : positive) : M EventQueue unit :=
  e ← get_ev event;
  massert "event->scheduled()" (scheduled e) ;;
  massert "event->initialized()" (initialized e) ;;
  massert "!inParallelMode || this == curEventQueue()" (negb inParallelMode || is_current) ;;
  remove event ;;
  upd_ev event (λ e, set_flags (Flags.clear Squashed (flags e)) e) ;;
  upd_ev event (λ e, set_flags (Flags.clear Scheduled (flags e)) e) ;;
  release event.

Definition reschedule (event : positive) (w : Z) (always : bool) : M EventQueue unit :=
  t ← gets curTick;
  massert "when >= getCurTick()" (t <=? w) ;;
  e ← get_ev event;
  massert "always || event->scheduled()" (always || scheduled e) ;;
  massert "event->initialized()" (initialized e) ;;
  massert "!inParallelMode || this == curEventQueue()" (negb inParallelMode || is_current) ;;
  when (scheduled e) (remove event) ;;
  upd_ev event (setWhen w this) ;;
  insert event ;;
  upd_ev event (λ e, set_flags (Flags.clear Squashed (flags e)) e) ;;
  upd_ev event (λ e, set_flags (Flags.set Scheduled (flags e)) e).

(** [squash()] *)
Definition squash (event : positive) : M EventQueue unit :=
  upd_ev event (λ e, set_flags (Flags.set Squashed (flags e)) e).

Definition empty (q : EventQueue) : bool := bool_decide (head q = None).
Definition nextTick : M EventQueue Z :=
  hd ← gets head;
  match hd with None => throw EBadPointer | Some h => x ← get_ev h; mret (when_ x) end.

(** *** Serving *)

(** What [serviceOne] does before the event is processed: the head is
    unlinked and its flag cleared. *)
Definition unlink_head : M EventQueue positive :=
  hd ← gets head;
  match hd with
  | None => throw EBadPointer
  | Some event =>
      e ← get_ev event;
      upd_ev event (λ e, set_flags (Flags.clear Scheduled (flags e)) e) ;;
      match nextInBin e with
      | Some next =>
          h ← get_ev event;
          upd_ev next (set_nextBin (nextBin h)) ;;
          modify (set_head (Some next))
      | None => h ← get_ev event; modify (set_head (nextBin h))
      end ;;
      mret event
  end.

Context (process : positive → M EventQueue unit).

(** What [serviceOne] does once the event was processed. *)
Definition finish (event : positive) : M EventQueue (option positive) :=
  e ← get_ev event;
  if isExitEvent e then
    massert "!Managed || !IsMainQueue"
      (negb (isManaged e) || negb (Flags.isSet (flags e) IsMainQueue)) ;;
    mret (Some event)
  else release event ;; mret None.

Definition serviceOne : M EventQueue (option positive) :=
  event ← unlink_head;
  e ← get_ev event;
  if negb (squashed e) then
    modify (set_tick (when_ e)) ;;
    process event ;;
    finish event
  else
    upd_ev event (λ e, set_flags (Flags.clear Squashed (flags e)) e) ;;
    release event ;; mret None.

(** [while (!empty()) { if (nextTick() > when) break; serviceOne(); }
    setCurTick(when);] *)
Fixpoint service_until (n : nat) (w : Z) : M EventQueue unit :=
  e ← gets empty;
  if (e : bool) then mret tt else
  t ← nextTick;
  if w <? t then mret tt else
  match n with
  | O => throw EDiverge
  | S n => serviceOne ;; service_until n w
  end.
Definition serviceEvents (n : nat) (w : Z) : M EventQueue unit :=
  service_until n w ;; modify (set_tick w).

(** [~EventQueue] *)
Fixpoint destroy (n : nat) : M EventQueue unit :=
  hd ← gets head;
  match hd, n with
  | None, _ => mret tt
  | Some _, O => throw EDiverge
  | Some h, S n => deschedule h ;; destroy n
  end.

(** *** [simulate.cc]: the simulation loop *)

(** [signals] serves the asynchronous signals; it answers whether the loop
    must return because of an exception. *)
Fixpoint sim_loop (signals : M EventQueue bool) (n : nat) : M EventQueue (option positive) :=
  e ← gets empty;
  massert "!eventq->empty()" (negb e) ;;
  now ← gets curTick;
  t ← nextTick;
  massert "event scheduled in the past" (now <=? t) ;;
  x ← signals;
  if (x : bool) then mret None else
  r ← serviceOne;
  match r with
  | Some ev => mret (Some ev)
  | None => match n with O => throw EDiverge | S n => sim_loop signals n end
  end.
Definition doSimLoop (signals : M EventQueue bool) (n : nat) : M EventQueue (option positive) :=
  handleAsyncInsertions ;; sim_loop signals n.
End queue.

(** *** Walking the queue *)

(** The events [dump] visits, in its order. *)
Fixpoint walk_bin (n : nat) (h : gmap positive Event) (p : option positive) : res (list positive) :=
  match p with
  | None => Ok []
  | Some x =>
      e ← of_option EBadPointer (h !! x);
      match n with
      | O => Err EDiverge
      | S n => l ← walk_bin n h (nextInBin e); Ok (x :: l)
      end
  end.
Fixpoint walk (n : nat) (h : gmap positive Event) (p : option positive) : res (list positive) :=
  match p with
  | None => Ok []
  | Some x =>
      b ← walk_bin (S (size h)) h p;
      e ← of_option EBadPointer (h !! x);
      match n with
      | O => Err EDiverge
      | S n => l ← walk n h (nextBin e); Ok (b ++ l)
      end
  end.
Definition dump (q : EventQueue) : res (list positive) :=
  walk (S (size (events q))) (events q) (head q).

(** [debugVerify].  [None] stands for [return false], the triple for the
    variables [time], [priority] and [map]. *)
Definition verify_state : Type := Z * Z * gset positive.
Fixpoint verify_bin (n : nat) (h : gmap positive Event) (s : verify_state) (p : option positive)
    : res (option verify_state) :=
  match p with
  | None => Ok (Some s)
  | Some x =>
      let '(time, pri, seen) := s in
      e ← of_option EBadPointer (h !! x);
      if when_ e <? time then Ok None
      else if (when_ e =? time) && (priority e <? pri) then Ok None
      else if bool_decide (x ∈ seen) then Ok None
      else match n with
      | O => Err EDiverge
      | S n => verify_bin n h (when_ e, priority e, {[x]} ∪ seen) (nextInBin e)
      end
  end.
Fixpoint verify (n : nat) (h : gmap positive Event) (s : verify_state) (p : option positive)
    : res bool :=
  match p with
  | None => Ok true
  | Some x =>
      r ← verify_bin (S (size h)) h s p;
      match r with
      | None => Ok false
      | Some s =>
          e ← of_option EBadPointer (h !! x);
          match n with
          | O => Err EDiverge
          | S n => verify n h s (nextBin e)
          end
      end
  end.
Definition debugVerify (q : EventQueue) : res bool :=
  verify (S (size (events q))) (events q) (0, 0, ∅) (head q).

Definition replaceHead (s : option positive) : M EventQueue (option positive) :=
  t ← gets head; modify (set_head s) ;; mret t.
End EventQ.
