(* ===== verification/EventQueueRep.v ===== *)
(** * What the pointers of the event queue represent

    A queue represents a list of bins, each a rank (time and priority) with
    its events, top first: [bins].  The lemmas of this file say what linking
    and unlinking do to the represented bins; the stale [nextBin] pointers
    below the top of a bin never matter. *)
From stdpp Require Import base tactics list gmap strings sets sorting.
From Stdlib Require Import ZArith Lia.
From S2P Require Import Prelude EventQueue.
Import EventQ.
Local Open Scope Z_scope.

(** ** Order *)

Definition typed (e : Event) : Prop := Minimum_Pri ≤ priority e ≤ Maximum_Pri.

(** Time first, then priority. *)
Definition rank (e : Event) : Z := when_ e * 256 + priority e + 128.

Section order.
Context (l r : Event) (Hl : typed l) (Hr : typed r).

Ltac order := unfold typed, Minimum_Pri, Maximum_Pri in *; intros; unfold rank;
  apply eq_true_iff_eq; rewrite ?orb_true_iff, ?andb_true_iff, ?negb_true_iff, ?orb_true_iff,
    ?Z.ltb_lt, ?Z.leb_le, ?Z.eqb_eq, ?Z.eqb_neq; lia.

Lemma ev_lt_rank : ev_lt l r = (rank l <? rank r).
Proof. unfold ev_lt. order. Qed.
Lemma ev_le_rank : ev_le l r = (rank l <=? rank r).
Proof. unfold ev_le. order. Qed.
Lemma ev_eq_rank : ev_eq l r = (rank l =? rank r).
Proof. unfold ev_eq. order. Qed.
Lemma ev_ne_rank : ev_ne l r = negb (rank l =? rank r).
Proof. unfold ev_ne. order. Qed.
End order.

(** ** Representation *)

Abbreviation heap := (gmap positive Event).
Abbreviation binlist := (list (Z * list positive)).

(** The events of one bin. *)
Fixpoint chain (h : heap) (k : Z) (p : option positive) (b : list positive) : Prop :=
  match b with
  | [] => p = None
  | x :: b' => p = Some x ∧ ∃ e, h !! x = Some e ∧ rank e = k ∧ chain h k (nextInBin e) b'
  end.

Fixpoint bins (h : heap) (p : option positive) (bs : binlist) : Prop :=
  match bs with
  | [] => p = None
  | (k, b) :: bs' =>
      chain h k p b ∧ ∃ t e, p = Some t ∧ h !! t = Some e ∧ bins h (nextBin e) bs'
  end.

(** The events in the order they are served. *)
Definition contents (bs : binlist) : list positive := mjoin bs.*2.

(** ** The abstract operations *)

Fixpoint ins (k : Z) (x : positive) (bs : binlist) : binlist :=
  match bs with
  | [] => [(k, [x])]
  | (k', b) :: bs' =>
      if k <? k' then (k, [x]) :: (k', b) :: bs'
      else if k =? k' then (k', x :: b) :: bs'
      else (k', b) :: ins k x bs'
  end.

Definition cons_bin (k : Z) (b : list positive) (bs : binlist) : binlist :=
  match b with [] => bs | _ => (k, b) :: bs end.
Definition without (x : positive) (l : list positive) : list positive := filter (λ y, y ≠ x) l.

Fixpoint del (k : Z) (x : positive) (bs : binlist) : binlist :=
  match bs with
  | [] => []
  | (k', b) :: bs' => if k =? k' then cons_bin k' (without x b) bs' else (k', b) :: del k x bs'
  end.

Definition below (k : Z) (bs : binlist) : Prop := Forall (λ kb, kb.1 < k) bs.
Definition above (k : Z) (bs : binlist) : Prop := Forall (λ kb, k < kb.1) bs.
Definition sorted_bins (bs : binlist) : Prop := StronglySorted Z.lt bs.*1.

Lemma sorted_bins_cons k b bs : sorted_bins ((k, b) :: bs) → above k bs ∧ sorted_bins bs.
Proof.
  intros [Hs Hall]%StronglySorted_inv. split; [|done].
  apply Forall_forall. intros [k' b'] Hin. rewrite Forall_forall in Hall.
  apply Hall, list_elem_of_fmap. by exists (k', b').
Qed.

(** ** Framing *)

(** The event kept its rank and its link inside the bin. *)
Definition keeps_in (h h' : heap) (x : positive) : Prop :=
  ∀ e, h !! x = Some e → ∃ e', h' !! x = Some e' ∧ nextInBin e' = nextInBin e ∧ rank e' = rank e.
(** ... and its link to the next bin. *)
Definition keeps (h h' : heap) (x : positive) : Prop :=
  ∀ e, h !! x = Some e → ∃ e', h' !! x = Some e' ∧ nextInBin e' = nextInBin e ∧
    rank e' = rank e ∧ nextBin e' = nextBin e.

Lemma keeps_same h h' x : h' !! x = h !! x → keeps h h' x.
Proof. intros E e He. exists e. by rewrite E. Qed.
Lemma keeps_keeps_in h h' x : keeps h h' x → keeps_in h h' x.
Proof. intros H e He. destruct (H e He) as (e' & ? & ? & ? & ?). eauto. Qed.

Lemma chain_frame h h' k p b : (∀ x, x ∈ b → keeps_in h h' x) → chain h k p b → chain h' k p b.
Proof.
  revert p. induction b as [|x b IH]; intros p Hk; simpl; [done|].
  intros (-> & e & He & Hr & Hc). split; [done|].
  destruct (Hk x ltac:(set_solver) e He) as (e' & He' & Hn & Hr'). exists e'.
  rewrite Hn, Hr'. split_and!; [done..|]. apply IH; [|done]. set_solver.
Qed.

Lemma contents_cons k b bs : contents ((k, b) :: bs) = b ++ contents bs.
Proof. done. Qed.
Lemma contents_app bs1 bs2 : contents (bs1 ++ bs2) = contents bs1 ++ contents bs2.
Proof. unfold contents. by rewrite fmap_app, join_app. Qed.

Lemma chain_head h k p b t : chain h k p b → p = Some t → ∃ b', b = t :: b'.
Proof. destruct b as [|x b]; simpl; [intros ->; done|]. intros (-> & _) [= ->]. eauto. Qed.

Lemma bins_frame h h' p bs :
  (∀ x, x ∈ contents bs → keeps h h' x) → bins h p bs → bins h' p bs.
Proof.
  revert p. induction bs as [|[k b] bs IH]; intros p Hk; simpl; [done|].
  rewrite contents_cons in Hk. intros (Hc & t & e & -> & He & Hb). split.
  - eapply chain_frame; [|done]. intros x Hx. apply keeps_keeps_in, Hk. set_solver.
  - destruct (chain_head _ _ _ _ _ Hc eq_refl) as [b' ->].
    destruct (Hk t ltac:(set_solver) e He) as (e' & He' & _ & _ & Hn).
    exists t, e'. rewrite Hn. split_and!; [done..|]. apply IH; [|done]. set_solver.
Qed.

Lemma chain_Some h k p b x : chain h k p b → x ∈ b → ∃ e, h !! x = Some e ∧ rank e = k.
Proof.
  revert p. induction b as [|y b IH]; intros p; [set_solver|].
  intros (_ & e & He & Hr & Hc) [->|Hx]%elem_of_cons; eauto.
Qed.

Lemma bins_Some h p bs k b x :
  bins h p bs → (k, b) ∈ bs → x ∈ b → ∃ e, h !! x = Some e ∧ rank e = k.
Proof.
  revert p. induction bs as [|[k' b'] bs IH]; intros p; [set_solver|].
  intros (Hc & t & e & _ & _ & Hb) [[= -> ->]|Hin]%elem_of_cons Hx; [by eapply chain_Some|eauto].
Qed.

Lemma elem_of_contents x bs : x ∈ contents bs ↔ ∃ k b, (k, b) ∈ bs ∧ x ∈ b.
Proof.
  unfold contents. rewrite list_elem_of_join. split.
  - intros (b & Hx & [[k b'] [-> Hb]]%list_elem_of_fmap). eauto.
  - intros (k & b & Hb & Hx). exists b. split; [done|]. apply list_elem_of_fmap. exists (k, b). done.
Qed.

Lemma contents_Some h p bs x : bins h p bs → x ∈ contents bs → is_Some (h !! x).
Proof.
  intros Hb (k & b & Hkb & Hx)%elem_of_contents.
  destruct (bins_Some _ _ _ _ _ _ Hb Hkb Hx) as (e & ? & _). eauto.
Qed.

Lemma bins_top_rank h t k b bs x :
  bins h (Some t) ((k, b) :: bs) → h !! t = Some x → rank x = k.
Proof.
  intros (Hc & _) Hx. destruct (chain_head _ _ _ _ _ Hc eq_refl) as [b' ->].
  destruct Hc as (_ & e & ? & ? & _). by simplify_eq.
Qed.

(** ** Symbolic execution *)

Lemma get_ev_run q p e : events q !! p = Some e → get_ev p q = Ok (e, q).
Proof. unfold get_ev. intros ->. done. Qed.

Lemma upd_ev_run q p f e :
  events q !! p = Some e → upd_ev p f q = Ok (tt, set_events (<[p := f e]> (events q)) q).
Proof.
  intros He. unfold upd_ev. rewrite (M_bind_ok _ _ _ _ _ (get_ev_run _ _ _ He)).
  unfold modify. do 3 f_equal. apply map_eq. intros x. destruct (decide (x = p)) as [->|].
  - by rewrite lookup_alter_eq, lookup_insert_eq, He.
  - by rewrite lookup_alter_ne, lookup_insert_ne.
Qed.

Lemma get_ev_opt_run q p e : events q !! p = Some e → get_ev_opt (Some p) q = Ok (Some (p, e), q).
Proof. intros He. unfold get_ev_opt. by rewrite (M_bind_ok _ _ _ _ _ (get_ev_run _ _ _ He)). Qed.

(** Only the links of events differ. *)
Definition relink (e e' : Event) : Prop :=
  when_ e' = when_ e ∧ priority e' = priority e ∧ flags e' = flags e ∧ queue e' = queue e.

Lemma relink_rank e e' : relink e e' → rank e' = rank e.
Proof. unfold rank. intros (-> & -> & _). done. Qed.

Definition relinked (h h' : heap) : Prop :=
  ∀ x, (h !! x = None ∧ h' !! x = None) ∨ ∃ e e', h !! x = Some e ∧ h' !! x = Some e' ∧ relink e e'.

Lemma relinked_refl h : relinked h h.
Proof. intros x. destruct (h !! x) as [e|]; [right|by left]. exists e, e. done. Qed.

Lemma relinked_trans h1 h2 h3 : relinked h1 h2 → relinked h2 h3 → relinked h1 h3.
Proof.
  intros H1 H2 x. destruct (H1 x) as [[? ?]|(e & e' & ? & ? & (?&?&?&?))],
    (H2 x) as [[? ?]|(f & f' & ? & ? & (?&?&?&?))]; simplify_eq; [by left|]. right.
  exists e, f'. unfold relink. split_and!; congruence.
Qed.

Lemma relinked_insert h x e e' : h !! x = Some e → relink e e' → relinked h (<[x := e']> h).
Proof.
  intros He Hr y. destruct (decide (y = x)) as [->|].
  - right. exists e, e'. by rewrite lookup_insert_eq.
  - rewrite lookup_insert_ne by done. apply relinked_refl.
Qed.

Lemma relinked_Some h h' x e : relinked h h' → h !! x = Some e → ∃ e', h' !! x = Some e' ∧ relink e e'.
Proof. intros H He. destruct (H x) as [[? ?]|(f & f' & ? & ? & ?)]; simplify_eq; eauto. Qed.

Lemma relinked_size h h' : relinked h h' → size h' = size h.
Proof.
  intros H. rewrite <-!size_dom. f_equal. apply leibniz_equiv. intros x. rewrite !elem_of_dom.
  destruct (H x) as [[-> ->]|(e & e' & -> & -> & _)]; split; intros [? ?]; done || eauto.
Qed.

Definition all_typed (h : heap) : Prop := map_Forall (λ _ e, typed e) h.

Lemma relinked_typed h h' : relinked h h' → all_typed h → all_typed h'.
Proof.
  intros Hr Ht x e' He'. destruct (Hr x) as [[? ?]|(e & f & He & Hf & (?&Hp&?&?))]; simplify_eq.
  unfold typed. rewrite Hp. by apply (Ht x).
Qed.

(** ** Finding a bin *)

(** Where the loop stops nothing else is linked yet: behind the last bin below
    the event's, other bins can be put. *)
Lemma splice_here h h' k b bs prev evp p' bs' :
  bins h (Some prev) ((k, b) :: bs) → h !! prev = Some evp →
  (∀ x, x ∈ b → x ≠ prev → h' !! x = h !! x) → h' !! prev = Some (set_nextBin p' evp) →
  bins h' p' bs' → bins h' (Some prev) ((k, b) :: bs').
Proof.
  intros (Hc & _) Hp Hsame Hp' Hbs. split; [|by exists prev, (set_nextBin p' evp)].
  eapply chain_frame; [|exact Hc]. intros x Hx e He.
  destruct (decide (x = prev)) as [->|Hne]; [simplify_eq; eauto|]. exists e. by rewrite Hsame.
Qed.

Lemma find_bin_ok ev e bs : ∀ n q prev evp kp bp,
  all_typed (events q) → events q !! ev = Some e → events q !! prev = Some evp →
  bins (events q) (Some prev) ((kp, bp) :: bs) → sorted_bins bs → (length bs ≤ n)%nat →
  NoDup (bp ++ contents bs) →
  ∃ prev' evp' bs1 bs2,
    find_bin n ev prev (nextBin evp) q = Ok ((prev', nextBin evp'), q) ∧
    bs = bs1 ++ bs2 ∧ below (rank e) bs1 ∧ Forall (λ kb, rank e ≤ kb.1) bs2 ∧
    events q !! prev' = Some evp' ∧ prev' ∈ bp ++ contents bs1 ∧
    bins (events q) (nextBin evp') bs2 ∧
    ∀ h' p' bs2',
      (∀ x, x ∈ bp ++ contents bs1 → x ≠ prev' → h' !! x = events q !! x) →
      h' !! prev' = Some (set_nextBin p' evp') → bins h' p' bs2' →
      bins h' (Some prev) ((kp, bp) :: bs1 ++ bs2').
Proof.
  induction bs as [|[kc bc] bs IH]; intros n q prev evp kp bp Hty He Hp Hb Hs Hn Hnd;
    pose proof Hb as (Hc & ? & evp0 & [= <-] & Hp0 & Hbs); assert (evp0 = evp) as -> by congruence;
    destruct (chain_head _ _ _ _ _ Hc eq_refl) as [bp' Hbp].
  { simpl in Hbs. exists prev, evp, [], []. rewrite Hbs. split_and!; try done;
      try solve [by destruct n|by apply Forall_nil|rewrite Hbp; apply list_elem_of_here].
    intros h' p' bs2' Hsame Hp' Hb'. eapply splice_here; try done.
    intros x Hx. apply Hsame. set_solver. }
  pose proof Hbs as (Hcc & c & evc & Hpc & Hec & _). rewrite Hpc in *.
  pose proof (bins_top_rank _ _ _ _ _ _ Hbs Hec) as Hrc.
  apply sorted_bins_cons in Hs as [Hall Hs]. rewrite contents_cons in Hnd.
  destruct (Z.lt_ge_cases kc (rank e)) as [Hlt|Hge].
  - destruct n as [|n]; [simpl in Hn; lia|].
    destruct (IH n q c evc kc bc) as (prev' & evp' & bs1 & bs2 & Hf & -> & Hbel & Hab & Hp' & Hin & Hb2 & Hk);
      try done; [simpl in Hn; lia|by apply NoDup_app in Hnd as (_ & _ & ?)|].
    exists prev', evp', ((kc, bc) :: bs1), bs2. rewrite contents_cons. split_and!; try done.
    + simpl. rewrite (M_bind_ok _ _ _ _ _ (get_ev_opt_run _ _ _ Hec)).
      rewrite (M_bind_ok _ _ _ _ _ (get_ev_run _ _ _ He)).
      by rewrite ev_lt_rank, (proj2 (Z.ltb_lt _ _)) by (by eapply Hty || lia).
    + by constructor.
    + set_solver.
    + intros h' p' bs2' Hsame Hp2 Hb'.
      assert (∀ x, x ∈ bp → x ≠ prev') as Hout.
      { rewrite contents_app in Hnd. clear -Hnd Hin. rewrite NoDup_app in Hnd. set_solver. }
      assert (∀ x, x ∈ bp → h' !! x = events q !! x) as Hbp2.
      { intros x Hx. apply Hsame; [set_solver|auto]. }
      cbn [app]. split; [eapply chain_frame; [|exact Hc]; intros x Hx;
        apply keeps_keeps_in, keeps_same; auto|].
      exists prev, evp. rewrite Hbp2, Hpc by (rewrite Hbp; apply list_elem_of_here).
      split_and!; [done..|]. eapply Hk; try done. intros x Hx. apply Hsame. set_solver.
  - exists prev, evp, [], ((kc, bc) :: bs). rewrite Hpc. split_and!; try done; try by apply Forall_nil.
    + destruct n; simpl;
        rewrite (M_bind_ok _ _ _ _ _ (get_ev_opt_run _ _ _ Hec)), (M_bind_ok _ _ _ _ _ (get_ev_run _ _ _ He));
        rewrite ev_lt_rank, (proj2 (Z.ltb_ge _ _)) by (by eapply Hty || lia); done.
    + constructor; [simpl; lia|]. eapply Forall_impl; [exact Hall|]. simpl. lia.
    + rewrite Hbp. apply list_elem_of_here.
    + intros h' p' bs2' Hsame Hp' Hb'. eapply splice_here; try done.
      intros x Hx. apply Hsame. set_solver.
Qed.

(** ** Insertion *)

Lemma ins_app k x bs1 bs2 : below k bs1 → ins k x (bs1 ++ bs2) = bs1 ++ ins k x bs2.
Proof.
  induction 1 as [|[k' b] bs1 Hk Hb IH]; [done|]. simpl in *.
  rewrite (proj2 (Z.ltb_ge _ _)), (proj2 (Z.eqb_neq _ _)) by lia. by rewrite IH.
Qed.

Lemma ins_front k x bs : Forall (λ kb, k ≤ kb.1) bs → contents (ins k x bs) = x :: contents bs.
Proof.
  destruct bs as [|[k' b] bs]; [done|]. intros [Hk _]%Forall_cons. simpl in Hk. simpl.
  destruct (Z.ltb_spec k k'); [done|]. by rewrite (proj2 (Z.eqb_eq _ _)) by lia.
Qed.

Lemma keeps_insert_ne h x y e : y ≠ x → keeps h (<[x := e]> h) y.
Proof. intros Hne. apply keeps_same. by rewrite lookup_insert_ne. Qed.

Lemma upd_ev_twice q p f g e :
  events q !! p = Some e →
  (upd_ev p f ;; upd_ev p g) q = Ok (tt, set_events (<[p := g (f e)]> (events q)) q).
Proof.
  intros He. rewrite (M_seq_ok _ _ _ _ (upd_ev_run _ _ f _ He)).
  erewrite upd_ev_run by (simpl; apply lookup_insert_eq). simpl. by rewrite insert_insert_eq.
Qed.

Lemma insertBefore_ok q ev e curr bs :
  all_typed (events q) → events q !! ev = Some e → bins (events q) curr bs →
  ev ∉ contents bs → Forall (λ kb, rank e ≤ kb.1) bs →
  ∃ e', insertBefore ev curr q = Ok (ev, set_events (<[ev := e']> (events q)) q) ∧ relink e e' ∧
        bins (<[ev := e']> (events q)) (Some ev) (ins (rank e) ev bs).
Proof.
  intros Hty He Hb Hnew Hall. unfold insertBefore.
  rewrite (M_bind_ok _ _ _ _ _ (get_ev_run _ _ _ He)).
  destruct bs as [|[k b] bs].
  - simpl in Hb. subst curr. erewrite M_bind_ok by reflexivity. cbv beta iota.
    rewrite (M_seq_ok _ _ _ _ (upd_ev_twice _ _ (set_nextBin None) (set_nextInBin None) _ He)).
    eexists. split_and!; [reflexivity|done|]. simpl.
    split; [split; [done|]; eexists; by rewrite lookup_insert_eq|].
    eexists _, _. by rewrite lookup_insert_eq.
  - destruct Hb as (Hc & t & x & -> & Hx & Hbs).
    rewrite (M_bind_ok _ _ _ _ _ (get_ev_opt_run _ _ _ Hx)). cbv beta iota.
    destruct (chain_head _ _ _ _ _ Hc eq_refl) as [b' ->].
    assert (rank x = k) as Hk by (destruct Hc as (_ & x' & ? & ? & _); by simplify_eq).
    rewrite contents_cons in Hnew. apply Forall_cons in Hall as [Hle _]. simpl in Hle.
    rewrite ev_lt_rank by (by eapply Hty). rewrite Hk. cbn [ins].
    destruct (Z.ltb_spec (rank e) k) as [Hlt|Hge].
    + rewrite (M_seq_ok _ _ _ _ (upd_ev_twice _ _ (set_nextBin (Some t)) (set_nextInBin None) _ He)).
      eexists. split_and!; [reflexivity|done|].
      split; [split; [done|]; eexists; by rewrite lookup_insert_eq|].
      eexists _, _. rewrite lookup_insert_eq. split_and!; [done..|].
      apply (bins_frame (events q)).
      * intros y Hy. apply keeps_insert_ne. intros ->. done.
      * simpl. eauto 10.
    + rewrite (proj2 (Z.eqb_eq _ _)) by lia.
      rewrite (M_seq_ok _ _ _ _ (upd_ev_twice _ _ (set_nextBin (nextBin x)) (set_nextInBin (Some t)) _ He)).
      eexists. split_and!; [reflexivity|done|]. split.
      * split; [done|]. eexists. rewrite lookup_insert_eq. split_and!; [done|change (rank e = k); lia|].
        eapply chain_frame; [|exact Hc]. intros y Hy. apply keeps_keeps_in, keeps_insert_ne. set_solver.
      * eexists _, _. rewrite lookup_insert_eq. split_and!; [done..|].
        eapply bins_frame; [|exact Hbs]. intros y Hy. apply keeps_insert_ne. set_solver.
Qed.

Lemma set_head_events p h q :
  set_events (events (set_head p q)) (set_head p (set_events h q)) = set_head p (set_events (events q) q).
Proof. done. Qed.

(** What [insert] leaves unchanged: the clock and the asynchronous queue, and
    of the events all but their links. *)
Definition links_only (q q' : EventQueue) : Prop :=
  relinked (events q) (events q') ∧ curTick q' = curTick q ∧ async_queue q' = async_queue q.

Lemma insert_links q ev e bs :
  all_typed (events q) → events q !! ev = Some e → bins (events q) (head q) bs →
  sorted_bins bs → NoDup (contents bs) → ev ∉ contents bs →
  (length bs ≤ size (events q))%nat →
  ∃ q', insert ev q = Ok (tt, q') ∧ links_only q q' ∧
        bins (events q') (head q') (ins (rank e) ev bs).
Proof.
  intros Hty He Hb Hs Hnd Hnew Hn. unfold insert. erewrite M_bind_ok by reflexivity.
  destruct bs as [|[k b] bs].
  { pose proof Hb as Hhd. simpl in Hhd. rewrite Hhd in *. erewrite M_bind_ok by reflexivity.
    rewrite (M_bind_ok _ _ _ _ _ (get_ev_run _ _ _ He)). cbv beta iota.
    destruct (insertBefore_ok q ev e None [] Hty He Hb Hnew) as (e' & Hib & Hr & Hbs); [constructor|].
    rewrite (M_bind_ok _ _ _ _ _ Hib). eexists. split; [reflexivity|].
    split; [split_and!; [by eapply relinked_insert|done..]|exact Hbs]. }
  pose proof Hb as (Hc & t & x & Hhd & Hx & Hbs). rewrite Hhd in *.
  rewrite (M_bind_ok _ _ _ _ _ (get_ev_opt_run _ _ _ Hx)).
  rewrite (M_bind_ok _ _ _ _ _ (get_ev_run _ _ _ He)). cbv beta iota.
  destruct (chain_head _ _ _ _ _ Hc eq_refl) as [b' ->].
  assert (rank x = k) as Hk by (destruct Hc as (_ & x' & ? & ? & _); by simplify_eq).
  destruct (sorted_bins_cons _ _ _ Hs) as [Hall Hs'].
  rewrite ev_le_rank by (by eapply Hty). rewrite Hk.
  destruct (Z.leb_spec (rank e) k) as [Hle|Hgt].
  - destruct (insertBefore_ok q ev e (Some t) ((k, t :: b') :: bs) Hty He Hb Hnew) as (e' & Hib & Hr & Hbs').
    { constructor; [simpl; lia|]. eapply Forall_impl; [exact Hall|]. simpl. lia. }
    rewrite (M_bind_ok _ _ _ _ _ Hib). eexists. split; [reflexivity|].
    split; [split_and!; [by eapply relinked_insert|done..]|exact Hbs'].
  - erewrite M_bind_ok by reflexivity. cbv beta.
    rewrite contents_cons in Hnd, Hnew. simpl in Hn.
    destruct (find_bin_ok ev e bs (S (size (events q))) q t x k (t :: b')) as
      (prev & evp & bs1 & bs2 & Hf & -> & Hbel & Hab & Hp & Hin & Hb2 & Hk2); try done; [lia|].
    rewrite (M_bind_ok _ _ _ _ _ Hf). cbn [fst snd]. rewrite contents_app in Hnd, Hnew.
    destruct (insertBefore_ok q ev e (nextBin evp) bs2 Hty He Hb2) as (e' & Hib & Hr & Hbs');
      [set_solver|done|].
    rewrite (M_bind_ok _ _ _ _ _ Hib).
    assert (prev ≠ ev) as Hpe by (clear -Hin Hnew; set_solver).
    assert (prev ∉ contents bs2) as Hp2.
    { clear -Hin Hnd. rewrite !NoDup_app in Hnd. set_solver. }
    set (h1 := <[ev := e']> (events q)) in *.
    assert (h1 !! prev = Some evp) as Hp1 by (unfold h1; by rewrite lookup_insert_ne).
    rewrite (upd_ev_run (set_events h1 q) prev _ evp Hp1). eexists. split; [reflexivity|].
    cbn [events head set_events]. split.
    { split_and!; [|done..]. cbn [events set_events].
      apply (relinked_trans _ h1); [by apply (relinked_insert _ _ e)|].
      by apply (relinked_insert _ _ evp). }
    rewrite Hhd. cbn [ins]. rewrite (proj2 (Z.ltb_ge _ _)), (proj2 (Z.eqb_neq _ _)) by lia.
    rewrite ins_app by done. apply (Hk2 _ (Some ev)).
    + intros y Hy Hne. rewrite lookup_insert_ne by done. unfold h1.
      rewrite lookup_insert_ne; [done|]. clear -Hy Hnew. set_solver.
    + by rewrite lookup_insert_eq.
    + eapply bins_frame; [|exact Hbs']. intros y Hy. apply keeps_insert_ne.
      rewrite ins_front in Hy by done. clear -Hy Hp2 Hpe. set_solver.
Qed.

(** ** Removal *)

Lemma find_item_ok ev q k r : ∀ n c ec,
  events q !! c = Some ec → chain (events q) k (nextInBin ec) r → ev ∈ r → (length r ≤ n)%nat →
  ∃ l1 cur l2, find_item n ev c (nextInBin ec) q = Ok ((cur, ev), q) ∧ c :: r = l1 ++ cur :: ev :: l2.
Proof.
  induction r as [|x r IH]; intros n c ec Hc Hch Hin Hn; [set_solver|].
  destruct Hch as (Hnx & e & He & _ & Hch). rewrite Hnx.
  destruct (decide (ev = x)) as [<-|Hne].
  - exists [], c, r. split; [|done]. destruct n; simpl; by rewrite bool_decide_true.
  - destruct n as [|n]; [simpl in Hn; lia|].
    destruct (IH n x e He Hch) as (l1 & cur & l2 & Hf & Hl); [set_solver|simpl in Hn; lia|].
    exists (c :: l1), cur, l2. rewrite Hl. split; [|done]. simpl. rewrite bool_decide_false by done.
    by rewrite (M_bind_ok _ _ _ _ _ (get_ev_run _ _ _ He)).
Qed.

Lemma chain_unlink h k l1 cur x l2 ecur ex : ∀ p,
  chain h k p (l1 ++ cur :: x :: l2) → NoDup (l1 ++ cur :: x :: l2) →
  h !! cur = Some ecur → h !! x = Some ex →
  chain (<[cur := set_nextInBin (nextInBin ex) ecur]> h) k p (l1 ++ cur :: l2).
Proof.
  induction l1 as [|y l1 IH]; intros p Hc Hnd Hcur Hx; simpl in *.
  - destruct Hc as (-> & e & He & Hr & (_ & e' & He' & Hr' & Hc)). simplify_eq.
    split; [done|]. eexists. rewrite lookup_insert_eq. split_and!; [done..|].
    eapply chain_frame; [|exact Hc]. intros z Hz. apply keeps_keeps_in, keeps_insert_ne.
    rewrite !NoDup_cons in Hnd. set_solver.
  - destruct Hc as (-> & e & He & Hr & Hc). rewrite NoDup_cons in Hnd. destruct Hnd as [Hy Hnd].
    split; [done|]. exists e. rewrite lookup_insert_ne by set_solver. split_and!; [done..|]. by apply IH.
Qed.

Lemma without_split x l1 l2 : NoDup (l1 ++ x :: l2) → without x (l1 ++ x :: l2) = l1 ++ l2.
Proof.
  intros (H1 & H2 & H3%NoDup_cons)%NoDup_app. destruct H3 as [H3 _]. unfold without.
  rewrite filter_app, filter_cons_False by auto.
  rewrite !filter_all; [done|..]; apply Forall_forall; set_solver.
Qed.

Lemma removeItem_ok q ev t e k b bs :
  events q !! t = Some e → chain (events q) k (Some t) b → bins (events q) (nextBin e) bs →
  NoDup (b ++ contents bs) → ev ∈ b → (length b ≤ size (events q))%nat →
  ∃ p' h', removeItem ev t q = Ok (p', set_events h' q) ∧ relinked (events q) h' ∧
    (∀ x, x ∉ b → h' !! x = events q !! x) ∧ bins h' p' (cons_bin k (without ev b) bs).
Proof.
  intros Ht Hc Hb Hnd Hin Hn. unfold removeItem. rewrite (M_bind_ok _ _ _ _ _ (get_ev_run _ _ _ Ht)).
  destruct (chain_head _ _ _ _ _ Hc eq_refl) as [r ->].
  destruct Hc as (_ & e' & He & <- & Hc). assert (e' = e) as -> by congruence. clear He.
  destruct (decide (ev = t)) as [->|Hne].
  - rewrite bool_decide_true by done.
    assert (without t (t :: r) = r) as ->.
    { apply (without_split t [] r). simpl in *. rewrite NoDup_cons, NoDup_app in *. set_solver. }
    destruct r as [|x r].
    { simpl in Hc. rewrite Hc. exists (nextBin e), (events q).
      split_and!; [by destruct q|apply relinked_refl|done..]. }
    destruct Hc as (-> & ex & Hx & Hrx & Hc).
    rewrite (M_seq_ok _ _ _ _ (upd_ev_run _ _ (set_nextBin (nextBin e)) _ Hx)).
    eexists _, _. split_and!; [reflexivity|by apply (relinked_insert _ _ ex)| |].
    { intros y Hy. rewrite lookup_insert_ne; [done|set_solver]. }
    simpl in Hnd. rewrite !NoDup_cons in Hnd. destruct Hnd as (_ & Hxr & Hnd).
    cbn [cons_bin bins]. split.
    + split; [done|]. eexists. rewrite lookup_insert_eq. split_and!; [done..|].
      eapply chain_frame; [|exact Hc]. intros y Hy. apply keeps_keeps_in, keeps_insert_ne. set_solver.
    + eexists _, _. rewrite lookup_insert_eq. split_and!; [done..|].
      eapply bins_frame; [|exact Hb]. intros y Hy. apply keeps_insert_ne. set_solver.
  - rewrite bool_decide_false by done. erewrite M_bind_ok by reflexivity. cbv beta.
    destruct (find_item_ok ev q (rank e) r (S (size (events q))) t e Ht Hc) as (l1 & cur & l2 & Hf & Hl);
      [set_solver|simpl in Hn; lia|].
    rewrite (M_bind_ok _ _ _ _ _ Hf). cbn [fst snd]. rewrite Hl in Hnd, Hin |- *.
    assert (chain (events q) (rank e) (Some t) (l1 ++ cur :: ev :: l2)) as Hch.
    { rewrite <-Hl. simpl. eauto. }
    destruct (chain_Some _ _ _ _ cur Hch) as (ecur & Hcur & _); [set_solver|].
    destruct (chain_Some _ _ _ _ ev Hch) as (eev & Hev & _); [set_solver|].
    rewrite (M_bind_ok _ _ _ _ _ (get_ev_run _ _ _ Hev)).
    rewrite (M_seq_ok _ _ _ _ (upd_ev_run _ _ (set_nextInBin (nextInBin eev)) _ Hcur)).
    eexists _, _. split_and!; [reflexivity|by apply (relinked_insert _ _ ecur)| |].
    { intros y Hy. rewrite lookup_insert_ne; [done|set_solver]. }
    assert (NoDup (l1 ++ cur :: ev :: l2)) as Hnd' by (by apply NoDup_app in Hnd as (? & _)).
    replace (without ev (l1 ++ cur :: ev :: l2)) with (l1 ++ cur :: l2).
    2: { change (cur :: ev :: l2) with ([cur] ++ ev :: l2) in *. rewrite (assoc_L app) in *.
         rewrite without_split by done. by rewrite <-(assoc_L app). }
    pose proof (chain_unlink _ _ _ _ _ _ _ _ _ Hch Hnd' Hcur Hev) as Hch'.
    assert (∃ z r', l1 ++ cur :: l2 = t :: r' ∧ z = t) as (z & r' & Hz & ->).
    { destruct l1 as [|y l1]; simpl in *; simplify_eq; eauto. }
    rewrite Hz in *. cbn [cons_bin bins]. split; [done|].
    destruct (decide (cur = t)) as [->|Hct].
    + simplify_eq. eexists t, _. rewrite lookup_insert_eq. split_and!; [done..|].
      eapply bins_frame; [|exact Hb]. intros y Hy. apply keeps_insert_ne.
      rewrite NoDup_app in Hnd. set_solver.
    + exists t, e. rewrite lookup_insert_ne by done. split_and!; [done..|].
      eapply bins_frame; [|exact Hb]. intros y Hy. apply keeps_insert_ne.
      rewrite NoDup_app in Hnd. set_solver.
Qed.

(** ** Sizes *)

Lemma contents_size h p bs : bins h p bs → NoDup (contents bs) → (length (contents bs) ≤ size h)%nat.
Proof.
  intros Hb Hnd. rewrite <-size_dom, <-(size_list_to_set (C := gset positive)) by done.
  apply subseteq_size. intros x Hx%elem_of_list_to_set. apply elem_of_dom. by eapply contents_Some.
Qed.

Lemma bins_length h p bs : bins h p bs → (length bs ≤ length (contents bs))%nat.
Proof.
  revert p. induction bs as [|[k b] bs IH]; intros p; [simpl; lia|].
  intros (Hc & t & e & -> & _ & Hb). destruct (chain_head _ _ _ _ _ Hc eq_refl) as [b' ->].
  rewrite contents_cons. simpl. rewrite length_app. specialize (IH _ Hb). lia.
Qed.

Lemma bin_length k b bs : (k, b) ∈ bs → (length b ≤ length (contents bs))%nat.
Proof.
  induction bs as [|[k' b'] bs IH]; [set_solver|]. rewrite contents_cons, length_app.
  intros [[= -> ->]|Hin]%elem_of_cons; [lia|]. specialize (IH Hin). lia.
Qed.

(** ** [remove] *)

Lemma del_app k x bs1 bs2 : below k bs1 → del k x (bs1 ++ bs2) = bs1 ++ del k x bs2.
Proof.
  induction 1 as [|[k' b] bs1 Hk Hb IH]; [done|]. simpl in *.
  rewrite (proj2 (Z.eqb_neq _ _)) by lia. by rewrite IH.
Qed.

Lemma contents_cons_bin k b bs : contents (cons_bin k b bs) = b ++ contents bs.
Proof. by destruct b. Qed.

Lemma sorted_bins_app bs1 bs2 : sorted_bins (bs1 ++ bs2) → sorted_bins bs2.
Proof.
  induction bs1 as [|[k b] bs1 IH]; [done|]. intros [_ Hs]%sorted_bins_cons. auto.
Qed.

Lemma not_below h p bs1 bs2 x e :
  bins h p (bs1 ++ bs2) → h !! x = Some e → below (rank e) bs1 → x ∈ contents bs1 → False.
Proof.
  intros Hb He Hbel (k & b & Hkb & Hx)%elem_of_contents.
  destruct (bins_Some _ _ _ k b x Hb) as (e' & ? & ?); [set_solver|done|]. simplify_eq.
  unfold below in Hbel. rewrite Forall_forall in Hbel. specialize (Hbel _ Hkb). simpl in Hbel. lia.
Qed.

(** An event is in the bin of its rank. *)
Lemma in_bin h p k b bs x e :
  bins h p ((k, b) :: bs) → h !! x = Some e → x ∈ contents ((k, b) :: bs) →
  Forall (λ kb, rank e ≤ kb.1) ((k, b) :: bs) → above k bs → rank e = k ∧ x ∈ b.
Proof.
  intros Hb He (k' & b' & Hin & Hx)%elem_of_contents Hle Hab.
  destruct (bins_Some _ _ _ _ _ _ Hb Hin Hx) as (e' & ? & Hk'). simplify_eq.
  apply elem_of_cons in Hin as [[= <- <-]|Hin]; [done|].
  unfold above in Hab. rewrite Forall_forall in Hab. specialize (Hab _ Hin). apply Forall_cons in Hle as [Hle _]. simpl in *. lia.
Qed.

Lemma remove_links this q ev e bs :
  all_typed (events q) → events q !! ev = Some e → queue e = Some this →
  bins (events q) (head q) bs → sorted_bins bs → NoDup (contents bs) → ev ∈ contents bs →
  ∃ q', remove this ev q = Ok (tt, q') ∧ links_only q q' ∧
        bins (events q') (head q') (del (rank e) ev bs).
Proof.
  intros Hty He Hq Hb Hs Hnd Hin. pose proof (contents_size _ _ _ Hb Hnd) as Hsz.
  pose proof (bins_length _ _ _ Hb) as Hlen.
  unfold remove. erewrite M_bind_ok by reflexivity.
  destruct bs as [|[k b] bs]; [set_solver|].
  pose proof Hb as (Hc & t & x & Hhd & Hx & Hbs). rewrite Hhd in *.
  rewrite (M_bind_ok _ _ _ _ _ (get_ev_run _ _ _ He)), Hq, bool_decide_true by done.
  erewrite M_seq_ok by reflexivity. rewrite (M_bind_ok _ _ _ _ _ (get_ev_run _ _ _ Hx)).
  pose proof (bins_top_rank _ _ _ _ _ _ Hb Hx) as Hk.
  destruct (sorted_bins_cons _ _ _ Hs) as [Hall Hs'].
  rewrite ev_eq_rank by (by eapply Hty). rewrite Hk. cbn [del].
  destruct (Z.eqb_spec k (rank e)) as [->|Hne].
  - destruct (in_bin _ _ _ _ _ _ _ Hb He Hin) as [_ Hb']; [|done|].
    { constructor; [done|]. eapply Forall_impl; [exact Hall|]. simpl. lia. }
    rewrite Z.eqb_refl.
    destruct (removeItem_ok q ev t x (rank e) b bs) as (p' & h' & Hr & Hrl & _ & Hbs'); try done.
    { rewrite contents_cons, length_app in Hsz. lia. }
    rewrite (M_bind_ok _ _ _ _ _ Hr). eexists. split; [reflexivity|]. by split; [split_and!|].
  - rewrite (proj2 (Z.eqb_neq (rank e) k)) by lia.
    erewrite M_bind_ok by reflexivity. cbv beta.
    rewrite contents_cons in Hnd, Hin, Hsz. rewrite length_app in Hsz.
    rewrite contents_cons, length_app in Hlen. simpl in Hlen.
    destruct (find_bin_ok ev e bs (S (size (events q))) q t x k b) as
      (prev & evp & bs1 & bs2 & Hf & -> & Hbel & Hab & Hp & Hpin & Hb2 & Hk2); try done; [simpl in *; lia|].
    rewrite (M_bind_ok _ _ _ _ _ Hf). cbn [fst snd]. rewrite contents_app in Hnd, Hin.
    assert (ev ∈ contents bs2) as Hin2.
    { rewrite !elem_of_app in Hin. destruct Hin as [Hev|[Hev|Hev]]; [exfalso..|done].
      - destruct (chain_Some _ _ _ _ ev Hc Hev) as (e' & ? & ?). congruence.
      - exact (not_below _ _ _ _ _ _ Hbs He Hbel Hev). }
    destruct bs2 as [|[k2 b2] bs2]; [set_solver|].
    pose proof Hb2 as (Hc2 & t2 & x2 & Hpn & Hx2 & Hbs2). rewrite Hpn in *.
    rewrite (M_bind_ok _ _ _ _ _ (get_ev_run _ _ _ Hx2)).
    apply sorted_bins_app in Hs' as [Hab2 _]%sorted_bins_cons.
    destruct (in_bin _ _ _ _ _ _ _ Hb2 He Hin2 Hab Hab2) as [<- Hevb].
    rewrite ev_ne_rank by (by eapply Hty). rewrite (bins_top_rank _ _ _ _ _ _ Hb2 Hx2), Z.eqb_refl.
    cbn [negb]. rewrite contents_cons in Hnd.
    destruct (removeItem_ok q ev t2 x2 (rank e) b2 bs2) as (p' & h' & Hr & Hrl & Hsame & Hbs'); try done.
    { clear -Hnd. rewrite !NoDup_app in Hnd. rewrite NoDup_app. tauto. }
    { rewrite contents_app, contents_cons, !length_app in Hsz. lia. }
    rewrite (M_bind_ok _ _ _ _ _ Hr).
    assert (∀ x, x ∈ b ++ contents bs1 → x ∉ b2 ++ contents bs2) as Hout.
    { clear -Hnd. rewrite !NoDup_app in Hnd. set_solver. }
    assert (h' !! prev = Some evp) as Hp'.
    { rewrite Hsame; [done|]. specialize (Hout prev Hpin). clear -Hout. set_solver. }
    rewrite (upd_ev_run (set_events h' q) prev (set_nextBin p') evp Hp').
    eexists. split; [reflexivity|]. cbn [events head set_events]. split.
    { split_and!; [|done..]. cbn [events set_events].
      apply (relinked_trans _ h'); [done|]. by apply (relinked_insert _ _ evp). }
    rewrite Hhd, del_app by done. cbn [del]. rewrite Z.eqb_refl. apply (Hk2 _ p').
    + intros y Hy Hyp. rewrite lookup_insert_ne by done. apply Hsame.
      specialize (Hout y Hy). clear -Hout. set_solver.
    + by rewrite lookup_insert_eq.
    + eapply bins_frame; [|exact Hbs']. intros y Hy. apply keeps_insert_ne. intros ->.
      rewrite contents_cons_bin in Hy. apply (Hout prev Hpin), elem_of_app.
      apply elem_of_app in Hy as [[_ Hy]%list_elem_of_filter|Hy]; auto.
Qed.
