(* ===== verification/EventQueueProps.v ===== *)
(** * The event queue is a priority queue

    [valid this q l] says that the queue [q] holds the events [l], in the order
    they will be served.  Scheduling, descheduling, rescheduling and serving
    are specified by what they do to [l]; what the pointers look like stays in
    [EventQueueRep]. *)
From stdpp Require Import base tactics list gmap strings sets sorting.
From Stdlib Require Import ZArith Lia.
From S2P Require Import Prelude EventQueue EventQueueRep.
Import EventQ.
Local Open Scope Z_scope.

(** ** Flags *)

Lemma isSet_testbit f n : 0 ≤ n → Flags.isSet f (2 ^ n) = Z.testbit f n.
Proof.
  intros Hn. unfold Flags.isSet. destruct (Z.testbit f n) eqn:E.
  - apply negb_true_iff, Z.eqb_neq. intros H0.
    assert (Z.testbit (Z.land f (2 ^ n)) n = true) as H1.
    { rewrite Z.land_spec, E, Z.pow2_bits_true by done. done. }
    rewrite H0, Z.bits_0 in H1. done.
  - apply negb_false_iff, Z.eqb_eq, Z.bits_inj'. intros m Hm. rewrite Z.land_spec, Z.bits_0.
    destruct (decide (m = n)) as [->|Hne]; [by rewrite E|].
    rewrite Z.pow2_bits_false by done. apply andb_false_r.
Qed.

Lemma land_ldiff_disjoint f m k : Z.land m k = 0 → Z.land (Z.ldiff f m) k = Z.land f k.
Proof.
  intros H0. apply Z.bits_inj'. intros n Hn. rewrite !Z.land_spec, Z.ldiff_spec.
  assert (Z.testbit m n && Z.testbit k n = false) as Hmk by (by rewrite <-Z.land_spec, H0, Z.bits_0).
  destruct (Z.testbit f n), (Z.testbit m n), (Z.testbit k n); done.
Qed.

Lemma land_lor_disjoint f m k : Z.land m k = 0 → Z.land (Z.lor f m) k = Z.land f k.
Proof. intros H0. by rewrite Z.land_lor_distr_l, H0, Z.lor_0_r. Qed.

(** Setting or clearing other flags leaves a flag as it is. *)
Lemma scheduled_set e : scheduled (set_flags (Flags.set Scheduled (flags e)) e) = true.
Proof.
  unfold scheduled. change Scheduled with (2 ^ 1). rewrite isSet_testbit by done. simpl flags.
  unfold Flags.set. by rewrite Z.lor_spec, Z.pow2_bits_true, orb_true_r by done.
Qed.
Lemma scheduled_clear e : scheduled (set_flags (Flags.clear Scheduled (flags e)) e) = false.
Proof.
  unfold scheduled. change Scheduled with (2 ^ 1). rewrite isSet_testbit by done. simpl flags.
  unfold Flags.clear. by rewrite Z.ldiff_spec, Z.pow2_bits_true, andb_false_r by done.
Qed.
Lemma scheduled_unsquash e : scheduled (set_flags (Flags.clear Squashed (flags e)) e) = scheduled e.
Proof. unfold scheduled, Flags.isSet, Flags.clear. simpl flags. by rewrite land_ldiff_disjoint. Qed.
Lemma initialized_set m e :
  Z.land m InitMask = 0 → initialized (set_flags (Flags.set m (flags e)) e) = initialized e.
Proof. intros H. unfold initialized, Flags.set. simpl flags. by rewrite land_lor_disjoint. Qed.
Lemma initialized_clear m e :
  Z.land m InitMask = 0 → initialized (set_flags (Flags.clear m (flags e)) e) = initialized e.
Proof. intros H. unfold initialized, Flags.clear. simpl flags. by rewrite land_ldiff_disjoint. Qed.

(** ** Validity *)

Section valid.
Context (this : nat).

(** An event that waits in the queue. *)
Definition waiting (now : Z) (e : Event) : Prop :=
  now ≤ when_ e ∧ queue e = Some this ∧ initialized e = true.

Record wf (q : EventQueue) (bs : binlist) : Prop := {
  wf_bins : bins (events q) (head q) bs;
  wf_sorted : sorted_bins bs;
  wf_nodup : NoDup (contents bs ++ async_queue q);
  wf_typed : all_typed (events q);
  wf_alive : ∀ x, x ∈ contents bs ++ async_queue q →
    ∃ e, events q !! x = Some e ∧ waiting (curTick q) e;
  wf_sched : ∀ x e, events q !! x = Some e →
    scheduled e = true ↔ x ∈ contents bs ++ async_queue q;
}.

Definition valid (q : EventQueue) (l : list positive) : Prop :=
  ∃ bs, wf q bs ∧ contents bs = l.

(** The rank of the event at [x]. *)
Definition rank_of (h : heap) (x : positive) : Z := from_option rank 0 (h !! x).

(** *** Order *)

Lemma bins_rank_of h p bs k b x : bins h p bs → (k, b) ∈ bs → x ∈ b → rank_of h x = k.
Proof.
  intros Hb Hkb Hx. destruct (bins_Some _ _ _ _ _ _ Hb Hkb Hx) as (e & He & Hk).
  unfold rank_of. by rewrite He.
Qed.

(** Insertion splits the contents by rank. *)
Lemma split_bins k bs : sorted_bins bs →
  ∃ bs1 bs2, bs = bs1 ++ bs2 ∧ below k bs1 ∧ Forall (λ kb, k ≤ kb.1) bs2.
Proof.
  induction bs as [|[k' b] bs IH]; intros Hs; [by exists [], []; split_and!; [|apply Forall_nil..]|].
  apply sorted_bins_cons in Hs as [Hab Hs]. destruct (Z.lt_ge_cases k' k) as [Hlt|Hge].
  - destruct (IH Hs) as (bs1 & bs2 & -> & H1 & H2). exists ((k', b) :: bs1), bs2.
    split_and!; [done|by constructor|done].
  - exists [], ((k', b) :: bs). split_and!; [done|apply Forall_nil; done|].
    constructor; [simpl; lia|]. eapply Forall_impl; [exact Hab|]. simpl. lia.
Qed.

Lemma contents_ins h p k x bs :
  bins h p bs → sorted_bins bs →
  contents (ins k x bs) =
    filter (λ y, rank_of h y < k) (contents bs) ++ x :: filter (λ y, ¬ rank_of h y < k) (contents bs).
Proof.
  intros Hb Hs. destruct (split_bins k bs Hs) as (bs1 & bs2 & -> & H1 & H2).
  rewrite ins_app, !contents_app, ins_front, !filter_app by done.
  assert (Forall (λ y, rank_of h y < k) (contents bs1)) as F1.
  { apply Forall_forall. intros y (k' & b & Hkb & Hy)%elem_of_contents.
    rewrite (bins_rank_of h p _ k' b y Hb) by set_solver.
    unfold below in H1. rewrite Forall_forall in H1. exact (H1 _ Hkb). }
  assert (Forall (λ y, ¬ rank_of h y < k) (contents bs2)) as F2.
  { apply Forall_forall. intros y (k' & b & Hkb & Hy)%elem_of_contents.
    rewrite (bins_rank_of h p _ k' b y Hb) by set_solver.
    rewrite Forall_forall in H2. specialize (H2 _ Hkb). simpl in H2. lia. }
  rewrite (filter_all (λ y, rank_of h y < k) (contents bs1)) by done.
  rewrite (filter_all (λ y, ¬ rank_of h y < k) (contents bs2)) by done.
  rewrite (filter_none (λ y, rank_of h y < k) (contents bs2)) by done.
  rewrite (filter_none (λ y, ¬ rank_of h y < k) (contents bs1)); [by rewrite app_nil_r|].
  eapply Forall_impl; [exact F1|]. intros y Hy Hn. by apply Hn.
Qed.

Lemma above_ins k0 k x bs : k0 < k → above k0 bs → above k0 (ins k x bs).
Proof.
  intros Hk. induction 1 as [|[k' b] bs Hk' Hbs IH]; simpl; [by repeat constructor|].
  repeat case_match; by repeat constructor.
Qed.

Lemma ins_sorted k x bs : sorted_bins bs → sorted_bins (ins k x bs).
Proof.
  induction bs as [|[k' b] bs IH]; intros Hs; simpl; [repeat constructor|].
  destruct (sorted_bins_cons _ _ _ Hs) as [Hab Hs'].
  destruct (Z.ltb_spec k k'); [|destruct (Z.eqb_spec k k'); [done|]].
  - constructor; [done|]. constructor; [done|]. apply Forall_fmap.
    eapply Forall_impl; [exact Hab|]. simpl. lia.
  - constructor; [by apply IH|]. change (Forall (Z.lt k') (ins k x bs).*1).
    apply Forall_fmap, above_ins; [lia|done].
Qed.

Lemma ins_perm k x bs : contents (ins k x bs) ≡ₚ x :: contents bs.
Proof.
  induction bs as [|[k' b] bs IH]; simpl; [done|]. repeat case_match; [done|done|].
  rewrite !contents_cons, IH. by rewrite Permutation_middle.
Qed.

Lemma del_sorted k x bs : sorted_bins bs → sorted_bins (del k x bs) ∧
  ∀ k', above k' bs → above k' (del k x bs).
Proof.
  induction bs as [|[k' b] bs IH]; intros Hs; [done|].
  destruct (sorted_bins_cons _ _ _ Hs) as [Hab Hs']. destruct (IH Hs') as [IH1 IH2].
  simpl. destruct (Z.eqb_spec k k') as [->|Hne].
  - unfold cons_bin. destruct (without x b); [split; [done|]; by intros ? [_ ?]%Forall_cons|].
    split; [|intros k2 [? ?]%Forall_cons; by constructor]. constructor; [done|].
    by apply Forall_fmap.
  - split.
    + constructor; [done|]. change (Forall (Z.lt k') (del k x bs).*1). apply Forall_fmap. by apply IH2.
    + intros k2 [? ?]%Forall_cons. constructor; [done|]. by apply IH2.
Qed.

Lemma contents_del h p x e bs :
  bins h p bs → sorted_bins bs → NoDup (contents bs) → h !! x = Some e →
  contents (del (rank e) x bs) = without x (contents bs).
Proof.
  intros Hb Hs Hnd Hx. revert p Hb. induction bs as [|[k b] bs IH]; intros p Hb; [done|].
  rewrite contents_cons in *. pose proof Hnd as (_ & _ & Hnbs)%NoDup_app.
  destruct (sorted_bins_cons _ _ _ Hs) as [Hab Hs'].
  assert (∀ l, x ∉ l → without x l = l) as Hout.
  { intros l Hl. apply filter_all, Forall_forall. intros y Hy ->. done. }
  unfold without at 1. rewrite filter_app. fold (without x b) (without x (contents bs)).
  cbn [del]. destruct Hb as (Hc & t & et & _ & _ & Hbs). destruct (Z.eqb_spec (rank e) k) as [<-|Hne].
  - rewrite contents_cons_bin. f_equal. symmetry. apply Hout.
    intros (k2 & b2 & Hkb & Hx2)%elem_of_contents.
    destruct (bins_Some _ _ _ _ _ _ Hbs Hkb Hx2) as (e' & ? & ?). simplify_eq.
    unfold above in Hab. rewrite Forall_forall in Hab. specialize (Hab _ Hkb). simpl in Hab. lia.
  - rewrite contents_cons, (IH Hs' Hnbs _ Hbs). f_equal. symmetry. apply Hout. intros Hin.
    destruct (chain_Some _ _ _ _ x Hc Hin) as (e' & ? & ?). congruence.
Qed.

(** *** One event changes *)

(** All events but [ev] kept everything but their links. *)
Definition agree_except (ev : positive) (h h' : heap) : Prop :=
  ∀ x, x ≠ ev → (h !! x = None ∧ h' !! x = None) ∨
    ∃ e e', h !! x = Some e ∧ h' !! x = Some e' ∧ relink e e'.

Lemma agree_relinked ev h1 h2 h3 : agree_except ev h1 h2 → relinked h2 h3 → agree_except ev h1 h3.
Proof.
  intros H1 H2 x Hx. destruct (H1 x Hx) as [[? ?]|(e & e' & ? & ? & (?&?&?&?))],
    (H2 x) as [[? ?]|(f & f' & ? & ? & (?&?&?&?))]; simplify_eq; [by left|]. right.
  exists e, f'. unfold relink. split_and!; congruence.
Qed.

Lemma agree_insert ev h1 h2 e : agree_except ev h1 h2 → agree_except ev h1 (<[ev := e]> h2).
Proof. intros H x Hx. rewrite lookup_insert_ne by done. by apply H. Qed.

Lemma agree_delete ev h1 h2 : agree_except ev h1 h2 → agree_except ev h1 (delete ev h2).
Proof. intros H x Hx. rewrite lookup_delete_ne by done. by apply H. Qed.

Lemma agree_refl ev h : agree_except ev h h.
Proof. intros x _. apply relinked_refl. Qed.

(** What is to be known of the event that changed. *)
Definition event_ok (q : EventQueue) (bs : binlist) (ev : positive) : Prop :=
  match events q !! ev with
  | None => ev ∉ contents bs ++ async_queue q
  | Some e => typed e ∧ (scheduled e = true ↔ ev ∈ contents bs ++ async_queue q) ∧
              (ev ∈ contents bs ++ async_queue q → waiting (curTick q) e)
  end.

Lemma wf_change q bs q' bs' ev :
  wf q bs → bins (events q') (head q') bs' → sorted_bins bs' →
  agree_except ev (events q) (events q') → curTick q' = curTick q →
  (∀ x, x ≠ ev → x ∈ contents bs' ++ async_queue q' ↔ x ∈ contents bs ++ async_queue q) →
  NoDup (contents bs' ++ async_queue q') → event_ok q' bs' ev → wf q' bs'.
Proof.
  intros Hwf Hb Hs Hag Ht Hmem Hnd Hev. constructor; [done..| | |].
  - intros x e' He'. destruct (decide (x = ev)) as [->|Hne].
    + unfold event_ok in Hev. rewrite He' in Hev. by destruct Hev.
    + destruct (Hag x Hne) as [[? ?]|(e & f & He & ? & (_ & Hp & _))]; simplify_eq.
      unfold typed. rewrite Hp. by apply (wf_typed _ _ Hwf x).
  - intros x Hx. destruct (decide (x = ev)) as [->|Hne].
    + unfold event_ok in Hev. destruct (events q' !! ev) as [e|]; [|done].
      destruct Hev as (_ & _ & Hw). eauto.
    + destruct (wf_alive _ _ Hwf x) as (e & He & (? & ? & Hi)); [by apply Hmem|].
      destruct (Hag x Hne) as [[? ?]|(f & f' & ? & ? & (Hw & _ & Hf & Hq))]; simplify_eq.
      exists f'. unfold waiting, initialized. rewrite Ht, Hw, Hf, Hq. done.
  - intros x e' He'. destruct (decide (x = ev)) as [->|Hne].
    + unfold event_ok in Hev. rewrite He' in Hev. tauto.
    + destruct (Hag x Hne) as [[? ?]|(e & f & He & ? & (_ & _ & Hf & _))]; simplify_eq.
      rewrite Hmem by done. unfold scheduled. rewrite Hf. by apply (wf_sched _ _ Hwf x).
Qed.

Lemma wf_fresh q bs ev e :
  wf q bs → events q !! ev = Some e → scheduled e = false → ev ∉ contents bs ++ async_queue q.
Proof. intros Hwf He Hs Hin. apply (wf_sched _ _ Hwf _ _ He) in Hin. congruence. Qed.

Lemma wf_insert_links q ev e bs :
  all_typed (events q) → events q !! ev = Some e → bins (events q) (head q) bs →
  sorted_bins bs → NoDup (contents bs) → ev ∉ contents bs →
  ∃ q', insert ev q = Ok (tt, q') ∧ links_only q q' ∧
        bins (events q') (head q') (ins (rank e) ev bs).
Proof.
  intros Hty He Hb Hs Hnd Hnew. apply insert_links; try done.
  pose proof (bins_length _ _ _ Hb). pose proof (contents_size _ _ _ Hb Hnd). lia.
Qed.

Lemma keeps_flags h x e f y : h !! x = Some e → keeps h (<[x := set_flags f e]> h) y.
Proof.
  intros He. destruct (decide (y = x)) as [->|Hne]; [|by apply keeps_insert_ne].
  intros e' He'. simplify_eq. rewrite lookup_insert_eq. eauto.
Qed.

(** *** [insert] of an event that is not in the queue, and marking it *)

Lemma insert_marked q bs ev e1 q1 :
  wf q bs → ev ∉ contents bs → agree_except ev (events q) (events q1) →
  events q1 !! ev = Some e1 → typed e1 → waiting (curTick q) e1 →
  curTick q1 = curTick q → bins (events q1) (head q1) bs →
  NoDup (contents (ins (rank e1) ev bs) ++ async_queue q1) →
  (∀ x, x ≠ ev → x ∈ async_queue q1 ↔ x ∈ async_queue q) →
  ∃ q2, insert ev q1 = Ok (tt, q2) ∧ async_queue q2 = async_queue q1 ∧ curTick q2 = curTick q1 ∧
    ∃ e2, events q2 !! ev = Some e2 ∧ relink e1 e2 ∧
    ∀ f, scheduled (set_flags f e2) = true → initialized (set_flags f e2) = true →
      wf (set_events (<[ev := set_flags f e2]> (events q2)) q2) (ins (rank e1) ev bs).
Proof.
  intros Hwf Hnew Hag He1 Hty1 Hwait Ht Hb Hnd Has.
  assert (all_typed (events q1)) as Hty.
  { intros x e He. destruct (decide (x = ev)) as [->|Hne]; [by simplify_eq|].
    destruct (Hag x Hne) as [[? ?]|(e' & f' & He' & ? & (_ & Hp & _))]; simplify_eq.
    unfold typed. rewrite Hp. by apply (wf_typed _ _ Hwf x). }
  pose proof (wf_nodup _ _ Hwf) as (Hndc & _ & _)%NoDup_app.
  destruct (wf_insert_links q1 ev e1 bs Hty He1 Hb (wf_sorted _ _ Hwf) Hndc Hnew)
    as (q2 & Hrun & (Hrl & Ht2 & Ha2) & Hb2).
  destruct (relinked_Some _ _ _ _ Hrl He1) as (e2 & He2 & Hr2).
  exists q2. split_and!; [done..|]. exists e2. split_and!; [done..|]. intros f' Hsc Hin.
  apply (wf_change q bs _ _ ev); cbn [events head curTick async_queue set_events]; try done.
  - eapply bins_frame; [|exact Hb2]. intros x _. by apply keeps_flags.
  - apply ins_sorted, (wf_sorted _ _ Hwf).
  - apply agree_insert. by eapply agree_relinked.
  - congruence.
  - intros x Hne. rewrite !elem_of_app, ins_perm, elem_of_cons, Ha2, Has by done. naive_solver.
  - by rewrite Ha2.
  - unfold event_ok. cbn [events curTick async_queue set_events]. rewrite lookup_insert_eq.
    assert (ev ∈ contents (ins (rank e1) ev bs)) as Hin' by (rewrite ins_perm; apply list_elem_of_here).
    destruct Hr2 as (Hw & Hp & _ & Hq). split_and!.
    + unfold typed. simpl. by rewrite Hp.
    + rewrite elem_of_app. tauto.
    + intros _. destruct Hwait as (? & ? & _). unfold waiting. simpl. rewrite Ht2, Ht, Hw, Hq. done.
Qed.

(** *** [schedule] *)

Context (par cur : bool).

Lemma setWhen_typed w e : typed e → typed (setWhen w this e).
Proof. done. Qed.

Lemma schedule_wf ev w g q bs e :
  wf q bs → events q !! ev = Some e → scheduled e = false → initialized e = true →
  curTick q ≤ w → par && (negb cur || g) = false →
  ∃ q', schedule this par cur ev w g q = Ok (tt, q') ∧
        wf q' (ins (rank (setWhen w this e)) ev bs) ∧
        curTick q' = curTick q ∧ async_queue q' = async_queue q.
Proof.
  intros Hwf He Hsc Hin Hw Hpar. unfold schedule. erewrite M_bind_ok by reflexivity.
  rewrite (proj2 (Z.leb_le _ _)) by done. erewrite M_seq_ok by reflexivity.
  rewrite (M_bind_ok _ _ _ _ _ (get_ev_run _ _ _ He)), Hsc, Hin, Hpar.
  do 2 erewrite M_seq_ok by reflexivity.
  rewrite (M_seq_ok _ _ _ _ (upd_ev_run _ _ (setWhen w this) _ He)).
  pose proof (wf_fresh _ _ _ _ Hwf He Hsc) as Hfresh.
  set (e1 := setWhen w this e). set (q1 := set_events (<[ev := e1]> (events q)) q).
  destruct (insert_marked q bs ev e1 q1) as (q2 & Hrun & Ha & Ht & e2 & He2 & Hr & Hk); try done.
  - set_solver.
  - apply agree_insert, agree_refl.
  - apply lookup_insert_eq.
  - by apply (wf_typed _ _ Hwf ev e).
  - eapply bins_frame; [|apply (wf_bins _ _ Hwf)]. intros x Hx. apply keeps_insert_ne. set_solver.
  - pose proof (wf_nodup _ _ Hwf) as Hnd. cbn [async_queue set_events q1].
    rewrite ins_perm. simpl. apply NoDup_cons. done.
  - rewrite (M_seq_ok _ _ _ _ Hrun), (upd_ev_run _ _ _ _ He2).
    eexists. split; [reflexivity|]. split_and!; [|done..].
    destruct Hr as (_ & _ & Hf & _). apply Hk; [apply scheduled_set|].
    rewrite initialized_set by done. unfold initialized. rewrite Hf. exact Hin.
Qed.

(** *** [deschedule] and [remove] *)

Lemma remove_wf q bs ev e :
  wf q bs → events q !! ev = Some e → ev ∈ contents bs →
  ∃ q' e', remove this ev q = Ok (tt, q') ∧ links_only q q' ∧ events q' !! ev = Some e' ∧ relink e e' ∧
    bins (events q') (head q') (del (rank e) ev bs) ∧ sorted_bins (del (rank e) ev bs) ∧
    contents (del (rank e) ev bs) = without ev (contents bs).
Proof.
  intros Hwf He Hin. destruct (wf_alive _ _ Hwf ev) as (e' & He' & (_ & Hq & _)); [set_solver|].
  assert (e' = e) as -> by congruence. pose proof (wf_nodup _ _ Hwf) as (Hnd & _ & _)%NoDup_app.
  destruct (remove_links this q ev e bs) as (q' & Hrun & Hl & Hb'); try done;
    try apply Hwf. pose proof Hl as (Hrl & _ & _).
  destruct (relinked_Some _ _ _ _ Hrl He) as (e2 & He2 & Hr).
  exists q', e2. split_and!; try done; [by apply del_sorted, Hwf|].
  eapply contents_del; try done; apply Hwf.
Qed.

Lemma elem_without x ev l : x ∈ without ev l ↔ x ≠ ev ∧ x ∈ l.
Proof. unfold without. by rewrite list_elem_of_filter. Qed.

Lemma without_nodup ev l l2 : NoDup (l ++ l2) → NoDup (without ev l ++ l2).
Proof.
  intros (H1 & H2 & H3)%NoDup_app. apply NoDup_app. split_and!; [by apply NoDup_filter| |done].
  intros x [_ Hx]%elem_without. by apply H2.
Qed.

(** The queue without [ev], whatever became of [ev] itself. *)
Lemma wf_removed q bs bs' q' ev :
  wf q bs → bins (events q') (head q') bs' → sorted_bins bs' →
  contents bs' = without ev (contents bs) → ev ∉ async_queue q →
  agree_except ev (events q) (events q') → curTick q' = curTick q → async_queue q' = async_queue q →
  (∀ e, events q' !! ev = Some e → typed e ∧ scheduled e = false) → wf q' bs'.
Proof.
  intros Hwf Hb Hs Hc Hna Hag Ht Ha Hev.
  assert (ev ∉ contents bs' ++ async_queue q') as Hout.
  { rewrite Hc, Ha, elem_of_app, elem_without. naive_solver. }
  apply (wf_change q bs q' bs' ev); try done.
  - intros x Hx. rewrite Hc, Ha, !elem_of_app, elem_without. naive_solver.
  - rewrite Hc, Ha. apply without_nodup, Hwf.
  - unfold event_ok. destruct (events q' !! ev) as [e|] eqn:E; [|done].
    destruct (Hev e eq_refl) as [? Hf]. split_and!; [done| |done].
    split; [congruence|done].
Qed.

Lemma deschedule_wf ev q bs :
  wf q bs → ev ∈ contents bs → par && negb cur = false →
  ∃ q' bs', deschedule this par cur ev q = Ok (tt, q') ∧ wf q' bs' ∧
    contents bs' = without ev (contents bs) ∧ curTick q' = curTick q ∧ async_queue q' = async_queue q.
Proof.
  intros Hwf Hin Hpar. destruct (wf_alive _ _ Hwf ev) as (e & He & (Hw & Hq & Hini)); [set_solver|].
  assert (scheduled e = true) as Hsc by (apply (wf_sched _ _ Hwf ev e He); set_solver).
  unfold deschedule. rewrite (M_bind_ok _ _ _ _ _ (get_ev_run _ _ _ He)), Hsc, Hini.
  do 2 erewrite M_seq_ok by reflexivity.
  assert (negb par || cur = true) as -> by (destruct par, cur; done).
  erewrite M_seq_ok by reflexivity.
  destruct (remove_wf q bs ev e Hwf He Hin) as (q1 & e1 & Hrun & (Hrl & Ht & Ha) & He1 & Hr & Hb & Hs & Hc).
  rewrite (M_seq_ok _ _ _ _ Hrun), (M_seq_ok _ _ _ _ (upd_ev_run _ _ _ _ He1)).
  erewrite M_seq_ok by (apply upd_ev_run; apply lookup_insert_eq).
  cbn [events set_events]. rewrite insert_insert_eq.
  set (e2 := set_flags _ (set_flags _ e1)).
  unfold release. erewrite M_bind_ok by (apply get_ev_run; apply lookup_insert_eq).
  assert (scheduled e2 = false) as -> by apply scheduled_clear. cbv beta.
  assert (agree_except ev (events q) (<[ev := e2]> (events q1))) as Hag.
  { apply agree_insert. eapply agree_relinked; [apply agree_refl|done]. }
  assert (bins (<[ev := e2]> (events q1)) (head q1) (del (rank e) ev bs)) as Hb2.
  { eapply bins_frame; [|exact Hb]. intros x _. by apply (keeps_flags _ _ e1). }
  assert (ev ∉ async_queue q) as Hna.
  { pose proof (wf_nodup _ _ Hwf) as (_ & Hd & _)%NoDup_app. by apply Hd. }
  assert (typed e2) as Hte2.
  { destruct Hr as (_ & Hp & _). unfold typed. simpl. rewrite Hp. by apply (wf_typed _ _ Hwf ev e). }
  destruct (isManaged e2); simpl; eexists _, (del (rank e) ev bs); (split; [reflexivity|]);
    cbn [events head curTick async_queue set_events]; (split_and!; [|done..]).
  - apply (wf_removed q bs _ _ ev); cbn [events head curTick async_queue set_events]; try done.
    + eapply bins_frame; [|exact Hb2]. intros x Hx. apply keeps_same. apply lookup_delete_ne.
      intros <-. rewrite Hc in Hx. by apply elem_without in Hx as [? _].
    + by apply agree_delete.
    + intros e3. by rewrite lookup_delete_eq.
  - apply (wf_removed q bs _ _ ev); cbn [events head curTick async_queue set_events]; try done.
    intros e3. rewrite lookup_insert_eq. intros [= <-]. split; [done|apply scheduled_clear].
Qed.

(** *** [reschedule] *)

Lemma rank_of_agree ev h h' x : agree_except ev h h' → x ≠ ev → rank_of h' x = rank_of h x.
Proof.
  intros Hag Hx. unfold rank_of. destruct (Hag x Hx) as [[-> ->]|(e & e' & -> & -> & Hr)]; [done|].
  simpl. by apply relink_rank.
Qed.

(** The order after [ev] was put in with rank [k]. *)
Definition placed (h : heap) (k : Z) (ev : positive) (l : list positive) : list positive :=
  filter (λ y, rank_of h y < k) l ++ ev :: filter (λ y, ¬ rank_of h y < k) l.

Lemma placed_agree ev h h' k l :
  agree_except ev h h' → ev ∉ l → placed h' k ev l = placed h k ev l.
Proof.
  intros Hag Hl. unfold placed. f_equal; [|f_equal]; apply filter_iff_on; intros y Hy;
    (rewrite (rank_of_agree ev h h'); [done|done|]; intros ->; done).
Qed.

Lemma contents_placed h p k ev bs :
  bins h p bs → sorted_bins bs → contents (ins k ev bs) = placed h k ev (contents bs).
Proof. apply contents_ins. Qed.

(** A queue without [ev], [ev] being marked unscheduled. *)
Lemma take_out q bs ev e :
  wf q bs → events q !! ev = Some e → ev ∉ async_queue q →
  ∃ q1 bs1 e1, when (scheduled e) (remove this ev) q = Ok (tt, q1) ∧ events q1 !! ev = Some e1 ∧
    relink e e1 ∧ links_only q q1 ∧ bins (events q1) (head q1) bs1 ∧ sorted_bins bs1 ∧
    contents bs1 = without ev (contents bs) ∧
    wf (set_events (<[ev := set_flags (Flags.clear Scheduled (flags e1)) e1]> (events q1)) q1) bs1.
Proof.
  intros Hwf He Hna.
  assert (∃ q1 bs1 e1, when (scheduled e) (remove this ev) q = Ok (tt, q1) ∧ events q1 !! ev = Some e1 ∧
    relink e e1 ∧ links_only q q1 ∧ bins (events q1) (head q1) bs1 ∧ sorted_bins bs1 ∧
    contents bs1 = without ev (contents bs)) as (q1 & bs1 & e1 & Hrun & He1 & Hr & Hl & Hb & Hs & Hc).
  { destruct (scheduled e) eqn:Hsc.
    - apply (wf_sched _ _ Hwf _ _ He) in Hsc as [Hin|Hin]%elem_of_app; [|done].
      destruct (remove_wf q bs ev e Hwf He Hin) as (q1 & e1 & ? & ? & ? & ? & ? & ? & ?).
      by exists q1, (del (rank e) ev bs), e1.
    - exists q, bs, e. split_and!; try done; try apply Hwf; [by split; [apply relinked_refl|]|].
      pose proof (wf_fresh _ _ _ _ Hwf He Hsc) as Hf. symmetry. apply filter_all, Forall_forall.
      intros y Hy ->. apply Hf, elem_of_app. by left. }
  exists q1, bs1, e1. split_and!; try done. pose proof Hl as (Hrl & Ht & Ha).
  apply (wf_removed q bs _ _ ev); cbn [events head curTick async_queue set_events]; try done.
  - eapply bins_frame; [|exact Hb]. intros x _. by apply keeps_flags.
  - apply agree_insert. eapply agree_relinked; [apply agree_refl|done].
  - intros e3. rewrite lookup_insert_eq. intros [= <-]. split; [|apply scheduled_clear].
    destruct Hr as (_ & Hp & _). unfold typed. simpl. rewrite Hp. by apply (wf_typed _ _ Hwf ev e).
Qed.

Lemma reschedule_wf ev w always q bs e :
  wf q bs → events q !! ev = Some e → ev ∉ async_queue q → initialized e = true →
  always || scheduled e = true → curTick q ≤ w → par && negb cur = false →
  ∃ q' bs', reschedule this par cur ev w always q = Ok (tt, q') ∧ wf q' bs' ∧
    contents bs' = placed (events q) (rank (setWhen w this e)) ev (without ev (contents bs)) ∧
    curTick q' = curTick q ∧ async_queue q' = async_queue q.
Proof.
  intros Hwf He Hna Hini Hal Hw Hpar. unfold reschedule. erewrite M_bind_ok by reflexivity.
  rewrite (proj2 (Z.leb_le _ _)) by done. erewrite M_seq_ok by reflexivity.
  rewrite (M_bind_ok _ _ _ _ _ (get_ev_run _ _ _ He)), Hal, Hini.
  do 2 erewrite M_seq_ok by reflexivity.
  assert (negb par || cur = true) as -> by (destruct par, cur; done).
  erewrite M_seq_ok by reflexivity.
  destruct (take_out q bs ev e Hwf He Hna) as (q1 & bs1 & e1 & Hrun & He1 & Hr & (Hrl & Ht & Ha) & Hb & Hs & Hc & Hwf1).
  rewrite (M_seq_ok _ _ _ _ Hrun), (M_seq_ok _ _ _ _ (upd_ev_run _ _ (setWhen w this) _ He1)).
  set (q0 := set_events _ q1) in Hwf1. set (e2 := setWhen w this e1).
  set (q2 := set_events (<[ev := e2]> (events q1)) q1).
  assert (rank e2 = rank (setWhen w this e)) as Hk.
  { unfold rank. simpl. by destruct Hr as (_ & -> & _). }
  assert (ev ∉ contents bs1) as Hout by (rewrite Hc, elem_without; naive_solver).
  assert (agree_except ev (events q1) (events q2)) as Hag by apply agree_insert, agree_refl.
  destruct (insert_marked q0 bs1 ev e2 q2) as (q3 & Hrun3 & Ha3 & Ht3 & e3 & He3 & Hr3 & Hk3); try done.
  - intros x Hx. unfold q0, q2. cbn [events set_events]. rewrite !lookup_insert_ne by done. apply relinked_refl.
  - apply lookup_insert_eq.
  - destruct Hr as (_ & Hp & _). unfold typed. simpl. rewrite Hp. by apply (wf_typed _ _ Hwf ev e).
  - destruct Hr as (_ & _ & Hf & _). split_and!; [simpl; lia|done|]. unfold initialized. simpl. by rewrite Hf.
  - eapply bins_frame; [|exact Hb]. intros x Hx. apply keeps_insert_ne. intros ->. done.
  - pose proof (wf_nodup _ _ Hwf1) as Hnd. cbn [async_queue q0 q2 set_events] in *.
    rewrite ins_perm. simpl. apply NoDup_cons. split; [|exact Hnd].
    intros [?|Hx]%elem_of_app; [done|]. rewrite Ha in Hx. done.
  - rewrite (M_seq_ok _ _ _ _ Hrun3), (M_seq_ok _ _ _ _ (upd_ev_run _ _ _ _ He3)).
    erewrite upd_ev_run by (apply lookup_insert_eq). cbn [events set_events]. rewrite insert_insert_eq.
    eexists _, (ins (rank e2) ev bs1). split; [reflexivity|]. split_and!.
    + destruct Hr as (_ & _ & Hf & _), Hr3 as (_ & _ & Hf3 & _). set (e4 := set_flags (Flags.clear Squashed (flags e3)) e3).
      apply (Hk3 (Flags.set Scheduled (flags e4))); [exact (scheduled_set e4)|].
      change (initialized (set_flags (Flags.set Scheduled (flags e4)) e4) = true). unfold e4.
      rewrite initialized_set, initialized_clear by done. unfold initialized. rewrite Hf3. simpl. by rewrite Hf.
    + rewrite (contents_placed _ _ _ _ _ Hb Hs), Hk, Hc. apply placed_agree; [|rewrite elem_without; naive_solver].
      eapply agree_relinked; [apply agree_refl|done].
    + cbn [curTick set_events]. by rewrite Ht3.
    + cbn [async_queue set_events]. by rewrite Ha3.
Qed.

(** *** [serviceOne] *)

Lemma unlink_head_wf q bs t l :
  wf q bs → contents bs = t :: l →
  ∃ e e' q' bs', unlink_head q = Ok (t, q') ∧ wf q' bs' ∧ contents bs' = l ∧
    curTick q' = curTick q ∧ async_queue q' = async_queue q ∧
    events q !! t = Some e ∧ events q' !! t = Some e' ∧ when_ e' = when_ e ∧
    flags e' = Flags.clear Scheduled (flags e) ∧ agree_except t (events q) (events q').
Proof.
  intros Hwf Hl. pose proof (wf_bins _ _ Hwf) as Hb. pose proof (wf_nodup _ _ Hwf) as Hnd.
  destruct bs as [|[k b] bs]; [done|]. pose proof Hb as (Hc & t' & e & Hhd & He & Hbs). rewrite Hhd in *.
  destruct (chain_head _ _ _ _ _ Hc eq_refl) as [r ->]. rewrite contents_cons in Hl, Hnd. simpl in Hl.
  injection Hl as -> <-.
  destruct (sorted_bins_cons _ _ _ (wf_sorted _ _ Hwf)) as [Hab Hs].
  destruct Hc as (_ & e' & He' & Hk & Hc). assert (e' = e) as -> by congruence. clear He'.
  simpl in Hnd. rewrite !NoDup_cons, <-!(assoc_L app) in Hnd. destruct Hnd as [Ht Hnd].
  set (e1 := set_flags (Flags.clear Scheduled (flags e)) e).
  set (h1 := <[t := e1]> (events q)).
  assert (∀ x, keeps (events q) h1 x) as Hk1 by (intros x; by apply keeps_flags).
  assert (agree_except t (events q) h1) as Hag1 by apply agree_insert, agree_refl.
  assert (typed e1) as Hte1 by (by apply (wf_typed _ _ Hwf t e)).
  assert (bins h1 (nextBin e) bs) as Hbs1 by (by eapply bins_frame; [|exact Hbs]).
  assert (t ∉ async_queue q) as Hna by set_solver.
  assert (without t (t :: r ++ contents bs) = r ++ contents bs) as Hwo.
  { apply (without_split t []). simpl. apply NoDup_cons. split; [set_solver|].
    by rewrite (assoc_L app) in Hnd; apply NoDup_app in Hnd as (? & _). }
  unfold unlink_head. erewrite M_bind_ok by reflexivity. cbv beta. rewrite Hhd.
  rewrite (M_bind_ok _ _ _ _ _ (get_ev_run _ _ _ He)), (M_seq_ok _ _ _ _ (upd_ev_run _ _ _ _ He)).
  fold e1 h1. exists e. destruct r as [|n r].
  - simpl in Hc. rewrite Hc. erewrite M_bind_ok by (erewrite M_bind_ok by (apply get_ev_run, lookup_insert_eq); reflexivity).
    eexists e1, _, bs. split; [reflexivity|].
    cbn [events head curTick async_queue set_events set_head].
    split_and!; try done; [|apply lookup_insert_eq].
    apply (wf_removed q ((k, [t]) :: bs) bs _ t); try done.
    intros e3. cbn [events set_events set_head]. unfold h1. rewrite lookup_insert_eq. by intros [= <-]; split; [|apply scheduled_clear].
  - destruct Hc as (Hn & en & Hen & Hrn & Hc). rewrite Hn.
    assert (n ≠ t) as Hnt by set_solver.
    assert (h1 !! n = Some en) as Hen1 by (unfold h1; by rewrite lookup_insert_ne).
    erewrite M_bind_ok.
    2: { erewrite M_bind_ok by (apply get_ev_run, lookup_insert_eq).
         erewrite M_seq_ok by (apply upd_ev_run, Hen1). reflexivity. }
    set (h2 := <[n := set_nextBin (nextBin e1) en]> h1).
    eexists e1, _, ((k, n :: r) :: bs). split; [reflexivity|].
    cbn [events head curTick async_queue set_events set_head]. fold h2.
    assert (agree_except t (events q) h2) as Hag2.
    { eapply agree_relinked; [exact Hag1|]. by apply (relinked_insert _ _ en). }
    assert (h2 !! t = Some e1) as Ht2.
    { unfold h2. rewrite lookup_insert_ne by done. apply lookup_insert_eq. }
    split_and!; try done.
    apply (wf_removed q ((k, t :: n :: r) :: bs) _ _ t); try done;
      cbn [events head curTick async_queue set_events set_head].
    + split.
      * split; [done|]. eexists. unfold h2. rewrite lookup_insert_eq. split_and!; [done..|].
        eapply chain_frame; [|exact Hc]. intros x Hx e3 He3. exists e3. unfold h1.
        rewrite !lookup_insert_ne; [done|set_solver|]. simpl in Hnd. rewrite NoDup_cons in Hnd. set_solver.
      * eexists n, _. unfold h2. rewrite lookup_insert_eq. split_and!; [done..|].
        eapply bins_frame; [|exact Hbs1]. intros x Hx. apply keeps_insert_ne.
        simpl in Hnd. rewrite NoDup_cons in Hnd. set_solver.
    + constructor; [exact Hs|]. by apply Forall_fmap.
    + intros e3. rewrite Ht2. by intros [= <-]; split; [|apply scheduled_clear].
Qed.
End valid.
