(* ===== verification/EventQueueSpec.v ===== *)
(** * The promises of the event queue

    The theorems about [sim/eventq.cc]: every operation is specified by the
    list of events the queue holds in service order, the walk of [dump] and
    [debugVerify] is right about a valid queue, and the simulation loop serves
    events in the order of their time. *)
From stdpp Require Import base tactics list gmap strings sets sorting.
From Stdlib Require Import ZArith Lia.
From S2P Require Import Prelude EventQueue EventQueueRep EventQueueProps.
Import EventQ.
Local Open Scope Z_scope.

(** ** Walking the queue *)

Lemma walk_bin_ok h k b : ∀ n p, chain h k p b → (length b ≤ n)%nat → walk_bin n h p = Ok b.
Proof.
  induction b as [|x b IH]; intros n p; simpl; [intros ->; by destruct n|].
  intros (-> & e & He & _ & Hc) Hn. destruct n as [|n]; [lia|]. simpl. rewrite He. simpl.
  rewrite (IH n _ Hc) by lia. done.
Qed.

Lemma walk_ok h bs : ∀ n p,
  bins h p bs → (length bs ≤ n)%nat → (length (contents bs) ≤ size h)%nat →
  walk n h p = Ok (contents bs).
Proof.
  induction bs as [|[k b] bs IH]; intros n p Hb Hn Hsz; simpl in Hb; [subst; by destruct n|].
  destruct Hb as (Hc & t & e & -> & He & Hb). rewrite contents_cons, length_app in *.
  destruct n as [|n]; [simpl in Hn; lia|]. cbn [walk].
  rewrite (walk_bin_ok h k b _ _ Hc) by lia. simpl. rewrite He. simpl.
  rewrite (IH n _ Hb) by (simpl in Hn; lia). done.
Qed.

Lemma valid_dump this q l : valid this q l → dump q = Ok l.
Proof.
  intros (bs & Hwf & <-). pose proof (wf_bins _ _ _ Hwf) as Hb.
  pose proof (wf_nodup _ _ _ Hwf) as (Hnd & _ & _)%NoDup_app.
  pose proof (contents_size _ _ _ Hb Hnd). pose proof (bins_length _ _ _ Hb).
  apply walk_ok; [done|lia|done].
Qed.

(** The events are served by time, then by priority. *)
Lemma valid_sorted this q l :
  valid this q l → StronglySorted (λ x y, rank_of (events q) x ≤ rank_of (events q) y) l.
Proof.
  intros (bs & Hwf & <-). pose proof (wf_sorted _ _ _ Hwf) as Hs. pose proof (wf_bins _ _ _ Hwf) as Hb.
  clear Hwf. revert Hb Hs. generalize (head q). induction bs as [|[k b] bs IH]; intros p Hb Hs; [constructor|].
  rewrite contents_cons. destruct (sorted_bins_cons _ _ _ Hs) as [Hab Hs'].
  pose proof Hb as (Hc & t & e & _ & _ & Hbs). specialize (IH _ Hbs Hs').
  assert (∀ x, x ∈ b → rank_of (events q) x = k) as Hk.
  { intros x Hx. eapply bins_rank_of; [exact Hb| |done]. apply list_elem_of_here. }
  assert (∀ y, y ∈ contents bs → k ≤ rank_of (events q) y) as Hge.
  { intros y (k' & b' & Hkb & Hy)%elem_of_contents. rewrite (bins_rank_of _ _ _ _ _ _ Hbs Hkb Hy).
    unfold above in Hab. rewrite Forall_forall in Hab. specialize (Hab _ Hkb). simpl in Hab. lia. }
  clear Hb Hc. induction b as [|x b IHb]; [done|]. simpl. constructor; [apply IHb; set_solver|].
  apply Forall_forall. intros y [Hy|Hy]%elem_of_app; rewrite (Hk x) by apply list_elem_of_here.
  - rewrite (Hk y); [done|set_solver].
  - by apply Hge.
Qed.

(** ** [debugVerify] *)

Definition state_rank (s : verify_state) : Z := s.1.1 * 256 + s.1.2 + 128.
Definition state_typed (s : verify_state) : Prop := Minimum_Pri ≤ s.1.2 ≤ Maximum_Pri.

Lemma verify_test (time pri : Z) (e : Event) :
  typed e → Minimum_Pri ≤ pri ≤ Maximum_Pri →
  (when_ e <? time) = false ∧ ((when_ e =? time) && (priority e <? pri)) = false ↔
  time * 256 + pri + 128 ≤ rank e.
Proof.
  unfold typed, Minimum_Pri, Maximum_Pri, rank. intros H1 H2.
  rewrite andb_false_iff, !Z.ltb_ge, Z.eqb_neq. lia.
Qed.

Lemma verify_bin_ok h k b : ∀ n s p,
  all_typed h → chain h k p b → (length b ≤ n)%nat → state_typed s → state_rank s ≤ k →
  NoDup b → (∀ x, x ∈ b → x ∉ s.2) →
  ∃ s', verify_bin n h s p = Ok (Some s') ∧ state_typed s' ∧ state_rank s' ≤ k ∧
        s'.2 = list_to_set b ∪ s.2.
Proof.
  induction b as [|x b IH]; intros n [[time pri] seen] p Hty Hc Hn Hst Hr Hnd Hseen; simpl in Hc.
  { subst p. exists (time, pri, seen). split_and!; [by destruct n|done|done|]. simpl. set_solver. }
  destruct Hc as (-> & e & He & Hk & Hc). destruct n as [|n]; [simpl in Hn; lia|].
  rewrite NoDup_cons in Hnd. destruct Hnd as [Hx Hnd].
  assert (typed e) as Hte by (by eapply Hty).
  destruct (proj2 (verify_test time pri e Hte Hst)) as [E1 E2]; [unfold state_rank in Hr; simpl in Hr; lia|].
  cbn [verify_bin]. rewrite He. simpl. rewrite E1, E2.
  rewrite bool_decide_false by (apply Hseen, list_elem_of_here).
  destruct (IH n (when_ e, priority e, {[x]} ∪ seen) (nextInBin e)) as (s' & Hrun & Ht' & Hr' & Hs');
    try done; [simpl in Hn; lia|unfold state_rank; simpl; unfold rank in Hk; lia| |].
  { intros y Hy. simpl. pose proof (Hseen y). simpl in *. set_solver. }
  exists s'. split_and!; try done. rewrite Hs'. simpl. set_solver.
Qed.

Lemma verify_ok h bs : ∀ n s p,
  all_typed h → bins h p bs → sorted_bins bs → (length bs ≤ n)%nat →
  (length (contents bs) ≤ size h)%nat → state_typed s →
  Forall (λ kb, state_rank s ≤ kb.1) bs → NoDup (contents bs) →
  (∀ x, x ∈ contents bs → x ∉ s.2) → verify n h s p = Ok true.
Proof.
  induction bs as [|[k b] bs IH]; intros n s p Hty Hb Hs Hn Hsz Hst Hr Hnd Hseen.
  { simpl in Hb. subst. by destruct n. }
  destruct Hb as (Hc & t & e & -> & He & Hb). destruct (sorted_bins_cons _ _ _ Hs) as [Hab Hs'].
  rewrite contents_cons in *. rewrite length_app in Hsz. apply NoDup_app in Hnd as (Hnb & Hdis & Hnd).
  apply Forall_cons in Hr as [Hr _]. destruct n as [|n]; [simpl in Hn; lia|]. cbn [verify].
  destruct (verify_bin_ok h k b (S (size h)) s (Some t)) as (s' & Hrun & Ht' & Hr' & Hs2); try done;
    [lia|set_solver|].
  rewrite Hrun. simpl. rewrite He. simpl. apply IH; try done; [simpl in Hn; lia|lia| |].
  - eapply Forall_impl; [exact Hab|]. simpl. lia.
  - rewrite Hs2. intros x Hx. specialize (Hseen x). specialize (Hdis x). set_solver.
Qed.

(** ** Serving *)

Section serve.
Context (this : nat).

Lemma valid_tick q l t :
  valid this q l → async_queue q = [] →
  (∀ x e, x ∈ l → events q !! x = Some e → t ≤ when_ e) → valid this (set_tick t q) l.
Proof.
  intros (bs & Hwf & <-) Ha Ht. exists bs. split; [|done].
  destruct Hwf as [H1 H2 H3 H4 H5 H6]. constructor; try done.
  intros x Hx. destruct (H5 x Hx) as (e & He & (_ & ? & ?)). exists e. split; [done|].
  split_and!; [|done..]. apply (Ht x e); [|done].
  cbn [async_queue set_tick] in Hx. by rewrite Ha, app_nil_r in Hx.
Qed.

Lemma rank_when e e' : typed e → typed e' → rank e ≤ rank e' → when_ e ≤ when_ e'.
Proof. unfold typed, Minimum_Pri, Maximum_Pri, rank. lia. Qed.

Lemma unlink_valid q ev l :
  valid this q (ev :: l) → async_queue q = [] →
  ∃ e e' q1, unlink_head q = Ok (ev, q1) ∧ valid this q1 l ∧ async_queue q1 = [] ∧
    curTick q1 = curTick q ∧ events q !! ev = Some e ∧ events q1 !! ev = Some e' ∧
    when_ e' = when_ e ∧ flags e' = Flags.clear Scheduled (flags e) ∧ curTick q ≤ when_ e ∧
    (∀ x, x ∈ l → rank e ≤ rank_of (events q) x) ∧ valid this (set_tick (when_ e) q1) l.
Proof.
  intros Hv Ha. pose proof (valid_sorted _ _ _ Hv) as [_ Hall]%StronglySorted_inv.
  destruct Hv as (bs & Hwf & Hc).
  destruct (unlink_head_wf this q bs ev l Hwf Hc) as
    (e & e' & q1 & bs1 & Hrun & Hwf1 & Hc1 & Ht & Ha1 & He & He' & Hw & Hf & Hag).
  destruct (wf_alive _ _ _ Hwf ev) as (e0 & He0 & (Hnow & _)).
  { rewrite Hc. apply list_elem_of_here. }
  assert (e0 = e) as -> by congruence.
  assert (∀ x, x ∈ l → rank e ≤ rank_of (events q) x) as Hle.
  { intros x Hx. rewrite Forall_forall in Hall. specialize (Hall x Hx). unfold rank_of at 1 in Hall.
    by rewrite He in Hall. }
  exists e, e', q1. rewrite Ha1. split_and!; try done; [by exists bs1|].
  apply valid_tick; [by exists bs1|by rewrite Ha1|]. intros x ex Hx Hex.
  assert (x ≠ ev).
  { intros ->. pose proof (wf_nodup _ _ _ Hwf) as Hnd. rewrite Hc in Hnd. simpl in Hnd.
    apply NoDup_cons in Hnd as [Hnd _]. set_solver. }
  specialize (Hle x Hx). rewrite <-(rank_of_agree ev _ _ x Hag) in Hle by done.
  unfold rank_of in Hle. rewrite Hex in Hle. simpl in Hle.
  apply rank_when; [by apply (wf_typed _ _ _ Hwf ev)|by apply (wf_typed _ _ _ Hwf1 x)|done].
Qed.

(** Deleting an event that is not in the queue. *)
Lemma valid_release q ev e l :
  valid this q l → events q !! ev = Some e → 
  ∃ q', release ev q = Ok (tt, q') ∧ valid this q' l ∧ async_queue q' = async_queue q ∧
        curTick q' = curTick q.
Proof.
  intros (bs & Hwf & <-) He. unfold release. rewrite (M_bind_ok _ _ _ _ _ (get_ev_run _ _ _ He)).
  destruct (isManaged e && negb (scheduled e)) eqn:E; [|exists q; split; [done|]; split; [by exists bs|done]].
  apply andb_true_iff in E as [_ E%negb_true_iff]. eexists. split; [reflexivity|]. split; [|done].
  pose proof (wf_fresh _ _ _ _ _ Hwf He E) as Hout.
  exists bs. split; [|done]. apply (wf_change this q bs _ _ ev); cbn [events head curTick async_queue set_events];
    try done; try apply Hwf.
  - eapply bins_frame; [|apply Hwf]. intros x Hx. apply keeps_same, lookup_delete_ne. intros ->. apply Hout, elem_of_app. by left.
  - apply agree_delete, agree_refl.
  - unfold event_ok. cbn [events async_queue set_events]. by rewrite lookup_delete_eq.
Qed.

(** What the queue asks of the handlers it calls: they leave it valid (they
    schedule, deschedule and reschedule events as they like) and do not delete
    the event they serve. *)
Class Handler (process : positive → M EventQueue unit) : Prop := {
  handler_valid ev q l q' :
    valid this q l → async_queue q = [] → is_Some (events q !! ev) →
    process ev q = Ok (tt, q') →
    (∃ l', valid this q' l') ∧ async_queue q' = [] ∧ is_Some (events q' !! ev);
  handler_in_time ev q l :
    valid this q l → async_queue q = [] → is_Some (events q !! ev) →
    process ev q ≠ Err (EAssert "event scheduled in the past");
}.

Class Signals (signals : M EventQueue bool) : Prop := {
  signals_valid q l b q' :
    valid this q l → async_queue q = [] → signals q = Ok (b, q') →
    (∃ l', valid this q' l' ∧ (l ≠ [] → l' ≠ [])) ∧ async_queue q' = [];
  signals_in_time q : signals q ≠ Err (EAssert "event scheduled in the past");
}.

Abbreviation in_past := (EAssert "event scheduled in the past").

Lemma finish_valid q ev l :
  valid this q l → async_queue q = [] → is_Some (events q !! ev) →
  finish ev q ≠ Err in_past ∧
  ∀ r q', finish ev q = Ok (r, q') → (∃ l', valid this q' l') ∧ async_queue q' = [].
Proof.
  intros Hv Ha [e He]. unfold finish. rewrite (M_bind_ok _ _ _ _ _ (get_ev_run _ _ _ He)).
  destruct (isExitEvent e).
  - destruct (negb _ || _); (split; [done|]); [|done]. intros r q' [= <- <-]. eauto.
  - destruct (valid_release q ev e l Hv He) as (q1 & Hrun & Hv1 & Ha1 & _).
    rewrite (M_seq_ok _ _ _ _ Hrun). split; [done|]. intros r q' [= <- <-]. rewrite Ha1. eauto.
Qed.

(** A squashed event is dropped. *)
Lemma drop_squashed q1 ev e e' l :
  valid this q1 l → events q1 !! ev = Some e' → flags e' = Flags.clear Scheduled (flags e) →
  ∃ q3, (upd_ev ev (λ e, set_flags (Flags.clear Squashed (flags e)) e) ;;
         release ev ;; mret (None : option positive)) q1 = Ok (None, q3) ∧
    valid this q3 l ∧ async_queue q3 = async_queue q1 ∧ curTick q3 = curTick q1.
Proof.
  intros (bs & Hwf & Hc) He' Hf. rewrite (M_seq_ok _ _ _ _ (upd_ev_run _ _ _ _ He')).
  set (q2 := set_events _ q1).
  assert (valid this q2 l) as Hv2.
  { exists bs. split; [|done].
    assert (scheduled e' = false) as Hsc.
    { unfold scheduled. rewrite Hf. exact (scheduled_clear e). }
    apply (wf_change this q1 bs _ _ ev); try done; try apply Hwf.
    - eapply bins_frame; [|apply Hwf]. intros x _. by apply keeps_flags.
    - apply agree_insert, agree_refl.
    - unfold event_ok, q2. cbn [events async_queue set_events]. rewrite lookup_insert_eq. split_and!.
      + by apply (wf_typed _ _ _ Hwf ev e').
      + rewrite scheduled_unsquash. by apply (wf_sched _ _ _ Hwf ev e').
      + intros Hin. by apply (wf_fresh _ _ _ _ _ Hwf He' Hsc) in Hin. }
  destruct (valid_release q2 ev _ l Hv2 (lookup_insert_eq _ _ _)) as (q3 & Hrun3 & Hv3 & Ha3 & Ht3).
  rewrite (M_seq_ok _ _ _ _ Hrun3). by exists q3.
Qed.

Lemma squashed_clear e e' : flags e' = Flags.clear Scheduled (flags e) → squashed e' = squashed e.
Proof. intros Hf. unfold squashed, Flags.isSet. rewrite Hf. unfold Flags.clear. by rewrite land_ldiff_disjoint. Qed.

Lemma serviceOne_valid process `{!Handler process} q ev l :
  valid this q (ev :: l) → async_queue q = [] →
  serviceOne process q ≠ Err in_past ∧
  ∀ r q', serviceOne process q = Ok (r, q') → (∃ l', valid this q' l') ∧ async_queue q' = [].
Proof.
  intros Hv Ha. destruct (unlink_valid q ev l Hv Ha) as
    (e & e' & q1 & Hrun & Hv1 & Ha1 & Ht & He & He' & Hw & Hf & Hnow & Hle & Hv2).
  unfold serviceOne. rewrite (M_bind_ok _ _ _ _ _ Hrun), (M_bind_ok _ _ _ _ _ (get_ev_run _ _ _ He')).
  destruct (negb (squashed e')).
  - erewrite M_seq_ok by reflexivity. rewrite Hw.
    destruct (process ev (set_tick (when_ e) q1)) as [[[] q2]|err] eqn:Hp.
    + rewrite (M_seq_ok _ _ _ _ Hp).
      destruct (handler_valid ev _ _ _ Hv2 Ha1 ltac:(eauto) Hp) as ((l' & Hl') & Ha' & Hs').
      by eapply finish_valid.
    + rewrite (M_bind_err _ _ _ _ Hp). split; [|done]. intros [= ->].
      apply (handler_in_time ev _ _ Hv2 Ha1); [eauto|done].
  - destruct (drop_squashed q1 ev e e' l Hv1 He' Hf) as (q3 & Hrun3 & Hv3 & Ha3 & _).
    rewrite Hrun3. split; [done|]. intros r q' [= <- <-]. rewrite Ha3. eauto.
Qed.
End serve.

(** The first event of a valid queue. *)
Lemma valid_empty this q bs : wf this q bs → contents bs = [] → head q = None.
Proof.
  intros Hwf Hc. pose proof (wf_bins _ _ _ Hwf) as Hb. destruct bs as [|[k b] bs]; [done|].
  destruct Hb as (Hch & t & e & Hhd & _). destruct (chain_head _ _ _ _ _ Hch Hhd) as [r ->]. done.
Qed.

Lemma valid_next this q l :
  valid this q l → l = [] ∨ ∃ ev l' e, l = ev :: l' ∧ head q = Some ev ∧ events q !! ev = Some e ∧
    curTick q ≤ when_ e.
Proof.
  intros (bs & Hwf & <-). pose proof (wf_bins _ _ _ Hwf) as Hb.
  destruct bs as [|[k b] bs]; [by left|right]. destruct Hb as (Hch & t & e & Hhd & He & _).
  destruct (chain_head _ _ _ _ _ Hch Hhd) as [r ->]. rewrite contents_cons.
  destruct (wf_alive _ _ _ Hwf t) as (e1 & He1 & (Hw & _)).
  { rewrite contents_cons. apply list_elem_of_here. }
  assert (e1 = e) as -> by congruence. exists t, (r ++ contents bs), e. done.
Qed.

(** ** The theorems *)

(** C25. Scheduling: in a valid queue, an event that is not scheduled can be
    scheduled for any tick that is not in the past; the assertions of
    [schedule] hold, the event is put behind every event of a smaller time (or
    the same time and smaller priority) and in front of all others, also of
    those of the same time and priority, and nothing else changes its place. *)
Theorem schedule_inserts this par cur ev w g q l e :
  valid this q l → events q !! ev = Some e → scheduled e = false → initialized e = true →
  curTick q ≤ w → par && (negb cur || g) = false →
  ∃ q', schedule this par cur ev w g q = Ok (tt, q') ∧
    valid this q' (placed (events q) (rank (setWhen w this e)) ev l) ∧
    dump q' = Ok (placed (events q) (rank (setWhen w this e)) ev l) ∧ curTick q' = curTick q.
Proof.
  intros (bs & Hwf & <-) He Hs Hi Hw Hp.
  destruct (schedule_wf this par cur ev w g q bs e Hwf He Hs Hi Hw Hp) as (q' & Hrun & Hwf' & Ht & _).
  assert (valid this q' (placed (events q) (rank (setWhen w this e)) ev (contents bs))) as Hv.
  { eexists. split; [exact Hwf'|]. apply (contents_placed _ (head q)); apply Hwf. }
  exists q'. split_and!; [done|done|by eapply valid_dump|done].
Qed.

(** Descheduling takes exactly the given event out of the queue, wherever
    it is, and leaves the order of the others. *)
Theorem deschedule_removes this par cur ev q l :
  valid this q l → ev ∈ l → par && negb cur = false →
  ∃ q', deschedule this par cur ev q = Ok (tt, q') ∧ valid this q' (without ev l) ∧
    dump q' = Ok (without ev l) ∧ curTick q' = curTick q.
Proof.
  intros (bs & Hwf & <-) Hin Hp.
  destruct (deschedule_wf this par cur ev q bs Hwf Hin Hp) as (q' & bs' & Hrun & Hwf' & Hc & Ht & _).
  assert (valid this q' (without ev (contents bs))) as Hv by (by exists bs').
  exists q'. split_and!; [done|done|by eapply valid_dump|done].
Qed.

(** Rescheduling moves an event: it leaves its place, if it has one, and is
    put where scheduling it at the new time would put it. *)
Theorem reschedule_moves this par cur ev w always q l e :
  valid this q l → events q !! ev = Some e → ev ∉ async_queue q → initialized e = true →
  always || scheduled e = true → curTick q ≤ w → par && negb cur = false →
  ∃ q', reschedule this par cur ev w always q = Ok (tt, q') ∧
    valid this q' (placed (events q) (rank (setWhen w this e)) ev (without ev l)) ∧
    curTick q' = curTick q.
Proof.
  intros (bs & Hwf & <-) He Ha Hi Hal Hw Hp.
  destruct (reschedule_wf this par cur ev w always q bs e Hwf He Ha Hi Hal Hw Hp)
    as (q' & bs' & Hrun & Hwf' & Hc & Ht & _).
  exists q'. split_and!; [done|by exists bs'|done].
Qed.

(** C24. Serving: [serviceOne] takes the event that is due first, no other
    waiting event has a smaller time or the same time and a smaller priority.
    Unless it is squashed, its handler runs with the clock set to the event's
    time, which is never before the clock was, on a valid queue of the
    remaining events. *)
Theorem serviceOne_earliest this process q ev l :
  valid this q (ev :: l) → async_queue q = [] →
  ∃ e q1, events q !! ev = Some e ∧ valid this q1 l ∧
    (∀ x, x ∈ l → rank e ≤ rank_of (events q) x) ∧
    if squashed e then
      ∃ q2, serviceOne process q = Ok (None, q2) ∧ valid this q2 l ∧ curTick q2 = curTick q
    else
      serviceOne process q = (process ev ;; finish ev) q1 ∧ curTick q ≤ curTick q1 ∧
      curTick q1 = when_ e.
Proof.
  intros Hv Ha. destruct (unlink_valid this q ev l Hv Ha) as
    (e & e' & q1 & Hrun & Hv1 & Ha1 & Ht & He & He' & Hw & Hf & Hnow & Hle & Hv2).
  exists e, (set_tick (when_ e) q1). split_and!; [done..|].
  unfold serviceOne. rewrite (M_bind_ok _ _ _ _ _ Hrun), (M_bind_ok _ _ _ _ _ (get_ev_run _ _ _ He')).
  rewrite (squashed_clear _ _ Hf). destruct (squashed e); cbn [negb].
  - destruct (drop_squashed this q1 ev e e' l Hv1 He' Hf) as (q3 & Hrun3 & Hv3 & _ & Ht3).
    exists q3. split_and!; [done..|]. by rewrite Ht3.
  - erewrite M_seq_ok by reflexivity. by rewrite Hw.
Qed.

(** Time never goes backwards in the simulation loop: as long as the
    handlers use the queue through its interface, the assertion "event
    scheduled in the past" of [doSimLoop] never fails, however long it runs. *)
Theorem sim_loop_in_time this process signals n q l :
  Handler this process → Signals this signals →
  valid this q l → async_queue q = [] →
  sim_loop process signals n q ≠ Err (EAssert "event scheduled in the past").
Proof.
  intros Hh Hs. revert q l. induction n as [|n IH]; intros q l Hv Ha; simpl.
  all: erewrite M_bind_ok by reflexivity.
  all: destruct (valid_next this q l Hv) as [->|(ev & l' & x & -> & Hhd & Hx & Hnow)];
    [by destruct Hv as (bs & Hwf & Hc); unfold empty; rewrite (valid_empty this q bs Hwf Hc)|].
  all: unfold empty; rewrite Hhd, bool_decide_false by done; erewrite M_seq_ok by reflexivity;
    erewrite M_bind_ok by reflexivity.
  all: unfold nextTick; erewrite M_bind_ok by (erewrite M_bind_ok by reflexivity; cbv beta; rewrite Hhd;
    rewrite (M_bind_ok _ _ _ _ _ (get_ev_run _ _ _ Hx)); reflexivity).
  all: rewrite (proj2 (Z.leb_le _ _)) by done; erewrite M_seq_ok by reflexivity.
  all: destruct (signals q) as [[[] q1]|err] eqn:Hsig;
    [by rewrite (M_bind_ok _ _ _ _ _ Hsig)
    |rewrite (M_bind_ok _ _ _ _ _ Hsig)
    |rewrite (M_bind_err _ _ _ _ Hsig); intros [= ->]; by eapply (signals_in_time this)].
  all: destruct (signals_valid this _ _ _ _ Hv Ha Hsig) as ((l1 & Hv1 & Hne) & Ha1).
  all: destruct l1 as [|ev1 l1]; [by destruct Hne|].
  all: destruct (serviceOne_valid this process q1 ev1 l1 Hv1 Ha1) as [Herr Hok].
  all: destruct (serviceOne process q1) as [[[r|] q2]|err] eqn:Hso;
    [by rewrite (M_bind_ok _ _ _ _ _ Hso)
    |rewrite (M_bind_ok _ _ _ _ _ Hso)
    |rewrite (M_bind_err _ _ _ _ Hso); congruence].
  - done.
  - destruct (Hok _ _ eq_refl) as ((l2 & Hv2) & Ha2). by eapply IH.
Qed.

(** [debugVerify] accepts every valid queue but those whose first event is
    due at tick 0 with a negative priority: its checks start from tick 0 and
    priority 0. *)
Theorem debugVerify_exact this q l :
  valid this q l → 0 ≤ curTick q →
  debugVerify q = Ok (match l with
    | [] => true
    | x :: _ => match events q !! x with
                | Some e => negb ((when_ e =? 0) && (priority e <? 0)) | None => false end
    end).
Proof.
  intros (bs & Hwf & <-) Ht. pose proof (wf_bins _ _ _ Hwf) as Hb.
  pose proof (wf_nodup _ _ _ Hwf) as (Hnd & _ & _)%NoDup_app.
  pose proof (contents_size _ _ _ Hb Hnd) as Hsz. pose proof (bins_length _ _ _ Hb) as Hlen.
  unfold debugVerify. destruct bs as [|[k b] bs].
  { simpl in Hb. rewrite Hb. done. }
  pose proof Hb as (Hc & t & e & Hhd & He & Hbs).
  destruct (chain_head _ _ _ _ _ Hc Hhd) as [r ->]. rewrite contents_cons. cbn [app]. rewrite He.
  pose proof Hc as (_ & e' & He' & Hk & _). assert (e' = e) as -> by congruence.
  assert (typed e) as Hte by (by apply (wf_typed _ _ _ Hwf t)).
  destruct (wf_alive _ _ _ Hwf t) as (e1 & He1 & (Hw & _)).
  { rewrite contents_cons. apply list_elem_of_here. }
  assert (e1 = e) as -> by congruence.
  assert (negb ((when_ e =? 0) && (priority e <? 0)) = (128 <=? rank e)) as ->.
  { unfold typed, Minimum_Pri, Maximum_Pri, rank in *. apply eq_true_iff_eq.
    rewrite negb_true_iff, andb_false_iff, Z.eqb_neq, Z.ltb_ge, Z.leb_le. lia. }
  destruct (Z.leb_spec 128 (rank e)) as [Hge|Hlt].
  - eapply (verify_ok _ ((k, t :: r) :: bs)); try done; try apply Hwf; [lia|].
    destruct (sorted_bins_cons _ _ _ (wf_sorted _ _ _ Hwf)) as [Hab _].
    constructor; [unfold state_rank; simpl; lia|].
    eapply Forall_impl; [exact Hab|]. unfold state_rank. simpl. lia.
  - rewrite Hhd. cbn [verify verify_bin]. rewrite He. simpl.
    destruct (when_ e <? 0) eqn:E1; [done|].
    destruct ((when_ e =? 0) && (priority e <? 0)) eqn:E2; [done|]. exfalso.
    assert (0 * 256 + 0 + 128 ≤ rank e); [|lia]. apply verify_test; [done|done|by split].
Qed.

(** ** Witnesses *)

Lemma valid_new this h :
  map_Forall (λ _ e, typed e ∧ scheduled e = false) h → valid this (EventQueue_new h) [].
Proof.
  intros Hh. exists []. split; [|done]. constructor; simpl; try done.
  - constructor.
  - constructor.
  - intros x e He. by apply (Hh x e).
  - intros x Hx. by apply not_elem_of_nil in Hx.
  - intros x e He. destruct (Hh x e He) as [_ ->]. split; [done|]. intros Hx. by apply not_elem_of_nil in Hx.
Qed.

(** A successful [schedule] met its conditions. *)
Lemma schedule_checked this par cur ev w g q q' :
  schedule this par cur ev w g q = Ok (tt, q') →
  ∃ e, events q !! ev = Some e ∧ scheduled e = false ∧ initialized e = true ∧ curTick q ≤ w.
Proof.
  unfold schedule. erewrite M_bind_ok by reflexivity. cbv beta. destruct (Z.leb_spec (curTick q) w) as [Hw|]; [|done].
  erewrite M_seq_ok by reflexivity. unfold get_ev at 1. unfold mbind at 1, M_bind at 1.
  destruct (events q !! ev) as [e|] eqn:He; [|done]. simpl.
  destruct (scheduled e) eqn:Hs; [done|]. erewrite M_seq_ok by reflexivity.
  destruct (initialized e) eqn:Hi; [|done]. intros _. by exists e.
Qed.

Lemma schedule_valid this par cur ev w g q q' l :
  valid this q l → par && (negb cur || g) = false →
  schedule this par cur ev w g q = Ok (tt, q') →
  ∃ e, events q !! ev = Some e ∧ valid this q' (placed (events q) (rank (setWhen w this e)) ev l) ∧
    async_queue q' = async_queue q ∧ is_Some (events q' !! ev).
Proof.
  intros (bs & Hwf & <-) Hp Hrun. destruct (schedule_checked _ _ _ _ _ _ _ _ Hrun) as (e & He & Hs & Hi & Hw).
  destruct (schedule_wf this par cur ev w g q bs e Hwf He Hs Hi Hw Hp) as (q1 & Hrun1 & Hwf1 & _ & Ha).
  rewrite Hrun in Hrun1. injection Hrun1 as <-. exists e. split_and!; try done.
  - eexists. split; [exact Hwf1|]. apply (contents_placed _ (head q)); apply Hwf.
  - destruct (wf_alive _ _ _ Hwf1 ev) as (e1 & ? & _); [|eauto].
    apply elem_of_app. left. rewrite ins_perm. apply list_elem_of_here.
Qed.

(** A handler that schedules its event again ten ticks later. *)
Definition ticker (this : nat) (ev : positive) : M EventQueue unit :=
  t ← gets curTick; schedule this false true ev (t + 10) false.

#[export] Instance ticker_handler this : Handler this (ticker this).
Proof.
  split.
  - intros ev q l q' Hv Ha _ Hrun. unfold ticker in Hrun. erewrite M_bind_ok in Hrun by reflexivity.
    destruct (schedule_valid this false true _ _ false _ _ _ Hv eq_refl Hrun) as (e & _ & Hv' & Ha' & Hs).
    rewrite Ha'. eauto.
  - intros ev q l (bs & Hwf & <-) Ha [e He]. unfold ticker. erewrite M_bind_ok by reflexivity.
    destruct (scheduled e) eqn:Hs; [|destruct (initialized e) eqn:Hi].
    2: { destruct (schedule_wf this false true ev (curTick q + 10) false q bs e) as (q' & -> & _); done || lia. }
    all: unfold schedule; erewrite M_bind_ok by reflexivity;
      rewrite (proj2 (Z.leb_le _ _)) by lia; erewrite M_seq_ok by reflexivity;
      rewrite (M_bind_ok _ _ _ _ _ (get_ev_run _ _ _ He)), Hs, ?Hi; done.
Qed.

#[export] Instance no_signals this : Signals this (mret false).
Proof. split; [|done]. intros q l b q' Hv Ha [= <- <-]. eauto. Qed.

(** Three events, the third with a higher priority. *)
Definition ex_event (p : Z) : Event := mkEvent None None 0 p Initialized None.
Definition ex_events : heap :=
  {[ 1%positive := ex_event 0; 2%positive := ex_event 0; 3%positive := ex_event (-1) ]}.
Definition ex_run (m : M EventQueue unit) (q : EventQueue) : EventQueue :=
  match m q with Ok (_, q') => q' | Err _ => q end.
Definition ex_q2 : EventQueue :=
  Eval vm_compute in ex_run (schedule 0 false true 1 10 false ;; schedule 0 false true 2 10 false)
    (EventQueue_new ex_events).
Definition ex_q3 : EventQueue :=
  Eval vm_compute in ex_run (schedule 0 false true 3 10 false) ex_q2.

Lemma ex_valid2 : valid 0 ex_q2 [2; 1]%positive.
Proof.
  assert (valid 0 (EventQueue_new ex_events) []) as H0.
  { apply valid_new. repeat (apply map_Forall_insert_2; [done|]). apply map_Forall_empty. }
  destruct (schedule_valid 0 false true 1 10 false _ (ex_run (schedule 0 false true 1 10 false)
    (EventQueue_new ex_events)) [] H0 eq_refl ltac:(vm_compute; reflexivity)) as (e1 & He1 & H1 & _).
  vm_compute in He1. injection He1 as <-.
  destruct (schedule_valid 0 false true 2 10 false _ ex_q2 _ H1 eq_refl ltac:(vm_compute; reflexivity))
    as (e2 & He2 & H2 & _).
  vm_compute in He2. injection He2 as <-. exact H2.
Qed.

Lemma ex_valid3 : valid 0 ex_q3 [3; 2; 1]%positive.
Proof.
  destruct (schedule_valid 0 false true 3 10 false _ ex_q3 _ ex_valid2 eq_refl ltac:(vm_compute; reflexivity))
    as (e & He & H & _).
  vm_compute in He. injection He as <-. exact H.
Qed.

(** The third event overtakes the others of its tick. *)
Lemma schedule_inserts_witness :
  ∃ q', schedule 0 false true 3 10 false ex_q2 = Ok (tt, q') ∧ dump q' = Ok [3; 2; 1]%positive.
Proof.
  destruct (schedule_inserts 0 false true 3 10 false ex_q2 _ (ex_event (-1)) ex_valid2
    ltac:(vm_compute; reflexivity) eq_refl eq_refl ltac:(vm_compute; congruence) eq_refl)
    as (q' & Hrun & _ & Hd & _).
  exists q'. split; [exact Hrun|]. rewrite Hd. vm_compute. reflexivity.
Defined.

Lemma deschedule_removes_witness :
  ∃ q', deschedule 0 false true 2 ex_q3 = Ok (tt, q') ∧ dump q' = Ok [3; 1]%positive.
Proof.
  destruct (deschedule_removes 0 false true 2 ex_q3 _ ex_valid3 ltac:(set_solver) eq_refl)
    as (q' & Hrun & _ & Hd & _).
  exists q'. split; [exact Hrun|]. rewrite Hd. vm_compute. reflexivity.
Defined.

Lemma reschedule_moves_witness :
  ∃ q', reschedule 0 false true 3 20 false ex_q3 = Ok (tt, q') ∧ valid 0 q' [2; 1; 3]%positive.
Proof.
  destruct (reschedule_moves 0 false true 3 20 false ex_q3 _
    (mkEvent (Some 2%positive) None 10 (-1) (Initialized + Scheduled) (Some 0%nat)) ex_valid3
    ltac:(vm_compute; reflexivity) ltac:(cbn; apply not_elem_of_nil) ltac:(vm_compute; reflexivity)
    ltac:(vm_compute; reflexivity) ltac:(vm_compute; congruence) eq_refl) as (q' & Hrun & Hv & _).
  exists q'. split; [exact Hrun|]. exact Hv.
Defined.

Lemma serviceOne_earliest_witness :
  ∃ q1, serviceOne (ticker 0) ex_q3 = (ticker 0 3 ;; finish 3) q1 ∧ curTick q1 = 10.
Proof.
  destruct (serviceOne_earliest 0 (ticker 0) ex_q3 3 [2; 1]%positive ex_valid3 eq_refl)
    as (e & q1 & He & _ & _ & Hs).
  vm_compute in He. injection He as <-. destruct Hs as (Hs & _ & Ht). exists q1. by split.
Defined.

Lemma sim_loop_in_time_witness :
  sim_loop (ticker 0) (mret false) 100 ex_q3 ≠ Err (EAssert "event scheduled in the past").
Proof.
  exact (sim_loop_in_time 0 (ticker 0) (mret false) 100 ex_q3 _ (ticker_handler 0) (no_signals 0)
           ex_valid3 eq_refl).
Defined.

Lemma debugVerify_exact_witness : debugVerify ex_q3 = Ok true.
Proof. exact (debugVerify_exact 0 ex_q3 _ ex_valid3 ltac:(vm_compute; congruence)). Defined.
