(* ===== verification/SnoopFilter.v ===== *)
(** * The snoop filter

    [mem/snoop_filter.hh] and [mem/snoop_filter.cc]: for every cache line the
    filter of a crossbar remembers which CPU-side ports may hold a copy
    ([holder]) and which have a request in flight ([requested]), as bit masks
    over the snooping ports.  A filter that forgot a copy would break
    coherence: a write would not invalidate it.  The broadcast responses of the
    PEs go through [updateResponse], which was relaxed for them. *)
From stdpp Require Import base tactics list gmap strings.
From Stdlib Require Import ZArith Lia.
From S2P Require Import Prelude MemCmd.
Local Open Scope Z_scope.

Module SnoopFilter.
(** ** Data *)

Record SnoopItem := mkItem { requested : Z; holder : Z }.   (* bitset<256> *)

Definition SNOOP_MASK_SIZE : Z := 256.
Definition InvalidPortID : Z := -1.

Record Port := mkPort { p_id : Z; p_snooping : bool }.

#[export] Instance Port_eq_dec : EqDecision Port.
Proof. solve_decision. Defined.

Record Stats := mkStats {
  totRequests : Z; hitSingleRequests : Z; hitMultiRequests : Z;
  totSnoops : Z; hitSingleSnoops : Z; hitMultiSnoops : Z;
}.

(** [reqLookupResult.it] is [None] for [end()], else the key it points to. *)
Record Filter := mkFilter {
  cachedLocations : gmap Z SnoopItem;
  lookup_it : option Z;
  retryItem : SnoopItem;
  stats : Stats;
}.

Definition new : Filter := mkFilter ∅ None (mkItem 0 0) (mkStats 0 0 0 0 0 0).

(** What the filter looks at in a packet. *)
Record Pkt := mkPkt {
  pk_cmd : Command;
  pk_addr : Z;
  pk_secure : bool;
  pk_uncacheable : bool;
  pk_maintenance : bool;      (* req->isCacheMaintenance() *)
  pk_broadcast : bool;        (* req->isBroadcast() *)
  pk_cacheResponding : bool;
  pk_hasSharers : bool;
  pk_blockCached : bool;
}.

(** The ports, their bits and the parameters, set up once. *)
Record Config := mkConfig {
  cpuSidePorts : list Port;
  localResponsePortIds : list Z;
  linesize : Z;
  lookupLatency : Z;
  maxEntryCount : Z;
}.

(** ** Setup *)

Fixpoint number_ports (ports : list Port) (id : Z) (tracked : list Port) (ids : list Z)
    : res (Z * list Port * list Z) :=
  match ports with
  | [] => Ok (id, tracked, ids)
  | p :: ports' =>
      if p_snooping p then
        ids' ← vec_set ids (p_id p) id;
        number_ports ports' (id + 1) (tracked ++ [p]) ids'
      else number_ports ports' id tracked ids
  end.
Definition setCPUSidePorts (ports : list Port) (line lat cap : Z) : res Config :=
  r ← number_ports ports 0 [] (replicate (length ports) InvalidPortID);
  let '(id, tracked, ids) := r in
  if SNOOP_MASK_SIZE <? id then Err (EPanic "Snoop filter only supports 256 snooping ports")
  else if line =? 0 then Err EDivByZero
  else Ok (mkConfig tracked ids line lat (cap / line)).

Section filter.
Context (c : Config).

(** ** Masks *)

(** [((SnoopMask)1) << id]: a shift by the width or more gives 0. *)
Definition bit (id : Z) : Z := if (0 <=? id) && (id <? SNOOP_MASK_SIZE) then Z.shiftl 1 id else 0.

Definition portToMask (p : Port) : res Z :=
  if p_id p =? InvalidPortID then Err (EAssert "port.getId() != InvalidPortID")
  else if p_snooping p then id ← vec_get (localResponsePortIds c) (p_id p); Ok (bit id)
  else Ok 0.

Definition none (m : Z) : bool := m =? 0.
Definition any (m : Z) : bool := negb (m =? 0).
(** [m.count() == 1] *)
Definition single (m : Z) : bool := any m && (Z.land m (m - 1) =? 0).

Fixpoint mask_to_ports (m : Z) (ports : list Port) : res (list Port) :=
  match ports with
  | [] => Ok []
  | p :: ports' =>
      pm ← portToMask p;
      l ← mask_to_ports m ports';
      Ok (if any (Z.land m pm) then p :: l else l)
  end.
Definition maskToPortList (m : Z) : res (list Port) := mask_to_ports m (cpuSidePorts c).

Definition LineSecure : Z := 1.

(** The key of a packet's line. *)
Definition line_addr (pkt : Pkt) : Z :=
  let a := Z.ldiff (pk_addr pkt) (linesize c - 1) in
  if pk_secure pkt then Z.lor a LineSecure else a.

Definition put (a : Z) (i : SnoopItem) (f : Filter) : Filter :=
  mkFilter (<[a := i]> (cachedLocations f)) (lookup_it f) (retryItem f) (stats f).
Definition drop (a : Z) (f : Filter) : Filter :=
  mkFilter (delete a (cachedLocations f)) (lookup_it f) (retryItem f) (stats f).
Definition item (a : Z) (f : Filter) : SnoopItem := default (mkItem 0 0) (cachedLocations f !! a).

(** [eraseIfNullEntry(it)], [it] pointing to [a] *)
Definition eraseIfNullEntry (a : Z) : M Filter unit :=
  i ← (λ f, lift (of_option EBadPointer (cachedLocations f !! a)) f);
  when (none (Z.lor (requested i) (holder i))) (modify (drop a)).

Definition count_request (hit : bool) (interested : Z) (s : Stats) : Stats :=
  mkStats (totRequests s + 1)
    (hitSingleRequests s + Z.b2z (hit && single interested))
    (hitMultiRequests s + Z.b2z (hit && negb (single interested)))
    (totSnoops s) (hitSingleSnoops s) (hitMultiSnoops s).
Definition count_snoop (interested : Z) (s : Stats) : Stats :=
  mkStats (totRequests s) (hitSingleRequests s) (hitMultiRequests s) (totSnoops s + 1)
    (hitSingleSnoops s + Z.b2z (single interested))
    (hitMultiSnoops s + Z.b2z (negb (single interested))).

Definition set_stats (g : Stats → Stats) (f : Filter) : Filter :=
  mkFilter (cachedLocations f) (lookup_it f) (retryItem f) (g (stats f)).
Definition set_lookup (it : option Z) (f : Filter) : Filter :=
  mkFilter (cachedLocations f) it (retryItem f) (stats f).
Definition set_retry (i : SnoopItem) (f : Filter) : Filter :=
  mkFilter (cachedLocations f) (lookup_it f) i (stats f).

(** ** Requests from above *)

(** The change of the entry when the request is tracked. *)
Definition track (pkt : Pkt) (req_port : Z) (i : SnoopItem) : res SnoopItem :=
  if needsResponse (pk_cmd pkt) then
    if negb (pk_cacheResponding pkt) then
      if any (Z.land (requested i) req_port) then Err (EPanic "double request :(")
      else Ok (mkItem (Z.lor (requested i) req_port) (holder i))
    else if none (Z.land (holder i) req_port) then Err (EPanic "Need to hold the value!")
    else Ok i
  else if negb (isEviction (pk_cmd pkt)) then Err (EAssert "cpkt->isEviction()")
  else if none (Z.land (holder i) req_port) then Err (EPanic "requestor is not a holder :(")
  else if negb (pk_blockCached pkt) then Ok (mkItem (requested i) (Z.ldiff (holder i) req_port))
  else Ok i.

Definition lookupRequest (pkt : Pkt) (port : Port) : M Filter (list Port * Z) :=
  let allocate := negb (pk_uncacheable pkt) && p_snooping port && fromCache (pk_cmd pkt) in
  let a := line_addr pkt in
  req_port ← lift (portToMask port);
  f ← gets (λ f, f);
  let is_hit := bool_decide (is_Some (cachedLocations f !! a)) in
  if negb is_hit && negb allocate then
    modify (set_lookup None) ;; mret ([], lookupLatency c)
  else
    when (negb is_hit) (modify (put a (mkItem 0 0))) ;;
    modify (set_lookup (Some a)) ;;
    f ← gets (λ f, f);
    let i := item a f in
    let interested := Z.lor (holder i) (requested i) in
    modify (set_retry i) ;;
    modify (set_stats (count_request is_hit interested)) ;;
    when allocate (i' ← lift (track pkt req_port i); modify (put a i')) ;;
    l ← lift (maskToPortList (Z.ldiff interested req_port));
    mret (l, lookupLatency c).

Definition finishRequest (will_retry : bool) (addr : Z) (secure : bool) : M Filter unit :=
  f ← gets (λ f, f);
  match lookup_it f with
  | None => mret tt
  | Some a =>
      i ← lift (of_option EBadPointer (cachedLocations f !! a));
      let l := Z.ldiff addr (linesize c - 1) in
      massert "finishRequest follows lookupRequest" (a =? if secure then Z.lor l LineSecure else l) ;;
      when will_retry (modify (put a (retryItem f))) ;;
      eraseIfNullEntry a
  end.

(** ** Snoops from below *)

Definition lookupSnoop (pkt : Pkt) : M Filter (list Port * Z) :=
  massert "cpkt->isRequest()" (isRequest (pk_cmd pkt)) ;;
  let a := line_addr pkt in
  f ← gets (λ f, f);
  match cachedLocations f !! a with
  | None =>
      if maxEntryCount c <=? Z.of_nat (size (cachedLocations f))
      then throw (EPanic "snoop filter exceeded capacity") else mret ([], lookupLatency c)
  | Some i =>
      let interested := Z.lor (holder i) (requested i) in
      modify (set_stats (count_snoop interested)) ;;
      massert "snoop kind"
        (isWriteback (pk_cmd pkt) || pk_uncacheable pkt ||
         Bool.eqb (isInvalidate (pk_cmd pkt)) (needsWritable (pk_cmd pkt)) || pk_maintenance pkt) ;;
      when (isInvalidate (pk_cmd pkt) && none (requested i))
        (modify (put a (mkItem (requested i) 0)) ;; eraseIfNullEntry a) ;;
      l ← lift (maskToPortList interested);
      mret (l, lookupLatency c)
  end.

(** ** Responses *)

Definition updateSnoopResponse (pkt : Pkt) (rsp_port req_port : Port) : M Filter unit :=
  massert "cpkt->isResponse()" (isResponse (pk_cmd pkt)) ;;
  massert "cpkt->cacheResponding()" (pk_cacheResponding pkt) ;;
  if pk_uncacheable pkt || negb (p_snooping req_port) then mret tt else
  let a := line_addr pkt in
  rsp_mask ← lift (portToMask rsp_port);
  req_mask ← lift (portToMask req_port);
  f ← gets (λ f, f);
  let i := item a f in
  modify (put a i) ;;
  if none (Z.land (holder i) rsp_mask) then throw (EPanic "does not have the line") else
  if none (Z.land (requested i) req_mask) then throw (EPanic "missing the original request") else
  let h := if pk_hasSharers pkt then holder i else 0 in
  massert "!cpkt->isWriteback()" (negb (isWriteback (pk_cmd pkt))) ;;
  let i' := mkItem (Z.ldiff (requested i) req_mask) (Z.lor h req_mask) in
  modify (put a i') ;;
  massert "any()" (any (Z.lor (requested i') (holder i'))).

Definition updateSnoopForward (pkt : Pkt) : M Filter unit :=
  massert "cpkt->isResponse()" (isResponse (pk_cmd pkt)) ;;
  massert "cpkt->cacheResponding()" (pk_cacheResponding pkt) ;;
  let a := line_addr pkt in
  f ← gets (λ f, f);
  match cachedLocations f !! a with
  | None => mret tt
  | Some i =>
      when (negb (pk_hasSharers pkt))
        (modify (put a (mkItem (requested i) 0)) ;; eraseIfNullEntry a)
  end.

Definition updateResponse (pkt : Pkt) (port : Port) : M Filter unit :=
  massert "cpkt->isResponse()" (isResponse (pk_cmd pkt)) ;;
  if pk_uncacheable pkt || negb (p_snooping port) then mret tt else
  let a := line_addr pkt in
  f ← gets (λ f, f);
  match cachedLocations f !! a with
  | None => mret tt
  | Some i =>
      response_mask ← lift (portToMask port);
      if none (Z.land (requested i) response_mask) && negb (pk_broadcast pkt)
      then throw (EPanic "missing request bit") else
      let r := Z.ldiff (requested i) response_mask in
      if pk_maintenance pkt then
        modify (put a (mkItem r (if isInvalidate (pk_cmd pkt)
                                 then Z.ldiff (holder i) response_mask else holder i))) ;;
        eraseIfNullEntry a
      else
        let i' := mkItem r (Z.lor (holder i) response_mask) in
        modify (put a i') ;;
        massert "any()" (any (Z.lor (holder i') (requested i')))
  end.
End filter.
End SnoopFilter.
