(* ===== verification/SnoopFilterProps.v ===== *)
(** * The port masks of the snoop filter

    [setCPUSidePorts] numbers the snooping ports; the masks built from these
    numbers are a faithful encoding of sets of ports. *)
From stdpp Require Import base tactics list gmap strings.
From Stdlib Require Import ZArith Lia.
From S2P Require Import Prelude MemCmd SnoopFilter.
Import SnoopFilter.
Local Open Scope Z_scope.

(** ** Port numbering *)

Definition snooping (ports : list Port) : list Port := filter (λ p, p_snooping p = true) ports.

Lemma number_ports_ok ports : ∀ id tracked ids,
  NoDup (p_id <$> ports) → Forall (λ p, 0 ≤ p_id p < Z.of_nat (length ids)) ports →
  ∃ ids', number_ports ports id tracked ids =
      Ok (id + Z.of_nat (length (snooping ports)), tracked ++ snooping ports, ids') ∧
    length ids' = length ids ∧
    (∀ j, j ∉ (λ p, Z.to_nat (p_id p)) <$> ports → ids' !! j = ids !! j) ∧
    (∀ k p, snooping ports !! k = Some p → ids' !! Z.to_nat (p_id p) = Some (id + Z.of_nat k)).
Proof.
  induction ports as [|p ports IH]; intros id tracked ids Hnd Hin.
  { exists ids. simpl. rewrite app_nil_r, Z.add_0_r. done. }
  rewrite fmap_cons, NoDup_cons in Hnd. destruct Hnd as [Hp Hnd].
  apply Forall_cons in Hin as [Hr Hin]. csimpl.
  assert (Z.to_nat (p_id p) ∉ (λ p, Z.to_nat (p_id p)) <$> ports) as Hp'.
  { intros (q & Hq & Hqin)%list_elem_of_fmap. apply Hp. apply list_elem_of_fmap. exists q. split; [|done].
    rewrite Forall_forall in Hin. specialize (Hin q Hqin). lia. }
  unfold snooping. rewrite filter_cons. fold (snooping ports).
  destruct (p_snooping p); [rewrite decide_True by done|rewrite decide_False by done].
  - rewrite vec_set_ok by done. simpl.
    destruct (IH (id + 1) (tracked ++ [p]) (<[Z.to_nat (p_id p) := id]> ids)) as (ids' & Hrun & Hl & Hout & Hk);
      [done|by rewrite length_insert|].
    exists ids'. rewrite Hrun. split_and!.
    + rewrite <-(assoc_L app). simpl. do 3 f_equal. lia.
    + by rewrite Hl, length_insert.
    + intros j Hj. rewrite not_elem_of_cons in Hj. rewrite Hout by tauto.
      apply list_lookup_insert_ne. intros E. by destruct Hj.
    + intros [|k] q Hq; simpl in Hq.
      * injection Hq as <-. rewrite Hout by done. rewrite list_lookup_insert_eq by lia. f_equal. lia.
      * rewrite (Hk k q Hq). f_equal. lia.
  - destruct (IH id tracked ids Hnd Hin) as (ids' & Hrun & Hl & Hout & Hk).
    exists ids'. rewrite Hrun. split_and!; try done.
    intros j Hj. rewrite not_elem_of_cons in Hj. apply Hout. tauto.
Qed.

(** ** A configured filter *)

(** Every snooping port has a bit of its own. *)
Record configured (ports : list Port) (c : Config) : Prop := {
  cf_tracked : cpuSidePorts c = snooping ports;
  cf_nodup : NoDup (snooping ports);
  cf_bit : ∀ k p, snooping ports !! k = Some p → portToMask c p = Ok (2 ^ Z.of_nat k);
}.

Lemma bit_pow n : 0 ≤ n < SNOOP_MASK_SIZE → bit n = 2 ^ n.
Proof.
  intros H. unfold bit. rewrite (proj2 (Z.leb_le _ _)), (proj2 (Z.ltb_lt _ _)) by lia.
  simpl. rewrite Z.shiftl_mul_pow2 by lia. lia.
Qed.

Lemma setCPUSidePorts_configured ports line lat cap c :
  NoDup (p_id <$> ports) → Forall (λ p, 0 ≤ p_id p < Z.of_nat (length ports)) ports →
  setCPUSidePorts ports line lat cap = Ok c → configured ports c.
Proof.
  intros Hnd Hin. unfold setCPUSidePorts.
  destruct (number_ports_ok ports 0 [] (replicate (length ports) InvalidPortID)) as (ids & Hrun & Hl & _ & Hk);
    [done|by rewrite length_replicate|].
  rewrite Hrun, Z.add_0_l. cbn [mbind res_bind].
  destruct (Z.ltb_spec SNOOP_MASK_SIZE (Z.of_nat (length (snooping ports)))); [done|].
  destruct (line =? 0); [done|]. intros [= <-]. constructor; simpl; [done| |].
  - apply NoDup_filter. by eapply NoDup_fmap_1.
  - intros k p Hp. unfold portToMask.
    assert (p ∈ ports ∧ p_snooping p = true) as [Hpin Hps].
    { apply list_elem_of_lookup_2, list_elem_of_filter in Hp. tauto. }
    rewrite Forall_forall in Hin. specialize (Hin p Hpin). specialize (Hk k p Hp).
    unfold InvalidPortID. rewrite (proj2 (Z.eqb_neq _ _)), Hps by lia. simpl.
    erewrite vec_get_Z by (done || lia). simpl. rewrite Z.add_0_l, bit_pow; [done|].
    apply lookup_lt_Some in Hp. lia.
Qed.

(** ** Masks and sets of ports *)

Lemma land_pow2 m n : 0 ≤ n → any (Z.land m (2 ^ n)) = Z.testbit m n.
Proof.
  intros Hn. unfold any. destruct (Z.testbit m n) eqn:E.
  - apply negb_true_iff, Z.eqb_neq. intros H0.
    assert (Z.testbit (Z.land m (2 ^ n)) n = true) as H1 by (by rewrite Z.land_spec, E, Z.pow2_bits_true).
    by rewrite H0, Z.bits_0 in H1.
  - apply negb_false_iff, Z.eqb_eq, Z.bits_inj'. intros k Hk. rewrite Z.land_spec, Z.bits_0.
    destruct (decide (k = n)) as [->|]; [by rewrite E|].
    rewrite Z.pow2_bits_false by done. apply andb_false_r.
Qed.

Lemma land_pow2_none m n : 0 ≤ n → none (Z.land m (2 ^ n)) = negb (Z.testbit m n).
Proof. intros Hn. rewrite <-land_pow2 by done. unfold any, none. by rewrite negb_involutive. Qed.

Lemma mask_to_ports_ok c m l : ∀ k0,
  (∀ k p, l !! k = Some p → portToMask c p = Ok (2 ^ Z.of_nat (k0 + k))) →
  ∃ r, mask_to_ports c m l = Ok r ∧
    ∀ p, p ∈ r ↔ ∃ k, l !! k = Some p ∧ Z.testbit m (Z.of_nat (k0 + k)) = true.
Proof.
  induction l as [|q l IH]; intros k0 Hb.
  { exists []. split; [done|]. intros p. split; [set_solver|]. intros (k & Hk & _). by rewrite lookup_nil in Hk. }
  destruct (IH (S k0)) as (r & Hr & Hp).
  { intros k p Hk. rewrite (Hb (S k) p Hk). do 2 f_equal. lia. }
  simpl. rewrite (Hb 0%nat q eq_refl). simpl. rewrite Hr. simpl.
  rewrite Nat.add_0_r, land_pow2 by lia. eexists. split; [reflexivity|]. intros p. split.
  - intros Hpr. assert (p = q ∧ Z.testbit m (Z.of_nat k0) = true ∨ p ∈ r) as [[-> Ht]|Hin].
    { destruct (Z.testbit m (Z.of_nat k0)); [|by right]. apply elem_of_cons in Hpr as [->|]; auto. }
    + exists 0%nat. by rewrite Nat.add_0_r.
    + apply Hp in Hin as (k & Hk & Ht). exists (S k). split; [done|]. by rewrite Nat.add_succ_r.
  - intros ([|k] & Hk & Ht).
    + simpl in Hk. injection Hk as <-. rewrite Nat.add_0_r in Ht. rewrite Ht. apply list_elem_of_here.
    + assert (p ∈ r) as Hin; [|destruct (Z.testbit m (Z.of_nat k0)); [by apply list_elem_of_further|done]].
      apply Hp. exists k. split; [done|]. by rewrite Nat.add_succ_r in Ht.
Qed.

Lemma maskToPortList_ok ports c m :
  configured ports c →
  ∃ r, maskToPortList c m = Ok r ∧
    ∀ p, p ∈ r ↔ ∃ k, snooping ports !! k = Some p ∧ Z.testbit m (Z.of_nat k) = true.
Proof.
  intros Hc. unfold maskToPortList. rewrite (cf_tracked _ _ Hc).
  by apply (mask_to_ports_ok c m (snooping ports) 0), Hc.
Qed.

(** C37. The masks of the snoop filter encode sets of ports faithfully: for
    ports with distinct ids (at most 256 of them snooping) [setCPUSidePorts]
    gives every snooping port a bit of its own, [portToMask] sets exactly that
    bit, and [maskToPortList] of a mask returns exactly the snooping ports
    whose bits are set. *)
Theorem port_masks_faithful ports line lat cap c m :
  NoDup (p_id <$> ports) → Forall (λ p, 0 ≤ p_id p < Z.of_nat (length ports)) ports →
  setCPUSidePorts ports line lat cap = Ok c →
  ∃ r, maskToPortList c m = Ok r ∧
    ∀ p, p ∈ ports → p_snooping p = true →
      ∃ n, portToMask c p = Ok (2 ^ n) ∧ 0 ≤ n < SNOOP_MASK_SIZE ∧ (p ∈ r ↔ Z.testbit m n = true) ∧
        ∀ q, q ∈ ports → p_snooping q = true → portToMask c q = Ok (2 ^ n) → q = p.
Proof.
  intros Hnd Hin Hset. pose proof (setCPUSidePorts_configured _ _ _ _ _ Hnd Hin Hset) as Hc.
  destruct (maskToPortList_ok ports c m Hc) as (r & Hr & Hp). exists r. split; [done|].
  assert (∀ q, q ∈ ports → p_snooping q = true → ∃ k, snooping ports !! k = Some q) as Hidx.
  { intros q Hq Hs. apply list_elem_of_lookup. by apply list_elem_of_filter. }
  assert ((length (snooping ports) ≤ 256)%nat) as Hmax.
  { unfold setCPUSidePorts in Hset.
    destruct (number_ports_ok ports 0 [] (replicate (length ports) InvalidPortID)) as (ids & Hrun & _);
      [done|by rewrite length_replicate|]. rewrite Hrun, Z.add_0_l in Hset. cbn [mbind res_bind] in Hset.
    destruct (Z.ltb_spec SNOOP_MASK_SIZE (Z.of_nat (length (snooping ports)))) as [|Hle]; [done|].
    unfold SNOOP_MASK_SIZE in Hle. lia. }
  intros p Hpin Hps. destruct (Hidx p Hpin Hps) as [k Hk]. exists (Z.of_nat k).
  pose proof (lookup_lt_Some _ _ _ Hk). split_and!.
  - by apply (cf_bit _ _ Hc).
  - lia.
  - unfold SNOOP_MASK_SIZE. lia.
  - rewrite Hp. split; [|eauto]. intros (k' & Hk' & Ht).
    by rewrite (NoDup_lookup _ _ _ _ (cf_nodup _ _ Hc) Hk Hk').
  - intros q Hq Hqs Hqm. destruct (Hidx q Hq Hqs) as [k' Hk'].
    rewrite (cf_bit _ _ Hc k' q Hk') in Hqm. injection Hqm as Hqm.
    apply Z.pow_inj_r in Hqm; [|lia..]. apply Nat2Z.inj in Hqm. congruence.
Qed.

(** Four ports, three of them snooping. *)
Definition example_ports : list Port :=
  [mkPort 0 true; mkPort 1 true; mkPort 2 false; mkPort 3 true].
Definition example_config : Config :=
  mkConfig [mkPort 0 true; mkPort 1 true; mkPort 3 true] [0; 1; InvalidPortID; 2] 64 1 1024.

Lemma port_masks_faithful_witness : ∃ r, maskToPortList example_config 5 = Ok r ∧
  ∃ n, portToMask example_config (mkPort 3 true) = Ok (2 ^ n) ∧ mkPort 3 true ∈ r.
Proof.
  destruct (port_masks_faithful example_ports 64 1 65536 example_config 5) as (r & Hr & H).
  - apply (bool_decide_unpack _). vm_compute. exact I.
  - apply (bool_decide_unpack _). vm_compute. exact I.
  - vm_compute. reflexivity.
  - destruct (H (mkPort 3 true)) as (n & Hn & _ & Hin & _).
    + apply (bool_decide_unpack _). vm_compute. exact I.
    + reflexivity.
    + exists r. split; [exact Hr|]. exists n. split; [exact Hn|]. apply Hin.
      assert (E : 2 ^ n = 2 ^ 2) by (vm_compute (portToMask _ _) in Hn; injection Hn as Hn; rewrite <-Hn; reflexivity).
      destruct (decide (n = 2)) as [->|Hne]; [reflexivity|].
      exfalso. destruct (Z.lt_ge_cases n 0).
      { rewrite Z.pow_neg_r in E by lia. discriminate. }
      apply Z.pow_inj_r in E; lia.
Defined.
