(* ===== verification/SnoopFilterSpec.v ===== *)
(** * The snoop filter covers every copy

    The requests, snoops and responses that reach a snoop filter are steps of a
    state made of the filter and of what is really going on above it: which
    caches have a request for a line in flight, and which have a copy of it.
    Neither is read off the filter's own masks.  In every reachable state the
    filter has marked every request in flight and every copy, so that the ports
    it tells the crossbar to snoop include every cache with a copy or about to
    get one; a request that has to be retried leaves no trace. *)
From stdpp Require Import base tactics list gmap strings relations.
From Stdlib Require Import ZArith Lia.
From S2P Require Import Prelude MemCmd SnoopFilter SnoopFilterProps.
Import SnoopFilter.
Local Open Scope Z_scope.

(** ** Tables *)

(** No entry of the filter is empty. *)
Definition no_null (f : Filter) : Prop :=
  map_Forall (λ _ i, any (Z.lor (requested i) (holder i)) = true) (cachedLocations f).

Lemma any_none m : any m = negb (none m).
Proof. done. Qed.

(** What an operation on line [a] does: it leaves the other lines alone and,
    unless the entry is dropped as empty, stores [i]. *)
Definition stores (a : Z) (i : SnoopItem) (f f' : Filter) : Prop :=
  cachedLocations f' = if none (Z.lor (requested i) (holder i)) then delete a (cachedLocations f)
                       else <[a := i]> (cachedLocations f).

Lemma stores_item a i f f' : stores a i f f' → item a f' = i ∧ ∀ b, b ≠ a → item b f' = item b f.
Proof.
  unfold stores, item. intros ->. destruct (none _) eqn:E.
  - split; [|intros b Hb; by rewrite lookup_delete_ne by done].
    rewrite lookup_delete_eq. apply Z.eqb_eq, Z.lor_eq_0_iff in E as [Hr Hh]. destruct i; simpl in *. by subst.
  - split; [by rewrite lookup_insert_eq|]. intros b Hb. by rewrite lookup_insert_ne by done.
Qed.

Lemma stores_no_null a i f f' : no_null f → stores a i f f' → no_null f'.
Proof.
  unfold no_null, stores. intros Hn ->. destruct (none _) eqn:E.
  - by apply map_Forall_delete.
  - apply map_Forall_insert_2; [|done]. by rewrite any_none, E.
Qed.

Lemma stores_same a i f f' :
  no_null f → cachedLocations f !! a = Some i → cachedLocations f' = cachedLocations f → stores a i f f'.
Proof.
  intros Hn Ha Hf. unfold stores. specialize (Hn a i Ha). simpl in Hn. rewrite any_none in Hn.
  destruct (none _); [done|]. by rewrite Hf, insert_id.
Qed.

Lemma eraseIfNullEntry_put a i f g :
  cachedLocations g = <[a := i]> (cachedLocations f) →
  ∃ f', eraseIfNullEntry a g = Ok (tt, f') ∧ stores a i f f'.
Proof.
  intros Hg. unfold eraseIfNullEntry, stores.
  erewrite M_bind_ok; [|unfold lift; rewrite Hg, lookup_insert_eq; reflexivity].
  unfold when. destruct (none _); eexists; (split; [reflexivity|]); [|done].
  simpl. by rewrite Hg, delete_insert_eq.
Qed.

(** [eraseIfNullEntry] after a write of the entry. *)
Lemma put_erase_inv a i f f' :
  (modify (put a i) ;; eraseIfNullEntry a) f = Ok (tt, f') → stores a i f f'.
Proof.
  intros H. destruct (eraseIfNullEntry_put a i f (put a i f) eq_refl) as (g & Hg & Hs).
  change (eraseIfNullEntry a (put a i f) = Ok (tt, f')) in H. congruence.
Qed.

Section filter.
Context (c : Config).

(** ** Requests *)

(** The filter keeps track of the cacheable requests of caches. *)
Definition tracked (pkt : Pkt) (port : Port) : bool :=
  negb (pk_uncacheable pkt) && p_snooping port && fromCache (pk_cmd pkt).

(** The outcome of a lookup: a miss that is not tracked, or an entry with the
    old value kept for a retry. *)
Lemma lookupRequest_inv pkt port f l lat f' :
  lookupRequest c pkt port f = Ok ((l, lat), f') →
  ∃ rp, portToMask c port = Ok rp ∧
   ((tracked pkt port = false ∧ cachedLocations f !! line_addr c pkt = None ∧ l = [] ∧ lookup_it f' = None ∧
      cachedLocations f' = cachedLocations f) ∨
    (∃ i', lookup_it f' = Some (line_addr c pkt) ∧ retryItem f' = item (line_addr c pkt) f ∧
      cachedLocations f' = <[line_addr c pkt := i']> (cachedLocations f) ∧
      (if tracked pkt port then track pkt rp (item (line_addr c pkt) f) = Ok i' else i' = item (line_addr c pkt) f) ∧
      maskToPortList c (Z.ldiff (Z.lor (holder (item (line_addr c pkt) f))
        (requested (item (line_addr c pkt) f))) rp) = Ok l)).
Proof.
  unfold lookupRequest. fold (tracked pkt port). set (al := tracked pkt port). set (a := line_addr c pkt). intros H.
  run_M H. rename x into rp. exists rp. split; [done|].
  destruct (cachedLocations f !! a) as [i|] eqn:Ha.
  - right. rewrite bool_decide_true in H by eauto. cbn [negb andb] in H. run_M H.
    replace (item a (set_lookup (Some a) f)) with i in H by (unfold item; simpl; by rewrite Ha).
    replace (item a f) with i by (unfold item; by rewrite Ha).
    apply M_bind_inv in H as ([] & g & Ht & H). run_M H. cbv [mret M_ret] in H; injection H as -> _ <-.
    unfold when in Ht. destruct al; [run_M Ht|].
    + cbv [modify mret M_ret] in Ht; injection Ht as <-. eexists. simpl. eauto 10.
    + cbv [modify mret M_ret] in Ht; injection Ht as <-. exists i. split_and!; try done. simpl. by rewrite insert_id.
  - rewrite bool_decide_false in H by (intros [? ?]; congruence). cbn [negb andb] in H.
    destruct al; cbn [negb andb] in H; run_M H.
    + right. replace (item a f) with (mkItem 0 0) by (unfold item; by rewrite Ha).
      replace (item a _) with (mkItem 0 0) in H by (unfold item; simpl; by rewrite lookup_insert_eq).
      apply M_bind_inv in H as ([] & g & Ht & H). run_M H. cbv [mret M_ret] in H; injection H as -> _ <-.
      cbn [when] in Ht. run_M Ht. cbv [modify mret M_ret] in Ht; injection Ht as <-. eexists. simpl. rewrite insert_insert_eq. eauto 10.
    + left. cbv [mret M_ret] in H; injection H as <- _ <-. done.
Qed.

(** [finishRequest] after a lookup of the same line. *)
Lemma finishRequest_ok retry pkt f i :
  lookup_it f = Some (line_addr c pkt) → cachedLocations f !! line_addr c pkt = Some i →
  ∃ f', finishRequest c retry (pk_addr pkt) (pk_secure pkt) f = Ok (tt, f') ∧
    stores (line_addr c pkt) (if retry then retryItem f else i) f f'.
Proof.
  intros Hit Hi. unfold finishRequest. rewrite (M_bind_ok _ _ _ f f) by done. rewrite Hit, Hi.
  rewrite (M_bind_ok _ _ _ i f) by done. unfold line_addr at 2. rewrite Z.eqb_refl.
  rewrite (M_bind_ok _ _ _ tt f) by done.
  destruct retry; unfold when.
  - erewrite M_bind_ok by done. by apply eraseIfNullEntry_put.
  - erewrite M_bind_ok by done. apply eraseIfNullEntry_put. by rewrite insert_id.
Qed.

(** A whole request: lookup, then finish. *)
Definition request (pkt : Pkt) (port : Port) (retry : bool) : M Filter (list Port) :=
  r ← lookupRequest c pkt port;
  finishRequest c retry (pk_addr pkt) (pk_secure pkt) ;;
  mret r.1.

Lemma request_inv pkt port retry f l f' :
  no_null f → request pkt port retry f = Ok (l, f') →
  ∃ rp i', portToMask c port = Ok rp ∧
    stores (line_addr c pkt) i' f f' ∧
    (if negb retry && tracked pkt port then track pkt rp (item (line_addr c pkt) f) = Ok i' else i' = item (line_addr c pkt) f) ∧
    (l = [] ∧ item (line_addr c pkt) f = mkItem 0 0 ∨
     maskToPortList c (Z.ldiff (Z.lor (holder (item (line_addr c pkt) f))
        (requested (item (line_addr c pkt) f))) rp) = Ok l).
Proof.
  set (a := line_addr c pkt). intros Hn H. unfold request in H.
  apply M_bind_inv in H as ([l' lat] & g & Hl & H). apply M_bind_inv in H as ([] & g' & Hf & H).
  cbv [mret M_ret] in H. injection H as <- <-. simpl.
  apply lookupRequest_inv in Hl as (rp & Hrp & [(Hal & Ha & -> & Hit & Hc)|(i' & Hit & Hr & Hc & Hi' & Hm)]);
    [fold a in Ha|fold a in Hit, Hr, Hc, Hi', Hm].
  - exists rp, (mkItem 0 0). unfold finishRequest in Hf. run_M Hf. rewrite Hit in Hf.
    cbv [mret M_ret] in Hf. injection Hf as <-.
    assert (item a f = mkItem 0 0) as Hi by (unfold item; by rewrite Ha).
    rewrite Hi, Hal, andb_false_r. split_and!; [done| |done|by left]. unfold stores. simpl.
    by rewrite Hc, delete_id.
  - edestruct (finishRequest_ok retry pkt g) as (g2 & Hf2 & Hs);
      [done|fold a; rewrite Hc; by apply lookup_insert_eq|]. fold a in Hs.
    assert (g2 = g') as -> by congruence. rewrite Hr in Hs.
    exists rp, (if retry then item a f else i'). split_and!; [done| | |by right].
    + unfold stores in *. rewrite Hs, Hc. destruct (none _); [by rewrite delete_insert_eq|by rewrite insert_insert_eq].
    + by destruct retry.
Qed.

(** What a tracked request is: a cache asks for the line, or gives its copy up. *)
Definition asks (pkt : Pkt) : bool := needsResponse (pk_cmd pkt) && negb (pk_cacheResponding pkt).
Definition gives_up (pkt : Pkt) : bool := negb (needsResponse (pk_cmd pkt)) && negb (pk_blockCached pkt).

Lemma track_inv pkt rp i i' :
  track pkt rp i = Ok i' →
  requested i' = (if asks pkt then Z.lor (requested i) rp else requested i) ∧
  holder i' = (if gives_up pkt then Z.ldiff (holder i) rp else holder i) ∧
  (asks pkt = true → any (Z.land (requested i) rp) = false).
Proof. unfold track, asks, gives_up. intros H. repeat case_match; simplify_eq; done. Qed.

Lemma track_evicts pkt rp i i' : track pkt rp i = Ok i' → gives_up pkt = true → isEviction (pk_cmd pkt) = true.
Proof. unfold track, gives_up. intros H Hg. repeat case_match; simplify_eq; by destruct (isEviction _). Qed.

(** ** Snoops and responses *)

Lemma lookupSnoop_inv pkt f l lat f' :
  no_null f → lookupSnoop c pkt f = Ok ((l, lat), f') →
  let a := line_addr c pkt in
  let i := item a f in
  (l = [] ∧ i = mkItem 0 0 ∨ maskToPortList c (Z.lor (holder i) (requested i)) = Ok l) ∧
  stores a (mkItem (requested i) (if isInvalidate (pk_cmd pkt) && none (requested i) then 0 else holder i)) f f'.
Proof.
  intros Hn H a i. unfold lookupSnoop in H. run_M H. fold a in H.
  destruct (cachedLocations f !! a) as [i0|] eqn:Ha; subst i; unfold item in *; rewrite Ha; simpl.
  - run_M H. apply M_bind_inv in H as ([] & g & Hw & H). run_M H. cbv [mret M_ret] in H. injection H as <- _ <-.
    split; [by right|]. destruct (_ && _); unfold when in Hw.
    + by apply put_erase_inv in Hw.
    + cbv [mret M_ret] in Hw. injection Hw as <-. apply stores_same; [done| |done]. rewrite Ha. by destruct i0.
  - destruct (_ <=? _); [done|]. cbv [mret M_ret] in H. injection H as <- _ <-.
    split; [by left|]. unfold stores. rewrite andb_true_r. destruct (isInvalidate _); simpl; by rewrite delete_id.
Qed.

Lemma updateResponse_inv pkt port f f' :
  no_null f → updateResponse c pkt port f = Ok (tt, f') →
  let a := line_addr c pkt in
  (f' = f ∧ (pk_uncacheable pkt = true ∨ p_snooping port = false ∨ cachedLocations f !! a = None)) ∨
  ∃ rp i, portToMask c port = Ok rp ∧ cachedLocations f !! a = Some i ∧ pk_uncacheable pkt = false ∧
    (any (Z.land (requested i) rp) = true ∨ pk_broadcast pkt = true) ∧
    stores a (mkItem (Z.ldiff (requested i) rp)
      (if pk_maintenance pkt then if isInvalidate (pk_cmd pkt) then Z.ldiff (holder i) rp else holder i
       else Z.lor (holder i) rp)) f f'.
Proof.
  intros Hn H a. unfold updateResponse in H. run_M H.
  destruct (_ || _) eqn:Hu.
  { cbv [mret M_ret] in H. injection H as <-. left. split; [done|].
    apply orb_true_iff in Hu as [?|Hu%negb_true_iff]; auto. }
  run_M H. fold a in H.
  destruct (cachedLocations f !! a) as [i|] eqn:Ha; [|cbv [mret M_ret] in H; injection H as <-; auto].
  apply orb_false_iff in Hu as [Hu _].
  right. run_M H. destruct (_ && _) eqn:Hp; [done|]. exists x, i. split_and!; [done..| |].
  - rewrite any_none. apply andb_false_iff in Hp as [->|Hp]; [by left|]. right. by apply negb_false_iff.
  - destruct (pk_maintenance pkt); [by apply put_erase_inv in H|]. run_M H.
    unfold massert in H. unfold stores. simpl. rewrite (Z.lor_comm (Z.ldiff _ _)).
    destruct (any _) eqn:Hany; [|done]. cbv [mret M_ret] in H. injection H as <-. simpl.
    rewrite any_none in Hany. apply negb_true_iff in Hany. simpl in Hany. by rewrite Hany.
Qed.

Lemma updateSnoopResponse_inv pkt rsp_port req_port f f' :
  updateSnoopResponse c pkt rsp_port req_port f = Ok (tt, f') →
  let a := line_addr c pkt in
  let i := item a f in
  (pk_uncacheable pkt || negb (p_snooping req_port) = true ∧ f' = f) ∨
  ∃ qm, pk_uncacheable pkt || negb (p_snooping req_port) = false ∧ portToMask c req_port = Ok qm ∧
    stores a (mkItem (Z.ldiff (requested i) qm)
      (Z.lor (if pk_hasSharers pkt then holder i else 0) qm)) f f'.
Proof.
  intros H a i. unfold updateSnoopResponse in H. run_M H.
  destruct (_ || _); [cbv [mret M_ret] in H; injection H as <-; by left|]. right.
  run_M H. fold a in H. fold i in H. destruct (none _); [done|]. destruct (none _); [done|]. run_M H.
  eexists. split_and!; [done..|]. unfold massert in H. destruct (any _) eqn:Hany; [|done].
  cbv [mret M_ret] in H. injection H as <-. simpl in Hany. rewrite any_none in Hany. apply negb_true_iff in Hany.
  unfold stores. simpl. rewrite Hany. apply insert_insert_eq.
Qed.

Lemma updateSnoopForward_inv pkt f f' :
  no_null f → updateSnoopForward c pkt f = Ok (tt, f') →
  let a := line_addr c pkt in
  let i := item a f in
  stores a (mkItem (requested i) (if pk_hasSharers pkt then holder i else 0)) f f'.
Proof.
  intros Hn H a i. unfold updateSnoopForward in H. run_M H. fold a in H. subst i. unfold item.
  destruct (cachedLocations f !! a) as [i|] eqn:Ha; simpl.
  - unfold when in H. destruct (pk_hasSharers pkt); simpl in H; [|by apply put_erase_inv in H].
    cbv [mret M_ret] in H. injection H as <-. apply stores_same; [done| |done]. rewrite Ha. by destruct i.
  - cbv [mret M_ret] in H. injection H as <-. unfold stores. destruct (pk_hasSharers pkt); simpl; by rewrite delete_id.
Qed.

End filter.

(** ** The ports that are snooped *)

(** A port whose bit is in the mask is in the list of the mask. *)
Lemma snoop_list_covers ports c m l p pm n :
  configured ports c → maskToPortList c m = Ok l → p ∈ ports → p_snooping p = true →
  portToMask c p = Ok pm → pm = 2 ^ n → Z.testbit m n = true → p ∈ l.
Proof.
  intros Hc Hl Hp Hs Hpm -> Ht. destruct (maskToPortList_ok ports c m Hc) as (l' & Hl' & Hin).
  assert (l' = l) as -> by congruence. apply Hin.
  assert (p ∈ snooping ports) as Hps by (by apply list_elem_of_filter).
  apply list_elem_of_lookup in Hps as [k Hk]. exists k. split; [done|].
  rewrite (cf_bit _ _ Hc k p Hk) in Hpm. injection Hpm as Hpm.
  destruct (decide (0 ≤ n)); [|by rewrite Z.testbit_neg_r in Ht by lia].
  by apply Z.pow_inj_r in Hpm as ->; [|lia..].
Qed.

Lemma port_bit ports c p :
  configured ports c → p ∈ ports → p_snooping p = true →
  ∃ k, snooping ports !! k = Some p ∧ portToMask c p = Ok (2 ^ Z.of_nat k).
Proof.
  intros Hc Hp Hs. assert (p ∈ snooping ports) as [k Hk]%list_elem_of_lookup by (by apply list_elem_of_filter).
  exists k. split; [done|]. by apply (cf_bit _ _ Hc).
Qed.

(** The bits of another port do not hide a port. *)
Lemma other_port_bit ports c p q rp k :
  configured ports c → p ≠ q → q ∈ ports → snooping ports !! k = Some p → portToMask c q = Ok rp →
  Z.testbit rp (Z.of_nat k) = false.
Proof.
  intros Hc Hne Hq Hk Hrp. destruct (p_snooping q) eqn:Hs.
  - destruct (port_bit _ _ _ Hc Hq Hs) as (k' & Hk' & Hm). assert (rp = 2 ^ Z.of_nat k') as -> by congruence.
    apply Z.pow2_bits_false. intros E. apply Hne. apply Nat2Z.inj in E. congruence.
  - unfold portToMask in Hrp. rewrite Hs in Hrp. destruct (_ =? _); [done|].
    assert (rp = 0) as -> by congruence. apply Z.bits_0.
Qed.

(** A response for a snooping port and a tracked line. *)
Lemma updateResponse_ok ports c pkt port rp i f :
  configured ports c → no_null f →
  port ∈ ports → p_snooping port = true → portToMask c port = Ok rp →
  isResponse (pk_cmd pkt) = true → pk_uncacheable pkt = false →
  cachedLocations f !! line_addr c pkt = Some i →
  if none (Z.land (requested i) rp) && negb (pk_broadcast pkt)
  then updateResponse c pkt port f = Err (EPanic "missing request bit")
  else ∃ f', updateResponse c pkt port f = Ok (tt, f') ∧
    stores (line_addr c pkt)
      (mkItem (Z.ldiff (requested i) rp)
         (if pk_maintenance pkt then if isInvalidate (pk_cmd pkt) then Z.ldiff (holder i) rp else holder i
          else Z.lor (holder i) rp)) f f'.
Proof.
  intros Hc Hn Hp Hs Hrp Hresp Hu Hi.
  assert (∃ k, rp = 2 ^ Z.of_nat k) as [k Hk].
  { destruct (port_bit _ _ _ Hc Hp Hs) as (k & _ & Hm). exists k. congruence. }
  assert (Hrun : ∃ r, updateResponse c pkt port f = r ∧
    if none (Z.land (requested i) rp) && negb (pk_broadcast pkt)
    then r = Err (EPanic "missing request bit") else ∃ f', r = Ok (tt, f')).
  { eexists. split; [reflexivity|]. unfold updateResponse. rewrite Hresp, Hu, Hs.
    rewrite (M_bind_ok _ _ _ tt f) by done. simpl. rewrite (M_bind_ok _ _ _ f f), Hi, Hrp by done.
    rewrite (M_bind_ok _ _ _ rp f) by done. destruct (_ && _); [done|].
    destruct (pk_maintenance pkt).
    - rewrite (M_bind_ok _ _ _ tt (put (line_addr c pkt) _ f)) by done.
      edestruct (eraseIfNullEntry_put (line_addr c pkt)) as (f' & -> & _); [reflexivity|eauto].
    - erewrite M_bind_ok by done. unfold massert. simpl.
      assert (any (Z.lor (Z.lor (holder i) rp) (Z.ldiff (requested i) rp)) = true) as ->; [|eexists; reflexivity].
      apply negb_true_iff, Z.eqb_neq. intros E%Z.lor_eq_0_iff. destruct E as [[_ E]%Z.lor_eq_0_iff _].
      pose proof (Z.pow_pos_nonneg 2 (Z.of_nat k)). lia. }
  destruct Hrun as (r & Hr & H). destruct (_ && _); [congruence|]. destruct H as [f' ->]. exists f'. split; [done|].
  apply updateResponse_inv in Hr as [[_ [?|[?|?]]]|(rp' & i' & Hrp' & Hi' & _ & _ & Hst)]; [congruence..| |done].
  assert (rp' = rp) as -> by congruence. assert (i' = i) as -> by congruence. done.
Qed.

(** The response to a broadcast never fails. *)
Lemma updateResponse_broadcast ports c pkt port f :
  configured ports c → no_null f → port ∈ ports →
  isResponse (pk_cmd pkt) = true → pk_broadcast pkt = true →
  ∃ f', updateResponse c pkt port f = Ok (tt, f') ∧ no_null f'.
Proof.
  intros Hc Hn Hp Hr Hb. unfold updateResponse at 1.
  destruct (pk_uncacheable pkt || negb (p_snooping port)) eqn:E.
  { exists f. split; [|done]. by exec_M ltac:(exact Hr). }
  apply orb_false_iff in E as [Hu Hs%negb_false_iff].
  destruct (cachedLocations f !! line_addr c pkt) as [i|] eqn:Hi.
  - destruct (port_bit _ _ _ Hc Hp Hs) as (k & _ & Hm).
    pose proof (updateResponse_ok ports c pkt port _ i f Hc Hn Hp Hs Hm Hr Hu Hi) as H.
    rewrite Hb, andb_false_r in H. destruct H as (f' & Hrun & Hst). exists f'. split; [|by eapply stores_no_null].
    unfold updateResponse in Hrun. rewrite Hu, Hs in Hrun. exact Hrun.
  - exists f. split; [|done]. exec_M ltac:(exact Hr). by rewrite Hi.
Qed.

(** ** What the filter knows *)

Section knowledge.
Context (ports : list Port) (c : Config) (Hc : configured ports c).

(** The bit of port [p] is in mask [m]. *)
Definition marked (m : Z) (p : Port) : Prop := ∃ pm, portToMask c p = Ok pm ∧ any (Z.land m pm) = true.

Lemma marked_bit p : p ∈ ports → p_snooping p = true →
  ∃ k, snooping ports !! k = Some p ∧ portToMask c p = Ok (2 ^ Z.of_nat k) ∧
    ∀ m, marked m p ↔ Z.testbit m (Z.of_nat k) = true.
Proof using Hc.
  intros Hp Hs. destruct (port_bit _ _ _ Hc Hp Hs) as (k & Hk & Hm). exists k. split_and!; [done..|]. intros m. split.
  - intros (pm & Hpm & Ha). assert (pm = 2 ^ Z.of_nat k) as -> by congruence. by rewrite land_pow2 in Ha by lia.
  - intros Ht. exists (2 ^ Z.of_nat k). split; [done|]. by rewrite land_pow2 by lia.
Qed.

Lemma marked_lor m x p : p ∈ ports → p_snooping p = true → marked m p → marked (Z.lor m x) p.
Proof using Hc. intros Hp Hs. destruct (marked_bit p Hp Hs) as (k & _ & _ & E). rewrite !E, Z.lor_spec. by intros ->. Qed.
Lemma marked_own m rp p : p ∈ ports → p_snooping p = true → portToMask c p = Ok rp → marked (Z.lor m rp) p.
Proof using Hc.
  intros Hp Hs Hrp. destruct (marked_bit p Hp Hs) as (k & _ & Hk & E). rewrite E. assert (rp = 2 ^ Z.of_nat k) as -> by congruence.
  rewrite Z.lor_spec, Z.pow2_bits_true by lia. apply orb_true_r.
Qed.
Lemma marked_ldiff m rp p q :
  p ∈ ports → p_snooping p = true → q ∈ ports → p ≠ q → portToMask c q = Ok rp → marked m p → marked (Z.ldiff m rp) p.
Proof using Hc.
  intros Hp Hs Hq Hne Hrp. destruct (marked_bit p Hp Hs) as (k & Hk & _ & E). rewrite !E, Z.ldiff_spec. intros ->.
  by rewrite (other_port_bit _ _ _ _ _ _ Hc Hne Hq Hk Hrp).
Qed.
Lemma marked_0 p : ¬ marked 0 p.
Proof. intros (pm & _ & H). by rewrite Z.land_0_l in H. Qed.
Lemma marked_list m l p : p ∈ ports → p_snooping p = true → marked m p → maskToPortList c m = Ok l → p ∈ l.
Proof using Hc.
  intros Hp Hs Hm Hl. destruct (marked_bit p Hp Hs) as (k & _ & Hk & E). apply E in Hm. by eapply snoop_list_covers.
Qed.

(** For every line, ports of which something is true. *)
Notation Lines := (Z → Port → Prop).
Definition add (a : Z) (p : Port) (w : Lines) : Lines := λ b q, w b q ∨ b = a ∧ q = p.
Definition remove (a : Z) (p : Port) (w : Lines) : Lines := λ b q, w b q ∧ ¬ (b = a ∧ q = p).
Definition within (w w' : Lines) : Prop := ∀ b q, w' b q → w b q.

(** The filter [f] has marked the requests [w] in flight and the copies [cp]. *)
Record sound (f : Filter) (w cp : Lines) : Prop := {
  so_null : no_null f;
  so_asked : ∀ a p, p ∈ ports → p_snooping p = true → w a p → marked (requested (item a f)) p;
  so_copy : ∀ a p, p ∈ ports → p_snooping p = true → cp a p → marked (holder (item a f)) p;
}.

Lemma sound_within f w cp w' cp' : sound f w cp → within w w' → within cp cp' → sound f w' cp'.
Proof. intros [Hn Hw Hcp] H1 H2. split; [done|..]; intros a p Hp Hs H; auto. Qed.

Lemma sound_stores a i f f' (w cp w' cp' : Lines) :
  sound f w cp → stores a i f f' →
  (∀ b q, b ≠ a → w' b q → w b q) → (∀ b q, b ≠ a → cp' b q → cp b q) →
  (∀ q, q ∈ ports → p_snooping q = true → w' a q → marked (requested i) q) →
  (∀ q, q ∈ ports → p_snooping q = true → cp' a q → marked (holder i) q) → sound f' w' cp'.
Proof.
  intros [Hn Hw Hcp] Hst Hw1 Hc1 Hw2 Hc2. split; [by eapply stores_no_null|..]; apply stores_item in Hst as [Ha Hb];
    intros b q Hq Hs H; (destruct (decide (b = a)) as [->|Hne]; [rewrite Ha|rewrite (Hb b Hne)]; eauto).
Qed.

(** ** The operations keep it *)

Lemma request_sound pkt port retry f l f' w cp w' cp' :
  sound f w cp → port ∈ ports → request c pkt port retry f = Ok (l, f') →
  (∀ b q, w' b q → w b q ∨ (retry = false ∧ tracked pkt port = true ∧ asks pkt = true) ∧ b = line_addr c pkt ∧ q = port) →
  (∀ b q, cp' b q →
     cp b q ∧ ¬ ((retry = false ∧ tracked pkt port = true ∧ gives_up pkt = true) ∧ b = line_addr c pkt ∧ q = port)) →
  sound f' w' cp'.
Proof using Hc.
  intros Hs Hport Hr Hw Hcp. apply request_inv in Hr as (rp & i' & Hrp & Hst & Hi & _); [|apply Hs].
  eapply sound_stores; [exact Hs|exact Hst|..].
  - intros b q Hne H. destruct (Hw b q H) as [?|(_ & ? & _)]; done.
  - intros b q Hne H. by apply Hcp in H as [? _].
  - intros q Hq Hqs H. assert (w (line_addr c pkt) q ∨ (negb retry && tracked pkt port = true ∧ asks pkt = true) ∧ q = port) as Hq'.
    { apply Hw in H as [?|((-> & -> & ?) & _ & ->)]; auto. }
    destruct (negb retry && tracked pkt port).
    + apply track_inv in Hi as (-> & _ & _). destruct Hq' as [H'|[[_ ->] ->]]; [|by apply marked_own].
      apply (so_asked _ _ _ Hs) in H'; [|done..]. destruct (asks pkt); [by apply marked_lor|done].
    + subst i'. destruct Hq' as [H'|[[? _] _]]; [|done]. by apply (so_asked _ _ _ Hs).
  - intros q Hq Hqs H. apply Hcp in H as [H Hne]. apply (so_copy _ _ _ Hs) in H; [|done..].
    destruct (negb retry && tracked pkt port) eqn:E; [|by subst].
    apply andb_true_iff in E as [->%negb_true_iff Ht]. apply track_inv in Hi as (_ & -> & _).
    destruct (gives_up pkt) eqn:Hg; [|done]. eapply marked_ldiff; [done|done|exact Hport| |done|done].
    intros ->. apply Hne. by rewrite Ht.
Qed.

(** A request of a port that waits for the line already would fail. *)
Lemma request_fresh pkt port f l f' w cp :
  sound f w cp → port ∈ ports → request c pkt port false f = Ok (l, f') →
  tracked pkt port = true → asks pkt = true → ¬ w (line_addr c pkt) port.
Proof using Hc.
  intros Hs Hport Hr Ht Ha Hw. apply request_inv in Hr as (rp & i' & Hrp & _ & Hi & _); [|apply Hs]. rewrite Ht in Hi. simpl in Hi.
  apply track_inv in Hi as (_ & _ & Hi). specialize (Hi Ha).
  apply (so_asked _ _ _ Hs) in Hw as (pm & Hpm & Hm); [congruence|done|]. unfold tracked in Ht.
  by destruct (p_snooping port); [|rewrite andb_false_r in Ht].
Qed.

Lemma snoop_sound pkt f l d f' w cp w' cp' :
  sound f w cp → lookupSnoop c pkt f = Ok ((l, d), f') → within w w' →
  (∀ b q, cp' b q → cp b q ∧ ¬ (isInvalidate (pk_cmd pkt) = true ∧ b = line_addr c pkt ∧ q ∈ l)) →
  sound f' w' cp'.
Proof using Hc.
  intros Hs Hr Hw Hcp. apply lookupSnoop_inv in Hr as [Hl Hst]; [|apply Hs].
  eapply sound_stores; [exact Hs|exact Hst|..]; simpl.
  - intros b q _. apply Hw.
  - intros b q _ H. by apply Hcp in H as [? _].
  - intros q Hq Hqs H. by apply (so_asked _ _ _ Hs), Hw.
  - intros q Hq Hqs H. apply Hcp in H as [H Hne]. apply (so_copy _ _ _ Hs) in H; [|done..].
    destruct (isInvalidate (pk_cmd pkt)) eqn:Hi; simpl; [|done]. exfalso. apply Hne. split_and!; [done..|].
    destruct Hl as [[_ E]|Hl]; [rewrite E in H; by apply marked_0 in H|].
    eapply marked_list; [done|done| |exact Hl]. by apply marked_lor.
Qed.

(** A cache that gets a response: with the response to a request it has in
    flight it gets a copy, unless the request was a maintenance operation; with
    the response to an invalidating one it has given its copy up. *)
Lemma response_sound pkt port f f' w cp w' cp' :
  sound f w cp → port ∈ ports → updateResponse c pkt port f = Ok (tt, f') →
  (∀ b q, w' b q → w b q ∧ ¬ (pk_uncacheable pkt = false ∧ b = line_addr c pkt ∧ q = port)) →
  (∀ b q, cp' b q →
     cp b q ∧ ¬ ((pk_maintenance pkt = true ∧ isInvalidate (pk_cmd pkt) = true) ∧ b = line_addr c pkt ∧ q = port) ∨
     w b q ∧ pk_uncacheable pkt = false ∧ pk_maintenance pkt = false ∧ b = line_addr c pkt ∧ q = port) →
  sound f' w' cp'.
Proof using Hc.
  intros Hs Hport Hr Hw Hcp. apply updateResponse_inv in Hr as [[-> Hu]|(rp & i & Hrp & Ha & Hu & _ & Hst)]; [| |apply Hs].
  - split; [apply Hs|..].
    + intros b q Hq Hqs H. apply (so_asked _ _ _ Hs); [done..|]. by apply Hw.
    + intros b q Hq Hqs [[H _]|(H & Hu' & _ & -> & ->)]%Hcp; [by apply (so_copy _ _ _ Hs)|exfalso].
      apply (so_asked _ _ _ Hs) in H; [|done..]. destruct Hu as [?|[?|E]]; [congruence|congruence|].
      unfold item in H. rewrite E in H. by apply marked_0 in H.
  - assert (item (line_addr c pkt) f = i) as Hi by (unfold item; by rewrite Ha).
    eapply sound_stores; [exact Hs|exact Hst|..]; simpl.
    + intros b q _ H. by apply Hw in H as [? _].
    + intros b q Hne [[H _]|(_ & _ & _ & ? & _)]%Hcp; done.
    + intros q Hq Hqs H. apply Hw in H as [H Hne]. apply (so_asked _ _ _ Hs) in H; [|done..]. rewrite Hi in H.
      eapply marked_ldiff; [done|done|exact Hport| |done|done]. intros ->. by apply Hne.
    + intros q Hq Hqs H. rewrite <-Hi. apply Hcp in H as [[H Hne]|(_ & _ & -> & _ & ->)]; [|by apply marked_own].
      apply (so_copy _ _ _ Hs) in H; [|done..]. destruct (pk_maintenance pkt); [|by apply marked_lor].
      destruct (isInvalidate (pk_cmd pkt)); [|done]. eapply marked_ldiff; [done|done|exact Hport| |done|done].
      intros ->. by apply Hne.
Qed.

(** A snoop response without sharers hands over the only copy. *)
Lemma snoop_response_sound pkt rsp_port req_port f f' w cp w' cp' :
  sound f w cp → req_port ∈ ports → updateSnoopResponse c pkt rsp_port req_port f = Ok (tt, f') →
  (∀ b q, w' b q → w b q ∧ ¬ (pk_uncacheable pkt = false ∧ b = line_addr c pkt ∧ q = req_port)) →
  (∀ b q, cp' b q →
     cp b q ∧ (b = line_addr c pkt → pk_hasSharers pkt = true ∨ pk_uncacheable pkt || negb (p_snooping req_port) = true) ∨
     pk_uncacheable pkt = false ∧ b = line_addr c pkt ∧ q = req_port) →
  sound f' w' cp'.
Proof using Hc.
  intros Hs Hport Hr Hw Hcp. apply updateSnoopResponse_inv in Hr as [[Hu ->]|(qm & Hu & Hq & Hst)].
  - split; [apply Hs|..].
    + intros b q Hq Hqs H. apply (so_asked _ _ _ Hs); [done..|]. by apply Hw.
    + intros b q Hq Hqs [[H _]|(E & _ & ->)]%Hcp; [by apply (so_copy _ _ _ Hs)|]. rewrite E, Hqs in Hu. done.
  - eapply sound_stores; [exact Hs|exact Hst|..]; simpl.
    + intros b q _ H. by apply Hw in H as [? _].
    + intros b q Hne [[H _]|(_ & ? & _)]%Hcp; done.
    + intros q Hq' Hqs H. apply Hw in H as [H Hne]. apply (so_asked _ _ _ Hs) in H; [|done..].
      apply orb_false_iff in Hu as [Hu _]. eapply marked_ldiff; [done|done|exact Hport| |done|done]. intros ->. by apply Hne.
    + intros q Hq' Hqs [[H Hsh]|(_ & _ & ->)]%Hcp; [|by apply marked_own]. apply marked_lor; [done..|].
      destruct (Hsh eq_refl) as [-> |?]; [by apply (so_copy _ _ _ Hs)|congruence].
Qed.

Lemma snoop_forward_sound pkt f f' w cp w' cp' :
  sound f w cp → updateSnoopForward c pkt f = Ok (tt, f') → within w w' →
  (∀ b q, cp' b q → cp b q ∧ (b = line_addr c pkt → pk_hasSharers pkt = true)) → sound f' w' cp'.
Proof.
  intros Hs Hr Hw Hcp. apply updateSnoopForward_inv in Hr; [|apply Hs]. eapply sound_stores; [exact Hs|exact Hr|..]; simpl.
  - intros b q _. apply Hw.
  - intros b q _ H. by apply Hcp in H as [? _].
  - intros q Hq Hqs H. by apply (so_asked _ _ _ Hs), Hw.
  - intros q Hq Hqs [H Hsh]%Hcp. rewrite Hsh by done. by apply (so_copy _ _ _ Hs).
Qed.

(** What the filter knows is snooped. *)
Lemma sound_covers_request f w cp pkt port retry l f' p :
  sound f w cp → p ∈ ports → p_snooping p = true → port ∈ ports → p ≠ port →
  request c pkt port retry f = Ok (l, f') → cp (line_addr c pkt) p ∨ w (line_addr c pkt) p → p ∈ l.
Proof using Hc.
  intros Hs Hp Hps Hport Hne Hr Hk. apply request_inv in Hr as (rp & i' & Hrp & _ & _ & Hl); [|apply Hs].
  assert (marked (Z.lor (holder (item (line_addr c pkt) f)) (requested (item (line_addr c pkt) f))) p) as Hm.
  { destruct Hk as [Hk|Hk]; [apply marked_lor; [done..|]; by apply (so_copy _ _ _ Hs)|].
    rewrite Z.lor_comm. apply marked_lor; [done..|]; by apply (so_asked _ _ _ Hs). }
  destruct Hl as [[_ E]|Hl]; [rewrite E in Hm; by apply marked_0 in Hm|].
  eapply marked_list; [done|done| |exact Hl]. by eapply marked_ldiff.
Qed.

Lemma sound_covers_snoop f w cp pkt l d f' p :
  sound f w cp → p ∈ ports → p_snooping p = true →
  lookupSnoop c pkt f = Ok ((l, d), f') → cp (line_addr c pkt) p ∨ w (line_addr c pkt) p → p ∈ l.
Proof using Hc.
  intros Hs Hp Hps Hr Hk. apply lookupSnoop_inv in Hr as [Hl _]; [|apply Hs].
  assert (marked (Z.lor (holder (item (line_addr c pkt) f)) (requested (item (line_addr c pkt) f))) p) as Hm.
  { destruct Hk as [Hk|Hk]; [apply marked_lor; [done..|]; by apply (so_copy _ _ _ Hs)|].
    rewrite Z.lor_comm. apply marked_lor; [done..|]; by apply (so_asked _ _ _ Hs). }
  destruct Hl as [[_ E]|Hl]; [rewrite E in Hm; by apply marked_0 in Hm|]. by eapply marked_list.
Qed.

Lemma sound_new : sound new (λ _ _, False) (λ _ _, False).
Proof. split; [by apply map_Forall_empty|done..]. Qed.

(** ** Steps *)

(** The filter, the requests in flight and the copies. *)
Record State := mkState { filter_of : Filter; asked : Lines; copies : Lines }.

(** The events.  The caches are those of a coherent system: a cache gives its
    copy up when it evicts the block and when an invalidating snoop reaches it;
    it gets one with the response to a request it has in flight; a snoop response
    without sharers hands over the only copy.  A copy may be dropped silently at
    any time.  A response that answers no request of its port, such as a
    broadcast of another cache's read, reaches only ports that do not wait for
    the line, or is uncacheable. *)
Inductive step : State → State → Prop :=
  | step_request pkt port retry f f' l w cp cp' :
      port ∈ ports → request c pkt port retry f = Ok (l, f') →
      (∀ b q, cp' b q →
         cp b q ∧ ¬ ((retry = false ∧ tracked pkt port = true ∧ gives_up pkt = true) ∧ b = line_addr c pkt ∧ q = port)) →
      step (mkState f w cp)
        (mkState f' (if negb retry && tracked pkt port && asks pkt then add (line_addr c pkt) port w else w) cp')
  | step_snoop pkt f f' l d w cp cp' :
      lookupSnoop c pkt f = Ok ((l, d), f') →
      (∀ b q, cp' b q → cp b q ∧ ¬ (isInvalidate (pk_cmd pkt) = true ∧ b = line_addr c pkt ∧ q ∈ l)) →
      step (mkState f w cp) (mkState f' w cp')
  | step_answer pkt port f f' w cp cp' :
      port ∈ ports → updateResponse c pkt port f = Ok (tt, f') → w (line_addr c pkt) port →
      (∀ b q, cp' b q →
         cp b q ∧ ¬ ((pk_maintenance pkt = true ∧ isInvalidate (pk_cmd pkt) = true) ∧ b = line_addr c pkt ∧ q = port) ∨
         pk_uncacheable pkt = false ∧ pk_maintenance pkt = false ∧ b = line_addr c pkt ∧ q = port) →
      step (mkState f w cp) (mkState f' (remove (line_addr c pkt) port w) cp')
  | step_unasked pkt port f f' w cp cp' :
      port ∈ ports → updateResponse c pkt port f = Ok (tt, f') → pk_uncacheable pkt = true ∨ ¬ w (line_addr c pkt) port →
      (∀ b q, cp' b q →
         cp b q ∧ ¬ ((pk_maintenance pkt = true ∧ isInvalidate (pk_cmd pkt) = true) ∧ b = line_addr c pkt ∧ q = port)) →
      step (mkState f w cp) (mkState f' w cp')
  | step_snoop_response pkt rsp_port req_port f f' w cp cp' :
      req_port ∈ ports → updateSnoopResponse c pkt rsp_port req_port f = Ok (tt, f') →
      (∀ b q, cp' b q → cp b q ∧ (b = line_addr c pkt → pk_hasSharers pkt = true) ∨
         pk_uncacheable pkt = false ∧ b = line_addr c pkt ∧ q = req_port) →
      step (mkState f w cp) (mkState f' (if pk_uncacheable pkt then w else remove (line_addr c pkt) req_port w) cp')
  | step_snoop_forward pkt f f' w cp cp' :
      updateSnoopForward c pkt f = Ok (tt, f') →
      (∀ b q, cp' b q → cp b q ∧ (b = line_addr c pkt → pk_hasSharers pkt = true)) →
      step (mkState f w cp) (mkState f' w cp').

Definition initial : State := mkState new (λ _ _, False) (λ _ _, False).

Lemma step_sound s s' : step s s' → sound (filter_of s) (asked s) (copies s) → sound (filter_of s') (asked s') (copies s').
Proof using Hc.
  intros [pkt port retry f f' l w cp cp' Hp Hr Hcp|pkt f f' l d w cp cp' Hr Hcp|pkt port f f' w cp cp' Hp Hr Hask Hcp
    |pkt port f f' w cp cp' Hp Hr Hask Hcp|pkt rp qp f f' w cp cp' Hp Hr Hcp|pkt f f' w cp cp' Hr Hcp] Hs; simpl in *.
  - eapply request_sound; [exact Hs|done|exact Hr| |done]. intros b q H. destruct retry, (tracked pkt port), (asks pkt); simpl in H;
      try (by left). destruct H as [H|[-> ->]]; [by left|by right].
  - eapply snoop_sound; [exact Hs|exact Hr|by intros ? ?|done].
  - eapply response_sound; [exact Hs|done|exact Hr| |].
    + intros b q [H Hne]. split; [done|]. intros (_ & -> & ->). by apply Hne.
    + intros b q [?|(? & ? & -> & ->)]%Hcp; [by left|by right].
  - eapply response_sound; [exact Hs|done|exact Hr| |].
    + intros b q H. split; [done|]. intros (Hu & -> & ->). destruct Hask; congruence.
    + intros b q ?%Hcp. by left.
  - eapply snoop_response_sound; [exact Hs|done|exact Hr| |].
    + intros b q H. destruct (pk_uncacheable pkt); [split; [done|by intros (? & _)]|]. destruct H as [H Hne]. split; [done|].
      intros (_ & -> & ->). by apply Hne.
    + intros b q [[H Hsh]|?]%Hcp; [left; split; [done|]; auto|by right].
  - eapply snoop_forward_sound; [exact Hs|exact Hr|by intros ? ?|done].
Qed.

Lemma reachable_sound s : rtc step initial s → sound (filter_of s) (asked s) (copies s).
Proof using Hc.
  intros Hr. pose proof sound_new as Hi. change (sound (filter_of initial) (asked initial) (copies initial)) in Hi.
  induction Hr as [|x y z Hxy _ IH]; [done|]. apply IH. by eapply step_sound.
Qed.
End knowledge.

Section coherence.
Context (ports : list Port) (line lat cap : Z) (c : Config).
Hypothesis ports_nodup : NoDup (p_id <$> ports).
Hypothesis ports_ids : Forall (λ p, 0 ≤ p_id p < Z.of_nat (length ports)) ports.
Hypothesis configure : setCPUSidePorts ports line lat cap = Ok c.

(** C4. The snoop filter never hides a copy: in every state reached by requests
    (retried or not), snoops, responses, snoop responses and forwards, a cache
    that has a copy of a line, or a request for it in flight, is among the ports
    the filter returns for a request of another port to that line, and for a snoop
    of it from below; so a write always reaches every copy.  Requests in flight
    and copies are kept apart from the filter.  The steps leave out broadcast
    responses that reach a port while it waits for the same line: the filter does
    not survive them, see [broadcast_disturbs_request]. *)
Theorem filter_covers_copies s pkt p :
  rtc (step ports c) initial s →
  p ∈ ports → p_snooping p = true →
  copies s (line_addr c pkt) p ∨ asked s (line_addr c pkt) p →
  (∀ port retry l f', port ∈ ports → p ≠ port →
     request c pkt port retry (filter_of s) = Ok (l, f') → p ∈ l) ∧
  (∀ l d f', lookupSnoop c pkt (filter_of s) = Ok ((l, d), f') → p ∈ l).
Proof.
  pose proof (setCPUSidePorts_configured _ _ _ _ _ ports_nodup ports_ids configure) as Hc.
  intros Hr%(reachable_sound _ _ Hc) Hp Hs Hk. split; intros.
  - by eapply sound_covers_request.
  - by eapply sound_covers_snoop.
Qed.

(** A response updates the filter exactly as its kind says: for a snooping
    port and a tracked line it panics if and only if the port has no request
    in flight and the response is not a broadcast; otherwise it clears the
    request and makes the port a holder (or, for a maintenance response, only
    drops it when invalidating), and no assertion fails. *)
Theorem updateResponse_behaviour pkt port rp i f :
  no_null f →
  port ∈ ports → p_snooping port = true → portToMask c port = Ok rp →
  isResponse (pk_cmd pkt) = true → pk_uncacheable pkt = false →
  cachedLocations f !! line_addr c pkt = Some i →
  if none (Z.land (requested i) rp) && negb (pk_broadcast pkt)
  then updateResponse c pkt port f = Err (EPanic "missing request bit")
  else ∃ f', updateResponse c pkt port f = Ok (tt, f') ∧
    stores (line_addr c pkt)
      (mkItem (Z.ldiff (requested i) rp)
         (if pk_maintenance pkt then if isInvalidate (pk_cmd pkt) then Z.ldiff (holder i) rp else holder i
          else Z.lor (holder i) rp)) f f'.
Proof.
  intros. eapply updateResponse_ok; try done.
  by eapply setCPUSidePorts_configured.
Qed.
End coherence.

(** Finishing a request with a retry restores the table. *)
Lemma retry_restores c pkt port f l lat f1 :
  no_null f → lookupRequest c pkt port f = Ok ((l, lat), f1) →
  ∃ f2, finishRequest c true (pk_addr pkt) (pk_secure pkt) f1 = Ok (tt, f2) ∧
    cachedLocations f2 = cachedLocations f.
Proof.
  intros Hn Hl. apply lookupRequest_inv in Hl as (rp & Hrp & [(_ & Ha & -> & Hit & Hc)|(i' & Hit & Hr & Hc & _)]).
  - exists f1. unfold finishRequest. rewrite (M_bind_ok _ _ _ f1 f1), Hit by done. done.
  - destruct (finishRequest_ok c true pkt f1 i') as (f2 & Hf & Hst); [done|by rewrite Hc, lookup_insert_eq|].
    exists f2. split; [done|]. unfold stores in Hst. rewrite Hst, Hc, Hr. unfold item.
    destruct (cachedLocations f !! line_addr c pkt) as [i|] eqn:Hi; simpl.
    + specialize (Hn _ _ Hi). simpl in Hn. rewrite any_none in Hn. apply negb_true_iff in Hn. rewrite Hn.
      by rewrite insert_insert_eq, insert_id.
    + by rewrite delete_insert_eq, delete_id.
Qed.

(** A request that has to be retried leaves no trace in the filter: the
    [finishRequest(true, ...)] that follows any successful [lookupRequest]
    succeeds and restores the table, also when the lookup created the entry,
    marked the request or dropped a holder. *)
Theorem retried_request_leaves_no_trace c pkt port f l lat f1 :
  no_null f → lookupRequest c pkt port f = Ok ((l, lat), f1) →
  ∃ f2, finishRequest c true (pk_addr pkt) (pk_secure pkt) f1 = Ok (tt, f2) ∧
    cachedLocations f2 = cachedLocations f.
Proof. apply retry_restores. Qed.

(** ** An example run *)

(** The cache at port 0 reads a line and gets it. *)
Definition example_pkt (cmd : Command) : Pkt := mkPkt cmd 4096 false false false false false false false.
Definition after {A} (r : res (A * Filter)) : Filter := match r with Ok (_, f) => f | Err _ => new end.
Definition example_asked : Filter :=
  after (request example_config (example_pkt ReadSharedReq) (mkPort 0 true) false new).
Definition example_filled : Filter :=
  after (updateResponse example_config (example_pkt ReadResp) (mkPort 0 true) example_asked).
Definition example_waits : Z → Port → Prop := add 4096 (mkPort 0 true) (λ _ _, False).
Definition example_copies (a : Z) (p : Port) : Prop := a = 4096 ∧ p = mkPort 0 true.

Lemma filter_example_reachable :
  rtc (step example_ports example_config) initial
    (mkState example_filled (remove 4096 (mkPort 0 true) example_waits) example_copies).
Proof.
  eapply rtc_l; [|eapply rtc_once].
  - apply (step_request example_ports example_config (example_pkt ReadSharedReq) (mkPort 0 true) false new example_asked []
      (λ _ _, False) (λ _ _, False) (λ _ _, False)); [by left|vm_compute; reflexivity|done].
  - apply (step_answer example_ports example_config (example_pkt ReadResp) (mkPort 0 true) example_asked example_filled
      example_waits (λ _ _, False) example_copies).
    + by left.
    + vm_compute. reflexivity.
    + by right.
    + intros b q [-> ->]. by right.
Qed.

(** A write of port 1 then snoops port 0. *)
Lemma filter_covers_copies_witness : ∃ l f',
  request example_config (example_pkt ReadExReq) (mkPort 1 true) false example_filled = Ok (l, f') ∧
  mkPort 0 true ∈ l.
Proof.
  destruct (filter_covers_copies example_ports 64 1 65536 example_config) with
    (s := mkState example_filled (remove 4096 (mkPort 0 true) example_waits) example_copies)
    (pkt := example_pkt ReadExReq) (p := mkPort 0 true) as [H _].
  - apply (bool_decide_unpack _). vm_compute. exact I.
  - apply (bool_decide_unpack _). vm_compute. exact I.
  - vm_compute. reflexivity.
  - apply filter_example_reachable.
  - by left.
  - reflexivity.
  - left. split; [vm_compute; reflexivity|reflexivity].
  - eexists _, _. split; [vm_compute; reflexivity|].
    eapply (H (mkPort 1 true) false).
    + apply (bool_decide_unpack _). vm_compute. exact I.
    + discriminate.
    + vm_compute. reflexivity.
Defined.

(** ** Where the filter goes wrong *)

(** A broadcast response clears the mark of a request that is still in flight.
    The cache at port 0 waits for a line when the broadcast of another cache's
    read of the same line reaches its port.  Its own response then fails; or, if
    the line was snooped away in between, it is accepted but not noted, and a
    write of port 1 does not snoop port 0, which has just got the line. *)
Definition example_broadcast : Pkt := mkPkt ReadResp 4096 false false false true false false false.
Definition example_disturbed : Filter :=
  after (updateResponse example_config example_broadcast (mkPort 0 true) example_asked).
Definition example_snooped : Filter :=
  after (lookupSnoop example_config (example_pkt ReadExReq) example_disturbed).
Definition example_unnoted : Filter :=
  after (updateResponse example_config (example_pkt ReadResp) (mkPort 0 true) example_snooped).

Theorem broadcast_disturbs_request :
  updateResponse example_config example_broadcast (mkPort 0 true) example_asked = Ok (tt, example_disturbed) ∧
  updateResponse example_config (example_pkt ReadResp) (mkPort 0 true) example_disturbed
    = Err (EPanic "missing request bit") ∧
  (∃ l, lookupSnoop example_config (example_pkt ReadExReq) example_disturbed = Ok (l, example_snooped)) ∧
  updateResponse example_config (example_pkt ReadResp) (mkPort 0 true) example_snooped = Ok (tt, example_unnoted) ∧
  ∃ f', request example_config (example_pkt ReadExReq) (mkPort 1 true) false example_unnoted = Ok ([], f').
Proof. split_and!; try eexists; vm_compute; reflexivity. Qed.

(** A response to port 1, which did not ask. *)
Lemma updateResponse_behaviour_witness :
  updateResponse example_config (example_pkt ReadResp) (mkPort 1 true) example_asked =
    Err (EPanic "missing request bit").
Proof.
  unshelve refine (updateResponse_behaviour example_ports 64 1 65536 example_config _ _ _
    (example_pkt ReadResp) (mkPort 1 true) 2 (mkItem 1 0) example_asked _ _ _ _ _ _ _).
  - apply (bool_decide_unpack _). vm_compute. exact I.
  - apply (bool_decide_unpack _). vm_compute. exact I.
  - vm_compute. reflexivity.
  - unfold no_null. apply (bool_decide_unpack _). vm_compute. exact I.
  - apply (bool_decide_unpack _). vm_compute. exact I.
  - reflexivity.
  - vm_compute. reflexivity.
  - reflexivity.
  - reflexivity.
  - vm_compute. reflexivity.
Defined.

Lemma retried_request_leaves_no_trace_witness : ∃ f1 f2 l,
  lookupRequest example_config (example_pkt ReadSharedReq) (mkPort 0 true) new = Ok ((l, 1), f1) ∧
  finishRequest example_config true 4096 false f1 = Ok (tt, f2) ∧ cachedLocations f2 = ∅.
Proof.
  destruct (retried_request_leaves_no_trace example_config (example_pkt ReadSharedReq) (mkPort 0 true)
    new [] 1 (after (lookupRequest example_config (example_pkt ReadSharedReq) (mkPort 0 true) new)))
    as (f2 & Hf & Hc).
  - apply map_Forall_empty.
  - vm_compute. reflexivity.
  - eexists _, f2, []. split; [|split; [exact Hf|exact Hc]]. vm_compute. reflexivity.
Defined.
