(* ===== verification/Clocked.v ===== *)
(** * Clocked objects

    [sim/clocked_object.hh] with [divCeil] of [base/intmath.hh]: every object
    with a clock caches its last clock edge and catches up with the global time
    when it is asked.  The catch-up is an optimisation of a division; the
    theorems show that the answers are those of the division, whatever the
    times at which the object was asked before. *)
From stdpp Require Import base tactics list.
From Stdlib Require Import ZArith Lia Sorted.
From S2P Require Import Prelude.
Local Open Scope Z_scope.

(** [divCeil(a, b)] on [uint64_t] *)
Definition divCeil (a b : Z) : res Z := if b =? 0 then Err EDivByZero else Ok (u64 (a + b - 1) / b).

Module Clocked.
Record Clocked := mkClocked { tick : Z; cycle : Z }.   (* Tick, Cycles: uint64_t *)
Definition new : Clocked := mkClocked 0 0.

Section clock.
Context (clockPeriod curTick : Z).

Definition update (c : Clocked) : res Clocked :=
  if curTick <=? tick c then Ok c else
  let c1 := mkClocked (u64 (tick c + clockPeriod)) (u64 (cycle c + 1)) in
  if curTick <=? tick c1 then Ok c1 else
  elapsedCycles ← divCeil (u64 (curTick - tick c1)) clockPeriod;
  Ok (mkClocked (u64 (tick c1 + elapsedCycles * clockPeriod)) (u64 (cycle c1 + elapsedCycles))).

Definition resetClock (c : Clocked) : res Clocked :=
  elapsedCycles ← divCeil curTick clockPeriod;
  Ok (mkClocked (u64 (elapsedCycles * clockPeriod)) elapsedCycles).

Definition clockEdge (cycles : Z) : M Clocked Z := λ c,
  c' ← update c; Ok (u64 (tick c' + clockPeriod * cycles), c').
Definition curCycle : M Clocked Z := λ c,
  c' ← update c; Ok (cycle c', c').
Definition nextCycle : M Clocked Z := clockEdge 1.
Definition ticksToCycles (t : Z) : res Z := divCeil t clockPeriod.
Definition cyclesToTicks (c : Z) : Z := u64 (clockPeriod * c).
End clock.
End Clocked.
Import Clocked.

(** ** The reference *)

(** The number of the first clock edge at or after [t]. *)
Definition edge (p t : Z) : Z := (t + p - 1) / p.

Lemma edge_spec p t : 0 < p → t ≤ p * edge p t < t + p.
Proof.
  intros Hp. unfold edge. pose proof (Z.div_mod (t + p - 1) p). pose proof (Z.mod_pos_bound (t + p - 1) p). lia.
Qed.

Lemma edge_unique p t k : 0 < p → t ≤ p * k < t + p → edge p t = k.
Proof. intros Hp Hk. pose proof (edge_spec p t Hp). nia. Qed.

Lemma divCeil_ok a p : 0 < p → 0 ≤ a → a + p ≤ 2 ^ 64 → divCeil a p = Ok (edge p a).
Proof.
  intros Hp Ha Hb. unfold divCeil. rewrite (proj2 (Z.eqb_neq _ _)) by lia. rewrite u64_small by lia. done.
Qed.

(** The cached edge is an edge, and the first one at or after some time
    already passed. *)
Definition caught_up (p t : Z) (c : Clocked) : Prop :=
  cycle c = edge p t ∧ tick c = p * edge p t.

Section catch_up.
Context (p : Z) (p_pos : 0 < p).

Lemma edge_nonneg t : 0 ≤ t → 0 ≤ edge p t.
Proof using p_pos. intros Ht. apply Z.div_pos; lia. Qed.

Lemma update_caught_up t t' c :
  0 ≤ t ≤ t' → t' + 2 * p ≤ 2 ^ 64 → caught_up p t c →
  ∃ c', update p t' c = Ok c' ∧ caught_up p t' c'.
Proof using p_pos.
  intros Ht Hb [Hc Hk]. pose proof (edge_spec p t p_pos). pose proof (edge_spec p t' p_pos).
  pose proof (edge_nonneg t ltac:(lia)). unfold update. rewrite Hk.
  destruct (Z.leb_spec t' (p * edge p t)).
  { exists c. split; [done|]. unfold caught_up. by rewrite (edge_unique p t' (edge p t)) by lia. }
  cbn [tick cycle]. rewrite Hc. rewrite (u64_small (p * edge p t + p)), (u64_small (edge p t + 1)) by nia.
  destruct (Z.leb_spec t' (p * edge p t + p)).
  { eexists. split; [reflexivity|]. unfold caught_up. rewrite (edge_unique p t' (edge p t + 1)) by lia.
    split; simpl; lia. }
  set (d := t' - (p * edge p t + p)). rewrite (u64_small d) by lia.
  rewrite divCeil_ok by lia. cbn [mbind res_bind]. eexists. split; [reflexivity|].
  pose proof (edge_spec p d p_pos). pose proof (edge_nonneg d ltac:(lia)).
  unfold caught_up. assert (edge p t' = edge p t + 1 + edge p d) as -> by (apply edge_unique; lia).
  split; simpl; rewrite u64_small by nia; lia.
Qed.
End catch_up.

(** The object asked at a sequence of times. *)
Fixpoint ask (p : Z) (times : list Z) (cycles : Z) : M Clocked (list (Z * Z)) :=
  match times with
  | [] => mret []
  | t :: times' =>
      e ← clockEdge p t cycles;
      n ← curCycle p t;
      l ← ask p times' cycles;
      mret ((e, n) :: l)
  end.

Lemma ask_from p cycles times t0 c :
  0 < p → 0 ≤ cycles → 0 ≤ t0 → caught_up p t0 c → Sorted (≤) (t0 :: times) →
  Forall (λ t, t + p * (cycles + 2) ≤ 2 ^ 64) times →
  ∃ c', ask p times cycles c = Ok ((λ t, (p * (edge p t + cycles), edge p t)) <$> times, c').
Proof.
  intros Hp Hcy. revert t0 c. induction times as [|t times IH]; intros t0 c Ht0 Hc Hs Hb; [by exists c|].
  apply Forall_cons in Hb as [Hb Hbs]. apply Sorted_inv in Hs as [Hs Hle]. apply HdRel_inv in Hle.
  destruct (update_caught_up p Hp t0 t c) as (c1 & Hu & Hc1); [lia|nia|done|].
  destruct (update_caught_up p Hp t t c1) as (c2 & Hu2 & Hc2); [lia|nia|done|].
  destruct (IH t c2) as (c' & Hrun); [lia|done..|]. exists c'. csimpl.
  pose proof (edge_spec p t Hp). pose proof (edge_nonneg p Hp t ltac:(lia)).
  rewrite (M_bind_ok _ _ _ (p * (edge p t + cycles)) c1).
  2:{ unfold clockEdge. rewrite Hu. cbn [mbind res_bind]. destruct Hc1 as [_ ->]. rewrite u64_small by nia.
      do 2 f_equal. lia. }
  rewrite (M_bind_ok _ _ _ (edge p t) c2).
  2:{ unfold curCycle. rewrite Hu2. cbn [mbind res_bind]. destruct Hc2 as [-> _]. done. }
  rewrite (M_bind_ok _ _ _ _ _ Hrun). done.
Qed.

(** C38. The cached clock equals the division: an object asked for
    [clockEdge(cycles)] and [curCycle()] at any non-decreasing sequence of times
    answers, at each time [t], the first multiple of the clock period at or
    after [t], [cycles] periods later, and the number of that edge, although it
    only keeps the last edge and mostly advances it by one period. *)
Theorem clock_answers_edges p cycles times :
  0 < p → 0 ≤ cycles → Sorted (≤) (0 :: times) →
  Forall (λ t, t + p * (cycles + 2) ≤ 2 ^ 64) times →
  ∃ c', ask p times cycles new = Ok ((λ t, (p * (edge p t + cycles), edge p t)) <$> times, c').
Proof.
  intros Hp Hcy Hs Hb. apply (ask_from p cycles times 0 new); [done|done|lia| |done|done].
  split; simpl; rewrite (edge_unique p 0 0); lia.
Qed.

Lemma clock_answers_edges_witness : ∃ c',
  ask 500 [0; 1; 500; 501; 7300] 1 new =
    Ok ([(500, 0); (1000, 1); (1000, 1); (1500, 2); (8000, 15)], c').
Proof.
  destruct (clock_answers_edges 500 1 [0; 1; 500; 501; 7300]) as [c' Hc].
  - lia.
  - lia.
  - repeat constructor; lia.
  - repeat constructor; lia.
  - exists c'. exact Hc.
Defined.

(** Cycles and ticks convert back and forth: a whole number of cycles
    survives the conversion to ticks and back, and the ticks of the cycles of a
    duration cover it by less than one period. *)
Theorem cycles_ticks_round_trip p n t :
  0 < p → 0 ≤ n → 0 ≤ t → p * (n + 1) ≤ 2 ^ 64 → t + p ≤ 2 ^ 64 →
  ticksToCycles p (cyclesToTicks p n) = Ok n ∧
  ∃ k, ticksToCycles p t = Ok k ∧ t ≤ cyclesToTicks p k < t + p.
Proof.
  intros Hp Hn Ht Hb Hbt. unfold ticksToCycles, cyclesToTicks. rewrite (u64_small (p * n)) by nia.
  rewrite !divCeil_ok by nia. split; [by rewrite (edge_unique p _ n) by lia|].
  pose proof (edge_spec p t Hp). pose proof (edge_nonneg p Hp t Ht).
  eexists. split; [reflexivity|]. rewrite u64_small by nia. lia.
Qed.

Lemma cycles_ticks_round_trip_witness :
  ticksToCycles 500 (cyclesToTicks 500 7) = Ok 7 ∧
  ∃ k, ticksToCycles 500 1201 = Ok k ∧ 1201 ≤ cyclesToTicks 500 k < 1201 + 500.
Proof. apply (cycles_ticks_round_trip 500 7 1201); lia. Defined.
