(* ===== verification/PacketQueue.v ===== *)
(** * Packet queues

    [mem/packet_queue.hh] and [mem/packet_queue.cc], with the [schedTimingResp]
    of [mem/qport.hh]: the queue a port keeps of the packets it will send, each
    with the tick from which it may leave.  The crossbar puts the copies of a
    broadcast response into the queues of its CPU-side ports.  What the peer
    does when it is offered a packet (accept it or not, and enqueue more packets
    before it returns) is an argument of the operations. *)
From stdpp Require Import base tactics list strings.
From Stdlib Require Import ZArith Lia.
From S2P Require Import Prelude.
Local Open Scope Z_scope.

Definition MaxTick : Z := 2 ^ 64 - 1.

Module PacketQueue.
(** What a queue looks at in a packet. *)
Record Pkt := mkPkt { pk_id : Z; pk_addr : Z; pk_secure : bool; pk_expressSnoop : bool }.

#[export] Instance Pkt_eq_dec : EqDecision Pkt.
Proof. solve_decision. Defined.

Definition matchAddr (p q : Pkt) : bool := (pk_addr p =? pk_addr q) && Bool.eqb (pk_secure p) (pk_secure q).
Definition matchBlockAddr (p q : Pkt) (blk_size : Z) : bool :=
  (Z.ldiff (pk_addr p) (blk_size - 1) =? Z.ldiff (pk_addr q) (blk_size - 1)) &&
  Bool.eqb (pk_secure p) (pk_secure q).

Record DeferredPacket := mkDeferred { d_tick : Z; d_pkt : Pkt }.

(** [sendEvent] is [Some t] when it is scheduled at tick [t]; [drainDone]
    counts the calls of [signalDrainDone]. *)
Record Queue := mkQueue {
  transmitList : list DeferredPacket;
  sendEvent : option Z;
  waitingOnRetry : bool;
  forceOrder : bool;
  disableSanityCheck : bool;
  draining : bool;
  drainDone : Z;
}.

Definition new (force_order disable_sanity_check : bool) : Queue :=
  mkQueue [] None false force_order disable_sanity_check false 0.

Definition set_list (l : list DeferredPacket) (q : Queue) : Queue :=
  mkQueue l (sendEvent q) (waitingOnRetry q) (forceOrder q) (disableSanityCheck q) (draining q) (drainDone q).
Definition set_event (e : option Z) (q : Queue) : Queue :=
  mkQueue (transmitList q) e (waitingOnRetry q) (forceOrder q) (disableSanityCheck q) (draining q) (drainDone q).
Definition set_waiting (b : bool) (q : Queue) : Queue :=
  mkQueue (transmitList q) (sendEvent q) b (forceOrder q) (disableSanityCheck q) (draining q) (drainDone q).
Definition signalDrainDone (q : Queue) : Queue :=
  mkQueue (transmitList q) (sendEvent q) (waitingOnRetry q) (forceOrder q) (disableSanityCheck q) false (drainDone q + 1).

Definition size (q : Queue) : Z := Z.of_nat (length (transmitList q)).
Definition deferredPacketReadyTime (q : Queue) : Z :=
  match transmitList q with [] => MaxTick | d :: _ => d_tick d end.
Definition checkConflict (pkt : Pkt) (blk_size : Z) (q : Queue) : bool :=
  existsb (λ d, matchBlockAddr (d_pkt d) pkt blk_size) (transmitList q).

Definition too_big : cpp_error := EPanic "Packet queue has grown beyond 128 packets".

Section queue.
Context (curTick : Z).

Definition deferredPacketReady (q : Queue) : bool :=
  match transmitList q with [] => false | d :: _ => d_tick d <=? curTick end.

(** [em.schedule]: the assertions of [EventQueue::schedule]. *)
Definition schedule (when : Z) : M Queue unit :=
  q ← gets (λ q, q);
  massert "when >= getCurTick()" (curTick <=? when) ;;
  massert "!event->scheduled()" (bool_decide (sendEvent q = None)) ;;
  modify (set_event (Some when)).
Definition reschedule (when : Z) : M Queue unit :=
  massert "when >= getCurTick()" (curTick <=? when) ;;
  modify (set_event (Some when)).

Definition schedSendEvent (at_ : Z) : M Queue unit :=
  q ← gets (λ q, q);
  if waitingOnRetry q then
    massert "!sendEvent.scheduled()" (bool_decide (sendEvent q = None))
  else if negb (at_ =? MaxTick) then
    let w := Z.max at_ (u64 (curTick + 1)) in
    match sendEvent q with
    | None => schedule w
    | Some t => when (w <? t) (reschedule w)
    end
  else
    when (draining q && bool_decide (transmitList q = []) && bool_decide (sendEvent q = None))
      (modify signalDrainDone).

(** The search from the end of the list; [true] when the packet becomes the
    first one. *)
Fixpoint insert_back (force : bool) (d : DeferredPacket) (before_rev after : list DeferredPacket)
    : list DeferredPacket * bool :=
  match before_rev with
  | [] => (d :: after, true)
  | x :: before =>
      if (force && matchAddr (d_pkt x) (d_pkt d)) || (d_tick x <=? d_tick d)
      then (rev before ++ x :: d :: after, false)
      else insert_back force d before (x :: after)
  end.

Definition schedSendTiming (pkt : Pkt) (at_ : Z) : M Queue unit :=
  massert "when >= curTick()" (curTick <=? at_) ;;
  massert "!pkt->isExpressSnoop()" (negb (pk_expressSnoop pkt)) ;;
  q ← gets (λ q, q);
  if negb (disableSanityCheck q) && (128 <? size q) then throw too_big else
  let '(l, front) := insert_back (forceOrder q) (mkDeferred at_ pkt) (rev (transmitList q)) [] in
  modify (set_list l) ;;
  when front (schedSendEvent at_).

(** What the peer does with an offered packet: the packets it makes the owner
    enqueue before it answers, and the answer. *)
Context (peer : Pkt → list (Pkt * Z) * bool).

Definition sendTiming (pkt : Pkt) : M Queue bool :=
  for_each (peer pkt).1 (λ pw, schedSendTiming pw.1 pw.2) ;;
  mret (peer pkt).2.

Definition sendDeferredPacket : M Queue unit :=
  q ← gets (λ q, q);
  massert "!waitingOnRetry" (negb (waitingOnRetry q)) ;;
  massert "deferredPacketReady()" (deferredPacketReady q) ;;
  match transmitList q with
  | [] => throw EBadPointer
  | dp :: rest =>
      modify (set_list rest) ;;
      ok ← sendTiming (d_pkt dp);
      modify (set_waiting (negb ok)) ;;
      q ← gets (λ q, q);
      if ok : bool then schedSendEvent (deferredPacketReadyTime q)
      else modify (set_list (dp :: transmitList q))
  end.

Definition retry : M Queue unit :=
  q ← gets (λ q, q);
  massert "waitingOnRetry" (waitingOnRetry q) ;;
  modify (set_waiting false) ;;
  sendDeferredPacket.

Definition processSendEvent : M Queue unit :=
  q ← gets (λ q, q);
  massert "!waitingOnRetry" (negb (waitingOnRetry q)) ;;
  sendDeferredPacket.

(** [drain()]: [true] for [DrainState::Drained]. *)
Definition drain (q : Queue) : bool := bool_decide (transmitList q = []).
End queue.
End PacketQueue.
