(* ===== verification/PacketQueueProps.v ===== *)
(** * Packet queues lose nothing and always wake up

    A queue between its owner and its peer, in time: packets are enqueued, the
    send event fires, the peer asks for a retry.  The only failure is the panic
    of the size limit; a waiting packet always has a send event or a retry to
    come; and packets of one address leave in the order they came when the
    queue forces the order. *)
From stdpp Require Import base tactics list strings relations.
From Stdlib Require Import ZArith Lia.
From S2P Require Import Prelude PacketQueue.
Import PacketQueue.
Local Open Scope Z_scope.

(** ** The position of a new packet *)

(** [x] lets [d] overtake it. *)
Definition overtaken (force : bool) (d x : DeferredPacket) : Prop :=
  d_tick d < d_tick x ∧ (force = true → matchAddr (d_pkt x) (d_pkt d) = false).

Lemma insert_back_spec force d r : ∀ after,
  ∃ l1 l2, rev r = l1 ++ l2 ∧ Forall (overtaken force d) l2 ∧
    (insert_back force d r after = (l1 ++ d :: l2 ++ after, bool_decide (l1 = []))).
Proof.
  induction r as [|x r IH]; intros after; [by exists [], []|]. simpl.
  destruct (_ || _) eqn:E.
  - exists (rev r ++ [x]), []. rewrite app_nil_r. split_and!; [done|constructor|].
    rewrite bool_decide_false by (by destruct (rev r)). by rewrite <-(assoc_L (++)).
  - apply orb_false_iff in E as [Ef Et%Z.leb_gt]. destruct (IH (x :: after)) as (l1 & l2 & Hr & Hf & ->).
    exists l1, (l2 ++ [x]). rewrite Hr. split_and!.
    + by rewrite (assoc_L (++)).
    + apply Forall_app_2; [done|]. constructor; [|done]. split; [done|]. intros ->. done.
    + by rewrite <-(assoc_L (++)).
Qed.

(** ** The wake-up invariant *)

Section time.
Context (now : Z) (now_ok : 0 ≤ now < MaxTick - 1).

(** A scheduled send event is neither past, nor before the first packet is
    ready, nor later than it needs to be. *)
Definition timely (q : Queue) : Prop :=
  match sendEvent q with
  | None => True
  | Some t => waitingOnRetry q = false ∧ now ≤ t ∧
      ∃ d r, transmitList q = d :: r ∧ d_tick d ≤ t ≤ Z.max (d_tick d) (now + 1)
  end.

Definition ticks_ok (q : Queue) : Prop := Forall (λ d, d_tick d < MaxTick) (transmitList q).

(** The packet a queue waits for a retry with was ready. *)
Definition blocked_ready (q : Queue) : Prop :=
  waitingOnRetry q = true → ∃ d r, transmitList q = d :: r ∧ d_tick d ≤ now.

(** Nothing waits without a wake-up. *)
Definition woken (q : Queue) : Prop :=
  transmitList q ≠ [] → waitingOnRetry q = true ∨ is_Some (sendEvent q).

Record good (q : Queue) : Prop := {
  g_timely : timely q;
  g_ticks : ticks_ok q;
  g_blocked : blocked_ready q;
  g_woken : woken q;
}.

Definition same_flags (q q' : Queue) : Prop :=
  forceOrder q' = forceOrder q ∧ disableSanityCheck q' = disableSanityCheck q.

(** [schedSendEvent] for the first packet. *)
Lemma schedSendEvent_front d r q :
  transmitList q = d :: r → d_tick d < MaxTick → waitingOnRetry q = false →
  (∀ t, sendEvent q = Some t → now ≤ t ∧ d_tick d ≤ t) →
  ∃ e, schedSendEvent now (d_tick d) q = Ok (tt, set_event (Some e) q) ∧ timely (set_event (Some e) q).
Proof using now_ok.
  intros Hl Hd Hw Ht. unfold schedSendEvent. rewrite (M_bind_ok _ _ _ q q), Hw by done.
  rewrite (proj2 (Z.eqb_neq _ _)) by lia. cbn [negb].
  rewrite (u64_small (now + 1)) by (unfold MaxTick in *; lia).
  set (w := Z.max _ _). assert (now ≤ w) as Hle by lia.
  assert (timely (set_event (Some w) q)) as Hti.
  { split; [done|]. split; [done|]. exists d, r. split; [done|]. lia. }
  destruct (sendEvent q) as [t|] eqn:He.
  - specialize (Ht t eq_refl) as [? ?]. unfold when. destruct (Z.ltb_spec w t) as [?|Hge].
    + exists w. split; [|done]. unfold reschedule. rewrite (proj2 (Z.leb_le _ _)) by done. done.
    + exists t. split; [by destruct q; simpl in *; subst|].
      split; [done|]. split; [done|]. exists d, r. split; [done|]. simpl. lia.
  - exists w. split; [|done]. unfold schedule. rewrite (M_bind_ok _ _ _ q q) by done.
    rewrite (proj2 (Z.leb_le _ _)), He, bool_decide_true by done. done.
Qed.

(** Enqueueing: the packet is put behind those it may not overtake, and the
    send event moves forward when it became the first. *)
Lemma schedSendTiming_ok pkt at_ q :
  now ≤ at_ < MaxTick → pk_expressSnoop pkt = false → timely q → ticks_ok q → blocked_ready q →
  (schedSendTiming now pkt at_ q = Err too_big ∧ disableSanityCheck q = false ∧ 128 < size q ∨
   ∃ q' l1 l2, schedSendTiming now pkt at_ q = Ok (tt, q') ∧
     transmitList q = l1 ++ l2 ∧ transmitList q' = l1 ++ mkDeferred at_ pkt :: l2 ∧
     Forall (overtaken (forceOrder q) (mkDeferred at_ pkt)) l2 ∧
     timely q' ∧ ticks_ok q' ∧ blocked_ready q' ∧ same_flags q q' ∧
     waitingOnRetry q' = waitingOnRetry q ∧
     (waitingOnRetry q = false → l1 = [] ∨ is_Some (sendEvent q) → is_Some (sendEvent q'))).
Proof using now_ok.
  intros Ha Hx Hti Htk Hbl. unfold schedSendTiming.
  rewrite (proj2 (Z.leb_le _ _)), Hx by lia. rewrite (M_bind_ok _ _ _ tt q) by done. cbn [negb].
  rewrite (M_bind_ok _ _ _ tt q), (M_bind_ok _ _ _ q q) by done.
  destruct (_ && _) eqn:Hsz; [left|right].
  { apply andb_true_iff in Hsz as [?%negb_true_iff ?%Z.ltb_lt]. done. }
  set (d := mkDeferred at_ pkt).
  destruct (insert_back_spec (forceOrder q) d (rev (transmitList q)) []) as (l1 & l2 & Hl & Hf & ->).
  rewrite rev_involutive in Hl. rewrite app_nil_r.
  rewrite (M_bind_ok _ _ _ tt (set_list (l1 ++ d :: l2) q)) by done.
  set (q1 := set_list (l1 ++ d :: l2) q).
  assert (ticks_ok q1) as Htk1.
  { unfold ticks_ok in *. rewrite Hl in Htk. apply Forall_app in Htk as [? ?]. simpl.
    apply Forall_app_2; [done|]. constructor; [|done]. simpl. lia. }
  destruct l1 as [|x l1].
  - assert (waitingOnRetry q = false) as Hw.
    { destruct (waitingOnRetry q) eqn:Hw; [|done]. destruct (Hbl Hw) as (x & r & Hxr & Hxt).
      simpl in Hl. rewrite Hl in Hxr. rewrite Hxr in Hf. apply Forall_cons in Hf as [[Hlt _] _]. simpl in Hlt. lia. }
    destruct (schedSendEvent_front d l2 q1) as (e & He & Hte); [done|simpl; lia|done| |].
    { simpl. intros t Het. unfold timely in Hti. rewrite Het in Hti. destruct Hti as (_ & ? & x & r & Hxr & ? & _).
      split; [done|]. simpl in Hl. rewrite Hl in Hxr. rewrite Hxr in Hf. apply Forall_cons in Hf as [[Hlt _] _]. simpl in Hlt. lia. }
    exists (set_event (Some e) q1), [], l2. rewrite bool_decide_true by done. unfold when.
    split_and!; try done. unfold blocked_ready. simpl. congruence.
  - exists q1, (x :: l1), l2. rewrite bool_decide_false by done. split_and!; try done.
    + unfold timely in *. simpl. destruct (sendEvent q) as [t|]; [|done].
      destruct Hti as (? & ? & x' & r & Hxr & ?). split; [done|]. split; [done|].
      rewrite Hl in Hxr. simpl in Hxr. injection Hxr as -> _. by exists x', (l1 ++ d :: l2).
    + intros Hw. destruct (Hbl Hw) as (x' & r & Hxr & ?). rewrite Hl in Hxr. injection Hxr as -> _.
      by exists x', (l1 ++ d :: l2).
    + intros _ [?|?]; done.
Qed.

(** ** A series of enqueued packets *)

(** [inserted force l new l']: [l'] is [l] with the packets [new] put in, one
    after the other, each behind those it may not overtake. *)
Inductive inserted (force : bool) : list DeferredPacket → list (Pkt * Z) → list DeferredPacket → Prop :=
  | inserted_nil l : inserted force l [] l
  | inserted_cons l1 l2 pkt at_ l new l' :
      l = l1 ++ l2 → Forall (overtaken force (mkDeferred at_ pkt)) l2 →
      inserted force (l1 ++ mkDeferred at_ pkt :: l2) new l' → inserted force l ((pkt, at_) :: new) l'.

(** The packets a well-behaved owner enqueues. *)
Definition sendable (pw : Pkt * Z) : Prop := now ≤ pw.2 < MaxTick ∧ pk_expressSnoop pw.1 = false.

Lemma schedSendTiming_series news : ∀ q,
  Forall sendable news → timely q → ticks_ok q → waitingOnRetry q = false →
  (for_each news (λ pw, schedSendTiming now pw.1 pw.2) q = Err too_big ∨
   ∃ q', for_each news (λ pw, schedSendTiming now pw.1 pw.2) q = Ok (tt, q') ∧
     inserted (forceOrder q) (transmitList q) news (transmitList q') ∧
     timely q' ∧ ticks_ok q' ∧ same_flags q q' ∧ waitingOnRetry q' = false).
Proof using now_ok.
  induction news as [|[pkt at_] news IH]; intros q Hs Hti Htk Hw.
  { right. exists q. split; [done|]. split; [constructor|done]. }
  apply Forall_cons in Hs as [[Ha Hx] Hs]. cbn [for_each fst snd].
  destruct (schedSendTiming_ok pkt at_ q) as [[He _]|(q1 & l1 & l2 & Hr & Hl & Hl1 & Hf & Ht1 & Hk1 & _ & [Hf1 Hd1] & Hw1 & _)];
    [done..|by intros ?; congruence| |].
  { left. by apply M_bind_err. }
  rewrite (M_bind_ok _ _ _ _ _ Hr). rewrite Hw in Hw1.
  destruct (IH q1 Hs Ht1 Hk1 Hw1) as [He|(q' & Hr' & Hi & ? & ? & [Hf2 Hd2] & ?)]; [by left|right].
  exists q'. split_and!; try done; [|by split; congruence].
  econstructor; [done..|]. by rewrite <-Hl1, <-Hf1.
Qed.

(** ** Sending *)

Lemma schedSendEvent_next q :
  timely q → ticks_ok q → waitingOnRetry q = false →
  ∃ q', schedSendEvent now (deferredPacketReadyTime q) q = Ok (tt, q') ∧
    transmitList q' = transmitList q ∧ same_flags q q' ∧ good q'.
Proof using now_ok.
  intros Hti Htk Hw. unfold deferredPacketReadyTime. destruct (transmitList q) as [|d r] eqn:Hl.
  - assert (sendEvent q = None) as He.
    { unfold timely in Hti. destruct (sendEvent q); [|done]. destruct Hti as (_ & _ & d & r & ? & _). congruence. }
    unfold schedSendEvent. rewrite (M_bind_ok _ _ _ q q), Hw by done. rewrite Z.eqb_refl. cbn [negb]. unfold when.
    destruct (_ && _).
    + eexists. split; [reflexivity|]. simpl. split; [done|]. split; [done|].
      split; unfold timely, ticks_ok, blocked_ready, woken; simpl; rewrite ?He, ?Hl, ?Hw; done.
    + exists q. split; [done|]. split; [done|]. split; [done|].
      split; unfold blocked_ready, woken; rewrite ?Hl, ?Hw; done.
  - destruct (schedSendEvent_front d r q) as (e & He & Hte); [done| |done| |].
    + unfold ticks_ok in Htk. rewrite Hl in Htk. by apply Forall_cons in Htk as [? _].
    + intros t Ht. unfold timely in Hti. rewrite Ht in Hti. destruct Hti as (_ & ? & d' & r' & Hd & ? & _).
      rewrite Hl in Hd. injection Hd as -> _. done.
    + eexists. split; [exact He|]. simpl. split; [done|]. split; [done|].
      split; [done|done| |]; unfold blocked_ready, woken; simpl; [congruence|]. eauto.
Qed.

Lemma sendDeferredPacket_ok reply d rest q :
  transmitList q = d :: rest → d_tick d ≤ now → ticks_ok q → waitingOnRetry q = false → sendEvent q = None →
  Forall sendable reply.1 → (reply.2 = false → reply.1 = []) →
  (sendDeferredPacket now (λ _, reply) q = Err too_big ∨
   ∃ q', sendDeferredPacket now (λ _, reply) q = Ok (tt, q') ∧ good q' ∧ same_flags q q' ∧
     if reply.2 then inserted (forceOrder q) rest reply.1 (transmitList q') else transmitList q' = d :: rest).
Proof using now_ok.
  intros Hl Hd Htk Hw He Hs Hno. unfold sendDeferredPacket.
  rewrite (M_bind_ok _ _ _ q q), Hw by done. cbn [negb]. rewrite (M_bind_ok _ _ _ tt q) by done.
  unfold deferredPacketReady. rewrite Hl, (proj2 (Z.leb_le _ _)) by done.
  rewrite (M_bind_ok _ _ _ tt q), (M_bind_ok _ _ _ tt (set_list rest q)) by done.
  unfold sendTiming. set (q1 := set_list rest q).
  assert (ticks_ok q1) as Htk1.
  { unfold ticks_ok in *. rewrite Hl in Htk. by apply Forall_cons in Htk as [_ ?]. }
  assert (timely q1) as Hti1 by (unfold timely; simpl; by rewrite He).
  destruct (schedSendTiming_series reply.1 q1) as [Herr|(q2 & Hr & Hi & Ht2 & Hk2 & Hf2 & Hw2)]; [done..| |].
  { left. by do 2 apply M_bind_err. }
  right. rewrite (M_bind_ok _ _ _ reply.2 q2) by (by rewrite (M_bind_ok _ _ _ _ _ Hr)).
  destruct reply as [news [|]]; cbn [fst snd negb] in *.
  - rewrite (M_bind_ok _ _ _ tt (set_waiting false q2)), (M_bind_ok _ _ _ (set_waiting false q2) (set_waiting false q2)) by done.
    destruct (schedSendEvent_next (set_waiting false q2)) as (q3 & Hr3 & Hl3 & Hf3 & Hg3).
    { unfold timely in *. simpl. rewrite Hw2 in Ht2. done. }
    { done. }
    { done. }
    exists q3. split; [done|]. split; [done|]. rewrite Hl3. split; [|done].
    destruct Hf2, Hf3. simpl in *. split; congruence.
  - assert (news = []) as -> by auto. cbv [for_each mret M_ret] in Hr. injection Hr as <-.
    eexists. split; [reflexivity|]. simpl. split; [|done].
    split; unfold timely, ticks_ok, blocked_ready, woken; simpl; rewrite ?He; eauto.
    unfold ticks_ok in Htk. by rewrite Hl in Htk.
Qed.
End time.

(** ** Runs *)

(** The queue in time, with the packets enqueued and sent so far, in order. *)
Record World := mkWorld {
  now : Z;
  queue : Queue;
  enqueued : list DeferredPacket;
  sent : list DeferredPacket;
}.

Definition Reply : Type := list (Pkt * Z) * bool.

Inductive Event :=
  | Enqueue (pkt : Pkt) (at_ : Z)     (* the owner calls schedSendTiming *)
  | Fire (reply : Reply)              (* sendEvent is served *)
  | Retry (reply : Reply)             (* the peer calls retry *)
  | Advance (t : Z).                  (* time passes *)

Definition deferred (pw : Pkt * Z) : DeferredPacket := mkDeferred pw.2 pw.1.

(** The history after the first packet was offered. *)
Definition offered (w : World) (t : Z) (reply : Reply) (q : Queue) : World :=
  mkWorld t q (enqueued w ++ (deferred <$> reply.1))
    (sent w ++ if reply.2 then take 1 (transmitList (queue w)) else []).

Definition run (e : Event) (w : World) : res World :=
  match e with
  | Enqueue pkt at_ =>
      r ← schedSendTiming (now w) pkt at_ (queue w);
      Ok (mkWorld (now w) r.2 (enqueued w ++ [mkDeferred at_ pkt]) (sent w))
  | Fire reply =>
      match sendEvent (queue w) with
      | None => Err EBadPointer
      | Some t =>
          r ← processSendEvent t (λ _, reply) (set_event None (queue w));
          Ok (offered w t reply r.2)
      end
  | Retry reply =>
      r ← PacketQueue.retry (now w) (λ _, reply) (queue w);
      Ok (offered w (now w) reply r.2)
  | Advance t => Ok (mkWorld t (queue w) (enqueued w) (sent w))
  end.

Definition reply_ok (t : Z) (reply : Reply) : Prop :=
  Forall (sendable t) reply.1 ∧ (reply.2 = false → reply.1 = []).

(** What can happen: packets are enqueued for the present or the future, the
    send event fires at its tick, a retry comes when one is awaited, time does
    not pass a scheduled event; a peer that refuses a packet enqueues nothing. *)
Definition enabled (e : Event) (w : World) : Prop :=
  match e with
  | Enqueue pkt at_ => sendable (now w) (pkt, at_)
  | Fire reply => ∃ t, sendEvent (queue w) = Some t ∧ t < MaxTick - 1 ∧ reply_ok t reply
  | Retry reply => waitingOnRetry (queue w) = true ∧ reply_ok (now w) reply
  | Advance t => now w ≤ t < MaxTick - 1 ∧ ∀ e, sendEvent (queue w) = Some e → t ≤ e
  end.

Definition step (w w' : World) : Prop := ∃ e, enabled e w ∧ run e w = Ok w'.

Definition initial (force disable : bool) : World := mkWorld 0 (new force disable) [] [].

(** The packets of [p]'s address, in order. *)
Definition same_addr (p : Pkt) (l : list DeferredPacket) : list DeferredPacket :=
  filter (λ d, matchAddr (d_pkt d) p = true) l.

Record inv (force : bool) (w : World) : Prop := {
  i_now : 0 ≤ now w < MaxTick - 1;
  i_good : good (now w) (queue w);
  i_force : forceOrder (queue w) = force;
  i_all : enqueued w ≡ₚ sent w ++ transmitList (queue w);
  i_order : force = true → ∀ p, same_addr p (enqueued w) = same_addr p (sent w ++ transmitList (queue w));
}.

Lemma inserted_perm force l new l' : inserted force l new l' → l' ≡ₚ l ++ (deferred <$> new).
Proof.
  induction 1 as [l|l1 l2 pkt at_ l new l' -> _ _ IH]; csimpl; [by rewrite app_nil_r|].
  rewrite IH. rewrite <-!(assoc_L (++)). apply Permutation_app_head. simpl.
  unfold deferred at 2. simpl. by rewrite <-Permutation_middle.
Qed.

Lemma matchAddr_trans p q r : matchAddr p r = true → matchAddr q r = true → matchAddr p q = true.
Proof.
  unfold matchAddr. intros [H1%Z.eqb_eq H2%eqb_prop]%andb_true_iff [H3%Z.eqb_eq H4%eqb_prop]%andb_true_iff.
  rewrite H1, H3, H2, H4, Z.eqb_refl. by destruct (pk_secure r).
Qed.

Lemma inserted_order l new l' p :
  inserted true l new l' → same_addr p l' = same_addr p (l ++ (deferred <$> new)).
Proof.
  induction 1 as [l|l1 l2 pkt at_ l new l' -> Hf _ IH]; csimpl; [by rewrite app_nil_r|].
  rewrite IH. unfold same_addr. rewrite !filter_app, !filter_cons, <-!(assoc_L (++)). f_equal.
  unfold deferred at 2 3. simpl. destruct (decide (matchAddr pkt p = true)) as [Hm|]; [|done].
  rewrite (filter_none _ l2); [done|]. eapply Forall_impl; [exact Hf|]. intros x [_ Hx] Hxp.
  specialize (Hx eq_refl). simpl in Hx. by rewrite (matchAddr_trans _ _ _ Hxp Hm) in Hx.
Qed.

Lemma good_later t t' q :
  t ≤ t' → (∀ e, sendEvent q = Some e → t' ≤ e) → good t q → good t' q.
Proof.
  intros Ht He [Hti Htk Hbl Hwk]. split; [|done| |done].
  - unfold timely in *. destruct (sendEvent q) as [e|]; [|done]. specialize (He e eq_refl).
    destruct Hti as (? & ? & d & r & ? & ?). split; [done|]. split; [done|]. exists d, r. split; [done|]. lia.
  - intros Hw. destruct (Hbl Hw) as (d & r & ? & ?). exists d, r. split; [done|]. lia.
Qed.

(** The history when the first packet [d] was offered. *)
Lemma offered_inv force w t reply q' d rest :
  inv force w → transmitList (queue w) = d :: rest → now w ≤ t < MaxTick - 1 → good t q' →
  forceOrder q' = force → (reply.2 = false → reply.1 = []) →
  (if reply.2 then inserted force rest reply.1 (transmitList q') else transmitList q' = d :: rest) →
  inv force (offered w t reply q').
Proof.
  intros [Hn _ Hf Hall Hord] Hl Ht Hg Hf' Hno Hi. destruct reply as [new [|]]; simpl in *.
  - split; simpl; [lia|done|done| |].
    + rewrite Hall, Hl. simpl. rewrite (inserted_perm _ _ _ _ Hi). rewrite <-!(assoc_L (++)). done.
    + intros -> p. unfold same_addr in *. rewrite filter_app, Hord, Hl by done. simpl.
      rewrite <-(assoc_L (++)), !filter_app. cbn [app]. rewrite !filter_cons.
      change (filter _ (transmitList q')) with (same_addr p (transmitList q')).
      rewrite (inserted_order _ _ _ p Hi). unfold same_addr. rewrite filter_app.
      destruct (decide _); rewrite <-?(assoc_L (++)); done.
  - rewrite Hno by done. split; simpl; [lia|done|done| |].
    + by rewrite !app_nil_r, Hi, <-Hl.
    + intros -> p. rewrite !app_nil_r, Hi, <-Hl. auto.
Qed.

Lemma queue_run_inv force e w :
  inv force w → enabled e w → run e w = Err too_big ∨ ∃ w', run e w = Ok w' ∧ inv force w'.
Proof.
  intros Hinv Hen. pose proof Hinv as [Hn [Hti Htk Hbl Hwk] Hf Hall Hord].
  destruct e as [pkt at_|reply|reply|t]; simpl in *.
  - destruct Hen as [Ha Hx]. simpl in *.
    destruct (schedSendTiming_ok (now w) Hn pkt at_ (queue w) Ha Hx Hti Htk Hbl) as
      [[-> _]|(q' & l1 & l2 & -> & Hl & Hl' & Hov & ? & ? & ? & [Hff _] & Hw & Hev)]; [by left|right].
    eexists. split; [reflexivity|]. rewrite Hf in Hov.
    assert (inserted force (transmitList (queue w)) [(pkt, at_)] (transmitList q')) as Hi.
    { econstructor; [done..|]. rewrite Hl'. constructor. }
    split; simpl; [lia| |congruence| |].
    + split; [done..|]. intros _. rewrite Hw. destruct (waitingOnRetry (queue w)) eqn:E; [by left|right].
      apply Hev; [done|]. destruct l1; [by left|right].
      unfold woken in Hwk. rewrite Hl, E in Hwk. by destruct Hwk.
    + rewrite Hall. by rewrite (inserted_perm _ _ _ _ Hi), (assoc_L (++)).
    + intros -> p. unfold same_addr in *. rewrite filter_app, Hord by done. rewrite !filter_app.
      change (filter _ (transmitList q')) with (same_addr p (transmitList q')).
      rewrite (inserted_order _ _ _ p Hi). unfold same_addr. by rewrite filter_app, (assoc_L (++)).
  - destruct Hen as (t & He & Hlt & Hs & Hno). rewrite He. unfold timely in Hti. rewrite He in Hti.
    destruct Hti as (Hw & Hnt & d & rest & Hl & Hd).
    destruct (sendDeferredPacket_ok t ltac:(lia) reply d rest (set_event None (queue w))) as
      [Herr|(q' & Hr & Hg & [Hff _] & Hi)]; [done|lia|done..| |].
    + left. unfold processSendEvent. rewrite (M_bind_ok _ _ _ (set_event None (queue w)) (set_event None (queue w))) by done.
      simpl. rewrite Hw. cbn [negb]. rewrite (M_bind_ok _ _ _ tt (set_event None (queue w))) by done. by rewrite Herr.
    + right. eexists. split.
      * unfold processSendEvent. rewrite (M_bind_ok _ _ _ (set_event None (queue w)) (set_event None (queue w))) by done.
        simpl. rewrite Hw. cbn [negb]. rewrite (M_bind_ok _ _ _ tt (set_event None (queue w))), Hr by done. reflexivity.
      * simpl in *. eapply offered_inv; [done|done|lia|done|congruence|done|]. by rewrite <-Hf.
  - destruct Hen as (Hw & Hs & Hno). destruct (Hbl Hw) as (d & rest & Hl & Hd).
    assert (sendEvent (queue w) = None) as He.
    { unfold timely in Hti. destruct (sendEvent (queue w)); [|done]. destruct Hti; congruence. }
    destruct (sendDeferredPacket_ok (now w) Hn reply d rest (set_waiting false (queue w))) as
      [Herr|(q' & Hr & Hg & [Hff _] & Hi)]; [done..| |];
      unfold PacketQueue.retry; rewrite (M_bind_ok _ _ _ (queue w) (queue w)), Hw by done;
      rewrite (M_bind_ok _ _ _ tt (queue w)), (M_bind_ok _ _ _ tt (set_waiting false (queue w))) by done.
    + left. by rewrite Herr.
    + right. rewrite Hr. eexists. split; [reflexivity|]. simpl in *.
      eapply offered_inv; [done|done|lia|done|congruence|done|]. by rewrite <-Hf.
  - right. destruct Hen as [Ht He]. eexists. split; [reflexivity|]. split; simpl; [lia| |done..].
    by apply (good_later (now w)); [lia|..].
Qed.

Lemma initial_inv force disable : inv force (initial force disable).
Proof. split; simpl; [unfold MaxTick; lia| |done..]. split; [done|by apply Forall_nil|by intros ?|by intros ?]. Qed.

Lemma queue_reachable_inv force disable w : rtc step (initial force disable) w → inv force w.
Proof.
  intros Hr. pose proof (initial_inv force disable) as Hi. induction Hr as [|x y z (e & He & Hr) _ IH]; [done|].
  apply IH. destruct (queue_run_inv force e x Hi He) as [|(y' & Hy & ?)]; congruence.
Qed.

(** C26. A packet queue never fails and never sleeps on a packet: in every
    reachable state no assertion of [schedSendTiming], [processSendEvent] or
    [retry] fails (only the limit of 128 packets can stop it), and while packets
    are queued the queue awaits a retry, or its send event is scheduled no later
    than the first packet's tick (or the next tick, if that is past). *)
Theorem packet_queue_wakes_up force disable w e :
  rtc step (initial force disable) w → enabled e w →
  (run e w = Err too_big ∨ ∃ w', run e w = Ok w') ∧
  match transmitList (queue w) with
  | [] => True
  | d :: _ => waitingOnRetry (queue w) = true ∨
      ∃ t, sendEvent (queue w) = Some t ∧ d_tick d ≤ t ≤ Z.max (d_tick d) (now w + 1)
  end.
Proof.
  intros Hr He. apply queue_reachable_inv in Hr. split.
  - destruct (queue_run_inv _ _ _ Hr He) as [|(w' & ? & _)]; eauto.
  - destruct (i_good _ _ Hr) as [Hti _ _ Hwk]. destruct (transmitList (queue w)) as [|d l] eqn:Hl; [done|].
    destruct Hwk as [?|[t Ht]]; [congruence|by left|right]. exists t. split; [done|].
    unfold timely in Hti. rewrite Ht in Hti. destruct Hti as (_ & _ & d' & r & Hd & ?).
    rewrite Hl in Hd. injection Hd as -> _. done.
Qed.

(** C27. A packet queue delivers what it is given: in every reachable state
    each enqueued packet was either sent once or is still queued, and a queue
    that forces the order has sent the packets of each address in the order in
    which they were enqueued. *)
Theorem packet_queue_delivers force disable w :
  rtc step (initial force disable) w →
  enqueued w ≡ₚ sent w ++ transmitList (queue w) ∧
  (force = true → ∀ p, same_addr p (sent w) `prefix_of` same_addr p (enqueued w)).
Proof.
  intros [_ _ _ Hall Hord]%queue_reachable_inv. split; [done|]. intros Hf p. rewrite (Hord Hf).
  unfold same_addr. rewrite filter_app. by apply prefix_app_r.
Qed.

(** ** An example run *)

(** Two packets of one address; the second is wanted earlier, must not
    overtake, and the first is refused once. *)
Definition example_packet (id addr : Z) : Pkt := mkPkt id addr false false.
Definition example_events : list Event :=
  [Enqueue (example_packet 0 64) 10; Enqueue (example_packet 1 64) 5; Fire ([], false); Retry ([], true)].
Definition play (es : list Event) (w : World) : res World :=
  fold_left (λ r e, w ← r; run e w) es (Ok w).
Definition example_world : World :=
  match play example_events (initial true false) with Ok w => w | Err _ => initial true false end.

Lemma queue_example_reachable : rtc step (initial true false) example_world.
Proof.
  eapply rtc_l; [exists (Enqueue (example_packet 0 64) 10); split; [vm_compute; repeat split; congruence|vm_compute; reflexivity]|].
  eapply rtc_l; [exists (Enqueue (example_packet 1 64) 5); split; [vm_compute; repeat split; congruence|vm_compute; reflexivity]|].
  eapply rtc_l; [exists (Fire ([], false)); split; [|vm_compute; reflexivity]|].
  { exists 10. split; [reflexivity|]. split; [reflexivity|]. split; [apply Forall_nil; exact I|reflexivity]. }
  eapply rtc_l; [exists (Retry ([], true)); split; [|vm_compute; reflexivity]|apply rtc_refl].
  split; [reflexivity|]. split; [apply Forall_nil; exact I|discriminate].
Qed.

Lemma packet_queue_wakes_up_witness :
  (run (Fire ([], true)) example_world = Err too_big ∨ ∃ w', run (Fire ([], true)) example_world = Ok w') ∧
  sendEvent (queue example_world) = Some 11.
Proof.
  split; [|vm_compute; reflexivity].
  apply (packet_queue_wakes_up true false example_world (Fire ([], true)) queue_example_reachable).
  exists 11. split; [vm_compute; reflexivity|]. split; [vm_compute; reflexivity|].
  split; [apply Forall_nil; exact I|discriminate].
Defined.

Lemma packet_queue_delivers_witness :
  (pk_id ∘ d_pkt <$> sent example_world) = [0] ∧
  enqueued example_world ≡ₚ sent example_world ++ transmitList (queue example_world).
Proof.
  split; [vm_compute; reflexivity|]. apply (packet_queue_delivers true false example_world queue_example_reachable).
Defined.
