(* ===== verification/XBar.v ===== *)
(** * The crossbar

    [mem/xbar.hh], [mem/xbar.cc] and the broadcast of [mem/coherent_xbar.cc].
    A layer arbitrates between the ports that send to one destination: it is
    idle, busy, or retrying the first port that waits for it.
    [handleBroadcastToOthers] gives a copy of the response to a broadcast read
    to every other port that leads to a PE or a data cache, telling the snoop
    filter and using the packet queues of the ports. *)
From stdpp Require Import base tactics list gmap strings.
From Stdlib Require Import ZArith Lia String.
From S2P Require Import Prelude MemCmd Clocked PacketQueue SnoopFilter.
Local Open Scope Z_scope.

Module Layer.
Inductive State := IDLE | BUSY | RETRY.

#[export] Instance State_eq_dec : EqDecision State.
Proof. solve_decision. Defined.

(** Ports are numbers; [releaseEvent] is [Some t] when it is scheduled at [t]. *)
Record Layer := mkLayer {
  state : State;
  waitingForLayer : list Z;
  waitingForPeer : option Z;
  releaseEvent : option Z;
  occupancy : Z;
  draining : bool;
  drainDone : Z;
}.

Definition new : Layer := mkLayer IDLE [] None None 0 false 0.

Definition set_state (s : State) (l : Layer) : Layer :=
  mkLayer s (waitingForLayer l) (waitingForPeer l) (releaseEvent l) (occupancy l) (draining l) (drainDone l).
Definition set_waiting (w : list Z) (l : Layer) : Layer :=
  mkLayer (state l) w (waitingForPeer l) (releaseEvent l) (occupancy l) (draining l) (drainDone l).
Definition set_peer (p : option Z) (l : Layer) : Layer :=
  mkLayer (state l) (waitingForLayer l) p (releaseEvent l) (occupancy l) (draining l) (drainDone l).
Definition set_release (e : option Z) (occ : Z) (l : Layer) : Layer :=
  mkLayer (state l) (waitingForLayer l) (waitingForPeer l) e occ (draining l) (drainDone l).
Definition signalDrainDone (l : Layer) : Layer :=
  mkLayer (state l) (waitingForLayer l) (waitingForPeer l) (releaseEvent l) (occupancy l) false (drainDone l + 1).

Section layer.
(** [clockEdge] is the value of [xbar.clockEdge()] at [curTick]. *)
Context (curTick clockEdge : Z).

(** [xbar.schedule] with the assertions of [EventQueue::schedule]. *)
Definition occupyLayer (until : Z) : M Layer unit :=
  l ← gets (λ l, l);
  massert "state == BUSY" (bool_decide (state l = BUSY)) ;;
  massert "until != 0" (negb (until =? 0)) ;;
  massert "when >= getCurTick()" (curTick <=? until) ;;
  massert "!event->scheduled()" (bool_decide (releaseEvent l = None)) ;;
  modify (set_release (Some until) (occupancy l + (until - curTick))).

Definition tryTiming (src_port : Z) : M Layer bool :=
  l ← gets (λ l, l);
  if bool_decide (state l = BUSY) || bool_decide (waitingForPeer l ≠ None) then
    massert "the port should not be waiting already" (bool_decide (src_port ∉ waitingForLayer l)) ;;
    modify (set_waiting (waitingForLayer l ++ [src_port])) ;;
    mret false
  else
    modify (set_state BUSY) ;;
    mret true.

Definition succeededTiming (busy_time : Z) : M Layer unit :=
  l ← gets (λ l, l);
  massert "state == BUSY" (bool_decide (state l = BUSY)) ;;
  occupyLayer busy_time.

Definition failedTiming (src_port busy_time : Z) : M Layer unit :=
  l ← gets (λ l, l);
  massert "waitingForPeer == NULL" (bool_decide (waitingForPeer l = None)) ;;
  modify (set_peer (Some src_port)) ;;
  l ← gets (λ l, l);
  massert "state == BUSY" (bool_decide (state l = BUSY)) ;;
  occupyLayer busy_time.

(** What the port does when it is told to retry. *)
Context (sendRetry : Z → M Layer unit).

Definition retryWaiting : M Layer unit :=
  l ← gets (λ l, l);
  match waitingForLayer l with
  | [] => throw (EAssert "!waitingForLayer.empty()")
  | retryingPort :: rest =>
      massert "state == IDLE" (bool_decide (state l = IDLE)) ;;
      modify (set_state RETRY) ;;
      modify (set_waiting rest) ;;
      sendRetry retryingPort ;;
      l ← gets (λ l, l);
      when (bool_decide (state l = RETRY)) (modify (set_state BUSY) ;; occupyLayer clockEdge)
  end.

Definition releaseLayer : M Layer unit :=
  l ← gets (λ l, l);
  massert "state == BUSY" (bool_decide (state l = BUSY)) ;;
  massert "!releaseEvent.scheduled()" (bool_decide (releaseEvent l = None)) ;;
  modify (set_state IDLE) ;;
  if negb (bool_decide (waitingForLayer l = [])) then
    when (bool_decide (waitingForPeer l = None)) retryWaiting
  else when (bool_decide (waitingForPeer l = None) && draining l) (modify signalDrainDone).

Definition recvRetry : M Layer unit :=
  l ← gets (λ l, l);
  match waitingForPeer l with
  | None => throw (EAssert "waitingForPeer != NULL")
  | Some p =>
      modify (set_waiting (p :: waitingForLayer l)) ;;
      modify (set_peer None) ;;
      if bool_decide (state l = IDLE) then retryWaiting
      else massert "state == BUSY" (bool_decide (state l = BUSY))
  end.
End layer.

(** [drain()]: [true] for [DrainState::Drained]. *)
Definition drain (l : Layer) : bool := bool_decide (state l = IDLE).
End Layer.

Module XBar.
(** A packet as the crossbar sees it. *)
Record Pkt := mkPkt {
  sf : SnoopFilter.Pkt;          (* command, address and request flags *)
  pk_id : Z;
  pk_size : Z;
  headerDelay : Z;               (* uint32_t *)
  payloadDelay : Z;              (* uint32_t *)
  broadcastToOther : bool;
}.

Record Params := mkParams {
  responseLatency : Z;       (* Cycles *)
  width : Z;
  clockPeriod : Z;
  us : Z;                    (* sim_clock::as_int::us *)
  bypassCaches : bool;
  sfConfig : SnoopFilter.Config;
}.

(** A CPU-side port: its id and snooping flag, the name of its peer, and its
    queue of responses. *)
Record CPUSidePort := mkCPUSidePort {
  port : SnoopFilter.Port;
  peer_name : string;
  respQueue : PacketQueue.Queue;
}.

Record XBar := mkXBar {
  clock : Clocked.Clocked;
  snoopFilter : option SnoopFilter.Filter;
  cpuSidePorts : list CPUSidePort;
}.

Section xbar.
Context (P : Params) (curTick : Z).

Definition set_clock (c : Clocked.Clocked) (x : XBar) : XBar := mkXBar c (snoopFilter x) (cpuSidePorts x).
Definition set_filter (f : SnoopFilter.Filter) (x : XBar) : XBar := mkXBar (clock x) (Some f) (cpuSidePorts x).
Definition set_ports (l : list CPUSidePort) (x : XBar) : XBar := mkXBar (clock x) (snoopFilter x) l.
Definition set_delays (h p : Z) (k : Pkt) : Pkt := mkPkt (sf k) (pk_id k) (pk_size k) h p (broadcastToOther k).

(** Returns the packet with its new delays. *)
Definition calcPacketTiming (pkt : Pkt) (header_delay : Z) : M XBar Pkt := λ x,
  r ← Clocked.clockEdge (clockPeriod P) curTick 0 (clock x);
  let x := set_clock r.2 x in
  let offset := u64 (r.1 - curTick) in
  let h := u32 (headerDelay pkt + u64 (offset + header_delay)) in
  if us P <? h then Err (EPanic "Encountered header delay exceeding 1 us") else
  if hasData (SnoopFilter.pk_cmd (sf pkt)) then
    n ← (if width P =? 0 then Err EDivByZero else Ok (u32 (pk_size pkt + width P - 1) / width P));
    Ok (set_delays h (u32 (Z.max (payloadDelay pkt) (u64 (n * clockPeriod P)))) pkt, x)
  else Ok (set_delays h (payloadDelay pkt) pkt, x).

(** The port leads to a PE or to a data cache. *)
Definition takes_broadcast (name : string) : bool :=
  bool_decide (is_Some (String.index 0 "generator" name)) ||
  bool_decide (is_Some (String.index 0 "dcache" name)).

(** [new Packet(pkt, true, true, NULL)]: a copy with the flags cleared. *)
Definition copy_packet (pkt : Pkt) : Pkt :=
  mkPkt (SnoopFilter.mkPkt (SnoopFilter.pk_cmd (sf pkt)) (SnoopFilter.pk_addr (sf pkt))
           (SnoopFilter.pk_secure (sf pkt)) (SnoopFilter.pk_uncacheable (sf pkt))
           (SnoopFilter.pk_maintenance (sf pkt)) (SnoopFilter.pk_broadcast (sf pkt)) false false false)
    (pk_id pkt) (pk_size pkt) (headerDelay pkt) (payloadDelay pkt) false.

(** The packet as a port's queue sees it. *)
Definition queued (pkt : Pkt) : PacketQueue.Pkt :=
  PacketQueue.mkPkt (pk_id pkt) (SnoopFilter.pk_addr (sf pkt)) (SnoopFilter.pk_secure (sf pkt)) false.

(** [cpuSidePorts[k]->schedTimingResp(pkt, when)] *)
Definition schedTimingResp (k : nat) (pkt : Pkt) (at_ : Z) : M XBar unit := λ x,
  p ← of_option EOutOfRange (cpuSidePorts x !! k);
  r ← PacketQueue.schedSendTiming curTick (queued pkt) at_ (respQueue p);
  Ok (tt, set_ports (<[k := mkCPUSidePort (port p) (peer_name p) r.2]> (cpuSidePorts x)) x).

Definition tell_filter (pkt : Pkt) (p : SnoopFilter.Port) : M XBar unit := λ x,
  match snoopFilter x with
  | Some f =>
      if bypassCaches P then Ok (tt, x) else
      r ← SnoopFilter.updateResponse (sfConfig P) (sf pkt) p f; Ok (tt, set_filter r.2 x)
  | None => Ok (tt, x)
  end.

(** The loop over the ports from [k] on. *)
Fixpoint broadcast_loop (pkt : Pkt) (latency src : Z) (n k : nat) : M XBar unit :=
  match n with
  | O => mret tt
  | S n' =>
      (if Z.of_nat k =? src then mret tt else
       p ← (λ x, lift (of_option EOutOfRange (cpuSidePorts x !! k)) x);
       when (takes_broadcast (peer_name p))
         (tell_filter pkt (port p) ;;
          schedTimingResp k (copy_packet pkt) (u64 (curTick + latency)))) ;;
      broadcast_loop pkt latency src n' (S k)
  end.

(** [respLayers] has one layer per CPU-side port.  The packet is deleted at
    the end. *)
Definition handleBroadcastToOthers (pkt : Pkt) (src_cpu_port_id : Z) : M XBar unit :=
  massert "!pkt->needsResponse()" (negb (needsResponse (SnoopFilter.pk_cmd (sf pkt)))) ;;
  let xbar_delay := u64 (responseLatency P * clockPeriod P) in
  pkt ← calcPacketTiming pkt xbar_delay;
  let latency := headerDelay pkt in
  let pkt := set_delays 0 (payloadDelay pkt) pkt in
  x ← gets (λ x, x);
  broadcast_loop pkt latency src_cpu_port_id (List.length (cpuSidePorts x)) 0.
End xbar.
End XBar.
