(* ===== verification/XBarProps.v ===== *)
(** * Crossbar layers lose no retry

    A layer between its ports and its destination, in time: no assertion of the
    flow control fails, and the only ports that wait are those a retry will come
    to. *)
From stdpp Require Import base tactics list gmap strings relations.
From Stdlib Require Import ZArith Lia.
From S2P Require Import Prelude MemCmd Clocked PacketQueue PacketQueueProps SnoopFilter SnoopFilterProps SnoopFilterSpec XBar.
Local Open Scope Z_scope.

Module LayerProps.
Import Layer.

(** ** The ports *)

(** A port that was told to retry: it sends again, and the destination accepts
    the packet or not, occupying the layer until [busy]; or it has nothing to
    send any more. *)
Inductive Reaction := Quiet | Sends (accepted : bool) (busy : Z).

Section ports.
Context (now clockEdge : Z).

(** How the crossbars present a packet to a layer. *)
Definition present (src : Z) (accepted : bool) (busy : Z) : M Layer bool :=
  free ← tryTiming src;
  if free : bool then
    (if accepted then succeededTiming now busy else failedTiming now src busy) ;; mret accepted
  else mret false.

Definition react (r : Reaction) (src : Z) : M Layer unit :=
  match r with
  | Quiet => mret tt
  | Sends accepted busy => present src accepted busy ;; mret tt
  end.

Definition reaction_ok (r : Reaction) : Prop := match r with Quiet => True | Sends _ busy => now < busy end.

(** ** The invariant *)

Record good (l : Layer) : Prop := {
  g_retry : state l ≠ RETRY;
  g_busy : state l = BUSY → ∃ t, releaseEvent l = Some t ∧ now ≤ t ∧ 0 < t;
  g_idle : state l = IDLE → releaseEvent l = None;
  g_nodup : NoDup (waitingForLayer l);
  g_peer : ∀ p, waitingForPeer l = Some p → p ∉ waitingForLayer l;
  g_started : state l = IDLE → waitingForPeer l ≠ None → 0 < now;
  g_waiting : state l = IDLE → waitingForLayer l ≠ [] → waitingForPeer l ≠ None;
}.

Lemma occupyLayer_ok until l :
  state l = BUSY → 0 < until → now ≤ until → releaseEvent l = None →
  occupyLayer now until l = Ok (tt, set_release (Some until) (occupancy l + (until - now)) l).
Proof.
  intros Hs H0 Hn He. unfold occupyLayer.
  exec_M ltac:(first [by apply bool_decide_eq_true|by apply Z.leb_le|apply negb_true_iff, Z.eqb_neq; lia]).
  done.
Qed.

(** A free layer takes a packet; it is busy then, and the sender waits for the
    destination when that refused. *)
Lemma present_free src accepted busy l :
  0 ≤ now → now < busy → state l ≠ BUSY → waitingForPeer l = None → releaseEvent l = None →
  present src accepted busy l =
    Ok (accepted, set_release (Some busy) (occupancy l + (busy - now))
          (set_peer (if accepted then None else Some src) (set_state BUSY l))).
Proof.
  intros H0 Hb Hs Hp He. unfold present.
  rewrite (M_bind_ok _ _ _ true (set_state BUSY l)).
  2:{ unfold tryTiming. rewrite (M_bind_ok _ _ _ l l) by done. rewrite !bool_decide_false by (done || congruence). done. }
  destruct accepted.
  - rewrite (M_bind_ok _ _ _ tt (set_release (Some busy) (occupancy l + (busy - now)) (set_state BUSY l))).
    + by destruct l; simpl in *; subst.
    + unfold succeededTiming. exec_M ltac:(by apply bool_decide_eq_true).
      rewrite occupyLayer_ok by (done || lia). done.
  - erewrite M_bind_ok; [reflexivity|].
    unfold failedTiming. exec_M ltac:(by apply bool_decide_eq_true).
    rewrite occupyLayer_ok by (done || lia). done.
Qed.

(** A layer that is not free puts the port at the end of its list. *)
Lemma present_waits src accepted busy l :
  state l = BUSY ∨ waitingForPeer l ≠ None → src ∉ waitingForLayer l →
  present src accepted busy l = Ok (false, set_waiting (waitingForLayer l ++ [src]) l).
Proof.
  intros Hb Hs. unfold present.
  rewrite (M_bind_ok _ _ _ false (set_waiting (waitingForLayer l ++ [src]) l)); [done|].
  unfold tryTiming. exec_M idtac.
  replace (bool_decide (state l = BUSY) || bool_decide (waitingForPeer l ≠ None)) with true.
  2:{ symmetry. apply orb_true_iff. by destruct Hb; [left|right]; apply bool_decide_eq_true. }
  by exec_M ltac:(by apply bool_decide_eq_true).
Qed.

(** A retry leaves the layer busy, the first waiting port served. *)
Lemma retryWaiting_ok r p rest l :
  0 < now → now ≤ clockEdge → reaction_ok r →
  state l = IDLE → waitingForLayer l = p :: rest → waitingForPeer l = None → releaseEvent l = None →
  NoDup (p :: rest) →
  ∃ l', retryWaiting now clockEdge (react r) l = Ok (tt, l') ∧ good l' ∧ waitingForLayer l' = rest ∧
    (∀ q, waitingForPeer l' = Some q → q = p ∧ ∃ b, r = Sends false b).
Proof.
  intros Hn Hc Hr Hs Hw Hp He Hnd. apply NoDup_cons in Hnd as [Hpr Hnd].
  unfold retryWaiting. rewrite (M_bind_ok _ _ _ l l), Hw by done.
  rewrite bool_decide_true by done. rewrite (M_bind_ok _ _ _ tt l) by done.
  rewrite (M_bind_ok _ _ _ tt (set_state RETRY l)), (M_bind_ok _ _ _ tt (set_waiting rest (set_state RETRY l))) by done.
  set (l1 := set_waiting rest (set_state RETRY l)).
  destruct r as [|accepted busy]; simpl react.
  - rewrite (M_bind_ok _ _ _ tt l1), (M_bind_ok _ _ _ l1 l1) by done.
    rewrite (bool_decide_true (state l1 = RETRY)) by done. unfold when. rewrite (M_bind_ok _ _ _ tt (set_state BUSY l1)) by done.
    rewrite occupyLayer_ok by (done || lia). eexists. split; [reflexivity|]. simpl.
    split; [|split; [done|congruence]]. split; simpl; try done; [eexists; split; [done|lia]|congruence].
  - simpl in Hr. rewrite (M_bind_ok _ _ _ tt (set_release (Some busy) (occupancy l + (busy - now))
      (set_peer (if accepted then None else Some p) (set_state BUSY l1)))).
    2:{ rewrite (M_bind_ok _ _ _ _ _ (present_free p accepted busy l1 ltac:(lia) Hr ltac:(done) Hp He)). done. }
    erewrite M_bind_ok by done. simpl.
    eexists. split; [reflexivity|]. simpl.
    split; [|split; [done|destruct accepted; [done|]; intros q [= <-]; eauto]].
    split; simpl; try done; [eexists; split; [done|lia]|destruct accepted; congruence].
Qed.
End ports.

(** ** Runs *)

Record World := mkWorld { now : Z; layer : Layer }.

Inductive Event :=
  | Present (src : Z) (accepted : bool) (busy : Z)   (* a port sends a packet *)
  | Release (edge : Z) (r : Reaction)                (* releaseEvent is served *)
  | PeerRetry (edge : Z) (r : Reaction)              (* the destination asks for a retry *)
  | Advance (t : Z).                                 (* time passes *)

Definition run (e : Event) (w : World) : res World :=
  match e with
  | Present src accepted busy =>
      r ← present (now w) src accepted busy (layer w); Ok (mkWorld (now w) r.2)
  | Release edge r =>
      match releaseEvent (layer w) with
      | None => Err EBadPointer
      | Some t =>
          x ← releaseLayer t edge (react t r) (set_release None (occupancy (layer w)) (layer w));
          Ok (mkWorld t x.2)
      end
  | PeerRetry edge r =>
      x ← recvRetry (now w) edge (react (now w) r) (layer w); Ok (mkWorld (now w) x.2)
  | Advance t => Ok (mkWorld t (layer w))
  end.

(** The flow control of the ports: a port that was refused sends nothing
    before it gets its retry, a destination asks for a retry only after it
    refused a packet; [edge] is the crossbar's next clock edge. *)
Definition enabled (e : Event) (w : World) : Prop :=
  match e with
  | Present src _ busy =>
      src ∉ waitingForLayer (layer w) ∧ waitingForPeer (layer w) ≠ Some src ∧ now w < busy
  | Release edge r => ∃ t, releaseEvent (layer w) = Some t ∧ t ≤ edge ∧ reaction_ok t r
  | PeerRetry edge r => waitingForPeer (layer w) ≠ None ∧ now w ≤ edge ∧ reaction_ok (now w) r
  | Advance t => now w ≤ t ∧ ∀ e, releaseEvent (layer w) = Some e → t ≤ e
  end.

Definition step (w w' : World) : Prop := ∃ e, enabled e w ∧ run e w = Ok w'.
Definition initial : World := mkWorld 0 new.
Definition inv (w : World) : Prop := 0 ≤ now w ∧ good (now w) (layer w).

Lemma present_good t src accepted busy l :
  0 ≤ t → good t l → src ∉ waitingForLayer l → waitingForPeer l ≠ Some src → t < busy →
  ∃ b l', present t src accepted busy l = Ok (b, l') ∧ good t l'.
Proof.
  intros Ht [Hr Hb Hi Hnd Hp Hst Hw] Hs Hps Hlt.
  destruct (decide (state l = BUSY ∨ waitingForPeer l ≠ None)) as [Hbusy|Hfree].
  - eexists _, _. split; [by apply present_waits|]. split; simpl; try done.
    + apply NoDup_app. split; [done|]. split; [|apply NoDup_singleton].
      intros x Hx ->%list_elem_of_singleton. done.
    + intros p Hpp. rewrite not_elem_of_app, list_elem_of_singleton. split; [by apply Hp|]. congruence.
    + intros Hidle _. destruct Hbusy; [congruence|done].
  - apply Decidable.not_or in Hfree as [Hnb Hnp]. apply dec_stable in Hnp.
    assert (state l = IDLE) as Hidle by (by destruct (state l)).
    eexists _, _. split; [by apply present_free; auto|]. split; simpl; try done.
    + intros _. eexists. split; [done|]. lia.
    + destruct accepted; [done|]. by intros p [= <-].
Qed.

Lemma release_good t edge r l :
  good t l → releaseEvent l = Some t → t ≤ edge → reaction_ok t r →
  ∃ l', releaseLayer t edge (react t r) (set_release None (occupancy l) l) = Ok (tt, l') ∧ good t l'.
Proof.
  intros [Hr Hb Hi Hnd Hp Hst Hw] He Hedge Hre.
  assert (state l = BUSY) as Hs by (destruct (state l); [specialize (Hi eq_refl); congruence|done|done]).
  destruct (Hb Hs) as (t' & Ht' & _ & Hpos). assert (t' = t) as -> by congruence.
  unfold releaseLayer. set (l0 := set_release None (occupancy l) l).
  set (l1 := set_state IDLE l0).
  assert (Hrun : ∃ l', (if negb (bool_decide (waitingForLayer l = [])) then
      when (bool_decide (waitingForPeer l = None)) (retryWaiting t edge (react t r))
    else when (bool_decide (waitingForPeer l = None) && draining l) (modify signalDrainDone)) l1 = Ok (tt, l') ∧ good t l').
  { destruct (waitingForLayer l) as [|p rest] eqn:Hwl.
    - rewrite bool_decide_true by done. cbn [negb]. unfold when.
      destruct (_ && _); eexists; (split; [reflexivity|]);
        split; simpl; rewrite ?Hwl; try done; constructor.
    - rewrite bool_decide_false by done. cbn [negb]. unfold when.
      destruct (waitingForPeer l) as [q|] eqn:Hq.
      + rewrite bool_decide_false by done. eexists. split; [reflexivity|].
        split; simpl; rewrite ?Hwl, ?Hq; try done.
      + rewrite bool_decide_true by done.
        destruct (retryWaiting_ok t edge r p rest l1) as (l' & Hr' & Hg & _); eauto. }
  destruct Hrun as (l' & Hrun & Hg). exists l'. split; [|done].
  by exec_M ltac:(by apply bool_decide_eq_true).
Qed.

Lemma peer_retry_good t edge r l :
  0 ≤ t → good t l → waitingForPeer l ≠ None → t ≤ edge → reaction_ok t r →
  ∃ l', recvRetry t edge (react t r) l = Ok (tt, l') ∧ good t l'.
Proof.
  intros Ht [Hr Hb Hi Hnd Hp Hst Hw] Hpeer Hedge Hre.
  destruct (waitingForPeer l) as [p|] eqn:Hq; [|done]. specialize (Hp p eq_refl).
  unfold recvRetry. set (l1 := set_peer None (set_waiting (p :: waitingForLayer l) l)).
  destruct (state l) eqn:Hs; [| |done].
  - destruct (retryWaiting_ok t edge r p (waitingForLayer l) l1) as (l' & Hr' & Hg & _);
      [by auto|done|done|done|done|done|by apply Hi|by constructor|].
    exists l'. split; [|done]. exec_M idtac. rewrite Hq. exec_M idtac. rewrite Hs. exact Hr'.
  - exists l1. split; [exec_M idtac; rewrite Hq; exec_M idtac; rewrite Hs; done|].
    split; simpl; rewrite ?Hs; try done. by constructor.
Qed.

Lemma layer_run_inv e w : inv w → enabled e w → ∃ w', run e w = Ok w' ∧ inv w'.
Proof.
  intros [H0 Hg] He. destruct e as [src acc busy|edge r|edge r|t]; simpl in *.
  - destruct He as (? & ? & ?). destruct (present_good (now w) src acc busy (layer w)) as (b & l' & -> & Hg'); try done.
    eexists. split; [reflexivity|]. done.
  - destruct He as (t & Ht & ? & ?). rewrite Ht.
    assert (good t (layer w) ∧ 0 ≤ t) as [Hgt Ht0].
    { destruct Hg as [Hr Hb Hi Hnd Hp Hst Hw].
      assert (state (layer w) = BUSY) as Hs by (destruct (state (layer w)); [specialize (Hi eq_refl); congruence|done|done]).
      destruct (Hb Hs) as (t' & Ht' & ? & ?). assert (t' = t) as -> by congruence. split; [|lia].
      split; try done; try congruence. intros _. exists t. split; [done|]. lia. }
    destruct (release_good t edge r (layer w)) as (l' & -> & Hg'); try done.
    eexists. split; [reflexivity|]. done.
  - destruct He as (? & ? & ?). destruct (peer_retry_good (now w) edge r (layer w)) as (l' & -> & Hg'); try done.
    eexists. split; [reflexivity|]. done.
  - destruct He as [Ht He]. eexists. split; [reflexivity|]. split; simpl; [lia|].
    destruct Hg as [Hr Hb Hi Hnd Hp Hst Hw]. split; try done.
    + intros Hs. destruct (Hb Hs) as (t' & Ht' & ? & ?). specialize (He t' Ht'). exists t'. split; [done|]. lia.
    + intros Hs Hpe. specialize (Hst Hs Hpe). lia.
Qed.

Lemma layer_reachable_inv w : rtc step initial w → inv w.
Proof.
  assert (inv initial) as Hi.
  { split; [done|]. split; simpl; try done. constructor. }
  intros Hr. induction Hr as [|x y z (e & He & Hr) _ IH]; [done|].
  apply IH. destruct (layer_run_inv e x Hi He) as (y' & Hy & ?). congruence.
Qed.

(** C28. A crossbar layer never fails and never forgets a port: in every
    reachable state no assertion of [tryTiming], [succeededTiming],
    [failedTiming], [releaseLayer] or [recvRetry] fails; a busy layer has its
    release scheduled; an idle layer has no port waiting unless it waits for the
    destination's retry; no port waits twice. *)
Theorem layer_never_forgets w e :
  rtc step initial w → enabled e w →
  (∃ w', run e w = Ok w') ∧
  (state (layer w) = IDLE ∨ state (layer w) = BUSY ∧ ∃ t, releaseEvent (layer w) = Some t ∧ now w ≤ t) ∧
  (state (layer w) = IDLE → waitingForPeer (layer w) = None → waitingForLayer (layer w) = []) ∧
  NoDup (option_list (waitingForPeer (layer w)) ++ waitingForLayer (layer w)).
Proof.
  intros Hr He. apply layer_reachable_inv in Hr. split.
  { destruct (layer_run_inv e w Hr He) as (w' & ? & _). eauto. }
  destruct Hr as [_ [Hr Hb Hi Hnd Hp Hst Hw]]. split_and!.
  - destruct (state (layer w)); [by left| |done]. right. split; [done|].
    destruct Hb as (t & ? & ? & ?); eauto.
  - intros Hs Hpe. destruct (waitingForLayer (layer w)); [done|]. by destruct (Hw Hs).
  - destruct (waitingForPeer (layer w)); simpl; [|done]. constructor; [by apply Hp|done].
Qed.

(** Port 1 takes the layer, port 2 has to wait, the layer is released. *)
Definition example_world : World :=
  mkWorld 0 (mkLayer BUSY [2] None (Some 1000) 1000 false 0).

Lemma layer_never_forgets_witness :
  (∃ w', run (Release 1000 (Sends true 2000)) example_world = Ok w') ∧ state (layer example_world) = BUSY.
Proof.
  split; [|reflexivity].
  apply (layer_never_forgets example_world (Release 1000 (Sends true 2000))).
  - eapply rtc_l; [exists (Present 1 true 1000); split; [|vm_compute; reflexivity]|].
    { split; [apply not_elem_of_nil|]. split; [discriminate|reflexivity]. }
    eapply rtc_l; [exists (Present 2 true 1000); split; [|vm_compute; reflexivity]|apply rtc_refl].
    split; [apply not_elem_of_nil|]. split; [discriminate|reflexivity].
  - exists 1000. split; [reflexivity|]. split; [apply Z.le_refl|reflexivity].
Defined.
End LayerProps.
