(* ===== verification/XBarBcast.v ===== *)
(** * A broadcast response reaches every other PE

    [CoherentXBar::handleBroadcastToOthers]: no port is left out, none gets two
    copies, the requester gets none, and the snoop filter accepts the responses
    to ports that did not ask. *)
From stdpp Require Import base tactics list gmap strings relations.
From Stdlib Require Import ZArith Lia.
From S2P Require Import Prelude MemCmd Clocked PacketQueue PacketQueueProps SnoopFilter SnoopFilterProps SnoopFilterSpec XBar.
Import XBar.
Local Open Scope Z_scope.

Section broadcast.
Context (P : Params) (now : Z) (fports : list SnoopFilter.Port).
Context (now_ok : 0 ≤ now < MaxTick - 1).
Context (filter_configured : configured fports (sfConfig P)).

(** The queue of a port can take a packet. *)
Definition can_queue (q : PacketQueue.Queue) : Prop :=
  timely now q ∧ ticks_ok q ∧ blocked_ready now q ∧
  (PacketQueue.disableSanityCheck q = true ∨ PacketQueue.size q ≤ 128).

(** The snoop filter knows the ports and has no empty entry. *)
Definition filter_ok (x : XBar) : Prop :=
  Forall (λ p, port p ∈ fports) (cpuSidePorts x) ∧
  match snoopFilter x with None => True | Some f => no_null f end.

Definition receives (src : Z) (k : nat) (p : CPUSidePort) : bool :=
  negb (Z.of_nat k =? src) && takes_broadcast (peer_name p).

(** Port [p'] is [p] with [pkt] queued for tick [at_], behind what it may not
    overtake. *)
Definition got (pkt : Pkt) (at_ : Z) (p p' : CPUSidePort) : Prop :=
  port p' = port p ∧ peer_name p' = peer_name p ∧
  inserted (PacketQueue.forceOrder (respQueue p)) (PacketQueue.transmitList (respQueue p))
    [(queued pkt, at_)] (PacketQueue.transmitList (respQueue p')).

Lemma tell_filter_ok pkt p x :
  isResponse (SnoopFilter.pk_cmd (sf pkt)) = true → SnoopFilter.pk_broadcast (sf pkt) = true →
  filter_ok x → p ∈ fports →
  ∃ x', tell_filter P pkt p x = Ok (tt, x') ∧ filter_ok x' ∧ cpuSidePorts x' = cpuSidePorts x.
Proof using filter_configured.
  intros Hr Hb [Hp Hf] Hin. unfold tell_filter. destruct (snoopFilter x) as [f|] eqn:E.
  - destruct (bypassCaches P).
    { exists x. split; [done|]. split; [|done]. split; [done|]. by rewrite E. }
    destruct (updateResponse_broadcast fports (sfConfig P) (sf pkt) p f) as (f' & -> & Hn); [done..|].
    eexists. split; [reflexivity|]. done.
  - exists x. split; [done|]. split; [|done]. split; [done|]. by rewrite E.
Qed.

Lemma schedTimingResp_ok k pkt at_ p x :
  now ≤ at_ < MaxTick → cpuSidePorts x !! k = Some p → can_queue (respQueue p) → filter_ok x →
  ∃ x' p', schedTimingResp now k pkt at_ x = Ok (tt, x') ∧ filter_ok x' ∧ got pkt at_ p p' ∧
    cpuSidePorts x' = <[k := p']> (cpuSidePorts x).
Proof using now_ok.
  intros Ha Hk (Hti & Htk & Hbl & Hsz) [Hp Hf]. unfold schedTimingResp. rewrite Hk. cbn [of_option mbind res_bind].
  destruct (schedSendTiming_ok now now_ok (queued pkt) at_ (respQueue p)) as
    [(_ & ? & ?)|(q' & l1 & l2 & -> & Hl & Hl' & Hov & _)]; [done..| |].
  { destruct Hsz; [congruence|lia]. }
  eexists _, _. split; [reflexivity|]. split_and!; simpl; try done.
  - split; [|done]. apply Forall_insert; [done|]. simpl. by eapply (Forall_lookup_1 _ _ _ _ Hp Hk).
  - split; [done|]. split; [done|]. econstructor; [exact Hl|exact Hov|]. simpl. rewrite Hl'. constructor.
Qed.

Lemma broadcast_loop_ok pkt latency src : ∀ n k x,
  isResponse (SnoopFilter.pk_cmd (sf pkt)) = true → SnoopFilter.pk_broadcast (sf pkt) = true →
  0 ≤ latency → now + latency < MaxTick →
  (k + n)%nat = length (cpuSidePorts x) → filter_ok x →
  (∀ j p, (k ≤ j)%nat → cpuSidePorts x !! j = Some p → receives src j p = true → can_queue (respQueue p)) →
  ∃ x', broadcast_loop P now pkt latency src n k x = Ok (tt, x') ∧
    length (cpuSidePorts x') = length (cpuSidePorts x) ∧
    ∀ j p, cpuSidePorts x !! j = Some p → ∃ p', cpuSidePorts x' !! j = Some p' ∧
      if bool_decide (k ≤ j)%nat && receives src j p then got (copy_packet pkt) (now + latency) p p' else p' = p.
Proof using now_ok filter_configured.
  induction n as [|n IH]; intros k x Hr Hb H0 Hmax Hlen Hf Hq.
  { exists x. split; [done|]. split; [done|]. intros j p Hj. exists p. split; [done|].
    rewrite bool_decide_false; [done|]. apply lookup_lt_Some in Hj. lia. }
  destruct (lookup_lt_is_Some_2 (cpuSidePorts x) k) as [p Hk]; [lia|]. cbn [broadcast_loop].
  assert (Hone : ∃ x1 p1, (if Z.of_nat k =? src then mret tt else
       p ← (λ x, lift (of_option EOutOfRange (cpuSidePorts x !! k)) x);
       when (takes_broadcast (peer_name p))
         (tell_filter P pkt (port p) ;; schedTimingResp now k (copy_packet pkt) (u64 (now + latency)))) x = Ok (tt, x1) ∧
      filter_ok x1 ∧ cpuSidePorts x1 = <[k := p1]> (cpuSidePorts x) ∧
      if receives src k p then got (copy_packet pkt) (now + latency) p p1 else p1 = p).
  { specialize (Hq k p ltac:(lia) Hk). unfold receives in *. destruct (Z.of_nat k =? src).
    { exists x, p. by rewrite list_insert_id. }
    rewrite (M_bind_ok _ _ _ p x) by (by rewrite Hk). unfold when. cbn [negb andb] in *.
    destruct (takes_broadcast (peer_name p)).
    2:{ exists x, p. by rewrite list_insert_id. }
    destruct (tell_filter_ok pkt (port p) x) as (x1 & Hr1 & Hf1 & Hp1); [done..| |].
    { destruct Hf as [Hall _]. by apply (Forall_lookup_1 _ _ _ _ Hall Hk). }
    rewrite (M_bind_ok _ _ _ _ _ Hr1). rewrite u64_small by (unfold MaxTick in *; lia).
    destruct (schedTimingResp_ok k (copy_packet pkt) (now + latency) p x1) as (x2 & p2 & Hr2 & Hf2 & Hg2 & Hp2);
      [lia|by rewrite Hp1|by apply Hq|done|].
    exists x2, p2. by rewrite Hp2, Hp1. }
  destruct Hone as (x1 & p1 & Hr1 & Hf1 & Hp1 & Hg1). rewrite (M_bind_ok _ _ _ _ _ Hr1).
  destruct (IH (S k) x1) as (x' & Hr' & Hl' & Hall); [done..|rewrite Hp1, length_insert; lia|done| |].
  { intros j q Hj Hjq Hrec. rewrite Hp1, list_lookup_insert_ne in Hjq by lia. by apply (Hq j); [lia|..]. }
  exists x'. split; [done|]. split; [by rewrite Hl', Hp1, length_insert|].
  intros j q Hjq. destruct (decide (j = k)) as [->|Hne].
  - assert (q = p) as -> by congruence. destruct (Hall k p1) as (p' & Hp' & He).
    { rewrite Hp1. apply list_lookup_insert_eq. by eapply lookup_lt_Some. }
    rewrite bool_decide_false in He by lia. cbn [andb] in He. subst p'. exists p1. split; [done|].
    by rewrite bool_decide_true by lia.
  - destruct (Hall j q) as (p' & Hp' & He); [by rewrite Hp1, list_lookup_insert_ne|].
    exists p'. split; [done|]. destruct (decide (S k ≤ j)%nat).
    + rewrite bool_decide_true in He by done. by rewrite bool_decide_true by lia.
    + rewrite bool_decide_false in He by done. by rewrite bool_decide_false by lia.
Qed.
End broadcast.

(** ** The delay through the crossbar *)

(** The header delay of a response: what it had, up to the next clock edge,
    and the response latency. *)
Definition response_delay (P : Params) (now : Z) (pkt : Pkt) : Z :=
  headerDelay pkt + (clockPeriod P * edge (clockPeriod P) now - now) + responseLatency P * clockPeriod P.

Lemma calcPacketTiming_ok P now t0 pkt x :
  0 < clockPeriod P → 0 < width P → 0 ≤ responseLatency P → 0 ≤ headerDelay pkt →
  0 ≤ t0 ≤ now → now + 2 * clockPeriod P ≤ 2 ^ 64 → caught_up (clockPeriod P) t0 (clock x) →
  response_delay P now pkt ≤ us P < 2 ^ 32 →
  ∃ pay x', calcPacketTiming P now pkt (u64 (responseLatency P * clockPeriod P)) x =
      Ok (set_delays (response_delay P now pkt) pay pkt, x') ∧
    snoopFilter x' = snoopFilter x ∧ cpuSidePorts x' = cpuSidePorts x ∧
    caught_up (clockPeriod P) now (clock x').
Proof.
  intros Hp Hw Hrl Hh Ht Hb Hc Hus. set (p := clockPeriod P) in *.
  destruct (update_caught_up p Hp t0 now (clock x)) as (c' & Hu & Hc'); [done..|].
  pose proof (edge_spec p now Hp) as He. pose proof (edge_nonneg p Hp now ltac:(lia)).
  unfold response_delay in *. fold p in Hus |- *.
  assert (0 ≤ responseLatency P * p) by nia.
  unfold calcPacketTiming. fold p. unfold Clocked.clockEdge. rewrite Hu. cbn [mbind res_bind fst snd].
  assert (Clocked.tick c' = p * edge p now) as -> by apply Hc'.
  rewrite Z.mul_0_r, Z.add_0_r.
  rewrite (u64_small (p * edge p now)), (u64_small (p * edge p now - now)),
    (u64_small (responseLatency P * p)) by lia.
  rewrite (u64_small (_ + responseLatency P * p)) by lia.
  rewrite (u32_small (headerDelay pkt + _)) by lia.
  rewrite Z.add_assoc, (proj2 (Z.ltb_ge _ _)) by lia.
  destruct (hasData _).
  - rewrite (proj2 (Z.eqb_neq _ _)) by lia. cbn [mbind res_bind]. eexists _, _. done.
  - eexists _, _. done.
Qed.

(** C20. A broadcast response reaches every other PE exactly once:
    [handleBroadcastToOthers] succeeds, and afterwards the response queue of
    every CPU-side port other than the requester's whose peer is a generator or
    a data cache holds one more packet, the copy, to be sent after the crossbar's
    response delay and behind nothing it should precede; every other queue is
    unchanged.  The snoop filter accepts all these responses although the ports
    have no request in flight. *)
Theorem broadcast_reaches_others P now fports pkt src t0 x :
  0 < clockPeriod P → 0 < width P → 0 ≤ responseLatency P → 0 ≤ headerDelay pkt →
  0 ≤ t0 ≤ now → now + 2 * clockPeriod P ≤ 2 ^ 64 → now < MaxTick - 1 →
  caught_up (clockPeriod P) t0 (clock x) →
  response_delay P now pkt ≤ us P < 2 ^ 32 → now + response_delay P now pkt < MaxTick →
  configured fports (sfConfig P) → filter_ok fports x →
  isResponse (SnoopFilter.pk_cmd (sf pkt)) = true → needsResponse (SnoopFilter.pk_cmd (sf pkt)) = false →
  SnoopFilter.pk_broadcast (sf pkt) = true →
  (∀ j p, cpuSidePorts x !! j = Some p → receives src j p = true → can_queue now (respQueue p)) →
  ∃ x', handleBroadcastToOthers P now pkt src x = Ok (tt, x') ∧
    length (cpuSidePorts x') = length (cpuSidePorts x) ∧
    ∀ j p, cpuSidePorts x !! j = Some p → ∃ p', cpuSidePorts x' !! j = Some p' ∧
      if receives src j p
      then ∃ pay, got (copy_packet (set_delays 0 pay pkt)) (now + response_delay P now pkt) p p'
      else p' = p.
Proof.
  intros Hp Hw Hrl Hh Ht Hb Hn Hc Hus Hmax Hconf Hf Hresp Hneeds Hbc Hq.
  pose proof (edge_spec (clockPeriod P) now Hp).
  assert (0 ≤ response_delay P now pkt) by (unfold response_delay; nia).
  destruct (calcPacketTiming_ok P now t0 pkt x) as (pay & x1 & Hr1 & Hf1 & Hp1 & _); [done..|].
  destruct (broadcast_loop_ok P now fports ltac:(lia) Hconf (set_delays 0 pay pkt) (response_delay P now pkt) src
    (length (cpuSidePorts x)) 0 x1) as (x' & Hr' & Hl' & Hall); [done|done|done|done|by rewrite Hp1| |by rewrite Hp1; eauto|].
  { unfold filter_ok. by rewrite Hf1, Hp1. }
  exists x'. split.
  - unfold handleBroadcastToOthers. exec_M ltac:(by rewrite Hneeds). rewrite (M_bind_ok _ _ _ _ _ Hr1).
    exec_M idtac. rewrite Hp1. exact Hr'.
  - rewrite <-Hp1. split; [done|]. intros j p Hj. destruct (Hall j p Hj) as (p' & Hp' & Hg). exists p'. split; [done|].
    rewrite bool_decide_true in Hg by lia. cbn [andb] in Hg. destruct (receives src j p); eauto.
Qed.

(** ** An example *)

#[local] Existing Instance SnoopFilter.Port_eq_dec.

(** Four ports: two PEs, a data cache and an instruction cache; the first PE
    asked. *)
Definition example_port (p : SnoopFilter.Port) (name : string) : CPUSidePort :=
  mkCPUSidePort p name (PacketQueue.new false false).
Definition example_xbar : XBar :=
  mkXBar Clocked.new (Some SnoopFilter.new)
    [example_port (SnoopFilter.mkPort 0 true) "system.generator0.port";
     example_port (SnoopFilter.mkPort 1 true) "system.generator1.port";
     example_port (SnoopFilter.mkPort 2 false) "system.cpu.icache.mem_side";
     example_port (SnoopFilter.mkPort 3 true) "system.cpu.dcache.mem_side"].
Definition example_params : Params := mkParams 2 16 500 1000000 false example_config.
Definition example_response : Pkt :=
  mkPkt (SnoopFilter.mkPkt ReadResp 4096 false false false true false false false) 7 64 0 0 true.

Lemma broadcast_reaches_others_witness : ∃ x',
  handleBroadcastToOthers example_params 700 example_response 0 example_xbar = Ok (tt, x') ∧
  length (cpuSidePorts x') = 4%nat.
Proof.
  destruct (broadcast_reaches_others example_params 700 example_ports example_response 0 0 example_xbar)
    as (x' & Hr & Hl & _).
  - reflexivity.
  - reflexivity.
  - discriminate.
  - discriminate.
  - split; discriminate.
  - discriminate.
  - reflexivity.
  - split; reflexivity.
  - split; [discriminate|reflexivity].
  - reflexivity.
  - apply (setCPUSidePorts_configured example_ports 64 1 65536); apply (bool_decide_unpack _) || reflexivity; vm_compute; exact I.
  - split; [|apply map_Forall_empty].
    apply (bool_decide_unpack _). vm_compute. exact I.
  - reflexivity.
  - reflexivity.
  - reflexivity.
  - intros j p Hj _. assert (respQueue p = PacketQueue.new false false) as ->.
    { do 4 (destruct j as [|j]; [injection Hj as <-; reflexivity|]). discriminate Hj. }
    split; [exact I|]. split; [apply Forall_nil; exact I|]. split; [discriminate|]. right. discriminate.
  - exists x'. split; [exact Hr|exact Hl].
Defined.
