(* ===== verification/ConfigProps.v ===== *)
(** * The configuration is read as it is written

    The format of the configuration files, as a printer of abstract layers to
    JSON values, and the proof that [preprocessing] reads such a file back:
    every layer, its attributes, and its tensors with the addresses and sizes
    that separate attributes give them. *)
From stdpp Require Import base tactics list gmap strings pretty.
From Stdlib Require Import ZArith Lia.
From S2P Require Import Prelude Json Graph Workload TrafficGen JsonParser Top.
Local Open Scope Z_scope.

(** ** Abstract configurations *)

Record tensor_spec := mkTensorSpec {
  ts_name : string; ts_shape : list Z; ts_elem : Z; ts_addr : Z; ts_size : Z;
}.
Record attr_spec := mkAttrSpec { as_name : string; as_type : Z; as_ints : list Z }.
Record layer_spec := mkLayerSpec {
  ls_name : string; ls_id : Z; ls_op : string;
  ls_attrs : list attr_spec; ls_inputs : list tensor_spec; ls_output : tensor_spec;
}.

(** The file: tensors have their address and size in an attribute of their
    name. *)
Definition print_ints (l : list Z) : json := JArray (JUInt <$> l).
Definition print_tensor (t : tensor_spec) : json :=
  JObject [("name", JString (ts_name t));
           ("type", JObject [("elem_type", JUInt (ts_elem t)); ("shape", print_ints (ts_shape t))])].
Definition print_attr (a : attr_spec) : json :=
  JObject [("ints", print_ints (as_ints a)); ("name", JString (as_name a)); ("type", JUInt (as_type a))].
Definition address_attr (t : tensor_spec) : attr_spec := mkAttrSpec (ts_name t) 7 [ts_addr t; ts_size t].
Definition all_attrs (l : layer_spec) : list attr_spec :=
  (address_attr <$> ls_inputs l) ++ address_attr (ls_output l) :: ls_attrs l.
Definition print_layer (l : layer_spec) : json :=
  JObject [("attribute", JArray (print_attr <$> all_attrs l));
           ("id", JUInt (ls_id l));
           ("input_tensor", JArray (print_tensor <$> ls_inputs l));
           ("name", JString (ls_name l));
           ("op_type", JString (ls_op l));
           ("output_tensor", print_tensor (ls_output l))].

(** What the program makes of it. *)
Definition fresh_tensor (t : tensor_spec) : Tensor :=
  Tensor_new (ts_name t) (ts_shape t) (DataType_of_int (ts_elem t)).
Definition full_tensor (t : tensor_spec) : Tensor :=
  set_original_size (ts_size t) (set_address (ts_addr t) (fresh_tensor t)).
Definition kept (name : string) : bool :=
  bool_decide (name = "kernel_shape") || bool_decide (name = "pads") || bool_decide (name = "strides").
Definition node_attr (a : attr_spec) : NodeAttribute :=
  mkNodeAttribute (as_name a) (DataType_of_int (as_type a)) (if kept (as_name a) then as_ints a else []).

(** ** Well-formed configurations *)

Definition int_ok (z : Z) : Prop := 0 ≤ z < 2 ^ 31.
Record tensor_ok (t : tensor_spec) : Prop := {
  to_shape : Forall int_ok (ts_shape t);
  to_elem : int_ok (ts_elem t);
  to_addr : 0 ≤ ts_addr t < 2 ^ 64;
  to_size : 0 ≤ ts_size t < 2 ^ 64;
  to_named : kept (ts_name t) = false;
}.
Record layer_ok (l : layer_spec) : Prop := {
  lo_id : int_ok (ls_id l);
  lo_attrs : Forall (λ a, int_ok (as_type a) ∧ Forall int_ok (as_ints a)) (ls_attrs l);
  lo_inputs : Forall tensor_ok (ls_inputs l);
  lo_output : tensor_ok (ls_output l);
  lo_names : NoDup ((ts_name <$> ls_inputs l) ++ [ts_name (ls_output l)]);
  lo_fresh : Forall (λ a, as_name a ∉ (ts_name <$> ls_inputs l) ++ [ts_name (ls_output l)]) (ls_attrs l);
}.

(** ** Reading values *)

Lemma get_int_ok z : int_ok z → get_int (JUInt z) = Ok z.
Proof. intros H. simpl. rewrite to_i32_small; [done|]. unfold int_ok in H. lia. Qed.

Lemma get_ints_ok l : Forall int_ok l → get_ints (json_elems (print_ints l)) = Ok l.
Proof.
  intros H. unfold print_ints. simpl. induction H as [|z l Hz _ IH]; [done|]. csimpl.
  rewrite to_i32_small by (unfold int_ok in Hz; lia). csimpl. by rewrite IH.
Qed.

Lemma attr_ints_ok a : (kept (as_name a) = true → Forall int_ok (as_ints a)) →
  attr_ints (print_attr a) (JString (as_name a)) = Ok (if kept (as_name a) then as_ints a else []).
Proof.
  intros H. unfold attr_ints. change (keeps_ints (JString (as_name a))) with (kept (as_name a)).
  destruct (kept (as_name a)); [|done]. simpl. by apply get_ints_ok, H.
Qed.

Lemma first_pass_ok a : (kept (as_name a) = true → Forall int_ok (as_ints a)) → first_pass (print_attr a) = Ok tt.
Proof. intros H. unfold first_pass. simpl. by rewrite attr_ints_ok. Qed.

(** ** Tensors in the heap *)

Fixpoint locs (p : loc) (n : nat) : list loc :=
  match n with O => [] | S n => p :: locs (Pos.succ p) n end.

(** The locations [ps] hold the tensors [ts]. *)
Definition holds (h : heap) (ps : list loc) (ts : list Tensor) : Prop := Forall2 (λ p t, h !! p = Some t) ps ts.

Lemma locs_ge p n q : q ∈ locs p n → (p ≤ q)%positive.
Proof. revert p. induction n as [|n IH]; intros p; simpl; [set_solver|]. intros [->|H]%elem_of_cons; [lia|]. apply IH in H. lia. Qed.

Lemma locs_nodup p n : NoDup (locs p n).
Proof.
  revert p. induction n as [|n IH]; intros p; simpl; constructor; [|apply IH]. intros H%locs_ge. lia.
Qed.

Lemma parse_tensor_ok t s :
  tensor_ok t →
  parse_tensor (print_tensor t) s =
    Ok ((ts_name t, p_next s), mkP (<[p_next s := fresh_tensor t]> (p_heap s)) (Pos.succ (p_next s))).
Proof.
  intros [Hs He _ _ _]. unfold parse_tensor. cbn [print_tensor json_at assoc].
  rewrite (M_bind_ok _ _ _ (JObject [("elem_type", JUInt (ts_elem t)); ("shape", print_ints (ts_shape t))]) s) by done.
  rewrite (M_bind_ok _ _ _ (print_ints (ts_shape t)) s) by done.
  rewrite (M_bind_ok _ _ _ (ts_shape t) s) by (apply lift_ok; by apply get_ints_ok).
  rewrite (M_bind_ok _ _ _ (ts_name t) s) by done. rewrite (M_bind_ok _ _ _ (JUInt (ts_elem t)) s) by done.
  rewrite (M_bind_ok _ _ _ (ts_elem t) s) by (apply lift_ok; by apply get_int_ok).
  by erewrite M_bind_ok by done.
Qed.

Lemma holds_insert h ps ts p t : p ∉ ps → holds h ps ts → holds (<[p := t]> h) ps ts.
Proof.
  intros Hp H. unfold holds in *. induction H as [|q u ps ts Hq _ IH]; constructor.
  - rewrite lookup_insert_ne; [done|]. set_solver.
  - apply IH. set_solver.
Qed.

Lemma parse_tensors_ok ts : ∀ s,
  Forall tensor_ok ts →
  ∃ h, parse_tensors (print_tensor <$> ts) s =
      Ok (zip (ts_name <$> ts) (locs (p_next s) (length ts)), mkP h (foldl (λ p _, Pos.succ p) (p_next s) ts)) ∧
    holds h (locs (p_next s) (length ts)) (fresh_tensor <$> ts) ∧
    (∀ q, (q < p_next s)%positive → h !! q = p_heap s !! q).
Proof.
  induction ts as [|t ts IH]; intros s Hok.
  { exists (p_heap s). split; [by destruct s|]. split; [constructor|done]. }
  apply Forall_cons in Hok as [Ht Hts]. csimpl.
  destruct (IH (mkP (<[p_next s := fresh_tensor t]> (p_heap s)) (Pos.succ (p_next s))) Hts) as (h & Hr & Hh & Hlow).
  simpl in *. exists h. rewrite (M_bind_ok _ _ _ _ _ (parse_tensor_ok t s Ht)), (M_bind_ok _ _ _ _ _ Hr).
  split; [done|]. split.
  - constructor; [|done]. rewrite Hlow by lia. by rewrite lookup_insert_eq.
  - intros q Hq. rewrite Hlow by lia. rewrite lookup_insert_ne by lia. done.
Qed.

(** ** Addresses *)

(** What an attribute does to a tensor. *)
Definition addressed (t : tensor_spec) (u : Tensor) : Tensor :=
  if bool_decide (t_name u = ts_name t) then set_original_size (ts_size t) (set_address (ts_addr t) u) else u.

Lemma set_addresses_ok t ps : ∀ us s,
  tensor_ok t → NoDup ps → holds (p_heap s) ps us →
  ∃ h, set_addresses (print_attr (address_attr t)) (ts_name t) ps s = Ok (tt, mkP h (p_next s)) ∧
    holds h ps (addressed t <$> us) ∧ ∀ q, q ∉ ps → h !! q = p_heap s !! q.
Proof.
  induction ps as [|p ps IH]; intros us s Ht Hnd Hh.
  { apply Forall2_nil_inv_l in Hh as ->. exists (p_heap s). split; [by destruct s|]. split; [constructor|done]. }
  apply Forall2_cons_inv_l in Hh as (u & us' & Hu & Hus & ->). apply NoDup_cons in Hnd as [Hp Hnd].
  unfold set_addresses. cbn [for_each]. fold (set_addresses (print_attr (address_attr t)) (ts_name t) ps).
  assert (Hone : (t0 ← p_tensor p;
    when (bool_decide (t_name t0 = ts_name t))
      (ints ← lift (json_at (print_attr (address_attr t)) "ints");
       a ← lift (json_idx ints 0); a ← lift (get_u64 a);
       t0 ← p_tensor p; p_put p (set_address a t0) ;;
       z ← lift (json_idx ints 1); z ← lift (get_u64 z);
       t0 ← p_tensor p; p_put p (set_original_size z t0))) s =
    Ok (tt, mkP (<[p := addressed t u]> (p_heap s)) (p_next s))).
  { rewrite (M_bind_ok _ _ _ u s) by (unfold p_tensor, deref; by rewrite Hu). unfold addressed, when.
    case_bool_decide as Hn; [|rewrite insert_id by done; by destruct s].
    rewrite (M_bind_ok _ _ _ (print_ints [ts_addr t; ts_size t]) s) by done.
    rewrite (M_bind_ok _ _ _ (JUInt (ts_addr t)) s) by done.
    rewrite (M_bind_ok _ _ _ (ts_addr t) s) by (simpl; rewrite u64_small by apply Ht; done).
    rewrite (M_bind_ok _ _ _ u s) by (unfold p_tensor, deref; by rewrite Hu).
    set (s1 := mkP (<[p := set_address (ts_addr t) u]> (p_heap s)) (p_next s)).
    rewrite (M_bind_ok _ _ _ tt s1) by done.
    rewrite (M_bind_ok _ _ _ (JUInt (ts_size t)) s1) by done.
    rewrite (M_bind_ok _ _ _ (ts_size t) s1) by (simpl; rewrite u64_small by apply Ht; done).
    rewrite (M_bind_ok _ _ _ (set_address (ts_addr t) u) s1) by (unfold p_tensor, deref; simpl; by rewrite lookup_insert_eq).
    unfold p_put, modify, s1. simpl. by rewrite insert_insert_eq. }
  rewrite (M_bind_ok _ _ _ _ _ Hone).
  destruct (IH us' (mkP (<[p := addressed t u]> (p_heap s)) (p_next s))) as (h & Hr & Hh & Hout); [done..| |].
  { by apply holds_insert. }
  exists h. split; [done|]. simpl in Hout. csimpl. split.
  - constructor; [|done]. rewrite Hout by done. by rewrite lookup_insert_eq.
  - intros q Hq. rewrite Hout by set_solver. apply lookup_insert_ne. set_solver.
Qed.

(** All address attributes together. *)
Lemma addressed_all x ts :
  x ∈ ts → NoDup (ts_name <$> ts) → foldl (λ u t, addressed t u) (fresh_tensor x) ts = full_tensor x.
Proof.
  assert (Hother : ∀ ts u, t_name u ∉ ts_name <$> ts → foldl (λ u t, addressed t u) u ts = u).
  { induction ts0 as [|t ts0 IH]; intros u Hu; [done|]. csimpl in Hu. csimpl.
    unfold addressed at 2. rewrite bool_decide_false by set_solver. apply IH. set_solver. }
  intros Hx Hnd. assert (∀ u, t_name u = ts_name x →
    foldl (λ u t, addressed t u) u ts = set_original_size (ts_size x) (set_address (ts_addr x) u)) as H; [|by apply H].
  induction ts as [|t ts IH]; [by apply not_elem_of_nil in Hx|]. csimpl in Hnd. apply NoDup_cons in Hnd as [Ht Hnd].
  intros u Hu. csimpl. apply elem_of_cons in Hx as [<-|Hx].
  - unfold addressed at 2. rewrite bool_decide_true by done. apply Hother. simpl. by rewrite Hu.
  - unfold addressed at 2. rewrite bool_decide_false; [by apply IH|].
    intros E. apply Ht. rewrite <-E, Hu. apply list_elem_of_fmap. eauto.
Qed.

Lemma foldl_fmap_commute ts (us : list Tensor) :
  foldl (λ us t, addressed t <$> us) us ts = (λ u, foldl (λ u t, addressed t u) u ts) <$> us.
Proof.
  revert us. induction ts as [|t ts IH]; intros us; simpl; [by rewrite list_fmap_id|].
  rewrite IH. by rewrite <-list_fmap_compose.
Qed.

(** ** The attributes of a layer *)

Lemma second_passes_app names ins outs a1 a2 s l1 s1 l2 s2 :
  second_passes names ins outs a1 s = Ok (l1, s1) → second_passes names ins outs a2 s1 = Ok (l2, s2) →
  second_passes names ins outs (a1 ++ a2) s = Ok (l1 ++ l2, s2).
Proof.
  revert s l1. induction a1 as [|a a1 IH]; intros s l1 H1 H2; simpl in *.
  - cbv [mret M_ret] in H1. by injection H1 as <- <-.
  - apply M_bind_inv in H1 as (la & sa & Ha & H1). apply M_bind_inv in H1 as (lr & sr & Hr & H1).
    cbv [mret M_ret] in H1. injection H1 as <- <-.
    rewrite (M_bind_ok _ _ _ _ _ Ha), (M_bind_ok _ _ _ _ _ (IH _ _ Hr H2)). by rewrite <-(assoc_L (++)).
Qed.

Lemma second_pass_address names ins outs t s kind ps us :
  tensor_ok t → names !! ts_name t = Some kind → (kind = 1 ∧ ps = ins ∨ kind = 2 ∧ ps = outs) →
  NoDup ps → holds (p_heap s) ps us →
  ∃ h, second_pass names ins outs (print_attr (address_attr t)) s = Ok ([], mkP h (p_next s)) ∧
    holds h ps (addressed t <$> us) ∧ ∀ q, q ∉ ps → h !! q = p_heap s !! q.
Proof.
  intros Ht Hk Hps Hnd Hh. destruct (set_addresses_ok t ps us s Ht Hnd Hh) as (h & Hr & Hh' & Hout).
  exists h. split; [|done]. unfold second_pass.
  rewrite (M_bind_ok _ _ _ (JString (ts_name t)) s), (M_bind_ok _ _ _ (ts_name t) s), Hk by done.
  destruct Hps as [[-> ->]|[-> ->]]; rewrite (M_bind_ok _ _ _ _ _ Hr); done.
Qed.

Lemma second_passes_inputs names ins outs ts : ∀ s us,
  Forall tensor_ok ts → Forall (λ t, names !! ts_name t = Some 1) ts → NoDup ins → holds (p_heap s) ins us →
  ∃ h, second_passes names ins outs (print_attr <$> (address_attr <$> ts)) s = Ok ([], mkP h (p_next s)) ∧
    holds h ins (foldl (λ us t, addressed t <$> us) us ts) ∧ ∀ q, q ∉ ins → h !! q = p_heap s !! q.
Proof.
  induction ts as [|t ts IH]; intros s us Hok Hk Hnd Hh.
  { exists (p_heap s). split; [by destruct s|done]. }
  apply Forall_cons in Hok as [Ht Hok]. apply Forall_cons in Hk as [Hkt Hk]. csimpl.
  destruct (second_pass_address names ins outs t s 1 ins us) as (h & Hr & Hh' & Hout); [by auto..|].
  destruct (IH (mkP h (p_next s)) (addressed t <$> us)) as (h2 & Hr2 & Hh2 & Hout2); [done..|].
  exists h2. rewrite (M_bind_ok _ _ _ _ _ Hr), (M_bind_ok _ _ _ _ _ Hr2). split; [done|]. split; [done|].
  intros q Hq. rewrite Hout2 by done. by apply Hout.
Qed.

Lemma second_passes_plain names ins outs l s :
  Forall (λ a, int_ok (as_type a) ∧ Forall int_ok (as_ints a)) l → Forall (λ a, names !! as_name a = None) l →
  second_passes names ins outs (print_attr <$> l) s = Ok (node_attr <$> l, s).
Proof.
  induction 1 as [|a l [Ht Hi] _ IH]; intros Hn; [done|]. apply Forall_cons in Hn as [Ha Hn]. csimpl.
  rewrite (M_bind_ok _ _ _ [node_attr a] s), (M_bind_ok _ _ _ _ _ (IH Hn)); [done|].
  unfold second_pass.
  rewrite (M_bind_ok _ _ _ (JString (as_name a)) s), (M_bind_ok _ _ _ (as_name a) s), Ha by done.
  rewrite (M_bind_ok _ _ _ (JUInt (as_type a)) s) by done.
  rewrite (M_bind_ok _ _ _ (if kept (as_name a) then as_ints a else []) s)
    by (apply lift_ok, attr_ints_ok; auto).
  by rewrite (M_bind_ok _ _ _ (as_type a) s) by (apply lift_ok; by apply get_int_ok).
Qed.

Lemma first_passes_ok l : layer_ok l → first_passes (print_attr <$> all_attrs l) = Ok tt.
Proof.
  intros [_ Ha Hi Ho _ _].
  assert (Forall (λ a, kept (as_name a) = true → Forall int_ok (as_ints a)) (all_attrs l)) as H.
  { unfold all_attrs. apply Forall_app_2; [|constructor].
    - apply Forall_fmap. eapply Forall_impl; [exact Hi|]. intros t Ht. simpl. by rewrite (to_named _ Ht).
    - simpl. by rewrite (to_named _ Ho).
    - eapply Forall_impl; [exact Ha|]. simpl. tauto. }
  induction H as [|a l' Ha' _ IH]; [done|]. csimpl. rewrite first_pass_ok by done. simpl. apply IH.
Qed.

(** The kinds of the tensor names. *)
Definition name_kinds (ins : list (string * loc)) (out : string) : gmap string Z :=
  <[out := 2]> (foldl (λ m t, <[t.1 := 1]> m) (∅ : gmap string Z) ins).

Lemma name_kinds_inputs (ins : list (string * loc)) (m : gmap string Z) n :
  foldl (λ m t, <[t.1 := 1]> m) m ins !! n = if bool_decide (n ∈ ins.*1) then Some 1 else m !! n.
Proof.
  revert m. induction ins as [|[k p] ins IH]; intros m; csimpl; [done|]. rewrite IH.
  destruct (decide (n ∈ ins.*1)) as [Hin|Hout].
  - rewrite !bool_decide_true by set_solver. done.
  - rewrite (bool_decide_false (n ∈ ins.*1)) by done. destruct (decide (n = k)) as [->|Hne].
    + rewrite bool_decide_true by apply list_elem_of_here. by rewrite lookup_insert_eq.
    + rewrite bool_decide_false by set_solver. by rewrite lookup_insert_ne.
Qed.

Lemma name_kinds_spec ins out n :
  name_kinds ins out !! n =
    if bool_decide (n = out) then Some 2 else if bool_decide (n ∈ ins.*1) then Some 1 else None.
Proof.
  unfold name_kinds. case_bool_decide as E; [subst; by rewrite lookup_insert_eq|].
  rewrite lookup_insert_ne, name_kinds_inputs by done. by case_bool_decide.
Qed.

Lemma locs_length p n : length (locs p n) = n.
Proof. revert p. induction n as [|n IH]; intros p; simpl; auto. Qed.

Lemma locs_lt p ts q : q ∈ locs p (length ts) → (q < foldl (λ p (_ : tensor_spec), Pos.succ p) p ts)%positive.
Proof.
  assert (∀ (ts : list tensor_spec) p, (p ≤ foldl (λ p _, Pos.succ p) p ts)%positive) as Hle.
  { induction ts0 as [|? ts0 IH]; intros p0; simpl; [lia|]. specialize (IH (Pos.succ p0)). lia. }
  revert p. induction ts as [|t ts IH]; intros p; simpl; [by intros ?%not_elem_of_nil|].
  intros [->|H]%elem_of_cons; [|by apply IH]. specialize (Hle ts (Pos.succ p)). lia.
Qed.

(** The node of a layer whose tensors are at [ps] and [q]. *)
Definition layer_node (l : layer_spec) (op : Operator) (ps : list loc) (q : loc) : Node :=
  set_attributes (node_attr <$> ls_attrs l) (set_outputs [q] (set_inputs ps (Node_new (ls_id l) (ls_name l) op))).

(** The outcome of reading a layer: the node, and its tensors in the heap. *)
Definition layer_read (l : layer_spec) (s : pstate) (n : Node) (s' : pstate) : Prop :=
  ∃ op ps q, getOpType (ls_op l) = Ok op ∧ n = layer_node l op ps q ∧
    holds (p_heap s') (ps ++ [q]) (full_tensor <$> ls_inputs l ++ [ls_output l]) ∧
    Forall (λ p, p_next s ≤ p < p_next s')%positive (ps ++ [q]) ∧
    ∀ p, (p < p_next s)%positive → p_heap s' !! p = p_heap s !! p.

Lemma holds_frame h h' ps ts : (∀ p, p ∈ ps → h' !! p = h !! p) → holds h ps ts → holds h' ps ts.
Proof.
  intros He H. unfold holds in *. induction H as [|p t ps ts Hp _ IH]; constructor.
  - rewrite He; [done|apply list_elem_of_here].
  - apply IH. intros q Hq. by apply He, list_elem_of_further.
Qed.

Lemma fst_zip_locs (names : list string) p : (zip names (locs p (length names))).*1 = names.
Proof. apply fst_zip. by rewrite locs_length. Qed.
Lemma snd_zip_locs (names : list string) p : (zip names (locs p (length names))).*2 = locs p (length names).
Proof. apply snd_zip. by rewrite locs_length. Qed.

(** The second pass over all attributes of a layer gives every tensor its
    address and keeps the other attributes. *)
Lemma second_passes_layer l s ps q ins :
  layer_ok l → ins.*1 = ts_name <$> ls_inputs l → NoDup ps → q ∉ ps →
  holds (p_heap s) ps (fresh_tensor <$> ls_inputs l) → p_heap s !! q = Some (fresh_tensor (ls_output l)) →
  ∃ h, second_passes (name_kinds ins (ts_name (ls_output l))) ps [q] (print_attr <$> all_attrs l) s =
      Ok (node_attr <$> ls_attrs l, mkP h (p_next s)) ∧
    holds h (ps ++ [q]) (full_tensor <$> ls_inputs l ++ [ls_output l]) ∧
    ∀ p, p ∉ ps ++ [q] → h !! p = p_heap s !! p.
Proof.
  intros [_ Ha Hi Ho Hnd Hfr] Hz Hps Hq Hh Hhq. set (names := name_kinds ins (ts_name (ls_output l))).
  apply NoDup_app in Hnd as (Hndi & Hout & _).
  destruct (second_passes_inputs names ps [q] (ls_inputs l) s (fresh_tensor <$> ls_inputs l)) as (h3 & Hr3 & Hh3 & Ho3);
    [done| |done|done|].
  { apply Forall_forall. intros t Ht. unfold names. rewrite name_kinds_spec, Hz.
    assert (ts_name t ∈ ts_name <$> ls_inputs l) as Hin by (apply list_elem_of_fmap; eauto).
    rewrite bool_decide_false, bool_decide_true; [done|done|]. intros E. apply (Hout _ Hin). rewrite E. apply list_elem_of_here. }
  destruct (second_pass_address names ps [q] (ls_output l) (mkP h3 (p_next s)) 2 [q] [fresh_tensor (ls_output l)])
    as (h4 & Hr4 & Hh4 & Ho4).
  { done. }
  { unfold names. by rewrite name_kinds_spec, bool_decide_true. }
  { auto. }
  { apply NoDup_singleton. }
  { constructor; [|constructor]. simpl. by rewrite Ho3. }
  exists h4. cbn [p_heap p_next] in *. split; [|split].
  - unfold all_attrs. rewrite fmap_app. csimpl. apply (second_passes_app _ _ _ _ _ _ [] _ _ _ Hr3).
    cbn [second_passes]. rewrite (M_bind_ok _ _ _ _ _ Hr4). rewrite (M_bind_ok _ _ _ (node_attr <$> ls_attrs l) (mkP h4 (p_next s))); [done|].
    apply second_passes_plain; [done|]. eapply Forall_impl; [exact Hfr|]. simpl. intros a Hna.
    unfold names. rewrite name_kinds_spec, Hz. rewrite !bool_decide_false; [done|set_solver|set_solver].
  - rewrite fmap_app. apply Forall2_app.
    + apply (holds_frame h3). { intros p Hp. apply Ho4. intros ->%list_elem_of_singleton. done. }
      rewrite foldl_fmap_commute, <-list_fmap_compose in Hh3.
      erewrite list_fmap_ext; [exact Hh3|]. intros i x Hx. symmetry.
      apply addressed_all; [|done]. by eapply list_elem_of_lookup_2.
    + csimpl in Hh4. unfold addressed in Hh4. rewrite bool_decide_true in Hh4 by done. exact Hh4.
  - intros p Hp. rewrite not_elem_of_app in Hp. rewrite Ho4 by tauto. apply Ho3. tauto.
Qed.

Lemma parse_layer_ok l op s :
  layer_ok l → getOpType (ls_op l) = Ok op →
  ∃ n s', parse_layer (print_layer l) s = Ok (n, s') ∧ layer_read l s n s' ∧ (p_next s < p_next s')%positive.
Proof.
  intros Hl Hop. pose proof Hl as [Hid _ Hi Ho _ _].
  set (ps := locs (p_next s) (length (ls_inputs l))).
  destruct (parse_tensors_ok (ls_inputs l) s Hi) as (h1 & Hr1 & Hh1 & Hlow1). fold ps in Hr1, Hh1.
  set (q := foldl (λ p _, Pos.succ p) (p_next s) (ls_inputs l)) in *.
  set (s2 := mkP (<[q := fresh_tensor (ls_output l)]> h1) (Pos.succ q)).
  assert (Hlt : ∀ p, p ∈ ps → (p_next s ≤ p < q)%positive).
  { intros p Hp. split; [by eapply locs_ge|by apply locs_lt]. }
  assert (q ∉ ps) as Hq by (intros Hq%Hlt; lia).
  assert ((p_next s ≤ q)%positive) as Hsq.
  { destruct (ls_inputs l) as [|t ts] eqn:E; [simpl in q; lia|].
    assert (p_next s ∈ ps) as Hin by (unfold ps; simpl; apply list_elem_of_here). specialize (Hlt _ Hin). lia. }
  assert (ps = locs (p_next s) (length (ts_name <$> ls_inputs l))) as Eps by (unfold ps; by rewrite length_fmap).
  destruct (second_passes_layer l s2 ps q (zip (ts_name <$> ls_inputs l) ps)) as (h4 & Hr4 & Hh4 & Ho4).
  { done. }
  { rewrite Eps. apply fst_zip_locs. }
  { apply locs_nodup. }
  { done. }
  { by apply holds_insert. }
  { simpl. by rewrite lookup_insert_eq. }
  exists (layer_node l op ps q), (mkP h4 (Pos.succ q)). split; [|split; [|simpl; lia]].
  - unfold parse_layer. rewrite (M_bind_ok _ _ _ (ls_name l) s), (M_bind_ok _ _ _ (JUInt (ls_id l)) s) by done.
    rewrite (M_bind_ok _ _ _ (ls_id l) s) by (apply lift_ok; by apply get_int_ok).
    rewrite (M_bind_ok _ _ _ (ls_op l) s) by done. rewrite (M_bind_ok _ _ _ op s) by (apply lift_ok; done).
    rewrite (M_bind_ok _ _ _ (JArray (print_attr <$> all_attrs l)) s) by done.
    rewrite (M_bind_ok _ _ _ tt s) by (apply lift_ok; by apply first_passes_ok).
    rewrite (M_bind_ok _ _ _ (JArray (print_tensor <$> ls_inputs l)) s) by done. cbn [json_elems].
    rewrite (M_bind_ok _ _ _ _ _ Hr1). rewrite (M_bind_ok _ _ _ (print_tensor (ls_output l)) (mkP h1 q)) by done.
    rewrite (M_bind_ok _ _ _ _ _ (parse_tensor_ok (ls_output l) _ Ho)). cbn [fst snd p_next p_heap].
    fold (name_kinds (zip (ts_name <$> ls_inputs l) ps) (ts_name (ls_output l))). fold s2.
    assert ((zip (ts_name <$> ls_inputs l) ps).*2 = ps) as -> by (rewrite Eps; apply snd_zip_locs).
    rewrite (M_bind_ok _ _ _ _ _ Hr4). unfold layer_node, u32. rewrite Z.mod_small by (unfold int_ok in Hid; lia). done.
  - exists op, ps, q. split; [done|]. split; [done|]. split; [done|]. split.
    + apply Forall_app_2; [|by repeat constructor; simpl; lia]. apply Forall_forall. intros p Hp%Hlt. simpl. lia.
    + intros p Hp. simpl. rewrite Ho4.
      * simpl. rewrite lookup_insert_ne by lia. by apply Hlow1.
      * rewrite not_elem_of_app. split; [intros Hin%Hlt; lia|intros ->%list_elem_of_singleton; lia].
Qed.

(** ** Whole configurations *)

Record config_spec := mkConfigSpec {
  cs_layout : string; cs_name : string; cs_mapping : string;
  cs_split : list (string * list Z);
  cs_hardware : list (string * Z);
  cs_layers : list layer_spec;
}.

Definition print_config (c : config_spec) : json :=
  JObject [("HardwareInfo", JObject ((λ kv, (kv.1, JUInt kv.2)) <$> cs_hardware c));
           ("Layout", JString (cs_layout c));
           ("Mapping", JString (cs_mapping c));
           ("Model", JArray (print_layer <$> cs_layers c));
           ("Name", JString (cs_name c));
           ("Split", JObject ((λ kv, (kv.1, print_ints kv.2)) <$> cs_split c))].

Record config_ok (c : config_spec) : Prop := {
  co_split : Forall (λ kv, Forall int_ok kv.2) (cs_split c);
  co_hardware : Forall (λ kv, int_ok kv.2) (cs_hardware c);
  co_keys : NoDup (cs_hardware c).*1;
  co_layers : Forall layer_ok (cs_layers c);
  co_ops : Forall (λ l, ∃ op, getOpType (ls_op l) = Ok op) (cs_layers c);
}.

(** The node of a layer, with the layer's tensors in the heap. *)
Definition described (h : heap) (l : layer_spec) (n : Node) : Prop :=
  ∃ op ps q, getOpType (ls_op l) = Ok op ∧ n = layer_node l op ps q ∧
    holds h (ps ++ [q]) (full_tensor <$> ls_inputs l ++ [ls_output l]).

Lemma parse_layers_ok ls : ∀ s,
  Forall layer_ok ls → Forall (λ l, ∃ op, getOpType (ls_op l) = Ok op) ls →
  ∃ ns s', parse_layers (print_layer <$> ls) s = Ok (ns, s') ∧ Forall2 (described (p_heap s')) ls ns ∧
    ∀ p, (p < p_next s)%positive → p_heap s' !! p = p_heap s !! p.
Proof.
  induction ls as [|l ls IH]; intros s Hok Hops.
  { exists [], s. split; [done|]. split; [constructor|done]. }
  apply Forall_cons in Hok as [Hl Hok]. apply Forall_cons in Hops as [[op Hop] Hops].
  destruct (parse_layer_ok l op s Hl Hop) as (n & s1 & Hr & (op' & ps & q & Hop' & -> & Hh & Hrange & Hlow) & Hlt).
  destruct (IH s1 Hok Hops) as (ns & s' & Hr' & Hall & Hlow').
  exists (layer_node l op' ps q :: ns), s'. csimpl. rewrite (M_bind_ok _ _ _ _ _ Hr), (M_bind_ok _ _ _ _ _ Hr').
  split; [done|]. split.
  - constructor; [|done]. exists op', ps, q. split; [done|]. split; [done|]. eapply holds_frame; [|exact Hh].
    intros p Hp. apply Hlow'. rewrite Forall_forall in Hrange. by apply Hrange.
  - intros p Hp. rewrite Hlow' by lia. by apply Hlow.
Qed.

Lemma parse_split_ok l : Forall (λ kv : string * list Z, Forall int_ok kv.2) l →
  parse_split (((λ kv, (kv.1, print_ints kv.2)) <$> l).*2) = Ok l.*2.
Proof.
  induction 1 as [|[k r] l Hr _ IH]; [done|]. rewrite !fmap_cons. cbn [parse_split fst snd].
  rewrite get_ints_ok by done. cbn [mbind res_bind]. by rewrite IH.
Qed.

Lemma parse_hardware_ok l : ∀ m, Forall (λ kv : string * Z, int_ok kv.2) l → NoDup l.*1 →
  ∃ m', parse_hardware ((λ kv, (kv.1, JUInt kv.2)) <$> l) m = Ok m' ∧
    (∀ k z, (k, z) ∈ l → m' !! k = Some z) ∧ (∀ k, k ∉ l.*1 → m' !! k = m !! k).
Proof.
  induction l as [|[k z] l IH]; intros m Hok Hnd.
  { exists m. split; [done|]. split; [by intros ? ? ?%not_elem_of_nil|done]. }
  apply Forall_cons in Hok as [Hz Hok]. csimpl in Hnd. apply NoDup_cons in Hnd as [Hk Hnd].
  destruct (IH (<[k := z]> m) Hok Hnd) as (m' & Hr & Hin & Hout). exists m'. csimpl. split; [|split].
  - simpl. rewrite to_i32_small by (unfold int_ok in Hz; simpl in Hz; lia). simpl. done.
  - intros k' z' [[= -> ->]|H]%elem_of_cons; [|by apply Hin]. rewrite Hout by done. by rewrite lookup_insert_eq.
  - intros k' Hk'. rewrite Hout by set_solver. apply lookup_insert_ne. set_solver.
Qed.

(** C39. The configuration is read as it is written: for every well-formed
    configuration the parser returns its layout, name, mapping, split sizes and
    hardware table, and one node per layer with the layer's name, operator,
    attributes and tensors, each tensor carrying the shape, type, address and
    size the file gives it, although addresses come in separate attributes. *)
Theorem configuration_round_trip c :
  config_ok c →
  ∃ j s, JsonParser_new (print_config c) (mkP ∅ 1) = Ok (j, s) ∧
    m_layout j = cs_layout c ∧ m_name j = cs_name c ∧ m_mapping j = cs_mapping c ∧
    m_strategy j = mkStrategy (cs_split c).*2 (cs_mapping c) ∧
    (∀ k z, (k, z) ∈ cs_hardware c → hardware_at (m_hardwareInfo j) k = z) ∧
    Forall2 (described (p_heap s)) (cs_layers c) (g_nodes (m_model j)).
Proof.
  intros [Hs Hh Hk Hl Ho]. set (s0 := mkP ∅ 1).
  destruct (parse_layers_ok (cs_layers c) s0 Hl Ho) as (ns & s & Hr & Hall & _).
  destruct (parse_hardware_ok (cs_hardware c) ∅ Hh Hk) as (m & Hm & Hin & _).
  exists (mkParser (cs_layout c) (cs_name c) (cs_mapping c) m (mkGraph EmptyString ns)
    (mkStrategy (cs_split c).*2 (cs_mapping c))), s. split; [|split_and!; try done].
  - unfold JsonParser_new, preprocessing.
    rewrite (M_bind_ok _ _ _ (cs_layout c) s0), (M_bind_ok _ _ _ (cs_name c) s0), (M_bind_ok _ _ _ (cs_mapping c) s0) by done.
    rewrite (M_bind_ok _ _ _ (JObject ((λ kv, (kv.1, print_ints kv.2)) <$> cs_split c)) s0) by done. cbn [json_elems].
    rewrite (M_bind_ok _ _ _ (cs_split c).*2 s0) by (apply lift_ok; by apply parse_split_ok).
    rewrite (M_bind_ok _ _ _ (JObject ((λ kv, (kv.1, JUInt kv.2)) <$> cs_hardware c)) s0) by done. cbn [json_items].
    rewrite (M_bind_ok _ _ _ m s0) by (apply lift_ok; exact Hm).
    rewrite (M_bind_ok _ _ _ (JArray (print_layer <$> cs_layers c)) s0) by done. cbn [json_elems].
    rewrite (M_bind_ok _ _ _ _ _ Hr). reflexivity.
  - simpl. intros k z Hkz. unfold hardware_at. by rewrite (Hin k z Hkz).
Qed.

(** A one-layer configuration of the repository's examples. *)
Definition example_layer : layer_spec :=
  mkLayerSpec "relu0" 0 "Relu" [mkAttrSpec "dilations" 7 [1; 1]; mkAttrSpec "strides" 7 [2; 2]]
    [mkTensorSpec "data" [1; 3; 4; 4] 1 0 192] (mkTensorSpec "relu0_fwd" [1; 3; 4; 4] 1 192 192).
Definition example_configuration : config_spec :=
  mkConfigSpec "NCHW" "example" "output" [("input_tile", [1; 1; 2; 2]); ("weight_tile", [1; 1; 1; 1])]
    [("PE_Num", 4); ("LocalMem", 4)] [example_layer].

Lemma configuration_round_trip_witness : ∃ j s,
  JsonParser_new (print_config example_configuration) (mkP ∅ 1) = Ok (j, s) ∧
  hardware_at (m_hardwareInfo j) "PE_Num" = 4 ∧
  Forall2 (described (p_heap s)) [example_layer] (g_nodes (m_model j)).
Proof.
  destruct (configuration_round_trip example_configuration) as (j & s & Hr & _ & _ & _ & _ & Hh & Hall).
  - assert (∀ z, bool_decide (0 ≤ z < 2 ^ 31) = true → int_ok z) as Hint.
    { intros z Hz. apply bool_decide_eq_true in Hz. exact Hz. }
    split.
    + repeat constructor; apply Hint; reflexivity.
    + repeat constructor; apply Hint; reflexivity.
    + apply (bool_decide_unpack _). vm_compute. exact I.
    + constructor; [|constructor]. split.
      * apply Hint. reflexivity.
      * repeat constructor; apply Hint; reflexivity.
      * constructor; [|constructor]. split; [repeat constructor; apply Hint; reflexivity|apply Hint; reflexivity| | |reflexivity]; simpl; lia.
      * split; [repeat constructor; apply Hint; reflexivity|apply Hint; reflexivity| | |reflexivity]; simpl; lia.
      * apply (bool_decide_unpack _). vm_compute. exact I.
      * apply (bool_decide_unpack _). vm_compute. exact I.
    + constructor; [|constructor]. exists RELU. reflexivity.
  - exists j, s. split; [exact Hr|]. split; [|exact Hall]. apply Hh. apply list_elem_of_here.
Defined.

(** ** The dispatch of [main] *)

(** A convolution whose mapping is neither "weight" nor "output" gets no generator,
    however far its analysis comes; [main] dereferences it all the same. *)
Theorem run_conv_unknown optimize s num grid h n r :
  mappingStrategy s ≠ "weight" → mappingStrategy s ≠ "output" →
  run_conv optimize s num grid h n = Ok r ∨ run_conv_fused s num grid h n = Ok r → r = None.
Proof.
  intros H1 H2. unfold run_conv, run_conv_fused.
  destruct (analyse s Conv true n n h) as [[? ?]|], (analyse s ConvBatchnorm true n n h) as [[? ?]|];
    cbn [mbind res_bind]; intros [H|H]; try discriminate H;
    try (destruct (get_num_subgraph s); cbn [mbind res_bind] in H; [|discriminate H]);
    destruct (PEGrid.isRunnable grid _);
    rewrite ?(bool_decide_false (mappingStrategy s = "weight")), ?(bool_decide_false (mappingStrategy s = "output")) in H by done;
    by injection H.
Qed.
