(* ===== verification/PETermination.v ===== *)
(** * The PEs terminate

    Every entry of a traffic list is worth a number of steps: those of operating
    it, of sending its packets and of receiving their responses.  Each step of
    the system but a refused send and the retry that follows it uses some of
    this worth up, so a run of the PEs is finite as long as the memory system
    does not refuse packets for ever. *)
From stdpp Require Import base tactics list gmap strings sets.
From Stdlib Require Import ZArith Lia.
From S2P Require Import Prelude MemCmd TrafficPattern PE PESystem PEInv PERun PEProps PEWitness.
Local Open Scope Z_scope.

(** ** What counts of a PE *)

Record core := mkCore {
  k_traffic : list TrafficPattern.Traffic;
  k_cur : Z;
  k_line : Z;
  k_queued : Z;
  k_op : bool;       (* operateNextEvent is scheduled *)
}.

Definition core_of (p : PE) : core :=
  mkCore (traffic_list p) (cur_traffic p) (cache_line_size (pe_params p))
    (Z.of_nat (length (waitingSend_read p)) + Z.of_nat (length (waitingSend_write p)))
    (bool_decide (operateNextEvent p ≠ None)).
Definition view (w : World) : gmap nat core := core_of <$> pes w.

(** ** Statements that change nothing that counts *)

Definition quiet {A} (m : M World A) : Prop := ∀ w a w', m w = Ok (a, w') → view w' = view w.

Create HintDb quiet.

Lemma quiet_bind {A B} (m : M World A) (k : A → M World B) :
  quiet m → (∀ a, quiet (k a)) → quiet (m ≫= k).
Proof. intros Hm Hk w b w' (a & w1 & H1 & H2)%M_bind_inv. by rewrite (Hk _ _ _ _ H2), (Hm _ _ _ H1). Qed.
Lemma quiet_ret {A} (a : A) : quiet (mret a).
Proof. by intros w b w' [= _ <-]. Qed.
Lemma quiet_gets {A} (f : World → A) : quiet (gets f).
Proof. by intros w b w' [= _ <-]. Qed.
Lemma quiet_lift {A} (r : res A) : quiet (lift r).
Proof. intros w b w' H. destruct r; [|done]. by injection H as _ <-. Qed.
Lemma quiet_throw {A} e : quiet (throw e : M World A).
Proof. done. Qed.
Lemma quiet_massert s b : quiet (massert s b).
Proof. destruct b; [apply quiet_ret|apply quiet_throw]. Qed.
Lemma quiet_when b m : quiet m → quiet (when b m).
Proof. destruct b; [done|intros _; apply quiet_ret]. Qed.
Lemma quiet_modify f : (∀ w, pes (f w) = pes w) → quiet (modify f).
Proof. intros Hf w b w' [= _ <-]. unfold view. by rewrite Hf. Qed.
Lemma quiet_get_pe i : quiet (get_pe i).
Proof. intros w b w' H. unfold get_pe in H. by eapply quiet_lift in H. Qed.
Lemma quiet_get_packet q : quiet (get_packet q).
Proof. intros w b w' H. unfold get_packet in H. by eapply quiet_lift in H. Qed.

Lemma view_alter f g i w :
  (∀ p, core_of (f p) = g (core_of p)) → view (set_pes (alter f i (pes w)) w) = alter g i (view w).
Proof. intros Hf. apply fmap_alter. auto. Qed.
Lemma upd_pe_view i f g w u w' :
  (∀ p, core_of (f p) = g (core_of p)) → upd_pe i f w = Ok (u, w') → view w' = alter g i (view w).
Proof. intros Hf [= _ <-]. by apply view_alter. Qed.
Lemma quiet_upd_pe i f : (∀ p, core_of (f p) = core_of p) → quiet (upd_pe i f).
Proof. intros Hf w u w' H. rewrite (upd_pe_view i f id w u w' Hf H). by apply alter_id. Qed.

#[local] Hint Resolve quiet_bind quiet_ret quiet_gets quiet_lift quiet_throw quiet_massert quiet_when
  quiet_get_pe quiet_get_packet : quiet.
#[local] Hint Extern 2 (quiet (modify _)) => by apply quiet_modify : quiet.
#[local] Hint Extern 2 (quiet (upd_pe _ _)) => apply quiet_upd_pe; reflexivity : quiet.

Lemma quiet_delete_packet q : quiet (delete_packet q).
Proof. unfold delete_packet. auto 10 with quiet. Qed.
Lemma quiet_schedule_scheduleReq i d : quiet (schedule_scheduleReq i d).
Proof. unfold schedule_scheduleReq, schedule_event. auto 20 with quiet. Qed.
Lemma quiet_retire i : quiet (retire i).
Proof. unfold retire. auto 20 with quiet. Qed.
Lemma quiet_getPacket i a z c : quiet (getPacket i a z c).
Proof. unfold getPacket. auto 20 with quiet. Qed.
Lemma quiet_setBroadcast q : quiet (setBroadcast q).
Proof. unfold setBroadcast. auto 20 with quiet. Qed.
Lemma quiet_for_each {A} (l : list A) body : (∀ x, quiet (body x)) → quiet (for_each l body).
Proof. intros H. induction l; simpl; auto with quiet. Qed.
#[local] Hint Resolve quiet_delete_packet quiet_schedule_scheduleReq quiet_retire quiet_getPacket
  quiet_setBroadcast quiet_for_each : quiet.
Lemma quiet_await_broadcast r : quiet (await_broadcast r).
Proof. unfold await_broadcast. auto 20 with quiet. Qed.
Lemma quiet_recvReqRetry i : quiet (recvReqRetry i).
Proof. unfold recvReqRetry, retryReq. auto 20 with quiet. Qed.
Lemma quiet_waitSync i : quiet (waitSync i).
Proof. unfold waitSync, sendBroadcast. auto 20 with quiet. Qed.
#[local] Hint Resolve quiet_await_broadcast quiet_waitSync : quiet.

(** ** What the others change *)

Definition set_op (b : bool) (c : core) : core := mkCore (k_traffic c) (k_cur c) (k_line c) (k_queued c) b.
Definition add_queued (n : Z) (c : core) : core := mkCore (k_traffic c) (k_cur c) (k_line c) (k_queued c + n) (k_op c).
Definition next_entry (c : core) : core := mkCore (k_traffic c) (u32 (k_cur c + 1)) (k_line c) (k_queued c) (k_op c).

Lemma schedule_operateNext_view i d w u w' :
  schedule_operateNext i d w = Ok (u, w') → view w' = alter (set_op true) i (view w).
Proof.
  unfold schedule_operateNext, schedule_event. intros H.
  apply M_bind_inv in H as (p & w1 & Hp & H). apply (quiet_get_pe _ _ _ _) in Hp as <-.
  run_M H. apply M_bind_inv in H as ([] & w2 & Hq & H).
  assert (quiet (massert "when >= getCurTick()" (curTick w1 <=? u64 (curTick w1 + d)) ;;
    massert "!event->scheduled()" (bool_decide (operateNextEvent p = None)))) as Hquiet by auto with quiet.
  apply Hquiet in Hq as <-. eapply upd_pe_view; [|exact H]. done.
Qed.

Lemma alter_twice (f g : core → core) i (m : gmap nat core) : alter f i (alter g i m) = alter (f ∘ g) i m.
Proof. apply alter_alter_eq. Qed.
Lemma alter_same (f : core → core) i (m : gmap nat core) : (∀ c, f c = c) → alter f i m = m.
Proof. intros Hf. by apply alter_id. Qed.

Definition maybe_op (b : bool) : core → core := if b then set_op true else id.

(** [m] changes at most the event of PE [i]. *)
Definition may_resume {A} (i : nat) (m : M World A) : Prop :=
  ∀ w a w', m w = Ok (a, w') → ∃ b, view w' = alter (maybe_op b) i (view w).

Lemma may_resume_quiet {A} i (m : M World A) : quiet m → may_resume i m.
Proof. intros H w a w' E. exists false. rewrite (H _ _ _ E). symmetry. by apply alter_same. Qed.
Lemma may_resume_schedule i d : may_resume i (schedule_operateNext i d).
Proof. intros w a w' H. exists true. by eapply schedule_operateNext_view. Qed.
Lemma may_resume_bind {A B} i (m : M World A) (k : A → M World B) :
  may_resume i m → (∀ a, may_resume i (k a)) → may_resume i (m ≫= k).
Proof.
  intros Hm Hk w b w' (a & w1 & H1 & H2)%M_bind_inv. apply Hm in H1 as [b1 E1]. apply Hk in H2 as [b2 E2].
  exists (b1 || b2). rewrite E2, E1, alter_twice. f_equal. by destruct b1, b2.
Qed.
Lemma may_resume_when i b m : may_resume i m → may_resume i (when b m).
Proof. destruct b; [done|]. intros _. apply may_resume_quiet, quiet_ret. Qed.
#[local] Hint Resolve may_resume_schedule may_resume_bind may_resume_when : quiet.
#[local] Hint Extern 5 (may_resume _ _) => apply may_resume_quiet : quiet.

Lemma recvTimingResp_view i q : may_resume i (recvTimingResp i q).
Proof.
  unfold recvTimingResp. apply may_resume_bind; [auto with quiet|]. intros k.
  apply may_resume_bind; [auto with quiet|]. intros p. apply may_resume_bind; [auto with quiet|]. intros now.
  destruct (_ !! _) as [sent|]; [|auto with quiet]. apply may_resume_bind; [auto with quiet|]. intros _.
  apply may_resume_bind; [|auto 20 with quiet]. destruct (isWrite _); auto 20 with quiet.
Qed.

(** ** Sending *)

Lemma view_alter_at f g i w p :
  pes w !! i = Some p → core_of (f p) = g (core_of p) →
  view (set_pes (alter f i (pes w)) w) = alter g i (view w).
Proof. intros Hp Hf. apply fmap_alter. intros x Hx. by assert (x = p) as -> by congruence. Qed.

Lemma dequeue_core write p :
  waitingSend write p ≠ [] →
  core_of (set_waitingSend write (tail (waitingSend write p)) p) = add_queued (-1) (core_of p).
Proof.
  intros Hq. unfold core_of, add_queued. simpl. f_equal.
  destruct write; simpl in *; [destruct (waitingSend_write p)|destruct (waitingSend_read p)]; try done; simpl; lia.
Qed.

Lemma packet_sent_view i write k w u w' p :
  pes w !! i = Some p → waitingSend write p ≠ [] → packet_sent i write k w = Ok (u, w') →
  ∃ b, view w' = alter (maybe_op b ∘ add_queued (-1)) i (view w).
Proof.
  intros Hp Hq H. unfold packet_sent in H. run_M H.
  apply M_bind_inv in H as ([] & w1 & H1 & H). injection H1 as <-.
  pose proof (view_alter_at (λ p, set_waitingSend write (tail (waitingSend write p)) p) _ _ _ _ Hp
    (dequeue_core write p Hq)) as E1.
  match type of H with (?m ≫= ?k) ?w1 = _ => assert (may_resume i (m ≫= k)) as Hm end.
  { apply may_resume_bind; [destruct (rq_broadcast _); auto 20 with quiet|]. intros _.
    apply may_resume_bind; [auto with quiet|]. intros p1. apply may_resume_bind; [auto 20 with quiet|]. intros _.
    apply may_resume_bind; [auto with quiet|]. intros p2. apply may_resume_bind; [auto with quiet|]. intros b.
    destruct (empty_queue _); [destruct (empty_map _); auto 20 with quiet|auto with quiet]. }
  destruct (Hm _ _ _ H) as [b E2]. exists b. rewrite E2, <-alter_twice. f_equal. exact E1.
Qed.

(** ** Operating an entry *)

(** The number of packets an entry is split into. *)
Definition packets_of (line : Z) (t : TrafficPattern.Traffic) : Z :=
  let size := u32 (if TrafficPattern.size t <=? line then line else TrafficPattern.size t) in
  let base := TrafficPattern.addr t in
  Z.max 0 ((if base mod line =? 0 then size else u32 (size + base mod line)) / line).

Lemma for_loop_queues i body n : ∀ j w u w',
  (∀ j w u w', body j w = Ok (u, w') → view w' = alter (add_queued 1) i (view w)) →
  for_loop n j body w = Ok (u, w') → view w' = alter (add_queued (Z.of_nat n)) i (view w).
Proof.
  induction n as [|n IH]; intros j w u w' Hb H; simpl in H.
  - cbv [mret M_ret] in H. injection H as _ <-. symmetry. apply alter_same. intros []. unfold add_queued. simpl. f_equal. lia.
  - apply M_bind_inv in H as ([] & w1 & H1 & H2). rewrite (IH _ _ _ _ Hb H2), (Hb _ _ _ _ H1), alter_twice.
    apply alter_ext. intros c _. unfold add_queued. simpl. f_equal. lia.
Qed.

Lemma issue_view i t w u w' p :
  pes w !! i = Some p → issue i t w = Ok (u, w') →
  view w' = alter (add_queued (packets_of (cache_line_size (pe_params p)) t)) i (view w).
Proof.
  intros Hp H. unfold issue in H.
  rewrite (M_bind_ok _ _ _ p w) in H by (unfold get_pe; by rewrite Hp).
  set (line := cache_line_size (pe_params p)) in *. destruct (line =? 0); [done|].
  unfold packets_of. set (n := _ / line) in *. destruct (2 ^ 31 <=? n); [done|].
  apply M_bind_inv in H as ([] & w1 & H1 & H).
  assert (quiet (if bool_decide (TrafficPattern.response t = TrafficPattern.BROADCAST) then waitSync i
                 else schedule_scheduleReq i 1)) as Hq.
  { destruct (bool_decide (_ = TrafficPattern.BROADCAST)); [apply quiet_waitSync|apply quiet_schedule_scheduleReq]. }
  rewrite (Hq _ _ _ H). unfold for_up in H1. rewrite Z.sub_0_r in H1.
  rewrite (for_loop_queues i _ _ _ _ _ _) with (2 := H1).
  - apply alter_ext. intros c _. f_equal. lia.
  - clear. intros j w u w' H. apply M_bind_inv in H as (q & w1 & H1 & H).
    apply M_bind_inv in H as ([] & w2 & H2 & H).
    rewrite (upd_pe_view i _ (add_queued 1) w2 u w') with (2 := H).
    + rewrite (quiet_when _ _ (quiet_setBroadcast q) _ _ _ H2), (quiet_getPacket _ _ _ _ _ _ _ H1). done.
    + intros p0. unfold core_of, add_queued. simpl. f_equal.
      destruct (bool_decide _); simpl; rewrite length_app; simpl; lia.
Qed.

(** What operating the entry [t] does. *)
Definition entry_effect (line : Z) (t : TrafficPattern.Traffic) : core → core :=
  if bool_decide (TrafficPattern.type t = TrafficPattern.COMPUTE) then set_op true
  else if bool_decide (TrafficPattern.type t = TrafficPattern.SYNC) then id
  else add_queued (packets_of line t).

Lemma operateTraffic_view i w u w' p :
  pes w !! i = Some p → operateTraffic i w = Ok (u, w') →
  (Z.of_nat (length (traffic_list p)) ≤ cur_traffic p ∧ view w' = view w) ∨
  ∃ t, vec_get (traffic_list p) (cur_traffic p) = Ok t ∧
    view w' = alter (next_entry ∘ entry_effect (cache_line_size (pe_params p)) t) i (view w).
Proof.
  intros Hp H. unfold operateTraffic in H.
  rewrite (M_bind_ok _ _ _ p w) in H by (unfold get_pe; by rewrite Hp). run_M H.
  destruct (Z.leb_spec (Z.of_nat (length (traffic_list p))) (cur_traffic p)) as [Hle|Hlt].
  { left. split; [done|]. by apply (quiet_when _ _ (quiet_retire i) _ _ _ H). }
  right. run_M H. exists x. split; [done|]. apply M_bind_inv in H as ([] & w1 & H1 & H).
  rewrite (upd_pe_view i _ next_entry w1 u w') with (2 := H) by done.
  rewrite <-alter_twice. f_equal. unfold entry_effect. destruct (bool_decide _).
  { by eapply schedule_operateNext_view. }
  destruct (bool_decide _); [|by eapply issue_view].
  rewrite (alter_same id) by done.
  match type of H1 with ?m w = _ => assert (quiet m) as Hq end; [|by apply Hq in H1].
  unfold sendBroadcast. apply quiet_bind; [auto with quiet|]. intros _. apply quiet_bind; [auto with quiet|].
  intros w2. apply quiet_when. destruct (broadcast_issuer w2); auto with quiet.
Qed.

(** ** The worth of a state *)

Section worth.
Context (N : Z).

(** An entry: the step that operates it, and for each of its packets the send,
    the step that may resume the PE, and two steps per response. *)
Definition weight (line : Z) (t : TrafficPattern.Traffic) : Z :=
  1 + (if bool_decide (TrafficPattern.type t = TrafficPattern.COMPUTE) then 0
       else if bool_decide (TrafficPattern.type t = TrafficPattern.SYNC) then 0
       else (2 * N + 2) * packets_of line t).
Definition ahead (line : Z) (l : list TrafficPattern.Traffic) : Z := foldr (λ t a, weight line t + a) 0 l.
Definition worth (c : core) : Z :=
  ahead (k_line c) (drop (Z.to_nat (k_cur c)) (k_traffic c)) + (2 * N + 2) * k_queued c + Z.b2z (k_op c).

Definition total (ids : list nat) (v : gmap nat core) : Z :=
  foldr (λ i a, from_option worth 0 (v !! i) + a) 0 ids.

Lemma total_alter_out ids f i v : i ∉ ids → total ids (alter f i v) = total ids v.
Proof.
  induction ids as [|j ids IH]; [done|]. intros Hi. simpl. rewrite lookup_alter_ne by set_solver.
  rewrite IH by set_solver. done.
Qed.
Lemma total_alter ids f i v c :
  NoDup ids → i ∈ ids → v !! i = Some c → total ids (alter f i v) = total ids v - worth c + worth (f c).
Proof.
  intros Hnd Hi Hc. induction ids as [|j ids IH]; [by apply not_elem_of_nil in Hi|].
  apply NoDup_cons in Hnd as [Hj Hnd]. simpl. apply elem_of_cons in Hi as [->|Hi].
  - rewrite lookup_alter_eq, Hc, total_alter_out by done. simpl. lia.
  - rewrite lookup_alter_ne by (intros ->; done). rewrite IH by done. lia.
Qed.

Lemma worth_next line t c :
  vec_get (k_traffic c) (k_cur c) = Ok t → k_line c = line → Z.of_nat (length (k_traffic c)) < 2 ^ 32 →
  worth (next_entry c) = worth c - weight line t.
Proof.
  intros Hv <- Hlen. apply vec_get_inv in Hv as [Hc Hl]. unfold worth, next_entry. simpl.
  apply lookup_lt_Some in Hl as Hlt. unfold u32. rewrite Z.mod_small by lia.
  replace (Z.to_nat (k_cur c + 1)) with (S (Z.to_nat (k_cur c))) by lia.
  rewrite (drop_S _ _ _ Hl). simpl. lia.
Qed.

Lemma worth_effect line t c : k_op c = false →
  worth (entry_effect line t c) ≤ worth c + weight line t.
Proof.
  intros Hop. unfold entry_effect, weight, worth.
  destruct (bool_decide _); simpl; [rewrite Hop; simpl; lia|].
  destruct (bool_decide _); simpl; lia.
Qed.

Lemma worth_set_op b c : worth (set_op b c) = worth c - Z.b2z (k_op c) + Z.b2z b.
Proof. unfold worth. simpl. lia. Qed.
Lemma worth_maybe_op b c : worth (maybe_op b c) ≤ worth c + 1.
Proof. destruct b; simpl; [rewrite worth_set_op; simpl; destruct (k_op c); simpl; lia|lia]. Qed.
Lemma worth_dequeue c : worth (add_queued (-1) c) = worth c - (2 * N + 2).
Proof. unfold worth. simpl. lia. Qed.
End worth.

Definition ids_of (s : Sys) : list nat := elements (dom (view (world s))).
Definition PEs (s : Sys) : Z := Z.of_nat (size (dom (view (world s)))).

(** The worth of a state: of its PEs, and two steps per response the memory
    system owes. *)
Definition measure (s : Sys) : Z :=
  total (PEs s) (ids_of s) (view (world s)) + 2 * Z.of_nat (size (pending s)).

(** The steps that are not a refusal or the retry after one. *)
Definition progress (l : label) : bool :=
  match l with LSend _ _ false | LRetry _ _ => false | _ => true end.

Lemma run_Ok {A} (m : M World A) w w' : run m w = Ok w' → ∃ a, m w = Ok (a, w').
Proof. unfold run. destruct (m w) as [[a w1]|]; [|done]. intros [= <-]. eauto. Qed.

(** A step that changes PE [i] by [f]. *)
Lemma measure_step s s' i f c :
  view (world s) !! i = Some c → view (world s') = alter f i (view (world s)) →
  PEs s' = PEs s ∧
  measure s' = measure s - worth (PEs s) c + worth (PEs s) (f c)
    + 2 * (Z.of_nat (size (pending s')) - Z.of_nat (size (pending s))).
Proof.
  intros Hc Hv. assert (dom (view (world s')) = dom (view (world s))) as Hd by (rewrite Hv; apply dom_alter_L).
  unfold measure, PEs, ids_of. rewrite Hd, Hv. split; [done|].
  rewrite (total_alter _ _ f i _ c); [lia|apply NoDup_elements| |done].
  apply elem_of_elements. by apply elem_of_dom_2 in Hc.
Qed.

Lemma size_list_to_set_le (l : list (nat * positive)) : (size (list_to_set l : gset (nat * positive)) ≤ length l)%nat.
Proof.
  induction l as [|x l IH]; [by rewrite list_to_set_nil, size_empty|]. rewrite list_to_set_cons. simpl.
  rewrite size_union_alt, size_singleton.
  assert (size ((list_to_set l : gset (nat * positive)) ∖ {[x]}) ≤ size (list_to_set l : gset (nat * positive)))%nat
    by (apply subseteq_size; set_solver). lia.
Qed.

Lemma size_owed (f : nat → nat * positive) (X : gset nat) (Y : gset (nat * positive)) :
  (size (set_map f X ∪ Y) ≤ size X + size Y)%nat.
Proof.
  rewrite size_union_alt. apply Nat.add_le_mono; [|apply subseteq_size; set_solver].
  unfold set_map. etrans; [apply size_list_to_set_le|]. by rewrite length_fmap.
Qed.

Section steps.
Context (isMemAddr : Z → bool) (issuer : nat).
Local Abbreviation inv := (inv isMemAddr issuer).
Local Abbreviation sys_step := (sys_step isMemAddr).

Lemma view_lookup w i p : pes w !! i = Some p → view w !! i = Some (core_of p).
Proof. intros H. unfold view. by rewrite lookup_fmap, H. Qed.

Lemma operate_measure k s i t s' :
  inv k s → enabled s (LOperate i t) → sys_step s (LOperate i t) = Ok s' →
  PEs s' = PEs s ∧ measure s' + 1 ≤ measure s ∧ refused s' = refused s.
Proof.
  intros Hi (_ & _ & p & Hp & Hop) H. unfold sys_step in H.
  set (w0 := set_curTick _ _) in H. destruct (run (operateTraffic i) w0) as [w'|] eqn:Hr; [|done].
  cbn [mbind res_bind] in H. injection H as <-. apply run_Ok in Hr as [u Hr].
  assert (view w0 = alter (set_op false) i (view (world s))) as Hv0 by (by apply view_alter).
  assert (pes w0 !! i = Some (set_operateNextEvent None p)) as Hp0 by (simpl; by rewrite lookup_alter_eq, Hp).
  assert (k_op (core_of p) = true) as Hk by (simpl; apply bool_decide_eq_true; congruence).
  pose proof (view_lookup _ _ _ Hp) as Hc.
  destruct (operateTraffic_view _ _ _ _ _ Hp0 Hr) as [[_ Hv]|(e & He & Hv)]; rewrite Hv0 in Hv.
  - destruct (measure_step s (mkSys w' (pending s) (refused s)) i (set_op false) (core_of p) Hc Hv) as [HN Hm].
    split; [done|]. split; [|done]. rewrite Hm, worth_set_op, Hk. simpl. lia.
  - rewrite alter_twice in Hv.
    destruct (measure_step s (mkSys w' (pending s) (refused s)) i _ (core_of p) Hc Hv) as [HN Hm].
    split; [done|]. split; [|done]. rewrite Hm. clear Hm Hv HN. simpl pending.
    set (c0 := set_op false (core_of p)). set (line := cache_line_size (pe_params p)).
    change (cache_line_size (pe_params (set_operateNextEvent None p))) with line.
    assert (Z.of_nat (length (traffic_list p)) < 2 ^ 32) as Hlen.
    { destruct (i_pe _ _ _ _ Hi i p Hp) as (_ & Hlo & _). by apply Hlo. }
    assert (k_traffic (entry_effect line e c0) = traffic_list p ∧ k_cur (entry_effect line e c0) = cur_traffic p ∧
            k_line (entry_effect line e c0) = line) as (E1 & E2 & E3).
    { unfold entry_effect. by repeat destruct (bool_decide _). }
    match goal with |- context [worth ?N ((?f ∘ ?g) (core_of p))] =>
      change ((f ∘ g) (core_of p)) with (next_entry (entry_effect line e c0)) end.
    rewrite (worth_next _ line e); [|by rewrite E1, E2|done|by rewrite E1].
    pose proof (worth_effect (PEs s) line e c0 eq_refl).
    assert (worth (PEs s) c0 = worth (PEs s) (core_of p) - 1) by (unfold c0; rewrite worth_set_op, Hk; simpl; lia).
    lia.
Qed.

Lemma resp_measure k s i r t s' :
  inv k s → enabled s (LResp i r t) → sys_step s (LResp i r t) = Ok s' →
  PEs s' = PEs s ∧ measure s' + 1 ≤ measure s ∧ refused s' = refused s.
Proof.
  intros Hi (_ & _ & Hin) H. unfold sys_step in H.
  destruct (packets (world s) !! r) as [q|]; [|done]. cbn [of_option mbind res_bind] in H.
  destruct (response_packet q) as [q'|]; [|done]. cbn [mbind res_bind] in H.
  set (w0 := set_curTick _ _) in H. destruct (run _ w0) as [w'|] eqn:Hr; [|done].
  cbn [mbind res_bind] in H. injection H as <-. apply run_Ok in Hr as [u Hr].
  destruct (recvTimingResp_view _ _ _ _ _ Hr) as [b Hv].
  change (view w0) with (view (world s)) in Hv.
  destruct (i_pend _ _ _ _ Hi i r Hin) as [[p Hp] _]. pose proof (view_lookup _ _ _ Hp) as Hc.
  destruct (measure_step s (mkSys w' (pending s ∖ {[(i, r)]}) (refused s)) i _ _ Hc Hv) as [HN Hm].
  split; [done|]. split; [|done]. rewrite Hm. simpl pending.
  pose proof (worth_maybe_op (PEs s) b (core_of p)).
  assert (size (pending s ∖ {[(i, r)]}) = size (pending s) - 1)%nat as ->.
  { rewrite size_difference by set_solver. by rewrite size_singleton. }
  assert (size (pending s) ≠ 0)%nat; [|lia]. apply size_non_empty_iff. set_solver.
Qed.

(** The packet a PE sends next is in its queue and goes to the memory. *)
Lemma front_ok k s i p q rest :
  inv k s → pes (world s) !! i = Some p →
  waitingSend (negb (empty_queue (waitingSend_write p))) p = q :: rest →
  ∃ kk, packets (world s) !! q = Some kk ∧ isMemAddr (rq_addr (pk_req kk)) = true.
Proof.
  intros Hi Hp Hq. destruct (i_pe _ _ _ _ Hi i p Hp) as (_ & _ & [Hr Hw] & _).
  destruct (negb _); simpl in Hq; rewrite Hq in *.
  - apply Forall_cons in Hw as [(kk & ? & _ & _ & ?) _]. eauto.
  - apply Forall_cons in Hr as [(kk & ? & _ & _ & ?) _]. eauto.
Qed.

Lemma targets_size k s i kk : inv k s → is_Some (pes (world s) !! i) → (Z.of_nat (size (targets (world s) i kk)) ≤ PEs s).
Proof.
  intros Hi [p Hp]. unfold PEs. apply Nat2Z.inj_le, subseteq_size. unfold view. rewrite dom_fmap_L.
  unfold targets. destruct (rq_broadcast _).
  - intros j Hj. apply elem_of_list_to_set, list_elem_of_fmap in Hj as ([c j'] & -> & Hj).
    apply elem_of_map_to_list in Hj. destruct (i_list _ _ _ _ Hi _ _ Hj) as (pj & Hpj & _). by apply elem_of_dom_2 in Hpj.
  - apply singleton_subseteq_l. by apply elem_of_dom_2 in Hp.
Qed.

Lemma send_measure k s i t acc s' :
  inv k s → enabled s (LSend i t acc) → sys_step s (LSend i t acc) = Ok s' →
  PEs s' = PEs s ∧
  if acc then measure s' + 1 ≤ measure s ∧ refused s' = refused s
  else measure s' = measure s ∧ refused s' = {[i]} ∪ refused s.
Proof.
  intros Hi (_ & _ & p & Hp & Hsr) H. unfold sys_step in H.
  set (w0 := set_curTick _ _) in H. destruct (run _ w0) as [w'|] eqn:Hr; [|done].
  cbn [mbind res_bind] in H. apply run_Ok in Hr as [u Hr].
  set (p0 := set_scheduleReqEvent None p).
  assert (pes w0 !! i = Some p0) as Hp0 by (simpl; by rewrite lookup_alter_eq, Hp).
  assert (view w0 = view (world s)) as Hv0.
  { change (view w0) with (view (set_pes (alter (set_scheduleReqEvent None) i (pes (world s))) (world s))).
    rewrite (view_alter _ id) by done. by apply alter_same. }
  unfold scheduleReq in Hr. rewrite (M_bind_ok _ _ _ p0 w0) in Hr by (unfold get_pe; by rewrite Hp0).
  set (write := negb _) in Hr. change (negb (empty_queue (waitingSend_write p))) with write in *.
  destruct (waitingSend write p0) as [|q rest] eqn:Hq; [done|].
  destruct (front_ok k s i p q rest Hi Hp Hq) as (kk & Hkk & Hmem).
  rewrite (M_bind_ok _ _ _ kk w0) in Hr by (unfold get_packet; simpl; by rewrite Hkk). rewrite Hmem in Hr.
  assert (front_packet (world s) i = Some kk) as Hfront.
  { assert (waitingSend write p = q :: rest) as Hq' by exact Hq.
    unfold front_packet, front. rewrite Hp.
    change (negb (empty_queue (waitingSend_write p))) with write. by rewrite Hq'. }
  rewrite Hfront, Hmem in H. pose proof (view_lookup _ _ _ Hp) as Hc.
  apply M_bind_inv in Hr as ([] & w1 & Hst & Hr).
  assert (quiet (upd_pe i (λ p, set_stats (inc_numPackets (stats p)) p))) as Hqs by (apply quiet_upd_pe; done).
  pose proof (Hqs _ _ _ Hst) as Hv1. rewrite Hv0 in Hv1.
  destruct acc.
  - injection H as <-. set (p1 := set_stats (inc_numPackets (stats p0)) p0).
    assert (pes w1 !! i = Some p1) as Hp1.
    { injection Hst as <-. cbn [pes set_pes]. rewrite lookup_alter_eq.
      change (alter (set_scheduleReqEvent None) i (pes (world s)) !! i) with (pes w0 !! i). by rewrite Hp0. }
    assert (waitingSend write p1 ≠ []) as Hne by (change (waitingSend write p1) with (waitingSend write p0); by rewrite Hq).
    destruct (packet_sent_view i write kk w1 u w' p1 Hp1 Hne Hr) as [b Hv].
    rewrite Hv1 in Hv.
    destruct (measure_step s (mkSys w' (set_map (λ j, (j, rq_id (pk_req kk))) (targets (world s) i kk) ∪ pending s) (refused s))
      i _ _ Hc Hv) as [HN Hm].
    split; [done|]. split; [|done]. rewrite Hm. simpl pending. cbn [compose].
    pose proof (worth_maybe_op (PEs s) b (add_queued (-1) (core_of p))). rewrite worth_dequeue in H.
    assert (size (set_map (λ j, (j, rq_id (pk_req kk))) (targets (world s) i kk) ∪ pending s) ≤
      size (targets (world s) i kk) + size (pending s))%nat as Hsz.
    { apply size_owed. }
    pose proof (targets_size k s i kk Hi ltac:(eauto)). lia.
  - injection H as <-.
    assert (view w' = view (world s)) as Hv.
    { run_M Hr. assert (quiet (upd_pe i (set_retryPktTick (curTick w1)))) as Hqr by (apply quiet_upd_pe; done).
      by rewrite (Hqr _ _ _ Hr). }
    unfold PEs, measure, ids_of. simpl. unfold PEs. simpl. by rewrite Hv.
Qed.
End steps.

(** ** Runs *)

Inductive trace (isMemAddr : Z → bool) (s0 : Sys) : list label → Sys → Prop :=
  | trace_nil : trace isMemAddr s0 [] s0
  | trace_snoc ls s l s' :
      trace isMemAddr s0 ls s → enabled s l → sys_step isMemAddr s l = Ok s' →
      trace isMemAddr s0 (ls ++ [l]) s'.

Definition is_refusal (l : label) : bool := match l with LSend _ _ false => true | _ => false end.
Definition is_retry (l : label) : bool := match l with LRetry _ _ => true | _ => false end.
Definition count (f : label → bool) (ls : list label) : Z := Z.of_nat (length (filter (λ l, f l = true) ls)).

Lemma count_snoc f ls l : count f (ls ++ [l]) = count f ls + Z.b2z (f l).
Proof.
  unfold count. rewrite filter_app, length_app, filter_cons, filter_nil.
  destruct (f l); [rewrite decide_True by done|rewrite decide_False by done]; simpl; lia.
Qed.

Lemma count_split ls :
  Z.of_nat (length ls) = count progress ls + count is_refusal ls + count is_retry ls.
Proof.
  induction ls as [|l ls IH] using rev_ind; [done|]. rewrite length_app, !count_snoc. simpl.
  destruct l as [| ? ? []| |]; simpl; lia.
Qed.

Lemma trace_reachable isMemAddr s0 ls s : trace isMemAddr s0 ls s → reachable isMemAddr s0 s.
Proof. induction 1; [constructor|by eapply reach_step]. Qed.

(** A run uses worth up with its progress, and retries only what was refused. *)
Lemma trace_measure isMemAddr issuer s0 ls s :
  started isMemAddr issuer s0 → trace isMemAddr s0 ls s →
  measure s + count progress ls ≤ measure s0 ∧
  count is_retry ls + Z.of_nat (size (refused s)) ≤ count is_refusal ls.
Proof.
  intros H0 Htr. induction Htr as [|ls s l s' Htr [IHm IHr] Hen Hst].
  { destruct H0 as [_ (_ & _ & _ & Href & _) _ _ _ _ _ _]. rewrite Href, size_empty.
    unfold count. simpl. lia. }
  destruct (reachable_inv _ _ _ _ H0 (trace_reachable _ _ _ _ Htr)) as [k Hi]. rewrite !count_snoc.
  destruct l as [i t|i t acc|i t|i r t]; simpl.
  - destruct (operate_measure _ _ _ _ _ _ _ Hi Hen Hst) as (_ & ? & ->). lia.
  - destruct (send_measure _ _ _ _ _ _ _ _ Hi Hen Hst) as [_ Hm]. destruct acc; destruct Hm as [? ->]; simpl; [lia|].
    rewrite size_union_alt, size_singleton.
    assert (size (refused s ∖ {[i]}) ≤ size (refused s))%nat by (apply subseteq_size; set_solver). lia.
  - destruct Hen as (_ & _ & Hin). unfold sys_step in Hst. set (w0 := set_curTick t (world s)) in Hst.
    destruct (run _ w0) as [w'|] eqn:Hr; [|done]. cbn [mbind res_bind] in Hst. injection Hst as <-.
    apply run_Ok in Hr as [u Hr]. apply quiet_recvReqRetry in Hr. change (view w0) with (view (world s)) in Hr.
    assert (measure (mkSys w' (pending s) (refused s ∖ {[i]})) = measure s) as ->.
    { unfold measure, ids_of, PEs. simpl. by rewrite Hr. }
    simpl. rewrite size_difference, size_singleton by set_solver.
    assert (size (refused s) ≠ 0)%nat by (apply size_non_empty_iff; set_solver). lia.
  - destruct (resp_measure _ _ _ _ _ _ _ _ Hi Hen Hst) as (_ & ? & ->). lia.
Qed.

Lemma ahead_nonneg N line l : 0 ≤ N → 0 ≤ ahead N line l.
Proof.
  intros HN. unfold ahead. induction l as [|t l IH]; [done|]. simpl.
  assert (0 ≤ weight N line t); [|lia]. unfold weight.
  assert (0 ≤ packets_of line t) by (unfold packets_of; lia). repeat destruct (bool_decide _); nia.
Qed.

Lemma measure_nonneg s : 0 ≤ measure s.
Proof.
  assert (0 ≤ PEs s) as HN by (unfold PEs; lia). unfold measure.
  assert (0 ≤ total (PEs s) (ids_of s) (view (world s))); [|lia].
  induction (ids_of s) as [|i ids IH]; [done|]. simpl.
  assert (0 ≤ from_option (worth (PEs s)) 0 (view (world s) !! i)); [|lia].
  unfold view. rewrite lookup_fmap. destruct (pes (world s) !! i) as [p|]; simpl; [|done]. unfold worth. simpl.
  pose proof (ahead_nonneg (PEs s) (cache_line_size (pe_params p)) (drop (Z.to_nat (cur_traffic p)) (traffic_list p)) HN).
  destruct (bool_decide _); simpl; nia.
Qed.

(** The number of steps the traffic of the PEs is worth: for [n] PEs, every
    PE's first event, every entry, and [2 * n + 2] for every packet. *)
Definition budget (s : Sys) : Z :=
  let n := Z.of_nat (size (dom (pes (world s)))) in
  foldr (λ i a, from_option (λ p, 1 + ahead n (cache_line_size (pe_params p)) (traffic_list p)) 0
                  (pes (world s) !! i) + a) 0 (elements (dom (pes (world s)))).

Lemma started_budget isMemAddr issuer s : started isMemAddr issuer s → measure s = budget s.
Proof.
  intros [_ (_ & _ & Hpend & _) _ _ _ _ Hpe _]. unfold measure, budget, ids_of, PEs. rewrite Hpend, size_empty.
  unfold view. rewrite dom_fmap_L. rewrite Z.add_0_r.
  induction (elements (dom (pes (world s)))) as [|i ids IH]; [done|]. simpl. rewrite IH. f_equal.
  rewrite lookup_fmap. destruct (pes (world s) !! i) as [p|] eqn:Hp; simpl; [|done].
  destruct (Hpe i p Hp) as (Hop & _ & Hqr & Hqw & _ & _ & Hcur & _). unfold worth. simpl.
  rewrite Hop, Hqr, Hqw, Hcur. simpl. rewrite drop_0. lia.
Qed.

(** C5. The simulation of the PEs terminates: a run of started PEs, in which
    the memory system refuses packets [r] times, has at most [budget + 2 * r]
    steps, the budget being computed from the traffic lists; so every run is
    finite unless packets are refused for ever. *)
Theorem pes_terminate isMemAddr issuer s0 ls s :
  started isMemAddr issuer s0 → trace isMemAddr s0 ls s →
  Z.of_nat (length ls) ≤ budget s0 + 2 * count is_refusal ls.
Proof.
  intros H0 Htr. destruct (trace_measure _ _ _ _ _ H0 Htr) as [Hm Hr].
  rewrite <-(started_budget _ _ _ H0). pose proof (measure_nonneg s). rewrite count_split. lia.
Qed.

Lemma pes_terminate_witness :
  trace ex_mem ex_s0 [LOperate 0 1; LOperate 1 1] (ex_state 2) ∧ 2 ≤ budget ex_s0 + 2 * 0.
Proof.
  assert (trace ex_mem ex_s0 [LOperate 0 1; LOperate 1 1] (ex_state 2)) as Htr.
  { apply (trace_snoc ex_mem ex_s0 [LOperate 0 1] (ex_state 1)); [|solve_enabled|vm_compute; reflexivity].
    apply (trace_snoc ex_mem ex_s0 [] (ex_state 0)); [apply trace_nil|solve_enabled|vm_compute; reflexivity]. }
  split; [exact Htr|].
  exact (pes_terminate ex_mem 0 ex_s0 [LOperate 0 1; LOperate 1 1] (ex_state 2) ex_started Htr).
Defined.
