(* ===== verification/BitField.v ===== *)
(** * Bit fields

    The functions of [base/bitfield.hh] that address decoding uses, on 64-bit
    values, and the two binary searches for the highest and the lowest set bit,
    with the proof that they find them. *)
From stdpp Require Import base tactics list numbers strings.
From Stdlib Require Import ZArith Lia.
From S2P Require Import Prelude.
Local Open Scope Z_scope.

Module BitField.
(** [x << n] and [x >> n] on [uint64_t]: shifting by the width or more is
    undefined. *)
Definition shl64 (x n : Z) : res Z := if n <? 64 then Ok (u64 (Z.shiftl x n)) else Err EOverflow.
Definition shr64 (x n : Z) : res Z := if n <? 64 then Ok (Z.shiftr x n) else Err EOverflow.

(** [~x] on [uint64_t] *)
Definition not64 (x : Z) : Z := u64 (Z.lnot x).

Definition mask (nbits : Z) : Z := if 64 <=? nbits then 2 ^ 64 - 1 else Z.shiftl 1 nbits - 1.

Definition mbits (val first last : Z) : Z := Z.land val (Z.land (mask (u32 (first + 1))) (not64 (mask last))).

(** [mask(first, last)] *)
Definition mask_range (first last : Z) : Z := mbits (2 ^ 64 - 1) first last.

Definition bits (val first last : Z) : res Z :=
  if first <? last then Err (EAssert "first >= last") else
  x ← shr64 val last;
  Ok (Z.land x (mask (u32 (first - last + 1)))).

Definition insertBits (val first last bit_val : Z) : res Z :=
  if first <? last then Err (EAssert "first >= last") else
  let bmask := mask_range first last in
  x ← shl64 bit_val last;
  Ok (Z.lor (Z.land val (not64 bmask)) (Z.land x bmask)).

(** [__builtin_popcountl] and [__builtin_ctzll] *)
Fixpoint pop_pos (p : positive) : Z :=
  match p with xH => 1 | xO q => pop_pos q | xI q => 1 + pop_pos q end.
Definition popCount (val : Z) : Z := match val with Zpos p => pop_pos p | _ => 0 end.

Fixpoint ctz_pos (p : positive) : Z :=
  match p with xO q => 1 + ctz_pos q | _ => 0 end.
Definition ctz64 (value : Z) : Z := match value with Zpos p => ctz_pos p | _ => 64 end.

(** One [if] of the binary searches: the test, and what it adds and shifts. *)
Definition msb_step (first last n : Z) (s : Z * Z) : res (Z * Z) :=
  b ← bits s.2 first last;
  Ok (if b =? 0 then s else (s.1 + n, Z.shiftr s.2 n)).
Definition lsb_step (first n : Z) (s : Z * Z) : res (Z * Z) :=
  b ← bits s.2 first 0;
  Ok (if b =? 0 then (s.1 + n, Z.shiftr s.2 n) else s).

Definition findMsbSet (val : Z) : res Z :=
  if val =? 0 then Ok 0 else
  s ← msb_step 63 32 32 (0, val);
  s ← msb_step 31 16 16 s;
  s ← msb_step 15 8 8 s;
  s ← msb_step 7 4 4 s;
  s ← msb_step 3 2 2 s;
  b ← bits s.2 1 1;
  Ok (if b =? 0 then s.1 else s.1 + 1).

Definition findLsbSet (val : Z) : res Z :=
  if val =? 0 then Ok 64 else
  s ← lsb_step 31 32 (0, val);
  s ← lsb_step 15 16 s;
  s ← lsb_step 7 8 s;
  s ← lsb_step 3 4 s;
  s ← lsb_step 1 2 s;
  b ← bits s.2 0 0;
  Ok (if b =? 0 then s.1 + 1 else s.1).

(** ** The fields *)

Lemma mask_ones n : 0 ≤ n → mask n = Z.ones (Z.min n 64).
Proof.
  intros Hn. unfold mask. destruct (Z.leb_spec 64 n); [by rewrite Z.min_r by lia|].
  rewrite Z.min_l by lia. by rewrite Z.shiftl_1_l, Z.ones_equiv, Z.sub_1_r.
Qed.

Lemma testbit_mask n i : 0 ≤ n → 0 ≤ i → Z.testbit (mask n) i = (i <? n) && (i <? 64).
Proof.
  intros Hn Hi. rewrite mask_ones by done.
  destruct (Z.ltb_spec i n), (Z.ltb_spec i 64); cbn [andb];
    (apply Z.ones_spec_low || apply Z.ones_spec_high); lia.
Qed.

Lemma testbit_u64 z i : 0 ≤ i → Z.testbit (u64 z) i = (i <? 64) && Z.testbit z i.
Proof.
  intros Hi. unfold u64. destruct (Z.ltb_spec i 64); cbn [andb].
  - apply Z.mod_pow2_bits_low. lia.
  - apply Z.mod_pow2_bits_high. lia.
Qed.

Lemma testbit_not64 z i : 0 ≤ i → Z.testbit (not64 z) i = (i <? 64) && negb (Z.testbit z i).
Proof. intros Hi. unfold not64. by rewrite testbit_u64, Z.lnot_spec. Qed.

Lemma testbit_mask_range first last i :
  0 ≤ last → 0 ≤ first < 2 ^ 32 - 1 → 0 ≤ i →
  Z.testbit (mask_range first last) i = (last <=? i) && (i <=? first) && (i <? 64).
Proof.
  intros Hl Hf Hi. unfold mask_range, mbits. rewrite !Z.land_spec.
  change (2 ^ 64 - 1) with (mask 64). unfold u32. rewrite Z.mod_small by lia.
  rewrite testbit_not64, !testbit_mask by lia.
  destruct (Z.ltb_spec i 64), (Z.leb_spec last i), (Z.leb_spec i first), (Z.ltb_spec i (first + 1)), (Z.ltb_spec i last);
    simpl; lia || done.
Qed.

Lemma insertBits_spec val first last b :
  0 ≤ val < 2 ^ 64 → 0 ≤ last ≤ first → last < 64 → first < 2 ^ 32 - 1 →
  ∃ x, insertBits val first last b = Ok x ∧ 0 ≤ x < 2 ^ 64 ∧
    ∀ i, 0 ≤ i < 64 → Z.testbit x i = if (last <=? i) && (i <=? first) then Z.testbit b (i - last) else Z.testbit val i.
Proof.
  intros Hv Hl Hl64 Hf. unfold insertBits. rewrite (proj2 (Z.ltb_ge _ _)) by lia.
  unfold shl64. rewrite (proj2 (Z.ltb_lt _ _)) by lia. cbn [mbind res_bind].
  eexists. split; [reflexivity|]. set (x := Z.lor _ _).
  assert (0 ≤ x) as Hx0.
  { apply Z.lor_nonneg. split; apply Z.land_nonneg; [lia|]. left. unfold u64. apply Z.mod_pos_bound. lia. }
  assert (x = u64 x) as Hx.
  { apply Z.bits_inj'. intros i Hi. rewrite testbit_u64 by done. destruct (Z.ltb_spec i 64); [done|]. cbn [andb].
    unfold x. rewrite Z.lor_spec, !Z.land_spec, testbit_not64, testbit_u64 by done.
    rewrite (proj2 (Z.ltb_ge i 64)) by done. by rewrite andb_false_r. }
  split; [rewrite Hx; unfold u64; apply Z.mod_pos_bound; lia|].
  intros i Hi. unfold x. rewrite Z.lor_spec, !Z.land_spec, testbit_not64, testbit_u64, !testbit_mask_range by lia.
  rewrite (proj2 (Z.ltb_lt i 64)) by lia. rewrite Z.shiftl_spec by lia.
  by destruct (Z.testbit val i), (Z.testbit b (i - last)), (last <=? i), (i <=? first).
Qed.

(** A field that ends at the wrapped bit [-1] is empty. *)
Lemma insertBits_empty val b : 0 ≤ val < 2 ^ 64 → insertBits val (2 ^ 32 - 1) 0 b = Ok val.
Proof.
  intros Hv. unfold insertBits. change (2 ^ 32 - 1 <? 0) with false. cbn iota.
  unfold shl64. change (0 <? 64) with true. cbn [mbind res_bind]. f_equal.
  change (mask_range (2 ^ 32 - 1) 0) with 0. rewrite Z.land_0_r, Z.lor_0_r.
  change (not64 0) with (Z.ones 64). rewrite Z.land_ones by lia. apply Z.mod_small. lia.
Qed.

(** ** The searches *)

Lemma bits_range val first last :
  0 ≤ last ≤ first → first < 64 → bits val first last = Ok (Z.shiftr val last mod 2 ^ (first - last + 1)).
Proof.
  intros Hl Hf. unfold bits, shr64. rewrite (proj2 (Z.ltb_ge _ _)) by lia.
  rewrite (proj2 (Z.ltb_lt last 64)) by lia. cbn [mbind res_bind]. f_equal.
  unfold u32. rewrite (Z.mod_small (_ + 1)) by lia. rewrite mask_ones, Z.min_l by lia.
  by rewrite Z.land_ones by lia.
Qed.

(** A step of the search for the highest bit halves the range. *)
Lemma msb_step_ok f n acc x : f = 2 * n - 1 → 0 < n ≤ 32 → 0 < x < 2 ^ (2 * n) →
  ∃ acc' x', msb_step f n n (acc, x) = Ok (acc', x') ∧ 0 < x' < 2 ^ n ∧ acc' + Z.log2 x' = acc + Z.log2 x.
Proof.
  intros -> Hn Hx. unfold msb_step. rewrite bits_range by lia. cbn [mbind res_bind fst snd].
  replace (2 * n - 1 - n + 1) with n by lia. rewrite Z.shiftr_div_pow2 by lia.
  replace (2 * n) with (n + n) in Hx by lia. rewrite Z.pow_add_r in Hx by lia.
  assert (0 < 2 ^ n) by (apply Z.pow_pos_nonneg; lia).
  assert (x / 2 ^ n < 2 ^ n) by (apply Z.div_lt_upper_bound; lia).
  assert (0 ≤ x / 2 ^ n) by (apply Z.div_pos; lia).
  rewrite Z.mod_small by lia. destruct (Z.eqb_spec (x / 2 ^ n) 0) as [Hq|Hq].
  - exists acc, x. split; [done|]. split; [|done]. apply Z.div_small_iff in Hq; lia.
  - eexists _, _. split; [reflexivity|]. split; [lia|]. rewrite <-Z.shiftr_div_pow2 by lia.
    rewrite Z.log2_shiftr by lia. assert (n ≤ Z.log2 x); [|lia].
    apply Z.log2_le_pow2; [lia|]. destruct (Z.lt_ge_cases x (2 ^ n)); [rewrite Z.div_small in Hq; lia|done].
Qed.

Lemma ctz_double x n : 0 < x → 0 ≤ n → ctz64 (x * 2 ^ n) = n + ctz64 x.
Proof.
  intros Hx Hn. revert x Hx. pattern n. apply natlike_ind; [|clear n Hn|done].
  { intros x Hx. by rewrite Z.mul_1_r. }
  intros n Hn IH x Hx. rewrite Z.pow_succ_r by done. replace (x * (2 * 2 ^ n)) with ((2 * x) * 2 ^ n) by lia.
  rewrite IH by lia. destruct x as [|p|p]; [lia| |lia]. change (2 * Zpos p) with (Zpos (xO p)). cbn [ctz64 ctz_pos]. lia.
Qed.

(** A step of the search for the lowest bit halves the number of low bits that
    may all be clear. *)
Lemma lsb_step_ok f n acc x : f = n - 1 → 0 < n ≤ 32 → 0 ≤ x → x mod 2 ^ (2 * n) ≠ 0 →
  ∃ acc' x', lsb_step f n (acc, x) = Ok (acc', x') ∧ 0 ≤ x' ∧ x' mod 2 ^ n ≠ 0 ∧
    acc' + ctz64 x' = acc + ctz64 x.
Proof.
  intros -> Hn Hx Hm. unfold lsb_step. rewrite bits_range by lia. cbn [mbind res_bind fst snd].
  replace (n - 1 - 0 + 1) with n by lia. rewrite Z.shiftr_0_r.
  assert (0 < 2 ^ n) by (apply Z.pow_pos_nonneg; lia).
  destruct (Z.eqb_spec (x mod 2 ^ n) 0) as [H0|H0]; [|by exists acc, x].
  eexists _, _. split; [reflexivity|]. rewrite Z.shiftr_div_pow2 by lia.
  assert (x = x / 2 ^ n * 2 ^ n) as E by (pose proof (Z.div_mod x (2 ^ n)); lia).
  assert (0 ≤ x / 2 ^ n) by (apply Z.div_pos; lia).
  assert (x / 2 ^ n mod 2 ^ n ≠ 0) as Hd.
  { intros Hc. apply Hm. rewrite E. replace (2 * n) with (n + n) by lia. rewrite Z.pow_add_r by lia.
    rewrite Z.mul_mod_distr_r by lia. by rewrite Hc. }
  split; [done|]. split; [done|].
  assert (x / 2 ^ n ≠ 0) by (intros Hc; rewrite Hc, Z.mod_0_l in Hd; lia).
  rewrite E at 2. rewrite ctz_double by lia. lia.
Qed.

Lemma ctz_odd x : 0 ≤ x → x mod 2 ≠ 0 → ctz64 x = 0.
Proof.
  intros Hx H. destruct x as [|[p|p|]|p]; try done. destruct H.
  change (Zpos p~0) with (2 * Zpos p). rewrite Z.mul_comm. by apply Z.mod_mul.
Qed.

(** Run one step of a search, by its lemma at the field [f] and the width [n]. *)
Ltac search_step lem f n :=
  let acc := fresh "acc" in let x := fresh "x" in let Hs := fresh in
  match goal with |- context [(?a, ?v)] =>
    destruct (lem f n a v) as (acc & x & Hs & ? & ?); [reflexivity|lia|(assumption || (split; assumption))..|]; rewrite Hs
  end; cbn [mbind res_bind]; clear Hs; destruct_and?.

(** The binary searches of [findMsbSet] and [findLsbSet] find the highest
    and the lowest set bit of every non-zero 64-bit value: the integer logarithm
    and the number of trailing zeros. *)
Theorem find_set_bits val :
  0 < val < 2 ^ 64 → findMsbSet val = Ok (Z.log2 val) ∧ findLsbSet val = Ok (ctz64 val).
Proof.
  intros Hv. unfold findMsbSet, findLsbSet. rewrite (proj2 (Z.eqb_neq _ _)) by lia. split.
  - search_step msb_step_ok 63 32. search_step msb_step_ok 31 16. search_step msb_step_ok 15 8.
    search_step msb_step_ok 7 4. search_step msb_step_ok 3 2.
    assert (Z.log2 val = acc3 + Z.log2 x3) as -> by lia.
    assert (x3 = 1 ∨ x3 = 2 ∨ x3 = 3) as Hx by lia. cbn [fst snd].
    assert (bits x3 1 1 = Ok (Z.log2 x3) ∧ Z.log2 x3 ≤ 1) as [-> ?] by (by destruct Hx as [->|[->| ->]]).
    cbn [mbind res_bind]. pose proof (Z.log2_nonneg x3). f_equal. destruct (Z.eqb_spec (Z.log2 x3) 0); lia.
  - assert (0 ≤ val) by lia. assert (val mod 2 ^ (2 * 32) ≠ 0) by (rewrite Z.mod_small; lia).
    search_step lsb_step_ok 31 32. search_step lsb_step_ok 15 16. search_step lsb_step_ok 7 8.
    search_step lsb_step_ok 3 4. search_step lsb_step_ok 1 2.
    assert (ctz64 val = acc3 + ctz64 x3) as -> by lia. cbn [fst snd].
    rewrite bits_range by lia. cbn [mbind res_bind]. rewrite Z.shiftr_0_r. change (2 ^ (0 - 0 + 1)) with 2. f_equal.
    change (2 ^ 2) with 4 in *.
    destruct (Z.eqb_spec (x3 mod 2) 0) as [He|He]; [|rewrite (ctz_odd x3) by done; lia].
    assert (x3 = x3 / 2 * 2 ^ 1) as E by (pose proof (Z.div_mod x3 2); lia).
    assert (x3 / 2 mod 2 ≠ 0) by (Z.to_euclidean_division_equations; lia).
    rewrite E, ctz_double, (ctz_odd (x3 / 2)); Z.to_euclidean_division_equations; lia.
Qed.

Lemma find_set_bits_witness :
  findMsbSet 40 = Ok (Z.log2 40) ∧ findLsbSet 40 = Ok (ctz64 40).
Proof. apply (find_set_bits 40). lia. Defined.
End BitField.
