(* ===== verification/AddrRange.v ===== *)
(** * Address ranges

    [base/addr_range.hh]: half-open ranges of 64-bit addresses, possibly
    interleaved.  Each mask of an interleaved range selects bits of an address,
    and their exclusive or is one bit of the value that has to match.  Undefined
    shifts and [fatal]/[panic] are errors; [to_string], which only feeds the
    messages, is left out. *)
From stdpp Require Import base tactics list numbers strings.
From Stdlib Require Import ZArith Lia.
From S2P Require Import Prelude BitField.
Import BitField.
Local Open Scope Z_scope.

Module AddrRange.
Record AddrRange := mk {
  _start : Z;          (* Addr, included *)
  _end : Z;            (* Addr, not included *)
  masks : list Z;      (* Addr *)
  intlvMatch : Z;      (* uint8_t *)
}.

#[export] Instance AddrRange_eq_dec : EqDecision AddrRange.
Proof. solve_decision. Defined.

Definition MaxAddr : Z := 2 ^ 64 - 1.

(** ** Constructors *)

Definition range_default : AddrRange := mk 1 0 [] 0.
Definition range (start stop : Z) : AddrRange := mk start stop [] 0.

(** [bits && intlv_match >= 1ULL << bits] *)
Definition does_not_fit (bits intlv_match : Z) : res bool :=
  if bits =? 0 then Ok false else
  bound ← shl64 1 bits; Ok (bound <=? intlv_match).

Definition range_masks (start stop : Z) (ms : list Z) (intlv_match : Z) : res AddrRange :=
  b ← does_not_fit (Z.of_nat (length ms)) intlv_match;
  if (b : bool) then Err (EPanic "Match value does not fit in interleaving bits") else
  Ok (mk start stop ms intlv_match).

(** The [i]-th iteration of the loop that fills the masks, from the highest
    interleaving bit down. *)
Definition legacy_mask (intlv_high_bit xor_high_bit i : Z) : res Z :=
  m ← shl64 1 ((intlv_high_bit - i) mod 2 ^ 8);
  if xor_high_bit =? 0 then Ok m else
  m2 ← shl64 1 ((xor_high_bit - i) mod 2 ^ 8); Ok (Z.lor m m2).

Fixpoint legacy_masks (intlv_high_bit xor_high_bit intlv_bits : Z) (n : nat) (i : Z) (ms : list Z) : res (list Z) :=
  match n with
  | O => Ok ms
  | S n' =>
      m ← legacy_mask intlv_high_bit xor_high_bit i;
      ms ← vec_set ms (intlv_bits - i - 1) m;
      legacy_masks intlv_high_bit xor_high_bit intlv_bits n' (i + 1) ms
  end.

Definition range_legacy (start stop intlv_high_bit xor_high_bit intlv_bits intlv_match : Z) : res AddrRange :=
  b ← does_not_fit intlv_bits intlv_match;
  if (b : bool) then Err (EPanic "Match value does not fit in interleaving bits") else
  if negb (intlv_bits =? 0) && negb (xor_high_bit =? 0) && (Z.abs (xor_high_bit - intlv_high_bit) <? intlv_bits)
  then Err (EPanic "XOR and interleave high bit must be at least intlv_bits apart") else
  ms ← legacy_masks intlv_high_bit xor_high_bit intlv_bits (Z.to_nat intlv_bits) 0
         (replicate (Z.to_nat intlv_bits) 0);
  Ok (mk start stop ms intlv_match).

(** ** Queries *)

Definition interleaved (r : AddrRange) : bool := (0 <? length (masks r))%nat.
Definition num_masks (r : AddrRange) : Z := Z.of_nat (length (masks r)).

Definition size (r : AddrRange) : res Z := shr64 (u64 (_end r - _start r)) (num_masks r).

(** [combined_mask] is an [int]: each [|=] goes through 64 bits and back. *)
Definition granularity (r : AddrRange) : res Z :=
  if interleaved r then
    let combined_mask := foldl (λ c m, to_i32 (Z.lor (u64 c) m)) 0 (masks r) in
    shl64 1 (ctz64 (u64 combined_mask))
  else size r.

Definition stripes (r : AddrRange) : res Z := x ← shl64 1 (num_masks r); Ok (u32 x).
Definition valid (r : AddrRange) : bool := _start r <=? _end r.
Definition start := _start.
Definition end_ := _end.

Definition mergesWith (this r : AddrRange) : bool :=
  (_start r =? _start this) && (_end r =? _end this) && bool_decide (masks r = masks this).

(** [sel |= (popCount(a & masks[i]) % 2) << i], on [int] *)
Fixpoint sel_loop (a : Z) (ms : list Z) (i sel : Z) : res Z :=
  match ms with
  | [] => Ok sel
  | m :: ms =>
      if 32 <=? i then Err EOverflow else
      sel_loop a ms (i + 1) (Z.lor sel (to_i32 (Z.shiftl (popCount (Z.land a m) mod 2) i)))
  end.

Definition contains (r : AddrRange) (a : Z) : res bool :=
  if (_start r <=? a) && (a <? _end r) then
    sel ← sel_loop a (masks r) 0 0; Ok (sel =? intlvMatch r)
  else Ok false.

Definition intersects (this r : AddrRange) : res bool :=
  if (_end r <=? _start this) || (_end this <=? _start r) then Ok false
  else if negb (interleaved this) && negb (interleaved r) then Ok true
  else
    s ← size r;
    if s =? 1 then contains this (_start r)
    else if mergesWith this r then Ok (intlvMatch this =? intlvMatch r)
    else Err (EPanic "Cannot test intersection").

Definition isSubset (this r : AddrRange) : res bool :=
  if interleaved this then Err (EPanic "Cannot test subset of interleaved range") else
  if interleaved r then
    b1 ← contains r (_start this);
    if negb b1 then Ok false else
    b2 ← contains r (u64 (_end this - 1));
    if negb b2 then Ok false else
    s ← size this; g ← granularity r; Ok (s <=? g)
  else Ok ((_start r <=? _start this) && (_end this <=? _end r)).

(** ** Merging interleaved ranges: the constructor from a list *)

Fixpoint merge_check (this : AddrRange) (match_ : Z) (l : list AddrRange) : res unit :=
  match l with
  | [] => Ok tt
  | r :: l =>
      if negb (mergesWith this r) then Err (EPanic "Can only merge ranges with the same start, end and interleaving bits") else
      if negb (intlvMatch r =? match_) then Err (EPanic "Expected interleave match") else
      merge_check this ((match_ + 1) mod 2 ^ 8) l
  end.

Definition range_merge (ranges : list AddrRange) : res AddrRange :=
  let this := default range_default (head ranges) in
  if (1 <? length ranges)%nat then
    n ← shl64 1 (num_masks this);
    if negb (Z.of_nat (length ranges) =? n) then Err (EPanic "Got ranges spanning interleaving bits") else
    _ ← merge_check this 0 ranges;
    Ok (mk (_start this) (_end this) [] 0)
  else Ok this.

(** ** Interleaving bits *)

(** [std::sort] on the positions of the lowest bits. *)
Fixpoint insert_sorted (x : Z) (l : list Z) : list Z :=
  match l with [] => [x] | y :: l' => if x <=? y then x :: l else y :: insert_sorted x l' end.
Definition masks_lsb (r : AddrRange) : list Z := foldr insert_sorted [] (map ctz64 (masks r)).

(** One bit at a time, from the lowest; [i] is unsigned, so the index of the
    field wraps around when the bit has moved to position 0. *)
Fixpoint remove_loop (lsbs : list Z) (i a : Z) : res Z :=
  match lsbs with
  | [] => Ok a
  | b :: lsbs =>
      a ← (if 0 <? b then insertBits (Z.shiftr a 1) (u32 (b - i - 1)) 0 a else Ok (Z.shiftr a 1));
      remove_loop lsbs (i + 1) a
  end.

Definition removeIntlvBits (r : AddrRange) (a : Z) : res Z :=
  if negb (interleaved r) then Ok a else remove_loop (masks_lsb r) 0 a.

Fixpoint add_loop (lsbs : list Z) (a : Z) : res Z :=
  match lsbs with
  | [] => Ok a
  | b :: lsbs =>
      a ← (if 0 <? b then insertBits (u64 (Z.shiftl a 1)) (b - 1) 0 a else Ok (u64 (Z.shiftl a 1)));
      add_loop lsbs a
  end.

(** [~(1 << lsb)]: an [int], converted to [Addr]. *)
Definition not_lsb (lsb : Z) : res Z :=
  if 32 <=? lsb then Err EOverflow else Ok (u64 (Z.lnot (to_i32 (Z.shiftl 1 lsb)))).

Fixpoint set_loop (match_ : Z) (ms : list Z) (i a : Z) : res Z :=
  match ms with
  | [] => Ok a
  | m :: ms =>
      let lsb := ctz64 m in
      intlv_bit ← (if 32 <=? i then Err EOverflow else bits match_ i i);
      others ← not_lsb lsb;
      let masked := Z.land (Z.land a m) others in
      a ← insertBits a lsb lsb (Z.lxor intlv_bit (popCount masked));
      set_loop match_ ms (i + 1) a
  end.

Definition addIntlvBits (r : AddrRange) (a : Z) : res Z :=
  if negb (interleaved r) then Ok a else
  a ← add_loop (masks_lsb r) a;
  set_loop (intlvMatch r) (masks r) 0 a.

Definition getOffset (r : AddrRange) (a : Z) : res Z :=
  if negb ((_start r <=? a) && (a <? _end r)) then Ok MaxAddr else
  if interleaved r then
    x ← removeIntlvBits r a; y ← removeIntlvBits r (_start r); Ok (u64 (x - y))
  else Ok (u64 (a - _start r)).

(** ** Order, equality and exclusion *)

(** [operator<] *)
Definition less (this r : AddrRange) : bool :=
  if negb (_start this =? _start r) then _start this <? _start r
  else if interleaved this && interleaved r then intlvMatch this <? intlvMatch r
  else interleaved this.

(** [operator==] *)
Definition equal (this r : AddrRange) : bool :=
  (_start this =? _start r) && (_end this =? _end r) && bool_decide (masks this = masks r) &&
  (intlvMatch this =? intlvMatch r).

(** [std::list::sort] is stable. *)
Fixpoint insert_range (x : AddrRange) (l : list AddrRange) : list AddrRange :=
  match l with [] => [x] | y :: l' => if less y x then y :: insert_range x l' else x :: l end.
Definition sort (l : list AddrRange) : list AddrRange := foldr insert_range [] l.

Fixpoint exclude_loop (this : AddrRange) (sorted : list AddrRange) (next_start : Z) (ranges : list AddrRange)
    : res (list AddrRange) :=
  match sorted with
  | [] => Ok (if next_start <? _end this then ranges ++ [range next_start (_end this)] else ranges)
  | e :: sorted =>
      if interleaved e then Err (EAssert "!e.interleaved()") else
      b ← intersects this e;
      if negb b then exclude_loop this sorted next_start ranges
      else if _start e <=? next_start then
        if _end e <? _end this then
          exclude_loop this sorted (if next_start <? _end e then _end e else next_start) ranges
        else Ok ranges
      else
        let ranges := ranges ++ [range next_start (_start e)] in
        if _end e <? _end this then exclude_loop this sorted (_end e) ranges else Ok ranges
  end.

Definition exclude (this : AddrRange) (exclude_ranges : list AddrRange) : res (list AddrRange) :=
  if interleaved this then Err (EAssert "!interleaved()") else
  exclude_loop this (sort exclude_ranges) (_start this) [].

(** [exclude(base, to_exclude)] and the operators [-] and [-=] on lists. *)
Fixpoint exclude_each (base sorted : list AddrRange) : res (list AddrRange) :=
  match base with
  | [] => Ok []
  | r :: base => l ← exclude r sorted; l' ← exclude_each base sorted; Ok (l ++ l')
  end.
Definition exclude_list (base to_exclude : list AddrRange) : res (list AddrRange) :=
  exclude_each base (sort to_exclude).

Definition RangeEx (start stop : Z) : AddrRange := range start stop.
Definition RangeIn (start stop : Z) : AddrRange := range start (u64 (stop + 1)).
Definition RangeSize (start sz : Z) : AddrRange := range start (u64 (start + sz)).
End AddrRange.
