(* ===== verification/AddrRangeProps.v ===== *)
(** * What address ranges contain

    The meaning of a range is the set [in_range] of its addresses.  [contains],
    [intersects], [isSubset], [exclude] and the merging constructor compute with
    these sets; removing and adding the interleaving bits are inverse on them. *)
From stdpp Require Import base tactics list numbers strings sorting sets.
From Stdlib Require Import ZArith Lia.
From S2P Require Import Prelude BitField AddrRange.
Import BitField AddrRange.
Local Open Scope Z_scope.

(** ** The number of set bits *)

Lemma popCount_half x : 0 ≤ x → popCount x = Z.b2z (Z.odd x) + popCount (Z.div2 x).
Proof. intros Hx. by destruct x as [|[p|p|]|p]. Qed.

(** The parity of the selected bits. *)
Definition parity (x : Z) : bool := Z.odd (popCount x).

Lemma popCount_clearbit x i : 0 ≤ x → 0 ≤ i → popCount x = Z.b2z (Z.testbit x i) + popCount (Z.clearbit x i).
Proof.
  intros Hx Hi. revert x Hx. pattern i. apply natlike_ind; [|clear i Hi|done].
  - intros x Hx. rewrite (popCount_half x), (popCount_half (Z.clearbit x 0)) by (done || by apply Z.ldiff_nonneg; left).
    rewrite <-!Z.bit0_odd, Z.clearbit_eq by lia. cbn [Z.b2z].
    rewrite Z.add_0_l. f_equal. f_equal. apply Z.bits_inj'. intros n Hn.
    rewrite !Z.div2_spec, !Z.shiftr_spec by lia. by rewrite Z.clearbit_neq by lia.
  - intros i Hi IH x Hx. assert (0 ≤ Z.clearbit x (Z.succ i)) by (apply Z.ldiff_nonneg; by left).
    rewrite (popCount_half x), (popCount_half (Z.clearbit _ _)) by done.
    rewrite (IH (Z.div2 x)) by (by apply Z.div2_nonneg).
    rewrite <-!Z.bit0_odd, Z.clearbit_neq by lia. rewrite (Z.div2_spec x), Z.shiftr_spec by lia.
    replace (Z.div2 (Z.clearbit x (Z.succ i))) with (Z.clearbit (Z.shiftr x 1) i); [rewrite Z.add_1_r; lia|].
    apply Z.bits_inj'. intros n Hn. rewrite Z.div2_spec, !Z.clearbit_eqb, !Z.shiftr_spec, Z.clearbit_eqb by lia.
    destruct (Z.eqb_spec i n), (Z.eqb_spec (Z.succ i) (n + 1)); done || lia.
Qed.

Lemma parity_clearbit x i : 0 ≤ x → 0 ≤ i → parity x = xorb (Z.testbit x i) (parity (Z.clearbit x i)).
Proof.
  intros Hx Hi. unfold parity. rewrite (popCount_clearbit x i) at 1 by done.
  rewrite Z.odd_add. by destruct (Z.testbit x i).
Qed.

(** ** [contains] *)

Definition in_range (r : AddrRange) (a : Z) : Prop :=
  _start r ≤ a < _end r ∧
  ∀ i m, masks r !! i = Some m → parity (Z.land a m) = Z.testbit (intlvMatch r) (Z.of_nat i).

(** What the constructors establish, for at most 8 interleaving bits. *)
Record wf_range (r : AddrRange) : Prop := {
  wf_bounds : 0 ≤ _start r ∧ 0 ≤ _end r < 2 ^ 64;
  wf_masks : (length (masks r) ≤ 8)%nat;
  wf_match : 0 ≤ intlvMatch r < 2 ^ num_masks r;
}.

(** The value the masks select from an address. *)
Definition sel_of (a : Z) (ms : list Z) : Z := foldr (λ m s, Z.b2z (parity (Z.land a m)) + 2 * s) 0 ms.

Lemma sel_of_bounds a ms : 0 ≤ sel_of a ms < 2 ^ Z.of_nat (length ms).
Proof.
  induction ms as [|m ms IH]; [done|]. cbn [sel_of foldr length]. fold (sel_of a ms).
  rewrite Nat2Z.inj_succ, Z.pow_succ_r by lia. destruct (parity _); cbn [Z.b2z]; lia.
Qed.

Lemma testbit_b2z_0 b x : Z.testbit (Z.b2z b + 2 * x) 0 = b.
Proof. rewrite Z.add_comm. apply Z.testbit_0_r. Qed.
Lemma testbit_b2z_succ b x i : 0 ≤ i → Z.testbit (Z.b2z b + 2 * x) (Z.succ i) = Z.testbit x i.
Proof. intros. rewrite Z.add_comm. by apply Z.testbit_succ_r. Qed.

Lemma sel_of_testbit a ms i m :
  ms !! i = Some m → Z.testbit (sel_of a ms) (Z.of_nat i) = parity (Z.land a m).
Proof.
  revert i. induction ms as [|m' ms IH]; intros i Hi; [done|]. cbn [sel_of foldr]. fold (sel_of a ms).
  destruct i as [|i]; [injection Hi as ->; apply testbit_b2z_0|].
  rewrite Nat2Z.inj_succ, testbit_b2z_succ by lia. by apply IH.
Qed.

Lemma mod2_parity x : popCount x mod 2 = Z.b2z (parity x).
Proof. unfold parity. rewrite Zmod_odd. by destruct (Z.odd _). Qed.

Lemma sel_loop_ok a ms : ∀ i sel, 0 ≤ i → i + Z.of_nat (length ms) ≤ 31 →
  sel_loop a ms i sel = Ok (Z.lor sel (Z.shiftl (sel_of a ms) i)).
Proof.
  induction ms as [|m ms IH]; intros i sel Hi Hl; cbn [sel_loop sel_of foldr length] in *.
  { by rewrite Z.shiftl_0_l, Z.lor_0_r. }
  rewrite (proj2 (Z.leb_gt 32 i)), IH by lia. f_equal. rewrite <-Z.lor_assoc. f_equal. fold (sel_of a ms).
  rewrite mod2_parity.
  assert (0 < 2 ^ i ≤ 2 ^ 30) by (split; [by apply Z.pow_pos_nonneg|apply Z.pow_le_mono_r; lia]).
  replace (to_i32 (Z.shiftl (Z.b2z (parity (Z.land a m))) i)) with (Z.shiftl (Z.b2z (parity (Z.land a m))) i).
  2:{ rewrite Z.shiftl_mul_pow2 by done. unfold to_i32. destruct (parity _); cbn [Z.b2z]; rewrite Z.mod_small; lia. }
  apply Z.bits_inj'. intros n Hn. rewrite Z.lor_spec, !Z.shiftl_spec by lia.
  destruct (Z.lt_trichotomy n i) as [?|[->|?]].
  - by rewrite !(Z.testbit_neg_r _ (n - _)) by lia.
  - rewrite Z.sub_diag, testbit_b2z_0, (Z.testbit_neg_r _ (i - (i + 1))) by lia.
    rewrite orb_false_r. by destruct (parity _).
  - replace (n - i) with (Z.succ (n - (i + 1))) at 2 by lia. rewrite testbit_b2z_succ by lia.
    rewrite (Z.bits_above_log2 (Z.b2z _)); [done|by destruct (parity _)|]. destruct (parity _); cbn; lia.
Qed.

Lemma sel_of_match r a :
  wf_range r → sel_of a (masks r) = intlvMatch r ↔
  ∀ i m, masks r !! i = Some m → parity (Z.land a m) = Z.testbit (intlvMatch r) (Z.of_nat i).
Proof.
  intros [_ _ Hm]. split; [by intros <- i m Hi; rewrite (sel_of_testbit _ _ _ m)|].
  intros H. pose proof (sel_of_bounds a (masks r)) as Hb. fold (num_masks r) in Hb.
  apply Z.bits_inj'. intros n Hn. destruct (Z.lt_ge_cases n (num_masks r)) as [Hl|Hl].
  - destruct (lookup_lt_is_Some_2 (masks r) (Z.to_nat n)) as [m Hi]; [unfold num_masks in Hl; lia|].
    rewrite <-(Z2Nat.id n) by done. rewrite (sel_of_testbit _ _ _ m) by done. by apply H.
  - assert (∀ x, 0 ≤ x < 2 ^ num_masks r → Z.testbit x n = false) as Hz; [|by rewrite !Hz].
    intros x Hx. rewrite <-(Z.mod_small x (2 ^ num_masks r)) by done. apply Z.mod_pow2_bits_high. unfold num_masks in *. lia.
Qed.

Lemma contains_ok r a : wf_range r → ∃ b, contains r a = Ok b ∧ (b = true ↔ in_range r a).
Proof.
  intros Hr. unfold contains, in_range. destruct (Z.leb_spec (_start r) a), (Z.ltb_spec a (_end r)); cbn [andb];
    try (eexists; split; [reflexivity|]; split; [done|lia]).
  rewrite sel_loop_ok by (destruct Hr; lia). cbn [mbind res_bind]. rewrite Z.lor_0_l, Z.shiftl_0_r.
  eexists. split; [reflexivity|]. rewrite Z.eqb_eq, sel_of_match by done. naive_solver.
Qed.

(** ** [intersects] *)

Lemma interleaved_nil r : interleaved r = false ↔ masks r = [].
Proof. unfold interleaved. by destruct (masks r). Qed.

Lemma in_range_plain r a : masks r = [] → in_range r a ↔ _start r ≤ a < _end r.
Proof. intros E. unfold in_range. rewrite E. split; [by intros [? _]|]. intros H. by split. Qed.

Lemma mergesWith_spec this r :
  mergesWith this r = true ↔ _start r = _start this ∧ _end r = _end this ∧ masks r = masks this.
Proof. unfold mergesWith. rewrite !andb_true_iff, !Z.eqb_eq, bool_decide_eq_true. tauto. Qed.

(** The pairs of ranges [intersects] can decide: apart, neither interleaved,
    stripes of one interleaved range, or the second a single byte. *)
Definition comparable (this r : AddrRange) : Prop :=
  _end r ≤ _start this ∨ _end this ≤ _start r ∨
  (masks this = [] ∧ masks r = []) ∨
  (mergesWith this r = true ∧ size r ≠ Ok 1) ∨
  (masks r = [] ∧ _end r = _start r + 1).

Lemma size_ok r : wf_range r → size r = Ok (Z.shiftr (u64 (_end r - _start r)) (num_masks r)).
Proof. intros [_ Hm _]. unfold size, shr64, num_masks. by rewrite (proj2 (Z.ltb_lt _ _)) by lia. Qed.

(** Stripes with different match values share nothing. *)
Lemma stripes_disjoint r1 r2 a :
  wf_range r1 → wf_range r2 → mergesWith r1 r2 = true → in_range r1 a → in_range r2 a → intlvMatch r1 = intlvMatch r2.
Proof.
  intros W1 W2 (_ & _ & Hm)%mergesWith_spec [_ H1] [_ H2].
  apply sel_of_match in H1; [|done]. apply sel_of_match in H2; [|done]. congruence.
Qed.

Lemma intersects_ok this r :
  wf_range this → wf_range r → comparable this r →
  (∃ a, in_range this a) → (∃ a, in_range r a) →
  ∃ b, intersects this r = Ok b ∧ (b = true ↔ ∃ a, in_range this a ∧ in_range r a).
Proof.
  intros Wt Wr Hc [at_ Ht] [ar Har]. unfold intersects.
  destruct (Z.leb_spec (_end r) (_start this)); [|destruct (Z.leb_spec (_end this) (_start r))]; cbn [orb].
  1-2: exists false; split; [done|]; split; [done|]; intros (a & [Ha _] & [Ha' _]); lia.
  destruct (interleaved this) eqn:It, (interleaved r) eqn:Ir; cbn [negb andb].
  4:{ apply interleaved_nil in It, Ir. exists true. split; [done|]. split; [|done]. intros _.
      exists (Z.max (_start this) (_start r)). rewrite !in_range_plain by done. destruct Ht as [Ht _], Har as [Hr _]. lia. }
  all: rewrite size_ok by done; cbn [mbind res_bind].
  all: assert (masks this = [] → masks r = [] → False) as Hni by (rewrite <-!interleaved_nil; congruence).
  all: destruct Hc as [?|[?|[[? ?]|[[Hm Hs]|[Hm Hs]]]]]; [lia|lia|exfalso; by apply Hni| |].
  (* a single byte *)
  2,4,6: destruct Wr as [Wb _ _]; unfold num_masks; rewrite Hm, Hs;
    replace (_start r + 1 - _start r) with 1 by lia; change (Z.shiftr (u64 1) (Z.of_nat (length (@nil Z))) =? 1) with true; cbn iota;
    destruct (contains_ok this (_start r) Wt) as (b & -> & Hb); exists b; split; [done|]; rewrite Hb;
    split; [intros Hin; exists (_start r); split; [done|]; apply in_range_plain; [done|lia]|];
    intros (a & Ha & Ha'%in_range_plain); [|done]; assert (a = _start r) as -> by lia; done.
  (* stripes *)
  all: rewrite size_ok in Hs by done; rewrite (proj2 (Z.eqb_neq _ _)) by congruence; rewrite Hm;
    eexists; (split; [reflexivity|]); rewrite Z.eqb_eq; split;
    [|intros (a & Ha & Ha'); by eapply stripes_disjoint];
    intros He; exists at_; split; [done|]; apply mergesWith_spec in Hm as (Hm1 & Hm2 & Hm3);
    destruct Ht as [Ht1 Ht2]; split; [by rewrite Hm1, Hm2|]; by rewrite Hm3, <-He.
Qed.

(** ** [isSubset] *)

Lemma ctz64_spec x : 0 < x →
  0 ≤ ctz64 x ∧ Z.testbit x (ctz64 x) = true ∧ ∀ j, j < ctz64 x → Z.testbit x j = false.
Proof.
  intros Hx. destruct x as [|p|p]; [lia| |lia]. cbn [ctz64]. clear Hx.
  induction p as [p _|p (H0 & H1 & H2)|]; cbn [ctz_pos].
  - split; [lia|]. split; [done|]. intros j Hj. by apply Z.testbit_neg_r.
  - change (Zpos p~0) with (2 * Zpos p). split; [lia|]. rewrite Z.add_comm. split.
    + by rewrite Z.add_1_r, Z.double_bits_succ.
    + intros j Hj. destruct (Z.lt_trichotomy j 0) as [?|[->|?]]; [by apply Z.testbit_neg_r|by apply Z.testbit_even_0|].
      replace j with (Z.succ (j - 1)) by lia. rewrite Z.double_bits_succ. apply H2. lia.
  - split; [lia|]. split; [done|]. intros j Hj. by apply Z.testbit_neg_r.
Qed.

Lemma testbit_to_i32 z i : 0 ≤ i < 32 → Z.testbit (to_i32 z) i = Z.testbit z i.
Proof.
  intros Hi. rewrite <-(Z.mod_pow2_bits_low _ 32), <-(Z.mod_pow2_bits_low z 32) by lia. f_equal.
  unfold to_i32. rewrite Zminus_mod_idemp_l || rewrite <-Zminus_mod_idemp_l, Z.mod_mod, Zminus_mod_idemp_l by lia.
  f_equal. lia.
Qed.

(** The bits the masks combine, as far as an [int] holds them. *)
Definition combined (ms : list Z) : Z := u64 (foldl (λ c m, to_i32 (Z.lor (u64 c) m)) 0 ms).

Lemma combined_testbit_acc ms i : 0 ≤ i < 32 → ∀ c,
  Z.testbit (foldl (λ c m, to_i32 (Z.lor (u64 c) m)) c ms) i = Z.testbit c i || existsb (λ m, Z.testbit m i) ms.
Proof.
  intros Hi. induction ms as [|m ms IH]; intros c; cbn [foldl existsb]; [by rewrite orb_false_r|].
  rewrite IH, testbit_to_i32, Z.lor_spec, testbit_u64, (proj2 (Z.ltb_lt i 64)) by lia.
  cbn [andb]. by rewrite orb_assoc.
Qed.

Lemma combined_testbit ms i : 0 ≤ i < 32 → Z.testbit (combined ms) i = existsb (λ m, Z.testbit m i) ms.
Proof.
  intros Hi. unfold combined. rewrite testbit_u64, (proj2 (Z.ltb_lt i 64)) by lia. cbn [andb].
  by rewrite combined_testbit_acc, Z.testbit_0_l.
Qed.

(** Some mask has a bit an [int] can hold. *)
Definition masks_low (r : AddrRange) : Prop := ∃ i, 0 ≤ i < 32 ∧ existsb (λ m, Z.testbit m i) (masks r) = true.

(** The granularity is the size of the blocks on which the selected value is
    constant. *)
Lemma granularity_ok r : interleaved r = true → masks_low r →
  ∃ k, 0 ≤ k < 32 ∧ granularity r = Ok (2 ^ k) ∧ ∀ m j, m ∈ masks r → 0 ≤ j < k → Z.testbit m j = false.
Proof.
  intros Hi (i & Hi32 & He). unfold granularity. rewrite Hi. fold (combined (masks r)).
  rewrite <-combined_testbit in He by done.
  assert (0 < combined (masks r)) as Hpos.
  { assert (0 ≤ combined (masks r)) by (unfold combined, u64; apply Z.mod_pos_bound; lia).
    assert (combined (masks r) ≠ 0) by (intros Hz; by rewrite Hz, Z.testbit_0_l in He). lia. }
  destruct (ctz64_spec _ Hpos) as (H0 & H1 & H2).
  assert (ctz64 (combined (masks r)) ≤ i) as Hle.
  { destruct (Z.le_gt_cases (ctz64 (combined (masks r))) i); [done|]. by rewrite H2 in He. }
  exists (ctz64 (combined (masks r))). split; [lia|]. split.
  - unfold shl64. rewrite (proj2 (Z.ltb_lt _ _)) by lia. rewrite Z.shiftl_1_l, u64_small; [done|].
    split; [by apply Z.pow_nonneg|apply Z.pow_lt_mono_r; lia].
  - intros m j Hm Hj. specialize (H2 j ltac:(lia)). rewrite combined_testbit in H2 by lia.
    rewrite <-not_true_iff_false in H2 |- *. intros Hb. apply H2, existsb_exists.
    exists m. split; [by apply list_elem_of_In|done].
Qed.

Lemma land_block a b m k :
  0 ≤ k → (∀ j, 0 ≤ j < k → Z.testbit m j = false) → Z.shiftr a k = Z.shiftr b k → Z.land a m = Z.land b m.
Proof.
  intros Hk Hm Hs. apply Z.bits_inj'. intros n Hn. rewrite !Z.land_spec.
  destruct (Z.lt_ge_cases n k); [by rewrite Hm, !andb_false_r by done|].
  f_equal. replace n with (n - k + k) by lia. by rewrite <-!Z.shiftr_spec, Hs by lia.
Qed.

(** Two addresses of one block are selected alike. *)
Lemma in_range_block r k a b :
  0 ≤ k → (∀ m j, m ∈ masks r → 0 ≤ j < k → Z.testbit m j = false) →
  Z.shiftr a k = Z.shiftr b k → _start r ≤ b < _end r → in_range r a → in_range r b.
Proof.
  intros Hk Hm Hs Hb [_ Ha]. split; [done|]. intros i m Hi. rewrite <-(Ha i m Hi). f_equal. symmetry.
  eapply land_block; [done| |done]. intros j. apply Hm. by eapply list_elem_of_lookup_2.
Qed.

Lemma isSubset_ok this r :
  wf_range this → wf_range r → masks this = [] → _start this < _end this → (interleaved r = true → masks_low r) →
  ∃ b, isSubset this r = Ok b ∧
    (b = true ↔ (∀ a, in_range this a → in_range r a) ∧
                (interleaved r = true → ∃ g, granularity r = Ok g ∧ _end this - _start this ≤ g)).
Proof.
  intros Wt Wr Hm Hne Hlow. unfold isSubset. rewrite (proj2 (interleaved_nil this) Hm).
  pose proof (in_range_plain this) as Hpl. destruct (interleaved r) eqn:Ir.
  2:{ eexists. split; [reflexivity|]. rewrite andb_true_iff, !Z.leb_le. apply interleaved_nil in Ir. split.
      - intros Hb. split; [|done]. intros a. rewrite !in_range_plain by done. lia.
      - intros [Hs _]. pose proof (Hs (_start this)) as H1. pose proof (Hs (_end this - 1)) as H2.
        rewrite !in_range_plain in H1, H2 by done. lia. }
  destruct (granularity_ok r Ir (Hlow eq_refl)) as (k & Hk & Hg & Hbits).
  destruct (contains_ok r (_start this) Wr) as (b1 & -> & Hb1). cbn [mbind res_bind].
  destruct b1; cbn [negb].
  2:{ exists false. split; [done|]. split; [done|]. intros [Hs _]. apply Hb1, Hs, Hpl; [done|lia]. }
  pose proof (wf_bounds _ Wt) as Wb. rewrite u64_small by lia.
  destruct (contains_ok r (_end this - 1) Wr) as (b2 & -> & Hb2). cbn [mbind res_bind].
  destruct b2; cbn [negb].
  2:{ exists false. split; [done|]. split; [done|]. intros [Hs _]. apply Hb2, Hs, Hpl; [done|lia]. }
  rewrite size_ok, Hg by done. cbn [mbind res_bind]. unfold num_masks. rewrite Hm. cbn [length]. rewrite Z.shiftr_0_r.
  rewrite u64_small by lia. eexists. split; [reflexivity|]. rewrite Z.leb_le. split.
  2:{ intros [_ Hsz]. destruct (Hsz eq_refl) as (g & [= <-] & ?). done. }
  intros Hsz. split; [|eauto]. apply proj1 in Hb1, Hb2. specialize (Hb1 eq_refl). specialize (Hb2 eq_refl).
  intros a Ha. apply Hpl in Ha; [|done]. pose proof (proj1 Hb1). pose proof (proj1 Hb2).
  assert (0 < 2 ^ k) by (apply Z.pow_pos_nonneg; lia).
  assert (Z.shiftr (_start this) k = Z.shiftr a k ∨ Z.shiftr (_end this - 1) k = Z.shiftr a k) as [Hs|Hs].
  { rewrite !Z.shiftr_div_pow2 by lia.
    assert (_start this / 2 ^ k ≤ a / 2 ^ k) by (apply Z.div_le_mono; lia).
    assert (a / 2 ^ k ≤ (_end this - 1) / 2 ^ k) by (apply Z.div_le_mono; lia).
    assert ((_end this - 1) / 2 ^ k ≤ _start this / 2 ^ k + 1); [|lia].
    rewrite <-Z.div_add with (b := 1) by lia. apply Z.div_le_mono; lia. }
  1: apply (in_range_block r k (_start this)); [lia|done|done|lia|done].
  apply (in_range_block r k (_end this - 1)); [lia|done|done|lia|done].
Qed.

(** ** [exclude] *)

Definition covers (l : list AddrRange) (a : Z) : Prop := ∃ r, r ∈ l ∧ in_range r a.

(** The ranges of a list follow each other without overlap, and none is empty. *)
Definition apart (l : list AddrRange) : Prop :=
  StronglySorted (λ x y, _end x ≤ _start y) l ∧ Forall (λ r, _start r < _end r) l.

(** A plain range of addresses. *)
Definition plain (r : AddrRange) : Prop := masks r = [] ∧ _start r ≤ _end r.

Definition by_start (x y : AddrRange) : Prop := _start x ≤ _start y.

Lemma insert_range_perm x l : insert_range x l ≡ₚ x :: l.
Proof.
  induction l as [|y l IH]; [done|]. cbn [insert_range]. destruct (less y x); [|done].
  rewrite IH. apply Permutation_swap.
Qed.

Lemma sort_perm l : sort l ≡ₚ l.
Proof. induction l as [|x l IH]; [done|]. cbn [sort foldr]. by rewrite insert_range_perm, IH. Qed.

Lemma less_by_start x y : (less x y = true → by_start x y) ∧ (less x y = false → by_start y x).
Proof. unfold less, by_start. destruct (Z.eqb_spec (_start x) (_start y)); cbn [negb]; [lia|]. lia. Qed.

Lemma insert_range_sorted x l : StronglySorted by_start l → StronglySorted by_start (insert_range x l).
Proof.
  induction 1 as [|y l Hl IH Hy]; cbn [insert_range]; [by repeat constructor|].
  destruct (less_by_start y x) as [H1 H2]. destruct (less y x).
  - constructor; [done|]. rewrite insert_range_perm. constructor; auto.
  - specialize (H2 eq_refl). constructor; [by constructor|]. constructor; [done|].
    eapply Forall_impl; [exact Hy|]. unfold by_start in *. lia.
Qed.

Lemma sort_sorted l : StronglySorted by_start (sort l).
Proof. induction l; [constructor|]. by apply insert_range_sorted. Qed.

Lemma covers_app l1 l2 a : covers (l1 ++ l2) a ↔ covers l1 a ∨ covers l2 a.
Proof. unfold covers. set_solver. Qed.

Lemma covers_single s e a : covers [range s e] a ↔ s ≤ a < e.
Proof.
  unfold covers. split.
  - intros (r & ->%list_elem_of_singleton & Hr). by apply in_range_plain in Hr.
  - intros H. exists (range s e). split; [set_solver|]. by apply in_range_plain.
Qed.

Lemma intersects_plain this e : masks this = [] → masks e = [] →
  intersects this e = Ok (negb ((_end e <=? _start this) || (_end this <=? _start e))).
Proof.
  intros Ht He. unfold intersects. rewrite (proj2 (interleaved_nil this) Ht), (proj2 (interleaved_nil e) He).
  by destruct (_ || _).
Qed.

Lemma apart_snoc l s e : apart l → Forall (λ r, _end r ≤ s) l → s < e → apart (l ++ [range s e]).
Proof.
  intros [Hs Hn] Hl Hse. split.
  - induction Hs as [|x l Hs IH Hx]; simpl; [by repeat constructor|].
    apply Forall_cons in Hn as [_ Hn], Hl as [Hxs Hl]. constructor; [by apply IH|].
    apply Forall_app. split; [done|]. by constructor.
  - apply Forall_app. split; [done|]. by constructor.
Qed.

Lemma exclude_loop_ok this sorted : ∀ next acc,
  plain this → Forall plain sorted → StronglySorted by_start sorted → _start this ≤ next →
  apart acc → Forall (λ r, _end r ≤ next) acc →
  ∃ l, exclude_loop this sorted next acc = Ok l ∧ apart l ∧
    ∀ a, covers l a ↔ covers acc a ∨ next ≤ a < _end this ∧ Forall (λ e, ¬ in_range e a) sorted.
Proof.
  intros next acc Ht. revert next acc. induction sorted as [|e sorted IH]; intros next acc Hp Hs Hn Ha Hend; cbn [exclude_loop].
  { destruct (Z.ltb_spec next (_end this)); (eexists; split; [reflexivity|]; split).
    - by apply apart_snoc.
    - intros a. rewrite covers_app, covers_single. naive_solver.
    - done.
    - intros a. naive_solver lia. }
  apply Forall_cons in Hp as [[Hem Hev] Hp]. apply StronglySorted_inv in Hs as [Hs Hes].
  rewrite (proj2 (interleaved_nil e) Hem), intersects_plain by (done || apply Ht). cbn [mbind res_bind]. rewrite negb_involutive.
  assert (∀ a, in_range e a ↔ _start e ≤ a < _end e) as Hin by (intros a; by apply in_range_plain).
  assert (∀ a, a < _start e → Forall (λ e, ¬ in_range e a) sorted) as Hlater.
  { intros a Hae. eapply Forall_impl; [exact Hes|]. intros x Hx [Hx' _]. unfold by_start in Hx. lia. }
  destruct ((_end e <=? _start this) || (_end this <=? _start e)) eqn:Hov.
  { destruct (IH next acc) as (l & -> & Hl & Hc); [done..|]. exists l. split; [done|]. split; [done|].
    intros a. rewrite Hc, Forall_cons, Hin. apply orb_true_iff in Hov. rewrite !Z.leb_le in Hov.
    split; [intros [?|[? ?]]; [by left|right]; split_and!; [lia..|done]|naive_solver]. }
  destruct (Z.leb_spec (_start e) next); destruct (Z.ltb_spec (_end e) (_end this)).
  - set (nx := if next <? _end e then _end e else next).
    assert (nx = Z.max next (_end e)) as Hnx by (unfold nx; destruct (Z.ltb_spec next (_end e)); lia).
    destruct (IH nx acc) as (l & -> & Hl & Hc); [done|done|lia|done| |].
    { eapply Forall_impl; [exact Hend|]. simpl. lia. }
    exists l. split; [done|]. split; [done|]. intros a. rewrite Hc, Forall_cons, Hin. rewrite Hnx.
    naive_solver lia.
  - exists acc. split; [done|]. split; [done|]. intros a. rewrite Forall_cons, Hin. naive_solver lia.
  - destruct (IH (_end e) (acc ++ [range next (_start e)])) as (l & -> & Hl & Hc); [done|done|lia|by apply apart_snoc| |].
    { apply Forall_app. split; [eapply Forall_impl; [exact Hend|]; simpl; lia|]. by constructor. }
    exists l. split; [done|]. split; [done|]. intros a. rewrite Hc, covers_app, covers_single, Forall_cons, Hin.
    split.
    + intros [[?|?]|[? ?]]; [by left|right..]; split_and!; [lia|lia|lia|apply Hlater; lia|lia..|done].
    + intros [?|(? & ? & ?)]; [by left; left|]. destruct (Z.lt_ge_cases a (_start e)); [left; right; lia|right].
      split; [lia|done].
  - eexists. split; [reflexivity|]. split; [by apply apart_snoc|]. intros a.
    rewrite covers_app, covers_single, Forall_cons, Hin. split.
    + intros [?|?]; [by left|right]. split_and!; [lia|lia|lia|apply Hlater; lia].
    + intros [?|(? & ? & ?)]; [by left|right; lia].
Qed.

Lemma exclude_ok this es :
  plain this → Forall plain es →
  ∃ l, exclude this es = Ok l ∧ apart l ∧
    ∀ a, covers l a ↔ in_range this a ∧ ¬ covers es a.
Proof.
  intros Ht He. unfold exclude. rewrite (proj2 (interleaved_nil this)) by apply Ht.
  destruct (exclude_loop_ok this (sort es) (_start this) []) as (l & -> & Hl & Hc);
    [done|by rewrite sort_perm|apply sort_sorted|done|by repeat constructor|done|].
  exists l. split; [done|]. split; [done|]. intros a. rewrite Hc, sort_perm, in_range_plain by apply Ht.
  unfold covers. rewrite Forall_forall. set_solver.
Qed.

Lemma exclude_list_ok base es :
  Forall plain base → Forall plain es →
  ∃ l, exclude_list base es = Ok l ∧ ∀ a, covers l a ↔ covers base a ∧ ¬ covers es a.
Proof.
  intros Hb He. unfold exclude_list. induction Hb as [|r base Hr Hb (l' & Hl' & Hc')]; cbn [exclude_each].
  { exists []. split; [done|]. unfold covers. set_solver. }
  destruct (exclude_ok r (sort es)) as (l & -> & _ & Hc); [done|by rewrite sort_perm|]. cbn [mbind res_bind].
  rewrite Hl'. cbn [mbind res_bind]. eexists. split; [reflexivity|]. intros a. rewrite covers_app, Hc, Hc'.
  assert (covers (sort es) a ↔ covers es a) as -> by (unfold covers; by setoid_rewrite sort_perm).
  unfold covers. set_solver.
Qed.

(** ** Merging stripes *)

Lemma merge_check_ok this l : ∀ n, 0 ≤ n → n + Z.of_nat (length l) ≤ 256 → merge_check this n l = Ok tt →
  ∀ i r, l !! i = Some r → mergesWith this r = true ∧ intlvMatch r = n + Z.of_nat i.
Proof.
  induction l as [|r l IH]; intros n Hn Hl Hc i x Hx; [done|]. cbn [merge_check length] in *.
  destruct (mergesWith this r) eqn:Hm; [|done]. destruct (Z.eqb_spec (intlvMatch r) n) as [He|]; [|done]. cbn [negb] in Hc.
  destruct i as [|i]; [injection Hx as <-; split; [done|lia]|].
  destruct l as [|r' l]; [done|]. rewrite Z.mod_small in Hc by (cbn [length] in Hl; lia).
  destruct (IH (n + 1) ltac:(lia) ltac:(cbn [length] in *; lia) Hc i x Hx). split; [done|lia].
Qed.

(** A merged range has the addresses of its stripes. *)
Lemma range_merge_ok l r :
  Forall wf_range l → l ≠ [] → range_merge l = Ok r → wf_range r ∧ ∀ a, in_range r a ↔ covers l a.
Proof.
  intros Hwf Hne Hr. destruct l as [|this l]; [done|]. unfold range_merge in Hr. simpl (default _ _) in Hr.
  apply Forall_cons in Hwf as [Ht Hwf]. pose proof Ht as [Hb Hlen Hmt].
  destruct l as [|x l].
  { injection Hr as <-. split; [done|]. intros a. unfold covers. set_solver. }
  change (1 <? length (this :: x :: l))%nat with true in Hr. cbn iota in Hr. set (ls := this :: x :: l) in *.
  unfold shl64 in Hr. rewrite (proj2 (Z.ltb_lt _ _)) in Hr by (unfold num_masks; lia). cbn [mbind res_bind] in Hr.
  rewrite Z.shiftl_1_l in Hr.
  assert (0 < 2 ^ num_masks this ≤ 2 ^ 8) as Hpow.
  { unfold num_masks. split; [apply Z.pow_pos_nonneg; lia|apply Z.pow_le_mono_r; lia]. }
  rewrite u64_small in Hr by lia. destruct (Z.eqb_spec (Z.of_nat (length ls)) (2 ^ num_masks this)) as [Hn|]; [|done].
  cbn [negb] in Hr. destruct (merge_check this 0 ls) as [[]|] eqn:Hc; [|done]. injection Hr as <-.
  split; [split; simpl; [lia|lia|by split]|]. intros a. rewrite in_range_plain by done. simpl.
  pose proof (merge_check_ok this ls 0 ltac:(lia) ltac:(lia) Hc) as Hall.
  assert (∀ y, y ∈ ls → wf_range y) as Hw by (intros y Hy; unfold ls in Hy; rewrite Forall_forall in Hwf; set_solver).
  split.
  - intros Ha. pose proof (sel_of_bounds a (masks this)) as Hs. fold (num_masks this) in Hs.
    destruct (lookup_lt_is_Some_2 ls (Z.to_nat (sel_of a (masks this)))) as [y Hy]; [lia|].
    destruct (Hall _ _ Hy) as [(H1 & H2 & H3)%mergesWith_spec Hmy]. exists y. split; [by eapply list_elem_of_lookup_2|].
    split; [by rewrite H1, H2|]. apply sel_of_match; [apply Hw; by eapply list_elem_of_lookup_2|].
    rewrite H3, Hmy. lia.
  - intros (y & [i Hy]%list_elem_of_lookup_1 & Hin). destruct (Hall _ _ Hy) as [(H1 & H2 & _)%mergesWith_spec _].
    destruct Hin as [Hin _]. by rewrite H1, H2 in Hin.
Qed.

(** Address ranges compute with the sets of addresses they stand for:
    [contains] decides membership, [intersects] whether two comparable non-empty
    ranges share an address, and [isSubset] is true exactly for the plain ranges
    that lie in the other range and, when that is interleaved, are not larger
    than its granularity. *)
Theorem range_queries_exact :
  (∀ r a, wf_range r → ∃ b, contains r a = Ok b ∧ (b = true ↔ in_range r a)) ∧
  (∀ r1 r2, wf_range r1 → wf_range r2 → comparable r1 r2 → (∃ a, in_range r1 a) → (∃ a, in_range r2 a) →
     ∃ b, intersects r1 r2 = Ok b ∧ (b = true ↔ ∃ a, in_range r1 a ∧ in_range r2 a)) ∧
  (∀ r1 r2, wf_range r1 → wf_range r2 → masks r1 = [] → _start r1 < _end r1 → (interleaved r2 = true → masks_low r2) →
     ∃ b, isSubset r1 r2 = Ok b ∧
       (b = true ↔ (∀ a, in_range r1 a → in_range r2 a) ∧
                   (interleaved r2 = true → ∃ g, granularity r2 = Ok g ∧ _end r1 - _start r1 ≤ g))).
Proof. split_and!; [apply contains_ok|apply intersects_ok|apply isSubset_ok]. Qed.

(** [exclude] subtracts: the result of removing ranges, which may overlap
    and come in any order, from a range has exactly the addresses that are in
    none of them, as non-empty ranges that follow each other without overlap;
    and the same, without the order, for a list of ranges. *)
Theorem exclude_subtracts this base es :
  plain this → Forall plain base → Forall plain es →
  (∃ l, exclude this es = Ok l ∧ apart l ∧ ∀ a, covers l a ↔ in_range this a ∧ ¬ covers es a) ∧
  (∃ l, exclude_list base es = Ok l ∧ ∀ a, covers l a ↔ covers base a ∧ ¬ covers es a).
Proof. intros. split; [by apply exclude_ok|by apply exclude_list_ok]. Qed.

Lemma exclude_subtracts_witness :
  exclude (range 0 100) [range 50 60; range 10 20; range 15 30] = Ok [range 0 10; range 30 50; range 60 100] ∧
  ∃ l, exclude (range 0 100) [range 50 60; range 10 20; range 15 30] = Ok l ∧ apart l ∧
    ∀ a, covers l a ↔ in_range (range 0 100) a ∧ ¬ covers [range 50 60; range 10 20; range 15 30] a.
Proof.
  split; [reflexivity|].
  apply (exclude_subtracts (range 0 100) [] [range 50 60; range 10 20; range 15 30]); repeat constructor; simpl; lia.
Defined.
