(* ===== verification/AddrRangeIntlv.v ===== *)
(** * Removing and adding interleaving bits

    [removeIntlvBits] takes the lowest bit of every mask out of an address, and
    [addIntlvBits] puts them back so that the address matches the range again.
    The first works on positions that move with every removed bit and relies on
    the wrap-around of an unsigned index; the second first makes room and then
    computes the bits from the rest of the masks. *)
From stdpp Require Import base tactics list numbers strings sorting sets.
From Stdlib Require Import ZArith Lia.
From S2P Require Import Prelude BitField AddrRange AddrRangeProps.
Import BitField AddrRange.
Local Open Scope Z_scope.

Lemma testbit_small x j : 0 ≤ x < 2 ^ 64 → 64 ≤ j → Z.testbit x j = false.
Proof. intros Hx Hj. rewrite <-(Z.mod_small x (2 ^ 64)) by done. apply Z.mod_pow2_bits_high. lia. Qed.

(** ** Moving bits *)

(** Where bit [j] comes from when position [p] is removed, and when room is made
    at position [p]. *)
Definition gap (p j : Z) : Z := if j <? p then j else j + 1.
Definition fill (p j : Z) : Z := if j <? p then j else j - 1.

(** The same for a list of positions, of which [i] were removed before. *)
Fixpoint skip (l : list Z) (i j : Z) : Z :=
  match l with [] => j | b :: l => gap (b - i) (skip l (i + 1) j) end.
Fixpoint unskip (l : list Z) (i j : Z) : Z :=
  match l with [] => j | b :: l => fill (b - i) (unskip l i j) end.

Ltac bits_cases := unfold gap, fill in *; repeat match goal with |- context [?x <? ?y] => destruct (Z.ltb_spec x y) end.

Lemma unskip_shift l i j : unskip l i j = unskip l (i + 1) (j - 1) + 1.
Proof. induction l as [|b l IH]; cbn [unskip]; [lia|]. rewrite IH. bits_cases; lia. Qed.

Lemma unskip_low l i j : Forall (λ b, j + i < b) l → unskip l i j = j.
Proof. induction 1 as [|b l Hb _ IH]; cbn [unskip]; [done|]. rewrite IH. bits_cases; lia. Qed.

Lemma skip_low l : ∀ i j, StronglySorted Z.lt l → Forall (λ b, j + i < b) l → skip l i j = j.
Proof.
  induction l as [|b l IH]; intros i j Hs Hl; cbn [skip]; [done|].
  apply StronglySorted_inv in Hs as [Hs Hb]. apply Forall_cons in Hl as [Hj _].
  rewrite IH; [bits_cases; lia|done|]. eapply Forall_impl; [exact Hb|]. simpl. lia.
Qed.

(** Outside the removed positions the two maps are inverse. *)
Lemma skip_unskip l : ∀ i k, StronglySorted Z.lt l → k + i ∉ l → skip l i (unskip l i k) = k.
Proof.
  induction l as [|b l IH]; intros i k Hs Hk; cbn [skip unskip]; [done|].
  apply StronglySorted_inv in Hs as [Hs Hb]. apply not_elem_of_cons in Hk as [Hkb Hk].
  destruct (Z.lt_ge_cases (k + i) b) as [Hlt|Hge].
  - assert (Forall (λ b', k + i < b') l) by (eapply Forall_impl; [exact Hb|]; simpl; lia).
    rewrite unskip_low by done. assert (fill (b - i) k = k) as -> by (bits_cases; lia).
    rewrite skip_low; [bits_cases; lia|done|]. eapply Forall_impl; [exact Hb|]. simpl. lia.
  - rewrite unskip_shift. set (u := unskip l (i + 1) (k - 1)).
    assert (skip l (i + 1) u = k - 1) as Hu by (apply IH; [done|by replace (k - 1 + (i + 1)) with (k + i) by lia]).
    assert (b - i ≤ u) as Hbu.
    { destruct (Z.le_gt_cases (b - i) u) as [?|Hlt]; [done|]. rewrite skip_low in Hu; [lia|done|].
      eapply Forall_impl; [exact Hb|]. simpl. lia. }
    assert (fill (b - i) (u + 1) = u) as -> by (bits_cases; lia).
    rewrite Hu. bits_cases; lia.
Qed.

Lemma skip_ge l : ∀ i j, j ≤ skip l i j.
Proof. induction l as [|b l IH]; intros i j; cbn [skip]; [done|]. specialize (IH (i + 1) j). bits_cases; lia. Qed.

Lemma unskip_bounds l j : Forall (λ b, 0 < b) l → 0 ≤ j → 0 ≤ unskip l 0 j ≤ j.
Proof. induction 1 as [|b l Hb _ IH]; cbn [unskip]; [lia|]. intros Hj. specialize (IH Hj). bits_cases; lia. Qed.

(** ** The loops *)

Lemma remove_step b i a :
  0 ≤ a < 2 ^ 64 → 0 ≤ i ≤ b → b < 64 →
  ∃ x, (if 0 <? b then insertBits (Z.shiftr a 1) (u32 (b - i - 1)) 0 a else Ok (Z.shiftr a 1)) = Ok x ∧
    0 ≤ x < 2 ^ 64 ∧ ∀ j, 0 ≤ j → Z.testbit x j = Z.testbit a (gap (b - i) j).
Proof.
  intros Ha Hi Hb.
  assert (0 ≤ Z.shiftr a 1 < 2 ^ 64) as Hs.
  { rewrite Z.shiftr_div_pow2 by lia. change (2 ^ 1) with 2. Z.to_euclidean_division_equations; lia. }
  assert (b - i = 0 → ∀ j, 0 ≤ j → Z.testbit (Z.shiftr a 1) j = Z.testbit a (gap (b - i) j)) as H0.
  { intros -> j Hj. rewrite Z.shiftr_spec by done. f_equal. bits_cases; lia. }
  destruct (Z.ltb_spec 0 b); [|eexists; split; [reflexivity|]; split; [done|]; apply H0; lia].
  destruct (Z.eq_dec (b - i) 0) as [E|Hne].
  { replace (u32 (b - i - 1)) with (2 ^ 32 - 1) by (rewrite E; reflexivity).
    rewrite insertBits_empty by done. eexists. split; [reflexivity|]. split; [done|]. by apply H0. }
  unfold u32. rewrite Z.mod_small by lia.
  destruct (insertBits_spec (Z.shiftr a 1) (b - i - 1) 0 a) as (x & -> & Hx & Hbit); [done|lia..|].
  exists x. split; [done|]. split; [done|]. intros j Hj. destruct (Z.lt_ge_cases j 64).
  - rewrite Hbit by lia. rewrite Z.sub_0_r, Z.shiftr_spec by done.
    destruct (Z.leb_spec 0 j); [|lia]. destruct (Z.leb_spec j (b - i - 1)); cbn [andb]; f_equal; bits_cases; lia.
  - rewrite !testbit_small; [done|done|bits_cases; lia|done|done].
Qed.

Lemma remove_loop_ok l : ∀ i a,
  0 ≤ a < 2 ^ 64 → 0 ≤ i → StronglySorted Z.lt l → Forall (λ b, i ≤ b < 64) l →
  ∃ x, remove_loop l i a = Ok x ∧ 0 ≤ x < 2 ^ 64 ∧ ∀ j, 0 ≤ j → Z.testbit x j = Z.testbit a (skip l i j).
Proof.
  induction l as [|b l IH]; intros i a Ha Hi Hs Hl; cbn [remove_loop skip]; [eauto|].
  apply StronglySorted_inv in Hs as [Hs Hb]. apply Forall_cons in Hl as [Hbi Hl].
  destruct (remove_step b i a) as (y & -> & Hy & Hbit); [done|lia..|]. cbn [mbind res_bind].
  destruct (IH (i + 1) y) as (x & -> & Hx & Hbit'); [done|lia|done| |].
  { rewrite Forall_forall in Hl, Hb |- *. intros c Hc. specialize (Hl c Hc). specialize (Hb c Hc). lia. }
  exists x. split; [done|]. split; [done|]. intros j Hj. rewrite Hbit' by done.
  pose proof (skip_ge l (i + 1) j). by rewrite Hbit by lia.
Qed.

Lemma add_step b a :
  0 ≤ a < 2 ^ 64 → 0 ≤ b < 64 →
  ∃ x, (if 0 <? b then insertBits (u64 (Z.shiftl a 1)) (b - 1) 0 a else Ok (u64 (Z.shiftl a 1))) = Ok x ∧
    0 ≤ x < 2 ^ 64 ∧ ∀ j, 0 ≤ j < 64 → Z.testbit x j = Z.testbit a (fill b j).
Proof.
  intros Ha Hb. assert (0 ≤ u64 (Z.shiftl a 1) < 2 ^ 64) as Hs by (unfold u64; apply Z.mod_pos_bound; lia).
  assert (∀ j, 0 ≤ j < 64 → Z.testbit (u64 (Z.shiftl a 1)) j = Z.testbit a (j - 1)) as H1.
  { intros j Hj. rewrite testbit_u64, (proj2 (Z.ltb_lt j 64)), Z.shiftl_spec by lia. done. }
  destruct (Z.ltb_spec 0 b).
  - destruct (insertBits_spec (u64 (Z.shiftl a 1)) (b - 1) 0 a) as (x & -> & Hx & Hbit); [done|lia..|].
    exists x. split; [done|]. split; [done|]. intros j Hj. rewrite Hbit, H1, Z.sub_0_r by lia.
    destruct (Z.leb_spec 0 j); [|lia]. destruct (Z.leb_spec j (b - 1)); cbn [andb]; f_equal; bits_cases; lia.
  - eexists. split; [reflexivity|]. split; [done|]. intros j Hj. rewrite H1 by done. f_equal. bits_cases; lia.
Qed.

Lemma add_loop_ok l : ∀ a,
  0 ≤ a < 2 ^ 64 → StronglySorted Z.lt l → Forall (λ b, 0 ≤ b < 64) l →
  ∃ x, add_loop l a = Ok x ∧ 0 ≤ x < 2 ^ 64 ∧ ∀ j, 0 ≤ j < 64 → Z.testbit x j = Z.testbit a (unskip l 0 j).
Proof.
  induction l as [|b l IH]; intros a Ha Hs Hl; cbn [add_loop unskip]; [eauto|].
  apply StronglySorted_inv in Hs as [Hs Hb]. apply Forall_cons in Hl as [Hbi Hl].
  destruct (add_step b a) as (y & -> & Hy & Hbit); [done..|]. cbn [mbind res_bind].
  destruct (IH y) as (x & -> & Hx & Hbit'); [done..|]. exists x. split; [done|]. split; [done|].
  intros j Hj. rewrite Hbit' by done.
  assert (0 ≤ unskip l 0 j ≤ j).
  { apply unskip_bounds; [|lia]. eapply Forall_impl; [exact Hb|]. simpl. lia. }
  rewrite Hbit by lia. by rewrite Z.sub_0_r.
Qed.

(** ** Computing the bits *)

Lemma not_lsb_spec lsb : 0 ≤ lsb < 31 →
  ∃ x, not_lsb lsb = Ok x ∧ ∀ j, 0 ≤ j < 64 → Z.testbit x j = negb (j =? lsb).
Proof.
  intros Hl. unfold not_lsb. rewrite (proj2 (Z.leb_gt _ _)) by lia. eexists. split; [reflexivity|].
  intros j Hj. rewrite testbit_u64, (proj2 (Z.ltb_lt j 64)), Z.lnot_spec by lia. cbn [andb]. f_equal.
  assert (0 < 2 ^ lsb ≤ 2 ^ 30) by (split; [apply Z.pow_pos_nonneg; lia|apply Z.pow_le_mono_r; lia]).
  rewrite Z.shiftl_1_l. unfold to_i32. rewrite Z.mod_small by lia.
  replace (2 ^ lsb + 2 ^ 31 - 2 ^ 31) with (2 ^ lsb) by lia. rewrite Z.pow2_bits_eqb by lia. apply Z.eqb_sym.
Qed.

Lemma set_loop_ok match_ ms : ∀ i a z,
  0 ≤ match_ → 0 ≤ i → i + Z.of_nat (length ms) ≤ 32 → 0 ≤ a < 2 ^ 64 → 0 ≤ z < 2 ^ 64 →
  Forall (λ m, 0 < m < 2 ^ 64 ∧ ctz64 m < 31) ms →
  StronglySorted (λ m m', Z.testbit m (ctz64 m') = false) ms →
  (∀ k m, ms !! k = Some m → parity (Z.land a m) = Z.testbit match_ (i + Z.of_nat k)) →
  (∀ j, 0 ≤ j < 64 → j ∉ map ctz64 ms → Z.testbit z j = Z.testbit a j) →
  set_loop match_ ms i z = Ok a.
Proof.
  induction ms as [|m ms IH]; intros i a z Hmt Hi Hlen Ha Hz Hms Hs Hpar Hz'; cbn [set_loop].
  { f_equal. apply Z.bits_inj'. intros j Hj. destruct (Z.lt_ge_cases j 64); [apply Hz'; [lia|set_solver]|].
    by rewrite !testbit_small. }
  apply StronglySorted_inv in Hs as [Hs Hm]. apply Forall_cons in Hms as [[Hmb Hlsb] Hms]. cbn [length] in Hlen.
  destruct (ctz64_spec m ltac:(lia)) as (Hc0 & Hc1 & _). set (lsb := ctz64 m) in *.
  rewrite (proj2 (Z.leb_gt 32 i)) by lia. rewrite bits_range by lia. cbn [mbind res_bind].
  destruct (not_lsb_spec lsb ltac:(lia)) as (others & -> & Hoth). cbn [mbind res_bind].
  set (masked := Z.land (Z.land z m) others).
  assert (masked = Z.clearbit (Z.land a m) lsb) as Hmasked.
  { apply Z.bits_inj'. intros j Hj. unfold masked. rewrite Z.clearbit_eqb, !Z.land_spec by lia.
    destruct (Z.lt_ge_cases j 64) as [Hj64|Hj64].
    2:{ rewrite (testbit_small m) by lia. by rewrite !andb_false_r. }
    rewrite Hoth by lia. destruct (Z.eqb_spec j lsb) as [->|Hne].
    { by rewrite Z.eqb_refl, !andb_false_r. }
    rewrite (proj2 (Z.eqb_neq lsb j)), !andb_true_r by done. destruct (Z.testbit m j) eqn:Hmj; [|by rewrite !andb_false_r].
    rewrite Hz'; [done|lia|]. cbn [map]. apply not_elem_of_cons. split; [done|].
    intros (m' & -> & Hm')%list_elem_of_fmap. rewrite Forall_forall in Hm. specialize (Hm m' Hm'). simpl in Hm. congruence. }
  assert (0 ≤ Z.land a m) by (apply Z.land_nonneg; lia).
  assert (parity (Z.land a m) = Z.testbit match_ i) as Hp by (rewrite (Hpar 0%nat) by done; f_equal; lia).
  rewrite (parity_clearbit _ lsb), Z.land_spec, Hc1, andb_true_r, <-Hmasked in Hp by done.
  destruct (insertBits_spec z lsb lsb (Z.lxor (Z.shiftr match_ i mod 2 ^ (i - i + 1)) (popCount masked)))
    as (z1 & -> & Hz1 & Hbit); [done|lia..|]. cbn [mbind res_bind].
  apply IH; [done|lia|lia|done|done|done|done| |].
  { intros k m' Hk. rewrite (Hpar (S k)) by done. f_equal. lia. }
  intros j Hj Hj'. rewrite Hbit by done. destruct (Z.eq_dec j lsb) as [->|Hne].
  - rewrite Z.leb_refl. cbn [andb].
    rewrite !Z.sub_diag, Z.lxor_spec, Z.mod_pow2_bits_low, Z.shiftr_spec, Z.add_0_l by lia.
    rewrite <-Hp. rewrite Z.bit0_odd. fold (parity masked). by destruct (Z.testbit a lsb), (parity masked).
  - destruct (Z.leb_spec lsb j), (Z.leb_spec j lsb); cbn [andb]; try lia; apply Hz'; try done; cbn [map]; set_solver.
Qed.

(** ** The round trip *)

Lemma insert_sorted_perm x l : insert_sorted x l ≡ₚ x :: l.
Proof.
  induction l as [|y l IH]; [done|]. cbn [insert_sorted]. destruct (x <=? y); [done|].
  rewrite IH. apply Permutation_swap.
Qed.

Lemma insert_sorted_lt x l : StronglySorted Z.lt l → x ∉ l → StronglySorted Z.lt (insert_sorted x l).
Proof.
  induction 1 as [|y l Hl IH Hy]; intros Hx; cbn [insert_sorted]; [by repeat constructor|].
  apply not_elem_of_cons in Hx as [Hxy Hx]. destruct (Z.leb_spec x y).
  - constructor; [by constructor|]. constructor; [lia|]. eapply Forall_impl; [exact Hy|]. simpl. lia.
  - constructor; [by apply IH|]. rewrite insert_sorted_perm. by constructor.
Qed.

Lemma masks_lsb_perm r : masks_lsb r ≡ₚ map ctz64 (masks r).
Proof. unfold masks_lsb. induction (map ctz64 (masks r)) as [|x l IH]; [done|]. cbn [foldr]. by rewrite insert_sorted_perm, IH. Qed.

Lemma masks_lsb_sorted r : NoDup (map ctz64 (masks r)) → StronglySorted Z.lt (masks_lsb r).
Proof.
  unfold masks_lsb. induction (map ctz64 (masks r)) as [|x l IH]; [constructor|]. intros [Hx Hn]%NoDup_cons. cbn [foldr].
  apply insert_sorted_lt; [by apply IH|].
  assert (foldr insert_sorted [] l ≡ₚ l) as ->; [|done].
  clear. induction l as [|y l IH]; [done|]. cbn [foldr]. by rewrite insert_sorted_perm, IH.
Qed.

(** The masks the two functions work for: non-empty, with lowest bits below bit
    31, and no mask uses the lowest bit of a later one. *)
Definition intlv_ok (r : AddrRange) : Prop :=
  Forall (λ m, 0 < m < 2 ^ 64 ∧ ctz64 m < 31) (masks r) ∧
  StronglySorted (λ m m', Z.testbit m (ctz64 m') = false) (masks r).

Lemma intlv_ok_NoDup r : intlv_ok r → NoDup (map ctz64 (masks r)).
Proof.
  intros [Hm Hs]. induction Hs as [|m ms Hs IH Hf]; [constructor|]. apply Forall_cons in Hm as [Hb Hm].
  cbn [map]. constructor; [|by apply IH]. intros (m' & He & Hm')%list_elem_of_fmap.
  rewrite Forall_forall in Hf. specialize (Hf m' Hm'). simpl in Hf. rewrite <-He in Hf.
  destruct (ctz64_spec m ltac:(lia)) as (_ & H1 & _). congruence.
Qed.

(** C29. Adding the interleaving bits undoes removing them: for every address of a
    range whose masks have their lowest bits below bit 31 and, in their order, none
    of the lowest bits of later masks, [removeIntlvBits] succeeds and [addIntlvBits]
    computes the address from its result; so different addresses of such a range
    stay different.  (The bound is needed: [addIntlvBits_bit31].) *)
Theorem intlv_bits_round_trip r a :
  wf_range r → intlv_ok r → in_range r a →
  ∃ x, removeIntlvBits r a = Ok x ∧ addIntlvBits r x = Ok a.
Proof.
  intros Hw Hok [Ha Hpar]. pose proof (wf_bounds _ Hw). pose proof (wf_masks _ Hw). pose proof (wf_match _ Hw).
  unfold removeIntlvBits, addIntlvBits. destruct (interleaved r); cbn [negb]; [|eauto].
  pose proof (masks_lsb_sorted r (intlv_ok_NoDup r Hok)) as Hs. destruct Hok as [Hm Htri].
  assert (Forall (λ b, 0 ≤ b < 64) (masks_lsb r)) as Hl.
  { rewrite masks_lsb_perm. apply Forall_forall. intros b (m & -> & Hin)%list_elem_of_fmap.
    rewrite Forall_forall in Hm. specialize (Hm m Hin). simpl in Hm. destruct (ctz64_spec m); [lia|]. lia. }
  destruct (remove_loop_ok (masks_lsb r) 0 a) as (x & -> & Hx & Hbx); [lia|done..|].
  exists x. split; [done|]. destruct (add_loop_ok (masks_lsb r) x) as (z & -> & Hz & Hbz); [done..|]. cbn [mbind res_bind].
  apply set_loop_ok; [lia|done|lia|lia|done|done|done|done|].
  intros j Hj Hj'. rewrite <-masks_lsb_perm in Hj'. rewrite Hbz by done.
  assert (skip (masks_lsb r) 0 (unskip (masks_lsb r) 0 j) = j) as Hsk by (apply skip_unskip; [done|by rewrite Z.add_0_r]).
  destruct (Z.le_gt_cases 0 (unskip (masks_lsb r) 0 j)); [by rewrite Hbx, Hsk|].
  rewrite skip_low in Hsk; [lia|done|]. eapply Forall_impl; [exact Hl|]. simpl. lia.
Qed.

(** Four channels interleaved on bits 6 and 7, each hashed with a higher bit. *)
Definition channel : AddrRange := mk 0 (2 ^ 20) [2 ^ 6 + 2 ^ 12; 2 ^ 7 + 2 ^ 13] 2.

Lemma intlv_bits_round_trip_witness :
  removeIntlvBits channel 130 = Ok 2 ∧
  ∃ x, removeIntlvBits channel 130 = Ok x ∧ addIntlvBits channel x = Ok 130.
Proof.
  split; [reflexivity|]. apply (intlv_bits_round_trip channel 130).
  - by split; vm_compute; repeat split; try lia.
  - split; repeat constructor; vm_compute; done.
  - split; [vm_compute; done|]. intros [|[|i]] m [= <-]; vm_compute; done.
Defined.

(** The bound on the lowest bits is necessary: [~(1 << 31)] is a positive [int],
    so a mask with lowest bit 31 loses its higher bits, and beyond bit 31 the
    shift is undefined. *)
Lemma addIntlvBits_bit31 :
  in_range (mk 0 (2 ^ 40) [2 ^ 31 + 2 ^ 33] 1) (2 ^ 33) ∧
  removeIntlvBits (mk 0 (2 ^ 40) [2 ^ 31 + 2 ^ 33] 1) (2 ^ 33) = Ok (2 ^ 32) ∧
  addIntlvBits (mk 0 (2 ^ 40) [2 ^ 31 + 2 ^ 33] 1) (2 ^ 32) = Ok (2 ^ 33 + 2 ^ 31) ∧
  addIntlvBits (mk 0 (2 ^ 40) [2 ^ 32] 1) 0 = Err EOverflow.
Proof.
  split_and!; [|reflexivity..]. split; [by vm_compute|]. intros [|i] m [= <-]; vm_compute; done.
Qed.
