(* ===== verification/AddrRangeMap.v ===== *)
(** * The address range map

    [base/addr_range_map.hh]: the interval tree for address decoding, an STL map
    ordered by [AddrRange::operator<], with a small list of recently found
    entries that is searched first.  Nodes of the tree have an identity, because
    the list holds iterators: an iterator whose node was erased is dangling, even
    when the same range is inserted again. *)
From stdpp Require Import base tactics list numbers strings.
From Stdlib Require Import ZArith Lia.
From S2P Require Import Prelude AddrRange.
Import AddrRange.
Local Open Scope Z_scope.

Module AddrRangeMap.
Record Node (V : Type) := mkNode {
  id : nat;
  first : AddrRange;
  second : V;
}.
Arguments mkNode {V}.
Arguments id {V}.
Arguments first {V}.
Arguments second {V}.

(** [tree] in the order of the map, [cache] with the last found entry first.
    [None] stands for the iterator [end()]. *)
Record Map (V : Type) := mkMap {
  tree : list (Node V);
  cache : list nat;
  next_id : nat;
}.
Arguments mkMap {V}.
Arguments tree {V}.
Arguments cache {V}.
Arguments next_id {V}.

Section map.
Context {V : Type} (max_cache_size : nat).
Notation Map := (Map V).
Notation Node := (Node V).

Definition empty_map : Map := mkMap [] [] 0.
Definition set_cache (c : list nat) (m : Map) : Map := mkMap (tree m) c (next_id m).
Definition set_tree (t : list Node) (m : Map) : Map := mkMap t (cache m) (next_id m).

(** The node an iterator points to. *)
Fixpoint node_of (t : list Node) (it : nat) : res Node :=
  match t with
  | [] => Err EBadPointer
  | n :: t => if bool_decide (id n = it) then Ok n else node_of t it
  end.

Definition addNewEntryToCache (it : nat) : M Map unit := modify (λ m,
  if bool_decide (max_cache_size = 0%nat) then m
  else if bool_decide (max_cache_size ≤ length (cache m))%nat then
    let rest := take (length (cache m) - 1) (cache m) in
    set_cache (if bool_decide (1 < max_cache_size)%nat then it :: rest else rest ++ [it]) m
  else set_cache (it :: cache m) m).

(** The entries of the cache, the ones before it in [seen] (last first). *)
Fixpoint cache_search (t : list Node) (cond : AddrRange → res bool) (seen c : list nat) : res (option (nat * list nat)) :=
  match c with
  | [] => Ok None
  | it :: c =>
      n ← node_of t it;
      b ← cond (first n);
      if (b : bool) then Ok (Some (it, it :: rev seen ++ c)) else cache_search t cond (it :: seen) c
  end.

(** [tree.upper_bound(r)], as the number of entries before it. *)
Fixpoint upper_bound (r : AddrRange) (t : list Node) : nat :=
  match t with
  | [] => 0
  | n :: t => if less r (first n) then 0 else S (upper_bound r t)
  end.

(** The [do] loop, over the entries before the upper bound, last first. *)
Fixpoint walk_back (cond : AddrRange → res bool) (l : list Node) : res (option nat) :=
  match l with
  | [] => Ok None
  | i :: l =>
      b ← cond (first i);
      if (b : bool) then Ok (Some (id i)) else
      match l with
      | [] => Ok None
      | next :: _ => if mergesWith (first next) (first i) then walk_back cond l else Ok None
      end
  end.

Definition find (r : AddrRange) (cond : AddrRange → res bool) : M Map (option nat) :=
  m ← gets (λ m, m);
  hit ← lift (cache_search (tree m) cond [] (cache m));
  match hit with
  | Some (it, c) => modify (set_cache c) ;; mret (Some it)
  | None =>
      let k := upper_bound r (tree m) in
      at_next ← lift (match tree m !! k with
                      | Some next => b ← cond (first next); Ok (if (b : bool) then Some (id next) else None)
                      | None => Ok None
                      end);
      found ← (match at_next with
               | Some it => mret (Some it)
               | None => lift (walk_back cond (rev (take k (tree m))))
               end);
      match found with
      | Some it => addNewEntryToCache it ;; mret (Some it)
      | None => mret None
      end
  end.

Definition contains (r : AddrRange) : M Map (option nat) := find r (isSubset r).
Definition contains_addr (a : Z) : M Map (option nat) := contains (RangeSize a 1).
Definition intersects (r : AddrRange) : M Map (option nat) := find r (AddrRange.intersects r).

(** [tree.insert(std::make_pair(r, d)).first]: an entry with an equivalent range
    is kept. *)
Fixpoint tree_insert (n : Node) (t : list Node) : list Node * nat :=
  match t with
  | [] => ([n], id n)
  | n' :: t' =>
      if less (first n) (first n') then (n :: t, id n)
      else if less (first n') (first n) then let '(t'', it) := tree_insert n t' in (n' :: t'', it)
      else (t, id n')
  end.

Definition insert_pair (r : AddrRange) (d : V) : M Map (option nat) := λ m,
  let '(t, it) := tree_insert (mkNode (next_id m) r d) (tree m) in
  Ok (Some it, mkMap t (cache m) (S (next_id m))).

Definition insert (r : AddrRange) (d : V) : M Map (option nat) :=
  conflict ← intersects r;
  match conflict with
  | Some _ => mret None
  | None => insert_pair r d
  end.

(** [cache.remove(p)] *)
Definition cache_remove (p : nat) (m : Map) : Map := set_cache (filter (λ it, it ≠ p) (cache m)) m.

Definition erase (p : nat) : M Map unit :=
  modify (cache_remove p) ;;
  m ← gets (λ m, m);
  _ ← lift (node_of (tree m) p);
  modify (set_tree (filter (λ n, id n ≠ p) (tree m))).

(** The entries of the tree from an iterator on. *)
Fixpoint from_iter (p : nat) (t : list Node) : list Node :=
  match t with [] => [] | n :: t' => if bool_decide (id n = p) then t else from_iter p t' end.

(** The entries from [p] up to [q]; running past the end is undefined. *)
Fixpoint until_iter (q : option nat) (t : list Node) : res (list Node) :=
  match t with
  | [] => if bool_decide (q = None) then Ok [] else Err EBadPointer
  | n :: t => if bool_decide (q = Some (id n)) then Ok [] else l ← until_iter q t; Ok (n :: l)
  end.

(** [erase(p, q)]: the loop removes the iterator [p] once per entry. *)
Definition erase_range (p : nat) (q : option nat) : M Map unit :=
  m ← gets (λ m, m);
  l ← lift (_ ← node_of (tree m) p; until_iter q (from_iter p (tree m)));
  for_each l (λ _, modify (cache_remove p)) ;;
  modify (λ m, set_tree (filter (λ n, id n ∉ map id l) (tree m)) m).

Definition clear : M Map unit := modify (λ m, mkMap [] [] (next_id m)).

(** [i->second] of the iterator a lookup returned. *)
Definition second_of (it : nat) : M Map V :=
  m ← gets (λ m, m); n ← lift (node_of (tree m) it); mret (second n).

Definition size (m : Map) : nat := length (tree m).
Definition empty (m : Map) : bool := bool_decide (length (tree m) = 0%nat).
End map.
End AddrRangeMap.
