(* ===== verification/AddrRangeMapProps.v ===== *)
(** * Address decoding is exact

    The invariant of the address range map: the entries are in order and
    disjoint, and the cache holds iterators of present entries.  Under it the
    search, which looks at the cache, at one entry above and then only backwards
    through stripes of one range, finds an entry whenever there is one. *)
From stdpp Require Import base tactics list numbers strings sorting sets.
From Stdlib Require Import ZArith Lia.
From S2P Require Import Prelude AddrRange AddrRangeProps AddrRangeMap.
Import AddrRange AddrRangeMap.
Local Open Scope Z_scope.

Lemma StronglySorted_lookup_lt {A} (R : A → A → Prop) l i j x y :
  StronglySorted R l → l !! i = Some x → l !! j = Some y → (i < j)%nat → R x y.
Proof.
  intros Hs. revert i j. induction Hs as [|z l Hs IH Hz]; intros i j Hi Hj Hij; [done|].
  destruct j as [|j]; [lia|]. destruct i as [|i]; [|apply (IH i j); [done..|lia]].
  injection Hi as <-. by apply (Forall_lookup_1 _ _ _ _ Hz Hj).
Qed.

Lemma Forall_filter {A} (P Q : A → Prop) `{!∀ x, Decision (Q x)} l : Forall P l → Forall P (filter Q l).
Proof. rewrite !Forall_forall. intros Hl x [_ Hx]%list_elem_of_filter. auto. Qed.

(** ** Ranges as keys *)

(** A range that can be an entry: well-formed and not empty. *)
Record entry_ok (r : AddrRange) : Prop := {
  ek_wf : wf_range r;
  ek_low : interleaved r = true → masks_low r;
  ek_addr : ∃ a, in_range r a;
}.

(** The ranges an address map can tell apart: intervals without overlap, plain
    ranges, and stripes of one interleaved range. *)
Definition separable (r1 r2 : AddrRange) : Prop :=
  _end r2 ≤ _start r1 ∨ _end r1 ≤ _start r2 ∨ (masks r1 = [] ∧ masks r2 = []) ∨
  (mergesWith r1 r2 = true ∧ AddrRange.size r2 ≠ Ok 1).

Lemma separable_comparable r1 r2 : separable r1 r2 → comparable r1 r2.
Proof. unfold separable, comparable. tauto. Qed.

(** [r1] comes before [r2]. *)
Definition before (r1 r2 : AddrRange) : Prop :=
  _end r1 ≤ _start r2 ∨ (mergesWith r1 r2 = true ∧ intlvMatch r1 < intlvMatch r2).

Lemma entry_nonempty r : entry_ok r → _start r < _end r.
Proof. intros [_ _ [a [Ha _]]]. lia. Qed.

Lemma entry_plain_match r : entry_ok r → masks r = [] → intlvMatch r = 0.
Proof. intros [[_ _ Hm] _ _] E. unfold num_masks in Hm. rewrite E in Hm. change (2 ^ Z.of_nat (length (@nil Z))) with 1 in Hm. lia. Qed.

Lemma interleaved_cons r : interleaved r = true ↔ masks r ≠ [].
Proof. rewrite <-interleaved_nil. by destruct (interleaved r). Qed.

Lemma before_less r1 r2 : entry_ok r1 → entry_ok r2 → before r1 r2 → less r1 r2 = true.
Proof.
  intros H1 H2 Hb. pose proof (entry_nonempty _ H1). unfold less. destruct Hb as [?|[(Hs & He & Hm)%mergesWith_spec Hlt]].
  - rewrite (proj2 (Z.eqb_neq _ _)) by lia. cbn [negb]. lia.
  - rewrite <-Hs, Z.eqb_refl. cbn [negb].
    assert (interleaved r1 = true ∧ interleaved r2 = true) as [-> ->].
    { rewrite !interleaved_cons, Hm. split; intros E; rewrite (entry_plain_match r1), (entry_plain_match r2) in Hlt; congruence || lia. }
    cbn [andb]. lia.
Qed.

Lemma less_asym r1 r2 : less r1 r2 = true → less r2 r1 = false.
Proof.
  unfold less. destruct (Z.eqb_spec (_start r1) (_start r2)) as [E|E]; cbn [negb].
  - rewrite E, Z.eqb_refl. cbn [negb]. destruct (interleaved r1), (interleaved r2); simpl; done || lia.
  - rewrite (proj2 (Z.eqb_neq (_start r2) _)) by done. cbn [negb]. lia.
Qed.

Lemma less_start r1 r2 : less r1 r2 = false → _start r2 ≤ _start r1.
Proof. apply less_by_start. Qed.
Lemma less_start_true r1 r2 : less r1 r2 = true → _start r1 ≤ _start r2.
Proof. apply less_by_start. Qed.

Lemma before_disjoint r1 r2 a : entry_ok r1 → entry_ok r2 → before r1 r2 → in_range r1 a → ¬ in_range r2 a.
Proof.
  intros H1 H2 [?|[Hm ?]] Ha Hb; [destruct Ha as [Ha _], Hb as [Hb _]; lia|].
  assert (intlvMatch r1 = intlvMatch r2) by (eapply stripes_disjoint; [apply H1|apply H2|done..]). lia.
Qed.

(** Separable ranges that share no address are ordered. *)
Lemma separable_before r1 r2 :
  entry_ok r1 → entry_ok r2 → separable r1 r2 → ¬ (∃ a, in_range r1 a ∧ in_range r2 a) → before r1 r2 ∨ before r2 r1.
Proof.
  intros H1 H2 Hs Hn. pose proof (entry_nonempty _ H1). pose proof (entry_nonempty _ H2).
  destruct Hs as [?|[?|[[Hm1 Hm2]|[Hm _]]]]; [right; by left|left; by left| |].
  - destruct (Z.le_gt_cases (_end r1) (_start r2)); [left; by left|].
    destruct (Z.le_gt_cases (_end r2) (_start r1)); [right; by left|].
    destruct Hn. exists (Z.max (_start r1) (_start r2)). rewrite !in_range_plain by done. lia.
  - destruct (Z.lt_trichotomy (intlvMatch r1) (intlvMatch r2)) as [?|[He|?]].
    + left. by right.
    + destruct Hn, (ek_addr _ H1) as [a [Ha Ha']]. exists a. split; [done|].
      apply mergesWith_spec in Hm as (-> & -> & ->) || apply mergesWith_spec in Hm as (E1 & E2 & E3).
      split; [by rewrite E1, E2|]. by rewrite E3, <-He.
    + right. right. split; [|done]. apply mergesWith_spec in Hm as (? & ? & ?). by apply mergesWith_spec.
Qed.

(** A query: a non-empty plain range. *)
Definition query (r : AddrRange) : Prop := wf_range r ∧ masks r = [] ∧ _start r < _end r.

(** The second range holds every address of the first, in one block when it is
    interleaved. *)
Definition holds_range (r k : AddrRange) : Prop :=
  (∀ a, in_range r a → in_range k a) ∧
  (interleaved k = true → ∃ g, granularity k = Ok g ∧ _end r - _start r ≤ g).

Section map.
Context {V : Type} (max : nat).
Notation Node := (Node V).
Notation Map := (Map V).
Implicit Types (m : Map) (n : Node) (t : list Node).

Record map_ok (m : Map) : Prop := {
  mo_entries : Forall (λ n, entry_ok (first n)) (tree m);
  mo_sorted : StronglySorted (λ n n', before (first n) (first n')) (tree m);
  mo_ids : NoDup (map id (tree m));
  mo_fresh : Forall (λ n, (id n < next_id m)%nat) (tree m);
  mo_cache : Forall (λ it, it ∈ map id (tree m)) (cache m);
}.

Lemma node_of_ok t n : NoDup (map id t) → n ∈ t → node_of t (id n) = Ok n.
Proof.
  intros Hn Hin. induction t as [|x t IH]; [set_solver|]. cbn [map node_of] in *. apply NoDup_cons in Hn as [Hx Hn].
  apply elem_of_cons in Hin as [->|Hin]; [by rewrite bool_decide_true|].
  rewrite bool_decide_false; [by apply IH|]. intros E. apply Hx. rewrite E. apply list_elem_of_fmap. eauto.
Qed.

Lemma second_of_ok m n : map_ok m → n ∈ tree m → second_of (id n) m = Ok (second n, m).
Proof.
  intros Hm Hn. unfold second_of. exec_M idtac.
  by rewrite (M_bind_ok _ _ _ _ _ (lift_ok _ _ _ (node_of_ok (tree m) n (mo_ids m Hm) Hn))).
Qed.

(** ** The search *)

Section find.
Context (r : AddrRange) (cond : AddrRange → res bool) (P : Node → Prop).

(** The condition decides [P] on the entries of a list. *)
Definition decides (t : list Node) : Prop :=
  Forall (λ n, ∃ b, cond (first n) = Ok b ∧ (b = true ↔ P n)) t.

Lemma decides_at t n : decides t → n ∈ t → ∃ b, cond (first n) = Ok b ∧ (b = true ↔ P n).
Proof. unfold decides. rewrite Forall_forall. auto. Qed.

Lemma cache_search_ok t c : NoDup (map id t) → decides t → ∀ seen,
  Forall (λ it, it ∈ map id t) c →
  (∃ n c', cache_search t cond seen c = Ok (Some (id n, c')) ∧ n ∈ t ∧ P n ∧ c' ≡ₚ seen ++ c) ∨
  cache_search t cond seen c = Ok None.
Proof.
  intros Hn Hd. induction c as [|it c IH]; intros seen Hc; cbn [cache_search]; [by right|].
  apply Forall_cons in Hc as [Hit Hc]. apply list_elem_of_fmap in Hit as (n & -> & Hin). rewrite (node_of_ok t n) by done. cbn [mbind res_bind].
  destruct (decides_at t n Hd Hin) as (b & -> & Hb). cbn [mbind res_bind]. destruct b.
  - left. exists n. eexists. split; [reflexivity|]. split; [done|]. split; [by apply Hb|].
    rewrite (Permutation_rev seen) at 2. by rewrite Permutation_middle.
  - destruct (IH (id n :: seen) Hc) as [(n' & c' & -> & Hin' & HP & Hp)| ->]; [left|by right].
    exists n', c'. split; [done|]. split; [done|]. split; [done|]. rewrite Hp. simpl. by rewrite Permutation_middle.
Qed.

Lemma walk_back_sound l : decides l → ∃ o, walk_back cond l = Ok o ∧ ∀ it, o = Some it → ∃ n, n ∈ l ∧ id n = it ∧ P n.
Proof.
  induction l as [|i l IH]; intros Hd; cbn [walk_back]; [by eexists|].
  apply Forall_cons in Hd as [(b & -> & Hb) Hd]. cbn [mbind res_bind]. destruct b.
  { eexists. split; [reflexivity|]. intros it [= <-]. exists i. split; [set_solver|]. split; [done|by apply Hb]. }
  destruct l as [|next l]; [by eexists|]. destruct (mergesWith _ _); [|by eexists].
  destruct (IH Hd) as (o & -> & Ho). exists o. split; [done|]. intros it Hit. destruct (Ho it Hit) as (n & Hn & ?).
  exists n. split; [set_solver|done].
Qed.

Lemma walk_back_complete n l1 l2 :
  decides (l1 ++ n :: l2) → Forall (λ x, mergesWith (first x) (first n) = true) l1 → P n →
  ∃ it, walk_back cond (l1 ++ n :: l2) = Ok (Some it).
Proof.
  intros Hd Hm HP. induction l1 as [|x l1 IH]; cbn [app walk_back] in *.
  - apply Forall_cons in Hd as [(b & -> & Hb) _]. cbn [mbind res_bind]. destruct b; [by eexists|]. by apply Hb in HP.
  - apply Forall_cons in Hd as [(b & -> & Hb) Hd], Hm as [Hx Hm]. cbn [mbind res_bind]. destruct b; [by eexists|].
    destruct (IH Hd Hm) as [it Hit]. exists it. destruct l1 as [|y l1]; cbn [app] in *.
    + apply mergesWith_spec in Hx as (? & ? & ?).
      assert (mergesWith (first n) (first x) = true) as -> by (apply mergesWith_spec; split_and!; congruence). done.
    + apply Forall_cons in Hm as [Hy _]. apply mergesWith_spec in Hx as (? & ? & ?), Hy as (? & ? & ?).
      assert (mergesWith (first y) (first x) = true) as -> by (apply mergesWith_spec; split_and!; congruence). done.
Qed.

(** Where the search looks: at the upper bound, or before it, behind stripes of
    the same range only. *)
Definition located (t : list Node) (n : Node) : Prop :=
  let k := upper_bound r t in
  t !! k = Some n ∨ ∃ l1 l2, rev (take k t) = l1 ++ n :: l2 ∧ Forall (λ x, mergesWith (first x) (first n) = true) l1.

Lemma addNewEntryToCache_ok it m :
  map_ok m → it ∈ map id (tree m) →
  ∃ m', addNewEntryToCache max it m = Ok (tt, m') ∧ map_ok m' ∧ tree m' = tree m ∧ next_id m' = next_id m.
Proof.
  intros [H1 H2 H3 H4 H5] Hit. eexists. split; [reflexivity|].
  assert (∀ c, Forall (λ it, it ∈ map id (tree m)) c → map_ok (set_cache c m)) as Hset by (by intros c Hc).
  destruct (bool_decide (max = 0%nat)); [done|]. destruct (bool_decide _); (split; [apply Hset|done]); [|by constructor].
  assert (Forall (λ it, it ∈ map id (tree m)) (take (length (cache m) - 1) (cache m))) by (by apply Forall_take).
  destruct (bool_decide _); [by constructor|]. apply Forall_app. split; [done|by constructor].
Qed.

Lemma find_ok m :
  map_ok m → decides (tree m) →
  ((∃ n, n ∈ tree m ∧ P n) → ∃ n, n ∈ tree m ∧ P n ∧ located (tree m) n) →
  ∃ o m', find max r cond m = Ok (o, m') ∧ map_ok m' ∧ tree m' = tree m ∧ next_id m' = next_id m ∧
    match o with Some it => ∃ n, n ∈ tree m ∧ id n = it ∧ P n | None => ∀ n, n ∈ tree m → ¬ P n end.
Proof.
  intros Hm Hd Hloc. pose proof Hm as [_ _ Hids _ Hc]. unfold find.
  rewrite (M_bind_ok _ _ _ m m eq_refl).
  destruct (cache_search_ok (tree m) (cache m) Hids Hd [] Hc) as [(n & c' & Hcs & Hin & HP & Hp)|Hcs].
  { exists (Some (id n)), (set_cache c' m). split; [by rewrite (M_bind_ok _ _ _ _ _ (lift_ok _ _ _ Hcs))|].
    split; [|split; [done|]; split; [done|]; by exists n].
    destruct Hm as [H1 H2 H3 H4 H5]. split; try done. simpl. by rewrite Hp. }
  set (k := upper_bound r (tree m)).
  assert (decides (rev (take k (tree m)))) as Hdk.
  { unfold decides. rewrite <-Permutation_rev. by apply Forall_take. }
  destruct (walk_back_sound _ Hdk) as (ow & Hwb & How).
  (* what the search finds *)
  assert (∃ on found,
    (match tree m !! k with
     | Some next => b ← cond (first next); Ok (if (b : bool) then Some (id next) else None)
     | None => Ok None
     end) = Ok on ∧
    (match on with Some it => mret (Some it) | None => lift (walk_back cond (rev (take k (tree m)))) end) m = Ok (found, m) ∧
    match found with Some it => ∃ n, n ∈ tree m ∧ id n = it ∧ P n | None => ∀ n, n ∈ tree m → ¬ P n end)
    as (on & found & Hon & Hfound & Hspec).
  { assert (∀ it, ow = Some it → ∃ n, n ∈ tree m ∧ id n = it ∧ P n) as How'.
    { intros it Hit. destruct (How it Hit) as (n & Hn & ?). exists n. split; [|done].
      rewrite <-Permutation_rev in Hn. by eapply elem_of_take in Hn as (? & ? & _); eapply list_elem_of_lookup_2. }
    assert ((∀ n, tree m !! k = Some n → ¬ P n) → ow = None → ∀ n, n ∈ tree m → ¬ P n) as Hnone.
    { intros Hk -> n Hn HP. destruct Hloc as (n' & Hn' & HP' & [Hl|(l1 & l2 & Hl & Hml)]); [by eauto|by apply (Hk n')|].
      fold k in Hl. rewrite Hl in Hwb, Hdk. destruct (walk_back_complete n' l1 l2) as [it Hit]; [done..|]. congruence. }
    destruct (tree m !! k) as [next|] eqn:Hk.
    - destruct (decides_at (tree m) next Hd) as (b & -> & Hb); [by eapply list_elem_of_lookup_2|]. cbn [mbind res_bind].
      destruct b.
      + eexists _, (Some (id next)). split; [reflexivity|]. split; [done|]. exists next.
        split; [by eapply list_elem_of_lookup_2|]. split; [done|by apply Hb].
      + eexists _, ow. split; [reflexivity|]. split; [by apply lift_ok|]. destruct ow; [by apply How'|].
        apply Hnone; [|done]. intros n [= <-] HP. by apply Hb in HP.
    - eexists _, ow. split; [reflexivity|]. split; [by apply lift_ok|]. destruct ow; [by apply How'|]. by apply Hnone. }
  rewrite (M_bind_ok _ _ _ _ _ (lift_ok _ _ _ Hcs)). fold k.
  rewrite (M_bind_ok _ _ _ _ _ (lift_ok _ _ _ Hon)). rewrite (M_bind_ok _ _ _ _ _ Hfound).
  destruct found as [it|]; [|by exists None, m].
  destruct Hspec as (n & Hn & <- & HP).
  destruct (addNewEntryToCache_ok (id n) m) as (m' & Hr & Hm' & Ht & Hi); [done|apply list_elem_of_fmap; eauto|].
  exists (Some (id n)), m'. rewrite (M_bind_ok _ _ _ _ _ Hr). split; [done|].
  do 3 (split; [done|]). by exists n.
Qed.
End find.

(** ** Where a range is found *)

Lemma upper_bound_before r t j x : t !! j = Some x → (j < upper_bound r t)%nat → less r (first x) = false.
Proof.
  revert j. induction t as [|y t IH]; intros j Hj Hlt; [done|]. cbn [upper_bound] in Hlt.
  destruct (less r (first y)) eqn:E; [lia|]. destruct j as [|j]; [by injection Hj as <-|]. apply (IH j); [done|lia].
Qed.

Lemma upper_bound_at r t y : t !! upper_bound r t = Some y → less r (first y) = true.
Proof.
  induction t as [|x t IH]; [done|]. cbn [upper_bound]. destruct (less r (first x)) eqn:E; [by intros [= <-]|]. done.
Qed.

Lemma located_back r t i n :
  t !! i = Some n → (i < upper_bound r t)%nat →
  (∀ j x, (i < j)%nat → t !! j = Some x → less r (first x) = false → mergesWith (first x) (first n) = true) →
  located r t n.
Proof.
  intros Hi Hk Hm. right. set (k := upper_bound r t) in *.
  assert (take k t !! i = Some n) as Hik by (by rewrite lookup_take_lt).
  exists (rev (drop (S i) (take k t))), (rev (take i (take k t))). split.
  - rewrite <-(take_drop_middle _ _ _ Hik) at 1. rewrite rev_app_distr. cbn [rev]. by rewrite <-app_assoc.
  - rewrite <-Permutation_rev. apply Forall_forall. intros x [j Hj]%list_elem_of_lookup_1.
    rewrite lookup_drop in Hj. apply lookup_take_Some in Hj as [Hj Hlt].
    apply (Hm (S i + j)%nat); [lia|done|]. eapply upper_bound_before; [done|lia].
Qed.

Lemma sorted_before m i j n x :
  map_ok m → tree m !! i = Some n → tree m !! j = Some x → (i < j)%nat → before (first n) (first x).
Proof. intros [_ Hs _ _ _] Hi Hj Hij. exact (StronglySorted_lookup_lt _ _ i j _ _ Hs Hi Hj Hij). Qed.

Lemma entry_at m i n : map_ok m → tree m !! i = Some n → entry_ok (first n).
Proof. intros [He _ _ _ _] Hi. eapply (Forall_lookup_1 _ _ _ _ He Hi). Qed.

(** An entry that contains the start of a plain range is where the search for
    the range looks. *)
Lemma located_start m r n :
  map_ok m → masks r = [] → n ∈ tree m → _start (first n) ≤ _start r < _end (first n) → located r (tree m) n.
Proof.
  intros Hm Hr [i Hi]%list_elem_of_lookup_1 Hs.
  assert (∀ x : Node, less r (first x) = true → _start r < _start (first x)) as Hless.
  { intros x Hx. unfold less in Hx. rewrite (proj2 (interleaved_nil r) Hr) in Hx. cbn [andb] in Hx.
    destruct (Z.eqb_spec (_start r) (_start (first x))); cbn [negb] in Hx; [done|lia]. }
  destruct (Nat.lt_ge_cases i (upper_bound r (tree m))) as [Hlt|Hge].
  - apply (located_back r (tree m) i n Hi Hlt). intros j x Hij Hj Hx. apply less_start in Hx.
    destruct (sorted_before m i j n x Hm Hi Hj Hij) as [?|[(? & ? & ?)%mergesWith_spec _]]; [lia|].
    by apply mergesWith_spec.
  - destruct (lookup_lt_is_Some_2 (tree m) (upper_bound r (tree m))) as [y Hy].
    { apply lookup_lt_Some in Hi. lia. }
    pose proof (Hless y (upper_bound_at _ _ _ Hy)). destruct (decide (upper_bound r (tree m) = i)) as [E|Hne].
    { rewrite E in Hy. assert (y = n) as -> by congruence. lia. }
    pose proof (entry_nonempty _ (entry_at m _ _ Hm Hy)).
    destruct (sorted_before m _ i y n Hm Hy Hi) as [?|[(? & ? & ?)%mergesWith_spec _]]; [lia|lia|lia].
Qed.

(** If entries share addresses with a separable range, the search for a conflict
    looks at one of them. *)
Lemma located_conflict m r :
  map_ok m → entry_ok r → Forall (λ n, separable r (first n)) (tree m) →
  let shares (n : Node) := ∃ a, in_range r a ∧ in_range (first n) a in
  (∃ n, n ∈ tree m ∧ shares n) → ∃ n, n ∈ tree m ∧ shares n ∧ located r (tree m) n.
Proof.
  intros Hm Hr Hsep shares (n & Hn & Hsh). pose proof Hn as [i Hi]%list_elem_of_lookup_1.
  pose proof (entry_at m i n Hm Hi) as Hen. pose proof (entry_nonempty _ Hen). pose proof (entry_nonempty _ Hr).
  assert (_start r < _end (first n) ∧ _start (first n) < _end r) as [Hs1 Hs2].
  { destruct Hsh as (a & [Ha _] & [Ha' _]). lia. }
  rewrite Forall_forall in Hsep.
  destruct (Nat.lt_ge_cases i (upper_bound r (tree m))) as [Hlt|Hge].
  { exists n. split; [done|]. split; [done|]. apply (located_back r (tree m) i n Hi Hlt). intros j x Hij Hj Hx.
    apply less_start in Hx. destruct (sorted_before m i j n x Hm Hi Hj Hij) as [?|[(? & ? & ?)%mergesWith_spec _]]; [lia|].
    by apply mergesWith_spec. }
  destruct (lookup_lt_is_Some_2 (tree m) (upper_bound r (tree m))) as [y Hy].
  { apply lookup_lt_Some in Hi. lia. }
  assert (y ∈ tree m) as Hyin by (by eapply list_elem_of_lookup_2).
  exists y. split; [done|]. split; [|by left]. pose proof (upper_bound_at _ _ _ Hy) as Hly.
  destruct (decide (upper_bound r (tree m) = i)) as [E|Hne].
  { rewrite E in Hy. by assert (y = n) as -> by congruence. }
  pose proof (entry_at m _ _ Hm Hy) as Hey. pose proof (entry_nonempty _ Hey). pose proof (less_start_true _ _ Hly).
  destruct (sorted_before m _ i y n Hm Hy Hi) as [Hb|[Hmg Hmt]]; [lia| |].
  - (* the interval of [y] lies in the one of [r] *)
    destruct (Hsep y Hyin) as [?|[?|[[Hm1 Hm2]|[(? & ? & ?)%mergesWith_spec _]]]]; [lia|lia| |lia].
    exists (_start (first y)). rewrite !in_range_plain by done. lia.
  - (* [y] and [n] are stripes of one range *)
    exfalso. pose proof Hmg as (Hst & Hed & Hma)%mergesWith_spec.
    destruct (Hsep n Hn) as [?|[?|[[Hm1 Hm2]|[Hrn _]]]]; [lia|lia| |].
    + rewrite (entry_plain_match (first y)), (entry_plain_match (first n)) in Hmt; [lia|done|done|done|congruence].
    + destruct Hsh as (a & Ha & Ha'). assert (intlvMatch r = intlvMatch (first n)) as Hrm.
      { eapply stripes_disjoint; [apply Hr|apply Hen|done..]. }
      apply mergesWith_spec in Hrn as (? & ? & ?). unfold less in Hly.
      rewrite (proj2 (Z.eqb_eq _ _)) in Hly by congruence. cbn [negb] in Hly.
      destruct (interleaved r) eqn:Ir; [|done].
      rewrite (proj2 (interleaved_cons (first y))) in Hly; [cbn [andb] in Hly; lia|].
      apply interleaved_cons in Ir. congruence.
Qed.

(** ** The operations *)

Definition holds (r : AddrRange) (n : Node) : Prop := holds_range r (first n).
Definition shares (r : AddrRange) (n : Node) : Prop := ∃ a, in_range r a ∧ in_range (first n) a.

Lemma map_contains_ok m r : map_ok m → query r →
  ∃ o m', contains max r m = Ok (o, m') ∧ map_ok m' ∧ tree m' = tree m ∧ next_id m' = next_id m ∧
    match o with Some it => ∃ n, n ∈ tree m ∧ id n = it ∧ holds r n | None => ∀ n, n ∈ tree m → ¬ holds r n end.
Proof.
  intros Hm (Hw & Hp & Hne). apply find_ok; [done| |].
  - apply Forall_forall. intros n [i Hi]%list_elem_of_lookup_1. pose proof (entry_at m i n Hm Hi) as [H1 H2 _].
    by apply isSubset_ok.
  - intros (n & Hn & Hh). exists n. split; [done|]. split; [done|]. apply located_start; [done..|].
    apply (proj1 Hh (_start r)). apply in_range_plain; [done|lia].
Qed.

(** At most one entry holds a range. *)
Lemma holds_unique m r n n' : map_ok m → query r → n ∈ tree m → n' ∈ tree m → holds r n → holds r n' → n = n'.
Proof.
  intros Hm (_ & Hp & Hne) [i Hi]%list_elem_of_lookup_1 [j Hj]%list_elem_of_lookup_1 [H1 _] [H2 _].
  assert (in_range r (_start r)) as Hin by (apply in_range_plain; [done|lia]).
  specialize (H1 _ Hin). specialize (H2 _ Hin).
  pose proof (entry_at m i n Hm Hi). pose proof (entry_at m j n' Hm Hj).
  destruct (Nat.lt_trichotomy i j) as [?|[->|?]]; [|congruence|]; exfalso.
  - eapply (before_disjoint (first n) (first n')); [done|done|by eapply sorted_before|done..].
  - eapply (before_disjoint (first n') (first n)); [done|done|by eapply sorted_before|done..].
Qed.

Lemma tree_insert_ok (x : Node) t :
  entry_ok (first x) → Forall (λ n, entry_ok (first n)) t → StronglySorted (λ n n', before (first n) (first n')) t →
  Forall (λ n, before (first x) (first n) ∨ before (first n) (first x)) t →
  ∃ t', tree_insert x t = (t', id x) ∧ t' ≡ₚ x :: t ∧ StronglySorted (λ n n', before (first n) (first n')) t'.
Proof.
  intros Hx He Hs Hb. induction Hs as [|n t Hs IH Hn]; cbn [tree_insert].
  { eexists. split; [reflexivity|]. split; [done|by repeat constructor]. }
  apply Forall_cons in He as [Hen He], Hb as [Hbn Hb]. destruct Hbn as [Hxn|Hnx].
  - rewrite (before_less _ _ Hx Hen Hxn). eexists. split; [reflexivity|]. split; [done|].
    constructor; [by constructor|]. constructor; [done|].
    rewrite Forall_forall in Hn, Hb, He |- *. intros y Hy. specialize (Hn y Hy). specialize (He y Hy).
    destruct (Hb y Hy) as [?|Hyx]; [done|exfalso].
    pose proof (before_less _ _ Hx Hen Hxn) as L1. pose proof (before_less _ _ Hen He Hn) as L2.
    pose proof (before_less _ _ He Hx Hyx) as L3.
    pose proof (entry_nonempty _ Hx). pose proof (entry_nonempty _ Hen). pose proof (entry_nonempty _ He).
    apply less_start_true in L1, L2, L3.
    destruct Hxn as [?|[(?&?&?)%mergesWith_spec ?]], Hn as [?|[(?&?&?)%mergesWith_spec ?]], Hyx as [?|[(?&?&?)%mergesWith_spec ?]]; lia.
  - pose proof (before_less _ _ Hen Hx Hnx) as L. rewrite (less_asym _ _ L), L.
    destruct (IH He Hb) as (t' & -> & Hp & Hs'). eexists. split; [reflexivity|]. split.
    + rewrite Hp. apply Permutation_swap.
    + constructor; [done|]. rewrite Hp. by constructor.
Qed.

Lemma intersects_decides m r :
  map_ok m → entry_ok r → Forall (λ n, separable r (first n)) (tree m) →
  decides (AddrRange.intersects r) (shares r) (tree m).
Proof.
  intros [He _ _ _ _] [Hw _ Ha] Hsep. apply Forall_forall. intros n Hn. rewrite Forall_forall in Hsep, He.
  pose proof (He n Hn) as [H1 _ H2]. apply intersects_ok; [done|done|by apply separable_comparable, Hsep|done..].
Qed.

Lemma insert_ok m r d : map_ok m → entry_ok r → Forall (λ n, separable r (first n)) (tree m) →
  ∃ o m', insert max r d m = Ok (o, m') ∧ map_ok m' ∧
    match o with
    | Some it => (∀ n, n ∈ tree m → ¬ shares r n) ∧ tree m' ≡ₚ mkNode it r d :: tree m
    | None => (∃ n, n ∈ tree m ∧ shares r n) ∧ tree m' = tree m
    end.
Proof.
  intros Hm Hr Hsep. pose proof Hm as [He _ _ _ _].
  destruct (find_ok r (AddrRange.intersects r) (shares r) m) as (o & m' & Hf & Hm' & Ht & Hi & Ho); [done| | |].
  { by apply intersects_decides. }
  { apply (located_conflict m r Hm Hr Hsep). }
  unfold insert. fold (intersects (V := V) max r) in Hf. destruct o as [it|].
  { exists None, m'. rewrite (M_bind_ok _ _ _ _ _ Hf). split; [done|]. split; [done|]. split; [|done].
    destruct Ho as (n & ? & _ & ?). eauto. }
  rewrite (M_bind_ok _ _ _ _ _ Hf). unfold insert_pair. pose proof Hm' as [He' Hs' Hids Hfr Hc].
  destruct (tree_insert_ok (mkNode (next_id m') r d) (tree m')) as (t' & -> & Hp & Hst); [done|done|done| |].
  { apply Forall_forall. intros n Hn. rewrite Ht in Hn. rewrite Forall_forall in Hsep, He.
    apply separable_before; [done|by apply He|by apply Hsep|by apply Ho]. }
  eexists _, _. split; [reflexivity|]. split; [|split; [exact Ho|simpl; by rewrite Hp, Ht]].
  split; simpl; [rewrite Hp; by constructor|done| | |].
  - rewrite Hp. simpl. apply NoDup_cons. split; [|done]. intros (n & Hn & Hin)%list_elem_of_fmap.
    rewrite Forall_forall in Hfr. specialize (Hfr n Hin). lia.
  - rewrite Hp. constructor; [simpl; lia|]. eapply Forall_impl; [exact Hfr|]. simpl. lia.
  - eapply Forall_impl; [exact Hc|]. intros it Hit. rewrite Hp. simpl. set_solver.
Qed.

Lemma erase_ok m n : map_ok m → n ∈ tree m →
  ∃ m', erase (id n) m = Ok (tt, m') ∧ map_ok m' ∧ tree m' = filter (λ n', id n' ≠ id n) (tree m).
Proof.
  intros [H1 H2 H3 H4 H5] Hn. eexists. split.
  { unfold erase. exec_M idtac. rewrite (M_bind_ok _ _ _ _ _ (lift_ok _ _ _ (node_of_ok (tree m) n H3 Hn))). reflexivity. }
  split; [|done]. split; simpl.
  - by apply Forall_filter.
  - clear -H2. induction H2 as [|x t Hs IH Hx]; [constructor|]. rewrite filter_cons. case_decide; [|done].
    constructor; [done|by apply Forall_filter].
  - eapply sublist_NoDup; [exact H3|]. apply (fmap_sublist id), sublist_filter.
  - by apply Forall_filter.
  - apply Forall_forall. intros it [Hne Hit]%list_elem_of_filter. rewrite Forall_forall in H5.
    specialize (H5 it Hit). apply list_elem_of_fmap in H5 as (x & -> & Hx).
    apply list_elem_of_fmap. exists x. split; [done|]. by apply list_elem_of_filter.
Qed.

Lemma clear_ok m : map_ok m → ∃ m', clear m = Ok (tt, m') ∧ map_ok m' ∧ tree m' = [].
Proof. intros _. eexists. split; [reflexivity|]. by repeat constructor. Qed.

(** ** Reachable maps *)

Inductive reach : Map → Prop :=
  | reach_empty : reach empty_map
  | reach_insert m r d o m' :
      reach m → entry_ok r → Forall (λ n, separable r (first n)) (tree m) →
      insert max r d m = Ok (o, m') → reach m'
  | reach_contains m r o m' : reach m → query r → contains max r m = Ok (o, m') → reach m'
  | reach_erase m n m' : reach m → n ∈ tree m → erase (id n) m = Ok (tt, m') → reach m'
  | reach_clear m m' : reach m → clear m = Ok (tt, m') → reach m'.

Lemma reach_ok m : reach m → map_ok m.
Proof.
  induction 1 as [|m r d o m' _ IH Hr Hs Hi|m r o m' _ IH Hq Hc|m n m' _ IH Hn He|m m' _ IH Hc].
  - by repeat constructor.
  - destruct (insert_ok m r d IH Hr Hs) as (? & ? & ? & ? & _). congruence.
  - destruct (map_contains_ok m r IH Hq) as (? & ? & ? & ? & _). congruence.
  - destruct (erase_ok m n IH Hn) as (? & ? & ? & _). congruence.
  - destruct (clear_ok m IH) as (? & ? & ? & _). congruence.
Qed.
End map.

(** C12. Address decoding is exact.  In every map built by insertions, lookups
    and erasures, whatever the size of its cache: a lookup of a plain range
    succeeds and returns the one entry that holds the range, if there is one,
    changing no entry; an insertion of a separable range adds it exactly when it
    shares no address with an entry; and an erasure removes the given entry
    only. *)
Theorem address_map_decodes {V} max (m : Map V) :
  reach max m →
  (∀ r, query r → ∃ o m', contains max r m = Ok (o, m') ∧ tree m' = tree m ∧
     ∀ n, n ∈ tree m → (o = Some (id n) ↔ holds r n)) ∧
  (∀ r d, entry_ok r → Forall (λ n, separable r (first n)) (tree m) → ∃ o m', insert max r d m = Ok (o, m') ∧
     (if decide (o = None) then (∃ n, n ∈ tree m ∧ shares r n) ∧ tree m' = tree m
      else (∀ n, n ∈ tree m → ¬ shares r n) ∧ ∃ it, tree m' ≡ₚ mkNode it r d :: tree m)) ∧
  (∀ n, n ∈ tree m → ∃ m', erase (id n) m = Ok (tt, m') ∧ tree m' = filter (λ n', id n' ≠ id n) (tree m)).
Proof.
  intros Hm%reach_ok. split_and!.
  - intros r Hq. destruct (map_contains_ok max m r Hm Hq) as (o & m' & Hc & _ & Ht & _ & Ho). exists o, m'.
    split; [done|]. split; [done|]. intros n Hn. destruct o as [it|].
    + destruct Ho as (n' & Hn' & <- & Hh). split.
      * intros [= Hid]. assert (n' = n) as ->; [|done].
        pose proof (node_of_ok (tree m) n (mo_ids m Hm) Hn). pose proof (node_of_ok (tree m) n' (mo_ids m Hm) Hn'). congruence.
      * intros Hh'. by rewrite (holds_unique m r n' n).
    + split; [done|]. intros Hh. by destruct (Ho n Hn).
  - intros r d Hr Hs. destruct (insert_ok max m r d Hm Hr Hs) as (o & m' & Hi & _ & Ho). exists o, m'. split; [done|].
    destruct o as [it|]; [|done]. rewrite decide_False by done. destruct Ho. eauto.
  - intros n Hn. destruct (erase_ok m n Hm Hn) as (m' & ? & _ & ?). eauto.
Qed.

(** ** An example *)

Definition run_map {V A} (f : M (Map V) A) (m : Map V) : Map V := match f m with Ok (_, m') => m' | Err _ => m end.

(** Two channels interleaved at 64 bytes, and a device above them. *)
Definition stripe (k : Z) : AddrRange := mk 0 4096 [64] k.
Definition map_1 : Map Z := run_map (insert 3 (stripe 0) 0) empty_map.
Definition map_2 : Map Z := run_map (insert 3 (stripe 1) 1) map_1.
Definition example_map : Map Z := run_map (insert 3 (range 8192 8200) 2) map_2.

Lemma entry_stripe k : k = 0 ∨ k = 1 → entry_ok (stripe k).
Proof.
  intros Hk. split.
  - split; simpl; [lia|lia|]. unfold num_masks. simpl. lia.
  - intros _. exists 6. split; [lia|reflexivity].
  - exists (64 * k). split; [simpl; lia|]. intros [|i] m [= <-]; destruct Hk as [->| ->]; reflexivity.
Qed.

Lemma entry_device : entry_ok (range 8192 8200).
Proof.
  split; [split; simpl; [lia|lia|by split]|done|]. exists 8192. apply in_range_plain; [done|simpl; lia].
Qed.

Lemma map_2_reach : reach 3 map_2.
Proof.
  apply (reach_insert 3 map_1 (stripe 1) 1 (Some 1%nat)); [|apply entry_stripe; by right| |reflexivity].
  - by apply (reach_insert 3 empty_map (stripe 0) 0 (Some 0%nat)); [constructor|apply entry_stripe; left|constructor|].
  - change (tree map_1) with [mkNode 0 (stripe 0) 0]. apply Forall_singleton. right. right. right. done.
Qed.

Lemma example_reach : reach 3 example_map.
Proof.
  apply (reach_insert 3 map_2 (range 8192 8200) 2 (Some 2%nat)); [exact map_2_reach|exact entry_device| |reflexivity].
  change (tree map_2) with [mkNode 0 (stripe 0) 0; mkNode 1 (stripe 1) 1].
  apply Forall_cons. split; [by left|]. apply Forall_singleton. by left.
Qed.

Lemma address_map_decodes_witness :
  ∃ o m', contains 3 (range 80 96) example_map = Ok (o, m') ∧ tree m' = tree example_map ∧
    ∀ n, n ∈ tree example_map → (o = Some (id n) ↔ holds (range 80 96) n).
Proof.
  refine (proj1 (address_map_decodes 3 example_map example_reach) (range 80 96) _).
  split; [split; simpl; [lia|lia|by split]|]. split; [done|simpl; lia].
Defined.

(** [erase(p, q)] leaves dangling iterators in the cache: its loop removes
    the iterator [p] once for every erased entry and not the entry's own, so that
    after erasing two found entries the next lookup dereferences the second. *)
Theorem erase_range_dangles :
  ∃ m : Map Z, reach 3 m ∧ (∃ m', erase_range 0 None m = Ok (tt, m') ∧ tree m' = [] ∧
    contains_addr 3 0 m' = Err EBadPointer).
Proof.
  set (m3 := run_map (contains_addr 3 0) map_2). exists (run_map (contains_addr 3 64) m3). split.
  - assert (∀ a, 0 ≤ a < 2 ^ 63 → query (RangeSize a 1)) as Hq.
    { intros a Ha. unfold RangeSize. rewrite u64_small by lia. split; [split; simpl; [lia|lia|by split]|]. split; [done|simpl; lia]. }
    apply (reach_contains 3 m3 (RangeSize 64 1) (Some 1%nat)); [|apply Hq; lia|reflexivity].
    apply (reach_contains 3 map_2 (RangeSize 0 1) (Some 0%nat)); [exact map_2_reach|apply Hq; lia|reflexivity].
  - eexists. split; [reflexivity|]. split; reflexivity.
Qed.
