(* ===== verification/XBarDecode.v ===== *)
(** * The address map of a crossbar

    [BaseXBar::recvRangeChange], [findPort] and [getAddrRanges] of [mem/xbar.cc]:
    the crossbar collects the address ranges of the devices on its memory side,
    finds the port of a packet by them, and reports the merged ranges to its CPU
    side. *)
From stdpp Require Import base tactics list numbers strings.
From Stdlib Require Import ZArith Lia.
From S2P Require Import Prelude AddrRange AddrRangeMap.
Import AddrRange.
Local Open Scope Z_scope.

Module XBarDecode.
Definition InvalidPortID : Z := -1.

(** [rangeChanges] counts the rounds of [sendRangeChange] to the CPU-side
    ports. *)
Record Decoder := mkDecoder {
  portMap : AddrRangeMap.Map Z;
  gotAddrRanges : list bool;
  gotAllAddrRanges : bool;
  defaultRange : AddrRange;
  xbarRanges : list AddrRange;
  rangeChanges : Z;
}.

(** A crossbar with [n] memory-side ports. *)
Definition new (n : nat) : Decoder :=
  mkDecoder AddrRangeMap.empty_map (replicate n false) false range_default [] 0.

Definition set_portMap (m : AddrRangeMap.Map Z) (d : Decoder) : Decoder :=
  mkDecoder m (gotAddrRanges d) (gotAllAddrRanges d) (defaultRange d) (xbarRanges d) (rangeChanges d).
Definition set_got (g : list bool) (all : bool) (d : Decoder) : Decoder :=
  mkDecoder (portMap d) g all (defaultRange d) (xbarRanges d) (rangeChanges d).
Definition set_default (r : AddrRange) (d : Decoder) : Decoder :=
  mkDecoder (portMap d) (gotAddrRanges d) (gotAllAddrRanges d) r (xbarRanges d) (rangeChanges d).
Definition set_ranges (l : list AddrRange) (d : Decoder) : Decoder :=
  mkDecoder (portMap d) (gotAddrRanges d) (gotAllAddrRanges d) (defaultRange d) l (rangeChanges d).
Definition notify (d : Decoder) : Decoder :=
  mkDecoder (portMap d) (gotAddrRanges d) (gotAllAddrRanges d) (defaultRange d) (xbarRanges d) (rangeChanges d + 1).

(** An operation of the address map, whose cache has three entries. *)
Definition on_map {A} (f : M (AddrRangeMap.Map Z) A) : M Decoder A := λ d,
  match f (portMap d) with Ok (a, m) => Ok (a, set_portMap m d) | Err e => Err e end.

Section decoder.
Context (defaultPortID : Z) (useDefaultRange : bool).

Definition findPort (addr_range : AddrRange) : M Decoder Z :=
  d ← gets (λ d, d);
  massert "gotAllAddrRanges" (gotAllAddrRanges d) ;;
  i ← on_map (AddrRangeMap.contains 3 addr_range);
  match i with
  | Some it => on_map (AddrRangeMap.second_of it)
  | None =>
      if useDefaultRange then
        b ← lift (isSubset addr_range (defaultRange d));
        if (b : bool) then mret defaultPortID else throw (EPanic "Unable to find destination")
      else if negb (defaultPortID =? InvalidPortID) then mret defaultPortID
      else throw (EPanic "Unable to find destination")
  end.

(** [for (p = portMap.begin(); p != portMap.end(); )]: the entries of the port
    are erased on the way. *)
Fixpoint erase_entries (port : Z) (l : list (AddrRangeMap.Node Z)) : M Decoder unit :=
  match l with
  | [] => mret tt
  | p :: l =>
      when (AddrRangeMap.second p =? port) (on_map (AddrRangeMap.erase (AddrRangeMap.id p))) ;;
      erase_entries port l
  end.

Definition insert_range (port : Z) (r : AddrRange) : M Decoder unit :=
  it ← on_map (AddrRangeMap.insert 3 r port);
  match it with
  | Some _ => mret tt
  | None =>
      conflict ← on_map (AddrRangeMap.intersects 3 r);
      match conflict with
      | Some it => _ ← on_map (AddrRangeMap.second_of it); throw (EPanic "two ports responding within range")
      | None => throw EBadPointer
      end
  end.

(** [if (!(useDefaultRange && r.isSubset(defaultRange))) xbarRanges.push_back(r)] *)
Definition keep_range (default r : AddrRange) (acc : list AddrRange) : res (list AddrRange) :=
  if useDefaultRange then
    b ← isSubset r default; Ok (if (b : bool) then acc else acc ++ [r])
  else Ok (acc ++ [r]).

(** The loop over the map: interleaved ranges wait in [intlv] for the rest of
    their stripes. *)
Fixpoint aggregate (default : AddrRange) (keys intlv acc : list AddrRange) : res (list AddrRange) :=
  match keys with
  | [] => if bool_decide (intlv = []) then Ok acc else
          merged ← range_merge intlv; keep_range default merged acc
  | r :: keys =>
      if interleaved r then
        match last intlv with
        | Some back =>
            if negb (mergesWith back r) then
              merged ← range_merge intlv;
              acc ← keep_range default merged acc;
              aggregate default keys [r] acc
            else aggregate default keys (intlv ++ [r]) acc
        | None => aggregate default keys [r] acc
        end
      else acc ← keep_range default r acc; aggregate default keys intlv acc
  end.

(** No range may overlap the default range partially. *)
Fixpoint check_default (default : AddrRange) (l : list AddrRange) : res unit :=
  match l with
  | [] => Ok tt
  | r :: l =>
      b ← AddrRange.intersects r default;
      if negb b then check_default default l else
      s ← isSubset r default;
      if (s : bool) then check_default default l
      else Err (EPanic "Range intersects the default range but is not a subset")
  end.

Definition aggregate_ranges : M Decoder unit :=
  d ← gets (λ d, d);
  (if useDefaultRange then
     got ← lift (vec_get (gotAddrRanges d) defaultPortID);
     when (negb got) (throw (EPanic "Crossbar uses default range, but none provided"))
   else mret tt) ;;
  l ← lift (aggregate (defaultRange d) (map AddrRangeMap.first (AddrRangeMap.tree (portMap d))) []
              (if useDefaultRange then [defaultRange d] else []));
  modify (set_ranges l) ;;
  (if useDefaultRange then lift (check_default (defaultRange d) l) else mret tt) ;;
  modify notify.

(** [ranges] is what [memSidePorts[mem_side_port_id]->getAddrRanges()] returns. *)
Definition recvRangeChange (mem_side_port_id : Z) (ranges : list AddrRange) : M Decoder unit :=
  d ← gets (λ d, d);
  got ← lift (vec_set (gotAddrRanges d) mem_side_port_id true);
  modify (set_got got (gotAllAddrRanges d || forallb (λ b, b) got)) ;;
  (if mem_side_port_id =? defaultPortID then
     when useDefaultRange
       match ranges with [r] => modify (set_default r) | _ => throw (EPanic "Crossbar may only have a single default range") end
   else
     d ← gets (λ d, d);
     erase_entries mem_side_port_id (AddrRangeMap.tree (portMap d)) ;;
     for_each ranges (insert_range mem_side_port_id)) ;;
  d ← gets (λ d, d);
  when (gotAllAddrRanges d) aggregate_ranges.

Definition getAddrRanges : M Decoder (list AddrRange) :=
  d ← gets (λ d, d);
  massert "gotAllAddrRanges" (gotAllAddrRanges d) ;;
  mret (xbarRanges d).
End decoder.
End XBarDecode.
