(* ===== verification/XBarDecodeProps.v ===== *)
(** * The crossbar finds the right port

    What the crossbar collects from the memory-side ports is described by the
    list of ranges each port has reported last.  [findPort] routes a packet to
    the port whose range holds it, and [getAddrRanges] reports exactly the
    addresses that can be routed. *)
From stdpp Require Import base tactics list numbers strings gmap sorting sets.
From Stdlib Require Import ZArith Lia.
From S2P Require Import Prelude AddrRange AddrRangeProps AddrRangeMap AddrRangeMapProps XBarDecode.
Import AddrRange XBarDecode.
Local Open Scope Z_scope.

(** Range [r] of port [p] is in the map. *)
Definition entry (d : Decoder) (r : AddrRange) (p : Z) : Prop :=
  ∃ n, n ∈ AddrRangeMap.tree (portMap d) ∧ AddrRangeMap.first n = r ∧ AddrRangeMap.second n = p.

Definition keys (d : Decoder) : list AddrRange := map AddrRangeMap.first (AddrRangeMap.tree (portMap d)).

(** [d'] is [d] but for the address map. *)
Definition map_only (d d' : Decoder) : Prop := d' = set_portMap (portMap d') d.

Lemma map_only_trans d1 d2 d3 : map_only d1 d2 → map_only d2 d3 → map_only d1 d3.
Proof. unfold map_only. intros -> H. rewrite H. done. Qed.

Lemma on_map_ok {A} (f : M (AddrRangeMap.Map Z) A) d a m :
  f (portMap d) = Ok (a, m) → on_map f d = Ok (a, set_portMap m d).
Proof. unfold on_map. by intros ->. Qed.

(** ** Updating the map *)

Lemma erase_entries_ok port l : ∀ d,
  map_ok (portMap d) → NoDup (map AddrRangeMap.id l) → (∀ n, n ∈ l → n ∈ AddrRangeMap.tree (portMap d)) →
  ∃ d', erase_entries port l d = Ok (tt, d') ∧ map_ok (portMap d') ∧ map_only d d' ∧
    ∀ n, n ∈ AddrRangeMap.tree (portMap d') ↔
         n ∈ AddrRangeMap.tree (portMap d) ∧ ¬ (n ∈ l ∧ AddrRangeMap.second n = port).
Proof.
  induction l as [|p l IH]; intros d Hm Hn Hl; cbn [erase_entries].
  { exists d. split; [done|]. split; [done|]. split; [by destruct d|]. set_solver. }
  apply NoDup_cons in Hn as [Hp Hn]. destruct (Z.eqb_spec (AddrRangeMap.second p) port) as [Heq|Hne].
  - destruct (erase_ok (portMap d) p Hm) as (m1 & Hr & Hm1 & Ht1); [apply Hl; set_solver|].
    assert (∀ n, n ∈ AddrRangeMap.tree m1 ↔ n ∈ AddrRangeMap.tree (portMap d) ∧ n ≠ p) as Hmem.
    { intros n. rewrite Ht1, list_elem_of_filter. split; [intros [Hne Hin]; split; [done|congruence]|].
      intros [Hin Hne]. split; [|done]. intros Hid. apply Hne.
      assert (p ∈ AddrRangeMap.tree (portMap d)) as Hpin by (apply Hl; set_solver).
      pose proof (node_of_ok _ _ (mo_ids _ Hm) Hin). pose proof (node_of_ok _ _ (mo_ids _ Hm) Hpin). congruence. }
    rewrite (M_bind_ok _ _ _ tt (set_portMap m1 d)) by (by apply on_map_ok).
    destruct (IH (set_portMap m1 d)) as (d' & -> & Hm' & Hmo & Ht'); [done|done| |].
    { intros n Hin. simpl. rewrite Hmem. split; [apply Hl; set_solver|]. intros ->. apply Hp, list_elem_of_fmap. eauto. }
    exists d'. split; [done|]. split; [done|]. split; [exact Hmo|]. intros n. rewrite Ht'. simpl. rewrite Hmem.
    set_solver.
  - change ((when false _ ;; erase_entries port l) d) with (erase_entries port l d) at 1.
    destruct (IH d) as (d' & -> & Hm' & Hmo & Ht'); [done|done|set_solver|].
    exists d'. split; [done|]. split; [done|]. split; [done|]. intros n. rewrite Ht'. set_solver.
Qed.

Definition shares_entry (d : Decoder) (r : AddrRange) : Prop := ∃ r' p a, entry d r' p ∧ in_range r a ∧ in_range r' a.

Lemma insert_range_ok port r d :
  map_ok (portMap d) → entry_ok r → (∀ r' p, entry d r' p → separable r r') →
  (shares_entry d r ∧ ∃ what, insert_range port r d = Err (EPanic what)) ∨
  (¬ shares_entry d r ∧ ∃ d', insert_range port r d = Ok (tt, d') ∧ map_ok (portMap d') ∧ map_only d d' ∧
     ∀ r' p, entry d' r' p ↔ entry d r' p ∨ (r' = r ∧ p = port)).
Proof.
  intros Hm Hr Hsep.
  assert (Forall (λ n, separable r (AddrRangeMap.first n)) (AddrRangeMap.tree (portMap d))) as Hs.
  { apply Forall_forall. intros n Hn. eapply Hsep. exists n. eauto. }
  destruct (insert_ok 3 (portMap d) r port Hm Hr Hs) as (o & m' & Hi & Hm' & Ho).
  unfold insert_range. rewrite (M_bind_ok _ _ _ _ _ (on_map_ok _ _ _ _ Hi)). destruct o as [it|].
  - right. destruct Ho as [Hno Hp]. split.
    { intros (r' & p & a & (n & Hn & <- & _) & H1 & H2). apply (Hno n Hn). by exists a. }
    eexists. split; [reflexivity|]. split; [done|]. split; [done|]. intros r' p. unfold entry. simpl. setoid_rewrite Hp.
    split.
    + intros (n & [->|Hn]%elem_of_cons & <- & <-); [by right|left; eauto].
    + intros [(n & Hn & <- & <-)|[-> ->]]; eexists; (split; [apply elem_of_cons; (by right) || by left|done]).
  - left. destruct Ho as [(n & Hn & a & H1 & H2) Ht]. split; [exists (AddrRangeMap.first n), (AddrRangeMap.second n), a; split; [by exists n|done]|].
    assert (Forall (λ n, separable r (AddrRangeMap.first n)) (AddrRangeMap.tree m')) as Hs' by (by rewrite Ht).
    destruct (find_ok 3 r (AddrRange.intersects r) (shares r) m') as (o & m2 & Hf & Hm2 & Ht2 & _ & Ho); [done| | |].
    { by apply intersects_decides. }
    { by apply located_conflict. }
    fold (AddrRangeMap.intersects (V := Z) 3 r) in Hf.
    rewrite (M_bind_ok _ _ _ o (set_portMap m2 (set_portMap m' d))) by (by apply on_map_ok).
    destruct o as [it|]; [|exfalso; apply (Ho n); [by rewrite Ht|by exists a]].
    destruct Ho as (n' & Hn' & <- & _). eexists.
    assert (AddrRangeMap.second_of (AddrRangeMap.id n') m2 = Ok (AddrRangeMap.second n', m2)) as Hsec
      by (apply second_of_ok; [done|by rewrite Ht2]).
    by rewrite (M_bind_ok _ _ _ _ _ (on_map_ok _ (set_portMap m2 _) _ m2 Hsec)).
Qed.

Lemma insert_all_ok port ranges : ∀ d u d',
  map_ok (portMap d) → Forall entry_ok ranges →
  (∀ r r' p, r ∈ ranges → entry d r' p → separable r r') → (∀ r r', r ∈ ranges → r' ∈ ranges → separable r r') →
  for_each ranges (insert_range port) d = Ok (u, d') →
  map_ok (portMap d') ∧ map_only d d' ∧ ∀ r p, entry d' r p ↔ entry d r p ∨ (r ∈ ranges ∧ p = port).
Proof.
  induction ranges as [|r ranges IH]; intros d u d' Hm He Hd Hs Hr; cbn [for_each] in Hr.
  { injection Hr as _ <-. split; [done|]. split; [by destruct d|]. set_solver. }
  apply Forall_cons in He as [Her He].
  destruct (insert_range_ok port r d Hm Her) as [(_ & what & Hp)|(_ & d1 & Hok & Hm1 & Hmo1 & He1)]; [by intros; eapply Hd; [set_solver|]| |].
  { by rewrite (M_bind_err _ _ _ _ Hp) in Hr. }
  rewrite (M_bind_ok _ _ _ _ _ Hok) in Hr. destruct (IH d1 u d') as (Hm' & Hmo & He'); [done|done| | |done|].
  { intros x x' p Hx [Hx'|[-> _]]%He1; [eapply Hd; [set_solver|done]|apply Hs; set_solver]. }
  { intros x x' Hx Hx'. apply Hs; set_solver. }
  split; [done|]. split; [by eapply map_only_trans|]. intros r' p. rewrite He', He1. set_solver.
Qed.

(** ** The aggregated ranges *)

Section decoder.
Context (defaultPortID : Z) (useDefaultRange : bool).

Definition in_default (default : AddrRange) (a : Z) : Prop := useDefaultRange = true ∧ in_range default a.

Lemma keep_range_ok default r acc l :
  (useDefaultRange = true → entry_ok default) → wf_range r → (∃ a, in_range r a) →
  keep_range useDefaultRange default r acc = Ok l →
  acc ⊆ l ∧ ∀ a, covers l a ∨ in_default default a ↔ covers acc a ∨ in_range r a ∨ in_default default a.
Proof.
  intros Hd Hw [x Hx] Hk. unfold keep_range, in_default in *.
  assert (∀ a, covers (acc ++ [r]) a ↔ covers acc a ∨ in_range r a) as Hcov.
  { intros a. rewrite covers_app. unfold covers. set_solver. }
  destruct useDefaultRange.
  2:{ injection Hk as <-. split; [set_solver|]. intros a. rewrite Hcov. tauto. }
  destruct (Hd eq_refl) as [Hdw Hdl _]. destruct (interleaved r) eqn:Ir.
  { unfold isSubset in Hk. by rewrite Ir in Hk. }
  apply interleaved_nil in Ir. pose proof Hx as Hx'. apply in_range_plain in Hx'; [|done].
  destruct (isSubset_ok r default) as (b & Hb & Hsub); [done|done|done|lia|done|]. rewrite Hb in Hk.
  cbn [mbind res_bind] in Hk. injection Hk as <-. destruct b.
  - split; [done|]. destruct (proj1 Hsub eq_refl) as [Hin _]. intros a. specialize (Hin a). tauto.
  - split; [set_solver|]. intros a. rewrite Hcov. tauto.
Qed.

Lemma merged_ok intlv merged :
  Forall entry_ok intlv → intlv ≠ [] → range_merge intlv = Ok merged →
  wf_range merged ∧ (∃ a, in_range merged a) ∧ ∀ a, in_range merged a ↔ covers intlv a.
Proof.
  intros He Hne Hm. destruct (range_merge_ok intlv merged) as [Hw Hc]; [|done..|].
  { eapply Forall_impl; [exact He|]. by intros r []. }
  split; [done|]. split; [|done]. destruct intlv as [|r intlv]; [done|]. apply Forall_cons in He as [[_ _ [a Ha]] _].
  exists a. apply Hc. exists r. split; [set_solver|done].
Qed.

Lemma aggregate_ok default ks : (useDefaultRange = true → entry_ok default) → ∀ intlv acc l,
  Forall entry_ok ks → Forall entry_ok intlv →
  aggregate useDefaultRange default ks intlv acc = Ok l →
  acc ⊆ l ∧ ∀ a, covers l a ∨ in_default default a ↔
    covers acc a ∨ covers ks a ∨ covers intlv a ∨ in_default default a.
Proof.
  intros Hd. assert (∀ a, covers [] a ↔ False) as Hnil by (unfold covers; set_solver).
  assert (∀ r ks a, covers (r :: ks) a ↔ in_range r a ∨ covers ks a) as Hcons by (unfold covers; set_solver).
  induction ks as [|r ks IH]; intros intlv acc l Hk Hi Ha; cbn [aggregate] in Ha.
  { case_bool_decide as Hin.
    - injection Ha as <-. split; [done|]. intros a. rewrite Hin, Hnil. tauto.
    - destruct (range_merge intlv) as [mg|] eqn:Hmg; [|done]. cbn [mbind res_bind] in Ha.
      destruct (merged_ok intlv mg Hi Hin Hmg) as (Hw & Hne & Hc).
      destruct (keep_range_ok default mg acc l Hd Hw Hne Ha) as [Hsub Hcov]. split; [done|].
      intros a. rewrite Hcov, Hc, Hnil. tauto. }
  apply Forall_cons in Hk as [Hr Hk]. destruct (interleaved r).
  2:{ destruct (keep_range useDefaultRange default r acc) as [acc1|] eqn:Hkr; [|done]. cbn [mbind res_bind] in Ha.
      destruct (keep_range_ok default r acc acc1 Hd) as [Hs1 Hc1]; [apply Hr|apply Hr|done|].
      destruct (IH intlv acc1 l) as [Hs2 Hc2]; [done..|]. split; [set_solver|]. intros a. rewrite Hc2, Hcons.
      specialize (Hc1 a). tauto. }
  destruct (last intlv) as [back|] eqn:Hlast.
  2:{ apply last_None in Hlast as ->. destruct (IH [r] acc l) as [Hs2 Hc2]; [done|by apply Forall_singleton|done|].
      split; [done|]. intros a. rewrite Hc2, !Hcons, Hnil. tauto. }
  assert (intlv ≠ []) as Hne by (by intros ->).
  destruct (mergesWith back r); cbn [negb] in Ha.
  - destruct (IH (intlv ++ [r]) acc l) as [Hs2 Hc2]; [done| |done|].
    { apply Forall_app. split; [done|by apply Forall_singleton]. }
    split; [done|]. intros a. rewrite Hc2, covers_app, !Hcons, Hnil. tauto.
  - destruct (range_merge intlv) as [mg|] eqn:Hmg; [|done]. cbn [mbind res_bind] in Ha.
    destruct (keep_range useDefaultRange default mg acc) as [acc1|] eqn:Hkr; [|done]. cbn [mbind res_bind] in Ha.
    destruct (merged_ok intlv mg Hi Hne Hmg) as (Hw & Hnon & Hc).
    destruct (keep_range_ok default mg acc acc1 Hd Hw Hnon Hkr) as [Hs1 Hc1].
    destruct (IH [r] acc1 l) as [Hs2 Hc2]; [done|by apply Forall_singleton|done|].
    split; [set_solver|]. intros a. rewrite Hc2, !Hcons, Hnil. specialize (Hc1 a). rewrite Hc in Hc1. tauto.
Qed.

(** [d'] is [d] with new aggregated ranges. *)
Definition reported (d d' : Decoder) : Prop :=
  d' = mkDecoder (portMap d) (gotAddrRanges d) (gotAllAddrRanges d) (defaultRange d) (xbarRanges d') (rangeChanges d + 1).

Lemma aggregate_ranges_ok d u d' :
  map_ok (portMap d) → (useDefaultRange = true → entry_ok (defaultRange d)) →
  aggregate_ranges defaultPortID useDefaultRange d = Ok (u, d') →
  reported d d' ∧ (useDefaultRange = true → vec_get (gotAddrRanges d) defaultPortID = Ok true) ∧
  ∀ a, covers (xbarRanges d') a ↔ covers (keys d) a ∨ in_default (defaultRange d) a.
Proof.
  intros Hm Hd Hr. unfold aggregate_ranges in Hr. step_M Hr. apply M_bind_inv in Hr as (u1 & d1 & Hg & Hr).
  assert (d1 = d ∧ (useDefaultRange = true → vec_get (gotAddrRanges d) defaultPortID = Ok true)) as [-> Hgot].
  { destruct useDefaultRange; [|by injection Hg as _ <-].
    destruct (vec_get (gotAddrRanges d) defaultPortID) as [[]|]; [|done..]. by injection Hg as _ <-. }
  apply M_bind_inv in Hr as (l & d1 & Hl & Hr).
  assert (d1 = d ∧ aggregate useDefaultRange (defaultRange d) (keys d) [] (if useDefaultRange then [defaultRange d] else []) = Ok l)
    as [-> Hagg].
  { unfold lift in Hl. destruct (aggregate _ _ _ _ _) as [l'|] eqn:E; [|done]. injection Hl as <- <-. done. }
  step_M Hr. apply M_bind_inv in Hr as (u2 & d2 & Hc & Hr).
  assert (d2 = set_ranges l d) as ->.
  { destruct useDefaultRange; [|by injection Hc as _ <-]. unfold lift in Hc. destruct (check_default _ _); [|done].
    by injection Hc as _ <-. }
  injection Hr as _ <-. split; [done|]. split; [done|]. simpl.
  assert (Forall entry_ok (keys d)) as Hk by (apply Forall_map; apply Hm).
  destruct (aggregate_ok _ (keys d) Hd [] _ l Hk ltac:(constructor) Hagg) as [Hsub Hcov].
  assert (∀ a, in_default (defaultRange d) a → covers l a) as Hdef.
  { intros a [Hu Ha]. exists (defaultRange d). split; [|done]. apply Hsub. rewrite Hu. set_solver. }
  assert (∀ a, covers (if useDefaultRange then [defaultRange d] else []) a → in_default (defaultRange d) a) as Hini.
  { intros a. unfold in_default, covers. destruct useDefaultRange; set_solver. }
  intros a. specialize (Hcov a). specialize (Hdef a). specialize (Hini a).
  assert (¬ covers [] a) by (unfold covers; set_solver). tauto.
Qed.

(** ** Collecting the ranges *)

(** The last report of every port is [R]; ranges of different ports, and of one
    report, can be told apart.  Lookups happen at any time. *)
Inductive collected (n : nat) : gmap Z (list AddrRange) → Decoder → Prop :=
  | collected_new : collected n ∅ (new n)
  | collected_change R d p ranges u d' :
      collected n R d → Forall entry_ok ranges →
      (∀ r r', r ∈ ranges → r' ∈ ranges → separable r r') →
      (∀ r r' p' l, r ∈ ranges → p' ≠ p → R !! p' = Some l → r' ∈ l → separable r r') →
      recvRangeChange defaultPortID useDefaultRange p ranges d = Ok (u, d') →
      collected n (<[p := ranges]> R) d'
  | collected_lookup R d q p d' :
      collected n R d → query q → findPort defaultPortID useDefaultRange q d = Ok (p, d') → collected n R d'.

(** Range [r] is reported by port [p] and is routed by the map. *)
Definition in_map (R : gmap Z (list AddrRange)) (r : AddrRange) (p : Z) : Prop :=
  p ≠ defaultPortID ∧ ∃ l, R !! p = Some l ∧ r ∈ l.

Record decoder_inv (n : nat) (R : gmap Z (list AddrRange)) (d : Decoder) : Prop := {
  di_map : map_ok (portMap d);
  di_entries : ∀ r p, entry d r p ↔ in_map R r p;
  di_reports : ∀ p l, R !! p = Some l → Forall entry_ok l;
  di_default : useDefaultRange = true → ∀ l, R !! defaultPortID = Some l → l = [defaultRange d];
  di_length : length (gotAddrRanges d) = n;
  di_got : ∀ i b, gotAddrRanges d !! i = Some b → (b = true ↔ is_Some (R !! Z.of_nat i));
  di_ports : ∀ p, is_Some (R !! p) → 0 ≤ p < Z.of_nat n;
  di_all : (0 < n)%nat → Forall (λ b, b = true) (gotAddrRanges d) → gotAllAddrRanges d = true;
  di_ranges : gotAllAddrRanges d = true →
    ∀ a, covers (xbarRanges d) a ↔ (∃ r p, in_map R r p ∧ in_range r a) ∨ in_default (defaultRange d) a;
  di_use : gotAllAddrRanges d = true → useDefaultRange = true → is_Some (R !! defaultPortID);
}.

Lemma inv_new n : decoder_inv n ∅ (new n).
Proof.
  split; try done.
  - by repeat constructor.
  - intros r p. unfold entry, in_map. simpl. split; [intros (? & ? & _); set_solver|intros (_ & l & ? & _); set_solver].
  - simpl. apply length_replicate.
  - intros i b Hi. apply lookup_replicate in Hi as [-> _]. rewrite lookup_empty. split; [done|]. by intros [? ?].
  - intros p. rewrite lookup_empty. by intros [? ?].
  - intros Hn Hf. exfalso. destruct n as [|n]; [lia|]. simpl in Hf. by apply Forall_cons in Hf as [? _].
Qed.

(** The port that reports is marked, and its entries are replaced. *)
Lemma vec_set_inv {A} (v : list A) i x v' :
  vec_set v i x = Ok v' → 0 ≤ i < Z.of_nat (length v) ∧ v' = <[Z.to_nat i := x]> v.
Proof.
  unfold vec_set. destruct (Z.leb_spec 0 i), (Z.ltb_spec i (Z.of_nat (length v))); cbn [andb]; try done.
  intros [= <-]. done.
Qed.

(** The report of a port, up to the aggregation. *)
Lemma report_ok R d p ranges u d' :
  map_ok (portMap d) → (∀ r p, entry d r p ↔ in_map R r p) →
  (useDefaultRange = true → ∀ l, R !! defaultPortID = Some l → l = [defaultRange d]) →
  Forall entry_ok ranges →
  (∀ r r', r ∈ ranges → r' ∈ ranges → separable r r') →
  (∀ r r' p' l, r ∈ ranges → p' ≠ p → R !! p' = Some l → r' ∈ l → separable r r') →
  (if p =? defaultPortID then
     when useDefaultRange
       match ranges with [r] => modify (set_default r) | _ => throw (EPanic "Crossbar may only have a single default range") end
   else
     d ← gets (λ d, d);
     erase_entries p (AddrRangeMap.tree (portMap d)) ;;
     for_each ranges (insert_range p)) d = Ok (u, d') →
  map_ok (portMap d') ∧ (∀ r p', entry d' r p' ↔ in_map (<[p := ranges]> R) r p') ∧
  (useDefaultRange = true → ∀ l, <[p := ranges]> R !! defaultPortID = Some l → l = [defaultRange d']) ∧
  gotAddrRanges d' = gotAddrRanges d ∧ gotAllAddrRanges d' = gotAllAddrRanges d.
Proof.
  intros Hm He Hdef Hok Hs1 Hs2 Hr. destruct (Z.eqb_spec p defaultPortID) as [->|Hp].
  - assert (∀ r p', in_map R r p' ↔ in_map (<[defaultPortID := ranges]> R) r p') as Hin.
    { intros r p'. unfold in_map. split; intros [Hne (l & Hl & Hrl)]; (split; [done|]); exists l; (split; [|done]);
        [by rewrite lookup_insert_ne|by rewrite lookup_insert_ne in Hl]. }
    setoid_rewrite <-Hin. setoid_rewrite lookup_insert_eq.
    destruct useDefaultRange; [|injection Hr as _ <-; do 4 (split; [done|]); done].
    destruct ranges as [|r [|]]; try done. injection Hr as _ <-. split_and!; try done. by intros _ l [= <-].
  - rewrite (M_bind_ok _ _ _ d d eq_refl) in Hr.
    destruct (erase_entries_ok p (AddrRangeMap.tree (portMap d)) d Hm (mo_ids _ Hm) (λ _ Hn, Hn)) as (d1 & Hr1 & Hm1 & Hmo1 & Ht1).
    assert (∀ r p', entry d1 r p' ↔ entry d r p' ∧ p' ≠ p) as He1.
    { intros r p'. unfold entry. split.
      - intros (x & Hx & <- & <-). apply Ht1 in Hx as [Hx Hne]. split; [by exists x|]. intros E. by apply Hne.
      - intros [(x & Hx & <- & <-) Hne]. exists x. split; [|done]. apply Ht1. split; [done|]. by intros [_ ?]. }
    rewrite (M_bind_ok _ _ _ _ _ Hr1) in Hr.
    destruct (insert_all_ok p ranges d1 u d' Hm1 Hok) as (Hm' & Hmo & He'); [|done|done|].
    { intros r r' p' Hr0 [[Hne (l & Hl & Hr')]%He Hpp]%He1. by eapply Hs2. }
    pose proof (map_only_trans _ _ _ Hmo1 Hmo) as Hall. split_and!; [done| | |by rewrite Hall..].
    + intros r p'. rewrite He', He1, He. unfold in_map. destruct (decide (p' = p)) as [->|Hne].
      * rewrite lookup_insert_eq. split; [intros [[_ ?]|[? _]]; [done|eauto]|]. intros (_ & l & [= <-] & ?). by right.
      * rewrite lookup_insert_ne by done. naive_solver.
    + intros Hu l Hl. rewrite lookup_insert_ne in Hl by done. rewrite Hall. simpl. by apply Hdef.
Qed.

Lemma in_keys d r : r ∈ keys d ↔ ∃ p, entry d r p.
Proof.
  unfold keys, entry. rewrite list_elem_of_fmap. split; [intros (x & -> & Hx); eauto|].
  intros (p & x & Hx & <- & _). eauto.
Qed.

Lemma recvRangeChange_inv n R d p ranges u d' :
  decoder_inv n R d → Forall entry_ok ranges →
  (∀ r r', r ∈ ranges → r' ∈ ranges → separable r r') →
  (∀ r r' p' l, r ∈ ranges → p' ≠ p → R !! p' = Some l → r' ∈ l → separable r r') →
  recvRangeChange defaultPortID useDefaultRange p ranges d = Ok (u, d') →
  decoder_inv n (<[p := ranges]> R) d'.
Proof.
  intros [Hm He Hrep Hdef Hlen Hgot Hports Hall Hran Huse] Hok Hs1 Hs2 Hr. unfold recvRangeChange in Hr. step_M Hr.
  destruct (vec_set (gotAddrRanges d) p true) as [got|] eqn:Hvs; [|done].
  apply vec_set_inv in Hvs as [Hpb ->]. set (got := <[Z.to_nat p := true]> (gotAddrRanges d)) in *.
  rewrite (M_bind_ok _ _ _ got d eq_refl) in Hr. step_M Hr. set (d0 := set_got got _ d) in Hr.
  apply M_bind_inv in Hr as (u1 & d1 & Hr1 & Hr).
  destruct (report_ok R d0 p ranges u1 d1 Hm He Hdef Hok Hs1 Hs2 Hr1) as (Hm1 & He1 & Hdef1 & Hg1 & Ha1).
  rewrite (M_bind_ok _ _ _ d1 d1 eq_refl) in Hr.
  assert (∀ p' l, <[p := ranges]> R !! p' = Some l → Forall entry_ok l) as Hrep1.
  { intros p' l [[_ <-]|[_ Hl]]%lookup_insert_Some; [done|by eapply Hrep]. }
  assert (length got = n) as Hlen1 by (unfold got; by rewrite length_insert).
  assert (∀ i b, got !! i = Some b → (b = true ↔ is_Some (<[p := ranges]> R !! Z.of_nat i))) as Hgot1.
  { intros i b Hi. destruct (decide (Z.of_nat i = p)) as [<-|Hne].
    - rewrite lookup_insert_eq. unfold got in Hi. rewrite Nat2Z.id, list_lookup_insert_eq in Hi by lia. by injection Hi as <-.
    - rewrite lookup_insert_ne by done. apply Hgot. unfold got in Hi. by rewrite list_lookup_insert_ne in Hi by lia. }
  assert (∀ p', is_Some (<[p := ranges]> R !! p') → 0 ≤ p' < Z.of_nat n) as Hports1.
  { intros p' [<-|[_ Hp']]%lookup_insert_is_Some; [lia|by apply Hports]. }
  assert (Forall (λ b, b = true) got → gotAllAddrRanges d1 = true) as Hall1.
  { intros Hf. rewrite Ha1. simpl. apply orb_true_iff. right. apply forallb_forall. rewrite Forall_forall in Hf.
    intros b Hb. by apply Hf, list_elem_of_In. }
  destruct (gotAllAddrRanges d1) eqn:Hd1; cbn [when] in Hr.
  2:{ injection Hr as _ <-. split; rewrite ?Hg1, ?Hd1; done. }
  assert (useDefaultRange = true → vec_get (gotAddrRanges d1) defaultPortID = Ok true → is_Some (<[p := ranges]> R !! defaultPortID)) as Huse1.
  { intros _ Hv. unfold vec_get in Hv. rewrite Hg1 in Hv. simpl in Hv. destruct (Z.ltb_spec defaultPortID 0); [done|].
    destruct (got !! Z.to_nat defaultPortID) as [b|] eqn:Hb; [|done]. injection Hv as ->.
    apply Hgot1 in Hb. rewrite Z2Nat.id in Hb by done. by apply Hb. }
  assert (useDefaultRange = true → is_Some (<[p := ranges]> R !! defaultPortID) → entry_ok (defaultRange d1)) as Hde.
  { intros Hu [l Hl]. rewrite (Hdef1 Hu l Hl) in Hl. exact (proj1 (Forall_singleton _ _) (Hrep1 _ _ Hl)). }
  destruct (aggregate_ranges_ok d1 u d' Hm1) as (Hrd & Hv & Hcov); [|done|].
  { intros Hu. apply Hde; [done|]. apply Huse1; [done|]. revert Hr. unfold aggregate_ranges. rewrite Hu. intros Hr.
    step_M Hr. destruct (vec_get (gotAddrRanges d1) defaultPortID) as [[]|]; done. }
  assert (portMap d' = portMap d1 ∧ gotAddrRanges d' = got ∧ defaultRange d' = defaultRange d1) as (E1 & E2 & E3)
    by (unfold reported in Hrd; rewrite Hrd; done).
  split; rewrite ?E1, ?E2, ?E3; try done.
  - intros r p'. rewrite <-He1. unfold entry. by rewrite E1.
  - intros _ _. unfold reported in Hrd. by rewrite Hrd.
  - intros _ a. rewrite Hcov. apply or_iff_compat_r. unfold covers. setoid_rewrite in_keys. setoid_rewrite He1. naive_solver.
  - intros _ Hu. apply Huse1; [done|]. by apply Hv.
Qed.

Lemma findPort_ok n R d q :
  decoder_inv n R d → gotAllAddrRanges d = true → query q →
  (∃ r p, in_map R r p ∧ holds_range q r ∧
     ∃ d', findPort defaultPortID useDefaultRange q d = Ok (p, d') ∧ map_only d d' ∧ decoder_inv n R d') ∨
  ((∀ r p, in_map R r p → ¬ holds_range q r) ∧
   ((∃ what, findPort defaultPortID useDefaultRange q d = Err (EPanic what)) ∨
    ∃ d', findPort defaultPortID useDefaultRange q d = Ok (defaultPortID, d') ∧ map_only d d' ∧ decoder_inv n R d') ∧
   ((if useDefaultRange then holds_range q (defaultRange d) else defaultPortID ≠ InvalidPortID) ↔
    ∃ d', findPort defaultPortID useDefaultRange q d = Ok (defaultPortID, d'))).
Proof.
  intros Hinv Hall Hq. pose proof Hinv as [Hm He Hrep Hdef Hlen Hgot Hports Ha Hran Huse].
  destruct (map_contains_ok 3 (portMap d) q Hm Hq) as (o & m' & Hc & Hm' & Ht & _ & Ho).
  set (d1 := set_portMap m' d).
  assert (decoder_inv n R d1) as Hinv1.
  { split; try done. intros r p. rewrite <-He. unfold entry. simpl. by rewrite Ht. }
  assert (findPort defaultPortID useDefaultRange q d =
    (match o with
     | Some it => on_map (AddrRangeMap.second_of it)
     | None =>
         if useDefaultRange then
           b ← lift (isSubset q (defaultRange d));
           if (b : bool) then mret defaultPortID else throw (EPanic "Unable to find destination")
         else if negb (defaultPortID =? InvalidPortID) then mret defaultPortID
         else throw (EPanic "Unable to find destination")
     end) d1) as ->.
  { unfold findPort. exec_M ltac:(exact Hall). by rewrite (M_bind_ok _ _ _ _ _ (on_map_ok _ _ _ _ Hc)). }
  destruct o as [it|].
  - left. destruct Ho as (x & Hx & <- & Hh). exists (AddrRangeMap.first x), (AddrRangeMap.second x).
    split; [apply He; by exists x|]. split; [done|]. exists d1. split; [|done].
    apply (on_map_ok _ d1). apply second_of_ok; [done|by rewrite Ht].
  - right. assert (∀ r p, in_map R r p → ¬ holds_range q r) as Hno.
    { intros r p (x & Hx & <- & _)%He. by apply Ho. }
    split; [done|]. destruct useDefaultRange.
    + destruct (Huse Hall eq_refl) as [l Hl]. rewrite (Hdef eq_refl l Hl) in Hl.
      pose proof (proj1 (Forall_singleton _ _) (Hrep _ _ Hl)) as Hde.
      destruct Hq as (Hq1 & Hq2 & Hq3). destruct Hde as [Hw Hlow _].
      destruct (isSubset_ok q (defaultRange d)) as (b & Hb & Hsub); [done..|].
      rewrite (M_bind_ok _ _ _ b d1) by (by apply lift_ok). destruct b.
      * split; [right; by exists d1|]. split; [intros _; by exists d1|]. intros _. by apply Hsub.
      * split; [left; by eexists|]. split; [by intros Hh%Hsub|]. by intros [? ?].
    + destruct (Z.eqb_spec defaultPortID InvalidPortID) as [E|Hne]; cbn [negb].
      * split; [left; by eexists|]. split; [done|]. by intros [? ?].
      * split; [right; by exists d1|]. split; [intros _; by exists d1|done].
Qed.

Lemma findPort_asserts q d r : findPort defaultPortID useDefaultRange q d = Ok r → gotAllAddrRanges d = true.
Proof. unfold findPort. intros H. step_M H. by destruct (gotAllAddrRanges d). Qed.

Lemma collected_inv n R d : collected n R d → decoder_inv n R d.
Proof.
  induction 1 as [|R d p ranges u d' _ IH Hok Hs1 Hs2 Hr|R d q p d' _ IH Hq Hf].
  - apply inv_new.
  - by eapply recvRangeChange_inv.
  - destruct (findPort_ok n R d q IH (findPort_asserts _ _ _ Hf) Hq) as
      [(r & p' & _ & _ & d1 & Hf' & _ & Hi)|(_ & [[what Hf']|(d1 & Hf' & _ & Hi)] & _)]; congruence.
Qed.

(** All [n] ports have reported. *)
Definition complete (n : nat) (R : gmap Z (list AddrRange)) : Prop :=
  (0 < n)%nat ∧ ∀ i, 0 ≤ i < Z.of_nat n → is_Some (R !! i).

Lemma complete_all n R d : decoder_inv n R d → complete n R → gotAllAddrRanges d = true.
Proof.
  intros [_ _ _ _ Hlen Hgot _ Hall _ _] [Hn Hc]. apply Hall; [done|]. apply Forall_forall. intros b [i Hi]%list_elem_of_lookup_1.
  apply (Hgot i b Hi), Hc. apply lookup_lt_Some in Hi. lia.
Qed.

(** At most one reported range holds a packet. *)
Lemma in_map_unique n R d q r p r' p' :
  decoder_inv n R d → query q → in_map R r p → in_map R r' p' → holds_range q r → holds_range q r' → p = p'.
Proof.
  intros [Hm He _ _ _ _ _ _ _ _] Hq (x & Hx & <- & <-)%He (x' & Hx' & <- & <-)%He Hh Hh'.
  by rewrite (holds_unique (portMap d) q x x').
Qed.
End decoder.

(** A packet no port holds goes to the default port. *)
Definition to_default (default : Z) (use : bool) (R : gmap Z (list AddrRange)) (q : AddrRange) : Prop :=
  if use then ∃ r, R !! default = Some [r] ∧ holds_range q r else default ≠ InvalidPortID.

Lemma default_range default use n R d :
  decoder_inv default use n R d → gotAllAddrRanges d = true → use = true → R !! default = Some [defaultRange d].
Proof.
  intros [_ _ _ Hdef _ _ _ _ _ Huse] Hall Hu. destruct (Huse Hall Hu) as [l Hl]. by rewrite <-(Hdef Hu l Hl).
Qed.

(** C11. The crossbar routes by the reported ranges.  Once every memory-side port
    has reported its ranges, in any order and with reports replacing earlier
    ones, [findPort] sends a packet to the port whose range holds it, of which
    there is at most one; a packet no port holds goes to the default port, when
    the default range holds it or the default port takes everything, and is a
    fatal error otherwise. *)
Theorem crossbar_routes default use n R d q :
  collected default use n R d → complete n R → query q →
  (∀ r p, in_map default R r p → holds_range q r → ∃ d', findPort default use q d = Ok (p, d')) ∧
  ((∀ r p, in_map default R r p → ¬ holds_range q r) →
   (to_default default use R q → ∃ d', findPort default use q d = Ok (default, d')) ∧
   (¬ to_default default use R q → ∃ what, findPort default use q d = Err (EPanic what))).
Proof.
  intros Hc Hn Hq. pose proof (collected_inv _ _ _ _ _ Hc) as Hi. pose proof (complete_all _ _ _ _ _ Hi Hn) as Hall.
  assert (to_default default use R q ↔ if use then holds_range q (defaultRange d) else default ≠ InvalidPortID) as ->.
  { unfold to_default. pose proof (default_range _ _ _ _ _ Hi Hall) as Hd. destruct use; [|done]. rewrite Hd by done. naive_solver. }
  destruct (findPort_ok default use n R d q Hi Hall Hq) as [(r & p & Hin & Hh & d' & Hf & _)|(Hno & Hor & Hiff)]; split.
  - intros r' p' Hin' Hh'. exists d'. by rewrite (in_map_unique default use n R d q r' p' r p).
  - intros Hno. by destruct (Hno r p Hin).
  - intros r p Hin Hh. by destruct (Hno r p Hin).
  - intros _. split; [by intros; apply Hiff|]. intros Hn'. destruct Hor as [?|(d' & Hf & _)]; [done|].
    destruct Hn'. apply Hiff. by exists d'.
Qed.

(** The crossbar reports exactly what it can route: once every port has
    reported, [getAddrRanges] returns ranges that together have the addresses of
    the ports' ranges and of the default range, if it is used, although stripes
    are merged and ranges inside the default range are left out. *)
Theorem crossbar_reports_ranges default use n R d :
  collected default use n R d → complete n R →
  ∃ l, getAddrRanges d = Ok (l, d) ∧
    ∀ a, covers l a ↔ (∃ r p, in_map default R r p ∧ in_range r a) ∨
                      (use = true ∧ ∃ r, R !! default = Some [r] ∧ in_range r a).
Proof.
  intros Hc Hn. pose proof (collected_inv _ _ _ _ _ Hc) as Hi. pose proof (complete_all _ _ _ _ _ Hi Hn) as Hall.
  exists (xbarRanges d). split; [unfold getAddrRanges; exec_M ltac:(exact Hall); done|].
  intros a. rewrite (di_ranges _ _ _ _ _ Hi Hall). apply or_iff_compat_l. unfold in_default.
  pose proof (default_range _ _ _ _ _ Hi Hall) as Hd. split; [naive_solver|]. intros [Hu (r & Hr & Ha)].
  rewrite (Hd Hu) in Hr. by injection Hr as <-.
Qed.

(** ** An example *)

Definition run_decoder {A} (f : M Decoder A) (d : Decoder) : Decoder := match f d with Ok (_, d') => d' | Err _ => d end.

(** Two memory channels and a device; no default port. *)
Definition decoder_0 : Decoder := run_decoder (recvRangeChange (-1) false 0 [stripe 0]) (new 3).
Definition decoder_1 : Decoder := run_decoder (recvRangeChange (-1) false 2 [range 8192 8200]) decoder_0.
Definition decoder_2 : Decoder := run_decoder (recvRangeChange (-1) false 1 [stripe 1]) decoder_1.
Definition example_reports : gmap Z (list AddrRange) :=
  <[1 := [stripe 1]]> (<[2 := [range 8192 8200]]> (<[0 := [stripe 0]]> ∅)).

Lemma example_collected : collected (-1) false 3 example_reports decoder_2.
Proof.
  assert (∀ k k', separable (stripe k) (stripe k')) as Hss by (intros k k'; right; right; right; done).
  apply (collected_change _ _ _ _ decoder_1 1 [stripe 1] tt); [|apply Forall_singleton, entry_stripe; by right| | |vm_compute; reflexivity].
  - apply (collected_change _ _ _ _ decoder_0 2 [range 8192 8200] tt); [|apply Forall_singleton, entry_device| | |vm_compute; reflexivity].
    + apply (collected_change _ _ _ _ (new 3) 0 [stripe 0] tt); [constructor|apply Forall_singleton, entry_stripe; by left| |set_solver|vm_compute; reflexivity].
      intros r r' ->%list_elem_of_singleton ->%list_elem_of_singleton. apply Hss.
    + intros r r' ->%list_elem_of_singleton ->%list_elem_of_singleton. right. right. left. done.
    + intros r r' p' l ->%list_elem_of_singleton Hp Hl Hr'.
      apply lookup_insert_Some in Hl as [[_ <-]|[_ Hl]]; [|set_solver]. apply list_elem_of_singleton in Hr' as ->. by left.
  - intros r r' ->%list_elem_of_singleton ->%list_elem_of_singleton. apply Hss.
  - intros r r' p' l ->%list_elem_of_singleton Hp Hl Hr'.
    apply lookup_insert_Some in Hl as [[_ <-]|[_ Hl]].
    { apply list_elem_of_singleton in Hr' as ->. right. by left. }
    apply lookup_insert_Some in Hl as [[_ <-]|[_ Hl]]; [|set_solver]. apply list_elem_of_singleton in Hr' as ->. apply Hss.
Qed.

Lemma example_complete : complete 3 example_reports.
Proof.
  split; [lia|]. intros i Hi. assert (i = 0 ∨ i = 1 ∨ i = 2) as [->|[->| ->]] by lia; by eexists.
Qed.

Lemma crossbar_routes_witness :
  (∃ d', findPort (-1) false (range 64 80) decoder_2 = Ok (1, d')) ∧
  (∀ r p, in_map (-1) example_reports r p → holds_range (range 64 80) r →
     ∃ d', findPort (-1) false (range 64 80) decoder_2 = Ok (p, d')).
Proof.
  split; [eexists; vm_compute; reflexivity|].
  refine (proj1 (crossbar_routes (-1) false 3 example_reports decoder_2 (range 64 80) example_collected example_complete _)).
  split; [split; simpl; [lia|lia|by split]|]. split; [done|simpl; lia].
Defined.

Lemma crossbar_reports_ranges_witness :
  xbarRanges decoder_2 = [range 8192 8200; range 0 4096] ∧
  ∃ l, getAddrRanges decoder_2 = Ok (l, decoder_2) ∧
    ∀ a, covers l a ↔ (∃ r p, in_map (-1) example_reports r p ∧ in_range r a) ∨
                      (false = true ∧ ∃ r, example_reports !! (-1) = Some [r] ∧ in_range r a).
Proof.
  split; [vm_compute; reflexivity|].
  exact (crossbar_reports_ranges (-1) false 3 example_reports decoder_2 example_collected example_complete).
Defined.
