(* ===== verification/CoherentXBar.v ===== *)
(** * The coherent crossbar

    The timing protocol of [mem/coherent_xbar.cc]: requests from the CPU side are
    routed by address, snooped into the other caches and forwarded; responses
    find their way back by the routing table; snoops from below and their
    responses go the other way.  The crossbar uses the layers, the packet timing,
    the response queues and the broadcast of [XBar], the address map of
    [XBarDecode] and the snoop filter.

    The peers of the ports are parameters: what a cache does to a packet it is
    snooped with, whether the memory side accepts a packet, and what a port does
    that is told to retry, which may be to call the crossbar again.  The other
    peers do not call back during a call.  Statistics are left out. *)
From stdpp Require Import base tactics list gmap strings.
From Stdlib Require Import ZArith Lia.
From S2P Require Import Prelude MemCmd Clocked PacketQueue SnoopFilter XBar AddrRange XBarDecode.
Local Open Scope Z_scope.

Module CoherentXBar.
#[local] Existing Instance Layer.State_eq_dec.

(** ** Data *)

(** A packet; [req] is the identity of its request, which stays the same when
    the packet is turned into a response. *)
Record Pkt := mkPkt {
  base : XBar.Pkt;
  req : Z;
  snoopDelay : Z;                (* uint32_t *)
  expressSnoop : bool;
  satisfied : bool;
  responderHadWritable : bool;
  writeThrough : bool;
  toPOC : bool;
  toPOU : bool;
}.

Definition cmd (k : Pkt) : Command := SnoopFilter.pk_cmd (XBar.sf (base k)).
Definition getAddr (k : Pkt) : Z := SnoopFilter.pk_addr (XBar.sf (base k)).
Definition isSecure (k : Pkt) : bool := SnoopFilter.pk_secure (XBar.sf (base k)).
Definition cacheResponding (k : Pkt) : bool := SnoopFilter.pk_cacheResponding (XBar.sf (base k)).
Definition blockCached (k : Pkt) : bool := SnoopFilter.pk_blockCached (XBar.sf (base k)).
Definition getAddrRange (k : Pkt) : AddrRange.AddrRange := AddrRange.RangeSize (getAddr k) (XBar.pk_size (base k)).

Definition set_base (b : XBar.Pkt) (k : Pkt) : Pkt :=
  mkPkt b (req k) (snoopDelay k) (expressSnoop k) (satisfied k) (responderHadWritable k) (writeThrough k) (toPOC k) (toPOU k).
Definition set_headerDelay (h : Z) (k : Pkt) : Pkt :=
  set_base (XBar.set_delays h (XBar.payloadDelay (base k)) (base k)) k.
Definition set_snoopDelay (d : Z) (k : Pkt) : Pkt :=
  mkPkt (base k) (req k) d (expressSnoop k) (satisfied k) (responderHadWritable k) (writeThrough k) (toPOC k) (toPOU k).
Definition set_express (e : bool) (k : Pkt) : Pkt :=
  mkPkt (base k) (req k) (snoopDelay k) e (satisfied k) (responderHadWritable k) (writeThrough k) (toPOC k) (toPOU k).
Definition clearWriteThrough (k : Pkt) : Pkt :=
  mkPkt (base k) (req k) (snoopDelay k) (expressSnoop k) (satisfied k) (responderHadWritable k) false (toPOC k) (toPOU k).
Definition set_sf (s : SnoopFilter.Pkt) (k : Pkt) : Pkt :=
  set_base (XBar.mkPkt s (XBar.pk_id (base k)) (XBar.pk_size (base k)) (XBar.headerDelay (base k))
              (XBar.payloadDelay (base k)) (XBar.broadcastToOther (base k))) k.
Definition setBlockCached (k : Pkt) : Pkt :=
  let s := XBar.sf (base k) in
  set_sf (SnoopFilter.mkPkt (SnoopFilter.pk_cmd s) (SnoopFilter.pk_addr s) (SnoopFilter.pk_secure s)
            (SnoopFilter.pk_uncacheable s) (SnoopFilter.pk_maintenance s) (SnoopFilter.pk_broadcast s)
            (SnoopFilter.pk_cacheResponding s) (SnoopFilter.pk_hasSharers s) true) k.
Definition set_cmd (c : Command) (k : Pkt) : Pkt :=
  let s := XBar.sf (base k) in
  set_sf (SnoopFilter.mkPkt c (SnoopFilter.pk_addr s) (SnoopFilter.pk_secure s)
            (SnoopFilter.pk_uncacheable s) (SnoopFilter.pk_maintenance s) (SnoopFilter.pk_broadcast s)
            (SnoopFilter.pk_cacheResponding s) (SnoopFilter.pk_hasSharers s) (SnoopFilter.pk_blockCached s)) k.

Definition makeResponse (k : Pkt) : res Pkt :=
  if negb (needsResponse (cmd k)) then Err (EAssert "needsResponse()") else
  if negb (isRequest (cmd k)) then Err (EAssert "isRequest()") else
  c ← responseCommand (cmd k);
  Ok (set_express false (set_cmd c k)).

Definition isCleanEviction (k : Pkt) : bool :=
  bool_decide (cmd k = CleanEvict) || bool_decide (cmd k = WritebackClean).

Record Params := mkParams {
  xp : XBar.Params;
  frontendLatency : Z;          (* Cycles *)
  forwardLatency : Z;
  headerLatency : Z;
  snoopResponseLatency : Z;
  maxOutstandingSnoopCheck : Z;
  maxRoutingTableSizeCheck : Z;
  pointOfCoherency : bool;
  pointOfUnification : bool;
  defaultPortID : Z;
  useDefaultRange : bool;
}.

(** What the crossbar hands to its peers. *)
Inductive Output :=
  | SnoopReqTo (cpu_side_port_id : Z) (pkt : Pkt)
  | ReqTo (mem_side_port_id : Z) (pkt : Pkt)
  | SnoopRespTo (mem_side_port_id : Z) (pkt : Pkt).

Record CXBar := mkCXBar {
  xbar : XBar.XBar;
  decoder : XBarDecode.Decoder;
  reqLayers : list Layer.Layer;
  respLayers : list Layer.Layer;
  snoopLayers : list Layer.Layer;
  routeTo : gmap Z Z;
  outstandingSnoop : gset Z;
  outstandingCMO : gmap Z (option Pkt);
  outputs : list Output;
}.

Definition set_xbar (v : XBar.XBar) (x : CXBar) : CXBar :=
  mkCXBar v (decoder x) (reqLayers x) (respLayers x) (snoopLayers x) (routeTo x) (outstandingSnoop x) (outstandingCMO x) (outputs x).
Definition set_decoder (v : XBarDecode.Decoder) (x : CXBar) : CXBar :=
  mkCXBar (xbar x) v (reqLayers x) (respLayers x) (snoopLayers x) (routeTo x) (outstandingSnoop x) (outstandingCMO x) (outputs x).
Definition set_reqLayers (v : list Layer.Layer) (x : CXBar) : CXBar :=
  mkCXBar (xbar x) (decoder x) v (respLayers x) (snoopLayers x) (routeTo x) (outstandingSnoop x) (outstandingCMO x) (outputs x).
Definition set_respLayers (v : list Layer.Layer) (x : CXBar) : CXBar :=
  mkCXBar (xbar x) (decoder x) (reqLayers x) v (snoopLayers x) (routeTo x) (outstandingSnoop x) (outstandingCMO x) (outputs x).
Definition set_snoopLayers (v : list Layer.Layer) (x : CXBar) : CXBar :=
  mkCXBar (xbar x) (decoder x) (reqLayers x) (respLayers x) v (routeTo x) (outstandingSnoop x) (outstandingCMO x) (outputs x).
Definition set_routeTo (v : gmap Z Z) (x : CXBar) : CXBar :=
  mkCXBar (xbar x) (decoder x) (reqLayers x) (respLayers x) (snoopLayers x) v (outstandingSnoop x) (outstandingCMO x) (outputs x).
Definition set_outstandingSnoop (v : gset Z) (x : CXBar) : CXBar :=
  mkCXBar (xbar x) (decoder x) (reqLayers x) (respLayers x) (snoopLayers x) (routeTo x) v (outstandingCMO x) (outputs x).
Definition set_outstandingCMO (v : gmap Z (option Pkt)) (x : CXBar) : CXBar :=
  mkCXBar (xbar x) (decoder x) (reqLayers x) (respLayers x) (snoopLayers x) (routeTo x) (outstandingSnoop x) v (outputs x).
Definition emit (o : Output) (x : CXBar) : CXBar :=
  mkCXBar (xbar x) (decoder x) (reqLayers x) (respLayers x) (snoopLayers x) (routeTo x) (outstandingSnoop x) (outstandingCMO x) (outputs x ++ [o]).

(** ** Operations on the parts *)

Definition on_xbar {A} (f : M XBar.XBar A) : M CXBar A := λ x,
  match f (xbar x) with Ok (a, v) => Ok (a, set_xbar v x) | Err e => Err e end.
Definition on_decoder {A} (f : M XBarDecode.Decoder A) : M CXBar A := λ x,
  match f (decoder x) with Ok (a, v) => Ok (a, set_decoder v x) | Err e => Err e end.

(** An operation of layer [i] of a vector of layers. *)
Definition on_layer {A} (layers : CXBar → list Layer.Layer) (set : list Layer.Layer → CXBar → CXBar) (i : Z)
    (f : M Layer.Layer A) : M CXBar A := λ x,
  l ← vec_get (layers x) i;
  match f l with Ok (a, l') => Ok (a, set (<[Z.to_nat i := l']> (layers x)) x) | Err e => Err e end.
Definition on_req {A} := @on_layer A reqLayers set_reqLayers.
Definition on_resp {A} := @on_layer A respLayers set_respLayers.
Definition on_snoop {A} := @on_layer A snoopLayers set_snoopLayers.

(** The sources of a response layer: memory-side ports, and the ports that
    mirror a CPU-side port for its snoop responses. *)
Definition mem_source (mem_side_port_id : Z) : Z := 2 * mem_side_port_id.
Definition snoop_source (cpu_side_port_id : Z) : Z := 2 * cpu_side_port_id + 1.

(** [i < v.size()], [i] converted to [size_t] *)
Definition in_vector {A} (i : Z) (v : list A) : bool := (0 <=? i) && (i <? Z.of_nat (length v)).

Definition cpu_port (i : Z) : M CXBar SnoopFilter.Port := λ x,
  p ← vec_get (XBar.cpuSidePorts (xbar x)) i; Ok (XBar.port p, x).

Section crossbar.
Context (P : Params) (curTick : Z).
(** The peers. *)
Context (snooped : Z → Pkt → Pkt) (tryTiming : Z → Pkt → bool) (sendTimingReq : Z → Pkt → bool * Pkt)
  (sendTimingSnoopResp : Z → Pkt → bool).

Notation clockPeriod := (XBar.clockPeriod (xp P)).
Notation bypassCaches := (XBar.bypassCaches (xp P)).

Definition clockEdge (cycles : Z) : M CXBar Z := on_xbar (λ v,
  match Clocked.clockEdge clockPeriod curTick cycles (XBar.clock v) with
  | Ok (t, c) => Ok (t, XBar.set_clock c v)
  | Err e => Err e
  end).

Definition calcPacketTiming (pkt : Pkt) (header_delay : Z) : M CXBar Pkt :=
  b ← on_xbar (XBar.calcPacketTiming (xp P) curTick (base pkt) header_delay);
  mret (set_base b pkt).

Definition on_filter {A} (f : M SnoopFilter.Filter A) (none : A) : M CXBar A := on_xbar (λ v,
  match XBar.snoopFilter v with
  | Some sf => match f sf with Ok (a, sf') => Ok (a, XBar.set_filter sf' v) | Err e => Err e end
  | None => Ok (none, v)
  end).

Definition isDestination (pkt : Pkt) : bool :=
  (toPOC pkt && pointOfCoherency P) || (toPOU pkt && pointOfUnification P).

Definition sinkPacket (pkt : Pkt) : res bool :=
  if pointOfCoherency P && cacheResponding pkt then Ok true
  else if pointOfCoherency P && negb (isRead (cmd pkt) || isWrite (cmd pkt)) && negb (needsResponse (cmd pkt)) then Ok true
  else if isCleanEviction pkt && blockCached pkt then Ok true
  else if cacheResponding pkt then
    if negb (isRequest (cmd pkt)) then Err (EAssert "isRequest()") else
    Ok (negb (needsWritable (cmd pkt)) || responderHadWritable pkt)
  else Ok false.

Definition forwardPacket (pkt : Pkt) : bool :=
  if isClean (cmd pkt) then negb (isDestination pkt)
  else isRead (cmd pkt) || isWrite (cmd pkt) || negb (pointOfCoherency P).

(** The loop over the destinations of a snoop; the packet is shared. *)
Fixpoint snoop_loop (pkt : Pkt) (exclude : Z) (dests : list SnoopFilter.Port) : M CXBar Pkt :=
  match dests with
  | [] => mret pkt
  | p :: dests =>
      let id := SnoopFilter.p_id p in
      if (exclude =? XBarDecode.InvalidPortID) || negb (id =? exclude) then
        modify (emit (SnoopReqTo id pkt)) ;;
        snoop_loop (snooped id pkt) exclude dests
      else snoop_loop pkt exclude dests
  end.

Definition forwardTiming (pkt : Pkt) (exclude : Z) (dests : list SnoopFilter.Port) : M CXBar Pkt :=
  massert "!system->bypassCaches()" (negb bypassCaches) ;;
  snoop_loop pkt exclude dests.

Definition snoopPorts (x : CXBar) : list SnoopFilter.Port :=
  filter (λ p, SnoopFilter.p_snooping p = true) (map XBar.port (XBar.cpuSidePorts (xbar x))).

(** Snoop the caches above by a lookup of the filter, if there is one. *)
Definition snoop_above (pkt : Pkt) (exclude : Z) (lookup : M SnoopFilter.Filter (list SnoopFilter.Port * Z))
    (evict : bool) : M CXBar Pkt :=
  x ← gets (λ x, x);
  match XBar.snoopFilter (xbar x) with
  | Some _ =>
      sf_res ← on_filter lookup ([], 0);
      let pkt := set_headerDelay (u32 (XBar.headerDelay (base pkt) + u64 (sf_res.2 * clockPeriod))) pkt in
      if evict then mret (if bool_decide (sf_res.1 = []) then pkt else setBlockCached pkt)
      else forwardTiming pkt exclude sf_res.1
  | None => forwardTiming pkt exclude (snoopPorts x)
  end.

(** [pkt->headerDelay += pkt->snoopDelay; pkt->snoopDelay = 0] *)
Definition settle_snoopDelay (pkt : Pkt) : Pkt :=
  set_snoopDelay 0 (set_headerDelay (u32 (XBar.headerDelay (base pkt) + snoopDelay pkt)) pkt).

Definition remember_route (pkt : Pkt) (port_id : Z) : M CXBar unit :=
  x ← gets (λ x, x);
  massert "routeTo.find(pkt->req) == routeTo.end()" (bool_decide (routeTo x !! req pkt = None)) ;;
  modify (set_routeTo (<[req pkt := port_id]> (routeTo x))).

Definition check_routes : M CXBar unit :=
  x ← gets (λ x, x);
  when (maxRoutingTableSizeCheck P <? Z.of_nat (size (routeTo x))) (throw (EPanic "Routing table exceeds")).

(** ** Requests *)

(** The snooping part; [inl] when the memory below cannot take a clean
    request. *)
Definition request_snoops (pkt : Pkt) (cpu_side_port_id mem_side_port_id : Z) (src : SnoopFilter.Port) : M CXBar (Pkt + Pkt) :=
  massert "pkt->snoopDelay == 0" (snoopDelay pkt =? 0) ;;
  if isClean (cmd pkt) && negb (isDestination pkt) && negb (tryTiming mem_side_port_id pkt) then
    t ← clockEdge 1;
    on_req mem_side_port_id (Layer.failedTiming curTick cpu_side_port_id t) ;;
    mret (inl pkt)
  else
    pkt ← snoop_above pkt cpu_side_port_id
            (SnoopFilter.lookupRequest (XBar.sfConfig (xp P)) (XBar.sf (base pkt)) src) (isEviction (cmd pkt));
    mret (inr (settle_snoopDelay pkt)).

(** Sending the packet on: whether it succeeded, the packet, and whether the
    crossbar responds itself. *)
Definition send_request (pkt : Pkt) (mem_side_port_id : Z) (is_destination expect_snoop_resp : bool) : M CXBar (bool * Pkt * bool) :=
  sink ← lift (sinkPacket pkt);
  if (sink : bool) then mret (true, pkt, false)
  else if forwardPacket pkt then
    let pkt := if cacheResponding pkt then set_express true pkt else pkt in
    let pkt := if isWrite (cmd pkt) && is_destination then clearWriteThrough pkt else pkt in
    modify (emit (ReqTo mem_side_port_id pkt)) ;;
    let '(success, pkt) := sendTimingReq mem_side_port_id pkt in
    mret (success, pkt, false)
  else
    massert "pkt->needsResponse()" (needsResponse (cmd pkt)) ;;
    massert "!expect_snoop_resp" (negb expect_snoop_resp) ;;
    mret (true, pkt, true).

(** What is remembered of a request that was sent. *)
Definition record_request (pkt : Pkt) (cpu_side_port_id mem_side_port_id : Z) (expect_response expect_snoop_resp : bool)
    (packetFinishTime : Z) : M CXBar unit :=
  when expect_snoop_resp
    (x ← gets (λ x, x);
     massert "outstandingSnoop.find(pkt->req) == outstandingSnoop.end()" (bool_decide (req pkt ∉ outstandingSnoop x)) ;;
     modify (set_outstandingSnoop ({[req pkt]} ∪ outstandingSnoop x)) ;;
     x ← gets (λ x, x);
     when (maxOutstandingSnoopCheck P <? Z.of_nat (size (outstandingSnoop x))) (throw (EPanic "Outstanding snoop requests exceeded"))) ;;
  when (expect_response || expect_snoop_resp) (remember_route pkt cpu_side_port_id ;; check_routes) ;;
  on_req mem_side_port_id (Layer.succeededTiming curTick packetFinishTime).

(** A cache maintenance operation at its destination is answered when both the
    clean request and its write have passed; the packet and port to respond to,
    if any. *)
Definition finish_clean (pkt : Pkt) (cpu_side_port_id : Z) : M CXBar (option (Pkt * Z)) :=
  x ← gets (λ x, x);
  let id := XBar.pk_id (base pkt) in
  match outstandingCMO x !! id with
  | Some deferred =>
      r ← (if isWrite (cmd pkt) then
             rsp ← lift (of_option (EAssert "rsp_pkt") deferred);
             port ← lift (of_option (EAssert "route_lookup != routeTo.end()") (routeTo x !! req rsp));
             massert "rsp_port_id != InvalidPortID" (negb (port =? XBarDecode.InvalidPortID)) ;;
             massert "rsp_port_id < respLayers.size()" (in_vector port (respLayers x)) ;;
             modify (set_routeTo (delete (req rsp) (routeTo x))) ;;
             mret (rsp, port)
           else mret (pkt, cpu_side_port_id));
      modify (λ x, set_outstandingCMO (delete id (outstandingCMO x)) x) ;;
      mret (Some r)
  | None =>
      modify (set_outstandingCMO (<[id := if isWrite (cmd pkt) then None else Some pkt]> (outstandingCMO x))) ;;
      when (negb (isWrite (cmd pkt))) (remember_route pkt cpu_side_port_id ;; check_routes) ;;
      mret None
  end.

Definition respond (pkt rsp_pkt : Pkt) (rsp_port_id : Z) : M CXBar unit :=
  rsp ← lift (makeResponse rsp_pkt);
  p ← cpu_port rsp_port_id;
  on_xbar (XBar.tell_filter (xp P) (base rsp) p) ;;
  t ← clockEdge 0;
  on_xbar (XBar.schedTimingResp curTick (Z.to_nat rsp_port_id) (XBar.set_delays 0 (XBar.payloadDelay (base rsp)) (base rsp))
             (u64 (t + XBar.headerDelay (base pkt)))).

(** Returns whether the request was taken, and the packet, which the sender keeps
    when it was not. *)
Definition recvTimingReq (pkt : Pkt) (cpu_side_port_id : Z) : M CXBar (bool * Pkt) :=
  src ← cpu_port cpu_side_port_id;
  let is_express_snoop := expressSnoop pkt in
  let cache_responding := cacheResponding pkt in
  massert "is_express_snoop == cache_responding" (Bool.eqb is_express_snoop cache_responding) ;;
  mem_side_port_id ← on_decoder (XBarDecode.findPort (defaultPortID P) (useDefaultRange P) (getAddrRange pkt));
  free ← (if is_express_snoop then mret true else on_req mem_side_port_id (Layer.tryTiming cpu_side_port_id));
  if negb free then mret (false, pkt) else
  let old_header_delay := XBar.headerDelay (base pkt) in
  pkt ← calcPacketTiming pkt (u64 (u64 (frontendLatency P + forwardLatency P) * clockPeriod));
  edge ← clockEdge (headerLatency P);
  let packetFinishTime := u64 (edge + XBar.payloadDelay (base pkt)) in
  let is_destination := isDestination pkt in
  let snoop_caches := negb bypassCaches && negb (bool_decide (cmd pkt = WriteClean)) in
  r ← (if snoop_caches then request_snoops pkt cpu_side_port_id mem_side_port_id src else mret (inr pkt));
  match r with
  | inl pkt => mret (false, pkt)
  | inr pkt =>
      let expect_snoop_resp := negb cache_responding && cacheResponding pkt in
      let expect_response := needsResponse (cmd pkt) && negb (cacheResponding pkt) in
      let addr := getAddr pkt in
      s ← send_request pkt mem_side_port_id is_destination expect_snoop_resp;
      let '(success, pkt, respond_directly) := s in
      let expect_response := expect_response && negb respond_directly in
      when snoop_caches
        (on_filter (SnoopFilter.finishRequest (XBar.sfConfig (xp P)) (negb success) addr (isSecure pkt)) tt) ;;
      if negb success then
        massert "!is_express_snoop" (negb is_express_snoop) ;;
        t ← clockEdge 1;
        on_req mem_side_port_id (Layer.failedTiming curTick cpu_side_port_id t) ;;
        mret (false, set_headerDelay old_header_delay pkt)
      else
        when (negb is_express_snoop)
          (record_request pkt cpu_side_port_id mem_side_port_id expect_response expect_snoop_resp packetFinishTime) ;;
        target ← (if ((isClean (cmd pkt) && satisfied pkt) || bool_decide (cmd pkt = WriteClean)) && is_destination
                  then finish_clean pkt cpu_side_port_id
                  else mret (if (respond_directly : bool) then Some (pkt, cpu_side_port_id) else None));
        (match target with Some (rsp, port) => respond pkt rsp port | None => mret tt end) ;;
        mret (true, pkt)
  end.

(** ** Responses *)

Definition forget_route (r : Z) : M CXBar unit := modify (λ x, set_routeTo (delete r (routeTo x)) x).

(** The response goes out through CPU-side port [i] after its header delay. *)
Definition send_response (pkt : Pkt) (i : Z) : M CXBar unit :=
  on_xbar (XBar.schedTimingResp curTick (Z.to_nat i) (XBar.set_delays 0 (XBar.payloadDelay (base pkt)) (base pkt))
             (u64 (curTick + XBar.headerDelay (base pkt)))).

Definition recvTimingResp (pkt : Pkt) (mem_side_port_id : Z) : M CXBar bool :=
  x ← gets (λ x, x);
  cpu_side_port_id ← lift (of_option (EAssert "route_lookup != routeTo.end()") (routeTo x !! req pkt));
  massert "cpu_side_port_id != InvalidPortID" (negb (cpu_side_port_id =? XBarDecode.InvalidPortID)) ;;
  massert "cpu_side_port_id < respLayers.size()" (in_vector cpu_side_port_id (respLayers x)) ;;
  free ← on_resp cpu_side_port_id (Layer.tryTiming (mem_source mem_side_port_id));
  if negb free then mret false else
  pkt ← calcPacketTiming pkt (u64 (XBar.responseLatency (xp P) * clockPeriod));
  edge ← clockEdge (headerLatency P);
  let packetFinishTime := u64 (edge + XBar.payloadDelay (base pkt)) in
  p ← cpu_port cpu_side_port_id;
  on_xbar (XBar.tell_filter (xp P) (base pkt) p) ;;
  send_response pkt cpu_side_port_id ;;
  forget_route (req pkt) ;;
  on_resp cpu_side_port_id (Layer.succeededTiming curTick packetFinishTime) ;;
  mret true.

(** ** Snoops from below *)

Definition recvTimingSnoopReq (pkt : Pkt) (mem_side_port_id : Z) : M CXBar unit :=
  massert "pkt->isExpressSnoop()" (expressSnoop pkt) ;;
  pkt ← calcPacketTiming pkt (u64 (forwardLatency P * clockPeriod));
  let cache_responding := cacheResponding pkt in
  massert "pkt->snoopDelay == 0" (snoopDelay pkt =? 0) ;;
  pkt ← snoop_above pkt XBarDecode.InvalidPortID
          (SnoopFilter.lookupSnoop (XBar.sfConfig (xp P)) (XBar.sf (base pkt))) false;
  let pkt := settle_snoopDelay pkt in
  when (negb cache_responding && cacheResponding pkt) (remember_route pkt mem_side_port_id) ;;
  port ← on_decoder (XBarDecode.findPort (defaultPortID P) (useDefaultRange P) (getAddrRange pkt));
  massert "findPort(pkt->getAddrRange()) == mem_side_port_id" (port =? mem_side_port_id).

Definition recvTimingSnoopResp (pkt : Pkt) (cpu_side_port_id : Z) : M CXBar bool :=
  if XBar.broadcastToOther (base pkt) then
    on_xbar (XBar.handleBroadcastToOthers (xp P) curTick (base pkt) cpu_side_port_id) ;; mret true
  else
  x ← gets (λ x, x);
  dest_port_id ← lift (of_option (EAssert "route_lookup != routeTo.end()") (routeTo x !! req pkt));
  massert "dest_port_id != InvalidPortID" (negb (dest_port_id =? XBarDecode.InvalidPortID)) ;;
  let forwardAsSnoop := bool_decide (req pkt ∉ outstandingSnoop x) in
  free ← (if forwardAsSnoop then
            massert "dest_port_id < snoopLayers.size()" (in_vector dest_port_id (snoopLayers x)) ;;
            on_snoop dest_port_id (Layer.tryTiming cpu_side_port_id)
          else
            massert "dest_port_id < respLayers.size()" (in_vector dest_port_id (respLayers x)) ;;
            on_resp dest_port_id (Layer.tryTiming (snoop_source cpu_side_port_id)));
  if negb free then mret false else
  massert "!pkt->isExpressSnoop()" (negb (expressSnoop pkt)) ;;
  pkt ← calcPacketTiming pkt (u64 ((if forwardAsSnoop then snoopResponseLatency P else XBar.responseLatency (xp P)) * clockPeriod));
  edge ← clockEdge (headerLatency P);
  let packetFinishTime := u64 (edge + XBar.payloadDelay (base pkt)) in
  (if forwardAsSnoop then
     on_filter (SnoopFilter.updateSnoopForward (XBar.sfConfig (xp P)) (XBar.sf (base pkt))) tt ;;
     modify (emit (SnoopRespTo dest_port_id pkt)) ;;
     massert "success" (sendTimingSnoopResp dest_port_id pkt) ;;
     on_snoop dest_port_id (Layer.succeededTiming curTick packetFinishTime)
   else
     modify (λ x, set_outstandingSnoop (outstandingSnoop x ∖ {[req pkt]}) x) ;;
     massert "cpu_side_port_id != dest_port_id" (negb (cpu_side_port_id =? dest_port_id)) ;;
     src ← cpu_port cpu_side_port_id;
     dest ← cpu_port dest_port_id;
     on_filter (SnoopFilter.updateSnoopResponse (XBar.sfConfig (xp P)) (XBar.sf (base pkt)) src dest) tt ;;
     send_response pkt dest_port_id ;;
     on_resp dest_port_id (Layer.succeededTiming curTick packetFinishTime)) ;;
  forget_route (req pkt) ;;
  mret true.

(** ** Layers that are released and retried *)

(** Told to retry, a port may call the crossbar again: [sendRetry] is what it
    does. *)
Section retry.
Context (layers : CXBar → list Layer.Layer) (set : list Layer.Layer → CXBar → CXBar).
Context (sendRetry : Z → M CXBar unit).

Definition layer_at (i : Z) : M CXBar Layer.Layer := λ x, l ← vec_get (layers x) i; Ok (l, x).
Definition on_it (i : Z) (f : Layer.Layer → Layer.Layer) : M CXBar unit := on_layer layers set i (modify f).

Definition retryWaiting (i : Z) : M CXBar unit :=
  l ← layer_at i;
  match Layer.waitingForLayer l with
  | [] => throw (EAssert "!waitingForLayer.empty()")
  | retryingPort :: rest =>
      massert "state == IDLE" (bool_decide (Layer.state l = Layer.IDLE)) ;;
      on_it i (Layer.set_state Layer.RETRY) ;;
      on_it i (Layer.set_waiting rest) ;;
      sendRetry retryingPort ;;
      l ← layer_at i;
      when (bool_decide (Layer.state l = Layer.RETRY))
        (on_it i (Layer.set_state Layer.BUSY) ;;
         t ← clockEdge 0;
         on_layer layers set i (Layer.occupyLayer curTick t))
  end.

(** The event queue takes the event out before it calls this. *)
Definition releaseLayer (i : Z) : M CXBar unit :=
  l ← layer_at i;
  massert "state == BUSY" (bool_decide (Layer.state l = Layer.BUSY)) ;;
  massert "!releaseEvent.scheduled()" (bool_decide (Layer.releaseEvent l = None)) ;;
  on_it i (Layer.set_state Layer.IDLE) ;;
  if negb (bool_decide (Layer.waitingForLayer l = [])) then
    when (bool_decide (Layer.waitingForPeer l = None)) (retryWaiting i)
  else when (bool_decide (Layer.waitingForPeer l = None) && Layer.draining l) (on_it i Layer.signalDrainDone).
Definition releaseEvent (i : Z) : M CXBar unit :=
  on_it i (λ l, Layer.set_release None (Layer.occupancy l) l) ;; releaseLayer i.

Definition recvRetry (i : Z) : M CXBar unit :=
  l ← layer_at i;
  match Layer.waitingForPeer l with
  | None => throw (EAssert "waitingForPeer != NULL")
  | Some p =>
      on_it i (Layer.set_waiting (p :: Layer.waitingForLayer l)) ;;
      on_it i (Layer.set_peer None) ;;
      if bool_decide (Layer.state l = Layer.IDLE) then retryWaiting i
      else massert "state == BUSY" (bool_decide (Layer.state l = Layer.BUSY))
  end.
End retry.

Definition recvReqRetry (sendRetry : Z → M CXBar unit) (mem_side_port_id : Z) : M CXBar unit :=
  recvRetry reqLayers set_reqLayers sendRetry mem_side_port_id.
End crossbar.

(** ** Construction *)

(** A CPU-side port, with the name of its peer and whether the peer snoops. *)
Definition new_port (i : nat) (peer : string * bool) : XBar.CPUSidePort :=
  XBar.mkCPUSidePort (SnoopFilter.mkPort (Z.of_nat i) peer.2) peer.1 (PacketQueue.new false true).

(** [defaultPortID] of a crossbar with [mem] memory-side ports. *)
Definition default_port (mem : nat) (has_default : bool) : Z :=
  if has_default then Z.of_nat mem else XBarDecode.InvalidPortID.

(** The constructor; the ports are numbered from zero. *)
Definition new (mem : nat) (has_default : bool) (peers : list (string * bool)) (snoop_filter : bool) : CXBar :=
  let n := if has_default then S mem else mem in
  mkCXBar (XBar.mkXBar Clocked.new (if snoop_filter then Some SnoopFilter.new else None) (imap new_port peers))
    (XBarDecode.new n) (replicate n Layer.new) (replicate (length peers) Layer.new) (replicate n Layer.new) ∅ ∅ ∅ [].

(** [init()] gives the filter its ports; [line], [lat] and [cap] are its own
    parameters. *)
Definition init (x : CXBar) (line lat cap : Z) : res SnoopFilter.Config :=
  SnoopFilter.setCPUSidePorts (map XBar.port (XBar.cpuSidePorts (xbar x))) line lat cap.
End CoherentXBar.
