(* ===== verification/CoherentXBarProps.v ===== *)
(** * The coherent crossbar keeps its promises

    A response goes back to the port its request came from; a refused request
    leaves no trace but the retry it will get; and every cache with a copy of the
    line is snooped before a request goes on. *)
From stdpp Require Import base tactics list gmap strings relations sets.
From Stdlib Require Import ZArith Lia.
From S2P Require Import Prelude XBarDecodeProps MemCmd Clocked PacketQueue PacketQueueProps SnoopFilter SnoopFilterProps SnoopFilterSpec XBar AddrRange XBarDecode CoherentXBar.
Import CoherentXBar.
Local Open Scope Z_scope.

(** ** Frames *)

(** The operation does not change [F]. *)
Definition keeps {St T A} (F : St → T) (m : M St A) : Prop := ∀ x a x', m x = Ok (a, x') → F x' = F x.

Section keeps.
Context {St T : Type} (F : St → T).

Lemma keeps_bind {A B} (m : M St A) (k : A → M St B) : keeps F m → (∀ a, keeps F (k a)) → keeps F (m ≫= k).
Proof. intros Hm Hk x b x' (a & x1 & H1 & H2)%M_bind_inv. rewrite (Hk _ _ _ _ H2). by apply Hm in H1. Qed.
Lemma keeps_mret {A} (a : A) : keeps F (mret a).
Proof. by intros x b x' [= _ <-]. Qed.
Lemma keeps_gets {A} (f : St → A) : keeps F (gets f).
Proof. by intros x b x' [= _ <-]. Qed.
Lemma keeps_lift {A} (r : res A) : keeps F (lift r).
Proof. intros x b x'. unfold lift. destruct r; [by intros [= _ <-]|done]. Qed.
Lemma keeps_massert what c : keeps F (massert what c).
Proof. intros x b x'. destruct c; [by intros [= _ <-]|done]. Qed.
Lemma keeps_throw {A} e : keeps F (throw e : M St A).
Proof. by intros x b x' ?. Qed.
Lemma keeps_when (c : bool) m : (c = true → keeps F m) → keeps F (when c m).
Proof. intros Hm. destruct c; [by apply Hm|apply keeps_mret]. Qed.
Lemma keeps_modify f : (∀ x, F (f x) = F x) → keeps F (modify f).
Proof. intros Hf x b x' [= _ <-]. apply Hf. Qed.
End keeps.

Section crossbar_keeps.
Context {T : Type} (F : CXBar → T).

Lemma keeps_on_xbar {A} (f : M XBar.XBar A) :
  (∀ x v, (∃ a, f (xbar x) = Ok (a, v)) → F (set_xbar v x) = F x) → keeps F (on_xbar f).
Proof. intros Hf x a x'. unfold on_xbar. destruct (f (xbar x)) as [[b v]|] eqn:E; [|done]. intros [= _ <-]. apply Hf. eauto. Qed.
Lemma keeps_on_decoder {A} (f : M XBarDecode.Decoder A) :
  (∀ x v, F (set_decoder v x) = F x) → keeps F (on_decoder f).
Proof. intros Hf x a x'. unfold on_decoder. destruct (f (decoder x)) as [[b v]|]; [|done]. intros [= _ <-]. apply Hf. Qed.
Lemma keeps_on_layer {A} layers set i (f : M Layer.Layer A) :
  (∀ v x, F (set v x) = F x) → keeps F (on_layer layers set i f).
Proof.
  intros Hf x a x'. unfold on_layer. destruct (vec_get (layers x) i) as [l|]; [|done]. cbn [mbind res_bind].
  destruct (f l) as [[b l']|]; [|done]. intros [= _ <-]. apply Hf.
Qed.
Lemma keeps_cpu_port i : keeps F (cpu_port i).
Proof. intros x a x'. unfold cpu_port. destruct (vec_get _ _); [|done]. by intros [= _ <-]. Qed.
End crossbar_keeps.

Create HintDb keeps.
#[export] Hint Resolve keeps_mret keeps_gets keeps_lift keeps_massert keeps_throw keeps_cpu_port : keeps.

(** Prove that an operation keeps a projection, by its structure. *)
Ltac keeps_tac :=
  repeat first
    [ progress eauto 2 with keeps
    | apply keeps_bind; [|intros ?]
    | apply keeps_when; intros ?
    | apply keeps_on_layer; intros; done
    | apply keeps_on_decoder; intros; done
    | apply keeps_modify; intros; done
    | match goal with |- keeps _ (if ?b then _ else _) => destruct b end
    | match goal with |- keeps _ (match ?b with _ => _ end) => destruct b end ].

(** The tables of the protocol; the filter and the ports; what was handed out. *)
Definition routes (x : CXBar) := (routeTo x, outstandingSnoop x, outstandingCMO x).
Definition above (x : CXBar) := (XBar.snoopFilter (xbar x), XBar.cpuSidePorts (xbar x)).

Section frames.
Context (P : Params) (now : Z).

Lemma calcPacketTiming_above k h v r v' :
  XBar.calcPacketTiming (xp P) now k h v = Ok (r, v') →
  XBar.snoopFilter v' = XBar.snoopFilter v ∧ XBar.cpuSidePorts v' = XBar.cpuSidePorts v ∧
  ∃ hd pd, r = XBar.set_delays hd pd k.
Proof.
  unfold XBar.calcPacketTiming. destruct (Clocked.clockEdge _ _ _ _) as [[t c]|]; [|done]. cbn [mbind res_bind].
  destruct (_ <? _); [done|]. destruct (hasData _).
  - destruct (_ =? _); [done|]. cbn [mbind res_bind]. intros [= <- <-]. eauto.
  - intros [= <- <-]. eauto.
Qed.

Lemma keeps_calc {T} (F : CXBar → T) k h :
  (∀ x v, XBar.snoopFilter v = XBar.snoopFilter (xbar x) → XBar.cpuSidePorts v = XBar.cpuSidePorts (xbar x) → F (set_xbar v x) = F x) →
  keeps F (calcPacketTiming P now k h).
Proof.
  intros Hf. unfold calcPacketTiming. apply keeps_bind; [|intros; apply keeps_mret]. apply keeps_on_xbar.
  intros x v [a Ha]. apply calcPacketTiming_above in Ha as (? & ? & _). by apply Hf.
Qed.

Lemma keeps_clockEdge {T} (F : CXBar → T) n :
  (∀ x v, XBar.snoopFilter v = XBar.snoopFilter (xbar x) → XBar.cpuSidePorts v = XBar.cpuSidePorts (xbar x) → F (set_xbar v x) = F x) →
  keeps F (clockEdge P now n).
Proof.
  intros Hf. unfold clockEdge. apply keeps_on_xbar. intros x v [a Ha].
  destruct (Clocked.clockEdge _ _ _ _) as [[t c]|]; [|done]. injection Ha as _ <-. by apply Hf.
Qed.
End frames.

(** ** Requests of other packets *)

(** No deferred response belongs to request [r]. *)
Definition undeferred (r : Z) (x : CXBar) : Prop := ∀ i k, outstandingCMO x !! i = Some (Some k) → req k ≠ r.

(** The operation leaves the route of request [r] alone, and its result
    satisfies [Q]. *)
Definition avoids {A} (r : Z) (m : M CXBar A) (Q : A → Prop) : Prop :=
  ∀ x a x', m x = Ok (a, x') → undeferred r x → routeTo x' !! r = routeTo x !! r ∧ undeferred r x' ∧ Q a.

Section avoids.
Context (r : Z).

Lemma avoids_bind {A B} (m : M CXBar A) (k : A → M CXBar B) Q Q' :
  avoids r m Q → (∀ a, Q a → avoids r (k a) Q') → avoids r (m ≫= k) Q'.
Proof.
  intros Hm Hk x b x' (a & x1 & H1 & H2)%M_bind_inv Hu. destruct (Hm _ _ _ H1 Hu) as (E1 & Hu1 & HQ).
  destruct (Hk a HQ _ _ _ H2 Hu1) as (E2 & Hu2 & HQ'). split; [congruence|done].
Qed.

Lemma avoids_keeps {A} (m : M CXBar A) : keeps routes m → avoids r m (λ _, True).
Proof.
  intros Hk x a x' H Hu. apply Hk in H. unfold routes in H. injection H as E1 _ E3.
  split; [by rewrite E1|]. split; [|done]. intros i k. rewrite E3. apply Hu.
Qed.

Lemma avoids_mret {A} (a : A) (Q : A → Prop) : Q a → avoids r (mret a) Q.
Proof. by intros HQ x b x' [= <- <-]. Qed.

Lemma avoids_when c m : (c = true → avoids r m (λ _, True)) → avoids r (when c m) (λ _, True).
Proof. intros Hm. destruct c; [by apply Hm|by apply avoids_mret]. Qed.

Lemma avoids_weaken {A} (m : M CXBar A) (Q Q' : A → Prop) : avoids r m Q → (∀ a, Q a → Q' a) → avoids r m Q'.
Proof. intros Hm HQ x a x' H Hu. destruct (Hm _ _ _ H Hu) as (? & ? & ?). auto. Qed.
End avoids.

Lemma routes_on_xbar {A} (f : M XBar.XBar A) : keeps routes (on_xbar f).
Proof. by apply keeps_on_xbar. Qed.
#[export] Hint Resolve routes_on_xbar : keeps.

(** Peers may set the flags and delays of a packet, not what identifies it. *)
Definition same_request (k k' : Pkt) : Prop :=
  req k' = req k ∧ cmd k' = cmd k ∧ getAddr k' = getAddr k ∧ isSecure k' = isSecure k ∧
  toPOC k' = toPOC k ∧ toPOU k' = toPOU k.

#[export] Instance same_request_po : PreOrder same_request.
Proof. split; [by intros k|]. intros a b c (?&?&?&?&?&?) (?&?&?&?&?&?). unfold same_request. split_and!; congruence. Qed.

Section requests.
Context (P : Params) (now : Z) (snooped : Z → Pkt → Pkt) (tryTiming : Z → Pkt → bool) (sendTimingReq : Z → Pkt → bool * Pkt).
Hypothesis snooped_same : ∀ i k, same_request k (snooped i k).
Hypothesis sent_same : ∀ i k, same_request k (sendTimingReq i k).2.

Lemma calc_packet k h x k' x' : calcPacketTiming P now k h x = Ok (k', x') →
  XBar.sf (base k') = XBar.sf (base k) ∧ XBar.pk_id (base k') = XBar.pk_id (base k).
Proof.
  unfold calcPacketTiming. intros (b & y & Hb & H)%M_bind_inv. injection H as <- _. unfold on_xbar in Hb.
  destruct (XBar.calcPacketTiming _ _ _ _ _) as [[b' v]|] eqn:E; [|done]. injection Hb as -> _.
  by apply calcPacketTiming_above in E as (_ & _ & hd & pd & ->).
Qed.
Lemma calc_same k h x k' x' : calcPacketTiming P now k h x = Ok (k', x') → same_request k k'.
Proof.
  unfold calcPacketTiming. intros (b & x1 & H1 & [= <- <-])%M_bind_inv. unfold on_xbar in H1.
  destruct (XBar.calcPacketTiming _ _ _ _ _) as [[b' v]|] eqn:E; [|done]. injection H1 as -> <-.
  apply calcPacketTiming_above in E as (_ & _ & hd & pd & ->). done.
Qed.

Lemma snoop_loop_same exclude dests : ∀ k x k' x',
  snoop_loop snooped k exclude dests x = Ok (k', x') → same_request k k'.
Proof.
  induction dests as [|p dests IH]; intros k x k' x' Hl; cbn [snoop_loop] in Hl; [by injection Hl as <- <-|].
  destruct (_ || _); [|by eapply IH]. step_M Hl. etransitivity; [apply snooped_same|by eapply IH].
Qed.

Lemma forwardTiming_same k exclude dests x k' x' :
  forwardTiming P snooped k exclude dests x = Ok (k', x') → same_request k k'.
Proof. unfold forwardTiming. intros Hf. apply M_bind_inv in Hf as (u & x1 & _ & Hf). by eapply snoop_loop_same. Qed.

Lemma snoop_above_same k exclude lookup evict x k' x' :
  snoop_above P snooped k exclude lookup evict x = Ok (k', x') → same_request k k'.
Proof.
  unfold snoop_above. intros H. step_M H. destruct (XBar.snoopFilter (xbar x)).
  - apply M_bind_inv in H as (sf & x1 & _ & H). destruct evict.
    + injection H as <- <-. by destruct (bool_decide _).
    + apply forwardTiming_same in H. by etransitivity; [|exact H].
  - by apply forwardTiming_same in H.
Qed.

Lemma request_snoops_same k c m src x s x' :
  request_snoops P now snooped tryTiming k c m src x = Ok (s, x') →
  match s with inl k' => k' = k | inr k' => same_request k k' end.
Proof.
  unfold request_snoops. intros (u & x1 & _ & H)%M_bind_inv. destruct (_ && _).
  - apply M_bind_inv in H as (t & x2 & _ & H). apply M_bind_inv in H as (u2 & x3 & _ & H). by injection H as <- <-.
  - apply M_bind_inv in H as (k' & x2 & H & H'). injection H' as <- <-. by apply snoop_above_same in H.
Qed.

Lemma send_request_same k m d e x b k' dir x' :
  send_request P sendTimingReq k m d e x = Ok ((b, k', dir), x') → same_request k k'.
Proof.
  unfold send_request. intros (s & x1 & _ & H)%M_bind_inv. destruct s; [by injection H as _ <- _ _|].
  destruct (forwardPacket P k).
  - step_M H. match type of H with context [sendTimingReq m ?k2] => pose proof (sent_same m k2) as Hs; destruct (sendTimingReq m k2) as [b' k3] end.
    injection H as _ <- _ _. etransitivity; [|exact Hs]. by destruct (_ && _), (cacheResponding k).
  - apply M_bind_inv in H as (u1 & x2 & _ & H). apply M_bind_inv in H as (u2 & x3 & _ & H). by injection H as _ <- _ _.
Qed.
End requests.

Lemma avoids_post {A} r (m : M CXBar A) (Q : A → Prop) :
  keeps routes m → (∀ x a x', m x = Ok (a, x') → Q a) → avoids r m Q.
Proof.
  intros Hk HQ x a x' H Hu. destruct (avoids_keeps r m Hk x a x' H Hu) as (? & ? & _). split; [done|]. split; [done|].
  by eapply HQ.
Qed.

Section routes.
Context (P : Params) (now : Z) (snooped : Z → Pkt → Pkt) (tryTiming : Z → Pkt → bool) (sendTimingReq : Z → Pkt → bool * Pkt)
  (sendTimingSnoopResp : Z → Pkt → bool).

Lemma routes_clockEdge n : keeps routes (clockEdge P now n).
Proof. unfold clockEdge. keeps_tac. Qed.
Lemma routes_calc k h : keeps routes (calcPacketTiming P now k h).
Proof. unfold calcPacketTiming. keeps_tac. Qed.
Lemma routes_on_filter {A} (f : M SnoopFilter.Filter A) d : keeps routes (on_filter f d).
Proof. unfold on_filter. keeps_tac. Qed.
Hint Resolve routes_clockEdge routes_calc routes_on_filter : keeps.

Lemma routes_on_layer {A} i (f : M Layer.Layer A) : keeps routes (on_req i f) ∧ keeps routes (on_resp i f) ∧ keeps routes (on_snoop i f).
Proof. unfold on_req, on_resp, on_snoop. split_and!; keeps_tac. Qed.
Lemma routes_on_req {A} i (f : M Layer.Layer A) : keeps routes (on_req i f).
Proof. apply routes_on_layer. Qed.
Lemma routes_on_resp {A} i (f : M Layer.Layer A) : keeps routes (on_resp i f).
Proof. apply routes_on_layer. Qed.
Lemma routes_on_snoop {A} i (f : M Layer.Layer A) : keeps routes (on_snoop i f).
Proof. apply routes_on_layer. Qed.
Lemma routes_on_decoder {A} (f : M XBarDecode.Decoder A) : keeps routes (on_decoder f).
Proof. by apply keeps_on_decoder. Qed.
Hint Resolve routes_on_req routes_on_resp routes_on_snoop routes_on_decoder : keeps.

Lemma routes_forwardTiming k exclude dests : keeps routes (forwardTiming P snooped k exclude dests).
Proof.
  unfold forwardTiming. apply keeps_bind; [keeps_tac|intros _].
  revert k. induction dests as [|p dests IH]; intros k; cbn [snoop_loop]; [keeps_tac|].
  destruct (_ || _); [|apply IH]. apply keeps_bind; [by apply keeps_modify|intros _; apply IH].
Qed.
Hint Resolve routes_forwardTiming : keeps.

Lemma routes_snoop_above k exclude lookup evict : keeps routes (snoop_above P snooped k exclude lookup evict).
Proof. unfold snoop_above. keeps_tac. Qed.
Hint Resolve routes_snoop_above : keeps.

Lemma routes_request_snoops k c m src : keeps routes (request_snoops P now snooped tryTiming k c m src).
Proof. unfold request_snoops. keeps_tac. Qed.

Lemma routes_send_request k m d e : keeps routes (send_request P sendTimingReq k m d e).
Proof. unfold send_request. keeps_tac. Qed.

Lemma routes_respond k rsp i : keeps routes (respond P now k rsp i).
Proof. unfold respond. keeps_tac. Qed.
Hint Resolve routes_request_snoops routes_send_request routes_respond : keeps.

Context (r : Z).

Lemma avoids_remember k c : req k ≠ r → avoids r (remember_route k c) (λ _, True).
Proof.
  intros Hk x u x' H Hu. unfold remember_route in H. step_M H. apply M_bind_inv in H as (u1 & x1 & Ha & H).
  apply (keeps_massert (λ x, x)) in Ha as ->. injection H as _ <-. simpl. by rewrite lookup_insert_ne.
Qed.

Lemma avoids_check : avoids r (check_routes P) (λ _, True).
Proof. apply avoids_keeps. unfold check_routes. keeps_tac. Qed.

Lemma avoids_remember_check k c : req k ≠ r → avoids r (remember_route k c ;; check_routes P) (λ _, True).
Proof. intros Hk. eapply avoids_bind; [by apply avoids_remember|]. intros _ _. apply avoids_check. Qed.

Lemma avoids_record k c m e1 e2 t : req k ≠ r → avoids r (record_request P now k c m e1 e2 t) (λ _, True).
Proof.
  intros Hk. unfold record_request. eapply avoids_bind.
  { apply avoids_when. intros _ x u x' H Hu. step_M H. apply M_bind_inv in H as (u1 & x1 & Ha & H).
    apply (keeps_massert (λ x, x)) in Ha as ->. step_M H. step_M H. unfold when in H.
    destruct (_ <? _); [done|]. by injection H as _ <-. }
  intros _ _. eapply avoids_bind; [apply avoids_when; intros _; by apply avoids_remember_check|].
  intros _ _. apply avoids_keeps. auto with keeps.
Qed.

Lemma avoids_finish_clean k c : req k ≠ r → avoids r (finish_clean P k c) (λ _, True).
Proof.
  intros Hk x o x' H Hu. unfold finish_clean in H. step_M H.
  destruct (outstandingCMO x !! XBar.pk_id (base k)) as [deferred|] eqn:Hcmo.
  - apply M_bind_inv in H as (rp & x1 & H1 & H). step_M H. injection H as _ <-. simpl.
    assert (routeTo x1 !! r = routeTo x !! r ∧ outstandingCMO x1 = outstandingCMO x) as [E1 E2].
    { destruct (isWrite (cmd k)); [|by injection H1 as _ <-]. destruct deferred as [rsp|]; [|done].
      rewrite (M_bind_ok _ _ _ rsp x) in H1 by done. destruct (routeTo x !! req rsp) as [port|] eqn:Hport; [|done].
      rewrite (M_bind_ok _ _ _ port x) in H1 by done.
      apply M_bind_inv in H1 as (u1 & x2 & Ha & H1). apply (keeps_massert (λ x, x)) in Ha as ->.
      apply M_bind_inv in H1 as (u2 & x2 & Ha & H1). apply (keeps_massert (λ x, x)) in Ha as ->.
      step_M H1. injection H1 as _ <-. simpl. rewrite lookup_delete_ne by (by eapply Hu). done. }
    split; [done|]. split; [|done]. intros i k'. simpl. rewrite E2. intros [_ Hd]%lookup_delete_Some. by eapply Hu.
  - step_M H. set (x1 := set_outstandingCMO _ x) in H.
    assert (undeferred r x1) as Hu1.
    { intros i k' Hi. simpl in Hi. apply lookup_insert_Some in Hi as [[_ Hi]|[_ Hi]]; [|by eapply Hu].
      destruct (isWrite (cmd k)); [done|]. by injection Hi as <-. }
    apply M_bind_inv in H as (u & x2 & H1 & H). injection H as _ <-.
    destruct (avoids_when r _ _ (λ _, avoids_remember_check k c Hk) _ _ _ H1 Hu1) as (E & Hu2 & _). by rewrite E.
Qed.

(** Handlers of packets with another request. *)

Hypothesis snooped_same : ∀ i k, same_request k (snooped i k).
Hypothesis sent_same : ∀ i k, same_request k (sendTimingReq i k).2.

Lemma avoids_recvTimingReq k c : req k ≠ r →
  avoids r (recvTimingReq P now snooped tryTiming sendTimingReq k c) (λ _, True).
Proof.
  intros Hk. unfold recvTimingReq. eapply avoids_bind; [apply avoids_keeps; auto with keeps|]. intros src _.
  eapply avoids_bind; [apply avoids_keeps; auto with keeps|]. intros _ _.
  eapply avoids_bind; [apply avoids_keeps; auto with keeps|]. intros m _.
  eapply avoids_bind; [apply avoids_keeps; keeps_tac|]. intros free _. destruct free; cbn [negb]; [|by apply avoids_mret].
  eapply (avoids_bind r _ _ (same_request k)); [apply avoids_post; [auto with keeps|intros; by eapply calc_same]|]. intros k1 Hk1.
  eapply avoids_bind; [apply avoids_keeps; auto with keeps|]. intros edge _.
  eapply (avoids_bind r _ _ (λ s, match s with inl _ => True | inr k' => same_request k k' end)).
  { destruct (_ && _); [|by apply avoids_mret]. apply avoids_post; [auto with keeps|]. intros x [k'|k'] x' H; [done|].
    apply request_snoops_same in H; [|done]. by etransitivity. }
  intros [k2|k2] Hk2; [by apply avoids_mret|].
  eapply (avoids_bind r _ _ (λ s, same_request k s.1.2)).
  { apply avoids_post; [auto with keeps|]. intros x [[b k'] d] x' H. apply send_request_same in H; [|done]. simpl. by etransitivity. }
  intros [[success k3] direct] Hk3. simpl in Hk3. assert (req k3 ≠ r) as Hr3 by (by destruct Hk3 as [-> _]).
  eapply avoids_bind; [apply avoids_when; intros _; apply avoids_keeps; auto with keeps|]. intros _ _.
  destruct success; cbn [negb].
  - eapply avoids_bind; [apply avoids_when; intros _; by apply avoids_record|]. intros _ _.
    eapply avoids_bind; [destruct (_ && _); [by apply avoids_finish_clean|by apply (avoids_mret r _ (λ _, True))]|].
    intros target _. eapply avoids_bind; [|intros _ _; by apply avoids_mret].
    apply avoids_keeps. destruct target as [[rsp port]|]; keeps_tac.
  - apply avoids_weaken with (Q := λ _, True); [|done]. apply avoids_keeps. keeps_tac.
Qed.

Lemma avoids_forget r' : r' ≠ r → avoids r (forget_route r') (λ _, True).
Proof. intros Hr x u x' [= _ <-] Hu. simpl. by rewrite lookup_delete_ne. Qed.

Lemma avoids_recvTimingResp k m : req k ≠ r → avoids r (recvTimingResp P now k m) (λ _, True).
Proof.
  intros Hk. unfold recvTimingResp. eapply avoids_bind; [apply avoids_keeps; auto with keeps|]. intros x _.
  eapply avoids_bind; [apply avoids_keeps; auto with keeps|]. intros c _.
  do 2 (eapply avoids_bind; [apply avoids_keeps; auto with keeps|]; intros _ _).
  eapply avoids_bind; [apply avoids_keeps; auto with keeps|]. intros free _. destruct free; cbn [negb]; [|by apply avoids_mret].
  eapply (avoids_bind r _ _ (same_request k)); [apply avoids_post; [auto with keeps|intros; by eapply calc_same]|]. intros k1 Hk1.
  eapply avoids_bind; [apply avoids_keeps; auto with keeps|]. intros edge _.
  eapply avoids_bind; [apply avoids_keeps; auto with keeps|]. intros p _.
  do 2 (eapply avoids_bind; [apply avoids_keeps; unfold send_response; auto with keeps|]; intros _ _).
  eapply avoids_bind; [apply avoids_forget; by destruct Hk1 as [-> _]|]. intros _ _.
  apply avoids_keeps. keeps_tac.
Qed.

Lemma avoids_recvTimingSnoopReq k m : req k ≠ r → avoids r (recvTimingSnoopReq P now snooped k m) (λ _, True).
Proof.
  intros Hk. unfold recvTimingSnoopReq. eapply avoids_bind; [apply avoids_keeps; auto with keeps|]. intros _ _.
  eapply (avoids_bind r _ _ (same_request k)); [apply avoids_post; [auto with keeps|intros; by eapply calc_same]|]. intros k1 Hk1.
  eapply avoids_bind; [apply avoids_keeps; auto with keeps|]. intros _ _.
  eapply (avoids_bind r _ _ (same_request k)).
  { apply avoids_post; [auto with keeps|]. intros x k' x' H. apply snoop_above_same in H; [|done]. by etransitivity. }
  intros k2 Hk2. eapply avoids_bind.
  { apply avoids_when. intros _. apply avoids_remember. destruct Hk2 as [E _]. simpl. by rewrite E. }
  intros _ _. apply avoids_keeps. keeps_tac.
Qed.

Lemma avoids_recvTimingSnoopResp k c : req k ≠ r ∨ XBar.broadcastToOther (base k) = true →
  avoids r (recvTimingSnoopResp P now sendTimingSnoopResp k c) (λ _, True).
Proof.
  intros Hk. unfold recvTimingSnoopResp. destruct (XBar.broadcastToOther (base k)).
  { apply avoids_keeps. keeps_tac. }
  destruct Hk as [Hk|]; [|done]. eapply avoids_bind; [apply avoids_keeps; auto with keeps|]. intros x _.
  eapply avoids_bind; [apply avoids_keeps; auto with keeps|]. intros d _.
  eapply avoids_bind; [apply avoids_keeps; auto with keeps|]. intros _ _.
  eapply avoids_bind; [apply avoids_keeps; keeps_tac|]. intros free _. destruct free; cbn [negb]; [|by apply avoids_mret].
  eapply avoids_bind; [apply avoids_keeps; auto with keeps|]. intros _ _.
  eapply (avoids_bind r _ _ (same_request k)); [apply avoids_post; [auto with keeps|intros; by eapply calc_same]|]. intros k1 Hk1.
  eapply avoids_bind; [apply avoids_keeps; auto with keeps|]. intros edge _.
  eapply (avoids_bind r _ _ (λ _, True)).
  { case_bool_decide; [apply avoids_keeps; keeps_tac|].
    eapply (avoids_bind r _ _ (λ _, True)); [|intros _ _; apply avoids_keeps; unfold send_response; keeps_tac].
    by intros x1 u x2 [= _ <-] Hu. }
  intros _ _. eapply avoids_bind; [apply avoids_forget; by destruct Hk1 as [-> _]|]. intros _ _. by apply avoids_mret.
Qed.
End routes.

(** ** The response queue of a port *)

Lemma schedSendEvent_list now t : keeps PacketQueue.transmitList (PacketQueue.schedSendEvent now t).
Proof. unfold PacketQueue.schedSendEvent, PacketQueue.schedule, PacketQueue.reschedule. keeps_tac. Qed.

(** A scheduled packet is added to the queue. *)
Lemma schedSendTiming_perm now k t q u q' :
  PacketQueue.schedSendTiming now k t q = Ok (u, q') →
  PacketQueue.transmitList q' ≡ₚ PacketQueue.mkDeferred t k :: PacketQueue.transmitList q.
Proof.
  unfold PacketQueue.schedSendTiming. intros (u1 & q1 & Ha & H)%M_bind_inv. apply (keeps_massert (λ q, q)) in Ha as ->.
  apply M_bind_inv in H as (u2 & q2 & Ha & H). apply (keeps_massert (λ q, q)) in Ha as ->. step_M H.
  destruct (_ && _); [done|].
  destruct (insert_back_spec (PacketQueue.forceOrder q) (PacketQueue.mkDeferred t k) (rev (PacketQueue.transmitList q)) [])
    as (l1 & l2 & Hr & _ & Hib). rewrite Hib in H. rewrite rev_involutive in Hr. step_M H.
  apply (keeps_when PacketQueue.transmitList _ _ (λ _, schedSendEvent_list now t)) in H. rewrite H. simpl.
  rewrite Hr, app_nil_r. symmetry. apply Permutation_middle.
Qed.

Lemma send_response_inv now k c x u x' :
  send_response now k c x = Ok (u, x') →
  ∃ p q', XBar.cpuSidePorts (xbar x) !! Z.to_nat c = Some p ∧
    XBar.cpuSidePorts (xbar x') = <[Z.to_nat c := XBar.mkCPUSidePort (XBar.port p) (XBar.peer_name p) q']> (XBar.cpuSidePorts (xbar x)) ∧
    PacketQueue.transmitList q' ≡ₚ
      PacketQueue.mkDeferred (u64 (now + XBar.headerDelay (base k))) (XBar.queued (base k)) :: PacketQueue.transmitList (XBar.respQueue p).
Proof.
  unfold send_response, on_xbar, XBar.schedTimingResp. destruct (XBar.cpuSidePorts (xbar x) !! Z.to_nat c) as [p|]; [|done].
  cbn [of_option mbind res_bind]. destruct (PacketQueue.schedSendTiming _ _ _ _) as [[u1 q']|] eqn:Hq; [|done].
  cbn [mbind res_bind]. intros [= _ <-]. exists p, q'. split; [done|]. split; [done|]. by apply schedSendTiming_perm in Hq.
Qed.

(** ** Responses *)

Section response.
Context (P : Params) (now : Z).

Definition ports_of (x : CXBar) : list XBar.CPUSidePort := XBar.cpuSidePorts (xbar x).

Lemma ports_calc k h : keeps ports_of (calcPacketTiming P now k h).
Proof. by apply keeps_calc. Qed.
Lemma ports_clockEdge n : keeps ports_of (clockEdge P now n).
Proof. by apply keeps_clockEdge. Qed.
Lemma ports_on_resp {A} i (f : M Layer.Layer A) : keeps ports_of (on_resp i f).
Proof. by apply keeps_on_layer. Qed.
Lemma ports_tell_filter k p : keeps ports_of (on_xbar (XBar.tell_filter (xp P) k p)).
Proof.
  apply keeps_on_xbar. intros x v [a Ha]. unfold XBar.tell_filter in Ha.
  destruct (XBar.snoopFilter (xbar x)); [|by injection Ha as _ <-]. destruct (XBar.bypassCaches _); [by injection Ha as _ <-|].
  destruct (SnoopFilter.updateResponse _ _ _ _); [|done]. by injection Ha as _ <-.
Qed.

(** The port gets one more packet, the response, and no other port changes. *)
Definition delivered (k : Pkt) (c : Z) (x x' : CXBar) : Prop :=
  ∃ p q' t, ports_of x !! Z.to_nat c = Some p ∧
    ports_of x' = <[Z.to_nat c := XBar.mkCPUSidePort (XBar.port p) (XBar.peer_name p) q']> (ports_of x) ∧
    PacketQueue.transmitList q' ≡ₚ PacketQueue.mkDeferred t (XBar.queued (base k)) :: PacketQueue.transmitList (XBar.respQueue p).

Lemma recvTimingResp_inv k m x b x' :
  recvTimingResp P now k m x = Ok (b, x') →
  ∃ c, routeTo x !! req k = Some c ∧
    if b then delivered k c x x' ∧ routeTo x' = delete (req k) (routeTo x)
    else ports_of x' = ports_of x ∧ routeTo x' = routeTo x.
Proof.
  unfold recvTimingResp. intros H. step_M H. destruct (routeTo x !! req k) as [c|] eqn:Hc; [|done]. exists c. split; [done|].
  rewrite (M_bind_ok _ _ _ c x) in H by done.
  apply M_bind_inv in H as (u1 & y & Ha & H). apply (keeps_massert (λ x, x)) in Ha as ->.
  apply M_bind_inv in H as (u2 & y & Ha & H). apply (keeps_massert (λ x, x)) in Ha as ->.
  apply M_bind_inv in H as (free & x1 & Hf & H).
  pose proof (ports_on_resp _ _ _ _ _ Hf) as Ep1. apply routes_on_resp in Hf. injection Hf as Er1 _ _.
  destruct free; cbn [negb] in H; [|injection H as <- <-; done].
  apply M_bind_inv in H as (k1 & x2 & Hk & H). pose proof (ports_calc _ _ _ _ _ Hk) as Ep2.
  pose proof (routes_calc _ _ _ _ _ _ _ Hk) as Er2. injection Er2 as Er2 _ _.
  assert (XBar.queued (base k1) = XBar.queued (base k) ∧ req k1 = req k) as [Eq Ereq].
  { unfold calcPacketTiming in Hk. apply M_bind_inv in Hk as (bp & y & Hb & Hk). injection Hk as <- _. split; [|done].
    unfold on_xbar in Hb. destruct (XBar.calcPacketTiming _ _ _ _ _) as [[b' v]|] eqn:E; [|done]. injection Hb as -> _.
    by apply calcPacketTiming_above in E as (_ & _ & hd & pd & ->). }
  apply M_bind_inv in H as (e & x3 & He & H). pose proof (ports_clockEdge _ _ _ _ He) as Ep3.
  apply routes_clockEdge in He. injection He as Er3 _ _.
  apply M_bind_inv in H as (p & x4 & Hp & H). apply (keeps_cpu_port (λ x, x)) in Hp as ->.
  apply M_bind_inv in H as (u5 & x5 & Ht & H). pose proof (ports_tell_filter _ _ _ _ _ Ht) as Ep5.
  apply routes_on_xbar in Ht. injection Ht as Er5 _ _.
  apply M_bind_inv in H as (u6 & x6 & Hs & H). pose proof (send_response_inv _ _ _ _ _ _ Hs) as (p' & q' & Hp' & Ep6 & Hq).
  unfold send_response in Hs. apply routes_on_xbar in Hs. injection Hs as Er6 _ _. unfold forget_route in H. step_M H.
  apply M_bind_inv in H as (u7 & x7 & Hl & H). pose proof (ports_on_resp _ _ _ _ _ Hl) as Ep7.
  apply routes_on_resp in Hl. injection Hl as Er7 _ _. injection H as <- <-. simpl in Er7.
  assert (ports_of x5 = ports_of x) as E by congruence. split.
  - eexists p', q', _. fold (ports_of x5) in Hp', Ep6. rewrite E in Hp', Ep6. split; [done|]. split; [|by rewrite <-Eq].
    rewrite Ep7. exact Ep6.
  - rewrite Er7, Ereq. by f_equal; congruence.
Qed.
End response.

(** ** The phases of a request *)

(** Only the layers, the clock and the address map change: what the release of a
    layer, a retry and a change of the address ranges do apart from the calls of
    ports, which are steps of their own. *)
Definition quiet_step (x x' : CXBar) : Prop := routes x' = routes x ∧ above x' = above x ∧ outputs x' = outputs x.

Section phases.
Context (P : Params) (now : Z) (snooped : Z → Pkt → Pkt) (tryTiming : Z → Pkt → bool) (sendTimingReq : Z → Pkt → bool * Pkt).


(** The caches above are snooped. *)
Definition snoops (k : Pkt) : bool :=
  negb (XBar.bypassCaches (xp P)) && negb (bool_decide (cmd k = WriteClean)).

(** A request that got past the layer: [k1], [k2] and [k3] are the packet with
    its timing, after the snoops, and after it was sent. *)
Record sent (k : Pkt) (c m : Z) (src : SnoopFilter.Port) (k1 k2 k3 : Pkt) (success direct : bool) (x4 x5 x6 x7 : CXBar) : Prop := {
  sent_timed : same_request k k1;
  sent_snoops : if snoops k1 then request_snoops P now snooped tryTiming k1 c m src x4 = Ok (inr k2, x5) else k2 = k1 ∧ x5 = x4;
  sent_send : send_request P sendTimingReq k2 m (isDestination P k1) (negb (cacheResponding k) && cacheResponding k2) x5 = Ok ((success, k3, direct), x6);
  sent_finish : when (snoops k1)
    (on_filter (SnoopFilter.finishRequest (XBar.sfConfig (xp P)) (negb success) (getAddr k2) (isSecure k3)) tt) x6 = Ok (tt, x7);
  sent_packet : XBar.sf (base k1) = XBar.sf (base k) ∧ XBar.pk_id (base k1) = XBar.pk_id (base k);
}.

Lemma sent_routes k c m src k1 k2 k3 success direct x4 x5 x6 x7 :
  sent k c m src k1 k2 k3 success direct x4 x5 x6 x7 → routes x7 = routes x4.
Proof.
  intros [_ Hsn Hsend Hfin]. apply (keeps_when routes) in Hfin; [|intros _; apply routes_on_filter].
  apply routes_send_request in Hsend.
  assert (routes x5 = routes x4) by (destruct (snoops k1); [by apply routes_request_snoops in Hsn|by destruct Hsn as [_ ->]]).
  congruence.
Qed.

(** What [recvTimingReq] did: the layer was busy; the memory could not take a
    clean request; the memory refused the packet; or it went through. *)
Inductive handled (k : Pkt) (c m : Z) (src : SnoopFilter.Port) (x1 : CXBar) : bool → Pkt → CXBar → Prop :=
  | handled_busy x' :
      expressSnoop k = false → on_req m (Layer.tryTiming c) x1 = Ok (false, x') → handled k c m src x1 false k x'
  | handled_clean k1 x4 x' :
      same_request k k1 → quiet_step x1 x4 → snoops k1 = true →
      request_snoops P now snooped tryTiming k1 c m src x4 = Ok (inl k1, x') →
      handled k c m src x1 false k1 x'
  | handled_refused k1 k2 k3 direct x4 x5 x6 x7 t x8 x' :
      quiet_step x1 x4 → sent k c m src k1 k2 k3 false direct x4 x5 x6 x7 → expressSnoop k = false →
      clockEdge P now 1 x7 = Ok (t, x8) → on_req m (Layer.failedTiming now c t) x8 = Ok (tt, x') →
      handled k c m src x1 false (set_headerDelay (XBar.headerDelay (base k)) k3) x'
  | handled_taken k1 k2 k3 direct finish x4 x5 x6 x7 x8 target x9 x' :
      quiet_step x1 x4 → sent k c m src k1 k2 k3 true direct x4 x5 x6 x7 →
      when (negb (expressSnoop k))
        (record_request P now k3 c m (needsResponse (cmd k2) && negb (cacheResponding k2) && negb direct)
           (negb (cacheResponding k) && cacheResponding k2) finish) x7 = Ok (tt, x8) →
      (if ((isClean (cmd k3) && satisfied k3) || bool_decide (cmd k3 = WriteClean)) && isDestination P k1
       then finish_clean P k3 c else mret (if direct then Some (k3, c) else None)) x8 = Ok (target, x9) →
      (match target with Some (rsp, port) => respond P now k3 rsp port | None => mret tt end) x9 = Ok (tt, x') →
      handled k c m src x1 true k3 x'.

Lemma request_snoops_inl k c m src x k' x' :
  request_snoops P now snooped tryTiming k c m src x = Ok (inl k', x') → k' = k.
Proof.
  unfold request_snoops. intros (u & x1 & _ & H)%M_bind_inv. destruct (_ && _).
  - apply M_bind_inv in H as (t & x2 & _ & H). apply M_bind_inv in H as (u2 & x3 & _ & H). by injection H as <- <-.
  - by apply M_bind_inv in H as (k2 & x2 & _ & H).
Qed.

Lemma recvTimingReq_inv k c x b k' x' :
  recvTimingReq P now snooped tryTiming sendTimingReq k c x = Ok ((b, k'), x') →
  ∃ src m x1, cpu_port c x = Ok (src, x) ∧ expressSnoop k = cacheResponding k ∧
    on_decoder (XBarDecode.findPort (defaultPortID P) (useDefaultRange P) (getAddrRange k)) x = Ok (m, x1) ∧
    handled k c m src x1 b k' x'.
Proof.
  unfold recvTimingReq. intros (src & y & Hsrc & H)%M_bind_inv. pose proof Hsrc as Hy. apply (keeps_cpu_port (λ x, x)) in Hy as ->.
  apply M_bind_inv in H as (u & y & Ha & H). pose proof Ha as Hy. apply (keeps_massert (λ x, x)) in Hy as ->.
  assert (expressSnoop k = cacheResponding k) as Hex.
  { unfold massert in Ha. destruct (Bool.eqb _ _) eqn:E; [by apply eqb_prop in E|done]. }
  apply M_bind_inv in H as (m & x1 & Hm & H). exists src, m, x1. do 3 (split; [done|]).
  apply M_bind_inv in H as (free & x2 & Hf & H).
  assert (quiet_step x1 x2) as (K1 & K2 & K3).
  { split_and!; (destruct (expressSnoop k); [by injection Hf as _ <-|]); revert Hf; by apply keeps_on_layer. }
  destruct free; cbn [negb] in H.
  2:{ injection H as <- <- <-. destruct (expressSnoop k) eqn:E; [done|]. by apply handled_busy. }
  apply M_bind_inv in H as (k1 & x3 & Hk1 & H). apply M_bind_inv in H as (e & x4 & He & H).
  assert (quiet_step x1 x4) as Hto.
  { split_and!.
    - rewrite <-K1. rewrite (routes_clockEdge _ _ _ _ _ _ He). by apply routes_calc in Hk1.
    - rewrite <-K2. etransitivity; [eapply (keeps_clockEdge P now above); [|exact He]|eapply (keeps_calc P now above); [|exact Hk1]];
        intros y v E1 E2; unfold above; simpl; by rewrite E1, E2.
    - rewrite <-K3. etransitivity; [eapply (keeps_clockEdge P now outputs); [done|exact He]|eapply (keeps_calc P now outputs); [done|exact Hk1]]. }
  pose proof (calc_same _ _ _ _ _ _ _ Hk1) as Hs1.
  apply M_bind_inv in H as (s & x5 & Hs & H). fold (snoops k1) in Hs, H.
  destruct s as [k2|k2].
  { injection H as <- <- <-. destruct (snoops k1) eqn:Es; [|done].
    apply request_snoops_inl in Hs as Hk2. subst k2.
    by eapply handled_clean. }
  apply M_bind_inv in H as ([[success k3] direct] & x6 & Hsend & H). apply M_bind_inv in H as ([] & x7 & Hfin & H).
  assert (sent k c m src k1 k2 k3 success direct x4 x5 x6 x7) as Hsent.
  { split; [done| |done|done|by eapply calc_packet]. destruct (snoops k1); [done|by injection Hs as <- <-]. }
  destruct success; cbn [negb] in H.
  - apply M_bind_inv in H as ([] & x8 & Hrec & H). apply M_bind_inv in H as (target & x9 & Ht & H).
    apply M_bind_inv in H as ([] & x10 & Hr & H). injection H as <- <- <-. by eapply handled_taken.
  - apply M_bind_inv in H as (u1 & y & Ha' & H). pose proof Ha' as Hy. apply (keeps_massert (λ x, x)) in Hy as ->.
    apply M_bind_inv in H as (t & x8 & Ht & H). apply M_bind_inv in H as ([] & x9 & Hl & H). injection H as <- <- <-.
    eapply handled_refused; try done. unfold massert in Ha'. by destruct (expressSnoop k).
Qed.
End phases.

(** ** Theorems *)

Section recorded.
Context (P : Params) (now : Z) (snooped : Z → Pkt → Pkt) (tryTiming : Z → Pkt → bool) (sendTimingReq : Z → Pkt → bool * Pkt).
Hypothesis snooped_same : ∀ i k, same_request k (snooped i k).
Hypothesis sent_same : ∀ i k, same_request k (sendTimingReq i k).2.

(** An ordinary read or write that wants a response. *)
Definition access (k : Pkt) : Prop :=
  expressSnoop k = false ∧ needsResponse (cmd k) = true ∧ isClean (cmd k) = false ∧ isRead (cmd k) || isWrite (cmd k) = true.

Lemma send_request_direct k m d e x b k' dir x' :
  forwardPacket P k = true → send_request P sendTimingReq k m d e x = Ok ((b, k', dir), x') → dir = false.
Proof.
  intros Hfw. unfold send_request. intros (s & x1 & _ & H)%M_bind_inv. destruct s; [by injection H as _ _ <- _|].
  rewrite Hfw in H. step_M H. destruct (sendTimingReq _ _). by injection H as _ _ <- _.
Qed.

Lemma remember_route_inv k c x u x' : remember_route k c x = Ok (u, x') → x' = set_routeTo (<[req k := c]> (routeTo x)) x.
Proof.
  unfold remember_route. intros H. step_M H. apply M_bind_inv in H as (u1 & y & Ha & H).
  apply (keeps_massert (λ x, x)) in Ha as ->. by injection H as _ <-.
Qed.

Lemma record_request_route k c m e1 e2 t x u x' :
  e1 || e2 = true → record_request P now k c m e1 e2 t x = Ok (u, x') →
  routeTo x' !! req k = Some c ∧ outstandingCMO x' = outstandingCMO x.
Proof.
  intros He. unfold record_request. rewrite He. intros (u1 & x1 & H1 & H)%M_bind_inv.
  assert (outstandingCMO x1 = outstandingCMO x) as E1.
  { apply (keeps_when outstandingCMO) in H1; [done|]. intros _. keeps_tac. }
  cbn [when] in H. apply M_bind_inv in H as (u2 & x2 & H2 & H). apply M_bind_inv in H2 as (u3 & x3 & H3 & H2).
  apply remember_route_inv in H3 as ->.
  assert (routes x2 = routes (set_routeTo (<[req k := c]> (routeTo x1)) x1)) as E2.
  { unfold check_routes in H2. revert H2. eapply (keeps_bind routes); intros; keeps_tac. }
  apply routes_on_req in H. injection H as Er _ Ec. injection E2 as Er2 _ Ec2.
  rewrite Er, Er2, Ec, Ec2. split; [by rewrite lookup_insert_eq|done].
Qed.

Lemma request_recorded k c x k' x' :
  access k → undeferred (req k) x →
  recvTimingReq P now snooped tryTiming sendTimingReq k c x = Ok ((true, k'), x') →
  routeTo x' !! req k = Some c ∧ undeferred (req k) x'.
Proof using snooped_same sent_same.
  intros (Hex & Hneed & Hclean & Hrw) Hu H. apply recvTimingReq_inv in H as (src & m & x1 & _ & Hcr & Hm & Hh).
  apply routes_on_decoder in Hm. inversion Hh as [| | |k1 k2 k3 direct fin x4 x5 x6 x7 x8 target x9 y Hto Hsent Hrec Hcl Hresp]. subst k' y.
  pose proof (sent_routes _ _ _ _ _ _ _ _ _ _ _ _ _ _ _ _ _ _ Hsent) as E47. destruct Hsent as [Ht Hsn Hsend Hfin].
  assert (same_request k k2) as Hk2.
  { destruct (snoops P k1); [apply request_snoops_same in Hsn; [by etransitivity|done]|by destruct Hsn as [-> _]]. }
  pose proof Hk2 as (_ & Ec2 & _ & _ & _ & _).
  assert (direct = false) as ->.
  { eapply send_request_direct; [|exact Hsend]. unfold forwardPacket. rewrite Ec2, Hclean.
    apply orb_true_iff in Hrw as [-> | ->]; [done|by rewrite orb_true_r]. }
  assert (same_request k k3) as (Er3 & Ec3 & _).
  { apply send_request_same in Hsend; [by etransitivity|done]. }
  rewrite Hex in Hrec. cbn [negb when] in Hrec. rewrite <-Hcr, Hex, Ec2, Hneed in Hrec.
  apply record_request_route in Hrec as [Hroute Hcmo]; [|by destruct (cacheResponding k2)].
  assert (outstandingCMO x7 = outstandingCMO x) as E7.
  { destruct Hto as (E4 & _ & _). assert (routes x7 = routes x) as E by congruence. by injection E. }
  assert (cmd k3 ≠ WriteClean) as Hwc by (rewrite Ec3; intros E; by rewrite E in Hneed).
  rewrite Ec3 in Hcl. rewrite Hclean, (bool_decide_false (cmd k = _)) in Hcl by (by rewrite <-Ec3). cbn [andb orb] in Hcl.
  injection Hcl as <- <-. injection Hresp as <-. split; [by rewrite <-Er3|].
  intros i kk. rewrite Hcmo, E7. apply Hu.
Qed.
End recorded.

(** The steps of the crossbar, labelled with the request they belong to; the
    peers and the time are those of the step.  A broadcast to the other PEs
    and a quiet step belong to no request. *)
Inductive timing_step (P : Params) : option Z → CXBar → CXBar → Prop :=
  | on_request now snooped tryTiming sendTimingReq k c b k' x x' :
      (∀ i k, same_request k (snooped i k)) → (∀ i k, same_request k (sendTimingReq i k).2) →
      recvTimingReq P now snooped tryTiming sendTimingReq k c x = Ok ((b, k'), x') → timing_step P (Some (req k)) x x'
  | on_response now k m b x x' :
      recvTimingResp P now k m x = Ok (b, x') → timing_step P (Some (req k)) x x'
  | on_snoop_request now snooped k m u x x' :
      (∀ i k, same_request k (snooped i k)) →
      recvTimingSnoopReq P now snooped k m x = Ok (u, x') → timing_step P (Some (req k)) x x'
  | on_snoop_response now sendTimingSnoopResp k c b x x' :
      recvTimingSnoopResp P now sendTimingSnoopResp k c x = Ok (b, x') →
      timing_step P (if XBar.broadcastToOther (base k) then None else Some (req k)) x x'
  | on_layers x x' : quiet_step x x' → timing_step P None x x'.

(** A step that does not belong to request [r]. *)
Definition other_step (P : Params) (r : Z) (x x' : CXBar) : Prop := ∃ l, timing_step P l x x' ∧ l ≠ Some r.

Lemma other_steps_avoid P r x x' :
  rtc (other_step P r) x x' → undeferred r x → routeTo x' !! r = routeTo x !! r ∧ undeferred r x'.
Proof.
  induction 1 as [|x y z (l & Hs & Hl) _ IH]; intros Hu; [done|].
  assert (routeTo y !! r = routeTo x !! r ∧ undeferred r y) as [E Hy]; [|destruct (IH Hy); split; [congruence|done]].
  destruct Hs as [? ? ? ? k ? ? ? ? ? Hs1 Hs2 H|? k ? ? ? ? H|? ? k ? ? ? ? Hs1 H|? ? k ? ? ? ? H|? ? H].
  - assert (req k ≠ r) as Hr by congruence. by eapply (avoids_recvTimingReq P _ _ _ _ r Hs1 Hs2 k _ Hr) in H as (? & ? & _).
  - assert (req k ≠ r) as Hr by congruence. by eapply (avoids_recvTimingResp P _ r k _ Hr) in H as (? & ? & _).
  - assert (req k ≠ r) as Hr by congruence. by eapply (avoids_recvTimingSnoopReq P _ _ r Hs1 k _ Hr) in H as (? & ? & _).
  - assert (req k ≠ r ∨ XBar.broadcastToOther (base k) = true) as Hr
      by (destruct (XBar.broadcastToOther _); [by right|left; congruence]).
    by eapply (avoids_recvTimingSnoopResp P _ _ r k _ Hr) in H as (? & ? & _).
  - destruct H as ([= -> _ Ec] & _ & _). split; [done|]. intros i k. rewrite Ec. apply Hu.
Qed.

(** Releases and retries are made of quiet steps and of what the port told to
    retry does. *)
Section runs.
Context (P : Params) (now : Z) (layers : CXBar → list Layer.Layer) (set : list Layer.Layer → CXBar → CXBar).
Hypothesis set_quiet : ∀ v x, quiet_step x (set v x).
Context (R : CXBar → CXBar → Prop) (quiet_R : ∀ x x', quiet_step x x' → R x x').
Context (sendRetry : Z → M CXBar unit) (retry_R : ∀ p x u x', sendRetry p x = Ok (u, x') → rtc R x x').

(** The operation is a run of [R]. *)
Definition runs {A} (m : M CXBar A) : Prop := ∀ x a x', m x = Ok (a, x') → rtc R x x'.

Lemma runs_bind {A B} (m : M CXBar A) (k : A → M CXBar B) : runs m → (∀ a, runs (k a)) → runs (m ≫= k).
Proof. intros Hm Hk x b x' (a & x1 & H1 & H2)%M_bind_inv. etransitivity; [by eapply Hm|by eapply Hk]. Qed.
Lemma runs_same {A} (m : M CXBar A) : keeps (λ x, x) m → runs m.
Proof. intros Hm x a x' H. by apply Hm in H as ->. Qed.
Lemma runs_when c m : runs m → runs (when c m).
Proof. intros Hm. destruct c; [done|apply runs_same, keeps_mret]. Qed.
Lemma runs_on_layer {A} i (f : M Layer.Layer A) : runs (on_layer layers set i f).
Proof using set_quiet quiet_R.
  intros x a x'. unfold on_layer. destruct (vec_get _ _); [|done]. cbn [mbind res_bind]. destruct (f _) as [[b l]|]; [|done].
  intros [= _ <-]. by apply rtc_once, quiet_R.
Qed.
Lemma runs_clockEdge n : runs (clockEdge P now n).
Proof using quiet_R.
  intros x a x' H. apply rtc_once, quiet_R. split_and!; revert H; apply keeps_clockEdge; [done| |done].
  intros y v E1 E2. unfold above. simpl. by rewrite E1, E2.
Qed.
Lemma runs_layer_at i : runs (layer_at layers i).
Proof. apply runs_same. intros x a x'. unfold layer_at. destruct (vec_get _ _); [|done]. by intros [= _ <-]. Qed.

Ltac runs_tac :=
  repeat first
    [ apply runs_on_layer | apply runs_clockEdge | apply runs_layer_at | exact (retry_R _)
    | apply runs_same; solve [eauto 2 with keeps]
    | apply runs_bind; [|intros ?] | apply runs_when
    | match goal with |- runs (if ?b then _ else _) => destruct b end
    | match goal with |- runs (match ?b with _ => _ end) => destruct b end ].

Lemma retryWaiting_runs i : runs (retryWaiting P now layers set sendRetry i).
Proof using set_quiet quiet_R retry_R. unfold retryWaiting, on_it. runs_tac. Qed.

Lemma releaseEvent_runs i : runs (releaseEvent P now layers set sendRetry i).
Proof using set_quiet quiet_R retry_R.
  pose proof retryWaiting_runs as Hw. unfold releaseEvent, releaseLayer, on_it.
  repeat first [apply Hw | progress runs_tac].
Qed.

Lemma recvRetry_runs i : runs (recvRetry P now layers set sendRetry i).
Proof using set_quiet quiet_R retry_R.
  pose proof retryWaiting_runs as Hw. unfold recvRetry, on_it. repeat first [apply Hw | progress runs_tac].
Qed.
End runs.

(** A retry from the memory side, with the steps of the port that is told. *)
Lemma recvReqRetry_steps P now r sendRetry m x u x' :
  (∀ p y u y', sendRetry p y = Ok (u, y') → rtc (other_step P r) y y') →
  recvReqRetry P now sendRetry m x = Ok (u, x') → rtc (other_step P r) x x'.
Proof.
  intros Hs. apply (recvRetry_runs P now reqLayers set_reqLayers); [done| |exact Hs].
  intros y y' Hq. exists None. split; [by apply on_layers|done].
Qed.

(** C9. A response goes back to the port its request came from.  When the
    crossbar takes a read or write from a CPU-side port, and the response comes
    after any number of other requests, responses, snoops, snoop responses and
    retries, then the response, if the response layer takes it, is queued at that
    port and at no other, and its route is forgotten; a response the layer does
    not take is not queued anywhere and keeps its route. *)
Theorem response_returns P now snooped tryTiming sendTimingReq k c x0 k' x1 x2 now' rsp m b x3 :
  (∀ i k, same_request k (snooped i k)) → (∀ i k, same_request k (sendTimingReq i k).2) →
  access k → undeferred (req k) x0 →
  recvTimingReq P now snooped tryTiming sendTimingReq k c x0 = Ok ((true, k'), x1) →
  rtc (other_step P (req k)) x1 x2 →
  req rsp = req k → recvTimingResp P now' rsp m x2 = Ok (b, x3) →
  if b then delivered rsp c x2 x3 ∧ routeTo x3 !! req k = None
  else ports_of x3 = ports_of x2 ∧ routeTo x3 !! req k = Some c.
Proof.
  intros Hs1 Hs2 Hacc Hu Hreq Hsteps Hr Hresp.
  destruct (request_recorded P now snooped tryTiming sendTimingReq Hs1 Hs2 k c x0 k' x1 Hacc Hu Hreq) as [Hroute Hu1].
  destruct (other_steps_avoid P (req k) x1 x2 Hsteps Hu1) as [Hroute2 _].
  apply recvTimingResp_inv in Hresp as (c' & Hc' & Hb). rewrite Hr in Hc', Hb.
  assert (c' = c) as -> by congruence. destruct b; [|destruct Hb as [? ->]; by split; [|congruence]].
  destruct Hb as [? ->]. split; [done|]. apply lookup_delete_eq.
Qed.

(** ** An example *)

(** Two PEs above and two interleaved memory channels and a device below; the
    peers above do not answer snoops and the memories take every request. *)
Definition example_cports : list SnoopFilter.Port := [SnoopFilter.mkPort 0 true; SnoopFilter.mkPort 1 true].
Definition example_sf_config : SnoopFilter.Config := SnoopFilter.mkConfig example_cports [0; 1] 64 1 1024.
Definition example_new : CXBar :=
  new 3 false [("system.generator0.port", true); ("system.generator1.port", true)] true.
Definition example_cxbar : CXBar := set_decoder decoder_2 example_new.
Definition example_cparams : Params :=
  mkParams (XBar.mkParams 2 16 500 1000000 false example_sf_config) 3 4 1 4 512 512 true true (-1) false.
Definition example_cpkt (c : Command) (a r : Z) : Pkt :=
  mkPkt (XBar.mkPkt (SnoopFilter.mkPkt c a false false false false false false false) r 16 0 0 false)
    r 0 false false false false false false.
Definition example_read : Pkt := example_cpkt ReadReq 64 1.
Definition example_other : Pkt := example_cpkt ReadReq 0 2.
Definition example_answer : Pkt := example_cpkt ReadResp 64 1.

Definition quiet (i : Z) (k : Pkt) : Pkt := k.
Definition willing (i : Z) (k : Pkt) : bool := true.
Definition accepting (i : Z) (k : Pkt) : bool * Pkt := (true, k).
Definition run_cxbar {A} (f : M CXBar A) (x : CXBar) : CXBar := match f x with Ok (_, x') => x' | Err _ => x end.

Definition example_asked_1 : CXBar :=
  run_cxbar (recvTimingReq example_cparams 0 quiet willing accepting example_read 0) example_cxbar.
Definition example_asked_2 : CXBar :=
  run_cxbar (recvTimingReq example_cparams 0 quiet willing accepting example_other 1) example_asked_1.
Definition example_answered : CXBar :=
  run_cxbar (recvTimingResp example_cparams 20000 example_answer 1) example_asked_2.

(** The second PE reads too before the response to the first arrives. *)
Lemma response_returns_witness :
  map (λ p, length (PacketQueue.transmitList (XBar.respQueue p))) (ports_of example_answered) = [1; 0]%nat ∧
  delivered example_answer 0 example_asked_2 example_answered ∧ routeTo example_answered !! 1 = None.
Proof.
  split; [vm_compute; reflexivity|].
  destruct (recvTimingReq example_cparams 0 quiet willing accepting example_read 0 example_cxbar) as [[[b k1] x1]|] eqn:E1;
    [|vm_compute in E1; discriminate E1].
  assert (b = true) as -> by (vm_compute in E1; by injection E1).
  assert (x1 = example_asked_1) as -> by (unfold example_asked_1, run_cxbar; by rewrite E1).
  destruct (recvTimingReq example_cparams 0 quiet willing accepting example_other 1 example_asked_1) as [[[b k2] x2]|] eqn:E2;
    [|vm_compute in E2; discriminate E2].
  assert (x2 = example_asked_2) as -> by (unfold example_asked_2, run_cxbar; by rewrite E2).
  destruct (recvTimingResp example_cparams 20000 example_answer 1 example_asked_2) as [[b3 x3]|] eqn:E3;
    [|vm_compute in E3; discriminate E3].
  assert (b3 = true) as -> by (vm_compute in E3; by injection E3).
  assert (x3 = example_answered) as -> by (unfold example_answered, run_cxbar; by rewrite E3).
  refine (response_returns example_cparams 0 quiet willing accepting example_read 0 example_cxbar
    k1 example_asked_1 example_asked_2 20000 example_answer 1 true example_answered _ _ _ _ E1 _ _ E3).
  - reflexivity.
  - reflexivity.
  - repeat split.
  - intros i k Hi. discriminate Hi.
  - apply rtc_once. exists (Some 2). split; [|discriminate].
    refine (on_request _ _ _ _ _ _ _ _ _ _ _ _ _ E2); reflexivity.
  - reflexivity.
Defined.
