(* ===== verification/CoherentXBarSnoop.v ===== *)
(** * The snoops of the coherent crossbar

    What the parts of a request do to the snoop filter and to what is handed to
    the peers: a request that gets past its layer is one lookup of the filter,
    finished with the outcome of the send, and its packet goes on after the
    snoops.  A request that is refused leaves nothing behind but the retry the
    port will get. *)
From stdpp Require Import base tactics list gmap strings relations sets.
From Stdlib Require Import ZArith Lia.
From S2P Require Import Prelude XBarDecodeProps MemCmd Clocked PacketQueue SnoopFilter SnoopFilterProps SnoopFilterSpec XBar AddrRange XBarDecode CoherentXBar CoherentXBarProps.
Import CoherentXBar.
Local Open Scope Z_scope.

Notation filter_in x := (XBar.snoopFilter (xbar x)).

(** ** What the parts of a request do to the filter and the outputs *)

Lemma on_filter_inv {A} (f : M SnoopFilter.Filter A) d x a x' :
  on_filter f d x = Ok (a, x') →
  ports_of x' = ports_of x ∧ outputs x' = outputs x ∧
  match filter_in x with
  | Some sf => ∃ sf', f sf = Ok (a, sf') ∧ filter_in x' = Some sf'
  | None => a = d ∧ filter_in x' = None
  end.
Proof.
  unfold on_filter, on_xbar. destruct (filter_in x) as [sf|] eqn:E.
  - destruct (f sf) as [[b sf']|]; [|done]. intros [= -> <-]. repeat split. by exists sf'.
  - intros [= -> <-]. by repeat split.
Qed.

(** The ports a list of outputs snoops, in order. *)
Definition snoops_to (o : Output) : option Z := match o with SnoopReqTo i _ => Some i | _ => None end.

(** The outputs [l] snoop every destination but [exclude] with the request of
    [k], and nothing else. *)
Definition snooped_to (k : Pkt) (exclude : Z) (dests : list SnoopFilter.Port) (l : list Output) : Prop :=
  (∀ p, p ∈ dests → exclude = XBarDecode.InvalidPortID ∨ SnoopFilter.p_id p ≠ exclude →
     ∃ k', SnoopReqTo (SnoopFilter.p_id p) k' ∈ l ∧ same_request k k') ∧
  (∀ o, o ∈ l → ∃ p k', o = SnoopReqTo (SnoopFilter.p_id p) k' ∧ p ∈ dests ∧ same_request k k' ∧
     (exclude = XBarDecode.InvalidPortID ∨ SnoopFilter.p_id p ≠ exclude)).

Section snoops.
Context (P : Params) (now : Z) (snooped : Z → Pkt → Pkt) (tryTiming : Z → Pkt → bool) (sendTimingReq : Z → Pkt → bool * Pkt).
Hypothesis snooped_same : ∀ i k, same_request k (snooped i k).
Hypothesis sent_same : ∀ i k, same_request k (sendTimingReq i k).2.

Lemma snooped_to_cons (here : bool) k k1 exclude p dests l :
  (here = true ↔ exclude = XBarDecode.InvalidPortID ∨ SnoopFilter.p_id p ≠ exclude) → same_request k k1 →
  snooped_to k1 exclude dests l →
  snooped_to k exclude (p :: dests) ((if here then [SnoopReqTo (SnoopFilter.p_id p) k] else []) ++ l).
Proof.
  intros Hhere Hk [Hall Honly]. split.
  - intros q [->|Hq]%elem_of_cons Hne.
    + apply Hhere in Hne as ->. exists k. split; [by left|done].
    + destruct (Hall q Hq Hne) as (k' & Hk' & Hs). exists k'. split; [|by etransitivity]. apply elem_of_app. by right.
  - intros o [Ho|Ho]%elem_of_app.
    + destruct here; [|by apply elem_of_nil in Ho]. apply list_elem_of_singleton in Ho as ->.
      exists p, k. split_and!; [done|by left|done|by apply Hhere].
    + destruct (Honly o Ho) as (q & k' & -> & Hq & Hs & Hne). exists q, k'. split_and!; [done|by right|by etransitivity|done].
Qed.

Lemma snoop_loop_outputs exclude dests : ∀ k x k' x',
  snoop_loop snooped k exclude dests x = Ok (k', x') →
  above x' = above x ∧ ∃ l, outputs x' = outputs x ++ l ∧ snooped_to k exclude dests l.
Proof using snooped_same.
  induction dests as [|p dests IH]; intros k x k' x' H; cbn [snoop_loop] in H.
  { injection H as <- <-. split; [done|]. exists []. split; [by rewrite app_nil_r|].
    split; intros ? ?%elem_of_nil; done. }
  assert (((exclude =? XBarDecode.InvalidPortID) || negb (SnoopFilter.p_id p =? exclude) = true) ↔
    exclude = XBarDecode.InvalidPortID ∨ SnoopFilter.p_id p ≠ exclude) as Hc.
  { rewrite orb_true_iff, negb_true_iff, Z.eqb_eq, Z.eqb_neq. done. }
  destruct (_ || _).
  - step_M H. apply IH in H as (Ha & l & Hl & Hs). split; [done|].
    exists (SnoopReqTo (SnoopFilter.p_id p) k :: l). split; [rewrite Hl; simpl; by rewrite <-app_assoc|].
    by apply (snooped_to_cons true k (snooped (SnoopFilter.p_id p) k)).
  - apply IH in H as (Ha & l & Hl & Hs). split; [done|]. exists l. split; [done|].
    by apply (snooped_to_cons false k k).
Qed.

Lemma forwardTiming_outputs k exclude dests x k' x' :
  forwardTiming P snooped k exclude dests x = Ok (k', x') →
  above x' = above x ∧ ∃ l, outputs x' = outputs x ++ l ∧ snooped_to k exclude dests l.
Proof using snooped_same.
  unfold forwardTiming. intros (u & x1 & Ha & H)%M_bind_inv. apply (keeps_massert (λ x, x)) in Ha as ->.
  by eapply snoop_loop_outputs.
Qed.

Lemma snooped_to_same k k1 exclude dests l : same_request k k1 → snooped_to k1 exclude dests l → snooped_to k exclude dests l.
Proof.
  intros Hk [Hall Honly]. split.
  - intros p Hp Hne. destruct (Hall p Hp Hne) as (k' & ? & ?). exists k'. split; [done|by etransitivity].
  - intros o Ho. destruct (Honly o Ho) as (p & k' & -> & ? & ? & ?). exists p, k'. split_and!; try done. by etransitivity.
Qed.

Lemma snoop_above_inv k exclude lookup evict x k' x' :
  snoop_above P snooped k exclude lookup evict x = Ok (k', x') →
  ports_of x' = ports_of x ∧ ∃ l, outputs x' = outputs x ++ l ∧
  match filter_in x with
  | Some f => ∃ dests lat f', lookup f = Ok ((dests, lat), f') ∧ filter_in x' = Some f' ∧
      if evict then l = [] else snooped_to k exclude dests l
  | None => filter_in x' = None ∧ snooped_to k exclude (snoopPorts x) l
  end.
Proof using snooped_same.
  unfold snoop_above. intros H. step_M H. destruct (filter_in x) as [f|] eqn:Ef.
  - apply M_bind_inv in H as ([dests lat] & x1 & Hf & H). apply on_filter_inv in Hf as (Hp & Ho & Hf).
    rewrite Ef in Hf. destruct Hf as (f' & Hlook & Hf'). cbn [fst snd] in H. destruct evict.
    + injection H as _ <-. split; [done|]. exists []. split; [by rewrite app_nil_r|]. by exists dests, lat, f'.
    + apply forwardTiming_outputs in H as (Ha & l & Hl & Hs). injection Ha as Ef1 Ep1.
      split; [unfold ports_of; by rewrite Ep1|]. exists l. split; [by rewrite Hl, Ho|].
      exists dests, lat, f'. split_and!; [done|by rewrite Ef1|]. by eapply snooped_to_same; [|exact Hs].
  - apply forwardTiming_outputs in H as (Ha & l & Hl & Hs). injection Ha as Ef1 Ep1.
    split; [done|]. exists l. split; [done|]. split; [by rewrite Ef1|done].
Qed.

Lemma request_snoops_inr k c m src x k' x' :
  request_snoops P now snooped tryTiming k c m src x = Ok (inr k', x') →
  ∃ k1, k' = settle_snoopDelay k1 ∧
    snoop_above P snooped k c (SnoopFilter.lookupRequest (XBar.sfConfig (xp P)) (XBar.sf (base k)) src) (isEviction (cmd k)) x = Ok (k1, x').
Proof.
  unfold request_snoops. intros (u & x1 & Ha & H)%M_bind_inv. apply (keeps_massert (λ x, x)) in Ha as ->.
  destruct (_ && _).
  - apply M_bind_inv in H as (t & x2 & _ & H). by apply M_bind_inv in H as (u2 & x3 & _ & H).
  - apply M_bind_inv in H as (k1 & x2 & H & H'). injection H' as <- <-. by exists k1.
Qed.

Lemma send_request_outputs k m d e x b k' dir x' :
  send_request P sendTimingReq k m d e x = Ok ((b, k', dir), x') →
  above x' = above x ∧ ∃ l, outputs x' = outputs x ++ l ∧
    (l = [] ∨ ∃ k1, l = [ReqTo m k1] ∧ same_request k k1) ∧ (b = false → l ≠ []).
Proof.
  unfold send_request. intros (s & x1 & Hs & H)%M_bind_inv. apply (keeps_lift (λ x, x)) in Hs as ->.
  assert (∀ x' : CXBar, x' = x → above x' = above x ∧ ∃ l, outputs x' = outputs x ++ l ∧
    (l = [] ∨ ∃ k1, l = [ReqTo m k1] ∧ same_request k k1) ∧ (true = false → l ≠ [])) as Hnone.
  { intros ? ->. split; [done|]. exists []. split; [by rewrite app_nil_r|]. by split; [left|]. }
  destruct s; [injection H as <- _ _ <-; by apply Hnone|]. destruct (forwardPacket P k).
  - step_M H. destruct (sendTimingReq _ _). injection H as <- _ _ <-. split; [done|].
    eexists. split; [done|]. split; [|done]. right. eexists. split; [done|]. by destruct (_ && _), (cacheResponding k).
  - apply M_bind_inv in H as (u1 & x2 & Ha & H). apply (keeps_massert (λ x, x)) in Ha as ->.
    apply M_bind_inv in H as (u2 & x2 & Ha & H). apply (keeps_massert (λ x, x)) in Ha as ->.
    injection H as <- _ _ <-. by apply Hnone.
Qed.

(** A request that got past its layer is one request to the filter, finished
    with the outcome of the send, and the packet goes on after the snoops. *)
Lemma sent_inv k c m src k1 k2 k3 success direct x4 x5 x6 x7 :
  sent P now snooped tryTiming sendTimingReq k c m src k1 k2 k3 success direct x4 x5 x6 x7 →
  same_request k k2 ∧ same_request k k3 ∧
  ports_of x7 = ports_of x4 ∧ ∃ l fw, outputs x7 = outputs x4 ++ l ++ fw ∧
    (fw = [] ∨ ∃ k', fw = [ReqTo m k'] ∧ same_request k k') ∧ (success = false → fw ≠ []) ∧
    if snoops P k1 then
      match filter_in x4 with
      | Some f => ∃ dests f', request (XBar.sfConfig (xp P)) (XBar.sf (base k1)) src (negb success) f = Ok (dests, f') ∧
          filter_in x7 = Some f' ∧ if isEviction (cmd k) then l = [] else snooped_to k c dests l
      | None => filter_in x7 = None ∧ snooped_to k c (snoopPorts x4) l
      end
    else filter_in x7 = filter_in x4 ∧ l = [].
Proof using snooped_same sent_same.
  intros [Ht Hsn Hsend Hfin]. pose proof Ht as (_ & Ec1 & Ea1 & Es1 & _).
  pose proof (send_request_same P _ sent_same _ _ _ _ _ _ _ _ _ Hsend) as Hk3.
  apply send_request_outputs in Hsend as ([= Ef6 Ep6] & fw & Ho6 & Hfw & Hfail).
  assert (∀ k', fw = [] ∨ (∃ k1, fw = [ReqTo m k1] ∧ same_request k2 k1) → same_request k' k2 →
    fw = [] ∨ ∃ k1, fw = [ReqTo m k1] ∧ same_request k' k1) as Hfw'.
  { intros k' [->|(kk & -> & Hkk)] Hk'; [by left|]. right. exists kk. split; [done|by etransitivity]. }
  destruct (snoops P k1); cbn [when] in Hfin.
  - pose proof (request_snoops_same P now _ _ snooped_same _ _ _ _ _ _ _ Hsn) as Hk2. simpl in Hk2.
    apply request_snoops_inr in Hsn as (k2' & -> & Hsn). apply snoop_above_inv in Hsn as (Hp5 & l & Ho5 & Hsn).
    apply on_filter_inv in Hfin as (Hp7 & Ho7 & Hfin). rewrite Ef6 in Hfin.
    assert (same_request k (settle_snoopDelay k2')) as Hkk2 by (by etransitivity).
    split; [done|]. split; [by etransitivity|]. split; [unfold ports_of in *; congruence|]. exists l, fw.
    split; [rewrite Ho7, Ho6, Ho5; by rewrite app_assoc|]. split; [auto|]. split; [done|]. rewrite Ec1 in Hsn.
    destruct (filter_in x4) as [f|].
    + destruct Hsn as (dests & lat & f1 & Hlook & Hf1 & Hl). rewrite Hf1 in Hfin. destruct Hfin as (f2 & Hfin & Hf2).
      exists dests, f2. split; [|split; [done|destruct (isEviction _); [done|by eapply (snooped_to_same k k1)]]].
      unfold request. rewrite (M_bind_ok _ _ _ _ _ Hlook). destruct Hk2 as (_ & _ & Ea2 & Es2 & _), Hk3 as (_ & _ & _ & Es3 & _).
      unfold getAddr in Hfin, Ea2. unfold isSecure in Hfin, Es2, Es3. rewrite Es3, Es2, Ea2 in Hfin.
      by rewrite (M_bind_ok _ _ _ _ _ Hfin).
    + destruct Hsn as [Hf5 Hl]. rewrite Hf5 in Hfin. split; [by destruct Hfin|]. by eapply (snooped_to_same k k1).
  - destruct Hsn as [-> ->]. injection Hfin as <-. split; [done|]. split; [by etransitivity|].
    split; [done|]. exists [], fw. split; [by rewrite Ho6|]. split; [auto|]. by split.
Qed.
End snoops.

(** ** Refusals and answers *)

Section handlers.
Context (P : Params) (now : Z) (snooped : Z → Pkt → Pkt) (tryTiming : Z → Pkt → bool) (sendTimingReq : Z → Pkt → bool * Pkt).

Lemma on_req_above {A} i (f : M Layer.Layer A) : keeps above (on_req i f).
Proof. by apply keeps_on_layer. Qed.
Lemma clockEdge_above n : keeps above (clockEdge P now n).
Proof. apply keeps_clockEdge. intros x v E1 E2. unfold above. simpl. by rewrite E1, E2. Qed.

(** A clean request the memory cannot take. *)
Lemma request_snoops_refused k c m src x k' x' :
  request_snoops P now snooped tryTiming k c m src x = Ok (inl k', x') →
  k' = k ∧ isClean (cmd k) = true ∧ ∃ t x1, above x1 = above x ∧ outputs x1 = outputs x ∧ on_req m (Layer.failedTiming now c t) x1 = Ok (tt, x').
Proof.
  unfold request_snoops. intros (u & x1 & Ha & H)%M_bind_inv. apply (keeps_massert (λ x, x)) in Ha as ->.
  destruct (isClean (cmd k)); cbn [andb] in H; [destruct (_ && _)|]; [|by apply M_bind_inv in H as (? & ? & _ & ?)..].
  apply M_bind_inv in H as (t & x2 & Ht & H). apply M_bind_inv in H as ([] & x3 & Hl & H). injection H as <- <-.
  split; [done|]. split; [done|]. exists t, x2. split; [by apply clockEdge_above in Ht|]. split; [|done].
  revert Ht. by apply keeps_clockEdge.
Qed.

(** What follows a successful send: the routing tables, then the filter and
    the queue of a port if the crossbar answers. *)
Lemma recorded_xbar (d : bool) k k1 c m e1 e2 t dir x7 x8 target x9 :
  when d (record_request P now k c m e1 e2 t) x7 = Ok (tt, x8) →
  (if ((isClean (cmd k) && satisfied k) || bool_decide (cmd k = WriteClean)) && isDestination P k1
   then finish_clean P k c else mret dir) x8 = Ok (target, x9) → xbar x9 = xbar x7 ∧ outputs x9 = outputs x7.
Proof.
  intros Hrec Hcl. assert (xbar x8 = xbar x7 ∧ outputs x8 = outputs x7) as [<- <-].
  { split; revert Hrec; apply keeps_when; intros _; unfold record_request, remember_route, check_routes, on_req; keeps_tac. }
  revert Hcl. destruct (_ && isDestination P k1); [|by intros [= _ <-]].
  intros Hcl. split; revert Hcl; unfold finish_clean, remember_route, check_routes; keeps_tac.
Qed.

Lemma respond_outputs k rsp i : keeps outputs (respond P now k rsp i).
Proof. unfold respond, clockEdge. keeps_tac; by apply keeps_on_xbar. Qed.

End handlers.

(** ** Wiring *)

(** The ports of the crossbar carry their index as their id, and the filter is
    set up with them. *)
Record wired (P : Params) (ports : list SnoopFilter.Port) : Prop := {
  wi_id : ∀ i p, ports !! i = Some p → SnoopFilter.p_id p = Z.of_nat i;
  wi_filter : ∃ line lat cap, SnoopFilter.setCPUSidePorts ports line lat cap = Ok (XBar.sfConfig (xp P));
}.

Section wired.
Context (P : Params) (ports : list SnoopFilter.Port).
Hypothesis wiring : wired P ports.
Notation cfg := (XBar.sfConfig (xp P)).

Lemma wired_configured : configured ports cfg.
Proof using wiring.
  destruct wiring as [Hid (line & lat & cap & Hset)]. eapply setCPUSidePorts_configured; [| |done].
  - apply NoDup_fmap_2_strong; [|].
    + intros p q (i & Hi)%list_elem_of_lookup (j & Hj)%list_elem_of_lookup E.
      pose proof (Hid i p Hi). pose proof (Hid j q Hj). assert (i = j) as <- by lia. congruence.
    + apply NoDup_alt. intros i j p Hi Hj. pose proof (Hid i p Hi). pose proof (Hid j p Hj). lia.
  - apply Forall_forall. intros p (i & Hi)%list_elem_of_lookup. pose proof (Hid i p Hi). apply lookup_lt_Some in Hi. lia.
Qed.

Lemma wired_masked p : p ∈ ports → ∃ m, SnoopFilter.portToMask cfg p = Ok m.
Proof using wiring.
  intros Hp. destruct (SnoopFilter.p_snooping p) eqn:Hs.
  - destruct (port_bit _ _ _ wired_configured Hp Hs) as (k & _ & Hm). eauto.
  - apply list_elem_of_lookup in Hp as (i & Hi). pose proof (wi_id _ _ wiring i p Hi). exists 0.
    unfold SnoopFilter.portToMask. rewrite Hs. unfold SnoopFilter.InvalidPortID. by rewrite (proj2 (Z.eqb_neq _ _)) by lia.
Qed.

(** The port of a request. *)
Lemma cpu_port_id c x src x' :
  map XBar.port (ports_of x) = ports → cpu_port c x = Ok (src, x') → src ∈ ports ∧ SnoopFilter.p_id src = c.
Proof using wiring.
  intros Hp H. unfold cpu_port in H. destruct (vec_get _ _) as [q|] eqn:Hq; [|done]. injection H as <- _.
  apply vec_get_inv in Hq as [Hc Hq]. assert (ports !! Z.to_nat c = Some (XBar.port q)) as Hl.
  { rewrite <-Hp, list_lookup_fmap. unfold ports_of. by rewrite Hq. }
  split; [by eapply list_elem_of_lookup_2|]. rewrite (wi_id _ _ wiring _ _ Hl). lia.
Qed.
End wired.

(** A crossbar that was constructed and initialised is wired. *)
Lemma new_wired P mem has_default peers sf line lat cap :
  init (new mem has_default peers sf) line lat cap = Ok (XBar.sfConfig (xp P)) →
  wired P (map XBar.port (ports_of (new mem has_default peers sf))).
Proof.
  intros Hi. split; [|by exists line, lat, cap].
  intros i p Hp. unfold ports_of, new in Hp. simpl in Hp. rewrite list_lookup_fmap, list_lookup_imap in Hp.
  destruct (peers !! i); [|done]. simpl in Hp. by injection Hp as <-.
Qed.

(** ** Refused requests *)

(** The layer will tell port [c] to try again. *)
Definition remembered (c : Z) (l : Layer.Layer) : Prop := c ∈ Layer.waitingForLayer l ∨ Layer.waitingForPeer l = Some c.

Lemma on_req_inv {A} m (f : M Layer.Layer A) x a x' :
  on_req m f x = Ok (a, x') → ∃ l l', f l = Ok (a, l') ∧ reqLayers x' !! Z.to_nat m = Some l'.
Proof.
  unfold on_req, on_layer. destruct (vec_get _ _) as [l|] eqn:Hl; [|done]. cbn [mbind res_bind].
  destruct (f l) as [[b l']|] eqn:Hf; [|done]. intros [= -> <-]. exists l, l'. split; [done|].
  apply vec_get_inv in Hl as [_ Hl]. simpl. apply list_lookup_insert_eq. by eapply lookup_lt_Some.
Qed.

Lemma tryTiming_remembers c l l' : Layer.tryTiming c l = Ok (false, l') → remembered c l'.
Proof.
  unfold Layer.tryTiming. intros H. step_M H. destruct (_ || _).
  - apply M_bind_inv in H as (u & l1 & Ha & H). apply (keeps_massert (λ x, x)) in Ha as ->. step_M H. injection H as <-.
    left. simpl. apply elem_of_app. right. by left.
  - step_M H. done.
Qed.

Lemma failedTiming_remembers now c t l u l' : Layer.failedTiming now c t l = Ok (u, l') → remembered c l'.
Proof.
  intros H. right. assert (keeps Layer.waitingForPeer (Layer.occupyLayer now t)) as Ho by (unfold Layer.occupyLayer; keeps_tac).
  unfold Layer.failedTiming in H. step_M H. apply M_bind_inv in H as (u1 & l1 & Ha & H). apply (keeps_massert (λ x, x)) in Ha as ->.
  step_M H. step_M H. apply M_bind_inv in H as (u2 & l2 & Ha & H). apply (keeps_massert (λ x, x)) in Ha as ->. by apply Ho in H.
Qed.

Lemma request_retry_table cfg k p f l f' :
  no_null f → request cfg k p true f = Ok (l, f') → SnoopFilter.cachedLocations f' = SnoopFilter.cachedLocations f.
Proof.
  intros Hn H. unfold request in H. apply M_bind_inv in H as ([l1 lat] & f1 & Hl & H).
  apply M_bind_inv in H as ([] & f2 & Hf & H). injection H as _ <-.
  destruct (retry_restores _ _ _ _ _ _ _ Hn Hl) as (f3 & Hf3 & E). congruence.
Qed.

(** C21. A refused request leaves no trace but the retry it will get.  When the
    crossbar does not take a request, because its layer is busy, the memory side
    refuses it, or a clean operation cannot be forwarded, then the routing tables,
    the ports and their queues and the table of the snoop filter are as before,
    the packet is the same request, with its header delay unless it is a clean
    operation, and the layer of its destination remembers the port to tell it to
    retry. *)
Theorem refused_request_leaves_no_trace P now snooped tryTiming sendTimingReq k c x k' x' :
  (∀ i k, same_request k (snooped i k)) → (∀ i k, same_request k (sendTimingReq i k).2) →
  (∀ f, filter_in x = Some f → no_null f) →
  recvTimingReq P now snooped tryTiming sendTimingReq k c x = Ok ((false, k'), x') →
  routes x' = routes x ∧ ports_of x' = ports_of x ∧
  SnoopFilter.cachedLocations <$> filter_in x' = SnoopFilter.cachedLocations <$> filter_in x ∧
  same_request k k' ∧ (isClean (cmd k) = false → XBar.headerDelay (base k') = XBar.headerDelay (base k)) ∧
  ∃ m d l, XBarDecode.findPort (defaultPortID P) (useDefaultRange P) (getAddrRange k) (decoder x) = Ok (m, d) ∧
    reqLayers x' !! Z.to_nat m = Some l ∧ remembered c l.
Proof.
  intros Hs1 Hs2 Hn H. apply recvTimingReq_inv in H as (src & m & x1 & _ & _ & Hm & Hh).
  assert (routes x1 = routes x ∧ above x1 = above x) as [R1 E1] by (split; revert Hm; by apply keeps_on_decoder).
  assert (∃ d, XBarDecode.findPort (defaultPortID P) (useDefaultRange P) (getAddrRange k) (decoder x) = Ok (m, d)) as [d Hd].
  { unfold on_decoder in Hm. destruct (XBarDecode.findPort _ _ _ _) as [[m' d]|]; [|done]. injection Hm as -> _. eauto. }
  inversion Hh as [y Hex Hy|k1 x4 y Hk1 (R4 & E4 & _) Hsn Hy|k1 k2 k3 dir x4 x5 x6 x7 t x8 y (R4 & E4 & _) Hsent Hex Ht Hy|]; subst k' y.
  - apply on_req_inv in Hy as Hl. destruct Hl as (l & l' & Hl & Hl'). apply tryTiming_remembers in Hl.
    pose proof (routes_on_req _ _ _ _ _ Hy) as R2. apply on_req_above in Hy. injection E1 as E1 E1'. injection Hy as Ey Ey'.
    split_and!; try done; [congruence|unfold ports_of; congruence|by rewrite Ey, E1|by exists m, d, l'].
  - pose proof (routes_request_snoops _ _ _ _ _ _ _ _ _ _ _ Hy) as R5.
    apply request_snoops_refused in Hy as (_ & Hclean & t & x5 & E5 & _ & Hy).
    apply on_req_inv in Hy as Hl. destruct Hl as (l & l' & Hl & Hl'). apply failedTiming_remembers in Hl.
    apply on_req_above in Hy. assert (above x' = above x) as [= E E'] by congruence.
    split_and!; try done; [congruence|by rewrite E| |by exists m, d, l'].
    intros Hc. destruct Hk1 as (_ & Ec & _). congruence.
  - pose proof (sent_routes _ _ _ _ _ _ _ _ _ _ _ _ _ _ _ _ _ _ Hsent) as R7.
    apply sent_inv in Hsent as (_ & Hk3 & P7 & l & fw & _ & _ & _ & Hf); [|done..].
    apply on_req_inv in Hy as Hl. destruct Hl as (l1 & l' & Hl & Hl'). apply failedTiming_remembers in Hl.
    pose proof (routes_on_req _ _ _ _ _ Hy) as R9. apply on_req_above in Hy.
    pose proof (routes_clockEdge _ _ _ _ _ _ Ht) as R8. apply clockEdge_above in Ht.
    assert (above x' = above x7) as [= E9 P9] by congruence. assert (above x4 = above x) as [= E4' P4] by congruence.
    split_and!; [congruence|unfold ports_of in *; congruence| |done|done|by exists m, d, l'].
    rewrite E9. destruct (snoops P k1); [|destruct Hf as [-> _]; by rewrite E4'].
    rewrite E4' in Hf. destruct (filter_in x) as [f|]; [|by destruct Hf as [-> _]].
    destruct Hf as (dests & f' & Hr & -> & _). simpl. f_equal. by eapply request_retry_table; [apply Hn|].
Qed.

(** ** Examples *)

(** The first PE reads a line for sharing and gets it; then the second asks for
    it exclusively.  The line is in the second memory channel. *)
Definition shared_read : Pkt := example_cpkt ReadSharedReq 64 1.
Definition exclusive_read : Pkt := example_cpkt ReadExReq 64 2.
Definition shared_1 : CXBar :=
  run_cxbar (recvTimingReq example_cparams 0 quiet willing accepting shared_read 0) example_cxbar.
Definition shared_2 : CXBar := run_cxbar (recvTimingResp example_cparams 20000 example_answer 1) shared_1.
Definition shared_3 : CXBar :=
  run_cxbar (releaseEvent example_cparams 21000 reqLayers set_reqLayers (λ _, mret tt) 1) shared_2.
Definition refusing (i : Z) (k : Pkt) : bool * Pkt := (false, k).
Definition refused_1 : CXBar :=
  run_cxbar (recvTimingReq example_cparams 0 quiet willing refusing shared_read 0) example_cxbar.

Lemma example_init : init example_new 64 1 65536 = Ok example_sf_config.
Proof. vm_compute. reflexivity. Qed.

Lemma run_cxbar_ok {A} (f : M CXBar A) x :
  match f x with Ok _ => True | Err _ => False end → ∃ a, f x = Ok (a, run_cxbar f x).
Proof. unfold run_cxbar. destruct (f x) as [[a x']|]; [by exists a|done]. Qed.

(** The memory refuses the read. *)
Lemma refused_request_leaves_no_trace_witness :
  ∃ x' k', recvTimingReq example_cparams 0 quiet willing refusing shared_read 0 example_cxbar = Ok ((false, k'), x') ∧
    ports_of x' = ports_of example_cxbar ∧ XBar.headerDelay (base k') = 0.
Proof.
  destruct (run_cxbar_ok (recvTimingReq example_cparams 0 quiet willing refusing shared_read 0) example_cxbar) as [[b k'] H];
    [vm_compute; exact I|].
  assert (b = false) as -> by (apply (f_equal (λ r, match r with Ok ((b, _), _) => b | Err _ => false end)) in H;
    vm_compute in H; symmetry; exact H).
  destruct (refused_request_leaves_no_trace example_cparams 0 quiet willing refusing shared_read 0 example_cxbar k' refused_1
    (λ i k, reflexivity k) (λ i k, reflexivity k)) with (2 := H) as (_ & Hp & _ & _ & Hh & _).
  - intros f Hf. injection Hf as <-. apply map_Forall_empty.
  - eexists _, k'. split; [exact H|]. split; [exact Hp|]. by rewrite Hh.
Defined.

(** A cache clean request that the memory side cannot take keeps the delay the
    crossbar has charged it, and is charged again when it is retried. *)
Definition unwilling (i : Z) (k : Pkt) : bool := false.
Lemma clean_refusal_keeps_delay :
  match recvTimingReq example_cparams 0 quiet unwilling accepting (example_cpkt CleanSharedReq 64 1) 0 example_cxbar with
  | Ok ((taken, k), _) => taken = false ∧ XBar.headerDelay (base k) = 3500
  | Err _ => False
  end.
Proof. vm_compute. done. Qed.
