(* ===== verification/CoherentXBarSystem.v ===== *)
(** * The coherent crossbar, its snoop filter and the caches above

    The crossbar together with what really goes on above it: the requests the
    caches have in flight and the copies they have, both kept apart from the
    filter and moved only by the packets the crossbar takes and queues for its
    ports.  In every state this system reaches the filter has marked all of them;
    so a request is handed to the memory side only after every other cache with a
    copy of the line, or about to get one, was snooped. *)
From stdpp Require Import base tactics list gmap strings relations sets.
From Stdlib Require Import ZArith Lia.
From S2P Require Import Prelude XBarDecodeProps MemCmd Clocked PacketQueue SnoopFilter SnoopFilterProps SnoopFilterSpec XBar AddrRange XBarDecode CoherentXBar CoherentXBarProps CoherentXBarSnoop.
Import CoherentXBar.
Local Open Scope Z_scope.

(** ** What the handlers tell the filter *)

(** The packet the crossbar answers when it has taken a request itself: the
    packet, or the cache clean request a write had to wait for. *)
Definition answer_of (x : CXBar) (k : Pkt) : option Pkt :=
  if isWrite (cmd k) then mjoin (outstandingCMO x !! XBar.pk_id (base k)) else Some k.

Lemma clean_no_write c : isClean c = true → isWrite c = false.
Proof. by destruct c. Qed.

Section filter.
Context (P : Params) (now : Z).
Notation cfg := (XBar.sfConfig (xp P)).
Hypothesis caches : XBar.bypassCaches (xp P) = false.

Lemma tell_inv k p x u x' f :
  filter_in x = Some f → on_xbar (XBar.tell_filter (xp P) k p) x = Ok (u, x') →
  ∃ f', SnoopFilter.updateResponse cfg (XBar.sf k) p f = Ok (tt, f') ∧ filter_in x' = Some f' ∧ ports_of x' = ports_of x.
Proof using caches.
  intros Hf. unfold on_xbar, XBar.tell_filter. rewrite Hf, caches. destruct (SnoopFilter.updateResponse _ _ _ _) as [[[] f']|]; [|done].
  cbn [mbind res_bind]. intros [= _ <-]. by exists f'.
Qed.

Lemma sched_delivers b t (k : Pkt) i x u x' :
  XBar.queued b = XBar.queued (base k) → on_xbar (XBar.schedTimingResp now (Z.to_nat i) b t) x = Ok (u, x') →
  filter_in x' = filter_in x ∧ delivered k i x x'.
Proof.
  intros Eq. unfold on_xbar, XBar.schedTimingResp, delivered, ports_of. destruct (XBar.cpuSidePorts (xbar x) !! Z.to_nat i) as [p|]; [|done].
  cbn [of_option mbind res_bind]. destruct (PacketQueue.schedSendTiming _ _ _ _) as [[u1 q']|] eqn:Hq; [|done].
  cbn [mbind res_bind]. intros [= _ <-]. split; [done|]. exists p, q', t. split; [done|]. split; [done|].
  apply schedSendTiming_perm in Hq. by rewrite <-Eq.
Qed.

Lemma delivered_from k i x y x' : ports_of y = ports_of x → delivered k i y x' → delivered k i x x'.
Proof. unfold delivered. by intros ->. Qed.
Lemma delivered_to k i x y x' : ports_of x' = ports_of y → delivered k i x y → delivered k i x x'.
Proof. unfold delivered. by intros ->. Qed.

Lemma cpu_port_ports i x y p : ports_of y = ports_of x → cpu_port i y = Ok (p, y) → cpu_port i x = Ok (p, x).
Proof. unfold cpu_port, ports_of. intros ->. destruct (vec_get _ _); [|done]. by intros [= <-]. Qed.

Lemma respond_inv k r0 i x u x' f :
  filter_in x = Some f → respond P now k r0 i x = Ok (u, x') →
  ∃ r p f', makeResponse r0 = Ok r ∧ cpu_port i x = Ok (p, x) ∧
    SnoopFilter.updateResponse cfg (XBar.sf (base r)) p f = Ok (tt, f') ∧ filter_in x' = Some f' ∧ delivered r i x x'.
Proof using caches.
  intros Hf H. unfold respond in H. apply M_bind_inv in H as (r & y & Hr & H). pose proof Hr as E. apply (keeps_lift (λ x, x)) in E as ->.
  apply M_bind_inv in H as (p & y & Hp & H). pose proof Hp as E. apply (keeps_cpu_port (λ x, x)) in E as ->.
  apply M_bind_inv in H as (u1 & x1 & Ht & H). destruct (tell_inv _ _ _ _ _ _ Hf Ht) as (f' & Hu & Hf1 & Hp1).
  apply M_bind_inv in H as (t & x2 & He & H). apply clockEdge_above in He. injection He as Hf2 Hp2.
  apply (sched_delivers _ _ r) in H as [Hf3 Hd]; [|done]. exists r, p, f'. split_and!; [|done|done|congruence|].
  - unfold lift in Hr. destruct (makeResponse r0); [|done]. by injection Hr as ->.
  - eapply delivered_from; [|exact Hd]. unfold ports_of in *. congruence.
Qed.

(** ** Responses *)

Lemma recvTimingResp_told k m x b x' f :
  filter_in x = Some f → recvTimingResp P now k m x = Ok (b, x') →
  if b then ∃ i p f', cpu_port i x = Ok (p, x) ∧ SnoopFilter.updateResponse cfg (XBar.sf (base k)) p f = Ok (tt, f') ∧
    filter_in x' = Some f' ∧ delivered k i x x'
  else above x' = above x.
Proof using caches.
  intros Hf H. unfold recvTimingResp in H. step_M H. apply M_bind_inv in H as (i & y & Hi & H). apply (keeps_lift (λ x, x)) in Hi as ->.
  apply M_bind_inv in H as (u1 & y & Ha & H). apply (keeps_massert (λ x, x)) in Ha as ->.
  apply M_bind_inv in H as (u2 & y & Ha & H). apply (keeps_massert (λ x, x)) in Ha as ->.
  apply M_bind_inv in H as (free & x1 & Hl & H). assert (above x1 = above x) as E1 by (revert Hl; by apply keeps_on_layer).
  destruct free; cbn [negb] in H; [|by injection H as <- <-].
  apply M_bind_inv in H as (k1 & x2 & Hk & H). destruct (calc_packet _ _ _ _ _ _ _ Hk) as [Es Eid].
  assert (above x2 = above x1) as E2 by (revert Hk; apply keeps_calc; intros y v E E'; unfold above; simpl; by rewrite E, E').
  apply M_bind_inv in H as (e & x3 & He & H). apply clockEdge_above in He as E3.
  apply M_bind_inv in H as (p & y & Hp & H). pose proof Hp as E. apply (keeps_cpu_port (λ x, x)) in E as ->.
  assert (above x3 = above x) as [= Ef3 Ep3] by congruence.
  apply M_bind_inv in H as (u5 & x5 & Ht & H). rewrite Hf in Ef3. destruct (tell_inv _ _ _ _ _ _ Ef3 Ht) as (f' & Hu & Hf5 & Hp5).
  rewrite Es in Hu. apply M_bind_inv in H as (u6 & x6 & Hs & H). apply (sched_delivers _ _ k) in Hs as [Hf6 Hd].
  2:{ unfold XBar.queued. simpl. by rewrite Es, Eid. }
  unfold forget_route in H. step_M H. apply M_bind_inv in H as (u7 & x7 & Hl7 & H). injection H as <- <-.
  assert (above x7 = above (set_routeTo (delete (req k1) (routeTo x6)) x6)) as [= Ef7 Ep7] by (revert Hl7; by apply keeps_on_layer).
  simpl in Ef7, Ep7.
  exists i, p, f'. split_and!; [by eapply cpu_port_ports|done|congruence|].
  eapply delivered_to; [exact Ep7|]. eapply delivered_from; [|exact Hd]. unfold ports_of in *. congruence.
Qed.

Lemma recvTimingSnoopResp_told sendTimingSnoopResp k c x b x' f :
  filter_in x = Some f → XBar.broadcastToOther (base k) = false →
  recvTimingSnoopResp P now sendTimingSnoopResp k c x = Ok (b, x') →
  if b then
    (∃ f', SnoopFilter.updateSnoopForward cfg (XBar.sf (base k)) f = Ok (tt, f') ∧ filter_in x' = Some f' ∧ ports_of x' = ports_of x) ∨
    (∃ i src dest f', cpu_port i x = Ok (dest, x) ∧
       SnoopFilter.updateSnoopResponse cfg (XBar.sf (base k)) src dest f = Ok (tt, f') ∧ filter_in x' = Some f' ∧ delivered k i x x')
  else above x' = above x.
Proof.
  intros Hf Hb H. unfold recvTimingSnoopResp in H. rewrite Hb in H. step_M H.
  apply M_bind_inv in H as (i & y & Hi & H). apply (keeps_lift (λ x, x)) in Hi as ->.
  apply M_bind_inv in H as (u1 & y & Ha & H). apply (keeps_massert (λ x, x)) in Ha as ->.
  apply M_bind_inv in H as (free & x1 & Hl & H).
  assert (above x1 = above x) as E1 by (revert Hl; destruct (bool_decide _); keeps_tac).
  destruct free; cbn [negb] in H; [|by injection H as <- <-].
  apply M_bind_inv in H as (u2 & y & Ha & H). apply (keeps_massert (λ x, x)) in Ha as ->.
  apply M_bind_inv in H as (k1 & x2 & Hk & H). destruct (calc_packet _ _ _ _ _ _ _ Hk) as [Es Eid].
  assert (above x2 = above x1) as E2 by (revert Hk; apply keeps_calc; intros y v E E'; unfold above; simpl; by rewrite E, E').
  apply M_bind_inv in H as (e & x3 & He & H). apply clockEdge_above in He as E3.
  assert (above x3 = above x) as [= Ef3 Ep3] by congruence. rewrite Hf in Ef3.
  apply M_bind_inv in H as (u4 & x4 & Hfw & H). unfold forget_route in H. step_M H. injection H as <- <-.
  destruct (bool_decide _); [left|right].
  - apply M_bind_inv in Hfw as ([] & x5 & Hu & Hfw). apply on_filter_inv in Hu as (Hp5 & _ & Hu). rewrite Ef3 in Hu.
    destruct Hu as (f' & Hu & Hf5). rewrite Es in Hu. step_M Hfw. apply M_bind_inv in Hfw as (u6 & y & Ha & Hfw).
    apply (keeps_massert (λ x, x)) in Ha as ->.
    assert (above x4 = above (emit (SnoopRespTo i k1) x5)) as [= Ef4 Ep4] by (revert Hfw; by apply keeps_on_layer). simpl in *.
    exists f'. split_and!; [done|congruence|unfold ports_of in *; simpl; congruence].
  - step_M Hfw. apply M_bind_inv in Hfw as (u6 & y & Ha & Hfw). apply (keeps_massert (λ x, x)) in Ha as ->.
    apply M_bind_inv in Hfw as (src & y & Hp & Hfw). apply (keeps_cpu_port (λ x, x)) in Hp as ->.
    apply M_bind_inv in Hfw as (dest & y & Hp & Hfw). pose proof Hp as E. apply (keeps_cpu_port (λ x, x)) in E as ->.
    apply M_bind_inv in Hfw as ([] & x5 & Hu & Hfw). apply on_filter_inv in Hu as (Hp5 & _ & Hu). simpl in Hu. rewrite Ef3 in Hu.
    destruct Hu as (f' & Hu & Hf5). rewrite Es in Hu.
    apply M_bind_inv in Hfw as (u7 & x7 & Hs & Hfw). apply (sched_delivers _ _ k) in Hs as [Hf7 Hd].
    2:{ unfold XBar.queued. simpl. by rewrite Es, Eid. }
    assert (above x4 = above x7) as [= Ef4 Ep4] by (revert Hfw; by apply keeps_on_layer).
    exists i, src, dest, f'. split_and!; [|done|simpl; congruence|].
    + eapply cpu_port_ports; [|exact Hp]. done.
    + eapply delivered_to; [exact Ep4|]. eapply delivered_from; [|exact Hd]. unfold ports_of in *. simpl in *. congruence.
Qed.

(** ** Requests and snoops *)

Section requests.
Context (snooped : Z → Pkt → Pkt) (tryTiming : Z → Pkt → bool) (sendTimingReq : Z → Pkt → bool * Pkt).
Hypothesis snooped_same : ∀ i k, same_request k (snooped i k).
Hypothesis sent_same : ∀ i k, same_request k (sendTimingReq i k).2.

Lemma record_cmo (d : bool) k c m e1 e2 t x u x' :
  when d (record_request P now k c m e1 e2 t) x = Ok (u, x') → outstandingCMO x' = outstandingCMO x.
Proof. apply keeps_when. intros _. unfold record_request, remember_route, check_routes, on_req. keeps_tac. Qed.

(** The packet a taken request is answered with. *)
Lemma target_answer k c dir (fin : bool) x r i x' :
  (dir = true → isWrite (cmd k) = false) →
  (if fin then finish_clean P k c else mret (if dir then Some (k, c) else None)) x = Ok (Some (r, i), x') →
  answer_of x k = Some r.
Proof.
  intros Hdir H. unfold answer_of. destruct fin.
  - unfold finish_clean in H. step_M H. destruct (outstandingCMO x !! XBar.pk_id (base k)) as [d|] eqn:E.
    + apply M_bind_inv in H as (rr & y & Hr & H). step_M H. injection H as -> _. destruct (isWrite (cmd k)).
      * apply M_bind_inv in Hr as (rsp & y1 & Hd & Hr). unfold lift in Hd. destruct d as [d|]; [|done]. injection Hd as -> <-.
        apply M_bind_inv in Hr as (port & y2 & Hd & Hr). apply (keeps_lift (λ x, x)) in Hd as ->.
        apply M_bind_inv in Hr as (u1 & y2 & Ha & Hr). apply (keeps_massert (λ x, x)) in Ha as ->.
        apply M_bind_inv in Hr as (u2 & y2 & Ha & Hr). apply (keeps_massert (λ x, x)) in Ha as ->. step_M Hr. by injection Hr as -> _ _.
      * by injection Hr as -> _ _.
    + step_M H. apply M_bind_inv in H as (u & y & _ & H). done.
  - destruct dir; [|done]. injection H as <- _ _. by rewrite Hdir.
Qed.

Lemma send_request_answers k m d e x b k' x' :
  send_request P sendTimingReq k m d e x = Ok ((b, k', true), x') → isWrite (cmd k') = false.
Proof.
  unfold send_request. intros (s & x1 & _ & H)%M_bind_inv. destruct s; [by injection H|]. destruct (forwardPacket P k) eqn:Hf.
  - step_M H. destruct (sendTimingReq _ _). by injection H.
  - apply M_bind_inv in H as (u1 & y & _ & H). apply M_bind_inv in H as (u2 & y2 & _ & H). injection H as _ <- _.
    unfold forwardPacket in Hf. destruct (isClean (cmd k)) eqn:Hc; [by apply clean_no_write|].
    by apply orb_false_iff in Hf as [[_ ?]%orb_false_iff _].
Qed.

Lemma request_told k c x b k' x' f :
  filter_in x = Some f → recvTimingReq P now snooped tryTiming sendTimingReq k c x = Ok ((b, k'), x') →
  ∃ src f1, cpu_port c x = Ok (src, x) ∧
    (if bool_decide (cmd k = WriteClean) then f1 = f
     else b = false ∧ f1 = f ∨ ∃ dests, request cfg (XBar.sf (base k)) src (negb b) f = Ok (dests, f1)) ∧
    (filter_in x' = Some f1 ∧ ports_of x' = ports_of x ∨
     b = true ∧ ∃ r0 r i p f2, answer_of x k' = Some r0 ∧ makeResponse r0 = Ok r ∧ cpu_port i x = Ok (p, x) ∧
       SnoopFilter.updateResponse cfg (XBar.sf (base r)) p f1 = Ok (tt, f2) ∧ filter_in x' = Some f2 ∧ delivered r i x x').
Proof using caches snooped_same sent_same.
  intros Hf H. apply recvTimingReq_inv in H as (src & m & x1 & Hsrc & _ & Hm & Hh). exists src.
  assert (above x1 = above x ∧ routes x1 = routes x) as [E1 R1] by (split; revert Hm; by apply keeps_on_decoder).
  assert (∀ y, above y = above x → filter_in y = Some f ∧ ports_of y = ports_of x) as Hsame.
  { intros y [= E E']. split; [congruence|done]. }
  assert (∀ y, b = false → above y = above x →
    (if bool_decide (cmd k = WriteClean) then f = f
     else b = false ∧ f = f ∨ ∃ dests, request cfg (XBar.sf (base k)) src (negb b) f = Ok (dests, f)) ∧
    (filter_in y = Some f ∧ ports_of y = ports_of x ∨ b = true ∧ ∃ r0 r i p f2, answer_of x k' = Some r0 ∧ makeResponse r0 = Ok r ∧
       cpu_port i x = Ok (p, x) ∧ SnoopFilter.updateResponse cfg (XBar.sf (base r)) p f = Ok (tt, f2) ∧
       filter_in y = Some f2 ∧ delivered r i x y)) as Hquiet.
  { intros y Hb E. split; [destruct (bool_decide _); [done|by left]|]. left. by apply Hsame. }
  destruct Hh as [y _ Hy|k1 x4 y _ (_ & E4 & _) _ Hy|k1 k2 k3 dir x4 x5 x6 x7 t x8 y (_ & E4 & _) Hs _ Ht Hy
    |k1 k2 k3 dir fin x4 x5 x6 x7 x8 target x9 y (R4 & E4 & _) Hs Hrec Hcl Hresp].
  - exists f. split; [done|]. apply Hquiet; [done|]. rewrite <-E1. revert Hy. apply on_req_above.
  - exists f. split; [done|]. apply Hquiet; [done|]. apply request_snoops_refused in Hy as (_ & _ & t & x5 & E5 & _ & Hy).
    apply on_req_above in Hy. congruence.
  - pose proof (sent_packet _ _ _ _ _ _ _ _ _ _ _ _ _ _ _ _ _ _ Hs) as [Es _].
    pose proof (sent_timed _ _ _ _ _ _ _ _ _ _ _ _ _ _ _ _ _ _ Hs) as (_ & Ec & _).
    apply sent_inv in Hs as (_ & _ & P7 & l & fw & _ & _ & _ & Hfil); [|done..].
    destruct (Hsame x4) as [Hf4 Hp4]; [congruence|]. rewrite Hf4, Es in Hfil.
    apply clockEdge_above in Ht. apply on_req_above in Hy. assert (above y = above x7) as [= Ef Ep] by congruence.
    unfold snoops in Hfil. rewrite caches, Ec in Hfil. cbn [negb andb] in Hfil.
    destruct (bool_decide (cmd k = WriteClean)); cbn [negb] in Hfil.
    + exists f. split; [done|]. split; [done|]. left. destruct Hfil as [Hfil _]. split; [congruence|]. unfold ports_of in *. congruence.
    + destruct Hfil as (dests & f1 & Hreq & Hf1 & _). exists f1. split; [done|]. split; [right; by exists dests|].
      left. split; [congruence|]. unfold ports_of in *. congruence.
  - pose proof (sent_packet _ _ _ _ _ _ _ _ _ _ _ _ _ _ _ _ _ _ Hs) as [Es _].
    pose proof (sent_timed _ _ _ _ _ _ _ _ _ _ _ _ _ _ _ _ _ _ Hs) as (_ & Ec & _).
    pose proof (sent_routes _ _ _ _ _ _ _ _ _ _ _ _ _ _ _ _ _ _ Hs) as R7.
    assert (dir = true → isWrite (cmd k3) = false) as Hdir.
    { intros ->. destruct Hs as [_ _ Hsend _ _]. by apply send_request_answers in Hsend. }
    apply sent_inv in Hs as (_ & _ & P7 & l & fw & _ & _ & _ & Hfil); [|done..].
    destruct (Hsame x4) as [Hf4 Hp4]; [congruence|]. rewrite Hf4, Es in Hfil.
    unfold snoops in Hfil. rewrite caches, Ec in Hfil. cbn [negb andb] in Hfil.
    assert (∃ f1, filter_in x7 = Some f1 ∧ (if bool_decide (cmd k = WriteClean) then f1 = f
      else true = false ∧ f1 = f ∨ ∃ dests, request cfg (XBar.sf (base k)) src false f = Ok (dests, f1))) as (f1 & Hf7 & Hreq).
    { destruct (bool_decide (cmd k = WriteClean)); cbn [negb] in Hfil.
      - exists f. destruct Hfil as [Hfil _]. split; [congruence|done].
      - destruct Hfil as (dests & f1 & Hreq & Hf1 & _). exists f1. split; [done|]. right. by exists dests. }
    exists f1. split; [done|]. split; [exact Hreq|].
    destruct (recorded_xbar P now _ _ _ _ _ _ _ _ _ _ _ _ _ Hrec Hcl) as [E9 _].
    assert (ports_of x9 = ports_of x) as Hp9 by (unfold ports_of in *; congruence).
    destruct target as [[r0 i]|]; [right|left; injection Hresp as <-; split; [congruence|done]].
    split; [done|]. assert (outstandingCMO x8 = outstandingCMO x) as Ecmo.
    { apply record_cmo in Hrec. rewrite Hrec. assert (routes x7 = routes x) as E by congruence. by injection E. }
    apply target_answer in Hcl; [|done]. unfold answer_of in Hcl. rewrite Ecmo in Hcl.
    assert (filter_in x9 = Some f1) as Hf9 by congruence. apply (respond_inv _ _ _ _ _ _ _ Hf9) in Hresp as (r & p & f2 & Hr & Hp & Hu & Hf2 & Hd).
    exists r0, r, i, p, f2. split_and!; try done; [by eapply cpu_port_ports|by eapply delivered_from].
Qed.

Lemma snoop_told k m x u x' f :
  filter_in x = Some f → recvTimingSnoopReq P now snooped k m x = Ok (u, x') →
  ∃ dests lat f' l, SnoopFilter.lookupSnoop cfg (XBar.sf (base k)) f = Ok ((dests, lat), f') ∧ filter_in x' = Some f' ∧
    ports_of x' = ports_of x ∧ outputs x' = outputs x ++ l ∧ snooped_to k XBarDecode.InvalidPortID dests l.
Proof using snooped_same.
  intros Hf H. unfold recvTimingSnoopReq in H. apply M_bind_inv in H as (u1 & y & Ha & H). apply (keeps_massert (λ x, x)) in Ha as ->.
  apply M_bind_inv in H as (k1 & x1 & Hk & H). destruct (calc_packet _ _ _ _ _ _ _ Hk) as [Es _].
  pose proof (calc_same _ _ _ _ _ _ _ Hk) as Hk1.
  assert (above x1 = above x) as [= Ef1 Ep1] by (revert Hk; apply keeps_calc; intros y v E E'; unfold above; simpl; by rewrite E, E').
  assert (outputs x1 = outputs x) as Eo1 by (revert Hk; by apply keeps_calc).
  apply M_bind_inv in H as (u2 & y & Ha & H). apply (keeps_massert (λ x, x)) in Ha as ->.
  apply M_bind_inv in H as (k2 & x2 & Hs & H). apply snoop_above_inv in Hs as (Hp2 & l & Ho2 & Hs); [|done].
  rewrite Ef1, Hf, Es in Hs. destruct Hs as (dests & lat & f' & Hl & Hf2 & Hto).
  apply M_bind_inv in H as (u3 & x3 & Hr & H).
  assert (above x3 = above x2 ∧ outputs x3 = outputs x2) as [[= Ef3 Ep3] Eo3].
  { split; revert Hr; apply keeps_when; intros _; unfold remember_route; keeps_tac. }
  apply M_bind_inv in H as (port & x4 & Hd & H). apply (keeps_massert (λ x, x)) in H as ->.
  assert (above x4 = above x3 ∧ outputs x4 = outputs x3) as [[= Ef4 Ep4] Eo4] by (split; revert Hd; by apply keeps_on_decoder).
  exists dests, lat, f', l. split_and!; [done|congruence|unfold ports_of in *; congruence|congruence|by eapply snooped_to_same].
Qed.
End requests.
End filter.

(** ** Broadcasts *)

Definition queue_length (p : XBar.CPUSidePort) : nat := length (PacketQueue.transmitList (XBar.respQueue p)).

Section broadcast.
Context (P : XBar.Params) (now : Z).
Hypothesis caches : XBar.bypassCaches P = false.

(** One turn of the loop: nothing, or port [j] is told and gets the packet. *)
Lemma broadcast_turn pkt latency src n j v u v' f :
  XBar.snoopFilter v = Some f → XBar.broadcast_loop P now pkt latency src (S n) j v = Ok (u, v') →
  ∃ v1 f1, XBar.broadcast_loop P now pkt latency src n (S j) v1 = Ok (u, v') ∧ XBar.snoopFilter v1 = Some f1 ∧
    (f1 = f ∧ XBar.cpuSidePorts v1 = XBar.cpuSidePorts v ∨
     ∃ p q', XBar.cpuSidePorts v !! j = Some p ∧ SnoopFilter.updateResponse (XBar.sfConfig P) (XBar.sf pkt) (XBar.port p) f = Ok (tt, f1) ∧
       XBar.cpuSidePorts v1 = <[j := XBar.mkCPUSidePort (XBar.port p) (XBar.peer_name p) q']> (XBar.cpuSidePorts v) ∧
       (length (PacketQueue.transmitList q') = S (queue_length p))%nat).
Proof using caches.
  intros Hf H. cbn [XBar.broadcast_loop] in H. apply M_bind_inv in H as (u1 & v1 & Hone & H). exists v1.
  destruct (_ =? _); [injection Hone as _ <-; exists f; split_and!; auto|].
  apply M_bind_inv in Hone as (p & y & Hp & Hone). unfold lift in Hp. destruct (XBar.cpuSidePorts v !! j) as [p'|] eqn:Hj; [|done].
  injection Hp as -> <-. destruct (XBar.takes_broadcast _); cbn [when] in Hone; [|injection Hone as _ <-; exists f; split_and!; auto].
  apply M_bind_inv in Hone as (u2 & v2 & Ht & Hone). unfold XBar.tell_filter in Ht. rewrite Hf, caches in Ht.
  destruct (SnoopFilter.updateResponse _ _ _ _) as [[[] f1]|] eqn:Hu; [|done]. cbn [mbind res_bind] in Ht. injection Ht as _ <-.
  unfold XBar.schedTimingResp in Hone. simpl in Hone. rewrite Hj in Hone. cbn [of_option mbind res_bind] in Hone.
  destruct (PacketQueue.schedSendTiming _ _ _ _) as [[u3 q']|] eqn:Hq; [|done]. cbn [mbind res_bind] in Hone. injection Hone as _ <-.
  exists f1. split; [done|]. split; [done|]. right. exists p, q'. split_and!; [done|done|done|].
  apply schedSendTiming_perm in Hq. by rewrite Hq.
Qed.

Lemma broadcast_frame pkt latency src n : ∀ j v u v' f,
  XBar.snoopFilter v = Some f → XBar.broadcast_loop P now pkt latency src n j v = Ok (u, v') →
  (∃ f', XBar.snoopFilter v' = Some f') ∧ map XBar.port (XBar.cpuSidePorts v') = map XBar.port (XBar.cpuSidePorts v) ∧
  ∀ i, (i < j)%nat → XBar.cpuSidePorts v' !! i = XBar.cpuSidePorts v !! i.
Proof using caches.
  induction n as [|n IH]; intros j v u v' f Hf H; [injection H as _ <-; eauto|].
  destruct (broadcast_turn _ _ _ _ _ _ _ _ _ Hf H) as (v1 & f1 & H1 & Hf1 & Hv).
  destruct (IH _ _ _ _ _ Hf1 H1) as (He & Hm & Hi). split; [done|]. destruct Hv as [[_ E]|(p & q' & Hp & _ & E & _)].
  - rewrite E in Hm, Hi. split; [done|]. intros i ?. apply Hi. lia.
  - split.
    + rewrite Hm, E. rewrite list_fmap_insert. apply list_insert_id. by rewrite list_lookup_fmap, Hp.
    + intros i ?. rewrite Hi, E, list_lookup_insert_ne by lia. done.
Qed.

(** A property of the filter that survives what every port that gets a packet
    is told. *)
Lemma broadcast_keeps (Q : SnoopFilter.Filter → Prop) pkt latency src n : ∀ j v u v' f,
  XBar.snoopFilter v = Some f → XBar.broadcast_loop P now pkt latency src n j v = Ok (u, v') → Q f →
  (∀ i p p' g g', XBar.cpuSidePorts v !! i = Some p → XBar.cpuSidePorts v' !! i = Some p' → queue_length p ≠ queue_length p' →
     Q g → SnoopFilter.updateResponse (XBar.sfConfig P) (XBar.sf pkt) (XBar.port p) g = Ok (tt, g') → Q g') →
  ∃ f', XBar.snoopFilter v' = Some f' ∧ Q f'.
Proof using caches.
  induction n as [|n IH]; intros j v u v' f Hf H HQ Hstep; [injection H as _ <-; eauto|].
  destruct (broadcast_turn _ _ _ _ _ _ _ _ _ Hf H) as (v1 & f1 & H1 & Hf1 & [[-> E]|(p & q' & Hp & Hu & E & Hq)]).
  { eapply IH; [exact Hf1|exact H1|done|]. rewrite E. exact Hstep. }
  destruct (broadcast_frame _ _ _ _ _ _ _ _ _ Hf1 H1) as (_ & _ & Hi).
  assert (XBar.cpuSidePorts v' !! j = Some (XBar.mkCPUSidePort (XBar.port p) (XBar.peer_name p) q')) as Hj.
  { rewrite Hi, E by lia. apply list_lookup_insert_eq. by eapply lookup_lt_Some. }
  eapply IH; [exact Hf1|exact H1| |].
  - eapply Hstep; [exact Hp|exact Hj| |exact HQ|exact Hu]. unfold queue_length at 2. simpl. rewrite Hq. lia.
  - intros i r r' g g' Hr Hr' Hlen Hg Hug. rewrite E in Hr. destruct (decide (i = j)) as [->|Hne].
    + rewrite list_lookup_insert_eq in Hr by (by eapply lookup_lt_Some). assert (r' = r) as -> by congruence. done.
    + rewrite list_lookup_insert_ne in Hr by done. by eapply Hstep.
Qed.
End broadcast.

Lemma broadcast_told P now send k c x b x' f (Q : SnoopFilter.Filter → Prop) :
  XBar.bypassCaches (xp P) = false → filter_in x = Some f → XBar.broadcastToOther (base k) = true →
  recvTimingSnoopResp P now send k c x = Ok (b, x') → Q f →
  (∀ i p p' g g', ports_of x !! i = Some p → ports_of x' !! i = Some p' → queue_length p ≠ queue_length p' →
     Q g → SnoopFilter.updateResponse (XBar.sfConfig (xp P)) (XBar.sf (base k)) (XBar.port p) g = Ok (tt, g') → Q g') →
  map XBar.port (ports_of x') = map XBar.port (ports_of x) ∧ ∃ f', filter_in x' = Some f' ∧ Q f'.
Proof.
  intros Hby Hf Hb H HQ Hstep. unfold recvTimingSnoopResp in H. rewrite Hb in H. apply M_bind_inv in H as (u & x1 & H & H').
  injection H' as _ <-. unfold on_xbar in H. destruct (XBar.handleBroadcastToOthers _ _ _ _ _) as [[u' v]|] eqn:E; [|done].
  injection H as _ <-. simpl. unfold XBar.handleBroadcastToOthers in E. apply M_bind_inv in E as (u1 & y & Ha & E).
  apply (keeps_massert (λ x, x)) in Ha as ->. apply M_bind_inv in E as (k1 & v1 & Hk & E).
  apply calcPacketTiming_above in Hk as (Ef & Ep & hd & pd & ->). step_M E. unfold ports_of in Hstep. simpl in Hstep.
  assert (XBar.snoopFilter v1 = Some f) as Hf1 by congruence.
  destruct (broadcast_frame _ _ Hby _ _ _ _ _ _ _ _ _ Hf1 E) as (_ & Hm & _). rewrite Ep in Hm. split; [done|].
  eapply broadcast_keeps; [exact Hby|exact Hf1|exact E|exact HQ|]. simpl. rewrite Ep. exact Hstep.
Qed.

(** ** Who got a packet *)

Lemma delivered_length k i x x' : delivered k i x x' →
  ∃ p p', ports_of x !! Z.to_nat i = Some p ∧ ports_of x' !! Z.to_nat i = Some p' ∧ queue_length p' = S (queue_length p).
Proof.
  intros (p & q' & t & Hp & E & Hq). eexists p, _. split; [done|]. split.
  - rewrite E. apply list_lookup_insert_eq. by eapply lookup_lt_Some.
  - unfold queue_length. simpl. by rewrite Hq.
Qed.

Lemma delivered_changes k i x x' : delivered k i x x' → ports_of x' ≠ ports_of x.
Proof. intros (p & p' & Hp & Hp' & Hl)%delivered_length E. rewrite E in Hp'. assert (p' = p) as -> by congruence. lia. Qed.

Lemma delivered_once k k' i j x x' : 0 ≤ i → 0 ≤ j → delivered k i x x' → delivered k' j x x' → i = j.
Proof.
  intros Hi Hj (p & p' & Hp & Hp' & Hl)%delivered_length (r & q' & t & _ & E & _). destruct (decide (i = j)) as [|Hne]; [done|].
  rewrite E, list_lookup_insert_ne in Hp' by lia. assert (p' = p) as -> by congruence. lia.
Qed.

Lemma delivered_ports k i x x' : delivered k i x x' → map XBar.port (ports_of x') = map XBar.port (ports_of x).
Proof.
  intros (p & q' & t & Hp & -> & _). rewrite list_fmap_insert. apply list_insert_id. by rewrite list_lookup_fmap, Hp.
Qed.

(** ** The system *)

(** The requests in flight: for the identity of the packet, the port that sent it
    and the line it is for.  And the copies: for a line, the ports whose cache has
    one. *)
Notation InFlight := (gmap Z (Z * Z)).
Notation Copies := (Z → Z → Prop).
Record System := mkSystem { crossbar : CXBar; in_flight : InFlight; cached : Copies }.

Section system.
Context (P : Params).
Notation cfg := (XBar.sfConfig (xp P)).

Definition line (k : Pkt) : Z := SnoopFilter.line_addr cfg (XBar.sf (base k)).

(** A cache asks for a line with a cacheable request from a snooping port that
    wants a response and that no cache above answers. *)
Definition sends (src : SnoopFilter.Port) (k : Pkt) (c : Z) (w : InFlight) : InFlight :=
  if tracked (XBar.sf (base k)) src && asks (XBar.sf (base k)) then <[XBar.pk_id (base k) := (c, line k)]> w else w.

(** It gives its copy up when it evicts the block, unless the cache says that
    others above it still have it. *)
Definition evicted (src : SnoopFilter.Port) (k : Pkt) (c : Z) (cp : Copies) : Copies := λ a j,
  cp a j ∧ ¬ ((tracked (XBar.sf (base k)) src = true ∧ gives_up (XBar.sf (base k)) = true ∧ cmd k ≠ WriteClean) ∧ a = line k ∧ j = c).

(** A snoop response without sharers hands over the only copy. *)
Definition shared (k : Pkt) (cp : Copies) : Copies := λ a j,
  cp a j ∧ (a = line k → SnoopFilter.pk_hasSharers (XBar.sf (base k)) = true).

Definition uncacheable (k : Pkt) : bool := SnoopFilter.pk_uncacheable (XBar.sf (base k)).
Definition maintenance (k : Pkt) : bool := SnoopFilter.pk_maintenance (XBar.sf (base k)).

(** The response [r], queued for port [i], answers the port's request; or the
    port does not wait for the line. *)
Definition answers (w : InFlight) (r : Pkt) (i : Z) : Prop := w !! XBar.pk_id (base r) = Some (i, line r).
Definition unawaited (w : InFlight) (r : Pkt) (i : Z) : Prop := uncacheable r = true ∨ ∀ n, w !! n ≠ Some (i, line r).

(** The cache gets a copy with the answer to its request, unless that was a
    maintenance operation; after an invalidating one it has none. *)
Definition cleaned (r : Pkt) (i : Z) (cp : Copies) : Copies := λ a j,
  cp a j ∧ ¬ ((maintenance r = true ∧ isInvalidate (cmd r) = true) ∧ a = line r ∧ j = i).
Definition received (r : Pkt) (i : Z) (w w' : InFlight) (cp cp' : Copies) : Prop :=
  (answers w r i ∧ w' = delete (XBar.pk_id (base r)) w ∧
     ∀ a j, cp' a j → cleaned r i cp a j ∨ uncacheable r = false ∧ maintenance r = false ∧ a = line r ∧ j = i) ∨
  (¬ answers w r i ∧ unawaited w r i ∧ w' = w ∧ ∀ a j, cp' a j → cleaned r i cp a j).

Definition drops (cp cp' : Copies) : Prop := ∀ a j, cp' a j → cp a j.

(** The crossbar handles an event, and the caches follow the packets it takes and
    the packets that appear in the queues of its ports.  Copies may be dropped
    silently at any time.  A response that answers no request of its port, such as
    a broadcast of another cache's read, reaches only ports that do not wait for
    the line, or is uncacheable. *)
Inductive system_step : System → System → Prop :=
  | system_refused now snooped tryTiming sendTimingReq k c k' x x' w cp cp' :
      (∀ i k, same_request k (snooped i k)) → (∀ i k, same_request k (sendTimingReq i k).2) →
      recvTimingReq P now snooped tryTiming sendTimingReq k c x = Ok ((false, k'), x') → drops cp cp' →
      system_step (mkSystem x w cp) (mkSystem x' w cp')
  | system_taken now snooped tryTiming sendTimingReq k c src k' x x' w cp cp' :
      (∀ i k, same_request k (snooped i k)) → (∀ i k, same_request k (sendTimingReq i k).2) →
      recvTimingReq P now snooped tryTiming sendTimingReq k c x = Ok ((true, k'), x') → cpu_port c x = Ok (src, x) →
      ports_of x' = ports_of x → drops (evicted src k c cp) cp' →
      system_step (mkSystem x w cp) (mkSystem x' (sends src k c w) cp')
  | system_answered now snooped tryTiming sendTimingReq k c src k' r0 r i x x' w w' cp cp' :
      (∀ i k, same_request k (snooped i k)) → (∀ i k, same_request k (sendTimingReq i k).2) →
      recvTimingReq P now snooped tryTiming sendTimingReq k c x = Ok ((true, k'), x') → cpu_port c x = Ok (src, x) →
      answer_of x k' = Some r0 → makeResponse r0 = Ok r → 0 ≤ i → delivered r i x x' →
      received r i (sends src k c w) w' (evicted src k c cp) cp' →
      system_step (mkSystem x w cp) (mkSystem x' w' cp')
  | system_response_refused now k m x x' w cp cp' :
      recvTimingResp P now k m x = Ok (false, x') → drops cp cp' → system_step (mkSystem x w cp) (mkSystem x' w cp')
  | system_response now k m i x x' w w' cp cp' :
      recvTimingResp P now k m x = Ok (true, x') → 0 ≤ i → delivered k i x x' → received k i w w' cp cp' →
      system_step (mkSystem x w cp) (mkSystem x' w' cp')
  | system_snoop now snooped k m u x x' l w cp cp' :
      (∀ i k, same_request k (snooped i k)) →
      recvTimingSnoopReq P now snooped k m x = Ok (u, x') → outputs x' = outputs x ++ l →
      (∀ a j, cp' a j → cp a j ∧ ¬ (isInvalidate (cmd k) = true ∧ a = line k ∧ ∃ k1, SnoopReqTo j k1 ∈ l)) →
      system_step (mkSystem x w cp) (mkSystem x' w cp')
  | system_snoop_refused now send k c x x' w cp cp' :
      XBar.broadcastToOther (base k) = false →
      recvTimingSnoopResp P now send k c x = Ok (false, x') → drops cp cp' → system_step (mkSystem x w cp) (mkSystem x' w cp')
  | system_snoop_response now send k c i x x' w w' cp cp' :
      XBar.broadcastToOther (base k) = false →
      recvTimingSnoopResp P now send k c x = Ok (true, x') → 0 ≤ i → delivered k i x x' →
      received k i w w' (shared k cp) cp' → system_step (mkSystem x w cp) (mkSystem x' w' cp')
  | system_snoop_forwarded now send k c x x' w cp cp' :
      XBar.broadcastToOther (base k) = false →
      recvTimingSnoopResp P now send k c x = Ok (true, x') → ports_of x' = ports_of x →
      drops (shared k cp) cp' → system_step (mkSystem x w cp) (mkSystem x' w cp')
  | system_broadcast now send k c b x x' w cp cp' :
      XBar.broadcastToOther (base k) = true → recvTimingSnoopResp P now send k c x = Ok (b, x') →
      (∀ i p p', ports_of x !! i = Some p → ports_of x' !! i = Some p' → queue_length p ≠ queue_length p' →
         unawaited w k (Z.of_nat i) ∧ drops (cleaned k (Z.of_nat i) cp) cp') →
      drops cp cp' → system_step (mkSystem x w cp) (mkSystem x' w cp')
  | system_quiet x x' w cp cp' : quiet_step x x' → drops cp cp' → system_step (mkSystem x w cp) (mkSystem x' w cp')
  | system_send x x' w cp cp' :
      (* the ports send queued responses to the caches *)
      routes x' = routes x → outputs x' = outputs x → filter_in x' = filter_in x →
      map XBar.port (ports_of x') = map XBar.port (ports_of x) → drops cp cp' →
      system_step (mkSystem x w cp) (mkSystem x' w cp').
End system.

(** ** The filter knows *)

Section known.
Context (P : Params) (ports : list SnoopFilter.Port).
Notation cfg := (XBar.sfConfig (xp P)).
Hypothesis wiring : wired P ports.
Hypothesis caches : XBar.bypassCaches (xp P) = false.

Definition waits (w : InFlight) (a : Z) (p : SnoopFilter.Port) : Prop :=
  p ∈ ports ∧ ∃ n, w !! n = Some (SnoopFilter.p_id p, a).
Definition has (cp : Copies) (a : Z) (p : SnoopFilter.Port) : Prop := p ∈ ports ∧ cp a (SnoopFilter.p_id p).

(** The filter has marked every request in flight and every copy, and no port has
    two requests for a line in flight. *)
Definition knows (f : SnoopFilter.Filter) (w : InFlight) (cp : Copies) : Prop :=
  sound ports cfg f (waits w) (has cp) ∧ ∀ n n' v, w !! n = Some v → w !! n' = Some v → n = n'.

Definition known (s : System) : Prop :=
  map XBar.port (ports_of (crossbar s)) = ports ∧
  ∃ f, filter_in (crossbar s) = Some f ∧ knows f (in_flight s) (cached s).

Lemma same_port p q : p ∈ ports → q ∈ ports → SnoopFilter.p_id p = SnoopFilter.p_id q → p = q.
Proof using wiring.
  intros (i & Hi)%list_elem_of_lookup (j & Hj)%list_elem_of_lookup E.
  rewrite (wi_id _ _ wiring i p Hi), (wi_id _ _ wiring j q Hj) in E. assert (i = j) as <- by lia. congruence.
Qed.

Lemma port_at i x p :
  map XBar.port (ports_of x) = ports → cpu_port i x = Ok (p, x) → p ∈ ports ∧ SnoopFilter.p_id p = i ∧ 0 ≤ i.
Proof using wiring.
  intros Hp H. destruct (cpu_port_id P ports wiring _ _ _ _ Hp H) as [Hin Hid]. split_and!; [done..|].
  unfold cpu_port in H. destruct (vec_get _ _) eqn:E; [|done]. by apply vec_get_inv in E as [? _].
Qed.

Lemma knows_drops f w cp cp' : knows f w cp → drops cp cp' → knows f w cp'.
Proof. intros [Hs Hi] Hd. split; [|done]. eapply sound_within; [exact Hs|by intros ? ?|]. intros b q [Hq H]. split; [done|by apply Hd]. Qed.

Lemma request_knows k c src f l f1 w cp :
  knows f w cp → src ∈ ports → SnoopFilter.p_id src = c →
  request cfg (XBar.sf (base k)) src false f = Ok (l, f1) →
  knows f1 (sends P src k c w) (λ a j, cp a j ∧ ¬ ((tracked (XBar.sf (base k)) src = true ∧ gives_up (XBar.sf (base k)) = true) ∧ a = line P k ∧ j = c)).
Proof using wiring.
  intros [Hs Hi] Hsrc Hc Hr. pose proof (wired_configured P ports wiring) as Hconf. split.
  - eapply (request_sound ports cfg Hconf); [exact Hs|exact Hsrc|exact Hr| |].
    + intros b q [Hq [n Hn]]. unfold sends in Hn. destruct (tracked _ src && asks _) eqn:E; [|left; split; [done|by exists n]].
      apply lookup_insert_Some in Hn as [[_ [= Hid <-]]|[_ Hn]]; [right|left; split; [done|by exists n]].
      apply andb_true_iff in E as [-> ->]. split_and!; try done. apply same_port; [done..|congruence].
    + intros b q [Hq [H Hne]]. split; [by split|]. intros ((_ & ? & ?) & -> & ->). by apply Hne.
  - unfold sends. destruct (tracked _ src && asks _) eqn:E; [|done]. apply andb_true_iff in E as [Ht Ha].
    pose proof (request_fresh _ _ Hconf _ _ _ _ _ _ _ Hs Hsrc Hr Ht Ha) as Hf.
    assert (∀ n, w !! n ≠ Some (c, line P k)) as Hf'.
    { intros n Hn. apply Hf. split; [done|]. exists n. rewrite Hc. exact Hn. }
    intros n n' v [[<- <-]|[Hne Hn]]%lookup_insert_Some [[<- E']|[Hne' Hn']]%lookup_insert_Some; try done.
    + by apply Hf' in Hn'.
    + rewrite <-E' in Hn. by apply Hf' in Hn.
    + by eapply Hi.
Qed.

(** A request that is taken: the filter was asked, or it is a [WriteClean]. *)
Lemma taken_knows k c src f f1 w cp :
  knows f w cp → src ∈ ports → SnoopFilter.p_id src = c →
  (if bool_decide (cmd k = WriteClean) then f1 = f
   else true = false ∧ f1 = f ∨ ∃ dests, request cfg (XBar.sf (base k)) src false f = Ok (dests, f1)) →
  knows f1 (sends P src k c w) (evicted P src k c cp).
Proof using wiring.
  intros Hk Hsrc Hc Hreq. case_bool_decide as Hwc.
  - subst f1. assert (sends P src k c w = w) as ->.
    { unfold sends, asks. change (SnoopFilter.pk_cmd (XBar.sf (base k))) with (cmd k). rewrite Hwc. by rewrite andb_false_r. }
    eapply knows_drops; [exact Hk|]. by intros a j [? _].
  - destruct Hreq as [[? _]|[l Hreq]]; [done|]. eapply knows_drops; [by eapply request_knows|].
    intros a j [H Hne]. split; [done|]. intros ((? & ?) & ? & ?). by apply Hne.
Qed.

Lemma received_knows r p i f f' w w' cp cp' :
  knows f w cp → p ∈ ports → SnoopFilter.p_id p = i →
  SnoopFilter.updateResponse cfg (XBar.sf (base r)) p f = Ok (tt, f') → received P r i w w' cp cp' → knows f' w' cp'.
Proof using wiring.
  intros [Hs Hi] Hp Hid Hr Hrec. pose proof (wired_configured P ports wiring) as Hconf.
  assert (∀ a j, cp' a j → cleaned P r i cp a j ∨ answers P w r i ∧ uncacheable r = false ∧ maintenance r = false ∧ a = line P r ∧ j = i) as Hcp.
  { destruct Hrec as [(Ha & _ & H)|(_ & _ & _ & H)]; intros a j [?|?]%H || intros a j ?%H; auto. }
  assert (∀ n n' v, w' !! n = Some v → w' !! n' = Some v → n = n') as Hi'.
  { destruct Hrec as [(_ & -> & _)|(_ & _ & -> & _)]; [|done]. intros n n' v [_ Hn]%lookup_delete_Some [_ Hn']%lookup_delete_Some. by eapply Hi. }
  split; [|done]. eapply (response_sound ports cfg Hconf); [exact Hs|exact Hp|exact Hr| |].
  - intros b q [Hq [n Hn]]. destruct Hrec as [(Ha & -> & _)|(_ & Hu & -> & _)].
    + apply lookup_delete_Some in Hn as [Hne Hn]. split; [split; [done|by exists n]|]. intros (_ & -> & ->). apply Hne.
      rewrite Hid in Hn. by eapply Hi.
    + split; [split; [done|by exists n]|]. intros (Hc & -> & ->). rewrite Hid in Hn. destruct Hu as [Hu|Hu]; [|by apply Hu in Hn].
      unfold uncacheable in Hu. congruence.
  - intros b q [Hq H]. apply Hcp in H as [[H Hne]|(Ha & Hu & Hm & -> & E)].
    + left. split; [by split|]. intros (Hd & -> & ->). by apply Hne.
    + right. assert (q = p) as -> by (apply same_port; congruence). split_and!; try done. split; [done|]. eexists. rewrite Hid. exact Ha.
Qed.

Lemma received_snoop_knows r src p i f f' w w' cp cp' :
  knows f w cp → p ∈ ports → SnoopFilter.p_id p = i →
  SnoopFilter.updateSnoopResponse cfg (XBar.sf (base r)) src p f = Ok (tt, f') →
  received P r i w w' (shared P r cp) cp' → knows f' w' cp'.
Proof using wiring.
  intros [Hs Hi] Hp Hid Hr Hrec. pose proof (wired_configured P ports wiring) as Hconf.
  assert (∀ n n' v, w' !! n = Some v → w' !! n' = Some v → n = n') as Hi'.
  { destruct Hrec as [(_ & -> & _)|(_ & _ & -> & _)]; [|done]. intros n n' v [_ Hn]%lookup_delete_Some [_ Hn']%lookup_delete_Some. by eapply Hi. }
  split; [|done]. eapply (snoop_response_sound ports cfg Hconf); [exact Hs|exact Hp|exact Hr| |].
  - intros b q [Hq [n Hn]]. destruct Hrec as [(Ha & -> & _)|(_ & Hu & -> & _)].
    + apply lookup_delete_Some in Hn as [Hne Hn]. split; [split; [done|by exists n]|]. intros (_ & -> & ->). apply Hne.
      rewrite Hid in Hn. by eapply Hi.
    + split; [split; [done|by exists n]|]. intros (Hc & -> & ->). rewrite Hid in Hn. destruct Hu as [Hu|Hu]; [|by apply Hu in Hn].
      unfold uncacheable in Hu. congruence.
  - assert (∀ a j, cp' a j → shared P r cp a j ∨ uncacheable r = false ∧ a = line P r ∧ j = i) as Hcp.
    { destruct Hrec as [(Ha & _ & H)|(_ & _ & _ & H)]; intros a j; [intros [[? _]|(? & _ & ?)]%H|intros [? _]%H]; auto. }
    intros b q [Hq [[H Hsh]|(Hu & -> & E)]%Hcp].
    + left. split; [by split|]. intros E. left. by apply Hsh.
    + right. split_and!; try done. by apply same_port; congruence.
Qed.

Lemma step_known s s' : system_step P s s' → known s → known s'.
Proof using wiring caches.
  intros Hstep (Hports & f & Hf & Hk). pose proof (wired_configured P ports wiring) as Hconf.
  destruct Hstep as [now sn tr se k c k' x x' w cp cp' S1 S2 H Hd|now sn tr se k c src k' x x' w cp cp' S1 S2 H Hsrc Hsame Hd
    |now sn tr se k c src k' r0 r i x x' w w' cp cp' S1 S2 H Hsrc Hans Hmk Hi0 Hdel Hrec|now k m x x' w cp cp' H Hd
    |now k m i x x' w w' cp cp' H Hi0 Hdel Hrec|now sn k m u x x' l w cp cp' S1 H Ho Hcp|now send k c x x' w cp cp' Hb H Hd
    |now send k c i x x' w w' cp cp' Hb H Hi0 Hdel Hrec|now send k c x x' w cp cp' Hb H Hsame Hd
    |now send k c b x x' w cp cp' Hb H Hun Hd|x x' w cp cp' (_ & H & _) Hd|x x' w cp cp' _ _ Ef Ep Hd];
    cbn [crossbar in_flight cached] in *.
  - (* refused *)
    apply (request_told P now caches _ _ _ S1 S2 _ _ _ _ _ _ _ Hf) in H as (src & f1 & Hsrc & Hreq & [[Hf' Hp']|[? _]]); [|done].
    split; [simpl; by rewrite Hp'|]. exists f1. split; [done|]. eapply knows_drops; [|exact Hd].
    destruct (bool_decide _); [by subst|]. destruct Hreq as [[_ ->]|[dests Hreq]]; [done|]. destruct Hk as [Hs Hi]. split; [|done].
    destruct (port_at _ _ _ Hports Hsrc) as (Hin & _ & _).
    eapply (request_sound ports cfg Hconf); [exact Hs|exact Hin|exact Hreq| |].
    + intros b q ?. by left.
    + intros b q ?. split; [done|]. by intros ([? _] & _).
  - (* taken *)
    apply (request_told P now caches _ _ _ S1 S2 _ _ _ _ _ _ _ Hf) in H as (src' & f1 & Hsrc' & Hreq & Hres).
    assert (src' = src) as -> by congruence. destruct (port_at _ _ _ Hports Hsrc) as (Hin & Hid & _).
    destruct Hres as [[Hf' Hp']|(_ & r0 & r & i & p & f2 & _ & _ & _ & _ & _ & Hdel)]; [|by apply delivered_changes in Hdel].
    split; [simpl; by rewrite Hp'|]. exists f1. split; [done|]. eapply knows_drops; [|exact Hd]. by eapply taken_knows.
  - (* taken and answered *)
    apply (request_told P now caches _ _ _ S1 S2 _ _ _ _ _ _ _ Hf) in H as (src' & f1 & Hsrc' & Hreq & Hres).
    assert (src' = src) as -> by congruence. destruct (port_at _ _ _ Hports Hsrc) as (Hin & Hid & _).
    destruct Hres as [[_ Hp']|(_ & r0' & r' & i' & p & f2 & Hans' & Hmk' & Hp & Hu & Hf' & Hdel')]; [by apply delivered_changes in Hdel|].
    assert (r' = r) as -> by congruence. destruct (port_at _ _ _ Hports Hp) as (Hpin & Hpid & Hi').
    assert (i' = i) as -> by (by eapply delivered_once).
    split; [simpl; rewrite <-Hports; by eapply delivered_ports|]. exists f2. split; [done|].
    eapply received_knows; [|exact Hpin|exact Hpid|exact Hu|exact Hrec]. by eapply taken_knows.
  - (* response refused *)
    apply (recvTimingResp_told P now caches _ _ _ _ _ _ Hf) in H as [= Ef Ep]. unfold ports_of in *.
    split; [simpl; by rewrite <-Hports, <-Ep|]. exists f. split; [simpl; congruence|]. by eapply knows_drops.
  - (* response *)
    apply (recvTimingResp_told P now caches _ _ _ _ _ _ Hf) in H as (i' & p & f' & Hp & Hu & Hf' & Hdel').
    destruct (port_at _ _ _ Hports Hp) as (Hpin & Hpid & Hi'). assert (i' = i) as -> by (by eapply delivered_once).
    split; [simpl; rewrite <-Hports; by eapply delivered_ports|]. exists f'. split; [done|]. by eapply received_knows.
  - (* snoop *)
    apply (snoop_told P now _ S1 _ _ _ _ _ _ Hf) in H as (dests & lat & f' & l' & Hl & Hf' & Hp' & Ho' & [Hall _]).
    assert (l' = l) as -> by (rewrite Ho in Ho'; by apply app_inv_head in Ho').
    split; [simpl; by rewrite Hp'|]. exists f'. split; [done|]. destruct Hk as [Hs Hi]. split; [|done].
    eapply (snoop_sound ports cfg Hconf); [exact Hs|exact Hl|by intros ? ?|].
    intros b q [Hq [H Hne]%Hcp]. split; [by split|]. intros (Hinv & -> & Hd). apply Hne. split_and!; [done..|].
    destruct (Hall q Hd) as (k1 & Hk1 & _); [by left|]. by exists k1.
  - (* snoop response refused *)
    apply (recvTimingSnoopResp_told P now _ _ _ _ _ _ _ Hf Hb) in H as [= Ef Ep]. unfold ports_of in *.
    split; [simpl; by rewrite <-Hports, <-Ep|]. exists f. split; [simpl; congruence|]. by eapply knows_drops.
  - (* snoop response for a port *)
    apply (recvTimingSnoopResp_told P now _ _ _ _ _ _ _ Hf Hb) in H as [(? & _ & _ & Hp')|(i' & src & p & f' & Hp & Hu & Hf' & Hdel')];
      [by apply delivered_changes in Hdel|].
    destruct (port_at _ _ _ Hports Hp) as (Hpin & Hpid & Hi'). assert (i' = i) as -> by (by eapply delivered_once).
    split; [simpl; rewrite <-Hports; by eapply delivered_ports|]. exists f'. split; [done|]. by eapply received_snoop_knows.
  - (* snoop response forwarded *)
    apply (recvTimingSnoopResp_told P now _ _ _ _ _ _ _ Hf Hb) in H as [(f' & Hu & Hf' & Hp')|(i' & src & p & f' & _ & _ & _ & Hdel)];
      [|by apply delivered_changes in Hdel].
    split; [simpl; by rewrite Hp'|]. exists f'. split; [done|]. destruct Hk as [Hs Hi]. split; [|done].
    eapply snoop_forward_sound; [exact Hs|exact Hu|by intros ? ?|]. intros b q [Hq [H Hsh]%Hd]. by split.
  - (* broadcast *)
    eapply (broadcast_told P now send k c x b x' f (λ g, knows g w cp')) in H as [Hp' (f' & Hf' & Hk')]; try done.
    + split; [simpl; by rewrite Hp'|]. by exists f'.
    + by eapply knows_drops.
    + intros i p p' g g' Hp Hp' Hl [Hs Hi] Hu. destruct (Hun i p p' Hp Hp' Hl) as [Hua Hdr]. split; [|done].
      assert (ports !! i = Some (XBar.port p)) as Hpi by (rewrite <-Hports, list_lookup_fmap, Hp; done).
      pose proof (wi_id _ _ wiring _ _ Hpi) as Hpid. apply list_elem_of_lookup_2 in Hpi as Hpin.
      eapply (response_sound ports cfg Hconf); [exact Hs|exact Hpin|exact Hu| |].
      * intros a q [Hq [n Hn]]. split; [split; [done|by exists n]|]. intros (Hc & -> & ->). rewrite Hpid in Hn.
        destruct Hua as [Hua|Hua]; [unfold uncacheable in Hua; congruence|by apply Hua in Hn].
      * intros a q [Hq Hcpy]. left. split; [by split|]. intros (Hm & -> & ->). apply Hdr in Hcpy as [_ Hne]. by apply Hne.
  - (* quiet *)
    injection H as Ef Ep. unfold ports_of in *. split; [simpl; by rewrite <-Hports, <-Ep|]. exists f. split; [simpl; congruence|]. by eapply knows_drops.
  - (* responses sent *)
    split; [simpl; by rewrite Ep|]. exists f. split; [simpl; congruence|]. by eapply knows_drops.
Qed.

Lemma reachable_known s s' : rtc (system_step P) s s' → known s → known s'.
Proof using wiring caches. induction 1 as [|x y z Hxy _ IH]; [done|]. intros Hk. apply IH. by eapply step_known. Qed.
End known.

(** ** Every event is a step *)

(** Response [r] reaches the queue of a port that waits for its line, and it is no
    answer to the port's request. *)
Definition disturbs (P : Params) (r : Pkt) (s : System) (w : InFlight) (x' : CXBar) : Prop :=
  ∃ i p p', ports_of (crossbar s) !! i = Some p ∧ ports_of x' !! i = Some p' ∧ queue_length p ≠ queue_length p' ∧
    ¬ (answers P w r (Z.of_nat i) ∧ XBar.broadcastToOther (base r) = false) ∧ ¬ unawaited P w r (Z.of_nat i).

Lemma unawaited_dec P w r i : unawaited P w r i ∨ ¬ unawaited P w r i.
Proof.
  unfold unawaited. destruct (uncacheable r); [by left; left|].
  destruct (decide (map_Forall (λ _ v, v ≠ (i, line P r)) w)) as [H|H].
  - left. right. intros n Hn. by apply H in Hn.
  - right. intros [?|Hn]; [done|]. apply H. intros n v Hv ->. by apply Hn in Hv.
Qed.

Lemma broadcast_or_disturbs P k s x' :
  XBar.broadcastToOther (base k) = true →
  (∀ i p p', ports_of (crossbar s) !! i = Some p → ports_of x' !! i = Some p' → queue_length p ≠ queue_length p' →
     unawaited P (in_flight s) k (Z.of_nat i)) ∨ disturbs P k s (in_flight s) x'.
Proof.
  intros Hb. destruct s as [x w cp]. simpl.
  set (bad i := match ports_of x !! i, ports_of x' !! i with
    | Some p, Some p' => negb (queue_length p =? queue_length p')%nat && negb (uncacheable k) &&
        negb (bool_decide (map_Forall (λ _ v, v ≠ (Z.of_nat i, line P k)) w))
    | _, _ => false end).
  destruct (existsb bad (seq 0 (length (ports_of x)))) eqn:E.
  - right. apply existsb_exists in E as (i & _ & Hi). unfold bad in Hi.
    destruct (ports_of x !! i) as [p|] eqn:Hp; [|done]. destruct (ports_of x' !! i) as [p'|] eqn:Hp'; [|done].
    apply andb_true_iff in Hi as [[Hl%negb_true_iff%Nat.eqb_neq Hu%negb_true_iff]%andb_true_iff Hm%negb_true_iff%bool_decide_eq_false].
    exists i, p, p'. split_and!; [done..| |].
    + intros [_ ?]. congruence.
    + intros [?|Hn]; [congruence|]. apply Hm. intros n v Hv ->. by apply Hn in Hv.
  - left. intros i p p' Hp Hp' Hl. assert (bad i = false) as Hi.
    { apply not_true_iff_false. intros Hi. apply not_true_iff_false in E. apply E, existsb_exists. exists i. split; [|done].
      apply in_seq. apply lookup_lt_Some in Hp. lia. }
    unfold bad in Hi. rewrite Hp, Hp' in Hi. rewrite (proj2 (Nat.eqb_neq _ _)) in Hi by done. cbn [negb andb] in Hi.
    destruct (uncacheable k) eqn:Hu; [by left|]. right. apply negb_false_iff, bool_decide_eq_true in Hi.
    intros n Hn. by apply Hi in Hn.
Qed.

Lemma received_or_disturbs P r i s w x' cp :
  0 ≤ i → delivered r i (crossbar s) x' →
  (∃ w', received P r i w w' cp (λ _ _, False)) ∨ disturbs P r s w x'.
Proof.
  intros Hi (p & p' & Hp & Hp' & Hl)%delivered_length. destruct (decide (w !! XBar.pk_id (base r) = Some (i, line P r))) as [Ha|Ha].
  { left. eexists. left. split_and!; [done|done|by intros ? ? []]. }
  destruct (unawaited_dec P w r i) as [Hu|Hu]; [left; exists w; right; split_and!; [done..|by intros ? ? []]|].
  right. exists (Z.to_nat i), p, p'. rewrite Z2Nat.id by done. split_and!; [done..|lia|by intros [? _]|done].
Qed.

(** The requests in flight while an event of request [l] is handled: one that is
    being taken may be among them. *)
Definition meanwhile (P : Params) (l : option Z) (s : System) (w : InFlight) : Prop :=
  w = in_flight s ∨ ∃ src k c, l = Some (req k) ∧ cpu_port c (crossbar s) = Ok (src, crossbar s) ∧ w = sends P src k c (in_flight s).

(** From a state in which the filter knows the caches, whatever the crossbar does
    is a step of the system, unless it brings a port a response the port does not
    wait for while it waits for the line. *)
Lemma event_step P ports l s x' :
  wired P ports → XBar.bypassCaches (xp P) = false → known P ports s → timing_step P l (crossbar s) x' →
  (∃ w' cp', system_step P s (mkSystem x' w' cp')) ∨ ∃ r w, meanwhile P l s w ∧ disturbs P r s w x'.
Proof.
  intros Hw Hby (Hports & f & Hf & _) Hs. destruct s as [x w cp]. simpl in Hports, Hf, Hs.
  assert (∀ cp0, drops cp0 (λ _ _, False)) as Hd by (by intros ? ? ? []).
  destruct Hs as [now sn tr se k c b k' x x' S1 S2 H|now k m b x x' H|now sn k m u x x' S1 H|now send k c b x x' H|x x' H].
  - destruct (request_told P now Hby _ _ _ S1 S2 _ _ _ _ _ _ _ Hf H) as (src & f1 & Hsrc & _ & Hres).
    destruct b; [|left; eexists w, (λ _ _, False); by eapply system_refused].
    destruct Hres as [[_ Hp']|(_ & r0 & r & i & p & f2 & Hans & Hmk & Hp & _ & _ & Hdel)].
    + left. eexists _, (λ _ _, False). by eapply system_taken.
    + destruct (port_at P ports Hw _ _ _ Hports Hp) as (_ & _ & Hi).
      destruct (received_or_disturbs P r i (mkSystem x w cp) (sends P src k c w) x' (evicted P src k c cp) Hi Hdel) as [[w' Hr]|?]; [left|right; eexists r, _; split; [right; by exists src, k, c|done]].
      eexists w', (λ _ _, False). by eapply system_answered.
  - destruct b; [|left; eexists w, (λ _ _, False); by eapply system_response_refused].
    destruct (recvTimingResp_told P now Hby _ _ _ _ _ _ Hf H) as (i & p & f' & Hp & _ & _ & Hdel).
    destruct (port_at P ports Hw _ _ _ Hports Hp) as (_ & _ & Hi).
    destruct (received_or_disturbs P k i (mkSystem x w cp) w x' cp Hi Hdel) as [[w' Hr]|?]; [left|right; eexists k, _; split; [by left|done]].
    eexists w', (λ _ _, False). by eapply system_response.
  - destruct (snoop_told P now _ S1 _ _ _ _ _ _ Hf H) as (dests & lat & f' & l & _ & _ & _ & Ho & _).
    left. eexists w, (λ _ _, False). eapply system_snoop; [done|done|done|by intros ? ? []].
  - destruct (XBar.broadcastToOther (base k)) eqn:Hb.
    + destruct (broadcast_or_disturbs P k (mkSystem x w cp) x' Hb) as [Hall|?]; [left|right; eexists k, _; split; [by left|done]].
      eexists w, (λ _ _, False). eapply system_broadcast; try done. intros i p p' Hp Hp' Hl. split; [by eapply Hall|done].
    + destruct b; [|left; eexists w, (λ _ _, False); by eapply system_snoop_refused].
      destruct (recvTimingSnoopResp_told P now _ _ _ _ _ _ _ Hf Hb H) as [(f' & _ & _ & Hp')|(i & src & p & f' & Hp & _ & _ & Hdel)].
      { left. eexists w, (λ _ _, False). by eapply system_snoop_forwarded. }
      destruct (port_at P ports Hw _ _ _ Hports Hp) as (_ & _ & Hi).
      destruct (received_or_disturbs P k i (mkSystem x w cp) w x' (shared P k cp) Hi Hdel) as [[w' Hr]|?]; [left|right; eexists k, _; split; [by left|done]].
      eexists w', (λ _ _, False). by eapply system_snoop_response.
  - left. eexists w, (λ _ _, False). by eapply system_quiet.
Qed.

(** ** Theorems *)

Section theorems.
Context (P : Params) (mem : nat) (has_default : bool) (peers : list (string * bool)) (size lat cap : Z).
Notation cfg := (XBar.sfConfig (xp P)).
Notation x0 := (new mem has_default peers true).
Hypothesis initialised : init x0 size lat cap = Ok cfg.
Hypothesis caches : XBar.bypassCaches (xp P) = false.

Lemma reached_known s :
  rtc (system_step P) (mkSystem x0 ∅ (λ _ _, False)) s → known P (map XBar.port (ports_of x0)) s.
Proof using initialised caches.
  intros Hr. pose proof (new_wired P mem has_default peers true size lat cap initialised) as Hw.
  apply (reachable_known P _ Hw caches _ _ Hr). split; [done|]. exists SnoopFilter.new. split; [done|]. split; [|done].
  eapply sound_within; [apply sound_new|..]; [intros a p [_ [n Hn]]; done|by intros a p [_ []]].
Qed.


(** C8. Every copy is snooped before a request goes on.  In every state the crossbar,
    its filter and the caches reach, when the crossbar takes a request that is no
    eviction and no [WriteClean], every other port whose cache has a copy of the
    line, or waits for one, has been handed a snoop of that request; the requester
    itself was not snooped; and only after the snoops, if at all, the request was
    handed on, once, to the memory side. *)
Theorem copies_snooped_first s now snooped tryTiming sendTimingReq k c k' x' p :
  rtc (system_step P) (mkSystem x0 ∅ (λ _ _, False)) s →
  (∀ i k, same_request k (snooped i k)) → (∀ i k, same_request k (sendTimingReq i k).2) →
  cmd k ≠ WriteClean → isEviction (cmd k) = false →
  recvTimingReq P now snooped tryTiming sendTimingReq k c (crossbar s) = Ok ((true, k'), x') →
  p ∈ map XBar.port (ports_of x0) → SnoopFilter.p_snooping p = true → SnoopFilter.p_id p ≠ c →
  cached s (line P k) (SnoopFilter.p_id p) ∨ (∃ n, in_flight s !! n = Some (SnoopFilter.p_id p, line P k)) →
  ∃ m l fw, outputs x' = outputs (crossbar s) ++ l ++ fw ∧
    (∃ k1, SnoopReqTo (SnoopFilter.p_id p) k1 ∈ l ∧ same_request k k1) ∧
    (∀ o, o ∈ l → ∃ i k1, o = SnoopReqTo i k1 ∧ i ≠ c) ∧
    (fw = [] ∨ ∃ k1, fw = [ReqTo m k1] ∧ same_request k k1).
Proof using initialised caches.
  intros (Hports & f & Hf & [Hs _])%reached_known Hsame Hsame' Hwc Hev H Hp Hps Hid Hcopy.
  pose proof (new_wired P mem has_default peers true size lat cap initialised) as Hw.
  apply recvTimingReq_inv in H as (src & m & x1 & Hsrc & _ & Hm & Hh).
  destruct (port_at P _ Hw _ _ _ Hports Hsrc) as (Hsin & Hsid & Hc0).
  assert (above x1 = above (crossbar s) ∧ outputs x1 = outputs (crossbar s)) as [E1 O1] by (split; revert Hm; by apply keeps_on_decoder).
  inversion Hh as [| | |k1 k2 k3 dir fin x4 x5 x6 x7 x8 target x9 y (_ & E4 & O4) Hsent Hrec Hcl Hresp]. subst k' y.
  pose proof (sent_packet _ _ _ _ _ _ _ _ _ _ _ _ _ _ _ _ _ _ Hsent) as [Es _].
  pose proof (sent_timed _ _ _ _ _ _ _ _ _ _ _ _ _ _ _ _ _ _ Hsent) as (_ & Ec1 & _).
  apply sent_inv in Hsent as (_ & _ & _ & l & fw & Ho & Hfw & _ & Hsn); [|done..].
  assert (snoops P k1 = true) as Hsnoops by (unfold snoops; rewrite caches, Ec1, bool_decide_false by done; done).
  assert (filter_in x4 = Some f) as Hf4 by (injection E4 as -> _; injection E1 as -> _; done).
  rewrite Hsnoops, Hf4, Hev, Es in Hsn. destruct Hsn as (dests & f' & Hreq & _ & [Hall Honly]).
  assert (p ∈ dests) as Hpd.
  { eapply (sound_covers_request _ _ (wired_configured P _ Hw)); [exact Hs|done|done|exact Hsin|congruence|exact Hreq|].
    destruct Hcopy as [?|[n Hn]]; [left|right]; (split; [done|]); eauto. }
  exists m, l, fw. split_and!; [|apply Hall; [done|by right]| |done].
  - rewrite <-O1, <-O4, <-Ho. destruct (recorded_xbar P now _ _ _ _ _ _ _ _ _ _ _ _ _ Hrec Hcl) as [_ <-].
    destruct target as [[rsp i]|]; [by apply respond_outputs in Hresp|by injection Hresp as <-].
  - intros o Ho'. destruct (Honly o Ho') as (q & kk & -> & _ & _ & [E|E]); [unfold XBarDecode.InvalidPortID in E; lia|]. by eexists _, _.
Qed.
End theorems.

(** ** An example *)

(** The first PE reads a line and gets it, in the queue of its port. *)
Definition example_cached (a j : Z) : Prop := a = 64 ∧ j = 0.
Definition nothing (a j : Z) : Prop := False.
Definition system_0 : System := mkSystem example_new ∅ nothing.
Definition system_3 : System := mkSystem shared_3 ∅ example_cached.

Lemma shared_delivered : delivered example_answer 0 shared_1 shared_2.
Proof.
  eexists (XBar.mkCPUSidePort (SnoopFilter.mkPort 0 true) "system.generator0.port" (PacketQueue.new false true)), _, _.
  split; [vm_compute; reflexivity|]. split; [vm_compute; reflexivity|]. vm_compute. reflexivity.
Qed.

Lemma shared_system : rtc (system_step example_cparams) system_0 system_3.
Proof.
  apply (rtc_l _ _ (mkSystem example_cxbar ∅ nothing)); [apply system_quiet; [done|by intros ? ?]|].
  apply (rtc_l _ _ (mkSystem shared_1 {[1 := (0, 64)]} nothing)).
  { destruct (run_cxbar_ok (recvTimingReq example_cparams 0 quiet willing accepting shared_read 0) example_cxbar) as [[b k] H];
      [vm_compute; exact I|]. fold shared_1 in H.
    assert (b = true) as -> by (apply (f_equal (λ r, match r with Ok ((b, _), _) => b | Err _ => true end)) in H;
      vm_compute in H; symmetry; exact H).
    assert ({[1 := (0, 64)]} = sends example_cparams (SnoopFilter.mkPort 0 true) shared_read 0 ∅) as -> by (vm_compute; reflexivity).
    refine (system_taken example_cparams 0 quiet willing accepting shared_read 0 _ k example_cxbar shared_1 ∅ nothing nothing _ _ H _ _ _);
      [by intros ? ?|by intros ? ?|vm_compute; reflexivity|vm_compute; reflexivity|intros ? ? []]. }
  apply (rtc_l _ _ (mkSystem shared_2 ∅ example_cached)).
  { destruct (run_cxbar_ok (recvTimingResp example_cparams 20000 example_answer 1) shared_1) as [b H]; [vm_compute; exact I|]. fold shared_2 in H.
    assert (b = true) as -> by (apply (f_equal (λ r, match r with Ok (b, _) => b | Err _ => true end)) in H;
      vm_compute in H; symmetry; exact H).
    refine (system_response example_cparams 20000 example_answer 1 0 shared_1 shared_2 _ _ nothing example_cached H _ shared_delivered _);
      [reflexivity|]. left. split; [vm_compute; reflexivity|].
    split; [vm_compute; reflexivity|]. intros a j [-> ->]. right. split_and!; reflexivity. }
  apply rtc_once. apply system_quiet; [|by intros ? ?]. split_and!; vm_compute; reflexivity.
Qed.


Lemma copies_snooped_first_witness : ∃ x' k' m l fw,
  recvTimingReq example_cparams 21000 quiet willing accepting exclusive_read 1 (crossbar system_3) = Ok ((true, k'), x') ∧
  outputs x' = outputs (crossbar system_3) ++ l ++ fw ∧
  (∃ k1, SnoopReqTo 0 k1 ∈ l ∧ same_request exclusive_read k1) ∧
  (∀ o, o ∈ l → ∃ i k1, o = SnoopReqTo i k1 ∧ i ≠ 1) ∧
  (fw = [] ∨ ∃ k1, fw = [ReqTo m k1] ∧ same_request exclusive_read k1).
Proof.
  destruct (run_cxbar_ok (recvTimingReq example_cparams 21000 quiet willing accepting exclusive_read 1) (crossbar system_3)) as [[b k'] H];
    [vm_compute; exact I|].
  assert (b = true) as -> by (apply (f_equal (λ r, match r with Ok ((b, _), _) => b | Err _ => true end)) in H;
    vm_compute in H; symmetry; exact H).
  destruct (copies_snooped_first example_cparams 3 false [("system.generator0.port", true); ("system.generator1.port", true)]
    64 1 65536 example_init eq_refl system_3 21000 quiet willing accepting exclusive_read 1 k'
    (run_cxbar (recvTimingReq example_cparams 21000 quiet willing accepting exclusive_read 1) (crossbar system_3)) (SnoopFilter.mkPort 0 true)
    shared_system) as (m & l & fw & Hall).
  - reflexivity.
  - reflexivity.
  - discriminate.
  - reflexivity.
  - exact H.
  - by left.
  - reflexivity.
  - discriminate.
  - left. by split.
  - eexists _, k', m, l, fw. split; [exact H|exact Hall].
Defined.
