(* ===== verification/CoherentXBarAtomic.v ===== *)
(** * Atomic accesses of the coherent crossbar

    [recvAtomicBackdoor], [recvAtomicSnoop] and [forwardAtomic] of
    [mem/coherent_xbar.cc].  In atomic mode a request is handled in one call: the
    caches above are snooped one after the other, all of them even when one has
    responded, and the response comes from the one that did or from the memory
    side.  The filter is told before the snoops go out. *)
From stdpp Require Import base tactics list gmap strings relations sets.
From Stdlib Require Import ZArith Lia.
From S2P Require Import Prelude XBarDecodeProps MemCmd Clocked PacketQueue SnoopFilter SnoopFilterProps SnoopFilterSpec XBar AddrRange XBarDecode CoherentXBar CoherentXBarProps CoherentXBarSnoop CoherentXBarSystem.
Import CoherentXBar.
Local Open Scope Z_scope.

Module Atomic.
Section atomic.
Context (P : Params).
(** The peers: the latency and the packet after a snoop, and after the access
    below. *)
Context (sendAtomicSnoop sendAtomic sendAtomicBackdoor : Z → Pkt → Z * Pkt).

Notation cfg := (XBar.sfConfig (xp P)).
Notation clockPeriod := (XBar.clockPeriod (xp P)).
Notation bypassCaches := (XBar.bypassCaches (xp P)).

Definition with_filter (m : M CXBar unit) : M CXBar unit :=
  x ← gets (λ x, x);
  match XBar.snoopFilter (xbar x) with Some _ => m | None => mret tt end.

Definition set_payloadDelay (d : Z) (k : Pkt) : Pkt :=
  set_base (XBar.set_delays (XBar.headerDelay (base k)) d (base k)) k.

(** What the filter is told of a snooper's response. *)
Definition snoop_responded (pkt : Pkt) (p : SnoopFilter.Port) (exclude source : Z) : M CXBar unit :=
  with_filter
    (if negb (source =? XBarDecode.InvalidPortID) then
       massert "exclude_cpu_side_port_id == InvalidPortID" (exclude =? XBarDecode.InvalidPortID) ;;
       on_filter (SnoopFilter.updateSnoopForward cfg (XBar.sf (base pkt))) tt
     else
       q ← cpu_port exclude;
       on_filter (SnoopFilter.updateSnoopResponse cfg (XBar.sf (base pkt)) p q) tt).

(** The loop over the destinations; [r] is the response command and its latency
    so far. *)
Fixpoint atomic_loop (orig_cmd : Command) (exclude source : Z) (dests : list SnoopFilter.Port) (pkt : Pkt) (r : Command * Z)
    : M CXBar (Pkt * (Command * Z)) :=
  match dests with
  | [] => mret (pkt, r)
  | p :: dests =>
      let id := SnoopFilter.p_id p in
      if negb (exclude =? XBarDecode.InvalidPortID) && (id =? exclude)
      then atomic_loop orig_cmd exclude source dests pkt r
      else
        modify (emit (SnoopReqTo id pkt)) ;;
        let '(latency, pkt) := sendAtomicSnoop id pkt in
        if negb (isResponse (cmd pkt)) then atomic_loop orig_cmd exclude source dests pkt r
        else
          massert "pkt->cmd != orig_cmd" (negb (bool_decide (cmd pkt = orig_cmd))) ;;
          massert "pkt->cacheResponding()" (cacheResponding pkt) ;;
          massert "snoop_response_cmd == MemCmd::InvalidCmd" (bool_decide (r.1 = InvalidCmd)) ;;
          snoop_responded pkt p exclude source ;;
          atomic_loop orig_cmd exclude source dests (set_cmd orig_cmd pkt) (cmd pkt, latency)
  end.

Definition forwardAtomic (pkt : Pkt) (exclude source : Z) (dests : list SnoopFilter.Port) : M CXBar (Pkt * (Command * Z)) :=
  massert "!system->bypassCaches()" (negb bypassCaches) ;;
  atomic_loop (cmd pkt) exclude source dests pkt (InvalidCmd, 0).

(** The snoops of a request: the packet, the command of the response if there
    is one, and the latency. *)
Definition atomic_snoops (pkt : Pkt) (cpu_side_port_id : Z) : M CXBar (Pkt * (Command * Z)) :=
  x ← gets (λ x, x);
  match XBar.snoopFilter (xbar x) with
  | Some _ =>
      src ← cpu_port cpu_side_port_id;
      sf_res ← on_filter (SnoopFilter.lookupRequest cfg (XBar.sf (base pkt)) src) ([], 0);
      let latency := u64 (sf_res.2 * clockPeriod) in
      on_filter (SnoopFilter.finishRequest cfg false (getAddr pkt) (isSecure pkt)) tt ;;
      if isEviction (cmd pkt) then
        mret (if bool_decide (sf_res.1 = []) then pkt else setBlockCached pkt, (InvalidCmd, latency))
      else
        r ← forwardAtomic pkt cpu_side_port_id XBarDecode.InvalidPortID sf_res.1;
        mret (r.1, (r.2.1, u64 (latency + r.2.2)))
  | None => forwardAtomic pkt cpu_side_port_id XBarDecode.InvalidPortID (snoopPorts x)
  end.

(** The access itself: sunk, handed on, or answered here. *)
Definition atomic_access (pkt : Pkt) (mem_side_port_id : Z) (sink_packet is_destination backdoor : bool) : M CXBar (Pkt * Z) :=
  if sink_packet then mret (pkt, 0)
  else if forwardPacket P pkt then
    let pkt := if isWrite (cmd pkt) && is_destination then clearWriteThrough pkt else pkt in
    modify (emit (ReqTo mem_side_port_id pkt)) ;;
    let '(latency, pkt) := (if backdoor then sendAtomicBackdoor else sendAtomic) mem_side_port_id pkt in
    mret (pkt, latency)
  else
    massert "pkt->needsResponse()" (needsResponse (cmd pkt)) ;;
    rsp ← lift (makeResponse pkt);
    mret (rsp, 0).

(** The table of outstanding cache maintenance operations. *)
Definition atomic_clean (pkt : Pkt) : M CXBar unit :=
  x ← gets (λ x, x);
  let id := XBar.pk_id (base pkt) in
  if isClean (cmd pkt) && isDestination P pkt && satisfied pkt then
    massert "it != outstandingCMO.end()" (bool_decide (is_Some (outstandingCMO x !! id))) ;;
    modify (set_outstandingCMO (delete id (outstandingCMO x)))
  else when (bool_decide (cmd pkt = WriteClean) && isDestination P pkt)
    (massert "ret.second" (bool_decide (outstandingCMO x !! id = None)) ;;
     modify (set_outstandingCMO (<[id := None]> (outstandingCMO x)))).

(** Returns the latency and the packet. *)
Definition recvAtomicBackdoor (pkt : Pkt) (cpu_side_port_id : Z) (backdoor : bool) : M CXBar (Z * Pkt) :=
  let is_destination := isDestination P pkt in
  let snoop_caches := negb bypassCaches && negb (bool_decide (cmd pkt = WriteClean)) in
  s ← (if snoop_caches then atomic_snoops pkt cpu_side_port_id else mret (pkt, (InvalidCmd, 0)));
  let '(pkt, (snoop_response_cmd, snoop_response_latency)) := s in
  sink_packet ← lift (sinkPacket P pkt);
  mem_side_port_id ← on_decoder (XBarDecode.findPort (defaultPortID P) (useDefaultRange P) (getAddrRange pkt));
  a ← atomic_access pkt mem_side_port_id sink_packet is_destination backdoor;
  let '(pkt, response_latency) := a in
  when (negb bypassCaches && isResponse (cmd pkt))
    (with_filter (p ← cpu_port cpu_side_port_id; on_xbar (XBar.tell_filter (xp P) (base pkt) p))) ;;
  let snoop_responds := negb (bool_decide (snoop_response_cmd = InvalidCmd)) in
  when snoop_responds (massert "!pkt->isResponse()" (negb (isResponse (cmd pkt)))) ;;
  let pkt := if snoop_responds then set_cmd snoop_response_cmd pkt else pkt in
  let response_latency := if snoop_responds then snoop_response_latency else response_latency in
  atomic_clean pkt ;;
  mret (response_latency, set_payloadDelay (u32 response_latency) pkt).

Definition recvAtomicSnoop (pkt : Pkt) (mem_side_port_id : Z) : M CXBar (Z * Pkt) :=
  x ← gets (λ x, x);
  s ← match XBar.snoopFilter (xbar x) with
      | Some _ =>
          sf_res ← on_filter (SnoopFilter.lookupSnoop cfg (XBar.sf (base pkt))) ([], 0);
          r ← forwardAtomic pkt XBarDecode.InvalidPortID mem_side_port_id sf_res.1;
          mret (r.1, (r.2.1, u64 (u64 (sf_res.2 * clockPeriod) + r.2.2)))
      | None => forwardAtomic pkt XBarDecode.InvalidPortID XBarDecode.InvalidPortID (snoopPorts x)
      end;
  let '(pkt, (snoop_response_cmd, latency)) := s in
  let pkt := if bool_decide (snoop_response_cmd = InvalidCmd) then pkt else set_cmd snoop_response_cmd pkt in
  mret (latency, set_payloadDelay (u32 latency) pkt).
End atomic.
End Atomic.

Import Atomic.

(** ** What peers may do *)

(** A snooped cache or the memory may answer and set flags and delays; it does
    not change what the access is about, nor the flags of its request. *)
Definition same_access (k k' : Pkt) : Prop :=
  (req k' = req k ∧ getAddr k' = getAddr k ∧ isSecure k' = isSecure k ∧ toPOC k' = toPOC k ∧ toPOU k' = toPOU k) ∧
  uncacheable k' = uncacheable k ∧ maintenance k' = maintenance k.

#[export] Instance same_access_po : PreOrder same_access.
Proof. split; [by intros k|]. intros a b c ((?&?&?&?&?)&?&?) ((?&?&?&?&?)&?&?). unfold same_access. split_and!; congruence. Qed.

Lemma same_access_line P k k' : same_access k k' → line P k' = line P k.
Proof. intros ((_ & Ea & Es & _ & _) & _). unfold line, SnoopFilter.line_addr, getAddr, isSecure in *. by rewrite Ea, Es. Qed.

(** A snooper that does not respond leaves the command alone. *)
Definition snooper_ok (f : Z → Pkt → Z * Pkt) : Prop :=
  ∀ i k, same_access k (f i k).2 ∧ (isResponse (cmd (f i k).2) = false → cmd (f i k).2 = cmd k).

Definition memory_ok (f : Z → Pkt → Z * Pkt) : Prop := ∀ i k, same_access k (f i k).2.

Lemma massert_inv {St} what b (x : St) u x' : massert what b x = Ok (u, x') → b = true ∧ x' = x.
Proof. unfold massert. destruct b; [by intros [= _ <-]|done]. Qed.

Lemma omap_cons {A B} (f : A → option B) x l : omap f (x :: l) = match f x with Some y => y :: omap f l | None => omap f l end.
Proof. done. Qed.

Section proofs.
Context (P : Params) (sendAtomicSnoop sendAtomic sendAtomicBackdoor : Z → Pkt → Z * Pkt).
Hypothesis snooper : snooper_ok sendAtomicSnoop.
Notation cfg := (XBar.sfConfig (xp P)).

(** ** Who is snooped and who answers *)

(** The response of the peer an output was handed to, and its latency. *)
Definition responds (o : Output) : option (Command * Z) :=
  match o with
  | SnoopReqTo i k => let '(latency, k') := sendAtomicSnoop i k in if isResponse (cmd k') then Some (cmd k', latency) else None
  | _ => None
  end.

Lemma same_access_request k k' : same_access k k' → cmd k' = cmd k → same_request k k'.
Proof. intros ((?&?&?&?&?)&_) ?. by unfold same_request. Qed.

Lemma keeps_with_filter {T} (F : CXBar → T) m : keeps F m → keeps F (with_filter m).
Proof. intros Hm. unfold with_filter. keeps_tac. Qed.

Lemma on_filter_outputs {A} (f : M SnoopFilter.Filter A) d : keeps outputs (on_filter f d).
Proof. intros x a x' H. by apply on_filter_inv in H as (_ & ? & _). Qed.
Hint Resolve on_filter_outputs : keeps.

Lemma snoop_responded_outputs k p exclude source : keeps outputs (snoop_responded P k p exclude source).
Proof. unfold snoop_responded. apply keeps_with_filter. keeps_tac. Qed.

Lemma atomic_loop_inv orig exclude source dests : ∀ k r x k' r' x',
  cmd k = orig → atomic_loop P sendAtomicSnoop orig exclude source dests k r x = Ok ((k', r'), x') →
  same_request k k' ∧ ∃ l, outputs x' = outputs x ++ l ∧ snooped_to k exclude dests l ∧
    (omap responds l = [] ∧ r' = r ∨ r.1 = InvalidCmd ∧ omap responds l = [r']).
Proof using snooper.
  induction dests as [|p dests IH]; intros k r x k' r' x' Hk H; cbn [atomic_loop] in H.
  { injection H as <- <- <-. split; [done|]. exists []. split; [by rewrite app_nil_r|]. split; [|by left].
    split; intros ? ?%elem_of_nil; done. }
  set (here := negb (negb (exclude =? XBarDecode.InvalidPortID) && (SnoopFilter.p_id p =? exclude))).
  assert (here = true ↔ exclude = XBarDecode.InvalidPortID ∨ SnoopFilter.p_id p ≠ exclude) as Hc.
  { unfold here. rewrite negb_true_iff, andb_false_iff, negb_false_iff, Z.eqb_eq, Z.eqb_neq. done. }
  destruct (_ && _) eqn:E.
  { apply IH in H as (Hs & l & Hl & Hto & Hr); [|done]. split; [done|]. exists l. split; [done|]. split; [|done].
    by apply (snooped_to_cons here k k). }
  step_M H. destruct (snooper (SnoopFilter.p_id p) k) as [Hsame Hcmd].
  destruct (sendAtomicSnoop (SnoopFilter.p_id p) k) as [lat k1] eqn:Hsend. cbn [snd] in Hsame, Hcmd.
  destruct (isResponse (cmd k1)) eqn:Hresp; cbn [negb] in H.
  - apply M_bind_inv in H as (? & y1 & [_ ->]%massert_inv & H). apply M_bind_inv in H as (? & y2 & [_ ->]%massert_inv & H).
    apply M_bind_inv in H as (? & y3 & [Hr0%bool_decide_eq_true ->]%massert_inv & H).
    apply M_bind_inv in H as (? & y & Hf & H). apply snoop_responded_outputs in Hf.
    assert (same_request k (set_cmd orig k1)) as Hk1 by (apply same_access_request; [exact Hsame|by rewrite <-Hk]).
    apply IH in H as (Hs & l & Hl & Hto & Hr); [|done]. split; [by etransitivity|].
    exists (SnoopReqTo (SnoopFilter.p_id p) k :: l). split; [rewrite Hl, Hf; simpl; by rewrite <-app_assoc|].
    split; [by apply (snooped_to_cons here k (set_cmd orig k1))|]. right. split; [done|]. rewrite omap_cons. cbn [responds]. rewrite Hsend, Hresp.
    destruct Hr as [[-> ->]|[E' _]]; [done|]. simpl in E'. by rewrite E' in Hresp.
  - assert (same_request k k1) as Hk1 by (apply same_access_request; auto).
    apply IH in H as (Hs & l & Hl & Hto & Hr); [|by rewrite Hcmd]. split; [by etransitivity|].
    exists (SnoopReqTo (SnoopFilter.p_id p) k :: l). split; [rewrite Hl; simpl; by rewrite <-app_assoc|].
    split; [by apply (snooped_to_cons here k k1)|]. rewrite omap_cons. cbn [responds]. by rewrite Hsend, Hresp.
Qed.

Lemma lookupRequest_latency k p f l lat f' :
  SnoopFilter.lookupRequest cfg k p f = Ok ((l, lat), f') → lat = SnoopFilter.lookupLatency cfg.
Proof.
  unfold SnoopFilter.lookupRequest. intros H. run_M H. destruct (_ && negb _); run_M H.
  { by injection H. }
  apply M_bind_inv in H as (u1 & f1 & _ & H). run_M H. apply M_bind_inv in H as (u2 & f2 & _ & H). run_M H. by injection H.
Qed.

(** The latency of a lookup of the filter. *)
Definition lookup_time : Z := u64 (SnoopFilter.lookupLatency cfg * XBar.clockPeriod (xp P)).

(** The lookup and its [finishRequest] are one request to the filter. *)
Lemma atomic_snoops_filter k c x k' r x' f :
  filter_in x = Some f → atomic_snoops P sendAtomicSnoop k c x = Ok ((k', r), x') →
  ∃ src dests f1 x1, cpu_port c x = Ok (src, x) ∧ request cfg (XBar.sf (base k)) src false f = Ok (dests, f1) ∧
    filter_in x1 = Some f1 ∧ ports_of x1 = ports_of x ∧ outputs x1 = outputs x ∧
    if isEviction (cmd k) then x' = x1
    else ∃ r0, forwardAtomic P sendAtomicSnoop k c XBarDecode.InvalidPortID dests x1 = Ok ((k', r0), x') ∧
           r = (r0.1, u64 (lookup_time + r0.2)).
Proof.
  intros Hf H. unfold atomic_snoops in H. step_M H. rewrite Hf in H.
  apply M_bind_inv in H as (src & y & Hsrc & H). pose proof Hsrc as E. apply (keeps_cpu_port (λ x, x)) in E as ->.
  apply M_bind_inv in H as ([dests lat] & x1 & Hl & H). apply on_filter_inv in Hl as (Hp1 & Ho1 & Hl). rewrite Hf in Hl.
  destruct Hl as (f1 & Hl & Hf1). apply lookupRequest_latency in Hl as Hlat. cbn [fst snd] in H. rewrite Hlat in H. fold lookup_time in H.
  apply M_bind_inv in H as ([] & x2 & Hfin & H). apply on_filter_inv in Hfin as (Hp2 & Ho2 & Hfin). rewrite Hf1 in Hfin.
  destruct Hfin as (f2 & Hfin & Hf2).
  exists src, dests, f2, x2. split; [done|]. split.
  { unfold request. rewrite (M_bind_ok _ _ _ _ _ Hl). by rewrite (M_bind_ok _ _ _ _ _ Hfin). }
  split; [done|]. split; [congruence|]. split; [congruence|]. destruct (isEviction (cmd k)).
  - by injection H as _ _ <-.
  - apply M_bind_inv in H as ([k2 r2] & x3 & Hfw & H). injection H as <- <- <-. by exists r2.
Qed.

Lemma forwardAtomic_inv k exclude source dests x k' r x' :
  forwardAtomic P sendAtomicSnoop k exclude source dests x = Ok ((k', r), x') →
  same_request k k' ∧ ∃ l, outputs x' = outputs x ++ l ∧ snooped_to k exclude dests l ∧
    (omap responds l = [] ∧ r = (InvalidCmd, 0) ∨ omap responds l = [r]).
Proof using snooper.
  unfold forwardAtomic. intros (u & y & [_ ->]%massert_inv & H)%M_bind_inv.
  apply atomic_loop_inv in H as (Hs & l & Hl & Hto & Hr); [|done]. split; [done|]. exists l. split; [done|]. split; [done|].
  destruct Hr as [?|[_ ?]]; [by left|by right].
Qed.

(** ** What the filter is told *)

(** A cache that answers says that there are no sharers: it hands over the only
    copy. *)
Definition hands_over (l : list Output) : Prop :=
  ∃ i k, SnoopReqTo i k ∈ l ∧ isResponse (cmd (sendAtomicSnoop i k).2) = true ∧
    SnoopFilter.pk_hasSharers (XBar.sf (base (sendAtomicSnoop i k).2)) = false.

Lemma keeps_responded k p exclude source : keeps ports_of (snoop_responded P k p exclude source).
Proof.
  assert (∀ A (f : M SnoopFilter.Filter A) d, keeps ports_of (on_filter f d)) as Hf.
  { intros A f d x a x' H. by apply on_filter_inv in H as (? & _). }
  unfold snoop_responded. apply keeps_with_filter. keeps_tac; apply Hf.
Qed.

(** The filter hears of the one response, if there is one. *)
Lemma atomic_loop_told orig exclude source dests : ∀ k r x k' r' x' f,
  filter_in x = Some f → cmd k = orig → atomic_loop P sendAtomicSnoop orig exclude source dests k r x = Ok ((k', r'), x') →
  ports_of x' = ports_of x ∧ same_access k k' ∧ ∃ l, outputs x' = outputs x ++ l ∧
    (filter_in x' = Some f ∧ omap responds l = [] ∨
     r.1 = InvalidCmd ∧ ∃ i kk p y y', SnoopReqTo i kk ∈ l ∧ isResponse (cmd (sendAtomicSnoop i kk).2) = true ∧
       same_access k (sendAtomicSnoop i kk).2 ∧ above y = above x ∧
       snoop_responded P (sendAtomicSnoop i kk).2 p exclude source y = Ok (tt, y') ∧ filter_in x' = filter_in y').
Proof using snooper.
  induction dests as [|p dests IH]; intros k r x k' r' x' f Hf Hk H; cbn [atomic_loop] in H.
  { injection H as <- _ <-. split; [done|]. split; [done|]. exists []. split; [by rewrite app_nil_r|]. by left. }
  destruct (_ && _).
  { by eapply IH. }
  step_M H. destruct (snooper (SnoopFilter.p_id p) k) as [Hsame Hcmd].
  destruct (sendAtomicSnoop (SnoopFilter.p_id p) k) as [lat k1] eqn:Hsend. cbn [snd] in Hsame, Hcmd.
  destruct (isResponse (cmd k1)) eqn:Hresp; cbn [negb] in H.
  - apply M_bind_inv in H as (? & y1 & [_ ->]%massert_inv & H). apply M_bind_inv in H as (? & y2 & [_ ->]%massert_inv & H).
    apply M_bind_inv in H as (? & y3 & [Hr0%bool_decide_eq_true ->]%massert_inv & H).
    apply M_bind_inv in H as ([] & y & Hr & H). pose proof (snoop_responded_outputs _ _ _ _ _ _ _ Hr) as Ho.
    pose proof (keeps_responded _ _ _ _ _ _ _ Hr) as Hp.
    assert (∃ f1, filter_in y = Some f1) as [f1 Hf1].
    { unfold snoop_responded, with_filter in Hr. step_M Hr. simpl in Hr. rewrite Hf in Hr. destruct (negb _).
      - apply M_bind_inv in Hr as (? & y1 & [_ ->]%massert_inv & Hr). apply on_filter_inv in Hr as (_ & _ & Hr). simpl in Hr.
        rewrite Hf in Hr. destruct Hr as (f1 & _ & ?). eauto.
      - apply M_bind_inv in Hr as (q & y1 & Hq & Hr). apply (keeps_cpu_port (λ x, x)) in Hq as ->.
        apply on_filter_inv in Hr as (_ & _ & Hr). simpl in Hr. rewrite Hf in Hr. destruct Hr as (f1 & _ & ?). eauto. }
    destruct (IH (set_cmd orig k1) _ _ _ _ _ _ Hf1 eq_refl H) as (Hp' & Hs & l & Hl & [[Hf' Hnone]|[E _]]).
    2:{ simpl in E. by rewrite E in Hresp. }
    split; [by rewrite Hp', Hp|]. split; [etransitivity; [exact Hsame|exact Hs]|]. exists (SnoopReqTo (SnoopFilter.p_id p) k :: l).
    split; [rewrite Hl, Ho; simpl; by rewrite <-app_assoc|]. right. split; [done|].
    exists (SnoopFilter.p_id p), k, p, (emit (SnoopReqTo (SnoopFilter.p_id p) k) x), y. rewrite Hsend. simpl.
    split; [by left|]. split; [done|]. split; [exact Hsame|]. split; [done|]. split; [done|congruence].
  - destruct (IH k1 r (emit (SnoopReqTo (SnoopFilter.p_id p) k) x) _ _ _ f Hf ltac:(by rewrite Hcmd) H)
      as (Hp' & Hs & l & Hl & Hcase).
    split; [done|]. split; [by etransitivity|]. exists (SnoopReqTo (SnoopFilter.p_id p) k :: l).
    split; [rewrite Hl; simpl; by rewrite <-app_assoc|]. destruct Hcase as [[? ?]|(? & i & kk & q & y & y' & Hin & ? & ? & ? & ? & ?)]; [left|right].
    + split; [done|]. rewrite omap_cons. cbn [responds]. by rewrite Hsend, Hresp.
    + split; [done|]. exists i, kk, q, y, y'. split; [by right|]. split; [done|]. split; [by etransitivity|].
      split; [by etransitivity|]. done.
Qed.

(** The end of an access, as the filter sees it. *)
Lemma recvAtomicBackdoor_told k c b x lat k' x' :
  memory_ok sendAtomic → memory_ok sendAtomicBackdoor → XBar.bypassCaches (xp P) = false → cmd k ≠ WriteClean →
  recvAtomicBackdoor P sendAtomicSnoop sendAtomic sendAtomicBackdoor k c b x = Ok ((lat, k'), x') →
  ∃ k1 rc rl x1 k2 x3, atomic_snoops P sendAtomicSnoop k c x = Ok ((k1, (rc, rl)), x1) ∧ above x3 = above x1 ∧ same_access k1 k2 ∧
    (if bool_decide (rc = InvalidCmd) then cmd k' = cmd k2 else cmd k' = rc ∧ isResponse (cmd k2) = false) ∧
    ∃ x4, (if isResponse (cmd k2) then with_filter (p ← cpu_port c; on_xbar (XBar.tell_filter (xp P) (base k2) p)) else mret tt) x3 = Ok (tt, x4) ∧
      filter_in x' = filter_in x4.
Proof.
  intros Hm1 Hm2 Hby Hwc H. unfold recvAtomicBackdoor in H. rewrite Hby, bool_decide_false in H by done. cbn [negb andb] in H.
  apply M_bind_inv in H as ([k1 [rc rl]] & x1 & Hs & H). apply M_bind_inv in H as (sink & y & Hl & H). apply (keeps_lift (λ x, x)) in Hl as ->.
  apply M_bind_inv in H as (m & x2 & Hm & H). apply M_bind_inv in H as ([k2 lat2] & x3 & Ha & H).
  apply M_bind_inv in H as ([] & x4 & Ht & H). apply M_bind_inv in H as (u & x5 & Hr & H).
  pose proof Hr as E5. apply (keeps_when (λ x, x)) in E5; [|intros _; apply keeps_massert]. subst x5.
  apply M_bind_inv in H as (u' & x6 & Hc & H). injection H as _ <- <-.
  exists k1, rc, rl, x1, k2, x3. split; [done|].
  assert (above x2 = above x1) as E2 by (revert Hm; by apply keeps_on_decoder).
  assert (above x3 = above x2 ∧ same_access k1 k2) as [E3 Hk2].
  { unfold atomic_access in Ha. destruct sink; [by injection Ha as <- _ <-|]. destruct (forwardPacket P k1).
    - step_M Ha. match type of Ha with context [(if b then _ else _) m ?kk] => set (k3 := kk) in *; assert (same_access k1 k3) as Hk3 end.
      { unfold k3. destruct (_ && _); [|reflexivity]. done. }
      assert (same_access k3 ((if b then sendAtomicBackdoor else sendAtomic) m k3).2) as Hk4 by (destruct b; auto).
      destruct ((if b then sendAtomicBackdoor else sendAtomic) m k3) as [l k4]. injection Ha as <- _ <-. split; [done|by etransitivity].
    - apply M_bind_inv in Ha as (? & y & [_ ->]%massert_inv & Ha). apply M_bind_inv in Ha as (rsp & y & Hr' & Ha). pose proof Hr' as E.
      apply (keeps_lift (λ x, x)) in E as ->. injection Ha as <- _ <-. split; [done|]. unfold lift in Hr'.
      unfold makeResponse in Hr'. destruct (negb _); [done|]. destruct (negb _); [done|]. destruct (responseCommand _); [|done].
      cbn [mbind res_bind] in Hr'. by injection Hr' as <-. }
  split; [congruence|]. split; [done|]. split.
  - case_bool_decide as Hrc; simpl in Hr |- *; [done|]. split; [done|]. apply massert_inv in Hr as [Hr _]. by apply negb_true_iff in Hr.
  - exists x4. split; [by destruct (isResponse (cmd k2))|]. assert (xbar x6 = xbar x4) as -> by (revert Hc; unfold atomic_clean; keeps_tac). done.
Qed.
End proofs.

(** ** Theorems *)

(** The access below: nothing is handed on and it takes no time, or the memory
    side is called once and its latency counts. *)
Lemma atomic_access_inv P sendAtomic sendAtomicBackdoor k m s d b x k' lat x' :
  atomic_access P sendAtomic sendAtomicBackdoor k m s d b x = Ok ((k', lat), x') →
  (outputs x' = outputs x ∧ lat = 0) ∨
  ∃ k1, outputs x' = outputs x ++ [ReqTo m k1] ∧ same_request k k1 ∧ lat = ((if b then sendAtomicBackdoor else sendAtomic) m k1).1.
Proof.
  unfold atomic_access. intros H. destruct s; [injection H as _ <- <-; by left|]. destruct (forwardPacket P k).
  - right. step_M H. match type of H with context [(if b then _ else _) m ?kk] => set (k1 := kk) in *; exists k1 end.
    destruct ((if b then sendAtomicBackdoor else sendAtomic) m k1) as [l k2]. injection H as _ <- <-.
    split; [done|]. split; [|done]. unfold k1. by destruct (_ && _).
  - apply M_bind_inv in H as (u & y & [_ ->]%massert_inv & H). apply M_bind_inv in H as (rsp & y & Hl & H).
    apply (keeps_lift (λ x, x)) in Hl as ->. injection H as _ <- <-. by left.
Qed.

(** The end of an access, after the caches were snooped. *)
Lemma recvAtomicBackdoor_inv P sendAtomicSnoop sendAtomic sendAtomicBackdoor k c b x lat k' x' :
  XBar.bypassCaches (xp P) = false → cmd k ≠ WriteClean →
  recvAtomicBackdoor P sendAtomicSnoop sendAtomic sendAtomicBackdoor k c b x = Ok ((lat, k'), x') →
  ∃ k1 rc rl x1, atomic_snoops P sendAtomicSnoop k c x = Ok ((k1, (rc, rl)), x1) ∧
    ∃ m fw, outputs x' = outputs x1 ++ fw ∧
      (fw = [] ∨ ∃ k2, fw = [ReqTo m k2] ∧ same_request k1 k2) ∧
      (rc ≠ InvalidCmd → cmd k' = rc ∧ lat = rl) ∧
      (rc = InvalidCmd → fw = [] ∧ lat = 0 ∨
         ∃ k2, fw = [ReqTo m k2] ∧ lat = ((if b then sendAtomicBackdoor else sendAtomic) m k2).1).
Proof.
  intros Hby Hwc H. unfold recvAtomicBackdoor in H. rewrite Hby, bool_decide_false in H by done. cbn [negb andb] in H.
  apply M_bind_inv in H as ([k1 [rc rl]] & x1 & Hs & H). exists k1, rc, rl, x1. split; [done|].
  apply M_bind_inv in H as (sink & y & Hl & H). apply (keeps_lift (λ x, x)) in Hl as ->.
  apply M_bind_inv in H as (m & x2 & Hm & H). assert (outputs x2 = outputs x1) as O2 by (revert Hm; by apply keeps_on_decoder).
  apply M_bind_inv in H as ([k2 lat2] & x3 & Ha & H). apply M_bind_inv in H as ([] & x4 & Ht & H).
  assert (outputs x4 = outputs x3) as O4.
  { revert Ht. apply keeps_when. intros _. apply keeps_with_filter, keeps_bind; [keeps_tac|intros p]. by apply keeps_on_xbar. }
  apply M_bind_inv in H as (u & x5 & Hr & H). assert (x5 = x4) as -> by (revert Hr; apply (keeps_when (λ x, x)); intros _; apply keeps_massert).
  apply M_bind_inv in H as (u' & x6 & Hc & H). assert (outputs x6 = outputs x4) as O6 by (revert Hc; unfold atomic_clean; keeps_tac).
  injection H as <- <- <-. exists m. apply atomic_access_inv in Ha.
  assert (∃ fw, outputs x6 = outputs x1 ++ fw ∧ (fw = [] ∧ lat2 = 0 ∨ ∃ k3, fw = [ReqTo m k3] ∧ same_request k1 k3 ∧
    lat2 = ((if b then sendAtomicBackdoor else sendAtomic) m k3).1)) as (fw & Ho & Hfw).
  { destruct Ha as [[O3 ->]|(k3 & O3 & Hk3 & ->)]; [exists []|exists [ReqTo m k3]]; rewrite O6, O4, O3, O2, ?app_nil_r;
      (split; [done|]); [by left|right; by exists k3]. }
  exists fw. split; [done|]. split; [destruct Hfw as [[-> _]|(k3 & -> & ? & _)]; [by left|right; by exists k3]|].
  split; intros E; [rewrite bool_decide_false by done|rewrite bool_decide_true by done]; [done|].
  destruct Hfw as [?|(k3 & ? & _ & ?)]; [by left|right; by exists k3].
Qed.

(** The copies after an atomic access [k] of port [c], of which [k'] came back and
    [l] was handed out: the requester has one if it asked for one and was answered,
    and none after an invalidating maintenance operation; a cache that handed over
    the only copy, and all others, have none. *)
Definition follows (P : Params) sendAtomicSnoop (src : SnoopFilter.Port) (k k' : Pkt) (c : Z) (l : list Output) (cp cp' : Copies) : Prop :=
  ∀ a j, cp' a j →
    cp a j ∧ ¬ (hands_over sendAtomicSnoop l ∧ a = line P k) ∧
      ¬ ((maintenance k = true ∧ isInvalidate (cmd k') = true) ∧ a = line P k ∧ j = c) ∨
    (isResponse (cmd k') = true ∧ tracked (XBar.sf (base k)) src = true ∧ asks (XBar.sf (base k)) = true ∧ maintenance k = false) ∧
      a = line P k ∧ j = c.

(** The filter knows the copies after the access. *)
Lemma atomic_filter_sound P ports sendAtomicSnoop sendAtomic sendAtomicBackdoor x f cp k c src b lat k' x' :
  wired P ports → map XBar.port (ports_of x) = ports → filter_in x = Some f →
  sound ports (XBar.sfConfig (xp P)) f (λ _ _, False) (has ports cp) →
  snooper_ok sendAtomicSnoop → memory_ok sendAtomic → memory_ok sendAtomicBackdoor →
  XBar.bypassCaches (xp P) = false → cmd k ≠ WriteClean → isEviction (cmd k) = false → cpu_port c x = Ok (src, x) →
  recvAtomicBackdoor P sendAtomicSnoop sendAtomic sendAtomicBackdoor k c b x = Ok ((lat, k'), x') →
  ∃ k1 r x1 l, atomic_snoops P sendAtomicSnoop k c x = Ok ((k1, r), x1) ∧ outputs x1 = outputs x ++ l ∧
    ∃ f', filter_in x' = Some f' ∧
      ∀ cp', follows P sendAtomicSnoop src k k' c l cp cp' → sound ports (XBar.sfConfig (xp P)) f' (λ _ _, False) (has ports cp').
Proof.
  intros Hw Hports Hf Hs Hsn Hm1 Hm2 Hby Hwc Hev Hsrc H. pose proof (wired_configured P ports Hw) as Hconf.
  destruct (recvAtomicBackdoor_told P _ _ _ _ _ _ _ _ _ _ Hm1 Hm2 Hby Hwc H) as (k1 & rc & rl & x1 & k2 & x3 & Hsnoops & E3 & Hk12 & Hcmd & x4 & Ht & Hf').
  destruct (atomic_snoops_filter _ _ _ _ _ _ _ _ _ Hf Hsnoops) as (src' & dests & f1 & x0 & Hsrc' & Hreq & Hf0 & Hp0 & Ho0 & Hfwd).
  assert (src' = src) as -> by congruence. rewrite Hev in Hfwd. destruct Hfwd as (r0 & Hfwd & [= -> ->]).
  destruct (port_at P ports Hw _ _ _ Hports Hsrc) as (Hsin & Hsid & Hc0).
  set (w := λ (a : Z) (p : SnoopFilter.Port), (tracked (XBar.sf (base k)) src = true ∧ asks (XBar.sf (base k)) = true) ∧ a = line P k ∧ p = src).
  assert (sound ports (XBar.sfConfig (xp P)) f1 w (has ports cp)) as Hs1.
  { eapply (request_sound ports _ Hconf); [exact Hs|exact Hsin|exact Hreq| |].
    - intros a q ((? & ?) & -> & ->). by right.
    - intros a q ?. split; [done|]. intros ((_ & Htr & Hg) & _). apply request_inv in Hreq as (rp & i' & _ & _ & Hi & _); [|apply Hs].
      rewrite Htr in Hi. apply (track_evicts _ _ _ _ Hi) in Hg. change (isEviction (cmd k) = true) in Hg. congruence. }
  unfold forwardAtomic in Hfwd. apply M_bind_inv in Hfwd as (u & y & [_ ->]%massert_inv & Hloop).
  destruct (atomic_loop_told P _ Hsn _ _ _ _ _ _ _ _ _ _ _ Hf0 eq_refl Hloop) as (Hp1 & Hk01 & l & Hl & Hcase).
  apply atomic_loop_inv in Hloop as (_ & l' & Hl' & _ & Hr); [|done..].
  assert (l' = l) as -> by (rewrite Hl in Hl'; by apply app_inv_head in Hl'). injection E3 as E3 E3'.
  exists k1, (r0.1, u64 (lookup_time P + r0.2)), x1, l. split; [done|]. split; [congruence|].
  destruct Hcase as [[Hf1 Hnone]|(_ & i & kk & p & z & z' & Hin & Hresp & Hsame & Ez & Htold & Hf1)].
  - (* no cache responds *)
    assert (r0 = (InvalidCmd, 0)) as -> by (destruct Hr as [[_ ?]|[_ E]]; [done|by rewrite Hnone in E]).
    simpl in Hcmd. destruct (isResponse (cmd k2)) eqn:Hk2.
    + unfold with_filter in Ht. step_M Ht. rewrite E3, Hf1 in Ht.
      apply M_bind_inv in Ht as (p & y & Hp & Ht). pose proof Hp as E. apply (keeps_cpu_port (λ x, x)) in E as ->.
      assert (p = src) as ->.
      { apply (cpu_port_ports _ x) in Hp; [congruence|]. unfold ports_of in *. congruence. }
      rewrite <-E3 in Hf1. destruct (tell_inv P Hby _ _ _ _ _ _ Hf1 Ht) as (f' & Hu & Hf4 & _). exists f'. split; [congruence|].
      intros cp' Hfol. assert (same_access k k2) as Hk by (by etransitivity).
      pose proof (same_access_line P _ _ Hk) as El. destruct Hk as (_ & Eu & Em).
      eapply (response_sound ports _ Hconf); [exact Hs1|exact Hsin|exact Hu|by intros ? ? []|].
      intros a q [Hq Hc']. fold (uncacheable k2) (maintenance k2) (line P k2). rewrite Em, Eu, El.
      apply Hfol in Hc' as [(? & _ & Hne)|((_ & Htr & Has & Hm) & -> & E)]; [left|right].
      * split; [by split|]. intros (Hd & -> & ->). apply Hne. by rewrite Hcmd.
      * assert (q = src) as -> by (apply (same_port P ports Hw); congruence). split_and!; try done.
        unfold tracked in Htr. unfold uncacheable. by destruct (SnoopFilter.pk_uncacheable _).
    + injection Ht as <-. exists f1. split; [congruence|]. intros cp' Hfol. eapply sound_within; [exact Hs1|by intros ? ? []|].
      intros a q [Hq Hc']. apply Hfol in Hc' as [(? & _)|((E & _) & _)]; [by split|congruence].
  - (* a cache responds *)
    assert (is_Some (responds sendAtomicSnoop (SnoopReqTo i kk))) as [r1 Hr1].
    { simpl. destruct (sendAtomicSnoop i kk) as [d kr]. simpl in Hresp. rewrite Hresp. by eexists. }
    assert (r1 ∈ omap (responds sendAtomicSnoop) l) as Hr1l by (apply list_elem_of_omap; eauto).
    assert (r1 = r0) as -> by (destruct Hr as [[E _]|[_ E]]; rewrite E in Hr1l; [by apply elem_of_nil in Hr1l|by apply list_elem_of_singleton in Hr1l]).
    assert (r0.1 ≠ InvalidCmd) as Hrc.
    { simpl in Hr1. destruct (sendAtomicSnoop i kk) as [d kr]. simpl in Hresp. rewrite Hresp in Hr1. injection Hr1 as <-. simpl.
      intros E. by rewrite E in Hresp. }
    rewrite bool_decide_false in Hcmd by done. destruct Hcmd as [_ Hk2]. rewrite Hk2 in Ht. injection Ht as <-.
    injection Ez as Ez Ez'. unfold snoop_responded, with_filter in Htold. step_M Htold. rewrite Ez, Hf0 in Htold. simpl in Htold.
    apply M_bind_inv in Htold as (q & y & Hp & Htold). pose proof Hp as E. apply (keeps_cpu_port (λ x, x)) in E as ->.
    assert (q = src) as -> by (apply (cpu_port_ports _ x) in Hp; [congruence|]; unfold ports_of in *; congruence).
    apply on_filter_inv in Htold as (_ & _ & Htold). rewrite Ez, Hf0 in Htold. destruct Htold as (f' & Hu & Hf5).
    exists f'. split; [congruence|]. intros cp' Hfol. pose proof (same_access_line P _ _ Hsame) as El. destruct Hsame as (_ & Eu & Em).
    eapply (snoop_response_sound ports _ Hconf); [exact Hs1|exact Hsin|exact Hu|by intros ? ? []|].
    intros a q [Hq Hc']. fold (uncacheable (sendAtomicSnoop i kk).2) (line P (sendAtomicSnoop i kk).2). rewrite Eu, El.
    apply Hfol in Hc' as [(? & Hne & _)|((_ & Htr & Has & Hm) & -> & E)]; [left|right].
    + split; [by split|]. intros ->. left. apply not_false_iff_true. intros Hns. apply Hne. split; [|done]. by exists i, kk.
    + assert (q = src) as -> by (apply (same_port P ports Hw); congruence). split_and!; try done.
      unfold tracked in Htr. unfold uncacheable. by destruct (SnoopFilter.pk_uncacheable _).
Qed.


(** ** An example *)

(** The first PE has the line, and answers the second's atomic read of it. *)
Definition owner_answers (i : Z) (k : Pkt) : Z * Pkt :=
  if i =? 0 then
    let s := XBar.sf (base k) in
    (7000, set_sf (SnoopFilter.mkPkt ReadExResp (SnoopFilter.pk_addr s) (SnoopFilter.pk_secure s) (SnoopFilter.pk_uncacheable s)
                     (SnoopFilter.pk_maintenance s) (SnoopFilter.pk_broadcast s) true (SnoopFilter.pk_hasSharers s)
                     (SnoopFilter.pk_blockCached s)) k)
  else (0, k).
Definition memory_answers (i : Z) (k : Pkt) : Z * Pkt := (30000, k).
Definition atomic_4 : CXBar :=
  run_cxbar (recvAtomicBackdoor example_cparams owner_answers memory_answers memory_answers exclusive_read 1 false) (crossbar system_3).

Lemma owner_answers_ok : snooper_ok owner_answers.
Proof. intros i k. unfold owner_answers. destruct (i =? 0); split; (done || reflexivity). Qed.

(** The filter knows the first PE's copy. *)
Lemma shared_known : known example_cparams (map XBar.port (ports_of example_new)) system_3.
Proof. exact (reached_known example_cparams 3 false _ 64 1 65536 example_init eq_refl system_3 shared_system). Qed.

(** The copies after the access: the second PE's only. *)
Definition moved_cached (a j : Z) : Prop := a = 64 ∧ j = 1.

