(* ===== verification/PacketData.v ===== *)
(** * Functional accesses

    A functional access looks through the system for the newest data of an
    address without taking time.  [Packet::trySatisfyFunctional]
    ([mem/packet.cc], [mem/packet.hh]) checks it against one packet in transit: a
    read takes over the bytes the packet has and remembers which bytes it has got
    ([bytesValid]), a write updates the packet.  A packet queue does this for all
    its packets, and the coherent crossbar asks its snoopers, then the queues of
    its ports, then the memory side. *)
From stdpp Require Import base tactics list gmap strings relations.
From Stdlib Require Import ZArith Lia.
From S2P Require Import Prelude MemCmd Clocked PacketQueue SnoopFilter XBar AddrRange XBarDecode CoherentXBar.
Local Open Scope Z_scope.

Module Functional.
(** ** Packets with data *)

(** [data] is [None] when no data pointer is set; [req_masked] is
    [req->isMasked()]. *)
Record Pkt := mkPkt {
  cmd : Command;
  addr : Z;
  secure : bool;
  size : Z;
  req_masked : bool;
  data : option (list Z);
  bytesValid : list bool;
}.

Definition set_cmd (c : Command) (k : Pkt) : Pkt := mkPkt c (addr k) (secure k) (size k) (req_masked k) (data k) (bytesValid k).
Definition set_data (d : list Z) (k : Pkt) : Pkt := mkPkt (cmd k) (addr k) (secure k) (size k) (req_masked k) (Some d) (bytesValid k).
Definition set_valid (v : list bool) (k : Pkt) : Pkt := mkPkt (cmd k) (addr k) (secure k) (size k) (req_masked k) (data k) v.

Definition isMaskedWrite (k : Pkt) : bool := bool_decide (cmd k = WriteReq) && req_masked k.

Definition getConstPtr (k : Pkt) : res (list Z) :=
  of_option (EAssert "flags.isSet(STATIC_DATA|DYNAMIC_DATA)") (data k).
Definition getPtr (k : Pkt) : res (list Z) :=
  d ← getConstPtr k;
  if isMaskedWrite k then Err (EAssert "!isMaskedWrite()") else Ok d.

(** [memcpy(dst + doff, src + soff, n)]; returns the new contents of [dst]. *)
Definition memcpy (dst : list Z) (doff : Z) (src : list Z) (soff n : Z) : res (list Z) :=
  if (0 <=? doff) && (0 <=? soff) && (0 <=? n) && (doff + n <=? Z.of_nat (length dst)) && (soff + n <=? Z.of_nat (length src))
  then Ok (take (Z.to_nat doff) dst ++ take (Z.to_nat n) (drop (Z.to_nat soff) src) ++ drop (Z.to_nat (doff + n)) dst)
  else Err EOutOfRange.

(** [for (; all && i < i + n; ++i) all &= bytesValid[i];] *)
Fixpoint check_valid (v : list bool) (n : nat) (i : Z) (all : bool) : res bool :=
  match n with
  | O => Ok all
  | S n => if all then b ← vec_get v i; check_valid v n (i + 1) b else Ok false
  end.

(** [for (; n > 0; ++i, --n) bytesValid[i] = true;] *)
Fixpoint mark_valid (n : nat) (i : Z) (v : list bool) : res (list bool) :=
  match n with
  | O => Ok v
  | S n => v ← vec_set v i true; mark_valid n (i + 1) v
  end.

(** A read takes over [overlap_size] bytes; returns whether it has all its bytes
    now. *)
Definition fill_read (k : Pkt) (d : list Z) (func_offset val_offset overlap_size : Z) : res (bool * Pkt) :=
  p ← getPtr k;
  p ← memcpy p func_offset d val_offset overlap_size;
  let v := if bool_decide (bytesValid k = []) then replicate (Z.to_nat (size k)) false else bytesValid k in
  all ← check_valid v (Z.to_nat func_offset) 0 true;
  v ← mark_valid (Z.to_nat overlap_size) func_offset v;
  all ← check_valid v (Z.to_nat (size k - (func_offset + overlap_size))) (func_offset + overlap_size) all;
  Ok (all, set_valid v (set_data p k)).

(** Against a value in memory, whose size is an [int]; returns the result, the packet
    and the value. *)
Definition trySatisfy (k : Pkt) (val_start : Z) (is_secure : bool) (val_size : Z) (_data : option (list Z))
    : res (bool * Pkt * option (list Z)) :=
  let func_start := addr k in
  let func_end := u64 (addr k + size k - 1) in
  let val_end := u64 (val_start + to_i32 val_size - 1) in
  if negb (Bool.eqb is_secure (secure k)) || (val_end <? func_start) || (func_end <? val_start) then Ok (false, k, _data)
  else if isPrint (cmd k) then
    match _data with Some _ => Err (EAssert "!_data") | None => Ok (false, k, None) end
  else
    match _data with
    | None => Ok (false, k, None)
    | Some d =>
        let val_offset := if val_start <? func_start then func_start - val_start else 0 in
        let func_offset := if func_start <? val_start then val_start - func_start else 0 in
        let overlap_size := u64 (u64 (Z.min val_end func_end + 1) - Z.max val_start func_start) in
        if isRead (cmd k) then
          r ← fill_read k d func_offset val_offset overlap_size;
          Ok (r.1, r.2, Some d)
        else if isWrite (cmd k) then
          p ← getConstPtr k;
          d ← memcpy d val_offset p func_offset overlap_size;
          Ok (false, k, Some d)
        else Err (EPanic "Don't know how to handle command")
    end.

(** Against another packet; returns the result, the packet and the other. *)
Definition trySatisfyFunctional (k other : Pkt) : res (bool * Pkt * Pkt) :=
  if isMaskedWrite other then Ok (false, k, other) else
  d ← (if hasData (cmd other) then d ← getPtr other; Ok (Some d) else Ok None);
  r ← trySatisfy k (addr other) (secure other) (size other) d;
  let '(found, k, d) := r in
  Ok (found, k, match d with Some d => set_data d other | None => other end).

Definition makeResponse (k : Pkt) : res Pkt :=
  if negb (needsResponse (cmd k)) then Err (EAssert "needsResponse()") else
  if negb (isRequest (cmd k)) then Err (EAssert "isRequest()") else
  c ← responseCommand (cmd k);
  Ok (set_cmd c k).

(** ** Packet queues *)

(** The packets in transit, by identity. *)
Definition Heap : Type := gmap Z Pkt.

(** [PacketQueue::trySatisfyFunctional] from a place in the list on. *)
Fixpoint queue_satisfy (l : list PacketQueue.DeferredPacket) (k : Pkt) : M Heap (bool * Pkt) :=
  match l with
  | [] => mret (false, k)
  | d :: l =>
      let id := PacketQueue.pk_id (PacketQueue.d_pkt d) in
      h ← gets (λ h, h);
      other ← lift (of_option EBadPointer (h !! id));
      r ← lift (trySatisfyFunctional k other);
      let '(found, k, other) := r in
      modify (λ h, <[id := other]> h) ;;
      if (found : bool) then mret (true, k) else queue_satisfy l k
  end.

(** The queues of the CPU-side ports; whether one of them had all the data. *)
Fixpoint ports_satisfy (ps : list XBar.CPUSidePort) (k : Pkt) : M Heap (bool * Pkt) :=
  match ps with
  | [] => mret (false, k)
  | p :: ps =>
      r ← queue_satisfy (PacketQueue.transmitList (XBar.respQueue p)) k;
      if (r.1 : bool) then mret r else ports_satisfy ps r.2
  end.

(** ** The crossbar *)

Inductive Call := SnoopCall (cpu_side_port_id : Z) | MemCall (mem_side_port_id : Z).

Record FState := mkFState { fxbar : CoherentXBar.CXBar; heap : Heap; calls : list Call }.

Definition call (c : Call) (s : FState) : FState := mkFState (fxbar s) (heap s) (calls s ++ [c]).
Definition on_heap {A} (f : M Heap A) : M FState A := λ s,
  match f (heap s) with Ok (a, h) => Ok (a, mkFState (fxbar s) h (calls s)) | Err e => Err e end.
Definition on_fxbar {A} (f : M CoherentXBar.CXBar A) : M FState A := λ s,
  match f (fxbar s) with Ok (a, x) => Ok (a, mkFState x (heap s) (calls s)) | Err e => Err e end.

Section functional.
Context (P : CoherentXBar.Params).
(** The peers. *)
Context (sendFunctionalSnoop sendFunctional : Z → Pkt → Pkt).

Notation bypassCaches := (XBar.bypassCaches (CoherentXBar.xp P)).

Fixpoint functional_loop (exclude : Z) (dests : list SnoopFilter.Port) (k : Pkt) : M FState Pkt :=
  match dests with
  | [] => mret k
  | p :: dests =>
      let id := SnoopFilter.p_id p in
      k ← (if (exclude =? XBarDecode.InvalidPortID) || negb (id =? exclude)
           then modify (call (SnoopCall id)) ;; mret (sendFunctionalSnoop id k) else mret k);
      if isResponse (cmd k) then mret k else functional_loop exclude dests k
  end.

Definition forwardFunctional (k : Pkt) (exclude : Z) : M FState Pkt :=
  massert "!system->bypassCaches()" (negb bypassCaches) ;;
  s ← gets (λ s, s);
  functional_loop exclude (CoherentXBar.snoopPorts (fxbar s)) k.

Definition respond_if_needed (k : Pkt) : res Pkt := if needsResponse (cmd k) then makeResponse k else Ok k.

Definition check_queues (k : Pkt) : M FState (bool * Pkt) :=
  s ← gets (λ s, s);
  on_heap (ports_satisfy (XBar.cpuSidePorts (CoherentXBar.xbar (fxbar s))) k).

Definition recvFunctional (k : Pkt) (cpu_side_port_id : Z) : M FState Pkt :=
  k ← (if bypassCaches then mret k else forwardFunctional k cpu_side_port_id);
  if isResponse (cmd k) then mret k
  else
    r ← check_queues k;
    if (r.1 : bool) then lift (respond_if_needed r.2)
    else
      dest_id ← on_fxbar (CoherentXBar.on_decoder (XBarDecode.findPort (CoherentXBar.defaultPortID P) (CoherentXBar.useDefaultRange P)
                            (AddrRange.RangeSize (addr r.2) (size r.2))));
      modify (call (MemCall dest_id)) ;;
      mret (sendFunctional dest_id r.2).

Definition recvFunctionalSnoop (k : Pkt) : M FState Pkt :=
  r ← check_queues k;
  if (r.1 : bool) then lift (respond_if_needed r.2)
  else forwardFunctional r.2 XBarDecode.InvalidPortID.
End functional.
End Functional.
