(* ===== verification/PacketDataProps.v ===== *)
(** * Functional accesses meet the packets in transit

    What a functional read collects from the queues of a crossbar, what a
    functional write does to the packets in them, and whom the crossbar asks. *)
From stdpp Require Import base tactics list gmap strings relations.
From Stdlib Require Import ZArith Lia.
From S2P Require Import Prelude XBarDecodeProps MemCmd Clocked PacketQueue SnoopFilter XBar AddrRange XBarDecode CoherentXBar CoherentXBarProps PacketData.
Import Functional.
Local Open Scope Z_scope.

(** ** Copies and marks *)

Lemma memcpy_ok dst doff src soff n :
  0 ≤ doff → 0 ≤ soff → 0 ≤ n → doff + n ≤ Z.of_nat (length dst) → soff + n ≤ Z.of_nat (length src) →
  ∃ r, memcpy dst doff src soff n = Ok r ∧ length r = length dst ∧
    ∀ i : nat, r !! i = if bool_decide (doff ≤ Z.of_nat i < doff + n) then src !! Z.to_nat (Z.of_nat i - doff + soff) else dst !! i.
Proof.
  intros Hd Hs Hn Hld Hls. unfold memcpy.
  rewrite !(proj2 (Z.leb_le _ _)) by lia. cbn [andb]. eexists. split; [reflexivity|].
  assert (length (take (Z.to_nat n) (drop (Z.to_nat soff) src)) = Z.to_nat n) as Hm by (rewrite length_take, length_drop; lia).
  assert (length (take (Z.to_nat doff) dst) = Z.to_nat doff) as Ht by (rewrite length_take; lia).
  split; [rewrite !length_app, Ht, Hm, length_drop; lia|].
  intros i. destruct (decide (Z.of_nat i < doff)).
  - rewrite bool_decide_false by lia. rewrite lookup_app_l by lia. by rewrite lookup_take_lt by lia.
  - rewrite lookup_app_r by lia. rewrite Ht. destruct (decide (Z.of_nat i < doff + n)).
    + rewrite bool_decide_true by lia. rewrite lookup_app_l by lia. rewrite lookup_take_lt by lia. rewrite lookup_drop. f_equal. lia.
    + rewrite bool_decide_false by lia. rewrite lookup_app_r by lia. rewrite Hm, lookup_drop. f_equal. lia.
Qed.

Lemma check_valid_ok v : ∀ n i all, 0 ≤ i → i + Z.of_nat n ≤ Z.of_nat (length v) →
  ∃ b, check_valid v n i all = Ok b ∧
    (b = true ↔ all = true ∧ ∀ j : nat, i ≤ Z.of_nat j < i + Z.of_nat n → v !! j = Some true).
Proof.
  induction n as [|n IH]; intros i all Hi Hl; cbn [check_valid].
  { exists all. split; [done|]. split; [intros ->; split; [done|lia]|by intros [-> _]]. }
  destruct all; [|exists false; split; [done|naive_solver]].
  destruct (lookup_lt_is_Some_2 v (Z.to_nat i)) as [b Hb]; [lia|]. rewrite (vec_get_Z _ _ _ Hi Hb). cbn [mbind res_bind].
  destruct (IH (i + 1) b) as (r & Hr & Hiff); [lia..|]. exists r. split; [done|]. rewrite Hiff. split.
  - intros [-> Hall]. split; [done|]. intros j Hj. destruct (decide (Z.of_nat j = i)) as [<-|]; [by rewrite Nat2Z.id in Hb|apply Hall; lia].
  - intros [_ Hall]. split; [|intros j Hj; apply Hall; lia]. specialize (Hall (Z.to_nat i)). rewrite Hb in Hall.
    assert (Some b = Some true) as [= ->]; [apply Hall; lia|done].
Qed.

Lemma mark_valid_ok : ∀ n i v, 0 ≤ i → i + Z.of_nat n ≤ Z.of_nat (length v) →
  ∃ v', mark_valid n i v = Ok v' ∧ length v' = length v ∧
    ∀ j : nat, v' !! j = if bool_decide (i ≤ Z.of_nat j < i + Z.of_nat n) then Some true else v !! j.
Proof.
  induction n as [|n IH]; intros i v Hi Hl; cbn [mark_valid].
  { exists v. split; [done|]. split; [done|]. intros j. by rewrite bool_decide_false by lia. }
  rewrite vec_set_ok by lia. cbn [mbind res_bind].
  destruct (IH (i + 1) (<[Z.to_nat i := true]> v)) as (v' & Hr & Hl' & Hv); [lia|rewrite length_insert; lia|].
  exists v'. split; [done|]. rewrite length_insert in Hl'. split; [done|]. intros j. rewrite Hv.
  destruct (decide (Z.of_nat j = i)) as [<-|].
  - rewrite bool_decide_false, bool_decide_true by lia. rewrite Nat2Z.id. apply list_lookup_insert_eq. lia.
  - rewrite list_lookup_insert_ne by lia.
    by rewrite (bool_decide_ext (i + 1 ≤ Z.of_nat j < i + 1 + Z.of_nat n) (i ≤ Z.of_nat j < i + Z.of_nat (S n))) by lia.
Qed.

(** ** Bytes and addresses *)

(** The byte of data [d] that starts at address [b], for address [a]. *)
Definition byte_at {A} (d : list A) (b a : Z) : option A := if bool_decide (b ≤ a) then d !! Z.to_nat (a - b) else None.

(** The addresses of a packet. *)
Definition spans (k : Pkt) (a : Z) : Prop := addr k ≤ a < addr k + size k.

#[export] Instance spans_dec k a : Decision (spans k a).
Proof. unfold spans. apply _. Defined.

Record placed (k : Pkt) : Prop := {
  pl_size : 0 < size k < 2 ^ 31;
  pl_addr : 0 ≤ addr k;
  pl_end : addr k + size k ≤ 2 ^ 64;
  pl_data : ∀ d, data k = Some d → Z.of_nat (length d) = size k;
}.

(** A packet in transit: data where its command says so. *)
Definition in_transit (o : Pkt) : Prop := placed o ∧ (hasData (cmd o) = true → is_Some (data o)).

(** Packet [o] has data for an access of [k], which is not a masked write. *)
Definition offers (k o : Pkt) : bool := Bool.eqb (secure o) (secure k) && hasData (cmd o) && negb (isMaskedWrite o).

(** The byte it has for address [a]. *)
Definition provides (k o : Pkt) (a : Z) : option Z :=
  if offers k o then d ← data o; byte_at d (addr o) a else None.

(** The byte a read has got for address [a]. *)
Definition have (k : Pkt) (a : Z) : option Z :=
  match byte_at (bytesValid k) (addr k) a, data k with
  | Some true, Some d => byte_at d (addr k) a
  | _, _ => None
  end.

Definition complete (k : Pkt) : Prop := ∀ a, spans k a → is_Some (have k a).

(** A functional read. *)
Record reader (k : Pkt) : Prop := {
  rd_placed : placed k;
  rd_read : isRead (cmd k) = true;
  rd_print : isPrint (cmd k) = false;
  rd_data : is_Some (data k);
  rd_valid : bytesValid k = [] ∨ Z.of_nat (length (bytesValid k)) = size k;
}.

(** The access itself is not changed by what it meets. *)
Definition same_functional (k k' : Pkt) : Prop :=
  cmd k' = cmd k ∧ addr k' = addr k ∧ secure k' = secure k ∧ size k' = size k ∧ req_masked k' = req_masked k.

#[export] Instance same_functional_po : PreOrder same_functional.
Proof. split; [by intros k|]. intros a b c (?&?&?&?&?) (?&?&?&?&?). unfold same_functional. split_and!; congruence. Qed.

Lemma byte_at_in {A} (d : list A) b a : b ≤ a < b + Z.of_nat (length d) ↔ is_Some (byte_at d b a).
Proof.
  unfold byte_at. case_bool_decide; [|split; [lia|by intros [? ?]]]. rewrite lookup_lt_is_Some. lia.
Qed.

Lemma reader_unmasked k : reader k → isMaskedWrite k = false.
Proof. intros Hr. unfold isMaskedWrite. case_bool_decide as E; [|done]. pose proof (rd_read _ Hr) as H. by rewrite E in H. Qed.

Lemma have_valid k a :
  reader k → spans k a → is_Some (have k a) ↔ bytesValid k !! Z.to_nat (a - addr k) = Some true.
Proof.
  intros Hr [Ha1 Ha2]. destruct (rd_data _ Hr) as [d Hd]. pose proof (pl_data _ (rd_placed _ Hr) d Hd) as Hl.
  unfold have. rewrite Hd. unfold byte_at at 1. rewrite bool_decide_true by done.
  destruct (bytesValid k !! Z.to_nat (a - addr k)) as [[]|]; [|by split; [intros [? ?]|]..].
  split; [done|]. intros _. apply byte_at_in. lia.
Qed.

Lemma complete_valid k : reader k → complete k ↔ ∀ j : nat, Z.of_nat j < size k → bytesValid k !! j = Some true.
Proof.
  intros Hr. split.
  - intros Hc j Hj. assert (spans k (addr k + Z.of_nat j)) as Hs by (split; lia).
    apply (have_valid _ _ Hr Hs) in Hc; [|done]. rewrite <-Hc. f_equal. lia.
  - intros Hc a Hs. apply (have_valid _ _ Hr Hs). apply Hc. destruct Hs. lia.
Qed.

(** Taking over the bytes from [func_offset] on. *)
Lemma fill_read_ok k d fo vo n :
  reader k → 0 ≤ fo → 0 ≤ vo → 0 < n → fo + n ≤ size k → vo + n ≤ Z.of_nat (length d) →
  ∃ found k', fill_read k d fo vo n = Ok (found, k') ∧ reader k' ∧ same_functional k k' ∧
    (∀ a, spans k a → have k' a = if bool_decide (addr k + fo ≤ a < addr k + fo + n) then d !! Z.to_nat (a - addr k - fo + vo) else have k a) ∧
    (found = true ↔ complete k').
Proof.
  intros Hr Hfo Hvo Hn Hfn Hvn. pose proof (rd_placed _ Hr) as Hp. destruct (rd_data _ Hr) as [p Hd].
  pose proof (pl_data _ Hp p Hd) as Hlp. unfold fill_read, getPtr, getConstPtr. rewrite Hd, (reader_unmasked _ Hr). cbn [of_option mbind res_bind].
  destruct (memcpy_ok p fo d vo n) as (p' & -> & Hlp' & Hp'); [lia..|]. cbn [mbind res_bind].
  set (v := if bool_decide (bytesValid k = []) then replicate (Z.to_nat (size k)) false else bytesValid k).
  pose proof (pl_size _ Hp). assert (Z.of_nat (length v) = size k) as Hlv.
  { unfold v. case_bool_decide; [rewrite length_replicate; lia|]. by destruct (rd_valid _ Hr). }
  destruct (check_valid_ok v (Z.to_nat fo) 0 true) as (a1 & -> & Ha1); [lia..|]. cbn [mbind res_bind].
  destruct (mark_valid_ok (Z.to_nat n) fo v) as (v' & -> & Hlv' & Hv'); [lia..|]. cbn [mbind res_bind].
  destruct (check_valid_ok v' (Z.to_nat (size k - (fo + n))) (fo + n) a1) as (a2 & -> & Ha2); [lia..|]. cbn [mbind res_bind].
  set (k' := set_valid v' (set_data p' k)). exists a2, k'.
  assert (∀ a, spans k a → have k' a = if bool_decide (addr k + fo ≤ a < addr k + fo + n) then d !! Z.to_nat (a - addr k - fo + vo) else have k a) as Hhave.
  { intros a [Hs1 Hs2]. unfold have. rewrite Hd. simpl. unfold byte_at. rewrite bool_decide_true by done.
    rewrite Hv', Hp'. destruct (decide (addr k + fo ≤ a < addr k + fo + n)).
    - rewrite !bool_decide_true by lia. f_equal. lia.
    - rewrite !bool_decide_false by lia. unfold v. case_bool_decide as E3; [|done]. rewrite E3, lookup_replicate_2 by lia. done. }
  assert (reader k') as Hr'.
  { split; [|apply Hr|apply Hr|by eexists|right; simpl; lia]. split; [apply Hp..|]. intros d'. simpl. intros [= <-]. lia. }
  split; [done|]. split; [done|]. split; [done|]. split; [done|].
  rewrite (complete_valid _ Hr'), Ha2, Ha1. simpl. split.
  - intros [[_ H1] H2] j Hj. rewrite Hv'. case_bool_decide as E; [done|].
    destruct (decide (Z.of_nat j < fo)); [apply H1; lia|]. specialize (H2 j). rewrite Hv', bool_decide_false in H2 by done. apply H2. lia.
  - intros Hc. split; [split; [done|]|]; intros j Hj; specialize (Hc j ltac:(lia)); [|done].
    by rewrite Hv', bool_decide_false in Hc by lia.
Qed.

(** The bytes of a packet. *)
Lemma byte_at_spans o d a : placed o → data o = Some d → is_Some (byte_at d (addr o) a) ↔ spans o a.
Proof. intros Hp Hd. rewrite <-byte_at_in. rewrite (pl_data _ Hp d Hd). done. Qed.

Lemma last_byte k : placed k → u64 (addr k + size k - 1) = addr k + size k - 1.
Proof. intros [? ? ? _]. apply u64_small. lia. Qed.

Lemma int_size k : placed k → to_i32 (size k) = size k.
Proof. intros [? _ _ _]. unfold to_i32. rewrite Z.mod_small; lia. Qed.

(** Two packets that meet: where the common bytes are in each, and how many. *)
Lemma overlap_ok k o :
  placed k → placed o → addr k ≤ addr o + size o - 1 → addr o ≤ addr k + size k - 1 →
  let vo := if addr o <? addr k then addr k - addr o else 0 in
  let fo := if addr k <? addr o then addr o - addr k else 0 in
  let n := u64 (u64 (Z.min (addr o + size o - 1) (addr k + size k - 1) + 1) - Z.max (addr o) (addr k)) in
  0 ≤ vo ∧ 0 ≤ fo ∧ 0 < n ∧ fo + n ≤ size k ∧ vo + n ≤ size o ∧ addr k + fo = addr o + vo ∧
  ∀ a, addr k + fo ≤ a < addr k + fo + n ↔ spans k a ∧ spans o a.
Proof.
  intros [? ? ? _] [? ? ? _] H1 H2. cbv zeta. unfold u64 at 1. unfold u64. rewrite Zminus_mod_idemp_l.
  rewrite Z.mod_small by lia. unfold spans.
  destruct (Z.ltb_spec (addr o) (addr k)), (Z.ltb_spec (addr k) (addr o)); (split_and!; [lia..|]); intros a; lia.
Qed.

Lemma set_data_same o d : data o = Some d → set_data d o = o.
Proof. intros H. destruct o; simpl in *. by rewrite H. Qed.

(** An access meets another packet: they have nothing in common, or [n] bytes
    from offset [fo] of the access and [vo] of the packet. *)
Lemma satisfy_meets k o :
  placed k → isPrint (cmd k) = false → in_transit o →
  (trySatisfyFunctional k o = Ok (false, k, o) ∧ ∀ a, spans k a → spans o a → offers k o = false) ∨
  ∃ d fo vo n, data o = Some d ∧ offers k o = true ∧
    0 ≤ vo ∧ 0 ≤ fo ∧ 0 < n ∧ fo + n ≤ size k ∧ vo + n ≤ size o ∧ addr k + fo = addr o + vo ∧
    (∀ a, addr k + fo ≤ a < addr k + fo + n ↔ spans k a ∧ spans o a) ∧
    trySatisfyFunctional k o =
      if isRead (cmd k) then r ← fill_read k d fo vo n; Ok (r.1, r.2, o)
      else if isWrite (cmd k) then p ← getConstPtr k; d ← memcpy d vo p fo n; Ok (false, k, set_data d o)
      else Err (EPanic "Don't know how to handle command").
Proof.
  intros Hk Hpr [Ho Hdata]. unfold trySatisfyFunctional. destruct (isMaskedWrite o) eqn:Hm.
  { left. split; [done|]. intros. unfold offers. by rewrite Hm, andb_false_r. }
  destruct (hasData (cmd o)) eqn:Hh.
  2:{ left. cbn [mbind res_bind]. assert (trySatisfy k (addr o) (secure o) (size o) None = Ok (false, k, None)) as ->.
      { unfold trySatisfy. destruct (_ || _); [done|]. by destruct (isPrint _). }
      split; [done|]. intros. unfold offers. by rewrite Hh, andb_false_r. }
  destruct (Hdata eq_refl) as [d Hd].
  assert (getPtr o = Ok d) as -> by (unfold getPtr, getConstPtr; rewrite Hd; cbn [of_option mbind res_bind]; by rewrite Hm).
  cbn [mbind res_bind]. unfold trySatisfy. rewrite int_size, !last_byte by done.
  destruct (Bool.eqb (secure o) (secure k)) eqn:Hsec; cbn [negb orb].
  2:{ left. cbn [mbind res_bind]. rewrite set_data_same by done. split; [done|]. intros. unfold offers. by rewrite Hsec. }
  destruct (_ || _) eqn:Hov.
  { left. cbn [mbind res_bind]. rewrite set_data_same by done. split; [done|]. intros a H1 H2. unfold spans in *.
    apply orb_true_iff in Hov as [?%Z.ltb_lt|?%Z.ltb_lt]; lia. }
  apply orb_false_iff in Hov as [Ho1%Z.ltb_ge Ho2%Z.ltb_ge]. rewrite Hpr. right.
  exists d, (if addr k <? addr o then addr o - addr k else 0), (if addr o <? addr k then addr k - addr o else 0),
    (u64 (u64 (Z.min (addr o + size o - 1) (addr k + size k - 1) + 1) - Z.max (addr o) (addr k))).
  split; [done|]. split; [unfold offers; by rewrite Hsec, Hh, Hm|].
  destruct (overlap_ok k o Hk Ho Ho1 Ho2) as (? & ? & ? & ? & ? & ? & Hspan). do 7 (split; [done|]).
  destruct (isRead (cmd k)); [|destruct (isWrite (cmd k))]; cbn [mbind res_bind]; [| |done].
  - destruct (fill_read _ _ _ _ _) as [[found k']|]; [|done]. cbn [mbind res_bind fst snd]. by rewrite set_data_same.
  - destruct (getConstPtr k) as [p|]; [|done]. cbn [mbind res_bind]. by destruct (memcpy _ _ _ _ _).
Qed.

(** What another packet in transit gives to a read. *)
Lemma satisfy_read k o :
  reader k → in_transit o →
  ∃ found k', trySatisfyFunctional k o = Ok (found, k', o) ∧ reader k' ∧ same_functional k k' ∧
    (∀ a, spans k a → have k' a = match provides k o a with Some b => Some b | None => have k a end) ∧
    (found = true → complete k') ∧ (complete k' → found = true ∨ complete k).
Proof.
  intros Hr Ho. destruct (satisfy_meets k o (rd_placed _ Hr) (rd_print _ Hr) Ho) as
    [[-> Hno]|(d & fo & vo & n & Hd & Hof & Hvo & Hfo & Hn & Hfn & Hvn & Heq & Hspan & ->)].
  - exists false, k. split; [done|]. split; [done|]. split; [done|]. split; [|split; [done|by right]].
    intros a Ha. unfold provides. destruct (offers k o) eqn:Hof; [|done]. destruct (data o) as [d|] eqn:Hd; [|done]. simpl.
    assert (byte_at d (addr o) a = None) as ->; [|done]. apply eq_None_not_Some.
    intros Hso%(byte_at_spans o d a (proj1 Ho) Hd). by specialize (Hno a Ha Hso).
  - rewrite (rd_read _ Hr). destruct (fill_read_ok k d fo vo n Hr) as (found & k' & -> & Hr' & Hs & Hh' & Hf);
      [lia..|rewrite (pl_data _ (proj1 Ho) d Hd); lia|].
    exists found, k'. split; [done|]. split; [done|]. split; [done|]. split; [|split; [apply Hf|intros Hc; left; by apply Hf]].
    intros a Ha. rewrite Hh' by done. unfold provides. rewrite Hof, Hd. simpl. case_bool_decide as E.
    + pose proof (proj2 (proj1 (Hspan a) E)) as Hso. apply (byte_at_spans o d a (proj1 Ho) Hd) in Hso as Hb.
      destruct Hb as [b Hb]. rewrite Hb, <-Hb. unfold byte_at. rewrite bool_decide_true by apply Hso. f_equal. lia.
    + assert (byte_at d (addr o) a = None) as ->; [|done]. apply eq_None_not_Some.
      intros Hso%(byte_at_spans o d a (proj1 Ho) Hd). apply E, Hspan. done.
Qed.

(** ** Queues *)

(** All packets queued at the ports, in the order they are met. *)
Definition queued_at (ps : list XBar.CPUSidePort) : list PacketQueue.DeferredPacket :=
  concat (map (λ p, PacketQueue.transmitList (XBar.respQueue p)) ps).

Lemma queue_satisfy_cons d l k h o found k' o' :
  h !! PacketQueue.pk_id (PacketQueue.d_pkt d) = Some o → trySatisfyFunctional k o = Ok (found, k', o') →
  queue_satisfy (d :: l) k h =
  let h' := <[PacketQueue.pk_id (PacketQueue.d_pkt d) := o']> h in
  if found then Ok ((true, k'), h') else queue_satisfy l k' h'.
Proof.
  intros Ho Hr. cbn [queue_satisfy]. unfold mbind, M_bind, gets, lift. rewrite Ho. cbn [of_option]. rewrite Hr.
  by destruct found.
Qed.

Lemma queue_satisfy_app l1 l2 : ∀ k h,
  queue_satisfy (l1 ++ l2) k h =
  match queue_satisfy l1 k h with
  | Ok ((true, k'), h') => Ok ((true, k'), h')
  | Ok ((false, k'), h') => queue_satisfy l2 k' h'
  | Err e => Err e
  end.
Proof.
  induction l1 as [|d l1 IH]; intros k h; [done|]. cbn [app queue_satisfy]. unfold mbind, M_bind, gets, lift.
  destruct (of_option _ _) as [o|]; [|done]. destruct (trySatisfyFunctional k o) as [[[found k'] o']|]; [|done].
  unfold modify. destruct found; [done|]. apply IH.
Qed.

Lemma ports_satisfy_queue ps : ∀ k h, ports_satisfy ps k h = queue_satisfy (queued_at ps) k h.
Proof.
  induction ps as [|p ps IH]; intros k h; [done|]. unfold queued_at. cbn [map concat ports_satisfy]. rewrite queue_satisfy_app.
  unfold mbind at 1, M_bind. destruct (queue_satisfy _ k h) as [[[[] k'] h']|]; [done| |done]. apply IH.
Qed.

(** The packets a list of deferred packets stands for. *)
Definition packets_of (h : Heap) (l : list PacketQueue.DeferredPacket) (os : list Pkt) : Prop :=
  Forall2 (λ d o, h !! PacketQueue.pk_id (PacketQueue.d_pkt d) = Some o ∧ in_transit o) l os.

(** The bytes known after meeting the packets [os]: each byte is that of the
    last packet that has it. *)
Fixpoint collect (k : Pkt) (os : list Pkt) (known : Z → option Z) : Z → option Z :=
  match os with
  | [] => known
  | o :: os => collect k os (λ a, match provides k o a with Some b => Some b | None => known a end)
  end.

Lemma provides_same k k' o a : same_functional k k' → provides k' o a = provides k o a.
Proof. intros (_ & _ & Hs & _). unfold provides, offers. by rewrite Hs. Qed.

Lemma spans_same k k' a : same_functional k k' → spans k' a ↔ spans k a.
Proof. intros (_ & Ha & _ & Hs & _). unfold spans. by rewrite Ha, Hs. Qed.

Lemma collect_ext k k' os a : ∀ v v', same_functional k k' → v a = v' a → collect k' os v a = collect k os v' a.
Proof.
  induction os as [|o os IH]; intros v v' Hs Hv; [done|]. cbn [collect]. apply IH; [done|].
  rewrite (provides_same _ _ _ _ Hs). by destruct (provides k o a).
Qed.

Lemma incomplete_misses k : ¬ complete k → ∃ a, spans k a ∧ have k a = None.
Proof.
  intros Hnc. destruct (decide (Forall (λ i, is_Some (have k (addr k + Z.of_nat i))) (seq 0 (Z.to_nat (size k))))) as [Hall|Hex].
  - exfalso. apply Hnc. intros a [Ha1 Ha2]. rewrite Forall_forall in Hall.
    specialize (Hall (Z.to_nat (a - addr k))). rewrite elem_of_seq in Hall.
    replace (addr k + Z.of_nat (Z.to_nat (a - addr k))) with a in Hall by lia. apply Hall. lia.
  - apply not_Forall_Exists in Hex; [|intros i; apply _]. apply Exists_exists in Hex as (i & Hi & Hn).
    apply elem_of_seq in Hi. exists (addr k + Z.of_nat i). split; [split; lia|]. by apply eq_None_not_Some.
Qed.

Lemma queue_satisfy_read l : ∀ k h os,
  reader k → ¬ complete k → packets_of h l os →
  ∃ found k' n, queue_satisfy l k h = Ok ((found, k'), h) ∧ reader k' ∧ same_functional k k' ∧ (n ≤ length os)%nat ∧
    (∀ a, spans k a → have k' a = collect k (take n os) (have k) a) ∧
    (found = true ↔ complete k') ∧ (found = false → n = length os) ∧
    (∀ m, (m < n)%nat → ∃ a, spans k a ∧ collect k (take m os) (have k) a = None).
Proof.
  induction l as [|d l IH]; intros k h os Hr Hnc Hos; inversion Hos as [|? o ? os' [Hl Ho] Hos']; subst.
  { exists false, k, 0%nat. split; [done|]. split; [done|]. split; [done|]. split; [done|]. split; [done|].
    split; [|split; [done|lia]]. split; [done|]. intros Hc. by apply Hnc in Hc. }
  destruct (satisfy_read k o Hr Ho) as (found & k1 & Hrun & Hr1 & Hs1 & Hh1 & Hf1 & Hf1').
  assert (<[PacketQueue.pk_id (PacketQueue.d_pkt d) := o]> h = h) as Hins by (by apply insert_id).
  rewrite (queue_satisfy_cons _ _ _ _ _ _ _ _ Hl Hrun), Hins. cbv zeta.
  pose proof (incomplete_misses k Hnc) as Hmiss.
  destruct found.
  - exists true, k1, 1%nat. split; [done|]. split; [done|]. split; [done|]. split; [simpl; lia|]. split; [done|].
    split; [split; [intros _; by apply Hf1|done]|]. split; [done|]. intros m Hm. assert (m = 0%nat) as -> by lia. done.
  - assert (¬ complete k1) as Hnc1. { intros Hc. by destruct (Hf1' Hc). }
    destruct (IH k1 h os' Hr1 Hnc1 Hos') as (found & k' & n & Hrun' & Hr' & Hs' & Hn & Hh' & Hf & Hn' & Hmin).
    assert (∀ m a, spans k a → collect k1 (take m os') (have k1) a = collect k (take (S m) (o :: os')) (have k) a) as Hcol.
    { intros m a Ha. cbn [take collect]. apply collect_ext; [done|]. by apply Hh1. }
    exists found, k', (S n). split; [done|]. split; [done|]. split; [by etransitivity|]. split; [simpl; lia|].
    split; [|split; [done|split; [intros ->; simpl; by rewrite Hn'|]]].
    + intros a Ha. rewrite <-Hcol by done. apply Hh'. by apply (spans_same _ _ _ Hs1).
    + intros [|m] Hm; [done|]. destruct (Hmin m) as (a & Ha & Hnone); [lia|]. exists a. apply (spans_same _ _ _ Hs1) in Ha.
      split; [done|]. by rewrite <-Hcol.
Qed.

(** ** Writes *)

(** A functional write. *)
Record writer (k : Pkt) : Prop := {
  wr_placed : placed k;
  wr_read : isRead (cmd k) = false;
  wr_write : isWrite (cmd k) = true;
  wr_print : isPrint (cmd k) = false;
  wr_data : is_Some (data k);
}.

(** The byte of a packet's data for address [a]. *)
Definition byte (k : Pkt) (a : Z) : option Z := d ← data k; byte_at d (addr k) a.

(** Packet [o] after a functional write [k] passed: the common bytes are those of
    the write if the packet has data and the same security, nothing else changed. *)
Definition updated (k o o' : Pkt) : Prop :=
  same_functional o o' ∧ bytesValid o' = bytesValid o ∧
  ∀ a, byte o' a = if offers k o && bool_decide (spans k a) && bool_decide (spans o a) then byte k a else byte o a.

Lemma offers_same k o o' : same_functional o o' → offers k o' = offers k o.
Proof. intros (Hc & _ & Hs & _ & Hm). unfold offers, isMaskedWrite. by rewrite Hs, Hc, Hm. Qed.

Lemma updated_trans k o o' o'' : updated k o o' → updated k o' o'' → updated k o o''.
Proof.
  intros (Hs & Hv & Hb) (Hs' & Hv' & Hb'). split; [by etransitivity|]. split; [congruence|]. intros a.
  rewrite Hb', Hb, (offers_same k _ _ Hs). rewrite (bool_decide_ext (spans o' a) (spans o a)) by (by apply spans_same).
  by destruct (_ && _).
Qed.

Lemma updated_same k o : (∀ a, spans k a → spans o a → offers k o = false) → updated k o o.
Proof.
  intros Hno. split; [done|]. split; [done|]. intros a. case_bool_decide as E1; [|by rewrite andb_false_r].
  case_bool_decide as E2; [|by rewrite andb_false_r]. by rewrite (Hno a).
Qed.

Lemma satisfy_write k o :
  writer k → in_transit o → ∃ o', trySatisfyFunctional k o = Ok (false, k, o') ∧ in_transit o' ∧ updated k o o'.
Proof.
  intros Hw Ho. pose proof (wr_placed _ Hw) as Hk. destruct (wr_data _ Hw) as [p Hp].
  destruct (satisfy_meets k o Hk (wr_print _ Hw) Ho) as
    [[-> Hno]|(d & fo & vo & n & Hd & Hof & Hvo & Hfo & Hn & Hfn & Hvn & Heq & Hspan & ->)].
  { exists o. split; [done|]. split; [done|]. by apply updated_same. }
  pose proof (pl_data _ (proj1 Ho) d Hd) as Hld. pose proof (pl_data _ Hk p Hp) as Hlp.
  rewrite (wr_read _ Hw), (wr_write _ Hw). unfold getConstPtr. rewrite Hp. cbn [of_option mbind res_bind].
  destruct (memcpy_ok d vo p fo n) as (d' & -> & Hl' & Hd'); [lia..|]. cbn [mbind res_bind].
  exists (set_data d' o). split; [done|]. split.
  { split; [|by eexists]. split; [apply Ho..|]. intros d''. simpl. intros [= <-]. lia. }
  split; [done|]. split; [done|]. intros a. unfold byte. rewrite Hof, Hd, Hp. simpl. unfold byte_at.
  destruct (decide (addr o ≤ a)); [rewrite !(bool_decide_true (addr o ≤ a)) by done|].
  - rewrite Hd'. destruct (decide (addr k + fo ≤ a < addr k + fo + n)) as [E|E].
    + rewrite bool_decide_true by lia. apply Hspan in E as [Hs1 Hs2]. rewrite !bool_decide_true by (done || apply Hs1). simpl. f_equal. lia.
    + rewrite bool_decide_false by lia. case_bool_decide as E1; [|done]. case_bool_decide as E2; [|done]. destruct E. by apply Hspan.
  - rewrite !(bool_decide_false (addr o ≤ a)) by done. rewrite (bool_decide_false (spans o a)) by (unfold spans; lia).
    by rewrite andb_false_r.
Qed.

Definition ids (l : list PacketQueue.DeferredPacket) : list Z := map (λ d, PacketQueue.pk_id (PacketQueue.d_pkt d)) l.

Lemma queue_satisfy_write l k : writer k → ∀ h,
  (∀ i, i ∈ ids l → ∃ o, h !! i = Some o ∧ in_transit o) →
  ∃ h', queue_satisfy l k h = Ok ((false, k), h') ∧
    ∀ i, if bool_decide (i ∈ ids l) then ∃ o o', h !! i = Some o ∧ h' !! i = Some o' ∧ updated k o o' else h' !! i = h !! i.
Proof.
  intros Hw. induction l as [|d l IH]; intros h Hin.
  { exists h. split; [done|]. intros i. rewrite bool_decide_false; [done|]. by intros ?%elem_of_nil. }
  set (j := PacketQueue.pk_id (PacketQueue.d_pkt d)).
  destruct (Hin j) as (o & Ho & Hto); [by left|]. destruct (satisfy_write k o Hw Hto) as (o' & Hrun & Hto' & Hupd).
  rewrite (queue_satisfy_cons _ _ _ _ _ _ _ _ Ho Hrun). cbv zeta. fold j.
  destruct (IH (<[j := o']> h)) as (h' & -> & Hall).
  { intros i Hi. destruct (decide (i = j)) as [->|Hne]; [exists o'; split; [apply (lookup_insert_eq h)|done]|].
    rewrite (lookup_insert_ne h) by done. apply Hin. by right. }
  exists h'. split; [done|]. intros i. specialize (Hall i). destruct (decide (i = j)) as [->|Hne].
  - rewrite bool_decide_true by (by left). rewrite (lookup_insert_eq h) in Hall. exists o. case_bool_decide.
    + destruct Hall as (o1 & o2 & [= <-] & ? & ?). exists o2. split; [done|]. split; [done|by eapply updated_trans].
    + exists o'. done.
  - rewrite (lookup_insert_ne h) in Hall by done.
    rewrite (bool_decide_ext (i ∈ ids (d :: l)) (i ∈ ids l)); [done|]. unfold ids. cbn [map]. rewrite elem_of_cons. fold j. naive_solver.
Qed.

(** ** Theorems *)

(** The ports a functional access that came from [exclude] is sent to. *)
Definition asked (exclude : Z) (ps : list SnoopFilter.Port) : list SnoopFilter.Port :=
  filter (λ p, exclude = XBarDecode.InvalidPortID ∨ SnoopFilter.p_id p ≠ exclude) ps.

(** The packet after the peers of the ports [ps] saw it. *)
Definition seen_by (f : Z → Pkt → Pkt) (ps : list SnoopFilter.Port) (k : Pkt) : Pkt :=
  foldl (λ k p, f (SnoopFilter.p_id p) k) k ps.

Lemma functional_loop_ok f exclude ps : ∀ k s, isResponse (cmd k) = false →
  ∃ n, let k' := seen_by f (take n (asked exclude ps)) k in
    functional_loop f exclude ps k s =
      Ok (k', mkFState (fxbar s) (heap s) (calls s ++ map (λ p, SnoopCall (SnoopFilter.p_id p)) (take n (asked exclude ps)))) ∧
    (isResponse (cmd k') = true ∨ n = length (asked exclude ps)) ∧
    ∀ m, (m < n)%nat → isResponse (cmd (seen_by f (take m (asked exclude ps)) k)) = false.
Proof.
  induction ps as [|p ps IH]; intros k s Hk.
  { exists 0%nat. split; [|split; [by right|lia]]. cbn. rewrite app_nil_r. by destruct s. }
  cbn [functional_loop]. unfold asked. rewrite filter_cons. fold (asked exclude ps).
  assert ((exclude =? XBarDecode.InvalidPortID) || negb (SnoopFilter.p_id p =? exclude) =
    bool_decide (exclude = XBarDecode.InvalidPortID ∨ SnoopFilter.p_id p ≠ exclude)) as ->.
  { apply eq_bool_prop_intro. rewrite !Is_true_true, orb_true_iff, negb_true_iff, Z.eqb_eq, Z.eqb_neq, bool_decide_eq_true. done. }
  case_bool_decide as Hne; [rewrite decide_True by done|rewrite decide_False by done].
  - set (k1 := f (SnoopFilter.p_id p) k).
    set (s1 := mkFState (fxbar s) (heap s) (calls s ++ [SnoopCall (SnoopFilter.p_id p)])).
    rewrite (M_bind_ok _ _ _ k1 s1) by done. destruct (isResponse (cmd k1)) eqn:Hk1.
    + exists 1%nat. split; [done|]. split; [by left|]. intros m Hm. assert (m = 0%nat) as -> by lia. done.
    + destruct (IH k1 s1 Hk1) as (n & Hrun & Hend & Hmin). exists (S n). split; [|split].
      * rewrite Hrun. cbn [take map]. simpl. by rewrite <-app_assoc.
      * destruct Hend as [?|Hn]; [by left|right]. simpl. by rewrite Hn.
      * intros [|m] Hm; [done|]. apply Hmin. lia.
  - rewrite (M_bind_ok _ _ _ k s) by done. rewrite Hk. by apply IH.
Qed.

Notation cpu_ports s := (XBar.cpuSidePorts (CoherentXBar.xbar (fxbar s))).

(** C22. A functional read collects what is in transit.  For packets of less than 2^31
    bytes (the size is passed as an [int]): checked against the
    response queues of the ports, a read that does not have all its bytes yet
    returns without error and changes no packet in transit; for some number [n] of
    packets, in the order of the ports and their queues, every byte it has got is
    that of the last of them that has it with the same security; it reports
    success exactly when it has all its bytes, it stops as soon as that is the
    case, and otherwise it has met all packets. *)
Theorem functional_read_collects k s os :
  reader k → ¬ complete k → packets_of (heap s) (queued_at (cpu_ports s)) os →
  ∃ found k' n, check_queues k s = Ok ((found, k'), s) ∧ reader k' ∧ same_functional k k' ∧ (n ≤ length os)%nat ∧
    (∀ a, spans k a → have k' a = collect k (take n os) (have k) a) ∧
    (found = true ↔ complete k') ∧ (found = false → n = length os) ∧
    (∀ m, (m < n)%nat → ∃ a, spans k a ∧ collect k (take m os) (have k) a = None).
Proof.
  intros Hr Hnc Hos. destruct (queue_satisfy_read _ _ _ _ Hr Hnc Hos) as (found & k' & n & Hrun & Hall).
  exists found, k', n. split; [|done]. unfold check_queues, mbind, M_bind, gets, on_heap. rewrite ports_satisfy_queue, Hrun.
  by destruct s.
Qed.

(** C40. A functional write reaches every packet in transit.  Checked against the
    response queues of the ports, it never reports success, so that it goes on to
    the memory as well, and afterwards every queued packet with data of the same
    security has the bytes of the write wherever the two overlap, its other bytes
    and everything else about it unchanged; packets that are not queued are not
    changed. *)
Theorem functional_write_updates k s :
  writer k → (∀ i, i ∈ ids (queued_at (cpu_ports s)) → ∃ o, heap s !! i = Some o ∧ in_transit o) →
  ∃ h', check_queues k s = Ok ((false, k), mkFState (fxbar s) h' (calls s)) ∧
    ∀ i, if bool_decide (i ∈ ids (queued_at (cpu_ports s)))
         then ∃ o o', heap s !! i = Some o ∧ h' !! i = Some o' ∧ updated k o o' else h' !! i = heap s !! i.
Proof.
  intros Hw Hin. destruct (queue_satisfy_write _ _ Hw _ Hin) as (h' & Hrun & Hall). exists h'. split; [|done].
  unfold check_queues, mbind, M_bind, gets, on_heap. by rewrite ports_satisfy_queue, Hrun.
Qed.

(** Whom the crossbar asks for a functional access.  The snooping ports
    other than the one it came from are asked in order until one responds; if one
    does, nobody else is asked, and its answer is the result.  Otherwise the
    response queues of the ports are checked, and only if they do not have all the
    data the memory side of the address is asked, once.  A response made from the
    queues is one for the request's command. *)
Theorem functional_asks_in_order P sendFunctionalSnoop sendFunctional k c s k' s' :
  XBar.bypassCaches (CoherentXBar.xp P) = false → isResponse (cmd k) = false →
  recvFunctional P sendFunctionalSnoop sendFunctional k c s = Ok (k', s') →
  ∃ n tail, let snooped := take n (asked c (CoherentXBar.snoopPorts (fxbar s))) in
    let k1 := seen_by sendFunctionalSnoop snooped k in
    calls s' = calls s ++ map (λ p, SnoopCall (SnoopFilter.p_id p)) snooped ++ tail ∧
    (∀ m, (m < n)%nat → isResponse (cmd (seen_by sendFunctionalSnoop (take m (asked c (CoherentXBar.snoopPorts (fxbar s)))) k)) = false) ∧
    if isResponse (cmd k1) then k' = k1 ∧ tail = []
    else snooped = asked c (CoherentXBar.snoopPorts (fxbar s)) ∧
      ∃ found k2 h2, ports_satisfy (cpu_ports s) k1 (heap s) = Ok ((found, k2), h2) ∧ heap s' = h2 ∧
        if found : bool then tail = [] ∧ respond_if_needed k2 = Ok k'
        else ∃ m d, tail = [MemCall m] ∧ k' = sendFunctional m k2 ∧
          XBarDecode.findPort (CoherentXBar.defaultPortID P) (CoherentXBar.useDefaultRange P)
            (AddrRange.RangeSize (addr k2) (size k2)) (CoherentXBar.decoder (fxbar s)) = Ok (m, d).
Proof.
  intros Hby Hk H. unfold recvFunctional in H. rewrite Hby in H.
  destruct (functional_loop_ok sendFunctionalSnoop c (CoherentXBar.snoopPorts (fxbar s)) k s Hk) as (n & Hrun & Hend & Hmin).
  cbv zeta in Hrun, Hend. set (snooped := take n _) in *. set (k1 := seen_by _ snooped k) in *.
  set (s1 := mkFState _ _ _) in Hrun.
  rewrite (M_bind_ok _ _ _ k1 s1) in H.
  2:{ unfold forwardFunctional. rewrite Hby. exec_M idtac. exact Hrun. }
  exists n. fold snooped. cbv zeta. fold k1. destruct (isResponse (cmd k1)) eqn:Hr.
  { injection H as <- <-. exists []. split; [by rewrite app_nil_r|]. split; [done|]. done. }
  destruct Hend as [?|Hn]; [done|].
  apply M_bind_inv in H as ([found k2] & s2 & Hq & H). unfold check_queues, mbind, M_bind, gets, on_heap in Hq. cbn [fxbar heap calls s1] in Hq.
  destruct (ports_satisfy _ _ _) as [[[f' k2'] h2]|] eqn:Hps in Hq; [|done]. injection Hq as -> -> <-. cbn [fst snd] in H.
  destruct found.
  - exists []. unfold lift in H. destruct (respond_if_needed k2) as [r|] eqn:Hresp; [|done]. injection H as <- <-.
    split; [by rewrite app_nil_r|]. split; [done|]. split; [unfold snooped; rewrite Hn; apply firstn_all|]. by exists true, k2, h2.
  - apply M_bind_inv in H as (m & s3 & Hm & H). unfold on_fxbar, CoherentXBar.on_decoder in Hm. cbn [fxbar heap calls] in Hm.
    destruct (XBarDecode.findPort _ _ _ _) as [[m' d]|] eqn:Hfp; [|done]. injection Hm as -> <-.
    step_M H. injection H as <- <-. exists [MemCall m]. split; [cbn [calls call]; by rewrite app_assoc|]. split; [done|].
    split; [unfold snooped; rewrite Hn; apply firstn_all|]. exists false, k2, h2. split; [done|]. split; [done|]. by exists m, d.
Qed.

(** ** Examples *)

(** Two responses in the queues of two ports, with neighbouring bytes; a read and
    a write that overlap both. *)
Definition queued_response (id a : Z) : PacketQueue.Queue :=
  PacketQueue.set_list [PacketQueue.mkDeferred 500 (PacketQueue.mkPkt id a false false)] (PacketQueue.new false true).
Definition example_fxbar : CoherentXBar.CXBar :=
  CoherentXBar.set_xbar (XBar.mkXBar Clocked.new None
    [XBar.mkCPUSidePort (SnoopFilter.mkPort 0 true) "system.generator0.port" (queued_response 1 100);
     XBar.mkCPUSidePort (SnoopFilter.mkPort 1 true) "system.generator1.port" (queued_response 2 104)]) example_cxbar.
Definition response_1 : Pkt := mkPkt ReadResp 100 false 4 false (Some [1; 2; 3; 4]) [].
Definition response_2 : Pkt := mkPkt ReadResp 104 false 4 false (Some [5; 6; 7; 8]) [].
Definition example_fstate : FState := mkFState example_fxbar (<[1 := response_1]> (<[2 := response_2]> ∅)) [].
Definition functional_read : Pkt := mkPkt ReadReq 102 false 4 false (Some [0; 0; 0; 0]) [].
Definition functional_write : Pkt := mkPkt WriteReq 102 false 4 false (Some [9; 9; 9; 9]) [].

Lemma responses_in_transit : in_transit response_1 ∧ in_transit response_2.
Proof. split; (split; [split; simpl; try lia; intros d [= <-]; reflexivity|intros _; by eexists]). Qed.

Lemma functional_read_collects_witness : ∃ k',
  check_queues functional_read example_fstate = Ok ((true, k'), example_fstate) ∧ data k' = Some [3; 4; 5; 6] ∧ complete k'.
Proof.
  destruct (functional_read_collects functional_read example_fstate [response_1; response_2])
    as (found & k' & n & Hrun & _ & _ & _ & _ & Hf & _).
  - split; [split; simpl; try lia; intros d [= <-]; reflexivity|reflexivity|reflexivity|by eexists|by left].
  - intros Hc. destruct (Hc 102) as [b Hb]; [split; simpl; lia|]. discriminate Hb.
  - repeat constructor; try apply responses_in_transit; reflexivity.
  - assert (found = true ∧ data k' = Some [3; 4; 5; 6]) as [-> Hd].
    { assert (match check_queues functional_read example_fstate with
              | Ok ((b, k), _) => b = true ∧ data k = Some [3; 4; 5; 6] | Err _ => False end) as Hval by (vm_compute; done).
      by rewrite Hrun in Hval. }
    exists k'. split; [exact Hrun|]. split; [exact Hd|by apply Hf].
Defined.

Lemma functional_write_updates_witness : ∃ h',
  check_queues functional_write example_fstate = Ok ((false, functional_write), mkFState example_fxbar h' []) ∧
  (data <$> h' !! 1) = Some (Some [1; 2; 9; 9]) ∧ (data <$> h' !! 2) = Some (Some [9; 9; 7; 8]).
Proof.
  destruct (functional_write_updates functional_write example_fstate) as (h' & Hrun & _).
  - split; [split; simpl; try lia; intros d [= <-]; reflexivity|reflexivity|reflexivity|reflexivity|by eexists].
  - intros i Hi. assert (i = 1 ∨ i = 2) as [->| ->] by (vm_compute in Hi; set_solver).
    + exists response_1. split; [reflexivity|apply responses_in_transit].
    + exists response_2. split; [reflexivity|apply responses_in_transit].
  - exists h'. split; [exact Hrun|].
    assert (match check_queues functional_write example_fstate with
            | Ok (_, s) => (data <$> heap s !! 1) = Some (Some [1; 2; 9; 9]) ∧ (data <$> heap s !! 2) = Some (Some [9; 9; 7; 8])
            | Err _ => False end) as Hval by (vm_compute; done).
    by rewrite Hrun in Hval.
Defined.

(** Nobody has the data, so the memory side is asked. *)
Definition silent (i : Z) (k : Pkt) : Pkt := k.
Definition answering (i : Z) (k : Pkt) : Pkt := set_cmd ReadResp k.
Definition memory_read : Pkt := mkPkt ReadReq 64 false 4 false (Some [0; 0; 0; 0]) [].

Lemma functional_asks_in_order_witness : ∃ k' s' n tail,
  recvFunctional example_cparams silent answering memory_read 0 (mkFState example_cxbar ∅ []) = Ok (k', s') ∧
  calls s' = [SnoopCall 1; MemCall 1] ∧
  calls s' = map (λ p, SnoopCall (SnoopFilter.p_id p)) (take n (asked 0 (CoherentXBar.snoopPorts example_cxbar))) ++ tail.
Proof.
  destruct (recvFunctional example_cparams silent answering memory_read 0 (mkFState example_cxbar ∅ [])) as [[k' s']|] eqn:H;
    [|vm_compute in H; discriminate H].
  destruct (functional_asks_in_order example_cparams silent answering memory_read 0 (mkFState example_cxbar ∅ []) k' s' eq_refl eq_refl H)
    as (n & tail & Hc & _).
  exists k', s', n, tail. split; [reflexivity|]. split; [|exact Hc].
  assert (match recvFunctional example_cparams silent answering memory_read 0 (mkFState example_cxbar ∅ []) with
          | Ok (_, s) => calls s = [SnoopCall 1; MemCall 1] | Err _ => False end) as Hval by (vm_compute; done).
  by rewrite H in Hval.
Defined.
