(* ===== verification/CachePkt.v ===== *)
(** * Packets with data, as caches see them

    The parts of [Request] ([mem/request.hh]) and [Packet] ([mem/packet.hh]) that
    the caches, the crossbar and the memory use in an atomic access: flags, and
    the bytes a packet points to.  Delays, identifiers of requestors and the
    flags of transactions are left out. *)
From stdpp Require Import base tactics list strings.
From Stdlib Require Import ZArith Lia.
From S2P Require Import Prelude MemCmd.
Local Open Scope Z_scope.

(** ** Bytes *)

(** [std::memcpy] of [size] bytes from offset [off] of an array. *)
Definition copy_out (src : list Z) (off size : Z) : res (list Z) :=
  if (0 <=? off) && (0 <=? size) && (off + size <=? Z.of_nat (length src))
  then Ok (take (Z.to_nat size) (drop (Z.to_nat off) src)) else Err EOutOfRange.

(** The array after bytes were copied to offset [off]. *)
Definition splice (n : nat) (bytes dst : list Z) : list Z :=
  take n dst ++ bytes ++ drop (n + length bytes) dst.
Definition copy_in (dst : list Z) (off : Z) (bytes : list Z) : res (list Z) :=
  if (0 <=? off) && (off + Z.of_nat (length bytes) <=? Z.of_nat (length dst))
  then Ok (splice (Z.to_nat off) bytes dst) else Err EOutOfRange.

(** Bytes of which only the enabled ones are taken. *)
Definition masked (enable : list bool) (bytes old : list Z) : list Z :=
  zip_with (λ (e : bool) p, if e then p.1 else p.2) enable (zip bytes old).

Module CachePkt.

(** ** Data *)

Definition InvalidContextID : Z := -1.

Record Request := mkReq {
  paddr : Z;
  rsize : Z;
  secure : bool;
  contextId : Z;
  uncacheable : bool;
  cacheClean : bool;       (* CLEAN *)
  cacheInvalidate : bool;  (* INVALIDATE *)
  toPOC : bool;            (* DST_POC *)
  toPOU : bool;            (* DST_POU *)
  broadcast : bool;
  byteEnable : list bool;
  atomicOp : option (list Z → list Z);
  condSwap : bool;
}.

(** [req->isCacheMaintenance()] *)
Definition maintenance (r : Request) : bool := cacheClean r || cacheInvalidate r.

(** [data] is [None] when neither [STATIC_DATA] nor [DYNAMIC_DATA] is set;
    [extraData] is a field of the request that the packet alone uses. *)
Record Pkt := mkPkt {
  cmd : Command;
  addr : Z;
  isSecure : bool;
  size : Z;
  data : option (list Z);
  req : Request;
  id : Z;
  extraData : Z;
  hasSharers : bool;
  cacheResponding : bool;
  responderHadWritable : bool;
  writeThrough : bool;
  satisfied : bool;
  blockCached : bool;
}.

Definition set_cmd (c : Command) (k : Pkt) : Pkt :=
  mkPkt c (addr k) (isSecure k) (size k) (data k) (req k) (id k) (extraData k) (hasSharers k) (cacheResponding k)
    (responderHadWritable k) (writeThrough k) (satisfied k) (blockCached k).
Definition set_data (d : option (list Z)) (k : Pkt) : Pkt :=
  mkPkt (cmd k) (addr k) (isSecure k) (size k) d (req k) (id k) (extraData k) (hasSharers k) (cacheResponding k)
    (responderHadWritable k) (writeThrough k) (satisfied k) (blockCached k).
Definition set_extraData (d : Z) (k : Pkt) : Pkt :=
  mkPkt (cmd k) (addr k) (isSecure k) (size k) (data k) (req k) (id k) d (hasSharers k) (cacheResponding k)
    (responderHadWritable k) (writeThrough k) (satisfied k) (blockCached k).
Definition setHasSharers (k : Pkt) : Pkt :=
  mkPkt (cmd k) (addr k) (isSecure k) (size k) (data k) (req k) (id k) (extraData k) true (cacheResponding k)
    (responderHadWritable k) (writeThrough k) (satisfied k) (blockCached k).
Definition setCacheResponding (k : Pkt) : res Pkt :=
  if negb (isRequest (cmd k)) then Err (EAssert "isRequest()") else
  if cacheResponding k then Err (EAssert "!flags.isSet(CACHE_RESPONDING)") else
  Ok (mkPkt (cmd k) (addr k) (isSecure k) (size k) (data k) (req k) (id k) (extraData k) (hasSharers k) true
    (responderHadWritable k) (writeThrough k) (satisfied k) (blockCached k)).
Definition setResponderHadWritable (k : Pkt) : res Pkt :=
  if negb (cacheResponding k) then Err (EAssert "cacheResponding()") else
  if responderHadWritable k then Err (EAssert "!responderHadWritable()") else
  Ok (mkPkt (cmd k) (addr k) (isSecure k) (size k) (data k) (req k) (id k) (extraData k) (hasSharers k) (cacheResponding k)
    true (writeThrough k) (satisfied k) (blockCached k)).
Definition set_writeThrough (w : bool) (k : Pkt) : Pkt :=
  mkPkt (cmd k) (addr k) (isSecure k) (size k) (data k) (req k) (id k) (extraData k) (hasSharers k) (cacheResponding k)
    (responderHadWritable k) w (satisfied k) (blockCached k).
Definition setWriteThrough (k : Pkt) : res Pkt :=
  if isWrite (cmd k) && (isEviction (cmd k) || bool_decide (cmd k = WriteClean))
  then Ok (set_writeThrough true k) else Err (EAssert "cmd.isWrite() && ...").
Definition clearWriteThrough (k : Pkt) : Pkt := set_writeThrough false k.
Definition setSatisfied (k : Pkt) : res Pkt :=
  if negb (isClean (cmd k)) then Err (EAssert "cmd.isClean()") else
  if satisfied k then Err (EAssert "!flags.isSet(SATISFIED)") else
  Ok (mkPkt (cmd k) (addr k) (isSecure k) (size k) (data k) (req k) (id k) (extraData k) (hasSharers k) (cacheResponding k)
    (responderHadWritable k) (writeThrough k) true (blockCached k)).
Definition setBlockCached (k : Pkt) : Pkt :=
  mkPkt (cmd k) (addr k) (isSecure k) (size k) (data k) (req k) (id k) (extraData k) (hasSharers k) (cacheResponding k)
    (responderHadWritable k) (writeThrough k) (satisfied k) true.

(** ** Constructors *)

(** [Packet(req, cmd)] *)
Definition new (r : Request) (c : Command) (ident : Z) : Pkt :=
  mkPkt c (paddr r) (secure r) (rsize r) None r ident 0 false false false false false false.

(** [Packet(req, cmd, blkSize, id)] *)
Definition new_block (r : Request) (c : Command) (blkSize ident : Z) : Pkt :=
  mkPkt c (Z.ldiff (paddr r) (blkSize - 1)) (secure r) blkSize None r ident 0 false false false false false false.

(** ** Operations *)

Definition getOffset (k : Pkt) (blk_size : Z) : Z := Z.land (addr k) (blk_size - 1).
Definition getBlockAddr (k : Pkt) (blk_size : Z) : Z := Z.ldiff (addr k) (blk_size - 1).

Definition isWholeLineWrite (k : Pkt) (blk_size : Z) : bool :=
  (bool_decide (cmd k = WriteReq) || bool_decide (cmd k = WriteLineReq)) &&
  (getOffset k blk_size =? 0) && (size k =? blk_size).

Definition isMasked (r : Request) : bool := existsb negb (byteEnable r).
Definition isMaskedWrite (k : Pkt) : bool := bool_decide (cmd k = WriteReq) && isMasked (req k).
Definition isAtomicOp (k : Pkt) : bool := bool_decide (is_Some (atomicOp (req k))).
Definition mustCheckAbove (k : Pkt) : bool := bool_decide (cmd k = HardPFReq) || isEviction (cmd k).
Definition isCleanEviction (k : Pkt) : bool :=
  bool_decide (cmd k = CleanEvict) || bool_decide (cmd k = WritebackClean).
Definition hasRespData (k : Pkt) : bool :=
  match responseCommand (cmd k) with Ok c => hasData c | Err _ => false end.

Definition getConstPtr (k : Pkt) : res (list Z) :=
  of_option (EAssert "flags.isSet(STATIC_DATA|DYNAMIC_DATA)") (data k).
Definition getPtr (k : Pkt) : res (list Z) :=
  d ← getConstPtr k;
  if isMaskedWrite k then Err (EAssert "!isMaskedWrite()") else Ok d.

(** The bytes of a fresh array are indeterminate; here they are 0. *)
Definition allocate (k : Pkt) : res Pkt :=
  if hasData (cmd k) || hasRespData k then
    match data k with
    | Some _ => Err (EAssert "flags.noneSet(STATIC_DATA|DYNAMIC_DATA)")
    | None => Ok (set_data (Some (replicate (Z.to_nat (size k)) 0)) k)
    end
  else Ok k.

(** Copy from offset [off] of the array [p] points into. *)
Definition setData (k : Pkt) (p : list Z) (off : Z) : res Pkt :=
  _ ← getPtr k;
  bytes ← copy_out p off (size k);
  Ok (set_data (Some bytes) k).
Definition setDataFromBlock (k : Pkt) (blk_data : list Z) (blkSize : Z) : res Pkt :=
  setData k blk_data (getOffset k blkSize).

(** Copy to offset [off] of the array [p] points into. *)
Definition writeData (k : Pkt) (p : list Z) (off : Z) : res (list Z) :=
  base ← getConstPtr k;
  bytes ← copy_out base 0 (size k);
  if isMaskedWrite k then
    if negb (Z.of_nat (length (byteEnable (req k))) =? size k)
    then Err (EAssert "req->getByteEnable().size() == getSize()")
    else old ← copy_out p off (size k); copy_in p off (masked (byteEnable (req k)) bytes old)
  else copy_in p off bytes.
Definition writeDataToBlock (k : Pkt) (blk_data : list Z) (blkSize : Z) : res (list Z) :=
  writeData k blk_data (getOffset k blkSize).

Definition makeResponse (k : Pkt) : res Pkt :=
  if negb (needsResponse (cmd k)) then Err (EAssert "needsResponse()") else
  if negb (isRequest (cmd k)) then Err (EAssert "isRequest()") else
  c ← responseCommand (cmd k);
  Ok (set_cmd c k).

Definition copyError (k other : Pkt) : res Pkt :=
  if isError (cmd other) then Ok (set_cmd (cmd other) k) else Err (EAssert "pkt->isError()").
End CachePkt.

(** ** Lemmas *)

Lemma splice_length n bytes dst :
  (n + length bytes ≤ length dst)%nat → length (splice n bytes dst) = length dst.
Proof. intros H. unfold splice. rewrite !length_app, length_take, length_drop. lia. Qed.

(** The bytes copied in are the bytes read back. *)
Lemma splice_slice n bytes dst :
  (n + length bytes ≤ length dst)%nat → take (length bytes) (drop n (splice n bytes dst)) = bytes.
Proof.
  intros H. unfold splice. rewrite drop_app_length' by (rewrite length_take; lia).
  by rewrite take_app_length.
Qed.

(** Bytes outside stay. *)
Lemma splice_lookup_out n bytes dst i :
  (n + length bytes ≤ length dst)%nat → (i < n ∨ n + length bytes ≤ i)%nat → splice n bytes dst !! i = dst !! i.
Proof.
  intros H Hi. unfold splice. destruct (decide (i < n)%nat).
  - rewrite lookup_app_l by (rewrite length_take; lia). by apply lookup_take_lt.
  - rewrite lookup_app_r by (rewrite length_take; lia). rewrite length_take, lookup_app_r by lia.
    rewrite lookup_drop. f_equal. lia.
Qed.

Lemma splice_lookup_in n bytes dst i :
  (n + length bytes ≤ length dst)%nat → (n ≤ i < n + length bytes)%nat → splice n bytes dst !! i = bytes !! (i - n)%nat.
Proof.
  intros H Hi. unfold splice. rewrite lookup_app_r by (rewrite length_take; lia).
  rewrite length_take, lookup_app_l by lia. f_equal. lia.
Qed.

(** The slice of a list; two slices are equal when their bytes are. *)
Definition slice (n m : nat) (l : list Z) : list Z := take m (drop n l).

Lemma slice_length n m l : (n + m ≤ length l)%nat → length (slice n m l) = m.
Proof. intros H. unfold slice. rewrite length_take, length_drop. lia. Qed.

Lemma slice_lookup n m l i : (i < m)%nat → slice n m l !! i = l !! (n + i)%nat.
Proof. intros H. unfold slice. rewrite lookup_take_lt, lookup_drop by done. done. Qed.

Lemma slice_ext n m l l' :
  (n + m ≤ length l)%nat → length l' = length l → (∀ i, (n ≤ i < n + m)%nat → l' !! i = l !! i) → slice n m l' = slice n m l.
Proof.
  intros Hl Hl' H. apply list_eq. intros i. destruct (decide (i < m)%nat).
  - rewrite !slice_lookup by done. apply H. lia.
  - rewrite !lookup_ge_None_2; [done|rewrite slice_length; lia..].
Qed.

(** Writing elsewhere keeps a slice. *)
Lemma slice_splice_ne n m a bytes l :
  (n + m ≤ length l)%nat → (a + length bytes ≤ length l)%nat → (a + length bytes ≤ n ∨ n + m ≤ a)%nat →
  slice n m (splice a bytes l) = slice n m l.
Proof.
  intros Hn Ha Hd. apply slice_ext; [done|by apply splice_length|]. intros i Hi. apply splice_lookup_out; lia.
Qed.

(** Writing inside a slice is writing into the slice. *)
Lemma slice_splice_in n m a bytes l :
  (n + m ≤ length l)%nat → (a + length bytes ≤ m)%nat →
  slice n m (splice (n + a) bytes l) = splice a bytes (slice n m l).
Proof.
  intros Hn Ha. apply list_eq. intros i.
  assert (length (slice n m (splice (n + a) bytes l)) = m) as L1 by (apply slice_length; rewrite splice_length; lia).
  assert (length (splice a bytes (slice n m l)) = m) as L2 by (rewrite splice_length; rewrite slice_length; lia).
  destruct (decide (i < m)%nat); [|by rewrite !lookup_ge_None_2 by lia].
  rewrite slice_lookup by done. destruct (decide (a ≤ i < a + length bytes)%nat).
  - rewrite !splice_lookup_in by (rewrite ?slice_length; lia). f_equal. lia.
  - rewrite !splice_lookup_out by (rewrite ?slice_length; lia). by rewrite slice_lookup.
Qed.

(** A slice of a slice. *)
Lemma slice_slice n m a k l : (a + k ≤ m)%nat → (n + m ≤ length l)%nat → slice a k (slice n m l) = slice (n + a) k l.
Proof.
  intros Ha Hn. apply list_eq. intros i. destruct (decide (i < k)%nat).
  - rewrite !slice_lookup by lia. f_equal. lia.
  - rewrite !lookup_ge_None_2; [done|rewrite slice_length; lia|rewrite slice_length; rewrite ?slice_length; lia].
Qed.

Lemma copy_out_ok src off size :
  0 ≤ off → 0 ≤ size → off + size ≤ Z.of_nat (length src) →
  copy_out src off size = Ok (slice (Z.to_nat off) (Z.to_nat size) src).
Proof. intros. unfold copy_out. by rewrite !(proj2 (Z.leb_le _ _)) by lia. Qed.

Lemma copy_in_ok dst off bytes :
  0 ≤ off → off + Z.of_nat (length bytes) ≤ Z.of_nat (length dst) →
  copy_in dst off bytes = Ok (splice (Z.to_nat off) bytes dst).
Proof. intros. unfold copy_in. by rewrite !(proj2 (Z.leb_le _ _)) by lia. Qed.

Lemma slice_all l : slice 0 (length l) l = l.
Proof. unfold slice. by rewrite drop_0, firstn_all. Qed.

Lemma splice_all bytes dst : length bytes = length dst → splice 0 bytes dst = bytes.
Proof. intros H. unfold splice. simpl. by rewrite H, drop_all, app_nil_r. Qed.
