(* ===== verification/CacheBlk.v ===== *)
(** * Cache blocks

    [mem/cache/tags/tagged_entry.hh], [mem/cache/cache_blk.hh] and
    [mem/cache/cache_blk.cc]: the tag, the coherence bits and the data of a block,
    and the locks that load-locked requests leave on it.  The fields that only
    statistics, prefetchers or timing use are left out.

    The locks decide which store conditionals succeed; the theorem at the end says
    which ones do, in terms of the accesses the block has seen. *)
From stdpp Require Import base tactics list strings sorting.
From Stdlib Require Import ZArith Lia.
From S2P Require Import Prelude MemCmd CachePkt.
Import CachePkt.
Local Open Scope Z_scope.

Module CacheBlk.

(** ** Data *)

Definition WritableBit : Z := 2.
Definition ReadableBit : Z := 4.
Definition DirtyBit : Z := 8.
Definition AllBits : Z := 14.

Definition MaxAddr : Z := 2 ^ 64 - 1.

Record Lock := mkLock { lk_contextId : Z; lowAddr : Z; highAddr : Z }.

#[export] Instance Lock_eq_dec : EqDecision Lock.
Proof. solve_decision. Defined.

(** [lastTouchTick] is the block's replacement data, [set_index] its position. *)
Record CacheBlk := mkBlk {
  valid : bool;
  secure : bool;
  tag : Z;
  coherence : Z;
  data : list Z;
  lockList : list Lock;
  lastTouchTick : Z;
  set_index : Z;
}.

Definition set_coherence (c : Z) (b : CacheBlk) : CacheBlk :=
  mkBlk (valid b) (secure b) (tag b) c (data b) (lockList b) (lastTouchTick b) (set_index b).
Definition set_data (d : list Z) (b : CacheBlk) : CacheBlk :=
  mkBlk (valid b) (secure b) (tag b) (coherence b) d (lockList b) (lastTouchTick b) (set_index b).
Definition set_lockList (l : list Lock) (b : CacheBlk) : CacheBlk :=
  mkBlk (valid b) (secure b) (tag b) (coherence b) (data b) l (lastTouchTick b) (set_index b).
Definition set_touched (t : Z) (b : CacheBlk) : CacheBlk :=
  mkBlk (valid b) (secure b) (tag b) (coherence b) (data b) (lockList b) t (set_index b).

(** ** Validity and tags *)

Definition invalidate (b : CacheBlk) : CacheBlk :=
  mkBlk false false MaxAddr (Z.ldiff (coherence b) AllBits) (data b) [] (lastTouchTick b) (set_index b).

(** The tag is inserted into an invalid block, which is not secure. *)
Definition insert (t : Z) (is_secure : bool) (b : CacheBlk) : res CacheBlk :=
  if valid b then Err (EAssert "!isValid()") else
  Ok (mkBlk true (if is_secure then true else secure b) t (coherence b) (data b) (lockList b) (lastTouchTick b) (set_index b)).

Definition matchTag (t : Z) (is_secure : bool) (b : CacheBlk) : bool :=
  valid b && (tag b =? t) && Bool.eqb (secure b) is_secure.

(** ** Coherence bits *)

Definition setCoherenceBits (bits : Z) (b : CacheBlk) : res CacheBlk :=
  if valid b then Ok (set_coherence (Z.lor (coherence b) bits) b) else Err (EAssert "isValid()").
Definition clearCoherenceBits (bits : Z) (b : CacheBlk) : CacheBlk :=
  set_coherence (Z.ldiff (coherence b) bits) b.
Definition isSet (bits : Z) (b : CacheBlk) : bool := valid b && negb (Z.land (coherence b) bits =? 0).

(** ** Locks *)

(** [req->contextId()] *)
Definition context (r : Request) : res Z :=
  if contextId r =? InvalidContextID then Err (EAssert "hasContextId()") else Ok (contextId r).

Definition req_high (r : Request) : Z := u64 (u64 (paddr r + rsize r) - 1).

Definition new_lock (r : Request) : res Lock := c ← context r; Ok (mkLock c (paddr r) (req_high r)).

Definition matches (l : Lock) (r : Request) : res bool :=
  c ← context r;
  Ok ((lk_contextId l =? c) && (lowAddr l <=? paddr r) && (req_high r <=? highAddr l)).

Definition intersects (l : Lock) (r : Request) : bool :=
  (paddr r <=? highAddr l) && (lowAddr l <=? req_high r).

Definition trackLoadLocked (k : Pkt) (b : CacheBlk) : res CacheBlk :=
  if negb (isLLSC (cmd k)) then Err (EAssert "pkt->isLLSC()") else
  l ← new_lock (req k);
  Ok (set_lockList (l :: filter (λ l, intersects l (req k) = false) (lockList b)) b).

(** The loop of [clearLoadLocks]. *)
Fixpoint clear_locks (r : Request) (ls : list Lock) : res (list Lock) :=
  match ls with
  | [] => Ok []
  | l :: ls =>
      erase ← (if intersects l r then c ← context r; Ok (negb (lk_contextId l =? c)) else Ok false);
      ls ← clear_locks r ls;
      Ok (if (erase : bool) then ls else l :: ls)
  end.
Definition clearLoadLocks (r : Request) (b : CacheBlk) : res CacheBlk :=
  ls ← clear_locks r (lockList b); Ok (set_lockList ls b).

(** The search of a store conditional: the first lock that matches is erased. *)
Fixpoint take_lock (r : Request) (ls : list Lock) : res (bool * list Lock) :=
  match ls with
  | [] => Ok (false, [])
  | l :: ls =>
      m ← matches l r;
      if (m : bool) then Ok (true, ls) else
      p ← take_lock r ls;
      Ok (p.1, l :: p.2)
  end.

(** Whether the write may proceed; the packet with the result of a store
    conditional, and the block. *)
Definition checkWrite (k : Pkt) (b : CacheBlk) : res (bool * Pkt * CacheBlk) :=
  if negb (isWrite (cmd k)) then Err (EAssert "pkt->isWrite()") else
  if negb (isLLSC (cmd k)) && bool_decide (lockList b = []) then Ok (true, k, b) else
  if isLLSC (cmd k) then
    p ← take_lock (req k) (lockList b);
    b ← clearLoadLocks (req k) (set_lockList p.2 b);
    Ok (p.1, set_extraData (Z.b2z p.1) k, b)
  else
    b ← clearLoadLocks (req k) b;
    Ok (true, k, b).
End CacheBlk.

Import CacheBlk.

(** ** Coherence bits as flags *)

(** The three states of a bit word that matter. *)
Definition has (bit : Z) (b : CacheBlk) : bool := negb (Z.land (coherence b) bit =? 0).

Lemma land_pow2_testbit c n : 0 ≤ n → negb (Z.land c (2 ^ n) =? 0) = Z.testbit c n.
Proof.
  intros Hn. destruct (Z.testbit c n) eqn:E.
  - apply negb_true_iff, Z.eqb_neq. intros H. apply (f_equal (λ x, Z.testbit x n)) in H.
    by rewrite Z.land_spec, Z.pow2_bits_true, E, Z.bits_0 in H.
  - apply negb_false_iff, Z.eqb_eq. apply Z.bits_inj'. intros m Hm. rewrite Z.land_spec, Z.bits_0.
    destruct (decide (m = n)) as [->|]; [by rewrite E|]. by rewrite Z.pow2_bits_false, andb_false_r by lia.
Qed.

Lemma has_testbit n b : 0 ≤ n → has (2 ^ n) b = Z.testbit (coherence b) n.
Proof. apply land_pow2_testbit. Qed.

(** Setting and clearing bits, one by one. *)
Lemma has_set n m b : 0 ≤ n → 0 ≤ m →
  has (2 ^ n) (set_coherence (Z.lor (coherence b) (2 ^ m)) b) = has (2 ^ n) b || (n =? m).
Proof.
  intros Hn Hm. rewrite !has_testbit by done. simpl. rewrite Z.lor_spec. f_equal.
  by rewrite Z.pow2_bits_eqb, Z.eqb_sym by done.
Qed.
Lemma has_clear n m b : 0 ≤ n → 0 ≤ m →
  has (2 ^ n) (set_coherence (Z.ldiff (coherence b) (2 ^ m)) b) = has (2 ^ n) b && negb (n =? m).
Proof.
  intros Hn Hm. rewrite !has_testbit by done. simpl. rewrite Z.ldiff_spec. f_equal.
  by rewrite Z.pow2_bits_eqb, Z.eqb_sym by done.
Qed.

Lemma isSet_has bit b : isSet bit b = valid b && has bit b.
Proof. done. Qed.

(** ** Store conditionals *)

(** What happens to a block between its insertion and now. *)
Inductive LockOp :=
  | LoadLocked (r : Request)
  | Store (r : Request)
  | StoreCond (r : Request)
  | Invalidated.

Definition op_req (o : LockOp) : option Request :=
  match o with LoadLocked r | Store r | StoreCond r => Some r | Invalidated => None end.

(** Requests with a context that cover at least a byte and do not wrap around. *)
Definition req_ok (r : Request) : Prop :=
  contextId r ≠ InvalidContextID ∧ 0 ≤ paddr r ∧ 1 ≤ rsize r ∧ paddr r + rsize r < 2 ^ 64.

Definition lock_packet (c : Command) (r : Request) : Pkt := CachePkt.new r c 0.

(** The block after an access, and whether a store conditional succeeded. *)
Definition lock_step (o : LockOp) (b : CacheBlk) : res (bool * CacheBlk) :=
  match o with
  | LoadLocked r => b ← trackLoadLocked (lock_packet LoadLockedReq r) b; Ok (true, b)
  | Store r => p ← checkWrite (lock_packet WriteReq r) b; Ok (p.1.1, p.2)
  | StoreCond r => p ← checkWrite (lock_packet StoreCondReq r) b; Ok (p.1.1, p.2)
  | Invalidated => Ok (true, invalidate b)
  end.

Fixpoint lock_steps (os : list LockOp) (b : CacheBlk) : res CacheBlk :=
  match os with
  | [] => Ok b
  | o :: os => p ← lock_step o b; lock_steps os p.2
  end.

(** The specification: whether bytes are shared, and whether a request takes
    away the reservation a load-locked request [r] has made. *)
Definition overlap (r q : Request) : Prop := paddr r < paddr q + rsize q ∧ paddr q < paddr r + rsize r.
Definition within (q r : Request) : Prop := paddr r ≤ paddr q ∧ paddr q + rsize q ≤ paddr r + rsize r.

Definition ends_reservation (o : LockOp) (r : Request) : Prop :=
  match o with
  | LoadLocked q => overlap r q
  | Store q => overlap r q ∧ contextId q ≠ contextId r
  | StoreCond q => overlap r q ∧ contextId q ≠ contextId r ∨ within q r ∧ contextId q = contextId r
  | Invalidated => True
  end.

(** [r] reserved its bytes and nothing since has ended the reservation. *)
Definition reserves (h : list LockOp) (r : Request) : Prop :=
  ∃ h1 h2, h = h1 ++ LoadLocked r :: h2 ∧ Forall (λ o, ¬ ends_reservation o r) h2.

Definition lock_of (r : Request) : Lock := mkLock (contextId r) (paddr r) (paddr r + rsize r - 1).

Lemma req_high_ok r : req_ok r → req_high r = paddr r + rsize r - 1.
Proof. intros (_ & ? & ? & ?). unfold req_high, u64. rewrite (Z.mod_small (_ + _)) by lia. apply Z.mod_small. lia. Qed.

Lemma context_ok r : req_ok r → context r = Ok (contextId r).
Proof. intros (? & _). unfold context. by rewrite (proj2 (Z.eqb_neq _ _)). Qed.

Lemma new_lock_ok r : req_ok r → new_lock r = Ok (lock_of r).
Proof. intros H. unfold new_lock. rewrite context_ok by done. unfold lock_of. simpl. by rewrite req_high_ok. Qed.

Lemma lock_intersects_ok r q : req_ok r → req_ok q → intersects (lock_of r) q = true ↔ overlap r q.
Proof.
  intros Hr Hq. unfold intersects, overlap. rewrite (req_high_ok q) by done. simpl.
  rewrite andb_true_iff, !Z.leb_le. lia.
Qed.

Lemma matches_ok r q : req_ok r → req_ok q →
  ∃ m, matches (lock_of r) q = Ok m ∧ (m = true ↔ within q r ∧ contextId q = contextId r).
Proof.
  intros Hr Hq. unfold matches. rewrite (context_ok q), (req_high_ok q) by done. simpl. eexists. split; [done|].
  unfold within. rewrite !andb_true_iff, Z.eqb_eq, !Z.leb_le. lia.
Qed.

(** The locks of a block are those of requests, and no two overlap. *)
Definition locks_ok (ls : list Lock) (rs : list Request) : Prop :=
  ls = map lock_of rs ∧ Forall req_ok rs ∧ ForallOrdPairs (λ r q, ¬ overlap r q) rs.

Lemma overlap_sym r q : overlap r q → overlap q r.
Proof. unfold overlap. lia. Qed.
Lemma within_overlap q r : req_ok q → within q r → overlap r q.
Proof. unfold req_ok, within, overlap. lia. Qed.

Lemma Forall_filter_l {A} (Q P : A → Prop) `{∀ x, Decision (P x)} l : Forall Q l → Forall Q (filter P l).
Proof. rewrite !Forall_forall. intros HQ x [_ Hx]%list_elem_of_filter. auto. Qed.

Lemma FOP_filter {A} (R : A → A → Prop) (P : A → Prop) `{∀ x, Decision (P x)} l :
  ForallOrdPairs R l → ForallOrdPairs R (filter P l).
Proof.
  induction 1 as [|x l Hx _ IH]; [constructor|]. rewrite filter_cons. case_decide; [|done].
  constructor; [|done]. by apply Forall_filter_l.
Qed.

Lemma locks_ok_filter rs (P : Request → Prop) `{∀ x, Decision (P x)} :
  Forall req_ok rs → ForallOrdPairs (λ r q, ¬ overlap r q) rs → locks_ok (map lock_of (filter P rs)) (filter P rs).
Proof. intros Hr Ho. split; [done|]. split; [by apply Forall_filter_l|by apply FOP_filter]. Qed.

#[export] Instance overlap_dec r q : Decision (overlap r q).
Proof. unfold overlap. apply _. Defined.
#[export] Instance within_dec r q : Decision (within r q).
Proof. unfold within. apply _. Defined.

Lemma clear_locks_ok q rs : req_ok q → Forall req_ok rs →
  clear_locks q (map lock_of rs) =
    Ok (map lock_of (filter (λ r, ¬ (overlap r q ∧ contextId q ≠ contextId r)) rs)).
Proof.
  intros Hq. induction 1 as [|r rs Hr _ IH]; [done|]. cbn [clear_locks map]. rewrite filter_cons.
  assert ((if intersects (lock_of r) q then c ← context q; Ok (negb (lk_contextId (lock_of r) =? c)) else Ok false) =
    Ok (bool_decide (overlap r q ∧ contextId q ≠ contextId r))) as ->.
  { destruct (intersects (lock_of r) q) eqn:E.
    - apply lock_intersects_ok in E; [|done..]. rewrite context_ok by done. simpl. f_equal.
      destruct (Z.eqb_spec (contextId r) (contextId q)); case_bool_decide; simpl; naive_solver.
    - case_bool_decide as Ho; [|done]. destruct Ho as [Ho%lock_intersects_ok _]; [congruence|done..]. }
  simpl. rewrite IH. simpl. repeat case_decide; case_bool_decide; naive_solver.
Qed.

Lemma take_lock_ok q rs : req_ok q → locks_ok (map lock_of rs) rs →
  ∃ s, take_lock q (map lock_of rs) = Ok (s, map lock_of (filter (λ r, ¬ (within q r ∧ contextId q = contextId r)) rs)) ∧
    (s = true ↔ ∃ r, r ∈ rs ∧ within q r ∧ contextId q = contextId r).
Proof.
  intros Hq (_ & Hok & Hd). induction Hd as [|r rs Hr Hd IH]; cbn [take_lock map].
  { exists false. split; [done|]. split; [done|]. intros (? & ?%elem_of_nil & _). done. }
  apply Forall_cons in Hok as [Hrok Hok]. specialize (IH Hok) as (s & Hs & Hiff).
  destruct (matches_ok r q Hrok Hq) as (m & Hm & Hmiff). rewrite Hm. simpl. rewrite filter_cons. destruct m.
  - exists true. assert (within q r ∧ contextId q = contextId r) as Hw by (by apply Hmiff).
    rewrite decide_False by tauto. split; [|split; [intros _; exists r; split; [by left|done]|done]]. do 3 f_equal.
    symmetry. clear -Hq Hr Hok Hw. induction rs as [|r' rs IH]; [done|].
    apply Forall_cons in Hr as [Hr Hrs]. apply Forall_cons in Hok as [_ Hok]. rewrite filter_cons, decide_True; [by rewrite IH|].
    intros [Hw' _]. apply Hr. destruct Hq as (_ & ? & ? & _), Hw as [Hw _]. unfold within, overlap in *. lia.
  - assert (¬ (within q r ∧ contextId q = contextId r)) as Hw by (intros ?%Hmiff; done).
    rewrite Hs, decide_True by done. exists s. split; [done|]. rewrite Hiff. split.
    + intros (r' & Hin & ?). exists r'. split; [by right|done].
    + intros (r' & [->|Hin]%elem_of_cons & ?); [tauto|by exists r'].
Qed.

Lemma reserves_snoc h o r :
  reserves (h ++ [o]) r ↔ o = LoadLocked r ∨ reserves h r ∧ ¬ ends_reservation o r.
Proof.
  split.
  - intros (h1 & h2 & E & H2). destruct h2 as [|o' h2' _] using rev_ind.
    + apply app_inj_tail in E as [_ ->]. by left.
    + rewrite app_comm_cons, app_assoc in E. apply app_inj_tail in E as [-> ->].
      apply Forall_app in H2 as [H2 Ho]. apply Forall_cons in Ho as [Ho _]. right. split; [by exists h1, h2'|done].
  - intros [->|[(h1 & h2 & -> & H2) Ho]].
    + by exists h, [].
    + exists h1, (h2 ++ [o]). split; [by rewrite <-app_assoc|]. apply Forall_app. split; [done|by apply Forall_singleton].
Qed.

Lemma LoadLocked_cases r q : LoadLocked r = LoadLocked q ↔ q = r.
Proof. split; [by intros [= ->]|by intros ->]. Qed.

(** The reservations are the locks of the block. *)
Definition tracked (h : list LockOp) (b : CacheBlk) : Prop :=
  ∃ rs, locks_ok (lockList b) rs ∧ ∀ r, r ∈ rs ↔ reserves h r.

(** The locks that survive a request make the new list. *)
Lemma tracked_filter h o (P : Request → Prop) `{∀ r, Decision (P r)} rs b :
  Forall req_ok rs → ForallOrdPairs (λ r q, ¬ overlap r q) rs → (∀ r, r ∈ rs ↔ reserves h r) →
  lockList b = map lock_of (filter P rs) → (∀ r, r ∈ rs → P r ↔ ¬ ends_reservation o r) →
  (∀ r, o ≠ LoadLocked r) → tracked (h ++ [o]) b.
Proof.
  intros Hok Hd Hin Hb HP Ho. exists (filter P rs). rewrite Hb. split; [by apply locks_ok_filter|].
  intros r. rewrite list_elem_of_filter, reserves_snoc. split.
  - intros [Hp Hr]. right. split; [by apply Hin|by apply HP].
  - intros [E|[Hr%Hin He]]; [by apply Ho in E|]. split; [by apply HP|done].
Qed.

Lemma clear_none q rs : req_ok q → Forall req_ok rs →
  ∀ b, lockList b = map lock_of rs →
  clearLoadLocks q b = Ok (set_lockList (map lock_of (filter (λ r, ¬ (overlap r q ∧ contextId q ≠ contextId r)) rs)) b).
Proof. intros Hq Hrs b Hb. unfold clearLoadLocks. rewrite Hb, clear_locks_ok by done. done. Qed.

Lemma checkWrite_store h q b : req_ok q → tracked h b →
  ∃ b', checkWrite (lock_packet WriteReq q) b = Ok (true, lock_packet WriteReq q, b') ∧ tracked (h ++ [Store q]) b'.
Proof.
  intros Hq (rs & (Hb & Hok & Hd) & Hin). unfold checkWrite. change (isWrite _) with true. change (isLLSC _) with false. cbn [negb andb].
  case_bool_decide as E.
  - exists b. split; [done|]. assert (rs = []) as -> by (rewrite E in Hb; by destruct rs).
    by eapply (tracked_filter _ (Store q) (λ _, True)); [..|intros r ?%elem_of_nil|].
  - change (req (lock_packet WriteReq q)) with q. rewrite (clear_none q rs Hq Hok b Hb). eexists. split; [done|]. by eapply (tracked_filter h (Store q)).
Qed.

Lemma checkWrite_cond h q b : req_ok q → tracked h b →
  ∃ s b', checkWrite (lock_packet StoreCondReq q) b = Ok (s, set_extraData (Z.b2z s) (lock_packet StoreCondReq q), b') ∧
    tracked (h ++ [StoreCond q]) b' ∧ (s = true ↔ ∃ r, reserves h r ∧ within q r ∧ contextId q = contextId r).
Proof.
  intros Hq (rs & (Hb & Hok & Hd) & Hin). unfold checkWrite. change (isWrite _) with true. change (isLLSC _) with true. cbn [negb andb].
  destruct (take_lock_ok q rs Hq) as (s & Hs & Hiff); [done|].
  change (req (lock_packet StoreCondReq q)) with q. rewrite Hb, Hs. cbn [mbind res_bind fst snd].
  rewrite (clear_none q (filter (λ r, ¬ (within q r ∧ contextId q = contextId r)) rs));
    [|done|by apply Forall_filter_l|done]. cbn [mbind res_bind].
  eexists s, _. split; [done|]. split.
  - rewrite list_filter_filter. eapply (tracked_filter h (StoreCond q)); [done..| |done].
    intros r _. simpl. tauto.
  - rewrite Hiff. split; intros (r & Hr & ?); exists r; (split; [by apply Hin|done]).
Qed.

Lemma lock_step_tracked h o b : from_option req_ok True (op_req o) → tracked h b →
  ∃ s b', lock_step o b = Ok (s, b') ∧ tracked (h ++ [o]) b'.
Proof.
  intros Ho Ht. destruct o as [q|q|q|]; simpl in Ho; unfold lock_step.
  - destruct Ht as (rs & (Hb & Hok & Hd) & Hin). unfold trackLoadLocked. change (isLLSC _) with true. cbn [negb].
    change (req (lock_packet LoadLockedReq q)) with q. rewrite new_lock_ok by done. cbn [mbind res_bind].
    eexists _, _. split; [done|]. exists (q :: filter (λ r, ¬ overlap r q) rs). split.
    + split; [|split].
      * simpl. f_equal. rewrite Hb. clear Hin Hd Hb. induction Hok as [|r rs Hr _ IH]; [done|]. cbn [map]. rewrite !filter_cons.
        destruct (intersects (lock_of r) q) eqn:E.
        -- rewrite decide_False by done. rewrite decide_False by (apply lock_intersects_ok in E; [tauto|done..]). done.
        -- rewrite decide_True by done. rewrite decide_True by (intros Ho'%lock_intersects_ok; [congruence|done..]). by rewrite IH.
      * constructor; [done|by apply Forall_filter_l].
      * constructor; [|by apply FOP_filter]. apply Forall_forall. intros r [Hr _]%list_elem_of_filter. intros ?. by apply Hr, overlap_sym.
    + intros r. rewrite elem_of_cons, list_elem_of_filter, reserves_snoc, LoadLocked_cases, Hin. simpl. tauto.
  - destruct (checkWrite_store h q b Ho Ht) as (b' & -> & Ht'). eexists _, b'. split; [done|]. done.
  - destruct (checkWrite_cond h q b Ho Ht) as (s & b' & -> & Ht' & _). eexists _, b'. split; [done|]. done.
  - eexists _, _. split; [done|]. exists []. split; [split; [done|]; split; constructor|].
    intros r. split; [by intros ?%elem_of_nil|]. intros [?|[_ H]]%reserves_snoc; [done|]. by destruct H.
Qed.

Lemma lock_steps_tracked os : ∀ h b, Forall (λ o, from_option req_ok True (op_req o)) os → tracked h b →
  ∃ b', lock_steps os b = Ok b' ∧ tracked (h ++ os) b'.
Proof.
  induction os as [|o os IH]; intros h b Hos Ht.
  { exists b. by rewrite app_nil_r. }
  apply Forall_cons in Hos as [Ho Hos]. destruct (lock_step_tracked h o b Ho Ht) as (s & b1 & H1 & Ht1).
  destruct (IH (h ++ [o]) b1 Hos Ht1) as (b2 & H2 & Ht2). exists b2. cbn [lock_steps]. rewrite H1. cbn [mbind res_bind snd].
  split; [done|]. by rewrite <-app_assoc in Ht2.
Qed.

(** C30. A store conditional succeeds exactly when it should.  Whatever accesses a
    block has seen since it was inserted, a store conditional returns, and it
    succeeds and reports 1 if and only if an earlier load-locked request of the
    same context covered its bytes and nothing since has ended the reservation:
    no load-locked request of overlapping bytes by anyone, no store to overlapping
    bytes by another context, no store conditional that used it, no
    invalidation.  (The comment in [checkWrite] lets any store of another context
    end all reservations of the block; [clearLoadLocks] keeps those it does not
    overlap.) *)
Theorem store_conditional_exact h r b :
  Forall (λ o, from_option req_ok True (op_req o)) h → req_ok r →
  ∃ b1 b2 s, lock_steps h (invalidate b) = Ok b1 ∧
    checkWrite (lock_packet StoreCondReq r) b1 = Ok (s, set_extraData (Z.b2z s) (lock_packet StoreCondReq r), b2) ∧
    (s = true ↔ ∃ q, reserves h q ∧ within r q ∧ contextId q = contextId r).
Proof.
  intros Hh Hr. destruct (lock_steps_tracked h [] (invalidate b) Hh) as (b1 & H1 & Ht1).
  { exists []. split; [split; [done|]; split; constructor|]. intros q. split; [by intros ?%elem_of_nil|].
    intros ([|] & h2 & E & _); done. }
  destruct (checkWrite_cond h r b1 Hr Ht1) as (s & b2 & H2 & _ & Hs). exists b1, b2, s. split_and!; [done..|].
  rewrite Hs. split; intros (q & ? & ? & ?); by exists q.
Qed.

(** Context 1 reserves eight bytes, context 2 others; a store of context 2 next to
    them does not end the reservation. *)
Definition example_req (c a n : Z) : Request := mkReq a n false c false false false false false false [] None false.
Definition example_blk : CacheBlk := mkBlk false false 0 0 [] [] 0 0.

Lemma store_conditional_exact_witness :
  let h := [LoadLocked (example_req 1 4096 8); LoadLocked (example_req 2 4104 8); Store (example_req 2 4112 4)] in
  ∃ b1 b2 s, lock_steps h (invalidate example_blk) = Ok b1 ∧
    checkWrite (lock_packet StoreCondReq (example_req 1 4100 4)) b1 =
      Ok (s, set_extraData (Z.b2z s) (lock_packet StoreCondReq (example_req 1 4100 4)), b2) ∧ s = true.
Proof.
  intros h. destruct (store_conditional_exact h (example_req 1 4100 4) example_blk) as (b1 & b2 & s & H1 & H2 & H3).
  - unfold h. repeat (constructor; [unfold req_ok, InvalidContextID; simpl; lia|]). constructor.
  - unfold req_ok, InvalidContextID. simpl. lia.
  - exists b1, b2, s. split; [exact H1|]. split; [exact H2|]. apply H3. exists (example_req 1 4096 8). split.
    + exists [], [LoadLocked (example_req 2 4104 8); Store (example_req 2 4112 4)]. split; [reflexivity|].
      constructor; [unfold ends_reservation, overlap; simpl; lia|]. constructor; [|constructor].
      unfold ends_reservation, overlap. simpl. lia.
    + split; [unfold within; simpl; lia|reflexivity].
Defined.
