(* ===== verification/CacheTags.v ===== *)
(** * The tags of a cache

    [mem/cache/tags/base.cc], [mem/cache/tags/base_set_assoc.hh], the
    set-associative indexing policy of [mem/cache/tags/indexing_policies/] and the
    LRU policy of [mem/cache/replacement_policies/lru_rp.cc].  The blocks are an
    array; a pointer to a block is its index.  Way [w] of set [s] is block
    [s * assoc + w], as [tagsInit] and [setEntry] lay them out. *)
From stdpp Require Import base tactics list strings relations.
From Stdlib Require Import ZArith Lia.
From S2P Require Import Prelude MemCmd CachePkt CacheBlk.
Import CacheBlk.
Local Open Scope Z_scope.

Module Tags.

(** ** Geometry *)

Record Params := mkParams { blkSize : Z; size : Z; assoc : Z }.

(** [isPowerOf2(n)] and [floorLog2(n)] of [base/intmath.hh] *)
Definition isPowerOf2 (n : Z) : bool := (0 <? n) && (Z.land n (n - 1) =? 0).
Definition floorLog2 (n : Z) : Z := Z.log2 n.

Section tags.
Context (P : Params).

Definition numBlocks : Z := size P / blkSize P.
Definition numSets : Z := size P / (blkSize P * assoc P).
Definition setShift : Z := floorLog2 (blkSize P).
Definition setMask : Z := numSets - 1.
Definition tagShift : Z := setShift + floorLog2 numSets.
Definition blkMask : Z := blkSize P - 1.

(** The checks of the constructors. *)
Definition check_params : res unit :=
  if assoc P * blkSize P =? 0 then Err EDivByZero else
  if (blkSize P <? 4) || negb (isPowerOf2 (blkSize P)) then Err (EPanic "Block size must be at least 4 and a power of 2") else
  if negb (isPowerOf2 numSets) then Err (EPanic "# of sets must be non-zero and a power of 2") else
  if assoc P <=? 0 then Err (EPanic "associativity must be greater than zero") else Ok tt.

Definition blkAlign (addr : Z) : Z := Z.ldiff addr blkMask.
Definition extractBlkOffset (addr : Z) : Z := Z.land addr blkMask.
Definition extractTag (addr : Z) : Z := Z.shiftr addr tagShift.
Definition extractSet (addr : Z) : Z := u32 (Z.land (Z.shiftr addr setShift) setMask).

(** [entry->getSet() << setShift] is computed in 32 bits. *)
Definition regenerateAddr (t set : Z) : Z := Z.lor (u64 (Z.shiftl t tagShift)) (u32 (Z.shiftl set setShift)).
Definition regenerateBlkAddr (b : CacheBlk) : Z := regenerateAddr (tag b) (set_index b).

(** The ways of the set of an address. *)
Definition getPossibleEntries (addr : Z) : list nat :=
  seq (Z.to_nat (extractSet addr * assoc P)) (Z.to_nat (assoc P)).

(** [setEntry] and the rest of [tagsInit] for one block. *)
Definition init_blk (index : Z) : res CacheBlk :=
  let set := u32 (Z.quot index (assoc P)) in
  if negb (set <? numSets) then Err (EAssert "set < numSets") else
  Ok (mkBlk false false MaxAddr 0 (replicate (Z.to_nat (blkSize P)) 0) [] 0 set).
Fixpoint init_blks (n : nat) (index : Z) : res (list CacheBlk) :=
  match n with
  | O => Ok []
  | S n => b ← init_blk index; bs ← init_blks n (index + 1); Ok (b :: bs)
  end.
Definition tagsInit : res (list CacheBlk) :=
  _ ← check_params; init_blks (Z.to_nat numBlocks) 0.

(** ** Lookups *)

Fixpoint search (t : Z) (is_secure : bool) (blks : list CacheBlk) (entries : list nat) : option nat :=
  match entries with
  | [] => None
  | i :: entries =>
      match blks !! i with
      | Some b => if matchTag t is_secure b then Some i else search t is_secure blks entries
      | None => search t is_secure blks entries
      end
  end.
Definition findBlock (addr : Z) (is_secure : bool) (blks : list CacheBlk) : option nat :=
  search (extractTag addr) is_secure blks (getPossibleEntries addr).

(** A hit is touched. *)
Definition accessBlock (now addr : Z) (is_secure : bool) (blks : list CacheBlk) : option nat * list CacheBlk :=
  match findBlock addr is_secure blks with
  | Some i => (Some i, alter (set_touched now) i blks)
  | None => (None, blks)
  end.

(** ** Replacement *)

Definition touched (blks : list CacheBlk) (i : nat) : Z :=
  match blks !! i with Some b => lastTouchTick b | None => 0 end.

(** [LRU::getVictim] *)
Fixpoint lru_loop (blks : list CacheBlk) (candidates : list nat) (victim : nat) : nat :=
  match candidates with
  | [] => victim
  | c :: candidates => lru_loop blks candidates (if touched blks c <? touched blks victim then c else victim)
  end.
Definition getVictim (blks : list CacheBlk) (candidates : list nat) : res nat :=
  match candidates with
  | [] => Err (EAssert "candidates.size() > 0")
  | c :: _ => Ok (lru_loop blks candidates c)
  end.

(** The only block to evict is the victim. *)
Definition findVictim (addr : Z) (blks : list CacheBlk) : res nat := getVictim blks (getPossibleEntries addr).

Definition insertBlock (now addr : Z) (is_secure : bool) (i : nat) (blks : list CacheBlk) : res (list CacheBlk) :=
  b ← of_option EBadPointer (blks !! i);
  b ← CacheBlk.insert (extractTag addr) is_secure b;
  Ok (<[i := set_touched now b]> blks).

Definition invalidate (i : nat) (blks : list CacheBlk) : res (list CacheBlk) :=
  b ← of_option EBadPointer (blks !! i);
  if negb (valid b) then Err (EAssert "blk->isValid()") else
  Ok (<[i := set_touched 0 (CacheBlk.invalidate b)]> blks).
End tags.
End Tags.

Import Tags.

(** ** Addresses *)

(** A geometry the constructors accept, whose sets span at most 4 GiB. *)
Record geometry (P : Params) (n s : Z) : Prop := {
  geo_blk : blkSize P = 2 ^ n; geo_n : 2 ≤ n;
  geo_sets : numSets P = 2 ^ s; geo_s : 0 ≤ s;
  geo_32 : n + s ≤ 32; geo_assoc : 1 ≤ assoc P;
}.

Lemma ldiff_ones a n : 0 ≤ n → Z.ldiff a (2 ^ n - 1) = a / 2 ^ n * 2 ^ n.
Proof.
  intros Hn. replace (2 ^ n - 1) with (Z.ones n) by (rewrite Z.ones_equiv; lia).
  rewrite Z.ldiff_ones_r, Z.shiftl_mul_pow2, Z.shiftr_div_pow2 by done. done.
Qed.
Lemma land_ones' a n : 0 ≤ n → Z.land a (2 ^ n - 1) = a mod 2 ^ n.
Proof. intros Hn. replace (2 ^ n - 1) with (Z.ones n) by (rewrite Z.ones_equiv; lia). by apply Z.land_ones. Qed.

Section geometry.
Context (P : Params) (n s : Z) (G : geometry P n s).

Lemma geo_pos_blk : 0 < 2 ^ n.
Proof using G. apply Z.pow_pos_nonneg; [lia|]. pose proof (geo_n _ _ _ G). lia. Qed.
Lemma geo_pos_sets : 0 < 2 ^ s.
Proof using G. apply Z.pow_pos_nonneg; [lia|]. apply (geo_s _ _ _ G). Qed.

Lemma setShift_eq : setShift P = n.
Proof using G. unfold setShift, floorLog2. rewrite (geo_blk _ _ _ G). apply Z.log2_pow2. pose proof (geo_n _ _ _ G). lia. Qed.
Lemma tagShift_eq : tagShift P = n + s.
Proof using G. unfold tagShift, floorLog2. rewrite setShift_eq, (geo_sets _ _ _ G), Z.log2_pow2; [done|apply (geo_s _ _ _ G)]. Qed.

Lemma blkAlign_eq a : blkAlign P a = a / 2 ^ n * 2 ^ n.
Proof using G. unfold blkAlign, blkMask. rewrite (geo_blk _ _ _ G). apply ldiff_ones. pose proof (geo_n _ _ _ G). lia. Qed.

Lemma extractSet_eq a : extractSet P a = a / 2 ^ n mod 2 ^ s.
Proof using G.
  pose proof (geo_n _ _ _ G). pose proof (geo_s _ _ _ G). pose proof (geo_32 _ _ _ G).
  unfold extractSet, setMask. rewrite setShift_eq, (geo_sets _ _ _ G), land_ones', Z.shiftr_div_pow2 by lia.
  unfold u32. apply Z.mod_small. pose proof (Z.mod_pos_bound (a / 2 ^ n) (2 ^ s) geo_pos_sets).
  assert (2 ^ s ≤ 2 ^ 32) by (apply Z.pow_le_mono_r; lia). lia.
Qed.

Lemma extractTag_eq a : extractTag P a = a / 2 ^ n / 2 ^ s.
Proof using G.
  pose proof (geo_n _ _ _ G). pose proof (geo_s _ _ _ G).
  unfold extractTag. rewrite tagShift_eq, Z.shiftr_div_pow2, Z.pow_add_r by lia.
  rewrite Z.div_div; [done| |apply geo_pos_sets]. pose proof geo_pos_blk. lia.
Qed.

Lemma extractSet_bound a : 0 ≤ extractSet P a < numSets P.
Proof using G. rewrite extractSet_eq, (geo_sets _ _ _ G). apply Z.mod_pos_bound, geo_pos_sets. Qed.

(** The address is put together again from tag and set. *)
Lemma regenerateAddr_eq t set :
  0 ≤ t → t * 2 ^ (n + s) < 2 ^ 64 → 0 ≤ set < 2 ^ s → regenerateAddr P t set = (t * 2 ^ s + set) * 2 ^ n.
Proof using G.
  intros Ht Hw Hset. pose proof (geo_n _ _ _ G). pose proof (geo_s _ _ _ G). pose proof (geo_32 _ _ _ G).
  pose proof geo_pos_blk. pose proof geo_pos_sets.
  assert (set * 2 ^ n < 2 ^ (n + s)) as Hlow by (rewrite Z.pow_add_r by lia; nia).
  unfold regenerateAddr. rewrite tagShift_eq, setShift_eq, !Z.shiftl_mul_pow2 by lia.
  assert (2 ^ (n + s) ≤ 2 ^ 32) by (apply Z.pow_le_mono_r; lia).
  unfold u64, u32. rewrite !Z.mod_small by nia.
  rewrite <-Z.lxor_lor, <-Z.add_nocarry_lxor; [rewrite Z.pow_add_r by lia; ring| |].
  all: apply Z.bits_inj'; intros m Hm; rewrite Z.land_spec, Z.bits_0; destruct (decide (m < n + s)).
  all: try (rewrite Z.mul_pow2_bits_low by lia; done).
  all: rewrite (Z.bits_above_log2 (set * 2 ^ n)); [apply andb_false_r|nia|].
  all: destruct (decide (set = 0)) as [->|]; [simpl; lia|]; apply Z.log2_lt_pow2; [nia|].
  all: eapply Z.lt_le_trans; [exact Hlow|apply Z.pow_le_mono_r; lia].
Qed.

Lemma regenerate_extract a : 0 ≤ a < 2 ^ 64 → regenerateAddr P (extractTag P a) (extractSet P a) = blkAlign P a.
Proof using G.
  intros Ha. pose proof (geo_n _ _ _ G). pose proof (geo_s _ _ _ G). pose proof geo_pos_blk. pose proof geo_pos_sets.
  rewrite extractTag_eq, extractSet_eq, blkAlign_eq.
  assert (0 ≤ a / 2 ^ n) by (apply Z.div_pos; lia). assert (0 ≤ a / 2 ^ n / 2 ^ s) by (apply Z.div_pos; lia).
  rewrite regenerateAddr_eq.
  - f_equal. pose proof (Z.div_mod (a / 2 ^ n) (2 ^ s)). lia.
  - done.
  - rewrite Z.pow_add_r by lia. pose proof (Z.mul_div_le (a / 2 ^ n) (2 ^ s) ltac:(lia)).
    pose proof (Z.mul_div_le a (2 ^ n) ltac:(lia)). nia.
  - apply Z.mod_pos_bound. lia.
Qed.

(** Tag and set of a regenerated address. *)
Lemma extract_regenerate t set :
  0 ≤ t → t * 2 ^ (n + s) < 2 ^ 64 → 0 ≤ set < 2 ^ s →
  extractTag P (regenerateAddr P t set) = t ∧ extractSet P (regenerateAddr P t set) = set.
Proof using G.
  intros Ht Hw Hset. pose proof geo_pos_blk. pose proof geo_pos_sets.
  rewrite extractTag_eq, extractSet_eq, regenerateAddr_eq by done. rewrite Z.div_mul by lia.
  split.
  - rewrite Z.div_add_l by lia. rewrite (Z.div_small set) by lia. lia.
  - rewrite Z.add_comm, Z.mod_add by lia. apply Z.mod_small. lia.
Qed.

(** Addresses of a line have its tag and set. *)
Lemma extract_blkAlign a : extractTag P (blkAlign P a) = extractTag P a ∧ extractSet P (blkAlign P a) = extractSet P a.
Proof using G.
  pose proof geo_pos_blk. rewrite !extractTag_eq, !extractSet_eq, blkAlign_eq, Z.div_mul by lia. done.
Qed.
End geometry.

(** ** Well-formed tags *)

Section wf.
Context (P : Params) (n s : Z).

Record blk_wf (i : nat) (b : CacheBlk) : Prop := {
  bw_set : set_index b = Z.of_nat i / assoc P;
  bw_data : Z.of_nat (length (data b)) = blkSize P;
  bw_bits : Z.ldiff (coherence b) AllBits = 0;
  bw_tag : valid b = true → 0 ≤ tag b ∧ tag b * 2 ^ (n + s) < 2 ^ 64;
  bw_invalid : valid b = false → coherence b = 0 ∧ secure b = false ∧ lockList b = [];
}.

(** Block [i] holds the line at [a]. *)
Definition holds (blks : list CacheBlk) (a : Z) (is_secure : bool) (i : nat) (b : CacheBlk) : Prop :=
  blks !! i = Some b ∧ valid b = true ∧ secure b = is_secure ∧ regenerateBlkAddr P b = a.

Record wf (blks : list CacheBlk) : Prop := {
  wf_len : Z.of_nat (length blks) = numSets P * assoc P;
  wf_blks : ∀ i b, blks !! i = Some b → blk_wf i b;
  wf_unique : ∀ a is_secure i j b c, holds blks a is_secure i b → holds blks a is_secure j c → i = j;
}.

Context (G : geometry P n s).

(** The blocks of a set. *)
Lemma entries_set blks i b a :
  wf blks → blks !! i = Some b → i ∈ getPossibleEntries P a ↔ set_index b = extractSet P a.
Proof using G.
  intros W Hi. rewrite (bw_set _ _ (wf_blks _ W _ _ Hi)). unfold getPossibleEntries. rewrite elem_of_seq.
  pose proof (geo_assoc _ _ _ G). pose proof (extractSet_bound P n s G a) as [? _].
  split.
  - intros [H1 H2]. symmetry. apply (Z.div_unique _ _ _ (Z.of_nat i - extractSet P a * assoc P)); nia.
  - intros E. pose proof (Z.mul_div_le (Z.of_nat i) (assoc P) ltac:(lia)).
    pose proof (Z.mul_succ_div_gt (Z.of_nat i) (assoc P) ltac:(lia)). nia.
Qed.

Lemma blk_set_bound blks i b : wf blks → blks !! i = Some b → 0 ≤ set_index b < 2 ^ s.
Proof using G.
  intros W Hi. rewrite (bw_set _ _ (wf_blks _ W _ _ Hi)). pose proof (geo_assoc _ _ _ G).
  apply lookup_lt_Some in Hi. pose proof (wf_len _ W) as Hl. rewrite (geo_sets _ _ _ G) in Hl. split.
  - apply Z.div_pos; lia.
  - apply Z.div_lt_upper_bound; nia.
Qed.

(** A tag matches exactly when the block has the line. *)
Lemma match_line blks i b a is_secure :
  wf blks → 0 ≤ a < 2 ^ 64 → blks !! i = Some b →
  (matchTag (extractTag P a) is_secure b = true ∧ i ∈ getPossibleEntries P a) ↔ holds blks (blkAlign P a) is_secure i b.
Proof using G.
  intros W Ha Hi. rewrite (entries_set _ _ _ _ W Hi). unfold matchTag, holds. rewrite !andb_true_iff, Z.eqb_eq, eqb_true_iff.
  pose proof (blk_set_bound _ _ _ W Hi) as Hset. split.
  - intros [[[Hv Ht] Hs] Hset']. split_and!; try done. unfold regenerateBlkAddr. rewrite Ht, Hset'.
    by apply (regenerate_extract P n s G).
  - intros (_ & Hv & Hs & Hr). destruct (bw_tag _ _ (wf_blks _ W _ _ Hi) Hv) as [Ht0 Ht1].
    unfold regenerateBlkAddr in Hr. destruct (extract_regenerate P n s G _ _ Ht0 Ht1 Hset) as [E1 E2].
    destruct (extract_blkAlign P n s G a) as [E3 E4]. rewrite Hr in E1, E2. split_and!; congruence.
Qed.

Lemma search_spec t is_secure blks entries :
  match search t is_secure blks entries with
  | Some i => ∃ b, i ∈ entries ∧ blks !! i = Some b ∧ matchTag t is_secure b = true
  | None => ∀ i b, i ∈ entries → blks !! i = Some b → matchTag t is_secure b = false
  end.
Proof.
  induction entries as [|j entries IH]; simpl; [by intros i b ?%elem_of_nil|].
  destruct (blks !! j) as [bj|] eqn:Hj; [destruct (matchTag t is_secure bj) eqn:Hm|].
  - exists bj. split; [by left|done].
  - destruct (search t is_secure blks entries).
    + destruct IH as (b & ? & ?). exists b. split; [by right|done].
    + intros i b [->|Hin]%elem_of_cons; [congruence|by apply IH].
  - destruct (search t is_secure blks entries).
    + destruct IH as (b & ? & ?). exists b. split; [by right|done].
    + intros i b [->|Hin]%elem_of_cons; [congruence|by apply IH].
Qed.

Lemma findBlock_spec blks a is_secure :
  wf blks → 0 ≤ a < 2 ^ 64 →
  match findBlock P a is_secure blks with
  | Some i => ∃ b, holds blks (blkAlign P a) is_secure i b
  | None => ∀ i b, ¬ holds blks (blkAlign P a) is_secure i b
  end.
Proof using G.
  intros W Ha. unfold findBlock. pose proof (search_spec (extractTag P a) is_secure blks (getPossibleEntries P a)) as H.
  destruct (search _ _ _ _) as [i|].
  - destruct H as (b & Hin & Hi & Hm). exists b. by apply (match_line _ _ _ _ _ W Ha Hi).
  - intros i b Hb. pose proof Hb as (Hi & _). apply (match_line _ _ _ _ _ W Ha Hi) in Hb as [Hm Hin].
    by rewrite (H i b Hin Hi) in Hm.
Qed.

Lemma findBlock_some blks a is_secure i b :
  wf blks → 0 ≤ a < 2 ^ 64 → holds blks (blkAlign P a) is_secure i b → findBlock P a is_secure blks = Some i.
Proof using G.
  intros W Ha Hb. pose proof (findBlock_spec blks a is_secure W Ha) as H. destruct (findBlock P a is_secure blks) as [j|].
  - destruct H as (c & Hc). f_equal. by eapply (wf_unique _ W).
  - by apply H in Hb.
Qed.

(** ** Least recently used *)

Lemma lru_loop_spec blks candidates : ∀ victim,
  let v := lru_loop blks candidates victim in
  (v = victim ∨ v ∈ candidates) ∧ touched blks v ≤ touched blks victim ∧ ∀ c, c ∈ candidates → touched blks v ≤ touched blks c.
Proof.
  induction candidates as [|c cs IH]; intros victim; simpl.
  { split; [by left|]. split; [done|]. by intros c ?%elem_of_nil. }
  set (w := if touched blks c <? touched blks victim then c else victim). destruct (IH w) as (Hv & Hw & Hall).
  assert (touched blks w ≤ touched blks c ∧ touched blks w ≤ touched blks victim ∧ (w = c ∨ w = victim)) as (? & ? & ?).
  { unfold w. destruct (Z.ltb_spec (touched blks c) (touched blks victim)); (split; [lia|]; split; [lia|tauto]). }
  split; [|split; [lia|]].
  - destruct Hv as [->|]; [|right; by right]. destruct H1 as [->|]; [right; by left|by left].
  - intros d [->|Hd]%elem_of_cons; [lia|by apply Hall].
Qed.

Lemma findVictim_spec blks a :
  wf blks → ∃ v b, findVictim P a blks = Ok v ∧ blks !! v = Some b ∧ set_index b = extractSet P a ∧
    ∀ c d, blks !! c = Some d → set_index d = extractSet P a → lastTouchTick b ≤ lastTouchTick d.
Proof using G.
  intros W. unfold findVictim. set (es := getPossibleEntries P a).
  pose proof (geo_assoc _ _ _ G). pose proof (extractSet_bound P n s G a) as Hset. pose proof (wf_len _ W) as Hl.
  assert (∀ i, i ∈ es → ∃ b, blks !! i = Some b) as Hes.
  { intros i Hi. apply lookup_lt_is_Some. unfold es, getPossibleEntries in Hi. apply elem_of_seq in Hi. nia. }
  unfold getVictim. destruct es as [|c0 es'] eqn:E.
  { apply (f_equal length) in E. unfold es, getPossibleEntries in E. rewrite length_seq in E. simpl in E. lia. }
  destruct (lru_loop_spec blks (c0 :: es') c0) as (Hv & _ & Hall). rewrite <-E in *.
  set (v := lru_loop blks es c0) in *. assert (v ∈ es) as Hin by (destruct Hv as [->|]; [rewrite E; by left|done]).
  destruct (Hes v Hin) as (b & Hb). exists v, b. split; [done|]. split; [done|].
  split; [by apply (entries_set _ _ _ _ W Hb)|]. intros c d Hc Hd. apply (entries_set _ _ _ _ W Hc) in Hd.
  specialize (Hall c Hd). unfold touched in Hall. by rewrite Hb, Hc in Hall.
Qed.

(** ** Updates *)

Lemma tag_holds_insert blks i b' a is_secure j c :
  (i < length blks)%nat →
  holds (<[i := b']> blks) a is_secure j c ↔
    (j = i ∧ c = b' ∧ valid b' = true ∧ secure b' = is_secure ∧ regenerateBlkAddr P b' = a) ∨
    (j ≠ i ∧ holds blks a is_secure j c).
Proof.
  intros Hi. unfold holds. destruct (decide (j = i)) as [->|Hne].
  - rewrite list_lookup_insert_eq by done. naive_solver.
  - rewrite list_lookup_insert_ne by done. naive_solver.
Qed.

Lemma wf_insert blks i b' :
  wf blks → (i < length blks)%nat → blk_wf i b' →
  (valid b' = true → ∀ j c, holds blks (regenerateBlkAddr P b') (secure b') j c → j = i) → wf (<[i := b']> blks).
Proof.
  intros W Hi Hb Hu. split.
  - by rewrite length_insert, (wf_len _ W).
  - intros j c Hj. destruct (decide (j = i)) as [->|Hne].
    + rewrite list_lookup_insert_eq in Hj by done. by injection Hj as <-.
    + rewrite list_lookup_insert_ne in Hj by done. by apply (wf_blks _ W).
  - intros a sec j1 j2 c1 c2 H1 H2. apply tag_holds_insert in H1, H2; [|done..].
    destruct H1 as [(-> & _ & Hv & Hs & Ha)|[Hn1 H1]], H2 as [(-> & _ & Hv2 & Hs2 & Ha2)|[Hn2 H2]].
    + done.
    + subst a sec. symmetry. by apply (Hu Hv _ _ H2).
    + subst a sec. by apply (Hu Hv2 _ _ H1).
    + by eapply (wf_unique _ W).
Qed.
End wf.

Arguments wf_len {_ _ _ _}.
Arguments wf_blks {_ _ _ _}.
Arguments wf_unique {_ _ _ _}.

(** ** What operations keep *)

Section keeps.
Context (P : Params) (n s : Z) (G : geometry P n s).
Notation wf := (wf P n s).
Notation blk_wf := (blk_wf P n s).

Lemma blk_wf_touched i b t : blk_wf i b → blk_wf i (set_touched t b).
Proof. by intros []. Qed.
Lemma blk_wf_invalidate i b : blk_wf i b → blk_wf i (CacheBlk.invalidate b).
Proof. intros [? ? Hb ? ?]. split; simpl; try done; by rewrite Hb. Qed.
Lemma blk_wf_locks i b l : blk_wf i b → valid b = true → blk_wf i (set_lockList l b).
Proof. intros [? ? ? ? ?] Hv. split; simpl; try done. congruence. Qed.
Lemma blk_wf_data i b d : blk_wf i b → length d = length (data b) → blk_wf i (CacheBlk.set_data d b).
Proof. intros [? ? ? ? ?] Hd. split; simpl; try done. by rewrite Hd. Qed.
Lemma blk_wf_set i b bits : blk_wf i b → valid b = true → Z.ldiff bits AllBits = 0 → blk_wf i (set_coherence (Z.lor (coherence b) bits) b).
Proof.
  intros [? ? Hb ? ?] Hv Hbits. split; simpl; try done; [|congruence].
  apply Z.bits_inj'. intros m Hm. apply (f_equal (λ z, Z.testbit z m)) in Hb, Hbits.
  rewrite Z.ldiff_spec, Z.bits_0 in *. rewrite Z.lor_spec. by destruct (Z.testbit (coherence b) m), (Z.testbit bits m).
Qed.
Lemma blk_wf_clear i b bits : blk_wf i b → blk_wf i (clearCoherenceBits bits b).
Proof.
  intros [? ? Hb ? Hi]. split; simpl; try done.
  - apply Z.bits_inj'. intros m Hm. apply (f_equal (λ z, Z.testbit z m)) in Hb.
    rewrite Z.ldiff_spec, Z.bits_0 in *. rewrite Z.ldiff_spec. by destruct (Z.testbit (coherence b) m), (Z.testbit bits m).
  - intros Hv. destruct (Hi Hv) as (-> & ? & ?). by rewrite Z.ldiff_0_l.
Qed.

(** A block of the set takes the tag of an address. *)
Lemma blk_wf_tagged i b a is_secure b' :
  blk_wf i b → 0 ≤ a < 2 ^ 64 → CacheBlk.insert (extractTag P a) is_secure b = Ok b' → blk_wf i b'.
Proof using G.
  intros [? ? ? ? Hi] Ha. unfold CacheBlk.insert. destruct (valid b) eqn:Hv; [done|]. intros [= <-].
  pose proof (geo_n _ _ _ G). pose proof (geo_s _ _ _ G). pose proof (geo_pos_blk P n s G). pose proof (geo_pos_sets P n s G).
  split; simpl; try done. intros _. rewrite (extractTag_eq P n s G), Z.div_div, <-Z.pow_add_r by lia. split; [apply Z.div_pos; lia|].
  rewrite Z.mul_comm. pose proof (Z.mul_div_le a (2 ^ (n + s)) ltac:(apply Z.pow_pos_nonneg; lia)). lia.
Qed.

(** An update that keeps the tag of a block. *)
Lemma wf_same blks i b b' :
  wf blks → blks !! i = Some b → blk_wf i b' → tag b' = tag b → (valid b' = true → valid b = true ∧ secure b' = secure b) →
  wf (<[i := b']> blks).
Proof.
  intros W Hi Hb Ht Hv. apply wf_insert; [done|by eapply lookup_lt_Some|done|].
  intros Hv' j c Hc. destruct (Hv Hv') as [Hvb Hs]. eapply (wf_unique W); [exact Hc|].
  split; [exact Hi|]. split; [done|]. split; [done|]. unfold regenerateBlkAddr.
  by rewrite Ht, (bw_set _ _ _ _ _ Hb), (bw_set _ _ _ _ _ (wf_blks W _ _ Hi)).
Qed.

Lemma alter_insert (f : CacheBlk → CacheBlk) (blks : list CacheBlk) j b : blks !! j = Some b → alter f j blks = <[j := f b]> blks.
Proof.
  intros Hj. apply list_eq. intros m. destruct (decide (m = j)) as [->|Hm].
  - rewrite list_lookup_alter_eq, Hj, list_lookup_insert_eq by (by eapply lookup_lt_Some). done.
  - by rewrite list_lookup_alter_ne, list_lookup_insert_ne.
Qed.

Lemma wf_touch blks now a is_secure i blks' :
  wf blks → accessBlock P now a is_secure blks = (i, blks') → wf blks'.
Proof.
  intros W. unfold accessBlock. destruct (findBlock P a is_secure blks) as [j|]; intros [= <- <-]; [|done].
  destruct (blks !! j) as [b|] eqn:Hj.
  - rewrite (alter_insert _ _ _ _ Hj). eapply wf_same; [done..| |done|done]. apply blk_wf_touched. by apply (wf_blks W).
  - assert (alter (set_touched now) j blks = blks) as ->; [|done]. apply list_eq. intros m. destruct (decide (m = j)) as [->|Hm].
    + by rewrite list_lookup_alter_eq, Hj.
    + by rewrite list_lookup_alter_ne.
Qed.

Lemma wf_invalidate blks i blks' : wf blks → Tags.invalidate i blks = Ok blks' → wf blks'.
Proof.
  intros W. unfold Tags.invalidate. destruct (blks !! i) as [b|] eqn:Hi; cbn [of_option mbind res_bind]; [|done].
  destruct (valid b); cbn [negb]; [|done]. intros [= <-].
  apply wf_insert; [done|by eapply lookup_lt_Some| |done]. apply blk_wf_touched, blk_wf_invalidate. by apply (wf_blks W).
Qed.

Lemma wf_inserted blks now a is_secure i b blks' :
  wf blks → 0 ≤ a < 2 ^ 64 → findBlock P a is_secure blks = None → blks !! i = Some b → set_index b = extractSet P a →
  insertBlock P now a is_secure i blks = Ok blks' →
  wf blks' ∧ ∃ b', blks' = <[i := b']> blks ∧ valid b' = true ∧ secure b' = is_secure ∧ regenerateBlkAddr P b' = blkAlign P a ∧
    coherence b' = 0 ∧ data b' = data b ∧ lockList b' = [].
Proof using G.
  intros W Ha Hnone Hi Hset. unfold insertBlock. rewrite Hi. cbn [of_option mbind res_bind].
  destruct (CacheBlk.insert (extractTag P a) is_secure b) as [b1|] eqn:Hins; [|done]. intros [= <-].
  pose proof (blk_wf_tagged _ _ _ _ _ (wf_blks W _ _ Hi) Ha Hins) as Hb1. unfold CacheBlk.insert in Hins.
  destruct (valid b) eqn:Hv; [done|]. destruct (bw_invalid _ _ _ _ _ (wf_blks W _ _ Hi) Hv) as (Hc & Hs & Hl).
  injection Hins as <-. rewrite Hs in *. assert ((if is_secure then true else false) = is_secure) as E by (by destruct is_secure).
  rewrite E in *. assert (regenerateBlkAddr P (set_touched now (mkBlk true is_secure (extractTag P a) (coherence b) (data b)
    (lockList b) (lastTouchTick b) (set_index b))) = blkAlign P a) as Hr.
  { unfold regenerateBlkAddr. simpl. rewrite Hset. by apply (regenerate_extract P n s G). }
  split.
  - apply wf_insert; [done|by eapply lookup_lt_Some|by apply blk_wf_touched|]. intros _ j c Hj. rewrite Hr in Hj. simpl in Hj.
    pose proof (findBlock_spec P n s G blks a is_secure W Ha) as H. rewrite Hnone in H. by apply H in Hj.
  - eexists. split; [done|]. by rewrite Hr.
Qed.
End keeps.

(** ** Theorems *)

(** What a cache does to its tags: it touches a block that it finds, drops a
    block, and puts a line it does not have in the place of a victim, which is
    dropped before. *)
Inductive tag_step (P : Params) (blks : list CacheBlk) : list CacheBlk → Prop :=
  | tag_access now a is_secure i blks' :
      accessBlock P now a is_secure blks = (i, blks') → tag_step P blks blks'
  | tag_invalidate i blks' : Tags.invalidate i blks = Ok blks' → tag_step P blks blks'
  | tag_insert now a is_secure v b blks' :
      0 ≤ a < 2 ^ 64 → findBlock P a is_secure blks = None → findVictim P a blks = Ok v →
      blks !! v = Some b → valid b = false → insertBlock P now a is_secure v blks = Ok blks' → tag_step P blks blks'.

Lemma tag_step_wf P n s blks blks' : geometry P n s → wf P n s blks → tag_step P blks blks' → wf P n s blks'.
Proof.
  intros G W [now a sec i b' H|i b' H|now a sec v b b' Ha Hn Hv Hb _ H].
  - by eapply wf_touch.
  - by eapply wf_invalidate.
  - destruct (findVictim_spec P n s G blks a W) as (v' & c & Hv' & Hc & Hset & _).
    assert (v' = v) as -> by congruence. assert (c = b) as -> by congruence.
    by eapply wf_inserted in H as [? _].
Qed.

Lemma isPowerOf2_pow n : 0 ≤ n → isPowerOf2 (2 ^ n) = true.
Proof.
  intros Hn. assert (0 < 2 ^ n) by (apply Z.pow_pos_nonneg; lia). unfold isPowerOf2.
  rewrite land_ones', Z.mod_same, (proj2 (Z.ltb_lt _ _)) by lia. done.
Qed.

Lemma init_blks_ok P n s m i :
  geometry P n s → Z.of_nat m + i ≤ numSets P * assoc P → 0 ≤ i →
  ∃ bs, init_blks P m i = Ok bs ∧ length bs = m ∧
    ∀ j b, bs !! j = Some b → valid b = false ∧ blk_wf P n s (Z.to_nat i + j) b.
Proof.
  intros G. revert i. induction m as [|m IH]; intros i Hm Hi; [by exists []|]. cbn [init_blks].
  pose proof (geo_assoc _ _ _ G). pose proof (geo_s _ _ _ G). pose proof (geo_n _ _ _ G). pose proof (geo_pos_blk P n s G).
  assert (0 ≤ i / assoc P < numSets P) as Hset by (split; [apply Z.div_pos; lia|apply Z.div_lt_upper_bound; nia]).
  assert (u32 (Z.quot i (assoc P)) = i / assoc P) as E.
  { rewrite Z.quot_div_nonneg by lia. apply Z.mod_small. split; [lia|]. rewrite (geo_sets _ _ _ G) in Hset.
    assert (2 ^ s ≤ 2 ^ 32) by (apply Z.pow_le_mono_r; pose proof (geo_32 _ _ _ G); lia). lia. }
  unfold init_blk. rewrite E, (proj2 (Z.ltb_lt _ _)) by lia. cbn [negb mbind res_bind].
  destruct (IH (i + 1)) as (bs & Hbs & Hl & Hall); [lia..|]. rewrite Hbs. cbn [mbind res_bind].
  eexists. split; [done|]. split; [by rewrite <-Hl|]. intros [|j] b Hj; simpl in Hj.
  - injection Hj as <-. split; [done|]. split; simpl; try done.
    + f_equal. lia.
    + rewrite length_replicate, (geo_blk _ _ _ G). lia.
  - replace (Z.to_nat i + S j)%nat with (Z.to_nat (i + 1) + j)%nat by lia. by apply Hall.
Qed.

(** Fresh tags are well-formed and empty. *)
Lemma tagsInit_ok P n s :
  geometry P n s → size P = numSets P * assoc P * blkSize P →
  ∃ blks, tagsInit P = Ok blks ∧ wf P n s blks ∧ ∀ i b, blks !! i = Some b → valid b = false.
Proof.
  intros G Hsize. pose proof (geo_assoc _ _ _ G). pose proof (geo_n _ _ _ G). pose proof (geo_s _ _ _ G).
  pose proof (geo_pos_blk P n s G). pose proof (geo_pos_sets P n s G). pose proof (geo_blk _ _ _ G) as Hblk.
  assert (check_params P = Ok tt) as Hc.
  { unfold check_params. rewrite (proj2 (Z.eqb_neq _ _)) by nia.
    assert (4 ≤ 2 ^ n) by (change 4 with (2 ^ 2); apply Z.pow_le_mono_r; lia).
    rewrite (proj2 (Z.ltb_ge _ _)) by lia. rewrite Hblk, isPowerOf2_pow by lia. rewrite (geo_sets _ _ _ G), isPowerOf2_pow by lia.
    cbn [negb orb]. by rewrite (proj2 (Z.leb_gt _ _)) by lia. }
  assert (numBlocks P = numSets P * assoc P) as Hn by (unfold numBlocks; rewrite Hsize, Z.div_mul; lia).
  assert (0 ≤ numSets P * assoc P) by (rewrite (geo_sets _ _ _ G); nia).
  unfold tagsInit. rewrite Hc, Hn. cbn [mbind res_bind].
  destruct (init_blks_ok P n s (Z.to_nat (numSets P * assoc P)) 0 G) as (bs & Hbs & Hl & Hall); [lia..|].
  exists bs. split; [done|]. split; [|intros i b Hi; by apply (Hall i)]. split.
  - lia.
  - intros i b Hi. by apply (Hall i).
  - intros a sec i j b c (Hi & Hv & _). by rewrite (proj1 (Hall i b Hi)) in Hv.
Qed.

(** C31. The tags are exact.  In every state that a cache can bring its tags to, a
    lookup finds a block if and only if that block is valid, in the same memory
    space, and the address put together from its tag and its set is the line of
    the address looked up; so no line is ever in two blocks, and no block answers
    for another line. *)
Theorem findBlock_exact P n s blks0 blks a is_secure i :
  geometry P n s → size P = numSets P * assoc P * blkSize P → tagsInit P = Ok blks0 →
  rtc (tag_step P) blks0 blks → 0 ≤ a < 2 ^ 64 →
  findBlock P a is_secure blks = Some i ↔
    ∃ b, blks !! i = Some b ∧ valid b = true ∧ secure b = is_secure ∧ regenerateBlkAddr P b = blkAlign P a.
Proof.
  intros G Hs H0 Hr Ha. assert (wf P n s blks) as W.
  { destruct (tagsInit_ok P n s G Hs) as (bs & Hbs & W & _). assert (bs = blks0) as -> by congruence.
    clear -G W Hr. induction Hr as [|x y z Hxy _ IH]; [done|]. apply IH. by eapply tag_step_wf. }
  split.
  - intros Hf. pose proof (findBlock_spec P n s G blks a is_secure W Ha) as H. by rewrite Hf in H.
  - intros (b & Hb). by eapply findBlock_some.
Qed.

(** C32. The victim is the least recently used block.  In well-formed tags a victim
    is always found; it is a way of the set of the address, no way of that set was
    touched earlier, and a block that was dropped is preferred to every block that
    was touched after tick 0. *)
Theorem victim_least_recent P n s blks a :
  geometry P n s → wf P n s blks →
  ∃ v b, findVictim P a blks = Ok v ∧ blks !! v = Some b ∧ set_index b = extractSet P a ∧
    (∀ c d, blks !! c = Some d → set_index d = extractSet P a → lastTouchTick b ≤ lastTouchTick d) ∧
    (∀ c d, blks !! c = Some d → set_index d = extractSet P a → lastTouchTick d = 0 → 0 < lastTouchTick b → False).
Proof.
  intros G W. destruct (findVictim_spec P n s G blks a W) as (v & b & ? & ? & ? & Hle). exists v, b. split_and!; [done..|].
  intros c d Hc Hd Ht Hb. specialize (Hle c d Hc Hd). lia.
Qed.

(** ** Examples *)

(** Two sets of two ways, lines of 8 bytes; two lines of the same set. *)
Definition example_tags : Params := mkParams 8 32 2.
Definition tags_0 : list CacheBlk := match tagsInit example_tags with Ok b => b | Err _ => [] end.
Definition tags_insert (now a : Z) (blks : list CacheBlk) : list CacheBlk :=
  match findVictim example_tags a blks with
  | Ok v => match insertBlock example_tags now a false v blks with Ok b => b | Err _ => [] end
  | Err _ => []
  end.
Definition tags_2 : list CacheBlk := tags_insert 20 48 (tags_insert 10 16 tags_0).

Lemma example_geometry : geometry example_tags 3 1.
Proof. split; try reflexivity; simpl; lia. Qed.

Lemma example_inserts now a blks v b blks' :
  0 ≤ a < 2 ^ 64 → findBlock example_tags a false blks = None → findVictim example_tags a blks = Ok v → blks !! v = Some b →
  valid b = false → insertBlock example_tags now a false v blks = Ok blks' → tag_step example_tags blks (tags_insert now a blks).
Proof. intros ? ? Hv ? ? Hi. unfold tags_insert. rewrite Hv, Hi. by eapply tag_insert. Qed.

Lemma tags_2_reachable : rtc (tag_step example_tags) tags_0 tags_2.
Proof.
  eapply rtc_l; [eapply (example_inserts 10 16)|eapply rtc_once, (example_inserts 20 48)].
  all: first [lia|vm_compute; reflexivity].
Qed.

Lemma findBlock_exact_witness :
  findBlock example_tags 50 false tags_2 = Some 1%nat ∧
  ∃ b, tags_2 !! 1%nat = Some b ∧ valid b = true ∧ secure b = false ∧ regenerateBlkAddr example_tags b = 48.
Proof.
  assert (findBlock example_tags 50 false tags_2 = Some 1%nat) as H by (vm_compute; reflexivity).
  split; [exact H|].
  apply (findBlock_exact example_tags 3 1 tags_0 tags_2 50 false 1 example_geometry) in H; [exact H|reflexivity..| |lia].
  exact tags_2_reachable.
Defined.

Lemma victim_least_recent_witness : ∃ v b,
  findVictim example_tags 80 tags_2 = Ok v ∧ tags_2 !! v = Some b ∧ set_index b = 0 ∧ lastTouchTick b = 10.
Proof.
  assert (wf example_tags 3 1 tags_2) as W.
  { destruct (tagsInit_ok example_tags 3 1 example_geometry eq_refl) as (bs & Hbs & W & _).
    assert (bs = tags_0) as -> by (unfold tags_0; rewrite Hbs; reflexivity).
    pose proof tags_2_reachable as Hr. clear Hbs. induction Hr as [|x y z Hxy _ IH]; [exact W|]. apply IH.
    exact (tag_step_wf _ _ _ _ _ example_geometry W Hxy). }
  destruct (victim_least_recent example_tags 3 1 tags_2 80 example_geometry W) as (v & b & Hv & Hb & Hs & _).
  exists v, b. split; [exact Hv|]. split; [exact Hb|]. split; [exact Hs|].
  assert (v = 0%nat) as -> by (vm_compute in Hv; injection Hv; auto).
  vm_compute in Hb. injection Hb as <-. reflexivity.
Defined.
