(* ===== verification/Cache.v ===== *)
(** * A coherent cache in atomic mode

    The atomic path of [mem/cache/base.cc] and [mem/cache/cache.cc]: what happens
    to a request from above ([recvAtomic]) and to a snoop from below
    ([recvAtomicSnoop]), the hits, misses, fills, evictions and writebacks
    included.  In atomic mode no miss and no writeback is outstanding, so the
    searches of the miss queue and of the write buffer find nothing and are left
    out; there is no compressor, no write allocator, and the prefetcher is not
    called.  Latencies and statistics are left out.

    A cache is a part of a larger state, in which the ports are answered: [self]
    runs an operation of the cache in it, [sendAtomic] and [sendAtomicSnoop] are
    the peers below and above. *)
From stdpp Require Import base tactics list strings.
From Stdlib Require Import ZArith Lia.
From S2P Require Import Prelude MemCmd AddrRange CachePkt CacheBlk CacheTags.
Import CachePkt.
Local Open Scope Z_scope.

Module Cache.

(** ** Data *)

Inductive Clusivity := mostly_incl | mostly_excl.

#[export] Instance Clusivity_eq_dec : EqDecision Clusivity.
Proof. solve_decision. Defined.

Record Params := mkParams {
  tp : Tags.Params;
  isReadOnly : bool;
  writebackClean : bool;
  clusivity : Clusivity;
  forwardSnoops : bool;
  addrRanges : list AddrRange.AddrRange;
}.

(** [tempAddr] is the address [TempCacheBlk] keeps; the last field says whether
    [writebackTempBlockAtomicEvent] is scheduled. *)
Record Cache := mkCache {
  blks : list CacheBlk.CacheBlk;
  tempBlock : CacheBlk.CacheBlk;
  tempAddr : Z;
  tempBlockWriteback : option Pkt;
  tempEvent : bool;
}.

Definition set_blks (b : list CacheBlk.CacheBlk) (c : Cache) : Cache :=
  mkCache b (tempBlock c) (tempAddr c) (tempBlockWriteback c) (tempEvent c).
Definition set_temp (b : CacheBlk.CacheBlk) (a : Z) (c : Cache) : Cache :=
  mkCache (blks c) b a (tempBlockWriteback c) (tempEvent c).
Definition set_tempWriteback (k : option Pkt) (e : bool) (c : Cache) : Cache :=
  mkCache (blks c) (tempBlock c) (tempAddr c) k e.

(** The constructor.  Fresh arrays and the address of the temporary block are
    indeterminate; here they are 0. *)
Definition new_cache (P : Params) : res Cache :=
  bs ← Tags.tagsInit (tp P);
  Ok (mkCache bs (CacheBlk.mkBlk false false CacheBlk.MaxAddr 0 (replicate (Z.to_nat (Tags.blkSize (tp P))) 0) [] 0 0) 0 None false).

(** A pointer to a block. *)
Inductive BlkPtr := InTags (i : nat) | Temp.

#[export] Instance BlkPtr_eq_dec : EqDecision BlkPtr.
Proof. solve_decision. Defined.

Section cache.
Context (P : Params) (now : Z).
Notation blkSize := (Tags.blkSize (tp P)).

(** ** Blocks *)

Definition get_blk (p : BlkPtr) : M Cache CacheBlk.CacheBlk := λ c,
  match p with
  | InTags i => b ← of_option EBadPointer (blks c !! i); Ok (b, c)
  | Temp => Ok (tempBlock c, c)
  end.
Definition put_blk (p : BlkPtr) (b : CacheBlk.CacheBlk) : M Cache unit := λ c,
  match p with
  | InTags i => Ok (tt, set_blks (<[i := b]> (blks c)) c)
  | Temp => Ok (tt, set_temp b (tempAddr c) c)
  end.
Definition upd_blk (p : BlkPtr) (f : CacheBlk.CacheBlk → res CacheBlk.CacheBlk) : M Cache unit :=
  b ← get_blk p; b' ← lift (f b); put_blk p b'.

Definition on_blks {A} (f : list CacheBlk.CacheBlk → res (A * list CacheBlk.CacheBlk)) : M Cache A := λ c,
  match f (blks c) with Ok (a, b) => Ok (a, set_blks b c) | Err e => Err e end.

Definition regenerateBlkAddr (p : BlkPtr) : M Cache Z :=
  b ← get_blk p;
  c ← gets (λ c, c);
  mret (match p with InTags _ => Tags.regenerateBlkAddr (tp P) b | Temp => tempAddr c end).

(** [!cpkt] is [None]. *)
Definition updateBlockData (p : BlkPtr) (cpkt : option Pkt) : M Cache unit :=
  match cpkt with
  | Some k => upd_blk p (λ b, d ← writeDataToBlock k (CacheBlk.data b) blkSize; Ok (CacheBlk.set_data d b))
  | None => mret tt
  end.

Definition invalidateBlock (p : BlkPtr) : M Cache unit :=
  updateBlockData p None ;;
  match p with
  | InTags i => on_blks (λ bs, bs ← Tags.invalidate i bs; Ok (tt, bs))
  | Temp => modify (λ c, set_temp (CacheBlk.invalidate (tempBlock c)) CacheBlk.MaxAddr c)
  end.

Definition maintainClusivity (from_cache : bool) (blk : option BlkPtr) : M Cache unit :=
  match blk with
  | Some p =>
      b ← get_blk p;
      when (from_cache && CacheBlk.valid b && negb (CacheBlk.isSet CacheBlk.DirtyBit b) && bool_decide (clusivity P = mostly_excl))
        (invalidateBlock p)
  | None => mret tt
  end.

(** ** Writebacks *)

(** A request of the cache for the line of a block. *)
Definition block_request (a : Z) (b : CacheBlk.CacheBlk) (poc pou : bool) : Request :=
  mkReq a blkSize (CacheBlk.secure b) InvalidContextID false false false poc pou false [] None false.

(** Whether the line is passed on as writable; the block keeps a clean copy it
    may not write. *)
Definition pass_block (p : BlkPtr) (k : Pkt) : M Cache Pkt :=
  b ← get_blk p;
  let k := if CacheBlk.isSet CacheBlk.WritableBit b then k else setHasSharers k in
  let b := if CacheBlk.isSet CacheBlk.WritableBit b then CacheBlk.clearCoherenceBits CacheBlk.WritableBit b else b in
  put_blk p (CacheBlk.clearCoherenceBits CacheBlk.DirtyBit b) ;;
  k ← lift (allocate k);
  lift (setDataFromBlock k (CacheBlk.data b) blkSize).

Definition writebackBlk (p : BlkPtr) : M Cache Pkt :=
  massert "Writeback from read-only cache" (negb (isReadOnly P) || writebackClean P) ;;
  b ← get_blk p;
  massert "blk && blk->isValid() && ..." (CacheBlk.valid b && (CacheBlk.isSet CacheBlk.DirtyBit b || writebackClean P)) ;;
  a ← regenerateBlkAddr p;
  pass_block p (CachePkt.new (block_request a b false false)
                  (if CacheBlk.isSet CacheBlk.DirtyBit b then WritebackDirty else WritebackClean) 0).

Definition writecleanBlk (p : BlkPtr) (poc pou : bool) (ident : Z) : M Cache Pkt :=
  b ← get_blk p;
  a ← regenerateBlkAddr p;
  k ← lift (if poc || pou then setWriteThrough (new_block (block_request a b poc pou) WriteClean blkSize ident)
            else Ok (new_block (block_request a b false false) WriteClean blkSize ident));
  pass_block p k.

Definition cleanEvictBlk (p : BlkPtr) : M Cache Pkt :=
  massert "!writebackClean" (negb (writebackClean P)) ;;
  b ← get_blk p;
  massert "blk && blk->isValid() && !dirty" (CacheBlk.valid b && negb (CacheBlk.isSet CacheBlk.DirtyBit b)) ;;
  a ← regenerateBlkAddr p;
  lift (allocate (CachePkt.new (block_request a b false false) CleanEvict 0)).

Definition evictBlock (p : BlkPtr) : M Cache Pkt :=
  b ← get_blk p;
  k ← (if CacheBlk.isSet CacheBlk.DirtyBit b || writebackClean P then writebackBlk p else cleanEvictBlk p);
  invalidateBlock p ;;
  mret k.

(** ** Allocation *)

(** The packets are the ones appended to [writebacks]. *)
Fixpoint handleEvictions (evict_blks : list nat) : M Cache (list Pkt) :=
  match evict_blks with
  | [] => mret []
  | i :: evict_blks =>
      b ← get_blk (InTags i);
      wb ← (if CacheBlk.valid b then k ← evictBlock (InTags i); mret [k] else mret []);
      wbs ← handleEvictions evict_blks;
      mret (wb ++ wbs)
  end.

Definition allocateBlock (k : Pkt) : M Cache (BlkPtr * list Pkt) :=
  c ← gets (λ c, c);
  victim ← lift (Tags.findVictim (tp P) (addr k) (blks c));
  wbs ← handleEvictions [victim];
  on_blks (λ bs, bs ← Tags.insertBlock (tp P) now (addr k) (isSecure k) victim bs; Ok (tt, bs)) ;;
  mret (InTags victim, wbs).

Definition allocOnFill (c : Command) : bool :=
  bool_decide (clusivity P = mostly_incl) || bool_decide (c = WriteLineReq) || bool_decide (c = ReadReq) ||
  bool_decide (c = WriteReq) || isPrefetch c || isLLSC c.

(** [tempBlock->insert(addr, is_secure)] *)
Definition insertTemp (a : Z) (is_secure : bool) : M Cache unit :=
  c ← gets (λ c, c);
  b ← lift (CacheBlk.insert a is_secure (tempBlock c));
  modify (set_temp b a).

(** The new state of a line that arrives, see [Packet::setCacheResponding]. *)
Definition fill_state (k : Pkt) (b : CacheBlk.CacheBlk) : res CacheBlk.CacheBlk :=
  b ← CacheBlk.setCoherenceBits CacheBlk.ReadableBit b;
  if bool_decide (cmd k = InvalidateResp) && hasSharers k then Err (EAssert "!pkt->hasSharers()") else
  if hasSharers k then Ok b else
  b ← CacheBlk.setCoherenceBits CacheBlk.WritableBit b;
  if cacheResponding k then
    b ← CacheBlk.setCoherenceBits CacheBlk.DirtyBit b;
    if isReadOnly P then Err (EAssert "Should never see dirty snoop response") else Ok b
  else Ok b.

Definition handleFill (k : Pkt) (blk : option BlkPtr) (allocate : bool) : M Cache (BlkPtr * list Pkt) :=
  massert "pkt->isResponse()" (isResponse (cmd k)) ;;
  massert "addr == pkt->getBlockAddr(blkSize)" (addr k =? getBlockAddr k blkSize) ;;
  r ← match blk with
      | Some p => mret (p, [])
      | None =>
          massert "pkt->hasData() || pkt->cmd == MemCmd::InvalidateResp" (hasData (cmd k) || bool_decide (cmd k = InvalidateResp)) ;;
          if allocate then allocateBlock k else insertTemp (addr k) (isSecure k) ;; mret (Temp, [])
      end;
  let '(p, wbs) := r in
  b ← get_blk p;
  a ← regenerateBlkAddr p;
  massert "blk->isValid()" (CacheBlk.valid b) ;;
  massert "blk->isSecure() == is_secure" (Bool.eqb (CacheBlk.secure b) (isSecure k)) ;;
  massert "regenerateBlkAddr(blk) == addr" (a =? addr k) ;;
  upd_blk p (fill_state k) ;;
  when (isRead (cmd k))
    (massert "pkt->hasData()" (hasData (cmd k)) ;;
     massert "pkt->getSize() == blkSize" (size k =? blkSize) ;;
     updateBlockData p (Some k)) ;;
  mret (p, wbs).

(** ** Requests that hit *)

(** The bytes of an integer in memory. *)
Fixpoint le_bytes (n : nat) (v : Z) : list Z :=
  match n with O => [] | S n => v mod 256 :: le_bytes n (v / 256) end.

Definition cmpAndSwap (p : BlkPtr) (k : Pkt) : M Cache Pkt :=
  massert "pkt->isRequest()" (isRequest (cmd k)) ;;
  b ← get_blk p;
  let offset := getOffset k blkSize in
  massert "sizeof(uint64_t) >= pkt->getSize()" (size k <=? 8) ;;
  overwrite_val ← lift (d ← getConstPtr k; copy_out d 0 (size k));
  k ← lift (setData k (CacheBlk.data b) offset);
  old ← lift (getConstPtr k);
  overwrite_mem ← (if condSwap (req k) then
                     if size k =? 8 then mret (bool_decide (old = le_bytes 8 (extraData k)))
                     else if size k =? 4 then mret (bool_decide (old = le_bytes 4 (extraData k)))
                     else throw (EPanic "Invalid size for conditional read/write")
                   else mret true);
  when (overwrite_mem : bool)
    (upd_blk p (λ b, d ← copy_in (CacheBlk.data b) offset overwrite_val;
                     CacheBlk.setCoherenceBits CacheBlk.DirtyBit (CacheBlk.set_data d b))) ;;
  mret k.

(** [BaseCache::satisfyRequest] *)
Definition satisfyRequest_base (k : Pkt) (p : BlkPtr) : M Cache Pkt :=
  massert "pkt->isRequest()" (isRequest (cmd k)) ;;
  b ← get_blk p;
  massert "blk && blk->isValid()" (CacheBlk.valid b) ;;
  massert "pkt->getOffset(blkSize) + pkt->getSize() <= blkSize" (getOffset k blkSize + size k <=? blkSize) ;;
  if bool_decide (cmd k = SwapReq) then
    match atomicOp (req k) with
    | Some op =>
        let offset := Tags.extractBlkOffset (tp P) (addr k) in
        k ← lift (setData k (CacheBlk.data b) offset);
        old ← lift (getConstPtr k);
        upd_blk p (λ b, d ← copy_in (CacheBlk.data b) offset (op old);
                        CacheBlk.setCoherenceBits CacheBlk.DirtyBit (CacheBlk.set_data d b)) ;;
        mret k
    | None => cmpAndSwap p k
    end
  else if isWrite (cmd k) then
    massert "blk->isSet(CacheBlk::WritableBit)" (CacheBlk.isSet CacheBlk.WritableBit b) ;;
    r ← lift (CacheBlk.checkWrite k b);
    let '(ok, k, b) := r in
    put_blk p b ;;
    when (ok : bool) (updateBlockData p (Some k)) ;;
    upd_blk p (CacheBlk.setCoherenceBits CacheBlk.DirtyBit) ;;
    mret k
  else if isRead (cmd k) then
    when (isLLSC (cmd k)) (upd_blk p (CacheBlk.trackLoadLocked k)) ;;
    massert "pkt->hasRespData()" (hasRespData k) ;;
    lift (setDataFromBlock k (CacheBlk.data b) blkSize)
  else if isUpgrade (cmd k) then
    massert "!pkt->hasSharers()" (negb (hasSharers k)) ;;
    if CacheBlk.isSet CacheBlk.DirtyBit b then
      k ← lift (setCacheResponding k);
      put_blk p (CacheBlk.clearCoherenceBits CacheBlk.DirtyBit b) ;;
      mret k
    else mret k
  else if isClean (cmd k) then
    put_blk p (CacheBlk.clearCoherenceBits CacheBlk.DirtyBit b) ;;
    mret k
  else
    massert "pkt->isInvalidate()" (isInvalidate (cmd k)) ;;
    invalidateBlock p ;;
    mret k.

(** [Cache::satisfyRequest] *)
Definition satisfyRequest (k : Pkt) (p : BlkPtr) (deferred_response pending_downgrade : bool) : M Cache Pkt :=
  k ← satisfyRequest_base k p;
  if isRead (cmd k) && fromCache (cmd k) then
    massert "pkt->getSize() == blkSize" (size k =? blkSize) ;;
    b ← get_blk p;
    if needsWritable (cmd k) then
      massert "ReadExReq or SCUpgradeFailReq" (bool_decide (cmd k = ReadExReq) || bool_decide (cmd k = SCUpgradeFailReq)) ;;
      massert "!pkt->hasSharers()" (negb (hasSharers k)) ;;
      if CacheBlk.isSet CacheBlk.DirtyBit b then
        k ← lift (setCacheResponding k);
        put_blk p (CacheBlk.clearCoherenceBits CacheBlk.DirtyBit b) ;;
        mret k
      else mret k
    else if CacheBlk.isSet CacheBlk.WritableBit b && negb pending_downgrade && negb (hasSharers k) &&
            negb (bool_decide (cmd k = ReadCleanReq)) then
      if CacheBlk.isSet CacheBlk.DirtyBit b then
        if negb deferred_response then
          k ← lift (setCacheResponding k);
          put_blk p (CacheBlk.clearCoherenceBits CacheBlk.DirtyBit b) ;;
          mret k
        else mret (setHasSharers k)
      else mret k
    else mret (setHasSharers k)
  else mret k.

(** ** Accesses from above *)

(** Whether the access was satisfied, the packet, the block, and the packets
    appended to [writebacks]. *)
Definition Access : Type := bool * Pkt * option BlkPtr * list Pkt.

Definition accessBlock (k : Pkt) : M Cache (option BlkPtr) :=
  i ← on_blks (λ bs, Ok (Tags.accessBlock (tp P) now (addr k) (isSecure k) bs));
  mret (InTags <$> i).

(** The block a writeback is written to: the one found or a new one. *)
Definition writeback_block (k : Pkt) (blk : option BlkPtr) : M Cache (BlkPtr * list Pkt) :=
  match blk with
  | Some p => mret (p, [])
  | None =>
      r ← allocateBlock k;
      upd_blk r.1 (CacheBlk.setCoherenceBits CacheBlk.ReadableBit) ;;
      mret r
  end.

Definition access_writeback (k : Pkt) (blk : option BlkPtr) : M Cache Access :=
  massert "blkSize == pkt->getSize()" (blkSize =? size k) ;;
  r ← writeback_block k blk;
  let '(p, wbs) := r in
  when (bool_decide (cmd k = WritebackDirty)) (upd_blk p (CacheBlk.setCoherenceBits CacheBlk.DirtyBit)) ;;
  when (negb (hasSharers k)) (upd_blk p (CacheBlk.setCoherenceBits CacheBlk.WritableBit)) ;;
  massert "!pkt->needsResponse()" (negb (needsResponse (cmd k))) ;;
  updateBlockData p (Some k) ;;
  mret (true, k, Some p, wbs).

Definition access_writeclean (k : Pkt) (blk : option BlkPtr) : M Cache Access :=
  massert "blkSize == pkt->getSize()" (blkSize =? size k) ;;
  match blk with
  | None =>
      if writeThrough k then mret (false, k, None, []) else
      r ← writeback_block k blk;
      let '(p, wbs) := r in
      upd_blk p (CacheBlk.setCoherenceBits CacheBlk.DirtyBit) ;;
      massert "!pkt->needsResponse()" (negb (needsResponse (cmd k))) ;;
      updateBlockData p (Some k) ;;
      mret (true, k, Some p, wbs)
  | Some p =>
      when (negb (writeThrough k)) (upd_blk p (CacheBlk.setCoherenceBits CacheBlk.DirtyBit)) ;;
      massert "!pkt->needsResponse()" (negb (needsResponse (cmd k))) ;;
      updateBlockData p (Some k) ;;
      mret (negb (writeThrough k), k, Some p, [])
  end.

(** The state of the block a request found. *)
Definition peek (blk : option BlkPtr) : M Cache (option CacheBlk.CacheBlk) :=
  match blk with Some p => b ← get_blk p; mret (Some b) | None => mret None end.

(** [BaseCache::access] *)
Definition access_base (k : Pkt) : M Cache Access :=
  massert "pkt->isRequest()" (isRequest (cmd k)) ;;
  massert "Should never see a write in a read-only cache" (negb (isReadOnly P && isWrite (cmd k))) ;;
  blk ← accessBlock k;
  if maintenance (req k) then mret (false, k, blk, [])
  else if isWriteback (cmd k) then access_writeback k blk
  else if bool_decide (cmd k = CleanEvict) then mret (bool_decide (is_Some blk), k, blk, [])
  else if bool_decide (cmd k = WriteClean) then access_writeclean k blk
  else
    b ← peek blk;
    match blk, b with
    | Some p, Some b =>
        if (if needsWritable (cmd k) then CacheBlk.isSet CacheBlk.WritableBit b else CacheBlk.isSet CacheBlk.ReadableBit b) then
          k' ← satisfyRequest k p false false;
          maintainClusivity (fromCache (cmd k')) blk ;;
          mret (true, k', blk, [])
        else mret (false, k, blk, [])
    | _, _ =>
        if isLLSC (cmd k) && isWrite (cmd k) then mret (true, set_extraData 0 k, blk, [])
        else mret (false, k, blk, [])
    end.

(** [Cache::access] *)
Definition access (k : Pkt) : M Cache Access :=
  if uncacheable (req k) then
    massert "pkt->isRequest()" (isRequest (cmd k)) ;;
    massert "Should never see a write in a read-only cache" (negb (isReadOnly P && isWrite (cmd k))) ;;
    c ← gets (λ c, c);
    match Tags.findBlock (tp P) (addr k) (isSecure k) (blks c) with
    | Some i => wb ← evictBlock (InTags i); mret (false, k, None, [wb])
    | None => mret (false, k, None, [])
    end
  else access_base k.

(** ** Misses *)

(** [None] when the request goes on as it is. *)
Definition createMissPacket (cpu_pkt : Pkt) (blk : option CacheBlk.CacheBlk) (needs_writable is_whole_line_write : bool)
    : res (option Pkt) :=
  if isEviction (cmd cpu_pkt) then Err (EAssert "!cpu_pkt->isEviction()") else
  let blkValid := match blk with Some b => CacheBlk.valid b | None => false end in
  let writable := match blk with Some b => CacheBlk.isSet CacheBlk.WritableBit b | None => false end in
  if uncacheable (req cpu_pkt) || (negb blkValid && isUpgrade (cmd cpu_pkt)) ||
     bool_decide (cmd cpu_pkt = InvalidateReq) || isClean (cmd cpu_pkt) then Ok None else
  if negb (needsResponse (cmd cpu_pkt)) then Err (EAssert "cpu_pkt->needsResponse()") else
  if bool_decide (cmd cpu_pkt = WriteLineReq) && negb is_whole_line_write
  then Err (EAssert "cpu_pkt->cmd != MemCmd::WriteLineReq || is_whole_line_write") else
  c ← (if is_whole_line_write then
         if blkValid && writable then Err (EAssert "!blkValid || !blk->isSet(CacheBlk::WritableBit)") else Ok InvalidateReq
       else if blkValid then
         if negb needs_writable then Err (EAssert "needsWritable") else
         if writable then Err (EAssert "!blk->isSet(CacheBlk::WritableBit)") else
         Ok (if isLLSC (cmd cpu_pkt) then SCUpgradeReq else UpgradeReq)
       else if bool_decide (cmd cpu_pkt = SCUpgradeFailReq) || bool_decide (cmd cpu_pkt = StoreCondFailReq) then Ok SCUpgradeFailReq
       else
         let force_clean_rsp := isReadOnly P || bool_decide (clusivity P = mostly_excl) in
         Ok (if needs_writable then ReadExReq else if force_clean_rsp then ReadCleanReq else ReadSharedReq));
  let pkt := new_block (req cpu_pkt) c blkSize (id cpu_pkt) in
  let pkt := if hasSharers cpu_pkt && negb needs_writable then setHasSharers pkt else pkt in
  if negb (addr pkt =? getBlockAddr pkt blkSize) then Err (EAssert "pkt->getAddr() == pkt->getBlockAddr(blkSize)") else
  pkt ← allocate pkt;
  Ok (Some pkt).

Definition promoteWholeLineWrites (k : Pkt) : Pkt :=
  if bool_decide (cmd k = WriteReq) && (size k =? blkSize) && (getOffset k blkSize =? 0) && negb (isMaskedWrite k)
  then set_cmd WriteLineReq k else k.

(** What the cache does with the response to its own request: the packet of the
    request above, the block, the writebacks, and whether the response still
    invalidates. *)
Definition handle_response (k bus_pkt : Pkt) (blk : option BlkPtr) : M Cache (Pkt * option BlkPtr * list Pkt * bool) :=
  let is_invalidate := isInvalidate (cmd bus_pkt) in
  if negb (needsResponse (cmd k)) then mret (k, blk, [], is_invalidate) else
  massert "bus_pkt->isResponse()" (isResponse (cmd bus_pkt)) ;;
  if isError (cmd bus_pkt) then
    k ← lift (makeResponse k);
    k ← lift (copyError k bus_pkt);
    mret (k, blk, [], is_invalidate)
  else if isWholeLineWrite k blkSize then
    r ← handleFill bus_pkt blk (allocOnFill (cmd k));
    k ← satisfyRequest k r.1 false false;
    mret (k, Some r.1, r.2, false)
  else if isRead (cmd bus_pkt) || bool_decide (cmd bus_pkt = UpgradeResp) then
    r ← handleFill bus_pkt blk (allocOnFill (cmd k));
    k ← satisfyRequest k r.1 false false;
    maintainClusivity (fromCache (cmd k)) (Some r.1) ;;
    mret (k, Some r.1, r.2, is_invalidate)
  else
    k ← lift (makeResponse k);
    mret (k, blk, [], is_invalidate).

(** Drop the block when the response invalidates. *)
Definition drop_block (is_invalidate : bool) (blk : option BlkPtr) : M Cache unit :=
  match blk with
  | Some p => b ← get_blk p; when (is_invalidate && CacheBlk.valid b) (invalidateBlock p)
  | None => mret tt
  end.

(** ** With the peers *)

Section ports.
Context {W : Type} (self : ∀ A : Type, M Cache A → M W A).
Context (sendAtomic sendAtomicSnoop : Pkt → M W Pkt).
Arguments self {A} _.

(** The packet, and whether a cache above has the block. *)
Definition isCachedAbove (k : Pkt) : M W (Pkt * bool) :=
  if negb (forwardSnoops P) then mret (k, false) else
  k ← sendAtomicSnoop k;
  mret (k, blockCached k).

Fixpoint doWritebacksAtomic (writebacks : list Pkt) : M W unit :=
  match writebacks with
  | [] => mret tt
  | wbPkt :: writebacks =>
      r ← isCachedAbove wbPkt;
      let '(wbPkt, above) := r in
      when (negb above || bool_decide (cmd wbPkt = WritebackDirty) || bool_decide (cmd wbPkt = WriteClean))
        (_ ← sendAtomic wbPkt; mret tt) ;;
      doWritebacksAtomic writebacks
  end.

Definition writebackTempBlockAtomic : M W unit :=
  c ← self (gets (λ c, c));
  match tempBlockWriteback c with
  | Some k => doWritebacksAtomic [k] ;; self (modify (λ c, set_tempWriteback None (tempEvent c) c))
  | None => throw (EAssert "tempBlockWriteback != nullptr")
  end.

Definition handleAtomicReqMiss (k : Pkt) (blk : option BlkPtr) : M W (Pkt * option BlkPtr * list Pkt) :=
  if isEviction (cmd k) || bool_decide (cmd k = WriteClean) || (uncacheable (req k) && isWrite (cmd k)) then
    k ← sendAtomic k;
    massert "uncacheable write" (negb (uncacheable (req k) && isWrite (cmd k)) || isResponse (cmd k)) ;;
    mret (k, blk, [])
  else
    b ← self (peek blk);
    bus ← lift (createMissPacket k b (needsWritable (cmd k)) (isWholeLineWrite k blkSize));
    match bus with
    | None =>
        k ← sendAtomic k;
        self (drop_block (isInvalidate (cmd k)) blk) ;;
        mret (k, blk, [])
    | Some bus_pkt =>
        bus_pkt ← sendAtomic bus_pkt;
        r ← self (handle_response k bus_pkt blk);
        let '(k, blk, wbs, is_invalidate) := r in
        self (drop_block is_invalidate blk) ;;
        mret (k, blk, wbs)
    end.

(** A cleaning request that finds a dirty block writes it. *)
Definition clean_dirty (k : Pkt) (blk : option BlkPtr) : M Cache (Pkt * list Pkt) :=
  b ← peek blk;
  match blk, b with
  | Some p, Some b =>
      if isClean (cmd k) && CacheBlk.isSet CacheBlk.DirtyBit b then
        wb ← writecleanBlk p (toPOC (req k)) (toPOU (req k)) (id k);
        k ← lift (setSatisfied k);
        mret (k, [wb])
      else mret (k, [])
  | _, _ => mret (k, [])
  end.

(** The temporary block is written back later. *)
Definition retire_temp (blk : option BlkPtr) : M W unit :=
  c ← self (gets (λ c, c));
  when (bool_decide (blk = Some Temp) && CacheBlk.valid (tempBlock c))
    ((if bool_decide (is_Some (tempBlockWriteback c)) then writebackTempBlockAtomic
      else self (modify (λ c, set_tempWriteback (tempBlockWriteback c) true c))) ;;
     wb ← self (evictBlock Temp);
     self (modify (λ c, set_tempWriteback (Some wb) (tempEvent c) c))).

(** [BaseCache::recvAtomic] *)
Definition recvAtomic_base (k : Pkt) : M W Pkt :=
  a ← self (access k);
  let '(sat, k, blk, wbs) := a in
  r ← self (clean_dirty k blk);
  let '(k, wbs') := r in
  doWritebacksAtomic (wbs ++ wbs') ;;
  m ← (if (sat : bool) then mret (k, blk, []) else handleAtomicReqMiss k blk);
  let '(k, blk, wbs) := m in
  doWritebacksAtomic wbs ;;
  retire_temp blk ;;
  if needsResponse (cmd k) then lift (makeResponse k) else mret k.

(** [Cache::recvAtomic] *)
Definition recvAtomic (k : Pkt) : M W Pkt :=
  let k := promoteWholeLineWrites k in
  if cacheResponding k then
    massert "!pkt->req->isCacheInvalidate()" (negb (cacheInvalidate (req k))) ;;
    massert "pkt->needsWritable() && !pkt->responderHadWritable()" (needsWritable (cmd k) && negb (responderHadWritable k)) ;;
    sendAtomic k
  else recvAtomic_base k.

(** ** Snoops from below *)

(** A snoop of a cleaning request finds a dirty block. *)
Definition snoop_clean (k : Pkt) (blk : option BlkPtr) : M W Pkt :=
  r ← self (clean_dirty k blk);
  doWritebacksAtomic r.2 ;;
  mret r.1.

(** The response of a cache that has the line dirty. *)
Definition snoop_respond (k : Pkt) (b : CacheBlk.CacheBlk) (invalidate : bool) : res Pkt :=
  k ← setCacheResponding k;
  k ← (if negb (isClean (cmd k)) && CacheBlk.isSet CacheBlk.WritableBit b then setResponderHadWritable k else Ok k);
  if negb invalidate && negb (hasSharers k) then Err (EPanic "is passing a Modified line but keeping the block") else
  k ← makeResponse k;
  if hasData (cmd k) then setDataFromBlock k (CacheBlk.data b) blkSize else Ok k.

(** What a snoop that hits does to the block and the packet. *)
Definition snoop_hit (k : Pkt) (p : BlkPtr) (respond invalidate needs_writable : bool) : M Cache Pkt :=
  if mustCheckAbove k then mret (setBlockCached k) else
  let read := isRead (cmd k) && negb invalidate in
  when read (massert "!needs_writable" (negb needs_writable)) ;;
  let k := if read then setHasSharers k else k in
  when (read && negb (uncacheable (req k))) (upd_blk p (λ b, Ok (CacheBlk.clearCoherenceBits CacheBlk.WritableBit b))) ;;
  b ← get_blk p;
  k ← (if respond then lift (snoop_respond k b invalidate) else mret k);
  when invalidate (invalidateBlock p) ;;
  mret k.

Definition handleSnoop (k : Pkt) (blk : option BlkPtr) : M W Pkt :=
  massert "pkt->isRequest()" (isRequest (cmd k)) ;;
  let invalidate := isInvalidate (cmd k) in
  let needs_writable := needsWritable (cmd k) in
  (if invalidate && uncacheable (req k) then throw (EPanic "got an invalidating uncacheable snoop request") else mret tt) ;;
  k ← (if forwardSnoops P then
         let already_responded := cacheResponding k in
         k ← sendAtomicSnoop k;
         massert "pkt->isResponse()" (negb (negb already_responded && cacheResponding k) || isResponse (cmd k)) ;;
         mret k
       else mret k);
  b ← self (peek blk);
  match blk, b with
  | Some p, Some b =>
      if negb (CacheBlk.valid b) then mret k
      else if isClean (cmd k) then
        k ← snoop_clean k blk;
        self (snoop_hit k p false invalidate needs_writable)
      else
        massert "Should never have a dirty block in a read-only cache" (negb (isReadOnly P && CacheBlk.isSet CacheBlk.DirtyBit b)) ;;
        self (snoop_hit k p (CacheBlk.isSet CacheBlk.DirtyBit b && needsResponse (cmd k)) invalidate needs_writable)
  | _, _ => mret k
  end.

Fixpoint inRange (rs : list AddrRange.AddrRange) (a : Z) : res bool :=
  match rs with
  | [] => Ok false
  | r :: rs => c ← AddrRange.contains r a; if (c : bool) then Ok true else inRange rs a
  end.

Definition recvAtomicSnoop (k : Pkt) : M W Pkt :=
  i ← lift (inRange (addrRanges P) (addr k));
  if negb (i : bool) then mret k else
  c ← self (gets (λ c, c));
  handleSnoop k (InTags <$> Tags.findBlock (tp P) (addr k) (isSecure k) (blks c)).
End ports.
End cache.
End Cache.
