(* ===== verification/AbstractMem.v ===== *)
(** * The memory

    [AbstractMemory::access] of [mem/abstract_mem.cc] with the locks of
    load-locked requests that come from no cache, and [SimpleMemory::recvAtomic].
    The calls that clear a thread context's monitor are left out. *)
From stdpp Require Import base tactics list strings.
From Stdlib Require Import ZArith Lia.
From S2P Require Import Prelude MemCmd AddrRange CachePkt Cache.
Import CachePkt.
Local Open Scope Z_scope.

Module Mem.

Record LockedAddr := mkLocked { la_addr : Z; la_contextId : Z }.

(** [pmem] is the host memory behind [pmemAddr], [None] for a null memory. *)
Record Mem := mkMem {
  pmem : option (list Z);
  lockedAddrList : list LockedAddr;
}.

Definition set_pmem (d : list Z) (m : Mem) : Mem := mkMem (Some d) (lockedAddrList m).
Definition set_locked (l : list LockedAddr) (m : Mem) : Mem := mkMem (pmem m) l.

(** [LockedAddr::mask] *)
Definition mask (paddr : Z) : Z := Z.ldiff paddr 15.

Definition matchesContext (l : LockedAddr) (r : Request) : res bool :=
  if la_contextId l =? InvalidContextID then Err (EAssert "contextId != InvalidContextID") else
  if contextId r =? InvalidContextID then Err (EAssert "req->hasContextId()") else
  Ok (la_contextId l =? contextId r).

(** The record of the request's context is updated; [None] if it has none. *)
Fixpoint update_locked (r : Request) (l : list LockedAddr) : res (option (list LockedAddr)) :=
  match l with
  | [] => Ok None
  | x :: l =>
      m ← matchesContext x r;
      if (m : bool) then Ok (Some (mkLocked (mask (paddr r)) (la_contextId x) :: l)) else
      o ← update_locked r l;
      Ok (match o with Some l => Some (x :: l) | None => None end)
  end.

Definition trackLoadLocked (k : Pkt) : M Mem unit :=
  m ← gets (λ m, m);
  o ← lift (update_locked (req k) (lockedAddrList m));
  match o with
  | Some l => modify (set_locked l)
  | None =>
      if contextId (req k) =? InvalidContextID then throw (EAssert "hasContextId()") else
      modify (set_locked (mkLocked (mask (paddr (req k))) (contextId (req k)) :: lockedAddrList m))
  end.

(** Whether there is a record of the request's context and address. *)
Fixpoint find_locked (r : Request) (l : list LockedAddr) : res bool :=
  match l with
  | [] => Ok false
  | x :: l =>
      if la_addr x =? mask (paddr r) then
        m ← matchesContext x r;
        if (m : bool) then Ok true else find_locked r l
      else find_locked r l
  end.

Definition checkLockedAddrList (k : Pkt) : M Mem (bool * Pkt) :=
  m ← gets (λ m, m);
  let llsc := isLLSC (cmd k) in
  found ← (if llsc then lift (find_locked (req k) (lockedAddrList m)) else mret true);
  let k := if llsc then set_extraData (Z.b2z found) k else k in
  when (found : bool)
    (massert "owner_cid != InvalidContextID"
       (forallb (λ x, negb (la_addr x =? mask (paddr (req k))) || negb (la_contextId x =? InvalidContextID)) (lockedAddrList m)) ;;
     modify (set_locked (filter (λ x, la_addr x ≠ mask (paddr (req k))) (lockedAddrList m)))) ;;
  mret (found, k).

Definition writeOK (k : Pkt) : M Mem (bool * Pkt) :=
  m ← gets (λ m, m);
  if bool_decide (length (lockedAddrList m) = O) then
    mret (negb (isLLSC (cmd k)), if isLLSC (cmd k) then set_extraData 0 k else k)
  else checkLockedAddrList k.

Section mem.
Context (range : AddrRange.AddrRange).

Definition getAddrRange (k : Pkt) : AddrRange.AddrRange := AddrRange.RangeSize (addr k) (size k).

(** [toHostAddr(addr)] as an offset into the host memory. *)
Definition toHostAddr (a : Z) : Z := a - AddrRange.start range.

(** Read into the packet. *)
Definition read_host (k : Pkt) : M Mem Pkt :=
  m ← gets (λ m, m);
  match pmem m with
  | Some d => lift (setData k d (toHostAddr (addr k)))
  | None => mret k
  end.

Definition write_host (k : Pkt) : M Mem unit :=
  m ← gets (λ m, m);
  match pmem m with
  | Some d => d' ← lift (writeData k d (toHostAddr (addr k))); modify (set_pmem d')
  | None => mret tt
  end.

Definition access_swap (k : Pkt) : M Mem Pkt :=
  m ← gets (λ m, m);
  match atomicOp (req k), pmem m with
  | Some op, Some d =>
      k ← lift (setData k d (toHostAddr (addr k)));
      old ← lift (getConstPtr k);
      d' ← lift (copy_in d (toHostAddr (addr k)) (op old));
      modify (set_pmem d') ;;
      mret k
  | Some _, None => mret k
  | None, None => throw (EPanic "Swap only works if there is real memory")
  | None, Some d =>
      overwrite_val ← lift (b ← getConstPtr k; copy_out b 0 (size k));
      k ← lift (setData k d (toHostAddr (addr k)));
      old ← lift (getConstPtr k);
      overwrite_mem ← (if condSwap (req k) then
                         if size k =? 8 then mret (bool_decide (old = Cache.le_bytes 8 (extraData k)))
                         else if size k =? 4 then mret (bool_decide (old = Cache.le_bytes 4 (extraData k)))
                         else throw (EPanic "Invalid size for conditional read/write")
                       else mret true);
      when (overwrite_mem : bool)
        (d' ← lift (copy_in d (toHostAddr (addr k)) overwrite_val); modify (set_pmem d')) ;;
      mret k
  end.

Definition access (k : Pkt) : M Mem Pkt :=
  if cacheResponding k then mret k else
  if isCleanEviction k then mret k else
  sub ← lift (AddrRange.isSubset (getAddrRange k) range);
  massert "pkt->getAddrRange().isSubset(range)" sub ;;
  k ← (if bool_decide (cmd k = SwapReq) then access_swap k
       else if isRead (cmd k) then
         massert "!pkt->isWrite()" (negb (isWrite (cmd k))) ;;
         when (isLLSC (cmd k)) (massert "!pkt->fromCache()" (negb (fromCache (cmd k))) ;; trackLoadLocked k) ;;
         read_host k
       else if isInvalidate (cmd k) || isClean (cmd k) then
         massert "!pkt->isWrite()" (negb (isWrite (cmd k))) ;;
         mret k
       else if isWrite (cmd k) then
         r ← writeOK k;
         when (r.1 : bool) (write_host r.2) ;;
         mret r.2
       else throw (EPanic "Unexpected packet"));
  if needsResponse (cmd k) then lift (makeResponse k) else mret k.

Definition recvAtomic (k : Pkt) : M Mem Pkt :=
  if cacheResponding k then throw (EPanic "Should not see packets where cache is responding") else access k.
End mem.
End Mem.
