(* ===== verification/CacheSys.v ===== *)
(** * Caches on a crossbar

    Private caches, the crossbar that connects them to a memory, and the memory,
    in atomic mode: the boards of the PEs with private L1 caches.  The crossbar's
    [recvAtomicBackdoor] and [forwardAtomic] are here over packets that carry data
    and peers that have state; routing between several memories is the subject of
    [XBarDecode].  Who is snooped is decided by a snoop tracker, an interface with
    two implementations: no snoop filter, where every port is snooped, and the
    snoop filter of [SnoopFilter]. *)
From stdpp Require Import base tactics list gmap strings.
From Stdlib Require Import ZArith Lia.
From S2P Require Import Prelude MemCmd AddrRange SnoopFilter CachePkt CacheBlk CacheTags Cache AbstractMem.
Import CachePkt.
Local Open Scope Z_scope.

(** ** Who is snooped *)

(** Cache [i] is at CPU-side port [i]. *)
Class Tracker (F : Type) := {
  tr_filters : bool;                                (* snoopFilter != nullptr *)
  tr_lookup : Pkt → nat → M F (list nat);           (* lookupRequest and finishRequest *)
  tr_snoop_response : Pkt → nat → nat → M F unit;   (* from a snooper, to a requester *)
  tr_response : Pkt → nat → M F unit;               (* from below *)
}.

(** Without a filter, all of [n] ports. *)
Definition no_filter (n : nat) : Tracker unit := {|
  tr_filters := false;
  tr_lookup := λ _ _, mret (seq 0 n);
  tr_snoop_response := λ _ _ _, mret tt;
  tr_response := λ _ _, mret tt;
|}.

(** What the filter sees of a packet. *)
Definition filter_pkt (k : Pkt) : SnoopFilter.Pkt :=
  SnoopFilter.mkPkt (cmd k) (addr k) (isSecure k) (uncacheable (req k)) (maintenance (req k)) (broadcast (req k))
    (cacheResponding k) (hasSharers k) (blockCached k).

Definition cache_port (i : nat) : SnoopFilter.Port := SnoopFilter.mkPort (Z.of_nat i) true.

Definition snoop_filter (c : SnoopFilter.Config) : Tracker SnoopFilter.Filter := {|
  tr_filters := true;
  tr_lookup := λ k i,
    r ← SnoopFilter.lookupRequest c (filter_pkt k) (cache_port i);
    SnoopFilter.finishRequest c false (addr k) (isSecure k) ;;
    mret (map (λ p, Z.to_nat (SnoopFilter.p_id p)) r.1);
  tr_snoop_response := λ k j i, SnoopFilter.updateSnoopResponse c (filter_pkt k) (cache_port j) (cache_port i);
  tr_response := λ k i, SnoopFilter.updateResponse c (filter_pkt k) (cache_port i);
|}.

Module Sys.

Record XParams := mkXParams { bypassCaches : bool; pointOfCoherency : bool; pointOfUnification : bool }.

Record Sys (F : Type) := mkSys {
  caches : list Cache.Cache;
  memory : Mem.Mem;
  tracker : F;
  outstandingCMO : gset Z;
}.
Arguments mkSys {F}.
Arguments caches {F}.
Arguments memory {F}.
Arguments tracker {F}.
Arguments outstandingCMO {F}.

Section sys.
Context {F : Type} {T : Tracker F}.
Context (X : XParams) (P : Cache.Params) (range : AddrRange.AddrRange).

(** ** Parts *)

Definition on_cache (i : nat) {A} (f : M Cache.Cache A) : M (Sys F) A := λ s,
  c ← of_option EBadPointer (caches s !! i);
  match f c with
  | Ok (a, c') => Ok (a, mkSys (<[i := c']> (caches s)) (memory s) (tracker s) (outstandingCMO s))
  | Err e => Err e
  end.
Definition on_mem {A} (f : M Mem.Mem A) : M (Sys F) A := λ s,
  match f (memory s) with
  | Ok (a, m) => Ok (a, mkSys (caches s) m (tracker s) (outstandingCMO s))
  | Err e => Err e
  end.
Definition on_tracker {A} (f : M F A) : M (Sys F) A := λ s,
  match f (tracker s) with
  | Ok (a, t) => Ok (a, mkSys (caches s) (memory s) t (outstandingCMO s))
  | Err e => Err e
  end.
Definition set_CMO (o : gset Z) (s : Sys F) : Sys F := mkSys (caches s) (memory s) (tracker s) o.

(** ** The crossbar *)

Definition isDestination (k : Pkt) : bool :=
  (toPOC (req k) && pointOfCoherency X) || (toPOU (req k) && pointOfUnification X).

Definition sinkPacket (k : Pkt) : bool :=
  (pointOfCoherency X && cacheResponding k) ||
  (pointOfCoherency X && negb (isRead (cmd k) || isWrite (cmd k)) && negb (needsResponse (cmd k))) ||
  (isCleanEviction k && blockCached k) ||
  (cacheResponding k && (negb (needsWritable (cmd k)) || responderHadWritable k)).

Definition forwardPacket (k : Pkt) : bool :=
  if isClean (cmd k) then negb (isDestination k)
  else isRead (cmd k) || isWrite (cmd k) || negb (pointOfCoherency X).

Section crossbar.
Context (sendAtomicSnoop : nat → Pkt → M (Sys F) Pkt).

(** The loop over the destinations; [r] is the command of the response. *)
Fixpoint atomic_loop (orig_cmd : Command) (exclude : nat) (dests : list nat) (k : Pkt) (r : Command) : M (Sys F) (Pkt * Command) :=
  match dests with
  | [] => mret (k, r)
  | j :: dests =>
      if bool_decide (j = exclude) then atomic_loop orig_cmd exclude dests k r else
      k ← sendAtomicSnoop j k;
      if negb (isResponse (cmd k)) then atomic_loop orig_cmd exclude dests k r else
      massert "pkt->cmd != orig_cmd" (negb (bool_decide (cmd k = orig_cmd))) ;;
      massert "pkt->cacheResponding()" (cacheResponding k) ;;
      massert "snoop_response_cmd == MemCmd::InvalidCmd" (bool_decide (r = InvalidCmd)) ;;
      when tr_filters (on_tracker (tr_snoop_response k j exclude)) ;;
      atomic_loop orig_cmd exclude dests (set_cmd orig_cmd k) (cmd k)
  end.

Definition forwardAtomic (k : Pkt) (exclude : nat) (dests : list nat) : M (Sys F) (Pkt * Command) :=
  massert "!system->bypassCaches()" (negb (bypassCaches X)) ;;
  atomic_loop (cmd k) exclude dests k InvalidCmd.

(** The snoops of a request: the packet and the command of the response. *)
Definition snoop_caches (k : Pkt) (i : nat) : M (Sys F) (Pkt * Command) :=
  dests ← on_tracker (tr_lookup k i);
  if tr_filters && isEviction (cmd k) then
    mret (if bool_decide (dests = []) then k else setBlockCached k, InvalidCmd)
  else forwardAtomic k i dests.

(** The access below. *)
Definition access_below (k : Pkt) : M (Sys F) Pkt :=
  if sinkPacket k then mret k
  else if forwardPacket k then
    on_mem (Mem.recvAtomic range (if isWrite (cmd k) && isDestination k then clearWriteThrough k else k))
  else
    massert "pkt->needsResponse()" (needsResponse (cmd k)) ;;
    lift (makeResponse k).

(** Cleaning requests are answered when their write has passed. *)
Definition atomic_clean (k : Pkt) : M (Sys F) unit :=
  s ← gets (λ s, s);
  if isClean (cmd k) && isDestination k && satisfied k then
    massert "it != outstandingCMO.end()" (bool_decide (id k ∈ outstandingCMO s)) ;;
    modify (set_CMO (outstandingCMO s ∖ {[id k]}))
  else when (bool_decide (cmd k = WriteClean) && isDestination k)
    (massert "ret.second" (bool_decide (id k ∉ outstandingCMO s)) ;;
     modify (set_CMO ({[id k]} ∪ outstandingCMO s))).

Definition recvAtomicBackdoor (i : nat) (k : Pkt) : M (Sys F) Pkt :=
  r ← (if negb (bypassCaches X) && negb (bool_decide (cmd k = WriteClean)) then snoop_caches k i
       else mret (k, InvalidCmd));
  let '(k, snoop_response_cmd) := r in
  k ← access_below k;
  when (negb (bypassCaches X) && tr_filters && isResponse (cmd k)) (on_tracker (tr_response k i)) ;;
  let snooped := negb (bool_decide (snoop_response_cmd = InvalidCmd)) in
  when snooped (massert "!pkt->isResponse()" (negb (isResponse (cmd k)))) ;;
  let k := if snooped then set_cmd snoop_response_cmd k else k in
  atomic_clean k ;;
  mret k.
End crossbar.

(** ** The system *)

(** The PEs above the caches do not react to snoops. *)
Definition above (k : Pkt) : M (Sys F) Pkt := mret k.

(** A request of cache [i] to the crossbar.  A snooped cache may itself write to
    memory, by a request that snoops no one; so two levels are enough. *)
Fixpoint send (level : nat) (now : Z) (i : nat) (k : Pkt) : M (Sys F) Pkt :=
  match level with
  | O => throw EDiverge
  | S level =>
      recvAtomicBackdoor
        (λ j k, Cache.recvAtomicSnoop P (λ A, @on_cache j A) (send level now j) above k) i k
  end.

(** An access of the core above cache [i]. *)
Definition recvAtomic (now : Z) (i : nat) (k : Pkt) : M (Sys F) Pkt :=
  Cache.recvAtomic P now (λ A, @on_cache i A) (send 2 now i) above k.

(** A sequence of accesses, each at its time, and their responses. *)
Fixpoint run (accesses : list (Z * nat * Pkt)) : M (Sys F) (list Pkt) :=
  match accesses with
  | [] => mret []
  | (now, i, k) :: accesses =>
      k ← recvAtomic now i k;
      ks ← run accesses;
      mret (k :: ks)
  end.
End sys.
End Sys.
