(* ===== verification/CacheProps.v ===== *)
(** * What the operations of a cache do to its lines

    A cache as a map from the addresses of lines to their state: whether it may
    write the line, whether its copy is newer than memory, and the bytes.  Each
    operation of [Cache] that an atomic access uses is described as an update of
    this map; that no assertion fails is part of the description. *)
From stdpp Require Import base tactics list strings sets.
From Stdlib Require Import ZArith Lia.
From S2P Require Import Prelude MemCmd AddrRange CachePkt CacheBlk CacheTags Cache.
Import CachePkt Cache.
Local Open Scope Z_scope.

(** ** Lines *)

Record Line := mkLine { writable : bool; dirty : bool; bytes : list Z }.

Definition abs (b : CacheBlk.CacheBlk) : Line :=
  mkLine (has CacheBlk.WritableBit b) (has CacheBlk.DirtyBit b) (CacheBlk.data b).

(** Update of a map. *)
Definition upd (f : Z → option Line) (a : Z) (x : option Line) : Z → option Line :=
  λ a', if decide (a' = a) then x else f a'.

Lemma upd_eq f a x : upd f a x a = x.
Proof. unfold upd. by rewrite decide_True. Qed.
Lemma upd_ne f a x a' : a' ≠ a → upd f a x a' = f a'.
Proof. unfold upd. intros. by rewrite decide_False. Qed.

(** The three bits do not interfere. *)
Lemma has_W b : has CacheBlk.WritableBit b = Z.testbit (CacheBlk.coherence b) 1.
Proof. by apply (has_testbit 1). Qed.
Lemma has_R b : has CacheBlk.ReadableBit b = Z.testbit (CacheBlk.coherence b) 2.
Proof. by apply (has_testbit 2). Qed.
Lemma has_D b : has CacheBlk.DirtyBit b = Z.testbit (CacheBlk.coherence b) 3.
Proof. by apply (has_testbit 3). Qed.

Definition set_bits (bits : Z) (b : CacheBlk.CacheBlk) : CacheBlk.CacheBlk :=
  CacheBlk.set_coherence (Z.lor (CacheBlk.coherence b) bits) b.

Lemma setCoherenceBits_ok bits b : CacheBlk.valid b = true → CacheBlk.setCoherenceBits bits b = Ok (set_bits bits b).
Proof. intros Hv. unfold CacheBlk.setCoherenceBits. by rewrite Hv. Qed.

(** Evaluate the bits of a changed word. *)
Ltac bits :=
  rewrite ?has_W, ?has_R, ?has_D; unfold set_bits, CacheBlk.set_coherence, CacheBlk.ReadableBit, CacheBlk.WritableBit, CacheBlk.DirtyBit;
  cbn [CacheBlk.coherence CacheBlk.data]; rewrite ?Z.lor_spec, ?Z.ldiff_spec;
  repeat match goal with |- context [Z.testbit (Zpos ?x) ?y] =>
    let v := eval vm_compute in (Z.testbit (Zpos x) y) in change (Z.testbit (Zpos x) y) with v end;
  cbn [negb]; rewrite ?orb_false_r, ?orb_true_r, ?andb_true_r, ?andb_false_r.

Lemma set_R b : has CacheBlk.ReadableBit (set_bits CacheBlk.ReadableBit b) = true ∧ abs (set_bits CacheBlk.ReadableBit b) = abs b.
Proof. unfold abs. cbn [writable dirty bytes]. split; bits; done. Qed.
Lemma set_W b : has CacheBlk.ReadableBit (set_bits CacheBlk.WritableBit b) = has CacheBlk.ReadableBit b ∧
  abs (set_bits CacheBlk.WritableBit b) = mkLine true (dirty (abs b)) (bytes (abs b)).
Proof. unfold abs. cbn [writable dirty bytes]. split; bits; done. Qed.
Lemma set_D b : has CacheBlk.ReadableBit (set_bits CacheBlk.DirtyBit b) = has CacheBlk.ReadableBit b ∧
  abs (set_bits CacheBlk.DirtyBit b) = mkLine (writable (abs b)) true (bytes (abs b)).
Proof. unfold abs. cbn [writable dirty bytes]. split; bits; done. Qed.
Lemma clear_W b : has CacheBlk.ReadableBit (CacheBlk.clearCoherenceBits CacheBlk.WritableBit b) = has CacheBlk.ReadableBit b ∧
  abs (CacheBlk.clearCoherenceBits CacheBlk.WritableBit b) = mkLine false (dirty (abs b)) (bytes (abs b)).
Proof. unfold abs, CacheBlk.clearCoherenceBits. cbn [writable dirty bytes]. split; bits; done. Qed.
Lemma clear_D b : has CacheBlk.ReadableBit (CacheBlk.clearCoherenceBits CacheBlk.DirtyBit b) = has CacheBlk.ReadableBit b ∧
  abs (CacheBlk.clearCoherenceBits CacheBlk.DirtyBit b) = mkLine (writable (abs b)) false (bytes (abs b)).
Proof. unfold abs, CacheBlk.clearCoherenceBits. cbn [writable dirty bytes]. split; bits; done. Qed.

(** ** A cache between accesses *)

Section cache.
Context (P : Params) (n s now : Z) (G : geometry (tp P) n s).
(** Whether load-locked requests are used at all. *)
Context (locking : bool).
Notation blkSize := (Tags.blkSize (tp P)).
Notation holds := (holds (tp P)).
Notation wf := (wf (tp P) n s).
Notation blk_wf := (blk_wf (tp P) n s).

Definition aligned (a : Z) : Prop := 0 ≤ a < 2 ^ 64 ∧ Tags.blkAlign (tp P) a = a.
#[local] Instance aligned_dec a : Decision (aligned a).
Proof. unfold aligned. apply _. Defined.

Definition blk_ok (b : CacheBlk.CacheBlk) : Prop :=
  CacheBlk.secure b = false ∧ has CacheBlk.ReadableBit b = true ∧ (locking = false → CacheBlk.lockList b = []).

(** Blocks are not secure and readable, the temporary block is free. *)
Record cache_ok (c : Cache) : Prop := {
  co_wf : wf (blks c);
  co_blk : ∀ i b, blks c !! i = Some b → CacheBlk.valid b = true →
    blk_ok b ∧ aligned (Tags.regenerateBlkAddr (tp P) b);
  co_temp : CacheBlk.valid (tempBlock c) = false;
  co_wb : tempBlockWriteback c = None;
}.

Definition line (c : Cache) (a : Z) : option CacheBlk.CacheBlk :=
  match Tags.findBlock (tp P) a false (blks c) with Some i => blks c !! i | None => None end.

Definition view (c : Cache) (a : Z) : option Line :=
  if decide (aligned a) then abs <$> line c a else None.

(** [p] points to the block [b] that has the line [a]. *)
Definition points (c : Cache) (a : Z) (p : BlkPtr) (b : CacheBlk.CacheBlk) : Prop :=
  ∃ i, p = InTags i ∧ holds (blks c) a false i b.

Lemma line_holds c a b : cache_ok c → aligned a → line c a = Some b ↔ ∃ i, holds (blks c) a false i b.
Proof using G.
  intros C [Ha E]. pose proof (co_wf _ C) as W. unfold line. split.
  - pose proof (findBlock_spec _ _ _ G _ a false W Ha) as H. rewrite E in H.
    destruct (Tags.findBlock _ _ _ _) as [i|]; [|done]. destruct H as (b' & Hb'). intros Hb. exists i.
    pose proof Hb' as (Hi & _). assert (b' = b) as -> by congruence. done.
  - intros (i & Hi). rewrite (findBlock_some _ _ _ G _ a false i b W Ha) by (by rewrite E). by destruct Hi.
Qed.

Lemma line_none c a : cache_ok c → aligned a → line c a = None ↔ ∀ i b, ¬ holds (blks c) a false i b.
Proof using G.
  intros C Ha. split.
  - intros Hl i b Hi. assert (line c a = Some b) by (apply line_holds; eauto). congruence.
  - intros H. destruct (line c a) as [b|] eqn:E; [|done]. apply line_holds in E as (i & Hi); [|done..]. by apply H in Hi.
Qed.

Lemma view_line c a l : cache_ok c → view c a = Some l ↔ aligned a ∧ ∃ p b, points c a p b ∧ abs b = l.
Proof using G.
  intros C. unfold view. case_decide as Ha; [|split; [done|by intros [? _]]]. rewrite fmap_Some. split.
  - intros (b & Hb & ->). split; [done|]. apply line_holds in Hb as (i & Hi); [|done..]. exists (InTags i), b. split; [by exists i|done].
  - intros (_ & p & b & (i & _ & Hi) & <-). exists b. split; [|done]. apply line_holds; eauto.
Qed.

Lemma points_aligned c a p b : cache_ok c → points c a p b → aligned a.
Proof. intros C (i & _ & (Hi & Hv & _ & <-)). by apply (co_blk _ C i b). Qed.

Lemma points_view c a p b : cache_ok c → points c a p b → view c a = Some (abs b).
Proof using G. intros C Hp. apply view_line; [done|]. split; [by eapply points_aligned|eauto]. Qed.

(** Two caches with the same blocks at the same lines. *)
Lemma view_ext c c' : cache_ok c → cache_ok c' →
  (∀ a l, aligned a → (∃ p b, points c a p b ∧ abs b = l) ↔ (∃ p b, points c' a p b ∧ abs b = l)) → ∀ a, view c' a = view c a.
Proof using G.
  intros C C' H a. apply option_eq. intros l. rewrite !view_line by done.
  split; intros [Ha Hl]; (split; [done|]); by apply (H a l Ha).
Qed.

(** ** Updates of one block *)

Lemma line_insert c i b b' :
  cache_ok c → blks c !! i = Some b → cache_ok (set_blks (<[i := b']> (blks c)) c) →
  ∀ a, view (set_blks (<[i := b']> (blks c)) c) a =
    if decide (CacheBlk.valid b' = true ∧ Tags.regenerateBlkAddr (tp P) b' = a) then Some (abs b')
    else if decide (CacheBlk.valid b = true ∧ Tags.regenerateBlkAddr (tp P) b = a) then None else view c a.
Proof using G.
  intros C Hi C' a. assert (i < length (blks c))%nat as Hl by (by eapply lookup_lt_Some).
  assert (blks (set_blks (<[i := b']> (blks c)) c) !! i = Some b') as Hi' by (simpl; by apply list_lookup_insert_eq).
  destruct (decide (CacheBlk.valid b' = true ∧ _)) as [[Hv Ha]|Hn].
  { apply view_line; [done|]. destruct (co_blk _ C' _ _ Hi' Hv) as ((Hs & _) & Hal). rewrite Ha in Hal. split; [done|].
    exists (InTags i), b'. split; [|done]. exists i. split; [done|]. split_and!; done. }
  apply option_eq. intros l. rewrite view_line by done. case_decide as Hd.
  - split; [|done]. intros (_ & p & x & (j & _ & Hj) & _). simpl in Hj. apply tag_holds_insert in Hj as [(_ & _ & Hv & _ & Ha)|[Hne Hj]]; [|  |done].
    + by destruct Hn.
    + destruct Hne. destruct Hd as [Hv Ha]. eapply (wf_unique (co_wf _ C)); [exact Hj|]. split; [exact Hi|].
      split; [done|]. split; [by apply (co_blk _ C i b)|done].
  - rewrite view_line by done. split; intros (Hal & p & x & (j & -> & Hj) & <-); (split; [done|]); exists (InTags j), x; (split; [|done]); exists j; (split; [done|]).
    + simpl in Hj. apply tag_holds_insert in Hj as [(_ & _ & Hv & _ & Ha)|[_ Hj]]; [by destruct Hn|done|done].
    + simpl. apply tag_holds_insert; [done|]. right. split; [|done]. intros ->. destruct Hj as (Hj & Hv & _ & Ha).
      rewrite Hi in Hj. injection Hj as ->. by apply Hd.
Qed.

Lemma cache_ok_insert c i b' :
  cache_ok c → wf (<[i := b']> (blks c)) →
  (CacheBlk.valid b' = true → blk_ok b' ∧ aligned (Tags.regenerateBlkAddr (tp P) b')) →
  cache_ok (set_blks (<[i := b']> (blks c)) c).
Proof.
  intros C W Hb. split; simpl; [done| |apply (co_temp _ C)|apply (co_wb _ C)]. intros j x Hj Hv.
  destruct (decide (j = i)) as [->|Hne].
  - destruct (decide (i < length (blks c))%nat).
    + rewrite list_lookup_insert_eq in Hj by done. injection Hj as <-. auto.
    + rewrite list_insert_ge in Hj by lia. by apply (co_blk _ C i x).
  - rewrite list_lookup_insert_ne in Hj by done. by apply (co_blk _ C j x).
Qed.

(** The block of a line is changed but keeps the line. *)
Lemma put_line c a p b b' i :
  cache_ok c → p = InTags i → holds (blks c) a false i b →
  blk_wf i b' → CacheBlk.valid b' = true → CacheBlk.tag b' = CacheBlk.tag b → blk_ok b' →
  ∃ c', put_blk p b' c = Ok (tt, c') ∧ cache_ok c' ∧ points c' a p b' ∧ (∀ a', view c' a' = upd (view c) a (Some (abs b')) a').
Proof using G.
  intros C -> (Hi & Hv & Hs & Ha) Hb Hv' Ht Hok. pose proof Hok as (Hs' & _). eexists. split; [done|].
  assert (CacheBlk.set_index b' = CacheBlk.set_index b) as Hset.
  { by rewrite (bw_set _ _ _ _ _ Hb), (bw_set _ _ _ _ _ (wf_blks (co_wf _ C) _ _ Hi)). }
  assert (Tags.regenerateBlkAddr (tp P) b' = a) as Ha' by (unfold Tags.regenerateBlkAddr; by rewrite Ht, Hset).
  destruct (co_blk _ C _ _ Hi Hv) as (_ & Hal). rewrite Ha in Hal.
  assert (cache_ok (set_blks (<[i := b']> (blks c)) c)) as C'.
  { apply cache_ok_insert; [done| |by rewrite Ha']. apply (wf_same _ _ _ _ _ b); [apply (co_wf _ C)|done..|].
    intros _. split; [done|congruence]. }
  split; [done|]. split.
  - exists i. split; [done|]. split_and!; try done. simpl. apply list_lookup_insert_eq. by eapply lookup_lt_Some.
  - intros a'. rewrite (line_insert c i b b' C Hi C'). unfold upd.
    destruct (decide (a' = a)) as [->|Hne].
    + by rewrite decide_True.
    + rewrite decide_False by (intros [_ ?]; congruence). by rewrite decide_False by (intros [_ ?]; congruence).
Qed.

Lemma get_points c a p b : points c a p b → get_blk p c = Ok (b, c).
Proof. intros (i & -> & (Hi & _)). unfold get_blk. by rewrite Hi. Qed.

Lemma points_wf c a i b : cache_ok c → holds (blks c) a false i b → blk_wf i b.
Proof. intros C (Hi & _). by apply (wf_blks (co_wf _ C)). Qed.

(** The changes of a block that keep its line. *)
Definition keeps_line (b b' : CacheBlk.CacheBlk) : Prop :=
  ∀ i, blk_wf i b → CacheBlk.valid b = true → blk_ok b →
    blk_wf i b' ∧ CacheBlk.valid b' = true ∧ CacheBlk.tag b' = CacheBlk.tag b ∧ blk_ok b'.

Lemma put_points c a p b b' :
  cache_ok c → points c a p b → keeps_line b b' →
  ∃ c', put_blk p b' c = Ok (tt, c') ∧ cache_ok c' ∧ points c' a p b' ∧ (∀ a', view c' a' = upd (view c) a (Some (abs b')) a').
Proof using G.
  intros C (i & -> & Hi) Hk. pose proof Hi as (Hl & Hv & Hs & _).
  destruct (Hk i) as (? & ? & ? & ?); [by eapply points_wf|done|by apply (co_blk _ C i b)|].
  by eapply put_line.
Qed.

Lemma upd_points c a p b f b' :
  cache_ok c → points c a p b → f b = Ok b' → keeps_line b b' →
  ∃ c', upd_blk p f c = Ok (tt, c') ∧ cache_ok c' ∧ points c' a p b' ∧ (∀ a', view c' a' = upd (view c) a (Some (abs b')) a').
Proof using G.
  intros C Hp Hf Hk. unfold upd_blk. rewrite (M_bind_ok _ _ _ _ _ (get_points _ _ _ _ Hp)).
  rewrite (M_bind_ok _ _ _ _ _ (lift_ok _ _ c Hf)). by eapply put_points.
Qed.

Lemma keeps_line_trans b1 b2 b3 : keeps_line b1 b2 → keeps_line b2 b3 → keeps_line b1 b3.
Proof. intros H1 H2 i ? ? ?. destruct (H1 i) as (? & ? & ? & ?); [done..|]. destruct (H2 i) as (? & ? & ? & ?); [done..|]. split_and!; [done..|congruence|done]. Qed.

Lemma keeps_set bits b : bits ∈ [CacheBlk.WritableBit; CacheBlk.ReadableBit; CacheBlk.DirtyBit] → keeps_line b (set_bits bits b).
Proof.
  intros Hb i W Hv (Hs & Hr & Hl). split; [apply blk_wf_set; [done..|]; repeat (apply elem_of_cons in Hb as [->|Hb]; [reflexivity|]); by apply elem_of_nil in Hb|].
  split_and!; try done. split; [done|]. split; [|done]. rewrite has_R in *.
  unfold set_bits. cbn [CacheBlk.set_coherence CacheBlk.coherence]. by rewrite Z.lor_spec, Hr.
Qed.
Lemma keeps_clear bits b : bits ∈ [CacheBlk.WritableBit; CacheBlk.DirtyBit] → keeps_line b (CacheBlk.clearCoherenceBits bits b).
Proof.
  intros Hb i W Hv (Hs & Hr & Hl). split; [by apply blk_wf_clear|]. split_and!; try done. split; [done|]. split; [|done]. rewrite has_R in *.
  unfold CacheBlk.clearCoherenceBits. cbn [CacheBlk.set_coherence CacheBlk.coherence]. rewrite Z.ldiff_spec, Hr.
  repeat (apply elem_of_cons in Hb as [->|Hb]; [reflexivity|]). by apply elem_of_nil in Hb.
Qed.
Lemma keeps_data d b : length d = length (CacheBlk.data b) → keeps_line b (CacheBlk.set_data d b).
Proof. intros Hd i W Hv Hok. split; [by apply blk_wf_data|]. done. Qed.
Lemma keeps_locks l b : (locking = false → CacheBlk.lockList b = [] → l = []) → keeps_line b (CacheBlk.set_lockList l b).
Proof. intros Hl i W Hv (Hs & Hr & Hn). split; [by apply blk_wf_locks|]. split_and!; try done. split_and!; try done. intros E. simpl. auto. Qed.

(** ** Lookups and invalidations *)

Lemma upd_same c a l a' : view c a = Some l → upd (view c) a (Some l) a' = view c a'.
Proof. intros H. unfold upd. case_decide; [by subst|done]. Qed.

Lemma accessBlock_ok c k a :
  cache_ok c → isSecure k = false → 0 ≤ addr k < 2 ^ 64 → Tags.blkAlign (tp P) (addr k) = a →
  ∃ blk c', accessBlock P now k c = Ok (blk, c') ∧ cache_ok c' ∧ (∀ a', view c' a' = view c a') ∧
    match view c a with Some l => ∃ p b, blk = Some p ∧ points c' a p b ∧ abs b = l | None => blk = None end.
Proof using G.
  intros C Hs Ha E. unfold accessBlock, on_blks, Tags.accessBlock, mbind, M_bind. cbn beta. rewrite Hs.
  pose proof (findBlock_spec _ _ _ G _ (addr k) false (co_wf _ C) Ha) as H. rewrite E in H.
  destruct (Tags.findBlock _ _ _ _) as [i|] eqn:Hf.
  - destruct H as (b & Hb). pose proof Hb as (Hi & Hv & Hsec & _).
    destruct (put_points c a (InTags i) b (CacheBlk.set_touched now b)) as (c' & Hput & C' & Hp & Hview); [done|by exists i| |].
    { intros j W _ Hok. split; [by apply blk_wf_touched|]. done. }
    unfold put_blk in Hput. injection Hput as <-. eexists _, _. split; [by rewrite (alter_insert _ _ _ _ Hi)|]. split; [done|].
    assert (view c a = Some (abs b)) as Hva by (eapply points_view; [done|by exists i]).
    split; [intros a'; rewrite Hview; by apply upd_same|]. rewrite Hva. eexists _, _. done.
  - eexists _, _. split; [done|]. assert (set_blks (blks c) c = c) as -> by (by destruct c). split; [done|]. split; [done|].
    destruct (view c a) as [l|] eqn:Hv; [|done]. apply view_line in Hv as (_ & p & b & (i & _ & Hi) & _); [|done]. by apply H in Hi.
Qed.

(** [p] points to an invalid block at the position of [b]. *)
Definition free_blk (c : Cache) (p : BlkPtr) (b : CacheBlk.CacheBlk) : Prop :=
  ∃ i b', p = InTags i ∧ blks c !! i = Some b' ∧ CacheBlk.valid b' = false ∧ CacheBlk.set_index b' = CacheBlk.set_index b.

Lemma invalidateBlock_ok c a p b :
  cache_ok c → points c a p b →
  ∃ c', invalidateBlock P p c = Ok (tt, c') ∧ cache_ok c' ∧ (∀ a', view c' a' = upd (view c) a None a') ∧ free_blk c' p b.
Proof using G.
  intros C (i & -> & (Hi & Hv & Hs & Ha)). unfold invalidateBlock. rewrite (M_bind_ok _ _ _ tt c) by done.
  unfold on_blks. assert (Tags.invalidate i (blks c) = Ok (<[i := CacheBlk.set_touched 0 (CacheBlk.invalidate b)]> (blks c))) as E.
  { unfold Tags.invalidate. rewrite Hi. cbn [of_option mbind res_bind]. by rewrite Hv. }
  rewrite E. cbn [mbind res_bind]. eexists. split; [done|].
  assert (cache_ok (set_blks (<[i := CacheBlk.set_touched 0 (CacheBlk.invalidate b)]> (blks c)) c)) as C'.
  { apply cache_ok_insert; [done| |done]. by apply (wf_invalidate _ _ _ (blks c) i); [apply (co_wf _ C)|]. }
  split; [done|]. split.
  - intros a'. rewrite (line_insert c i b _ C Hi C'). unfold upd.
    rewrite decide_False by (by intros [? _]). destruct (decide (a' = a)) as [->|Hne].
    + by rewrite decide_True.
    + by rewrite decide_False by (intros [_ ?]; congruence).
  - eexists i, _. split; [done|]. split; [simpl; apply list_lookup_insert_eq; by eapply lookup_lt_Some|done].
Qed.

(** ** Requests of a core *)

(** The bytes a packet asks for are in the line at [a]. *)
Record in_line (k : Pkt) (a : Z) : Prop := {
  il_secure : isSecure k = false;
  il_addr : 0 ≤ addr k < 2 ^ 64;
  il_align : Tags.blkAlign (tp P) (addr k) = a;
  il_size : 1 ≤ size k;
  il_fit : addr k - a + size k ≤ blkSize;
}.

Lemma in_line_offset k a : in_line k a → getOffset k blkSize = addr k - a ∧ 0 ≤ addr k - a.
Proof using G.
  intros [_ [Ha _] <- _ _]. pose proof (geo_n _ _ _ G). pose proof (geo_pos_blk _ _ _ G).
  unfold getOffset. rewrite (geo_blk _ _ _ G), land_ones', (blkAlign_eq _ _ _ G) by lia.
  pose proof (Z.div_mod (addr k) (2 ^ n)). pose proof (Z.mod_pos_bound (addr k) (2 ^ n)). lia.
Qed.

Lemma in_line_aligned k a : in_line k a → aligned a.
Proof using G.
  intros [_ [Ha Ha'] <- _ _]. pose proof (geo_pos_blk _ _ _ G). unfold aligned.
  rewrite (blkAlign_eq _ _ _ G), (blkAlign_eq _ _ _ G), Z.div_mul by lia. split; [|done].
  pose proof (Z.mul_div_le (addr k) (2 ^ n) ltac:(lia)). assert (0 ≤ addr k / 2 ^ n) by (apply Z.div_pos; lia). nia.
Qed.

(** The offset of a packet in a block, and its end. *)
Definition off (k : Pkt) (a : Z) : nat := Z.to_nat (addr k - a).

Lemma points_data c a p b : cache_ok c → points c a p b → Z.of_nat (length (CacheBlk.data b)) = blkSize.
Proof. intros C (i & _ & Hi). apply (bw_data _ _ _ _ _ (points_wf _ _ _ _ C Hi)). Qed.

(** A read gets the bytes of the line. *)
Lemma setDataFromBlock_ok k a d bs :
  in_line k a → data k = Some d → isMaskedWrite k = false → Z.of_nat (length bs) = blkSize →
  setDataFromBlock k bs blkSize = Ok (set_data (Some (slice (off k a) (Z.to_nat (size k)) bs)) k).
Proof using G.
  intros Hk Hd Hm Hb. destruct (in_line_offset _ _ Hk) as [Ho ?]. pose proof (il_size _ _ Hk). pose proof (il_fit _ _ Hk).
  unfold setDataFromBlock, setData, getPtr, getConstPtr. rewrite Hd, Hm, Ho. cbn [of_option mbind res_bind].
  by rewrite copy_out_ok by lia.
Qed.

(** A write puts its bytes into the line. *)
Lemma writeDataToBlock_ok k a d bs :
  in_line k a → data k = Some d → Z.of_nat (length d) = size k → isMaskedWrite k = false → Z.of_nat (length bs) = blkSize →
  writeDataToBlock k bs blkSize = Ok (splice (off k a) d bs).
Proof using G.
  intros Hk Hd Hl Hm Hb. destruct (in_line_offset _ _ Hk) as [Ho ?]. pose proof (il_fit _ _ Hk).
  unfold writeDataToBlock, writeData, getConstPtr. rewrite Hd, Hm, Ho. cbn [of_option mbind res_bind].
  rewrite copy_out_ok by lia. cbn [mbind res_bind]. rewrite copy_in_ok; [|lia|].
  - f_equal. f_equal. unfold slice. change (Z.to_nat 0) with 0%nat. rewrite drop_0. apply firstn_all2. lia.
  - rewrite slice_length; lia.
Qed.

Lemma clear_locks_total r ls : contextId r ≠ InvalidContextID → ∃ ls', CacheBlk.clear_locks r ls = Ok ls'.
Proof.
  intros Hr. induction ls as [|l ls [ls' IH]]; [by exists []|]. cbn [CacheBlk.clear_locks]. rewrite IH.
  unfold CacheBlk.context. rewrite (proj2 (Z.eqb_neq _ _)) by done. destruct (CacheBlk.intersects l r); simpl; eauto.
Qed.
Lemma take_lock_total r ls : contextId r ≠ InvalidContextID → ∃ p, CacheBlk.take_lock r ls = Ok p.
Proof.
  intros Hr. induction ls as [|l ls [p IH]]; [by eexists|]. cbn [CacheBlk.take_lock]. rewrite IH.
  unfold CacheBlk.matches, CacheBlk.context. rewrite (proj2 (Z.eqb_neq _ _)) by done. cbn [mbind res_bind].
  destruct (_ && _); simpl; eauto.
Qed.

(** Requests that use locks have a context; so has every request, when there are
    locks at all. *)
Definition locks_fine (k : Pkt) : Prop :=
  if locking then contextId (req k) ≠ InvalidContextID else isLLSC (cmd k) = false.

Lemma checkWrite_total k b :
  isWrite (cmd k) = true → locks_fine k → blk_ok b →
  ∃ ok k' l, CacheBlk.checkWrite k b = Ok (ok, k', CacheBlk.set_lockList l b) ∧ (locking = false → l = []) ∧
    (if isLLSC (cmd k) then k' = set_extraData (Z.b2z ok) k else ok = true ∧ k' = k).
Proof.
  intros Hw Hf (_ & _ & Hl). unfold CacheBlk.checkWrite. rewrite Hw. cbn [negb].
  assert (∀ x, CacheBlk.set_lockList (CacheBlk.lockList x) x = x) as Hid by (by intros []).
  destruct (isLLSC (cmd k)) eqn:Hsc; cbn [negb andb].
  - unfold locks_fine in Hf. rewrite Hsc in Hf. destruct locking; [|done].
    destruct (take_lock_total (req k) (CacheBlk.lockList b) Hf) as ([m ls] & ->). cbn [mbind res_bind fst snd].
    unfold CacheBlk.clearLoadLocks. simpl. destruct (clear_locks_total (req k) ls Hf) as (ls' & ->). cbn [mbind res_bind].
    by eexists m, _, ls'.
  - case_bool_decide as E.
    + exists true, k, []. split; [by rewrite <-E, Hid|done].
    + unfold locks_fine in Hf. destruct locking; [|by destruct E; auto]. unfold CacheBlk.clearLoadLocks.
      destruct (clear_locks_total (req k) (CacheBlk.lockList b) Hf) as (ls' & ->). cbn [mbind res_bind]. by eexists _, _, ls'.
Qed.

Lemma satisfyRequest_read c k a p b d :
  cache_ok c → points c a p b → in_line k a → data k = Some d → cmd k = ReadReq ∨ cmd k = LoadLockedReq → locks_fine k →
  ∃ c', satisfyRequest P k p false false c =
      Ok (set_data (Some (slice (off k a) (Z.to_nat (size k)) (CacheBlk.data b))) k, c') ∧
    cache_ok c' ∧ (∀ a', view c' a' = view c a') ∧ ∃ b', points c' a p b' ∧ abs b' = abs b.
Proof using G.
  intros C Hp Hk Hd Hc Hf. pose proof (points_data _ _ _ _ C Hp) as Hl. pose proof Hp as (i & _ & (_ & Hv & _)).
  pose proof (points_view _ _ _ _ C Hp) as Hview. destruct (in_line_offset _ _ Hk) as [Ho _].
  assert (isMaskedWrite k = false) as Hm by (unfold isMaskedWrite; by destruct Hc as [-> | ->]).
  assert (∃ c', when (isLLSC (cmd k)) (upd_blk p (CacheBlk.trackLoadLocked k)) c = Ok (tt, c') ∧ cache_ok c' ∧
    (∀ a', view c' a' = view c a') ∧ ∃ b', points c' a p b' ∧ abs b' = abs b) as (c' & Hll & C' & Hv' & Hb').
  { destruct Hc as [E|E]; rewrite E; [exists c; split; [reflexivity|]; split; [done|]; split; [done|]; by exists b|]. change (isLLSC LoadLockedReq) with true. cbn [when].
    unfold locks_fine in Hf. rewrite E in Hf. destruct locking eqn:EL; [|done].
    assert (∃ l, CacheBlk.trackLoadLocked k b = Ok (CacheBlk.set_lockList l b)) as (l & Hl').
    { unfold CacheBlk.trackLoadLocked, CacheBlk.new_lock, CacheBlk.context. rewrite E, (proj2 (Z.eqb_neq _ _)) by done. by eexists. }
    destruct (upd_points c a p b _ _ C Hp Hl') as (c' & ? & ? & Hp' & Hview'); [apply keeps_locks; by rewrite EL|].
    exists c'. split; [done|]. split; [done|]. split; [|eauto]. intros a'. rewrite Hview'. by apply upd_same. }
  exists c'. split; [|done].
  assert (satisfyRequest_base P k p c = Ok (set_data (Some (slice (off k a) (Z.to_nat (size k)) (CacheBlk.data b))) k, c')) as Hb.
  { unfold satisfyRequest_base. assert (isRequest (cmd k) = true ∧ (cmd k ≠ SwapReq) ∧ isWrite (cmd k) = false ∧
      isRead (cmd k) = true ∧ hasRespData k = true) as (E1 & E2 & E3 & E4 & E5).
    { unfold hasRespData. by destruct Hc as [-> | ->]. }
    rewrite E1. rewrite (M_bind_ok _ _ _ tt c) by done. rewrite (M_bind_ok _ _ _ _ _ (get_points _ _ _ _ Hp)), Hv.
    rewrite (M_bind_ok _ _ _ tt c) by done. rewrite Ho, (proj2 (Z.leb_le _ _)) by apply (il_fit _ _ Hk).
    rewrite (M_bind_ok _ _ _ tt c) by done. rewrite bool_decide_false, E3, E4 by done.
    rewrite (M_bind_ok _ _ _ _ _ Hll), E5. rewrite (M_bind_ok _ _ _ tt c') by done.
    apply lift_ok. by eapply setDataFromBlock_ok. }
  unfold satisfyRequest. rewrite (M_bind_ok _ _ _ _ _ Hb). cbn [cmd set_data].
  by destruct Hc as [-> | ->].
Qed.

Lemma satisfyRequest_write c k a p b d :
  cache_ok c → points c a p b → in_line k a → data k = Some d → Z.of_nat (length d) = size k → isMaskedWrite k = false →
  cmd k = WriteReq ∨ cmd k = WriteLineReq ∨ cmd k = StoreCondReq → locks_fine k → writable (abs b) = true →
  ∃ ok k' c', satisfyRequest P k p false false c = Ok (k', c') ∧ cache_ok c' ∧
    (∀ a', view c' a' = upd (view c) a
       (Some (mkLine true true (if (ok : bool) then splice (off k a) d (CacheBlk.data b) else CacheBlk.data b))) a') ∧
    (∃ b', points c' a p b') ∧ (if isLLSC (cmd k) then k' = set_extraData (Z.b2z ok) k else ok = true ∧ k' = k).
Proof using G.
  intros C Hp Hk Hd Hdl Hm Hc Hf HW. pose proof (points_data _ _ _ _ C Hp) as Hl. pose proof Hp as (i & _ & (Hi & Hv & _)).
  destruct (in_line_offset _ _ Hk) as [Ho Hoff]. pose proof (il_fit _ _ Hk).
  assert (isRequest (cmd k) = true ∧ (cmd k ≠ SwapReq) ∧ isWrite (cmd k) = true ∧ isRead (cmd k) = false) as (E1 & E2 & E3 & E4).
  { by destruct Hc as [-> |[-> | ->]]. }
  destruct (checkWrite_total k b E3 Hf) as (ok & k' & l & Hcw & Hll & Hk'); [by apply (co_blk _ C i b)|].
  assert (cmd k' = cmd k ∧ in_line k' a ∧ data k' = Some d ∧ size k' = size k ∧ isMaskedWrite k' = false ∧ off k' a = off k a) as
    (Ec & Hk2 & Hd2 & Hs2 & Hm2 & Ho2).
  { destruct (isLLSC (cmd k)); [subst k'|destruct Hk' as [_ ->]]; split_and!; try done. by destruct Hk; split. }
  destruct (put_points c a p b (CacheBlk.set_lockList l b) C Hp) as (c1 & H1 & C1 & Hp1 & V1); [apply keeps_locks; auto|].
  assert (∃ c2 b2, when ok (updateBlockData P p (Some k')) c1 = Ok (tt, c2) ∧ cache_ok c2 ∧ points c2 a p b2 ∧
    abs b2 = mkLine true (dirty (abs b)) (if ok then splice (off k a) d (CacheBlk.data b) else CacheBlk.data b) ∧
    (∀ a', view c2 a' = upd (view c) a (Some (abs b2)) a')) as (c2 & b2 & H2 & C2 & Hp2 & Habs & V2).
  { destruct ok; cbn [when].
    - unfold updateBlockData.
      set (f := λ b : CacheBlk.CacheBlk, d ← writeDataToBlock k' (CacheBlk.data b) blkSize; Ok (CacheBlk.set_data d b)).
      assert (f (CacheBlk.set_lockList l b) = Ok (CacheBlk.set_data (splice (off k a) d (CacheBlk.data b)) (CacheBlk.set_lockList l b))) as Ef.
      { unfold f. rewrite (writeDataToBlock_ok k' a d) by (try done; by rewrite Hs2). by rewrite Ho2. }
      destruct (upd_points c1 a p _ f _ C1 Hp1 Ef) as (c2 & H2 & C2 & Hp2 & V2).
      { apply keeps_data, splice_length. unfold off. simpl. lia. }
      eexists c2, _. split; [done|]. split; [done|]. split; [done|]. split; [|intros a'; rewrite V2; unfold upd; case_decide; [done|];
        rewrite V1; by apply upd_ne]. unfold abs in *. simpl in *. by rewrite <-HW.
    - exists c1, (CacheBlk.set_lockList l b). split; [done|]. split; [done|]. split; [done|]. split; [|done]. unfold abs in *. simpl in *. by rewrite <-HW. }
  destruct (upd_points c2 a p b2 _ _ C2 Hp2 (setCoherenceBits_ok CacheBlk.DirtyBit b2 ltac:(by destruct Hp2 as (? & _ & (_ & ? & _)))))
    as (c3 & H3 & C3 & Hp3 & V3); [apply keeps_set; set_solver|].
  exists ok, k', c3. split; [|split; [done|]; split; [|eauto]].
  - unfold satisfyRequest. assert (satisfyRequest_base P k p c = Ok (k', c3)) as Hb.
    { unfold satisfyRequest_base. rewrite E1. rewrite (M_bind_ok _ _ _ tt c) by done.
      rewrite (M_bind_ok _ _ _ _ _ (get_points _ _ _ _ Hp)), Hv. rewrite (M_bind_ok _ _ _ tt c) by done.
      rewrite Ho, (proj2 (Z.leb_le _ _)) by done. rewrite (M_bind_ok _ _ _ tt c) by done. rewrite bool_decide_false, E3 by done.
      rewrite isSet_has, Hv. change (has CacheBlk.WritableBit b) with (writable (abs b)). rewrite HW.
      rewrite (M_bind_ok _ _ _ tt c) by done. rewrite (M_bind_ok _ _ _ _ _ (lift_ok _ _ c Hcw)).
      rewrite (M_bind_ok _ _ _ _ _ H1), (M_bind_ok _ _ _ _ _ H2), (M_bind_ok _ _ _ _ _ H3). done. }
    rewrite (M_bind_ok _ _ _ _ _ Hb), Ec, E4. done.
  - intros a'. rewrite V3. unfold upd. case_decide; [|rewrite V2; by apply upd_ne]. f_equal.
    rewrite (proj2 (set_D b2)), Habs. done.
Qed.

(** ** Evictions *)

Lemma regenerate_points c a p b : points c a p b → regenerateBlkAddr P p c = Ok (a, c).
Proof.
  intros Hp. unfold regenerateBlkAddr. rewrite (M_bind_ok _ _ _ _ _ (get_points _ _ _ _ Hp)).
  destruct Hp as (i & -> & (_ & _ & _ & <-)). done.
Qed.

(** The packet that carries an evicted line. *)
Record evicts (wb : Pkt) (v : Z) (l : Line) : Prop := {
  ev_addr : addr wb = v;
  ev_secure : isSecure wb = false;
  ev_size : size wb = blkSize;
  ev_req : req wb = mkReq v blkSize false InvalidContextID false false false false false false [] None false;
  ev_flags : cacheResponding wb = false ∧ blockCached wb = false ∧ satisfied wb = false;
  ev_dirty : dirty l = true → cmd wb = WritebackDirty ∧ data wb = Some (bytes l);
  ev_clean : dirty l = false → cmd wb = CleanEvict ∨ cmd wb = WritebackClean;
}.

Lemma aligned_offset a : aligned a → Z.land a (blkSize - 1) = 0.
Proof using G.
  intros [Ha E]. pose proof (geo_n _ _ _ G). pose proof (geo_pos_blk _ _ _ G). rewrite (geo_blk _ _ _ G), land_ones' by lia.
  rewrite <-E, (blkAlign_eq _ _ _ G). apply Z.mod_mul. lia.
Qed.

Lemma blkSize_pos : 4 ≤ blkSize.
Proof using G.
  rewrite (geo_blk _ _ _ G). change 4 with (2 ^ 2). apply Z.pow_le_mono_r; [lia|apply (geo_n _ _ _ G)].
Qed.

(** The whole line goes into a packet of the cache. *)
Lemma setDataFromBlock_all k d bs :
  aligned (addr k) → size k = blkSize → data k = Some d → isMaskedWrite k = false → Z.of_nat (length bs) = blkSize →
  setDataFromBlock k bs blkSize = Ok (set_data (Some bs) k).
Proof using G.
  intros Ha Hs Hd Hm Hl. pose proof blkSize_pos. unfold setDataFromBlock, setData, getPtr, getConstPtr, getOffset.
  rewrite Hd, Hm, (aligned_offset _ Ha), Hs. cbn [of_option mbind res_bind]. rewrite copy_out_ok by lia. cbn [mbind res_bind].
  do 3 f_equal. rewrite <-Hl, Nat2Z.id. apply slice_all.
Qed.

Lemma pass_block_ok c a p b k :
  cache_ok c → points c a p b → addr k = a → size k = blkSize → data k = None → hasData (cmd k) = true → cmd k ≠ WriteReq →
  ∃ b' k' c', pass_block P p k c = Ok (k', c') ∧ cache_ok c' ∧ points c' a p b' ∧ CacheBlk.set_index b' = CacheBlk.set_index b ∧
    (∀ a', view c' a' = upd (view c) a (Some (abs b')) a') ∧
    k' = set_data (Some (CacheBlk.data b)) (if CacheBlk.isSet CacheBlk.WritableBit b then k else setHasSharers k).
Proof using G.
  intros C Hp Ha Hs Hd Hh Hc. unfold pass_block. rewrite (M_bind_ok _ _ _ _ _ (get_points _ _ _ _ Hp)).
  set (b1 := if CacheBlk.isSet CacheBlk.WritableBit b then CacheBlk.clearCoherenceBits CacheBlk.WritableBit b else b).
  set (k1 := if CacheBlk.isSet CacheBlk.WritableBit b then k else setHasSharers k).
  destruct (put_points c a p b (CacheBlk.clearCoherenceBits CacheBlk.DirtyBit b1) C Hp) as (c' & Hput & C' & Hp' & V).
  { apply (keeps_line_trans _ b1); [|apply keeps_clear; set_solver]. unfold b1. destruct (CacheBlk.isSet _ _); [apply keeps_clear; set_solver|].
    intros i ? ? ?. done. }
  rewrite (M_bind_ok _ _ _ _ _ Hput).
  assert (allocate k1 = Ok (set_data (Some (replicate (Z.to_nat blkSize) 0)) k1)) as Hal.
  { unfold allocate. replace (hasData (cmd k1)) with true by (unfold k1; destruct (CacheBlk.isSet _ _); simpl; congruence).
    cbn [orb]. replace (data k1) with (@None (list Z)) by (unfold k1; destruct (CacheBlk.isSet _ _); simpl; congruence).
    replace (size k1) with blkSize by (unfold k1; destruct (CacheBlk.isSet _ _); simpl; congruence). done. }
  rewrite (M_bind_ok _ _ _ _ _ (lift_ok _ _ c' Hal)).
  eexists _, _, c'. split; [apply lift_ok; eapply setDataFromBlock_all; try done|].
  - replace (addr _) with a; [by eapply points_aligned|]. unfold k1. destruct (CacheBlk.isSet _ _); simpl; congruence.
  - unfold k1. by destruct (CacheBlk.isSet _ _).
  - unfold isMaskedWrite. rewrite bool_decide_false; [done|]. unfold k1. by destruct (CacheBlk.isSet _ _).
  - replace (CacheBlk.data b1) with (CacheBlk.data b) by (unfold b1; by destruct (CacheBlk.isSet _ _)). exact (points_data _ _ _ _ C Hp).
  - split; [done|]. split; [done|]. split; [simpl; unfold b1; by destruct (CacheBlk.isSet _ _)|]. split; [done|].
    replace (CacheBlk.data b1) with (CacheBlk.data b) by (unfold b1; by destruct (CacheBlk.isSet _ _)).
    unfold k1. by destruct (CacheBlk.isSet _ _).
Qed.

Context (rw : isReadOnly P = false).

Lemma evictBlock_ok c v p b :
  cache_ok c → points c v p b →
  ∃ wb c', evictBlock P p c = Ok (wb, c') ∧ cache_ok c' ∧ (∀ a', view c' a' = upd (view c) v None a') ∧
    evicts wb v (abs b) ∧ free_blk c' p b.
Proof using G rw.
  intros C Hp. pose proof Hp as (i & Ei & (_ & Hv & Hsec & _)). unfold evictBlock.
  rewrite (M_bind_ok _ _ _ _ _ (get_points _ _ _ _ Hp)). rewrite isSet_has, Hv. cbn [andb].
  change (has CacheBlk.DirtyBit b) with (dirty (abs b)).
  assert (∃ b1 wb c1, (if dirty (abs b) || writebackClean P then writebackBlk P p else cleanEvictBlk P p) c = Ok (wb, c1) ∧
    cache_ok c1 ∧ points c1 v p b1 ∧ CacheBlk.set_index b1 = CacheBlk.set_index b ∧ (∀ a', a' ≠ v → view c1 a' = view c a') ∧
    evicts wb v (abs b)) as (b1 & wb & c1 & H1 & C1 & Hp1 & Hset & V1 & He).
  { destruct (dirty (abs b) || writebackClean P) eqn:Hwb.
    - unfold writebackBlk. rewrite rw. rewrite (M_bind_ok _ _ _ tt c) by done. rewrite (M_bind_ok _ _ _ _ _ (get_points _ _ _ _ Hp)).
      rewrite isSet_has, Hv. cbn [andb]. change (has CacheBlk.DirtyBit b) with (dirty (abs b)). rewrite Hwb.
      rewrite (M_bind_ok _ _ _ tt c) by done. rewrite (M_bind_ok _ _ _ _ _ (regenerate_points _ _ _ _ Hp)).
      edestruct (pass_block_ok c v p b) as (b' & k' & c' & E & C' & Hp' & Hset & V' & Hk'); [done|done|..|rewrite E; eexists b', k', c';
        split; [done|]; split; [done|]; split; [done|]; split; [done|]; split; [intros a' ?; rewrite V'; by apply upd_ne|]].
      1-3: done.
      + cbn [cmd CachePkt.new]. by destruct (dirty (abs b)).
      + cbn [cmd CachePkt.new]. by destruct (dirty (abs b)).
      + rewrite Hk'. unfold block_request. rewrite Hsec.
        destruct (CacheBlk.isSet _ _); split; try done; cbn [cmd CachePkt.new set_data setHasSharers]; intros ->; first [done|by right].
    - apply orb_false_iff in Hwb as [Hd Hw]. unfold cleanEvictBlk. rewrite Hw. rewrite (M_bind_ok _ _ _ tt c) by done.
      rewrite (M_bind_ok _ _ _ _ _ (get_points _ _ _ _ Hp)). rewrite isSet_has, Hv. cbn [andb].
      change (has CacheBlk.DirtyBit b) with (dirty (abs b)). rewrite Hd. rewrite (M_bind_ok _ _ _ tt c) by done.
      rewrite (M_bind_ok _ _ _ _ _ (regenerate_points _ _ _ _ Hp)). eexists b, _, c. split; [apply lift_ok; reflexivity|].
      split; [done|]. split; [done|]. split; [done|]. split; [done|]. unfold block_request. rewrite Hsec. split; try done; [by rewrite Hd|by left]. }
  rewrite (M_bind_ok _ _ _ _ _ H1). destruct (invalidateBlock_ok c1 v p b1 C1 Hp1) as (c2 & H2 & C2 & V2 & Hf).
  rewrite (M_bind_ok _ _ _ _ _ H2). exists wb, c2. split; [done|]. split; [done|]. split.
  - intros a'. rewrite V2. unfold upd. case_decide; [done|]. by apply V1.
  - split; [done|]. destruct Hf as (j & b' & ? & ? & ? & ?). exists j, b'. split_and!; [done..|congruence].
Qed.

(** ** Fills *)

(** The block after [fill_state]. *)
Definition filled (k : Pkt) (b : CacheBlk.CacheBlk) : CacheBlk.CacheBlk :=
  let b := set_bits CacheBlk.ReadableBit b in
  if hasSharers k then b else
  let b := set_bits CacheBlk.WritableBit b in
  if cacheResponding k then set_bits CacheBlk.DirtyBit b else b.

Lemma fill_state_ok k b :
  CacheBlk.valid b = true → (cmd k = InvalidateResp → hasSharers k = false) → fill_state P k b = Ok (filled k b).
Proof using rw.
  intros Hv Hk. unfold fill_state. rewrite setCoherenceBits_ok by done. cbn [mbind res_bind].
  assert (bool_decide (cmd k = InvalidateResp) && hasSharers k = false) as ->.
  { case_bool_decide as E; [by rewrite (Hk E)|done]. }
  unfold filled. destruct (hasSharers k); [done|]. rewrite setCoherenceBits_ok by done. cbn [mbind res_bind].
  destruct (cacheResponding k); [|done]. rewrite setCoherenceBits_ok by done. cbn [mbind res_bind]. by rewrite rw.
Qed.

Lemma filled_abs k b : has CacheBlk.ReadableBit (filled k b) = true ∧
  abs (filled k b) = if hasSharers k then abs b else mkLine true (dirty (abs b) || cacheResponding k) (bytes (abs b)).
Proof.
  unfold filled. destruct (hasSharers k); [apply set_R|]. destruct (cacheResponding k).
  - destruct (set_D (set_bits CacheBlk.WritableBit (set_bits CacheBlk.ReadableBit b))) as [-> ->].
    destruct (set_W (set_bits CacheBlk.ReadableBit b)) as [-> ->]. destruct (set_R b) as [-> ->]. simpl. by rewrite orb_true_r.
  - destruct (set_W (set_bits CacheBlk.ReadableBit b)) as [-> ->]. destruct (set_R b) as [-> ->]. simpl. by rewrite orb_false_r.
Qed.

(** A fill keeps everything else. *)
Lemma filled_same k b : CacheBlk.valid (filled k b) = CacheBlk.valid b ∧ CacheBlk.secure (filled k b) = CacheBlk.secure b ∧
  CacheBlk.tag (filled k b) = CacheBlk.tag b ∧ CacheBlk.set_index (filled k b) = CacheBlk.set_index b ∧
  CacheBlk.lockList (filled k b) = CacheBlk.lockList b.
Proof. unfold filled. by destruct (hasSharers k), (cacheResponding k). Qed.

Lemma filled_wf i k b : blk_wf i b → CacheBlk.valid b = true → blk_wf i (filled k b).
Proof.
  intros W Hv. unfold filled. destruct (hasSharers k); [by apply blk_wf_set|].
  destruct (cacheResponding k); repeat (apply blk_wf_set; [|done|done]); done.
Qed.

(** What arrives in response to a request of the cache. *)
Record bus_response (k : Pkt) (a : Z) : Prop := {
  br_addr : addr k = a;
  br_secure : isSecure k = false;
  br_response : isResponse (cmd k) = true;
  br_sharers : cmd k = InvalidateResp → hasSharers k = false;
}.

Lemma getBlockAddr_aligned k a : aligned a → addr k = a → getBlockAddr k blkSize = a.
Proof. intros [_ E] Ha. unfold getBlockAddr. by rewrite Ha. Qed.

(** The checks of a fill and its change of the state. *)
Lemma fill_checks k a p b wbs c c' :
  bus_response k a → get_blk p c = Ok (b, c) → regenerateBlkAddr P p c = Ok (a, c) →
  CacheBlk.valid b = true → CacheBlk.secure b = false → put_blk p (filled k b) c = Ok (tt, c') →
  (b ← get_blk p;
   a ← regenerateBlkAddr P p;
   massert "blk->isValid()" (CacheBlk.valid b) ;;
   massert "blk->isSecure() == is_secure" (Bool.eqb (CacheBlk.secure b) (isSecure k)) ;;
   massert "regenerateBlkAddr(blk) == addr" (a =? addr k) ;;
   upd_blk p (fill_state P k) ;;
   when (isRead (cmd k))
     (massert "pkt->hasData()" (hasData (cmd k)) ;;
      massert "pkt->getSize() == blkSize" (size k =? blkSize) ;;
      updateBlockData P p (Some k)) ;;
   mret (p, wbs)) c =
  (when (isRead (cmd k))
     (massert "pkt->hasData()" (hasData (cmd k)) ;;
      massert "pkt->getSize() == blkSize" (size k =? blkSize) ;;
      updateBlockData P p (Some k)) ;;
   mret (p, wbs) : M Cache (BlkPtr * list Pkt)) c'.
Proof using rw.
  intros [Ha Hs Hr Hsh] Hget Hreg Hv Hsec Hput. rewrite (M_bind_ok _ _ _ _ _ Hget), (M_bind_ok _ _ _ _ _ Hreg), Hv, Hsec, Hs, Ha, Z.eqb_refl.
  do 3 rewrite (M_bind_ok _ _ _ tt c) by done. unfold upd_blk.
  rewrite (M_bind_ok _ _ _ tt c'); [done|]. rewrite (M_bind_ok _ _ _ _ _ Hget).
  rewrite (M_bind_ok _ _ _ _ _ (lift_ok _ _ c (fill_state_ok k b Hv Hsh))). done.
Qed.

Lemma handleFill_start k blk alloc a c :
  bus_response k a → aligned a →
  handleFill P now k blk alloc c =
  (r ← match blk with
      | Some p => mret (p, [])
      | None =>
          massert "pkt->hasData() || pkt->cmd == MemCmd::InvalidateResp" (hasData (cmd k) || bool_decide (cmd k = InvalidateResp)) ;;
          if alloc then allocateBlock P now k else insertTemp (addr k) (isSecure k) ;; mret (Temp, [])
      end;
  let '(p, wbs) := r in
  b ← get_blk p;
  a ← regenerateBlkAddr P p;
  massert "blk->isValid()" (CacheBlk.valid b) ;;
  massert "blk->isSecure() == is_secure" (Bool.eqb (CacheBlk.secure b) (isSecure k)) ;;
  massert "regenerateBlkAddr(blk) == addr" (a =? addr k) ;;
  upd_blk p (fill_state P k) ;;
  when (isRead (cmd k))
    (massert "pkt->hasData()" (hasData (cmd k)) ;;
     massert "pkt->getSize() == blkSize" (size k =? blkSize) ;;
     updateBlockData P p (Some k)) ;;
  mret (p, wbs)) c.
Proof.
  intros [Ha Hs Hr Hsh] Hal. unfold handleFill. rewrite Hr. rewrite (M_bind_ok _ _ _ tt c) by done.
  rewrite (getBlockAddr_aligned k a), Ha, Z.eqb_refl by done. by rewrite (M_bind_ok _ _ _ tt c) by done.
Qed.

(** An upgrade: the block stays and gets its new state. *)
Lemma handleFill_upgrade c k a p b alloc :
  cache_ok c → points c a p b → bus_response k a → isRead (cmd k) = false →
  ∃ c' b', handleFill P now k (Some p) alloc c = Ok ((p, []), c') ∧ cache_ok c' ∧ points c' a p b' ∧
    abs b' = (if hasSharers k then abs b else mkLine true (dirty (abs b) || cacheResponding k) (bytes (abs b))) ∧
    (∀ a', view c' a' = upd (view c) a (Some (abs b')) a').
Proof using G rw.
  intros C Hp Hk Hr. pose proof (points_aligned _ _ _ _ C Hp) as Hal. pose proof Hp as (i & _ & (Hi & Hv & Hsec & _)).
  destruct (put_points c a p b (filled k b) C Hp) as (c' & Hput & C' & Hp' & V).
  { intros j W _ (Hs & _ & Hl). destruct (filled_same k b) as (E1 & E2 & E3 & E4 & E5). split; [by apply filled_wf|].
    rewrite E1. split_and!; try done. split_and!; [congruence|apply filled_abs|by rewrite E5]. }
  exists c', (filled k b). rewrite (handleFill_start k (Some p) alloc a c Hk Hal). rewrite (M_bind_ok _ _ _ (p, []) c) by done. cbn iota beta.
  rewrite (fill_checks k a p b [] c c' Hk (get_points _ _ _ _ Hp) (regenerate_points _ _ _ _ Hp) Hv Hsec Hput).
  rewrite Hr. split; [done|]. split; [done|]. split; [done|]. split; [apply filled_abs|done].
Qed.

(** A victim may be evicted. *)
Definition makes_room (wbs : list Pkt) (f f' : Z → option Line) : Prop :=
  (wbs = [] ∧ ∀ a, f' a = f a) ∨
  ∃ wb v l, wbs = [wb] ∧ f v = Some l ∧ evicts wb v l ∧ ∀ a, f' a = upd f v None a.

Lemma room_ok c i b :
  cache_ok c → blks c !! i = Some b →
  ∃ wbs c1 b1, handleEvictions P [i] c = Ok (wbs, c1) ∧ cache_ok c1 ∧ makes_room wbs (view c) (view c1) ∧
    blks c1 !! i = Some b1 ∧ CacheBlk.valid b1 = false ∧ CacheBlk.set_index b1 = CacheBlk.set_index b.
Proof using G rw.
  intros C Hi. cbn [handleEvictions]. rewrite (M_bind_ok _ _ _ b c) by (unfold get_blk; by rewrite Hi).
  destruct (CacheBlk.valid b) eqn:Hv.
  - assert (points c (Tags.regenerateBlkAddr (tp P) b) (InTags i) b) as Hp.
    { exists i. split; [done|]. split_and!; try done. by apply (co_blk _ C i b). }
    destruct (evictBlock_ok c _ _ b C Hp) as (wb & c1 & He & C1 & V1 & Hev & (j & b1 & [= <-] & Hj & Hv1 & Hset)).
    exists [wb], c1, b1. rewrite (M_bind_ok _ _ _ [wb] c1).
    + split; [done|]. split; [done|]. split; [|done]. right. eexists wb, _, (abs b). split; [done|]. split; [|done]. by eapply points_view.
    + by rewrite (M_bind_ok _ _ _ _ _ He).
  - exists [], c, b. split; [done|]. split; [done|]. split; [by left|done].
Qed.

Lemma findBlock_none c a : cache_ok c → aligned a → view c a = None → Tags.findBlock (tp P) a false (blks c) = None.
Proof using G.
  intros C Hal Hn. destruct (Tags.findBlock (tp P) a false (blks c)) as [i|] eqn:E; [|done]. exfalso.
  pose proof (findBlock_spec _ _ _ G _ a false (co_wf _ C) (proj1 Hal)) as H. rewrite E in H. destruct H as (b & Hb). rewrite (proj2 Hal) in Hb.
  assert (view c a = Some (abs b)) by (eapply points_view; [done|by exists i]). congruence.
Qed.

Lemma allocateBlock_ok c k a :
  cache_ok c → view c a = None → addr k = a → aligned a → isSecure k = false →
  ∃ i wbs c1 b1 b2, allocateBlock P now k c = Ok ((InTags i, wbs), set_blks (<[i := b2]> (blks c1)) c1) ∧
    cache_ok c1 ∧ makes_room wbs (view c) (view c1) ∧ view c1 a = None ∧ blks c1 !! i = Some b1 ∧ CacheBlk.valid b1 = false ∧
    wf (<[i := b2]> (blks c1)) ∧ CacheBlk.valid b2 = true ∧ CacheBlk.secure b2 = false ∧
    Tags.regenerateBlkAddr (tp P) b2 = a ∧ CacheBlk.coherence b2 = 0 ∧ CacheBlk.lockList b2 = [].
Proof using G rw.
  intros C Hn Ha Hal Hs. unfold allocateBlock. rewrite (M_bind_ok _ _ _ c c) by done.
  destruct (findVictim_spec _ _ _ G (blks c) (addr k) (co_wf _ C)) as (i & b & Hvic & Hi & Hset & _).
  rewrite (M_bind_ok _ _ _ _ _ (lift_ok _ _ c Hvic)).
  destruct (room_ok c i b C Hi) as (wbs & c1 & b1 & He & C1 & Hroom & Hi1 & Hv1 & Hset1). rewrite (M_bind_ok _ _ _ _ _ He).
  assert (view c1 a = None) as Hn1.
  { destruct Hroom as [[_ ->]|(wb & v & l & _ & _ & _ & ->)]; [done|]. unfold upd. by case_decide. }
  assert (∃ bs, Tags.insertBlock (tp P) now a false i (blks c1) = Ok bs) as (bs & Hins).
  { unfold Tags.insertBlock, CacheBlk.insert. rewrite Hi1. cbn [of_option mbind res_bind]. rewrite Hv1. by eexists. }
  rewrite Ha in Hset.
  destruct (wf_inserted _ _ _ G (blks c1) now a false i b1 bs (co_wf _ C1) (proj1 Hal) (findBlock_none _ _ C1 Hal Hn1) Hi1 ltac:(congruence) Hins)
    as (W2 & b2 & -> & Hv2 & Hs2 & Hr2 & Hc2 & _ & Hl2). rewrite (proj2 Hal) in Hr2.
  exists i, wbs, c1, b1, b2. split; [|done].
  unfold on_blks, mbind, M_bind. rewrite Ha, Hs, Hins. done.
Qed.

(** A line that was not there arrives. *)
Lemma handleFill_new c k a d :
  cache_ok c → view c a = None → aligned a → bus_response k a →
  cmd k = InvalidateResp ∨ isRead (cmd k) = true ∧ hasData (cmd k) = true ∧ size k = blkSize ∧ data k = Some d ∧
    Z.of_nat (length d) = blkSize ∧ cmd k ≠ WriteReq →
  ∃ p wbs f c' b', handleFill P now k None true c = Ok ((p, wbs), c') ∧ cache_ok c' ∧ points c' a p b' ∧
    makes_room wbs (view c) f ∧ f a = None ∧
    writable (abs b') = negb (hasSharers k) ∧ dirty (abs b') = (negb (hasSharers k) && cacheResponding k) ∧
    (isRead (cmd k) = true → bytes (abs b') = d) ∧
    (∀ a', view c' a' = upd f a (Some (abs b')) a').
Proof using G rw.
  intros C Hn Hal Hk Hcmd. destruct (allocateBlock_ok c k a C Hn (br_addr _ _ Hk) Hal (br_secure _ _ Hk))
    as (i & wbs & c1 & b1 & b2 & Hall & C1 & Hroom & Hn1 & Hi1 & Hv1 & W2 & Hv2 & Hs2 & Hr2 & Hc2 & Hl2).
  assert (i < length (blks c1))%nat as Hlt by (by eapply lookup_lt_Some).
  set (b3 := filled k b2). destruct (filled_same k b2) as (E1 & E2 & E3 & E4 & E5). fold b3 in E1, E2, E3, E4, E5.
  set (c2 := set_blks (<[i := b2]> (blks c1)) c1) in *. set (c3 := set_blks (<[i := b3]> (blks c1)) c1).
  assert (put_blk (InTags i) b3 c2 = Ok (tt, c3)) as Hput.
  { unfold put_blk, c2, c3. simpl. by rewrite list_insert_insert_eq. }
  assert (blks c2 !! i = Some b2) as Hi2 by (by apply list_lookup_insert_eq).
  assert (Tags.regenerateBlkAddr (tp P) b3 = a) as Hr3 by (unfold Tags.regenerateBlkAddr; rewrite E3, E4; exact Hr2).
  assert (cache_ok c3) as C3.
  { apply cache_ok_insert; [done| |intros _; rewrite Hr3; split; [|done]; split_and!; [congruence|apply filled_abs|by rewrite E5]].
    assert (<[i := b3]> (blks c1) = <[i := b3]> (<[i := b2]> (blks c1))) as -> by (by rewrite list_insert_insert_eq).
    apply (wf_same _ _ _ _ i b2); [done|done| |done|intros _; split; congruence]. apply filled_wf; [|done]. by apply (wf_blks W2). }
  assert (points c3 a (InTags i) b3) as Hp3.
  { exists i. split; [done|]. split_and!; [by apply list_lookup_insert_eq|congruence..]. }
  assert (∀ a', view c3 a' = upd (view c1) a (Some (abs b3)) a') as V3.
  { intros a'. unfold c3. rewrite (line_insert c1 i b1 b3 C1 Hi1 C3). unfold upd. rewrite E1, Hv1, Hv2, Hr3.
    destruct (decide (a' = a)) as [->|Hne]; [by rewrite decide_True|]. rewrite decide_False by (intros [_ ?]; congruence).
    by rewrite decide_False by (by intros [? _]). }
  assert (writable (abs b2) = false ∧ dirty (abs b2) = false) as [EW ED].
  { unfold abs, has. simpl. by rewrite Hc2. }
  assert (writable (abs b3) = negb (hasSharers k) ∧ dirty (abs b3) = (negb (hasSharers k) && cacheResponding k)) as [HW HD].
  { unfold b3. rewrite (proj2 (filled_abs k b2)). destruct (hasSharers k); cbn [writable dirty negb andb]; [done|]. by rewrite ED. }
  rewrite (handleFill_start k None true a c Hk Hal).
  assert (hasData (cmd k) || bool_decide (cmd k = InvalidateResp) = true) as Hassert.
  { destruct Hcmd as [-> |(_ & -> & _)]; done. }
  rewrite Hassert. rewrite (M_bind_ok _ _ _ (InTags i, wbs) c2) by (by rewrite (M_bind_ok _ _ _ tt c)). cbn iota beta.
  assert (regenerateBlkAddr P (InTags i) c2 = Ok (a, c2)) as Hreg.
  { unfold regenerateBlkAddr. rewrite (M_bind_ok _ _ _ b2 c2) by (unfold get_blk; by rewrite Hi2). rewrite (M_bind_ok _ _ _ c2 c2) by done. by rewrite Hr2. }
  rewrite (fill_checks k a (InTags i) b2 wbs c2 c3 Hk ltac:(unfold get_blk; by rewrite Hi2) Hreg Hv2 Hs2 Hput).
  destruct Hcmd as [Hinv|(Hrd & Hhd & Hsz & Hd & Hdl & Hnw)].
  { exists (InTags i), wbs, (view c1), c3, b3. rewrite Hinv. split; [done|]. split_and!; done. }
  rewrite Hrd, Hhd, Hsz, Z.eqb_refl. cbn [when]. unfold updateBlockData. pose proof blkSize_pos.
  assert (in_line k a) as Hin.
  { split; [apply (br_secure _ _ Hk)|rewrite (br_addr _ _ Hk); apply Hal|rewrite (br_addr _ _ Hk); apply Hal|lia|rewrite (br_addr _ _ Hk); lia]. }
  set (g := λ b : CacheBlk.CacheBlk, d ← writeDataToBlock k (CacheBlk.data b) blkSize; Ok (CacheBlk.set_data d b)).
  assert (g b3 = Ok (CacheBlk.set_data d b3)) as Hg.
  { assert (isMaskedWrite k = false) as Hm by (unfold isMaskedWrite; by rewrite bool_decide_false).
    unfold g. rewrite (writeDataToBlock_ok k a d _ Hin Hd ltac:(congruence) Hm (points_data _ _ _ _ C3 Hp3)).
    cbn [mbind res_bind]. unfold off. rewrite (br_addr _ _ Hk), Z.sub_diag. change (Z.to_nat 0) with 0%nat. rewrite splice_all; [done|].
    pose proof (points_data _ _ _ _ C3 Hp3). lia. }
  destruct (upd_points c3 a (InTags i) b3 g _ C3 Hp3 Hg) as (c4 & H4 & C4 & Hp4 & V4).
  { apply keeps_data. pose proof (points_data _ _ _ _ C3 Hp3). lia. }
  exists (InTags i), wbs, (view c1), c4, (CacheBlk.set_data d b3).
  rewrite (M_bind_ok _ _ _ tt c4) by (do 2 rewrite (M_bind_ok _ _ _ tt c3) by done; done).
  split; [done|]. split_and!; try done. intros a'. rewrite V4. destruct (decide (a' = a)) as [->|Hne]; [by rewrite !upd_eq|]. rewrite !upd_ne by done. rewrite V3. by apply upd_ne.
Qed.

(** ** Snoops *)

(** A request of a cache for the line at [a]. *)
Record bus_request (k : Pkt) (a : Z) : Prop := {
  bq_cmd : cmd k ∈ [ReadSharedReq; ReadCleanReq; ReadExReq; UpgradeReq; SCUpgradeReq; InvalidateReq];
  bq_addr : addr k = a;
  bq_size : size k = blkSize;
  bq_secure : isSecure k = false;
  bq_cached : uncacheable (req k) = false ∧ maintenance (req k) = false;
  bq_data : isRead (cmd k) = true → ∃ d, data k = Some d;
}.

(** The commands caches send. *)
Lemma bus_cmd k a : bus_request k a →
  isRequest (cmd k) = true ∧ needsResponse (cmd k) = true ∧ isClean (cmd k) = false ∧ isEviction (cmd k) = false ∧
  isWrite (cmd k) = false ∧ mustCheckAbove k = false ∧ isMaskedWrite k = false ∧ needsWritable (cmd k) = isInvalidate (cmd k) ∧
  isResponse (cmd k) = false ∧ cmd k ≠ WriteClean ∧ isError (cmd k) = false ∧ isUpgrade (cmd k) = negb (isRead (cmd k)) && negb (bool_decide (cmd k = InvalidateReq)).
Proof.
  intros [Hc _ _ _ _ _]. unfold mustCheckAbove, isMaskedWrite.
  repeat (apply elem_of_cons in Hc as [->|Hc]; [done|]). by apply elem_of_nil in Hc.
Qed.

(** Its response. *)
Definition resp_cmd (c : Command) : Command :=
  match c with ReadExReq => ReadExResp | UpgradeReq | SCUpgradeReq => UpgradeResp | InvalidateReq => InvalidateResp | _ => ReadResp end.

Lemma bus_resp k a : bus_request k a →
  responseCommand (cmd k) = Ok (resp_cmd (cmd k)) ∧ isResponse (resp_cmd (cmd k)) = true ∧ resp_cmd (cmd k) ≠ cmd k ∧
  hasData (resp_cmd (cmd k)) = isRead (cmd k) ∧ isRead (resp_cmd (cmd k)) = isRead (cmd k) ∧ isError (resp_cmd (cmd k)) = false ∧
  resp_cmd (cmd k) ≠ InvalidCmd ∧ isClean (resp_cmd (cmd k)) = false ∧ resp_cmd (cmd k) ≠ WriteClean ∧
  isInvalidate (resp_cmd (cmd k)) = bool_decide (cmd k = InvalidateReq) ∧ resp_cmd (cmd k) ≠ WriteReq ∧
  (resp_cmd (cmd k) = InvalidateResp ↔ cmd k = InvalidateReq).
Proof. intros [Hc _ _ _ _ _]. repeat (apply elem_of_cons in Hc as [->|Hc]; [done|]). by apply elem_of_nil in Hc. Qed.

(** The line in a snooped cache. *)
Definition snoop_line (invalidate : bool) (l : option Line) : option Line :=
  match l with
  | Some l => if invalidate then None else Some (mkLine false (dirty l) (bytes l))
  | None => None
  end.

(** The packet after the snoop of a cache that has the line dirty. *)
Definition answered (k : Pkt) (l : Line) : Pkt :=
  mkPkt (resp_cmd (cmd k)) (addr k) (isSecure k) (size k) (if isRead (cmd k) then Some (bytes l) else data k) (req k) (id k)
    (extraData k) (hasSharers k || negb (isInvalidate (cmd k))) true (isInvalidate (cmd k) && writable l)
    (writeThrough k) (satisfied k) (blockCached k).

Definition snoop_pkt (k : Pkt) (l : option Line) : Pkt :=
  match l with
  | Some l => if dirty l then answered k l else if isInvalidate (cmd k) then k else setHasSharers k
  | None => k
  end.

Lemma snoop_respond_ok k k0 a b invalidate :
  bus_request k0 a → aligned a → cmd k = cmd k0 → addr k = a → size k = blkSize → data k = data k0 → invalidate = isInvalidate (cmd k) →
  (invalidate = false → hasSharers k = true ∧ CacheBlk.isSet CacheBlk.WritableBit b = false) →
  cacheResponding k = false → responderHadWritable k = false → Z.of_nat (length (CacheBlk.data b)) = blkSize → CacheBlk.valid b = true →
  snoop_respond P k b invalidate =
    Ok (mkPkt (resp_cmd (cmd k)) (addr k) (isSecure k) (size k) (if isRead (cmd k) then Some (CacheBlk.data b) else data k) (req k) (id k)
      (extraData k) (hasSharers k) true (invalidate && has CacheBlk.WritableBit b) (writeThrough k) (satisfied k) (blockCached k)).
Proof using G.
  intros Hk Hal Hc Ha Hs Hd Hi Hsh Hcr Hrw Hl Hv. destruct (bus_cmd k0 a Hk) as (E1 & E2 & E3 & _). destruct (bus_resp k0 a Hk) as (R1 & _ & _ & R4 & _ & _ & _ & _ & _ & _ & R11 & _).
  pose proof (bq_data _ _ Hk) as Hdat. rewrite <-Hc in *. unfold snoop_respond, setCacheResponding. rewrite E1, Hcr. cbn [negb mbind res_bind cmd].
  rewrite E3, isSet_has, Hv. cbn [negb andb].
  set (k1 := mkPkt (cmd k) _ _ _ _ _ _ _ _ true (responderHadWritable k) _ _ _).
  assert ((if has CacheBlk.WritableBit b then setResponderHadWritable k1 else Ok k1) =
    Ok (mkPkt (cmd k) (addr k) (isSecure k) (size k) (data k) (req k) (id k) (extraData k) (hasSharers k) true
      (invalidate && has CacheBlk.WritableBit b) (writeThrough k) (satisfied k) (blockCached k))) as ->.
  { unfold setResponderHadWritable, k1. simpl. rewrite Hrw. destruct invalidate; [by destruct (has _ _)|].
    destruct (Hsh eq_refl) as [_ Hw]. rewrite isSet_has, Hv in Hw. cbn [andb] in Hw. by rewrite Hw. }
  cbn [mbind res_bind hasSharers]. assert (negb invalidate && negb (hasSharers k) = false) as ->.
  { destruct invalidate; [done|]. by rewrite (proj1 (Hsh eq_refl)). }
  unfold makeResponse. cbn [cmd]. rewrite E1, E2, R1. cbn [negb mbind res_bind set_cmd cmd]. rewrite R4.
  destruct (isRead (cmd k)); [|done]. destruct (Hdat eq_refl) as (d & Hdd).
  erewrite setDataFromBlock_all; [done|..]; simpl; try done.
  - by rewrite Ha.
  - rewrite Hd. exact Hdd.
  - unfold isMaskedWrite. simpl. by rewrite bool_decide_false.
Qed.

Lemma snoop_hit_ok c k a p b :
  cache_ok c → points c a p b → bus_request k a →
  (dirty (abs b) = true → cacheResponding k = false ∧ responderHadWritable k = false) →
  ∃ c', snoop_hit P k p (CacheBlk.isSet CacheBlk.DirtyBit b && needsResponse (cmd k)) (isInvalidate (cmd k)) (needsWritable (cmd k)) c =
      Ok (snoop_pkt k (Some (abs b)), c') ∧
    cache_ok c' ∧ (∀ a', view c' a' = upd (view c) a (snoop_line (isInvalidate (cmd k)) (Some (abs b))) a').
Proof using G rw.
  intros C Hp Hk Hd. pose proof (points_aligned _ _ _ _ C Hp) as Hal. destruct (bus_cmd k a Hk) as (E1 & E2 & E3 & E4 & E5 & E6 & E7 & E8 & _).
  pose proof Hp as (i & _ & (Hi & Hv & _)). unfold snoop_hit. rewrite E6, E2, E8, isSet_has, Hv. rewrite andb_true_r. cbn [andb].
  change (has CacheBlk.DirtyBit b) with (dirty (abs b)).
  assert (isRead (cmd k) && negb (isInvalidate (cmd k)) = negb (isInvalidate (cmd k))) as ->.
  { destruct Hk as [Hc _ _ _ _ _]. repeat (apply elem_of_cons in Hc as [->|Hc]; [done|]). by apply elem_of_nil in Hc. }
  destruct (isInvalidate (cmd k)) eqn:Hinv; cbn [negb andb when].
  - rewrite (M_bind_ok _ _ _ tt c) by done. rewrite (M_bind_ok _ _ _ tt c) by done. rewrite (M_bind_ok _ _ _ _ _ (get_points _ _ _ _ Hp)).
    destruct (invalidateBlock_ok c a p b C Hp) as (c' & H' & C' & V' & _).
    assert ((if dirty (abs b) then lift (snoop_respond P k b true) else mret k) c = Ok (snoop_pkt k (Some (abs b)), c)) as Hr.
    { unfold snoop_pkt. rewrite Hinv. destruct (dirty (abs b)) eqn:ED; [|done]. destruct (Hd eq_refl) as [Hcr Hrw]. apply lift_ok.
      rewrite (snoop_respond_ok k k a b true Hk Hal eq_refl (bq_addr _ _ Hk) (bq_size _ _ Hk) eq_refl (eq_sym Hinv) ltac:(done) Hcr Hrw (points_data _ _ _ _ C Hp) Hv).
      unfold answered. rewrite Hinv, orb_false_r. done. }
    rewrite (M_bind_ok _ _ _ _ _ Hr), (M_bind_ok _ _ _ _ _ H'). exists c'. done.
  - rewrite (M_bind_ok _ _ _ tt c) by done. destruct (bq_cached _ _ Hk) as [Hu _]. change (uncacheable (req (setHasSharers k))) with (uncacheable (req k)).
    rewrite Hu. cbn [negb when].
    destruct (upd_points c a p b (λ b, Ok (CacheBlk.clearCoherenceBits CacheBlk.WritableBit b)) _ C Hp eq_refl) as (c' & H' & C' & Hp' & V').
    { apply keeps_clear. set_solver. }
    rewrite (M_bind_ok _ _ _ _ _ H'), (M_bind_ok _ _ _ _ _ (get_points _ _ _ _ Hp')). set (b' := CacheBlk.clearCoherenceBits CacheBlk.WritableBit b) in *.
    assert ((if dirty (abs b) then lift (snoop_respond P (setHasSharers k) b' false) else mret (setHasSharers k)) c' = Ok (snoop_pkt k (Some (abs b)), c')) as Hr.
    { unfold snoop_pkt. rewrite Hinv. destruct (dirty (abs b)) eqn:ED; [|done]. destruct (Hd eq_refl) as [Hcr Hrw]. apply lift_ok.
      rewrite (snoop_respond_ok (setHasSharers k) k a b' false Hk Hal eq_refl (bq_addr _ _ Hk) (bq_size _ _ Hk) eq_refl (eq_sym Hinv));
        [|intros _; split; [done|]|done|done|exact (points_data _ _ _ _ C' Hp')|done].
      - unfold answered. rewrite Hinv, orb_true_r. done.
      - rewrite isSet_has. pose proof (proj2 (clear_W b)) as Ea. fold b' in Ea. change (has CacheBlk.WritableBit b') with (writable (abs b')).
        rewrite Ea. by rewrite andb_false_r. }
    rewrite (M_bind_ok _ _ _ _ _ Hr). exists c'. split; [done|]. split; [done|]. intros a'. rewrite V'. unfold b'. by rewrite (proj2 (clear_W b)).
Qed.
End cache.
