(* ===== verification/CacheBus.v ===== *)
(** * Requests of a cache to the crossbar

    What happens when a cache misses: the other caches are snooped, one of them or
    the memory answers, and the snoop tracker is told.  The laws of a tracker are
    stated here; the theorems about the system hold for every tracker with these
    laws. *)
From stdpp Require Import base tactics list gmap strings sets.
From Stdlib Require Import ZArith Lia.
From S2P Require Import Prelude MemCmd AddrRange CachePkt CacheBlk CacheTags Cache AbstractMem CacheSys CacheProps.
Import CachePkt Cache.
Local Open Scope Z_scope.

(** ** The laws of a tracker *)

(** Which caches may have a line. *)
Definition Copies : Type := Z → nat → Prop.

Definition with_copy (K : Copies) (a : Z) (i : nat) : Copies := λ b j, K b j ∨ b = a ∧ j = i.
Definition without_copy (K : Copies) (a : Z) (i : nat) : Copies := λ b j, K b j ∧ ¬ (b = a ∧ j = i).
(** After a cache responded: the requester, and the others if they keep copies. *)
Definition handed_over (K : Copies) (a : Z) (i : nat) (shared : bool) : Copies := λ b j,
  if decide (b = a) then j = i ∨ shared = true ∧ K a j else K b j.

(** A response for a line, from a snooper or from below. *)
Record tracked_response (k : Pkt) (a : Z) : Prop := {
  ts_addr : addr k = a;
  ts_secure : isSecure k = false;
  ts_response : isResponse (cmd k) = true;
  ts_cached : uncacheable (req k) = false ∧ maintenance (req k) = false;
  ts_writeback : isWriteback (cmd k) = false;
}.

(** An eviction of a line that is not known to be cached above. *)
Record tracked_eviction (k : Pkt) (a : Z) : Prop := {
  te_addr : addr k = a;
  te_secure : isSecure k = false;
  te_cmd : cmd k ∈ [WritebackDirty; WritebackClean; CleanEvict];
  te_cached : uncacheable (req k) = false ∧ maintenance (req k) = false;
  te_above : blockCached k = false;
}.

(** [tracks f K]: the tracker knows at least the copies [K], and waits for
    nothing; [asked f K a i]: cache [i] has asked for the line at [a]. *)
Class TrackerLaws {F : Type} (T : Tracker F) (P : Params) (n : nat) := {
  tracks : F → Copies → Prop;
  asked : F → Copies → Z → nat → Prop;
  tracks_mono f K K' : tracks f K → (∀ a j, K' a j → K a j) → tracks f K';
  unfiltered f K : tr_filters = false → tracks f K;
  lookup_ok f K k a i : tracks f K → bus_request P k a → cacheResponding k = false → aligned P a → (i < n)%nat →
    ∃ l f', tr_lookup k i f = Ok (l, f') ∧ asked f' K a i ∧ NoDup l ∧
      (∀ j, j ∈ l → (j < n)%nat) ∧ (∀ j, (j < n)%nat → j ≠ i → K a j → j ∈ l);
  lookup_evict_ok f K k a i : tracks f K → tracked_eviction k a → aligned P a → (i < n)%nat → K a i →
    ∃ l f', tr_lookup k i f = Ok (l, f') ∧ tracks f' (without_copy K a i) ∧ (∀ j, j ∈ l → (j < n)%nat);
  snoop_response_ok f K k a i j : asked f K a i → tracked_response k a → cacheResponding k = true → aligned P a →
    (i < n)%nat → (j < n)%nat → K a j →
    ∃ f', tr_snoop_response k j i f = Ok (tt, f') ∧ tracks f' (handed_over K a i (hasSharers k));
  response_ok f K k a i : asked f K a i → tracked_response k a → aligned P a → (i < n)%nat →
    ∃ f', tr_response k i f = Ok (tt, f') ∧ tracks f' (with_copy K a i);
}.

(** Without a filter there is nothing to know. *)
#[export] Instance no_filter_laws P n : TrackerLaws (no_filter n) P n.
Proof.
  refine {| tracks := λ _ _, True; asked := λ _ _ _ _, True |}; try done.
  - intros f K k a i _ _ _ _ Hi. exists (seq 0 n), f. split; [done|]. split; [done|]. split; [apply NoDup_ListNoDup, seq_NoDup|].
    split; intros j; rewrite elem_of_seq; lia.
  - intros f K k a i _ _ _ Hi _. exists (seq 0 n), f. split; [done|]. split; [done|]. intros j. rewrite elem_of_seq. lia.
  - intros f. by exists f.
  - intros f. by exists f.
Defined.

(** ** States *)

Section bus.
Context {F : Type} {T : Tracker F} (X : Sys.XParams) (P : Params) (range : AddrRange.AddrRange).
Context (nb sb : Z) (G : geometry (tp P) nb sb) (locking : bool) (rw : isReadOnly P = false) (private : forwardSnoops P = false).
Context (ncaches : nat) {L : TrackerLaws T P ncaches}.
Notation blkSize := (Tags.blkSize (tp P)).
Notation cache_ok := (cache_ok P nb sb locking).
Notation view := (view P).
Notation Sys := (Sys.Sys F).

Definition V (s : Sys) (i : nat) (a : Z) : option Line :=
  match Sys.caches s !! i with Some c => view c a | None => None end.

Definition all_ok (s : Sys) : Prop := ∀ i c, Sys.caches s !! i = Some c → cache_ok c.

Definition set_cache (i : nat) (c : Cache) (s : Sys) : Sys :=
  Sys.mkSys (<[i := c]> (Sys.caches s)) (Sys.memory s) (Sys.tracker s) (Sys.outstandingCMO s).

Lemma on_cache_ok {A} i c c' s (f : M Cache A) x :
  Sys.caches s !! i = Some c → f c = Ok (x, c') → Sys.on_cache i f s = Ok (x, set_cache i c' s).
Proof. intros Hi Hf. unfold Sys.on_cache. rewrite Hi. cbn [of_option mbind res_bind]. by rewrite Hf. Qed.

Lemma set_cache_id i c s : Sys.caches s !! i = Some c → set_cache i c s = s.
Proof. intros Hi. unfold set_cache. rewrite list_insert_id by done. by destruct s. Qed.

Lemma set_cache_set i c c' s : set_cache i c' (set_cache i c s) = set_cache i c' s.
Proof. unfold set_cache. simpl. by rewrite list_insert_insert_eq. Qed.

Lemma set_cache_lookup i c s : (i < length (Sys.caches s))%nat → Sys.caches (set_cache i c s) !! i = Some c.
Proof. intros. by apply list_lookup_insert_eq. Qed.

Lemma V_set_cache i c s j a : (i < length (Sys.caches s))%nat → V (set_cache i c s) j a = if decide (j = i) then view c a else V s j a.
Proof.
  intros Hi. unfold V. simpl. case_decide as E.
  - subst. by rewrite list_lookup_insert_eq.
  - by rewrite list_lookup_insert_ne.
Qed.

Lemma all_ok_set i c s : all_ok s → cache_ok c → all_ok (set_cache i c s).
Proof.
  intros H Hc j c' Hj. simpl in Hj. destruct (decide (j = i)) as [->|].
  - apply list_lookup_insert_Some in Hj as [(_ & -> & _)|[? _]]; done.
  - rewrite list_lookup_insert_ne in Hj by done. by apply (H j).
Qed.

(** Addresses that all caches and the memory serve. *)
Context (in_mem : Z → Prop).
Hypothesis mem_aligned : ∀ a, in_mem a → aligned P a.
Hypothesis mem_served : ∀ a, in_mem a → inRange (addrRanges P) a = Ok true.

(** ** One snoop *)

Lemma findBlock_view c a : cache_ok c → aligned P a →
  match Tags.findBlock (tp P) a false (blks c) with
  | Some i => ∃ b, points P c a (InTags i) b ∧ view c a = Some (abs b)
  | None => view c a = None
  end.
Proof using G.
  intros C Ha. pose proof (findBlock_spec _ _ _ G _ a false (co_wf _ _ _ _ _ C) (proj1 Ha)) as H. rewrite (proj2 Ha) in H.
  destruct (Tags.findBlock _ _ _ _) as [i|].
  - destruct H as (b & Hb). exists b. assert (points P c a (InTags i) b) as Hp by (by exists i). split; [done|]. by eapply points_view.
  - unfold CacheProps.view. rewrite decide_True by done. rewrite (proj2 (line_none _ _ _ G locking c a C Ha)); [done|]. done.
Qed.

Lemma snoop_one snd s j c k a :
  Sys.caches s !! j = Some c → cache_ok c → in_mem a → bus_request P k a →
  (∀ l, view c a = Some l → dirty l = true → cacheResponding k = false ∧ responderHadWritable k = false) →
  ∃ c', Cache.recvAtomicSnoop P (λ A, @Sys.on_cache F j A) snd Sys.above k s = Ok (snoop_pkt k (view c a), set_cache j c' s) ∧
    cache_ok c' ∧ (∀ a', view c' a' = upd (view c) a (snoop_line (isInvalidate (cmd k)) (view c a)) a').
Proof using G rw private mem_aligned mem_served.
  intros Hj C Ha Hk Hd. unfold Cache.recvAtomicSnoop. rewrite (bq_addr _ _ _ Hk), (bq_secure _ _ _ Hk).
  rewrite (M_bind_ok _ _ _ _ _ (lift_ok _ _ s (mem_served a Ha))). cbn [negb].
  rewrite (M_bind_ok _ _ _ c s); [|unfold Sys.on_cache; rewrite Hj; cbn [of_option mbind res_bind]; unfold gets; by rewrite (set_cache_id j c s Hj : Sys.mkSys _ _ _ _ = s)].
  destruct (bus_cmd _ k a Hk) as (E1 & E2 & E3 & _). pose proof (bq_cached _ _ _ Hk) as [Hu _].
  unfold handleSnoop. rewrite E1. rewrite (M_bind_ok _ _ _ tt s) by done. rewrite Hu, andb_false_r.
  rewrite (M_bind_ok _ _ _ tt s) by done. rewrite private. rewrite (M_bind_ok _ _ _ k s) by done.
  pose proof (findBlock_view c a C (mem_aligned a Ha)) as Hf. destruct (Tags.findBlock _ _ _ _) as [i|]; cbn [fmap option_fmap option_map].
  - destruct Hf as (b & Hp & Hv). rewrite Hv in *.
    assert (peek (Some (InTags i)) c = Ok (Some b, c)) as Hpk by (unfold peek; by rewrite (M_bind_ok _ _ _ _ _ (get_points _ _ _ _ _ Hp))).
    rewrite (M_bind_ok _ _ _ _ _ (on_cache_ok j c c s _ _ Hj Hpk)), (set_cache_id j c s Hj), E3.
    pose proof Hp as (? & _ & (_ & Hval & _)). rewrite Hval. cbn [negb]. rewrite rw. cbn [andb negb].
    rewrite (M_bind_ok _ _ _ tt s) by done.
    destruct (snoop_hit_ok P nb sb G locking rw c k a (InTags i) b C Hp Hk) as (c' & H' & C' & V'); [by apply Hd|].
    exists c'. split; [by apply (on_cache_ok j c)|]. done.
  - assert (peek None c = Ok (None, c)) as Hpk by done. rewrite Hf in *. rewrite (M_bind_ok _ _ _ _ _ (on_cache_ok j c c s _ _ Hj Hpk)), (set_cache_id j c s Hj).
    exists c. rewrite (set_cache_id j c s Hj). split; [done|]. split; [done|]. intros a'. simpl. unfold upd. case_decide; [congruence|done].
Qed.

(** ** The loop over the snooped caches *)

(** The caches [D] other than [i] were snooped for the line at [a]. *)
Record snooped (invalidate : bool) (a : Z) (i : nat) (D : list nat) (s s' : Sys) : Prop := {
  sn_ok : all_ok s → all_ok s';
  sn_len : length (Sys.caches s') = length (Sys.caches s);
  sn_self : Sys.caches s' !! i = Sys.caches s !! i;
  sn_view : ∀ j a', V s' j a' = if decide (j ∈ D ∧ j ≠ i ∧ a' = a) then snoop_line invalidate (V s j a) else V s j a';
  sn_mem : Sys.memory s' = Sys.memory s;
  sn_cmo : Sys.outstandingCMO s' = Sys.outstandingCMO s;
}.

Lemma snooped_nil inv a i s : snooped inv a i [] s s.
Proof. by split. Qed.

Lemma snooped_app inv a i D1 D2 s s1 s2 :
  NoDup (D1 ++ D2) → snooped inv a i D1 s s1 → snooped inv a i D2 s1 s2 → snooped inv a i (D1 ++ D2) s s2.
Proof.
  intros Hnd%NoDup_app H1 H2. destruct Hnd as (_ & Hdis & _). split.
  - intros ?. by apply (sn_ok _ _ _ _ _ _ H2), (sn_ok _ _ _ _ _ _ H1).
  - by rewrite (sn_len _ _ _ _ _ _ H2), (sn_len _ _ _ _ _ _ H1).
  - by rewrite (sn_self _ _ _ _ _ _ H2), (sn_self _ _ _ _ _ _ H1).
  - intros j a'. rewrite (sn_view _ _ _ _ _ _ H2 j a'), !(sn_view _ _ _ _ _ _ H1). specialize (Hdis j).
    destruct (decide (j ∈ D1 ++ D2 ∧ _)) as [Hd|Hd]; rewrite elem_of_app in Hd; repeat case_decide; naive_solver.
  - by rewrite (sn_mem _ _ _ _ _ _ H2), (sn_mem _ _ _ _ _ _ H1).
  - by rewrite (sn_cmo _ _ _ _ _ _ H2), (sn_cmo _ _ _ _ _ _ H1).
Qed.

Lemma snooped_set inv a i j c c' s :
  Sys.caches s !! j = Some c → cache_ok c' → j ≠ i → (∀ a', view c' a' = upd (view c) a (snoop_line inv (view c a)) a') →
  snooped inv a i [j] s (set_cache j c' s).
Proof.
  intros Hj C' Hne Hv. assert (j < length (Sys.caches s))%nat as Hl by (by eapply lookup_lt_Some). split; try done.
  - intros ?. by apply all_ok_set.
  - simpl. by rewrite length_insert.
  - simpl. by rewrite list_lookup_insert_ne.
  - intros j' a'. rewrite V_set_cache by done. assert (∀ x, V s j x = view c x) as HV by (intros x; unfold V; by rewrite Hj).
    destruct (decide (j' = j)) as [->|Hn].
    + rewrite Hv, !HV. unfold upd. destruct (decide (j ∈ [j] ∧ _)) as [Hd|Hd]; rewrite list_elem_of_singleton in Hd; repeat case_decide; naive_solver.
    + by rewrite decide_False by (rewrite list_elem_of_singleton; by intros [? _]).
Qed.

Lemma snooped_skip inv a i s : snooped inv a i [i] s s.
Proof. split; try done. intros j a'. rewrite decide_False; [done|]. intros ([->|?%elem_of_nil]%elem_of_cons & ? & _); done. Qed.

(** The caches of a list other than [i] that have the line. *)
Definition sharer (s : Sys) (a : Z) (i : nat) (D : list nat) : Prop := ∃ j l, j ∈ D ∧ j ≠ i ∧ V s j a = Some l.
Definition no_dirty (s : Sys) (a : Z) (i : nat) (D : list nat) : Prop :=
  ∀ j l, j ∈ D → j ≠ i → V s j a = Some l → dirty l = false.

Section loops.
Context (snd : nat → Pkt → M Sys Pkt).
Notation snoop := (λ j k, Cache.recvAtomicSnoop P (λ A, @Sys.on_cache F j A) (snd j) Sys.above k).

Lemma atomic_loop_app orig i D1 D2 : ∀ k r s k1 r1 s1,
  Sys.atomic_loop snoop orig i D1 k r s = Ok ((k1, r1), s1) →
  Sys.atomic_loop snoop orig i (D1 ++ D2) k r s = Sys.atomic_loop snoop orig i D2 k1 r1 s1.
Proof.
  induction D1 as [|j D1 IH]; intros k r s k1 r1 s1 H; cbn [Sys.atomic_loop app] in *.
  { by injection H as -> -> ->. }
  case_bool_decide; [by apply IH|].
  apply M_bind_inv in H as (k2 & s2 & Hs & H). rewrite (M_bind_ok _ _ _ _ _ Hs). destruct (negb _); [by apply IH|].
  apply M_bind_inv in H as (? & ? & H3 & H). rewrite (M_bind_ok _ _ _ _ _ H3).
  apply M_bind_inv in H as (? & ? & H4 & H). rewrite (M_bind_ok _ _ _ _ _ H4).
  apply M_bind_inv in H as (? & ? & H5 & H). rewrite (M_bind_ok _ _ _ _ _ H5).
  apply M_bind_inv in H as (? & ? & H6 & H). rewrite (M_bind_ok _ _ _ _ _ H6). by apply IH.
Qed.

Lemma setHasSharers_request k a : bus_request P k a → bus_request P (setHasSharers k) a.
Proof. intros []. by split. Qed.

(** What the loop leaves of the packet when nobody responds. *)
Definition shares (shared : Prop) (k k' : Pkt) : Prop :=
  k' = k ∧ (isInvalidate (cmd k) = false → ¬ shared) ∨
  k' = setHasSharers k ∧ isInvalidate (cmd k) = false ∧ shared.

(** A run of snoops of caches none of which has the line dirty. *)
Lemma loop_clean a i r D : ∀ k s,
  in_mem a → all_ok s → bus_request P k a → NoDup D → (∀ j, j ∈ D → (j < length (Sys.caches s))%nat) → no_dirty s a i D →
  ∃ k' s', Sys.atomic_loop snoop (cmd k) i D k r s = Ok ((k', r), s') ∧
    snooped (isInvalidate (cmd k)) a i D s s' ∧ Sys.tracker s' = Sys.tracker s ∧ shares (sharer s a i D) k k'.
Proof using G rw private mem_aligned mem_served.
  induction D as [|j D IH]; intros k s Ha Hall Hk Hnd Hlt Hcl; cbn [Sys.atomic_loop].
  { exists k, s. split; [done|]. split; [apply snooped_nil|]. split; [done|]. left. split; [done|]. intros _ (? & ? & ?%elem_of_nil & _). done. }
  pose proof Hnd as [Hnin Hnd']%NoDup_cons. case_bool_decide as E.
  { subst j. destruct (IH k s) as (k' & s' & H' & Hs & Ht & Hsh); try done.
    - intros j Hj. apply Hlt. by right.
    - intros j l Hj. apply Hcl. by right.
    - exists k', s'. split; [done|]. split; [apply (snooped_app _ _ _ [i] D _ s); [done|apply snooped_skip|done]|].
      split; [done|]. assert (sharer s a i (i :: D) ↔ sharer s a i D) as Hiff; [|unfold shares in *; by rewrite Hiff].
      split; intros (j & l & Hj & Hne & Hl); exists j, l; (split; [|done]); [by apply elem_of_cons in Hj as [->|?]|by right]. }
  destruct (lookup_lt_is_Some_2 (Sys.caches s) j ltac:(apply Hlt; by left)) as (c & Hj).
  assert (V s j a = view c a) as HV by (unfold V; by rewrite Hj).
  destruct (snoop_one (snd j) s j c k a Hj (Hall j c Hj) Ha Hk) as (c' & Hsn & C' & Hv').
  { intros l Hl Hd. rewrite (Hcl j l ltac:(by left) E ltac:(by rewrite HV)) in Hd. done. }
  rewrite (M_bind_ok _ _ _ _ _ Hsn).
  assert (snoop_pkt k (view c a) = k ∧ (isInvalidate (cmd k) = false → view c a = None) ∨
    snoop_pkt k (view c a) = setHasSharers k ∧ isInvalidate (cmd k) = false ∧ is_Some (view c a)) as Hpk.
  { unfold snoop_pkt. destruct (view c a) as [l|] eqn:Hl; [|by left].
    rewrite (Hcl j l ltac:(by left) E ltac:(by rewrite HV)). destruct (isInvalidate (cmd k)) eqn:Hi; [by left|by right]. }
  set (k1 := snoop_pkt k (view c a)) in *.
  assert (cmd k1 = cmd k ∧ bus_request P k1 a) as [Ec Hk1].
  { destruct Hpk as [[-> _]|[-> _]]; [done|]. split; [done|by apply setHasSharers_request]. }
  destruct (bus_cmd _ k1 a Hk1) as (_ & _ & _ & _ & _ & _ & _ & _ & Hnr & _). rewrite Hnr. cbn [negb].
  pose proof (snooped_set (isInvalidate (cmd k)) a i j c c' s Hj C' E Hv') as Hs1. rewrite <-Ec.
  destruct (IH k1 (set_cache j c' s)) as (k' & s' & H' & Hs2 & Ht & Hsh); try done.
  - by apply all_ok_set.
  - intros j' Hj'. simpl. rewrite length_insert. apply Hlt. by right.
  - intros j' l Hj' Hne Hl. rewrite (sn_view _ _ _ _ _ _ Hs1), decide_False in Hl by (intros ([->|?%elem_of_nil]%elem_of_cons & _); done).
    eapply Hcl; [by right|done|done].
  - exists k', s'. split; [done|]. rewrite Ec in Hs2. rewrite Ec. split; [by apply (snooped_app _ _ _ [j] D _ (set_cache j c' s))|]. split; [done|].
    assert (sharer (set_cache j c' s) a i D ↔ sharer s a i D) as Hiff1.
    { unfold sharer. split; intros (j' & l & Hj' & Hne & Hl); exists j', l; (split; [done|]; split; [done|]);
        rewrite (sn_view _ _ _ _ _ _ Hs1), decide_False in * by (intros ([->|?%elem_of_nil]%elem_of_cons & _); done); done. }
    assert (sharer s a i (j :: D) ↔ is_Some (view c a) ∨ sharer s a i D) as Hiff2.
    { unfold sharer. split.
      - intros (j' & l & [->|Hj']%elem_of_cons & Hne & Hl); [left; exists l; congruence|right; by exists j', l].
      - intros [[l Hl]|(j' & l & Hj' & ?)]; [exists j, l; split; [by left|]; split; [done|congruence]|exists j', l; split; [by right|done]]. }
    unfold shares in *. rewrite Hiff1, Ec in Hsh. rewrite Hiff2. destruct Hpk as [[-> Hn]|(-> & Hi & Hsome)].
    + destruct Hsh as [[-> ?]|(-> & ? & ?)]; [left|right; tauto]. split; [done|]. intros Hi [[? ?]|?]; [|by apply H].
      rewrite (Hn Hi) in *. done.
    + right. split; [|tauto]. destruct Hsh as [[-> _]|(-> & _)]; done.
Qed.

(** The fields of a packet that snoops leave alone. *)
Definition same_packet (k k' : Pkt) : Prop :=
  cmd k' = cmd k ∧ addr k' = addr k ∧ isSecure k' = isSecure k ∧ size k' = size k ∧ req k' = req k ∧ id k' = id k ∧
  satisfied k' = satisfied k ∧ blockCached k' = blockCached k.

Lemma same_packet_request k k' a : same_packet k k' → (data k = data k' ∨ ∃ d, data k' = Some d) → bus_request P k a → bus_request P k' a.
Proof.
  intros (Hc & Ha & Hse & Hsi & Hr & _) Hd [? ? ? ? ? Hdat]. split; try congruence.
  intros Hrd. destruct Hd as [<-|?]; [apply Hdat; congruence|done].
Qed.

Lemma shares_same Sh k k' : shares Sh k k' → same_packet k k' ∧ data k' = data k ∧ cacheResponding k' = cacheResponding k ∧
  responderHadWritable k' = responderHadWritable k ∧ (hasSharers k' = true ↔ hasSharers k = true ∨ isInvalidate (cmd k) = false ∧ Sh).
Proof. intros [[-> H]|(-> & H & HS)]; (split; [done|]); (split; [done|]); split_and!; try done; tauto. Qed.

Lemma sharer_app s a i D1 D2 : sharer s a i (D1 ++ D2) ↔ sharer s a i D1 ∨ sharer s a i D2.
Proof. unfold sharer. setoid_rewrite elem_of_app. naive_solver. Qed.

(** A cache of [D] has the line dirty, and the loop up to it. *)
Definition is_dirty (s : Sys) (a : Z) (j : nat) : bool := match V s j a with Some l => dirty l | None => false end.

Lemma dirty_or_not s a i D :
  no_dirty s a i D ∨ ∃ D1 j D2 l, D = D1 ++ j :: D2 ∧ j ≠ i ∧ V s j a = Some l ∧ dirty l = true ∧ no_dirty s a i D1.
Proof.
  destruct (list_find (λ j, j ≠ i ∧ is_dirty s a j = true) D) as [[x j]|] eqn:E.
  - right. apply list_find_Some in E as (Hx & [Hne Hd] & Hbefore). unfold is_dirty in Hd. destruct (V s j a) as [l|] eqn:Hl; [|done].
    exists (take x D), j, (drop (S x) D), l. split; [symmetry; by apply take_drop_middle|]. split_and!; try done.
    intros j' l' Hj' Hne' Hl'. apply list_elem_of_lookup in Hj' as (y & Hy). destruct (decide (y < x)%nat).
    + rewrite lookup_take_lt in Hy by done. destruct (dirty l') eqn:Hd'; [|done]. destruct (Hbefore y j' Hy ltac:(done)). split; [done|].
      unfold is_dirty. by rewrite Hl'.
    + rewrite lookup_take_ge in Hy by lia. done.
  - left. apply list_find_None in E. rewrite Forall_forall in E. intros j l Hj Hne Hl. destruct (dirty l) eqn:Hd; [|done].
    destruct (E j Hj). split; [done|]. unfold is_dirty. by rewrite Hl.
Qed.

(** The step of the loop at the cache that has the line dirty. *)
Lemma loop_dirty a i j D c l k s K :
  in_mem a → all_ok s → bus_request P k a → cacheResponding k = false → responderHadWritable k = false →
  (isInvalidate (cmd k) = true → hasSharers k = false) →
  Sys.caches s !! j = Some c → j ≠ i → view c a = Some l → dirty l = true →
  length (Sys.caches s) = ncaches → (i < ncaches)%nat → asked (Sys.tracker s) K a i → K a j →
  ∃ k' s', Sys.atomic_loop snoop (cmd k) i (j :: D) k InvalidCmd s = Sys.atomic_loop snoop (cmd k) i D k' (resp_cmd (cmd k)) s' ∧
    snooped (isInvalidate (cmd k)) a i [j] s s' ∧ same_packet k k' ∧ cacheResponding k' = true ∧
    (isRead (cmd k) = true → data k' = Some (bytes l)) ∧ (isRead (cmd k) = false → data k' = data k) ∧
    (hasSharers k' = true ↔ isInvalidate (cmd k) = false) ∧
    tracks (Sys.tracker s') (handed_over K a i (negb (isInvalidate (cmd k)))).
Proof using G rw private mem_aligned mem_served.
  intros Ha Hall Hk Hcr Hrw Hsh Hj Hne Hl Hd Hlen Hi Hask HK.
  destruct (snoop_one (snd j) s j c k a Hj (Hall j c Hj) Ha Hk ltac:(done)) as (c' & Hsn & C' & Hv').
  cbn [Sys.atomic_loop]. rewrite bool_decide_false by done. rewrite (M_bind_ok _ _ _ _ _ Hsn). rewrite Hl in *. cbn [snoop_pkt] in *. rewrite Hd in *.
  destruct (bus_resp _ k a Hk) as (_ & R2 & R3 & _ & _ & _ & _). cbn [cmd answered cacheResponding]. rewrite R2. cbn [negb].
  set (s1 := set_cache j c' s) in *.
  rewrite (M_bind_ok _ _ _ tt s1) by (by rewrite bool_decide_false). rewrite (M_bind_ok _ _ _ tt s1) by done.
  rewrite (M_bind_ok _ _ _ tt s1) by done.
  assert (hasSharers (answered k l) = negb (isInvalidate (cmd k))) as Hhs.
  { simpl. destruct (isInvalidate (cmd k)); [by rewrite Hsh|by rewrite orb_true_r]. }
  assert (∃ s2, when tr_filters (Sys.on_tracker (tr_snoop_response (answered k l) j i)) s1 = Ok (tt, s2) ∧
    Sys.caches s2 = Sys.caches s1 ∧ Sys.memory s2 = Sys.memory s1 ∧ Sys.outstandingCMO s2 = Sys.outstandingCMO s1 ∧
    tracks (Sys.tracker s2) (handed_over K a i (negb (isInvalidate (cmd k))))) as (s2 & Ht & Hc2 & Hm2 & Ho2 & Htr).
  { destruct tr_filters eqn:Hfl; cbn [when].
    - destruct (snoop_response_ok (Sys.tracker s) K (answered k l) a i j Hask) as (f' & Hf & Htr); try done.
      + split; try done; simpl.
        * apply (bq_addr _ _ _ Hk).
        * apply (bq_secure _ _ _ Hk).
        * apply (bq_cached _ _ _ Hk).
        * destruct Hk as [Hc _ _ _ _ _]. clear -Hc. repeat (apply elem_of_cons in Hc as [->|Hc]; [done|]). by apply elem_of_nil in Hc.
      + by apply mem_aligned.
      + rewrite <-Hlen. by eapply lookup_lt_Some.
      + eexists. split; [unfold Sys.on_tracker; simpl; by rewrite Hf|]. rewrite Hhs in Htr. done.
    - exists s1. split; [done|]. split_and!; try done. by apply unfiltered. }
  rewrite (M_bind_ok _ _ _ _ _ Ht). exists (set_cmd (cmd k) (answered k l)), s2. split; [done|].
  assert (snooped (isInvalidate (cmd k)) a i [j] s s2) as Hs2.
  { pose proof (snooped_set (isInvalidate (cmd k)) a i j c c' s Hj C' Hne) as H0. rewrite Hl in H0. specialize (H0 Hv').
    destruct H0 as [O L1 S1 V1 M1 C1]. split; [|by rewrite Hc2|by rewrite Hc2| |by rewrite Hm2|by rewrite Ho2].
    - intros H. specialize (O H). intros x y. rewrite Hc2. apply O.
    - intros x y. rewrite <-V1. unfold V. by rewrite Hc2. }
  split; [done|]. split; [done|]. split; [done|]. split; [intros E; simpl; by rewrite E|]. split; [intros E; simpl; by rewrite E|].
  split; [|done]. change (hasSharers (set_cmd (cmd k) (answered k l))) with (hasSharers (answered k l)). rewrite Hhs.
  destruct (isInvalidate (cmd k)); done.
Qed.

Lemma snooped_no_dirty inv a i D1 D2 s s1 :
  NoDup (D1 ++ D2) → snooped inv a i D1 s s1 → no_dirty s a i D2 → no_dirty s1 a i D2.
Proof.
  intros (_ & Hdis & _)%NoDup_app Hs Hcl j l Hj Hne Hl. apply (Hcl j l); try done.
  rewrite (sn_view _ _ _ _ _ _ Hs), decide_False in Hl by (intros [Hj1 _]; by apply (Hdis j)). done.
Qed.

Lemma snooped_sharer inv a i D1 D2 s s1 :
  NoDup (D1 ++ D2) → snooped inv a i D1 s s1 → sharer s1 a i D2 ↔ sharer s a i D2.
Proof.
  intros (_ & Hdis & _)%NoDup_app Hs. unfold sharer.
  split; intros (j & l & Hj & Hne & Hl); exists j, l; (split; [done|]; split; [done|]);
    rewrite (sn_view _ _ _ _ _ _ Hs), decide_False in * by (intros [Hj1 _]; by apply (Hdis j)); done.
Qed.

(** The outcome of the whole loop: nobody had the line dirty, or the one cache
    that had it has answered. *)
Lemma loop_ok a i D k s K :
  in_mem a → all_ok s → bus_request P k a → cacheResponding k = false → responderHadWritable k = false → hasSharers k = false →
  NoDup D → length (Sys.caches s) = ncaches → (∀ j, j ∈ D → (j < ncaches)%nat) → (i < ncaches)%nat →
  (∀ j j' l l', j ≠ j' → V s j a = Some l → V s j' a = Some l' → dirty l = true → dirty l' = false) →
  asked (Sys.tracker s) K a i → (∀ j l, V s j a = Some l → K a j) →
  ∃ k' r s', Sys.atomic_loop snoop (cmd k) i D k InvalidCmd s = Ok ((k', r), s') ∧
    snooped (isInvalidate (cmd k)) a i D s s' ∧ same_packet k k' ∧
    (hasSharers k' = true ↔ isInvalidate (cmd k) = false ∧ sharer s a i D) ∧
    (no_dirty s a i D ∧ r = InvalidCmd ∧ cacheResponding k' = false ∧ data k' = data k ∧ Sys.tracker s' = Sys.tracker s ∨
     ∃ j l, j ∈ D ∧ j ≠ i ∧ V s j a = Some l ∧ dirty l = true ∧ r = resp_cmd (cmd k) ∧ cacheResponding k' = true ∧
       (isRead (cmd k) = true → data k' = Some (bytes l)) ∧
       tracks (Sys.tracker s') (handed_over K a i (negb (isInvalidate (cmd k))))).
Proof using G rw private mem_aligned mem_served.
  intros Ha Hall Hk Hcr Hrw Hsh Hnd Hlen Hlt Hi Hone Hask HK.
  assert (∀ j, j ∈ D → (j < length (Sys.caches s))%nat) as Hlt' by (intros; rewrite Hlen; auto).
  destruct (dirty_or_not s a i D) as [Hcl|(D1 & j & D2 & l & -> & Hne & Hl & Hd & Hcl1)].
  { destruct (loop_clean a i InvalidCmd D k s) as (k' & s' & H' & Hs & Ht & Hshr); try done.
    destruct (shares_same _ _ _ Hshr) as (Hsame & Hdat & Hcr' & _ & Hiff). exists k', InvalidCmd, s'. split; [done|]. split; [done|].
    split; [done|]. split; [rewrite Hiff, Hsh; naive_solver|]. left. split_and!; (done || congruence). }
  pose proof Hnd as (Hnd1 & Hdis & [Hj2 Hnd2]%NoDup_cons)%NoDup_app.
  destruct (loop_clean a i InvalidCmd D1 k s) as (k1 & s1 & H1 & Hs1 & Ht1 & Hshr1); try done.
  { intros x Hx. apply Hlt'. rewrite elem_of_app. by left. }
  destruct (shares_same _ _ _ Hshr1) as (Hsame1 & Hdat1 & Hcr1 & Hrw1 & Hiff1). pose proof Hsame1 as (Hc1 & _).
  assert (bus_request P k1 a) as Hk1 by (eapply same_packet_request; [done|by left|done]).
  assert (V s1 j a = Some l) as Hl1.
  { rewrite (sn_view _ _ _ _ _ _ Hs1), decide_False by (intros [Hx _]; apply (Hdis j Hx); by left). done. }
  destruct (Sys.caches s1 !! j) as [c|] eqn:Hj1; [|unfold V in Hl1; by rewrite Hj1 in Hl1].
  assert (view c a = Some l) as Hvc by (unfold V in Hl1; by rewrite Hj1 in Hl1).
  destruct (loop_dirty a i j D2 c l k1 s1 K) as (k2 & s2 & H2 & Hs2 & Hsame2 & Hcr2 & Hdat2 & Hdat2' & Hsh2 & Htr2); try done.
  { by apply (sn_ok _ _ _ _ _ _ Hs1). } { congruence. } { congruence. }
  { rewrite Hc1. intros Hinv. destruct (hasSharers k1) eqn:E; [|done]. destruct (proj1 Hiff1 eq_refl) as [?|[? _]]; congruence. }
  { by rewrite (sn_len _ _ _ _ _ _ Hs1). } { by rewrite Ht1. } { by eapply HK. }
  pose proof Hsame2 as (Hc2 & _). rewrite Hc1 in *.
  assert (bus_request P k2 a) as Hk2.
  { eapply same_packet_request; [done| |done]. destruct (isRead (cmd k)); [right; eexists; by apply Hdat2|left; symmetry; by apply Hdat2']. }
  assert (snooped (isInvalidate (cmd k)) a i (D1 ++ [j]) s s2) as Hs12.
  { eapply snooped_app; [|done|done]. apply NoDup_app. split; [done|]. split; [|apply NoDup_singleton].
    intros x Hx [->|?%elem_of_nil]%elem_of_cons; [|done]. apply (Hdis j Hx). by left. }
  assert (NoDup ((D1 ++ [j]) ++ D2)) as Hnd' by (by rewrite <-app_assoc).
  assert (no_dirty s a i D2) as Hcl2.
  { intros x lx Hx Hnx Hlx. apply (Hone j x l lx); try done. intros ->. done. }
  destruct (loop_clean a i (resp_cmd (cmd k)) D2 k2 s2) as (k3 & s3 & H3 & Hs3 & Ht3 & Hshr3); try done.
  { by apply (sn_ok _ _ _ _ _ _ Hs12). }
  { intros x Hx. rewrite (sn_len _ _ _ _ _ _ Hs12). apply Hlt'. rewrite elem_of_app. right. by right. }
  { by eapply snooped_no_dirty. }
  destruct (shares_same _ _ _ Hshr3) as (Hsame3 & Hdat3 & Hcr3 & _ & Hiff3). rewrite Hc2 in *.
  exists k3, (resp_cmd (cmd k)), s3. split; [by rewrite (atomic_loop_app _ _ _ _ _ _ _ _ _ _ H1), H2|].
  split; [replace (D1 ++ j :: D2) with ((D1 ++ [j]) ++ D2) by (by rewrite <-app_assoc); by eapply snooped_app|].
  split; [unfold same_packet in *; intuition congruence|]. split.
  - rewrite Hiff3, Hsh2. assert (sharer s a i (D1 ++ j :: D2)) by (exists j, l; rewrite elem_of_app; split; [right; by left|done]). tauto.
  - right. exists j, l. rewrite elem_of_app. split; [right; by left|]. split_and!; try done.
    + congruence.
    + intros E. rewrite Hdat3. auto.
    + by rewrite Ht3.
Qed.
End loops.

(** ** The memory below *)

Context (start msize : Z).
Hypothesis range_eq : range = AddrRange.range start (start + msize).
Hypothesis start_pos : 0 ≤ start.
Hypothesis range_fits : start + msize < 2 ^ 64.
Hypothesis mem_within : ∀ a, in_mem a → start ≤ a ∧ a + blkSize ≤ start + msize.

(** The line at [a] in an array of bytes that starts at [start]. *)
Definition line_of (d : list Z) (a : Z) : list Z := slice (Z.to_nat (a - start)) (Z.to_nat blkSize) d.

Lemma subset_ok k a : in_mem a → addr k = a → size k = blkSize → AddrRange.isSubset (Mem.getAddrRange k) range = Ok true.
Proof using G range_eq start_pos range_fits mem_within.
  intros Ha Hk Hs. pose proof (blkSize_pos _ _ _ G). destruct (mem_within a Ha). rewrite range_eq.
  unfold AddrRange.isSubset, Mem.getAddrRange, AddrRange.RangeSize, AddrRange.range. simpl. rewrite Hk, Hs.
  unfold u64. rewrite Z.mod_small by lia. rewrite !(proj2 (Z.leb_le _ _)) by lia. done.
Qed.

Lemma toHostAddr_eq a : Mem.toHostAddr range a = a - start.
Proof using range_eq. unfold Mem.toHostAddr, AddrRange.start. by rewrite range_eq. Qed.

Lemma mem_read k a m d :
  in_mem a → bus_request P k a → isRead (cmd k) = true → cacheResponding k = false →
  Mem.pmem m = Some d → Z.of_nat (length d) = msize →
  Mem.recvAtomic range k m = Ok (set_cmd (resp_cmd (cmd k)) (set_data (Some (line_of d a)) k), m).
Proof using G range_eq start_pos range_fits mem_within.
  intros Ha Hk Hr Hcr Hm Hl. destruct (bus_cmd _ k a Hk) as (E1 & E2 & _ & _ & E5 & _ & E7 & _). destruct (bus_resp _ k a Hk) as (R1 & _).
  pose proof (blkSize_pos _ _ _ G). destruct (mem_within a Ha). destruct (bq_data _ _ _ Hk Hr) as (d0 & Hd0).
  assert (isCleanEviction k = false ∧ cmd k ≠ SwapReq ∧ isLLSC (cmd k) = false) as (Hce & Hsw & Hll).
  { pose proof (bq_cmd _ _ _ Hk) as Hc. unfold isCleanEviction.
    repeat (apply elem_of_cons in Hc as [Hc|Hc]; [rewrite Hc in *; done|]). by apply elem_of_nil in Hc. }
  unfold Mem.recvAtomic, Mem.access. rewrite Hcr, Hce. rewrite (M_bind_ok _ _ _ _ _ (lift_ok _ _ m (subset_ok k a Ha (bq_addr _ _ _ Hk) (bq_size _ _ _ Hk)))).
  rewrite (M_bind_ok _ _ _ tt m) by done. rewrite bool_decide_false, Hr by done.
  rewrite (M_bind_ok _ _ _ (set_data (Some (line_of d a)) k) m).
  - cbn [cmd set_data]. rewrite E2. apply lift_ok. unfold makeResponse. cbn [cmd set_data]. by rewrite E1, E2, R1.
  - rewrite E5, Hll. rewrite (M_bind_ok _ _ _ tt m) by done. rewrite (M_bind_ok _ _ _ tt m) by done.
    unfold Mem.read_host. rewrite (M_bind_ok _ _ _ m m), Hm by done. apply lift_ok.
    unfold setData, getPtr, getConstPtr. rewrite Hd0, E7, toHostAddr_eq, (bq_addr _ _ _ Hk), (bq_size _ _ _ Hk). cbn [of_option mbind res_bind].
    by rewrite copy_out_ok by lia.
Qed.

(** ** A request *)

Hypothesis coherence_point : Sys.pointOfCoherency X = true.
Hypothesis caches_used : Sys.bypassCaches X = false.

(** Caches other than [i] that have the line dirty. *)
Definition dirty_other (s : Sys) (a : Z) (i : nat) (l : Line) : Prop := ∃ j, j ≠ i ∧ V s j a = Some l ∧ dirty l = true.

(** The state and the packet after the request of cache [i]. *)
Record bus_done (k : Pkt) (a : Z) (i : nat) (d : list Z) (s : Sys) (k' : Pkt) (s' : Sys) (K' : Copies) : Prop := {
  bd_cmd : cmd k' = resp_cmd (cmd k);
  bd_same : addr k' = addr k ∧ isSecure k' = isSecure k ∧ size k' = size k;
  bd_sharers : hasSharers k' = true ↔ isInvalidate (cmd k) = false ∧ ∃ j l, j ≠ i ∧ V s j a = Some l;
  bd_responding : cacheResponding k' = true ↔ ∃ l, dirty_other s a i l;
  bd_data : isRead (cmd k) = true → (∃ l, dirty_other s a i l ∧ data k' = Some (bytes l)) ∨
    (¬ ∃ l, dirty_other s a i l) ∧ data k' = Some (line_of d a);
  bd_self : Sys.caches s' !! i = Sys.caches s !! i;
  bd_view : ∀ j a', V s' j a' = if decide (j ≠ i ∧ a' = a) then snoop_line (isInvalidate (cmd k)) (V s j a) else V s j a';
  bd_ok : all_ok s';
  bd_len : length (Sys.caches s') = length (Sys.caches s);
  bd_mem : Sys.memory s' = Sys.memory s;
  bd_tracks : tracks (Sys.tracker s') K' ∧ K' a i ∧ ∀ j a' l, V s' j a' = Some l → K' a' j;
}.

Lemma access_below_ok k0 a (s : Sys) k d :
  in_mem a → bus_request P k0 a → same_packet k0 k → data k = data k0 → cacheResponding k = false →
  Mem.pmem (Sys.memory s) = Some d → Z.of_nat (length d) = msize →
  ∃ k', Sys.access_below X range k s = Ok (k', s) ∧ cmd k' = resp_cmd (cmd k0) ∧ addr k' = addr k0 ∧ isSecure k' = isSecure k0 ∧
    size k' = size k0 ∧ req k' = req k0 ∧ hasSharers k' = hasSharers k ∧ cacheResponding k' = false ∧
    (isRead (cmd k0) = true → data k' = Some (line_of d a)).
Proof using G range_eq start_pos range_fits mem_within coherence_point.
  intros Ha Hk0 Hsame Hdat Hcr Hm Hl. assert (bus_request P k a) as Hk by (eapply same_packet_request; [done|by left|done]).
  pose proof Hsame as (Hc & Had & Hse & Hsi & Hrq & _). destruct (bus_cmd _ k a Hk) as (E1 & E2 & E3 & E4 & E5 & E6 & E7 & _).
  destruct (bus_resp _ k a Hk) as (R1 & _). unfold Sys.access_below.
  assert (Sys.sinkPacket X k = false) as ->.
  { unfold Sys.sinkPacket. rewrite coherence_point, Hcr, E2, andb_false_r. cbn [andb orb negb]. rewrite orb_false_r.
    unfold isCleanEviction. pose proof (bq_cmd _ _ _ Hk) as Hb.
    repeat (apply elem_of_cons in Hb as [Hb|Hb]; [rewrite Hb; done|]). by apply elem_of_nil in Hb. }
  unfold Sys.forwardPacket. rewrite E3, E5, coherence_point. cbn [negb]. rewrite !orb_false_r. destruct (isRead (cmd k)) eqn:Hr.
  - cbn [andb]. eexists. split.
    { unfold Sys.on_mem. rewrite (mem_read k a _ d) by done. destruct s. reflexivity. }
    rewrite <-Hc in *. simpl. split_and!; try done.
  - rewrite E2. rewrite (M_bind_ok _ _ _ tt s) by done. eexists. split; [apply lift_ok; unfold makeResponse; rewrite E1, E2, R1; reflexivity|].
    rewrite <-Hc in *. simpl. split_and!; try done. congruence.
Qed.

Lemma recvAtomicBackdoor_ok snd i k a (s : Sys) K d :
  in_mem a → all_ok s → bus_request P k a → cacheResponding k = false → responderHadWritable k = false → hasSharers k = false →
  length (Sys.caches s) = ncaches → (i < ncaches)%nat →
  (∀ j j' l l', j ≠ j' → V s j a = Some l → V s j' a = Some l' → dirty l = true → dirty l' = false) →
  tracks (Sys.tracker s) K → (∀ j a' l, V s j a' = Some l → K a' j) →
  Mem.pmem (Sys.memory s) = Some d → Z.of_nat (length d) = msize →
  ∃ k' s' K', Sys.recvAtomicBackdoor X range (λ j k, Cache.recvAtomicSnoop P (λ A, @Sys.on_cache F j A) (snd j) Sys.above k) i k s = Ok (k', s') ∧
    bus_done k a i d s k' s' K'.
Proof using G rw private mem_aligned mem_served range_eq start_pos range_fits mem_within coherence_point caches_used.
  intros Ha Hall Hk Hcr Hrw Hsh Hlen Hi Hone Htr HK Hm Hl. destruct (bus_cmd _ k a Hk) as (E1 & E2 & E3 & E4 & E5 & E6 & E7 & E8 & E9 & E10 & _).
  destruct (bus_resp _ k a Hk) as (_ & R2 & _ & _ & _ & _ & R7 & R8 & R9 & _).
  unfold Sys.recvAtomicBackdoor. rewrite caches_used, bool_decide_false by done. cbn [negb andb].
  destruct (lookup_ok (Sys.tracker s) K k a i Htr Hk Hcr (mem_aligned a Ha) Hi) as (D & f & Hlk & Hask & Hnd & Hlt & Hcov).
  set (s0 := Sys.mkSys (Sys.caches s) (Sys.memory s) f (Sys.outstandingCMO s)).
  assert (∀ j a', V s0 j a' = V s j a') as HV0 by done.
  destruct (loop_ok snd a i D k s0 K) as (k1 & r & s1 & Hloop & Hs1 & Hsame & Hshr & Hcase); try done.
  { intros j l Hj. by eapply HK. }
  assert (Sys.snoop_caches X (λ j k, Cache.recvAtomicSnoop P (λ A, @Sys.on_cache F j A) (snd j) Sys.above k) k i s = Ok ((k1, r), s1)) as Hsn.
  { unfold Sys.snoop_caches. rewrite (M_bind_ok _ _ _ D s0) by (unfold Sys.on_tracker; by rewrite Hlk). rewrite E4, andb_false_r.
    unfold Sys.forwardAtomic. rewrite caches_used. rewrite (M_bind_ok _ _ _ tt s0) by done. exact Hloop. }
  rewrite (M_bind_ok _ _ _ _ _ Hsn).
  assert (∀ j l, j ≠ i → V s j a = Some l → j ∈ D) as Hin.
  { intros j l Hne Hj. apply Hcov; [|done|by eapply HK]. rewrite <-Hlen. unfold V in Hj. destruct (Sys.caches s !! j) eqn:E; [|done].
    by eapply lookup_lt_Some. }
  assert (∀ j a', V s1 j a' = if decide (j ≠ i ∧ a' = a) then snoop_line (isInvalidate (cmd k)) (V s j a) else V s j a') as Hview.
  { intros j a'. rewrite (sn_view _ _ _ _ _ _ Hs1), !HV0. destruct (decide (j ≠ i ∧ a' = a)) as [[Hne ->]|Hn].
    - case_decide as E; [done|]. destruct (V s j a) as [l|] eqn:El; [|done]. destruct E. split; [by eapply Hin|done].
    - by rewrite decide_False by (intros (_ & ? & ?); by apply Hn). }
  assert (hasSharers k1 = true ↔ isInvalidate (cmd k) = false ∧ ∃ j l, j ≠ i ∧ V s j a = Some l) as Hshr'.
  { rewrite Hshr. unfold sharer. split; intros [? (j & l & Hj)]; (split; [done|]); exists j, l; [by destruct Hj as (_ & ? & ?)|].
    destruct Hj as [Hne Hj]. split; [by eapply Hin|done]. }
  assert (all_ok s1) as Hok1 by (apply (sn_ok _ _ _ _ _ _ Hs1); done).
  pose proof Hsame as (Hc & Had & Hse & Hsi & Hrq & _).
  destruct Hcase as [(Hcl & -> & Hcr1 & Hdat & Ht)|(j & l & Hj & Hne & Hvj & Hd & -> & Hcr1 & Hdat & Ht)].
  - assert (¬ ∃ l, dirty_other s a i l) as Hnd'.
    { intros (l & j & Hne & Hj & Hd). rewrite (Hcl j l) in Hd; [done|by eapply Hin|done|by rewrite HV0]. }
    destruct (access_below_ok k a s1 k1 d) as (k2 & H2 & C2 & A2 & S2 & Z2 & Q2 & Hs2 & Cr2 & D2); try done.
    { by rewrite (sn_mem _ _ _ _ _ _ Hs1). }
    rewrite (M_bind_ok _ _ _ _ _ H2). rewrite C2, R2. rewrite andb_true_r.
    assert (∃ s2, when tr_filters (Sys.on_tracker (tr_response k2 i)) s1 = Ok (tt, s2) ∧ Sys.caches s2 = Sys.caches s1 ∧
      Sys.memory s2 = Sys.memory s1 ∧ tracks (Sys.tracker s2) (with_copy K a i)) as (s2 & Ht2 & Hc2 & Hm2 & Htr2).
    { destruct tr_filters eqn:Hfl; cbn [when].
      - destruct (response_ok (Sys.tracker s1) K k2 a i) as (f' & Hf & Htr'); try done.
        + by rewrite Ht.
        + split; [rewrite A2; apply (bq_addr _ _ _ Hk)|rewrite S2; apply (bq_secure _ _ _ Hk)|by rewrite C2|rewrite Q2; apply (bq_cached _ _ _ Hk)|].
          rewrite C2. pose proof (bq_cmd _ _ _ Hk) as Hb. repeat (apply elem_of_cons in Hb as [Hb|Hb]; [rewrite Hb; done|]). by apply elem_of_nil in Hb.
        + by apply mem_aligned.
        + eexists. split; [unfold Sys.on_tracker; by rewrite Hf|]. done.
      - exists s1. split_and!; try done. by apply unfiltered. }
    rewrite (M_bind_ok _ _ _ _ _ Ht2). rewrite bool_decide_true by done. cbn [negb when]. rewrite (M_bind_ok _ _ _ tt s2) by done.
    rewrite (M_bind_ok _ _ _ tt s2); [|unfold Sys.atomic_clean; rewrite (M_bind_ok _ _ _ s2 s2) by done; rewrite C2, R8; cbn [andb]; by rewrite bool_decide_false].
    exists k2, s2, (with_copy K a i). split; [done|].
    assert (∀ j a', V s2 j a' = V s1 j a') as HV2 by (intros; unfold V; by rewrite Hc2).
    split; try done.
    + by rewrite Hs2.
    + rewrite Cr2. split; [done|]. by intros ?%Hnd'.
    + intros Hr. right. auto.
    + rewrite Hc2. by rewrite (sn_self _ _ _ _ _ _ Hs1).
    + intros. by rewrite HV2.
    + intros x y. rewrite Hc2. apply Hok1.
    + rewrite Hc2. by rewrite (sn_len _ _ _ _ _ _ Hs1).
    + rewrite Hm2. by rewrite (sn_mem _ _ _ _ _ _ Hs1).
    + split; [done|]. split; [by right|]. intros x y lx. rewrite HV2, Hview. case_decide as E.
      * destruct E as [? ->]. unfold snoop_line. destruct (V s x a) eqn:Ex; [|done]. intros _. left. by eapply HK.
      * intros ?. left. by eapply HK.
  - assert (Sys.sinkPacket X k1 = true) as Hsink by (unfold Sys.sinkPacket; by rewrite coherence_point, Hcr1).
    unfold Sys.access_below. rewrite Hsink. rewrite (M_bind_ok _ _ _ k1 s1) by done. rewrite Hc, E9, andb_false_r. cbn [when].
    rewrite (M_bind_ok _ _ _ tt s1) by done. rewrite bool_decide_false by done. cbn [negb when]. rewrite (M_bind_ok _ _ _ tt s1) by done.
    rewrite (M_bind_ok _ _ _ tt s1); [|unfold Sys.atomic_clean; rewrite (M_bind_ok _ _ _ s1 s1) by done; cbn [cmd set_cmd]; rewrite R8; cbn [andb]; by rewrite bool_decide_false].
    exists (set_cmd (resp_cmd (cmd k)) k1), s1, (handed_over K a i (negb (isInvalidate (cmd k)))). split; [done|]. rewrite HV0 in Hvj.
    assert (dirty_other s a i l) as Hdo by (by exists j).
    split; try done.
    + simpl. rewrite Hcr1. split; [|done]. intros _. by exists l.
    + intros Hr. left. exists l. split; [done|]. simpl. auto.
    + by rewrite (sn_self _ _ _ _ _ _ Hs1).
    + by rewrite (sn_len _ _ _ _ _ _ Hs1).
    + by rewrite (sn_mem _ _ _ _ _ _ Hs1).
    + split; [done|]. split; [unfold handed_over; rewrite decide_True by done; by left|]. intros x y lx. rewrite Hview. unfold handed_over.
      case_decide as E.
      * destruct E as [Hx ->]. rewrite decide_True by done. unfold snoop_line. destruct (V s x a) eqn:Ex; [|done].
        destruct (isInvalidate (cmd k)); [done|]. intros _. right. split; [done|by eapply HK].
      * intros Hx. case_decide as Ey; [|by eapply HK]. subst y. destruct (decide (x = i)); [by left|]. destruct E. done.
Qed.

(** ** Evictions *)

Definition evict_pkt (k : Pkt) (v : Z) : Prop :=
  cmd k ∈ [WritebackDirty; WritebackClean; CleanEvict] ∧ addr k = v ∧ isSecure k = false ∧ uncacheable (req k) = false.

Lemma evict_cmd k v : evict_pkt k v →
  isRequest (cmd k) = true ∧ isInvalidate (cmd k) = false ∧ isClean (cmd k) = false ∧ mustCheckAbove k = true ∧
  isResponse (cmd k) = false ∧ isEviction (cmd k) = true ∧ cmd k ≠ WriteClean ∧ needsResponse (cmd k) = false ∧ isRead (cmd k) = false.
Proof. intros [Hc _]. unfold mustCheckAbove. repeat (apply elem_of_cons in Hc as [->|Hc]; [done|]). by apply elem_of_nil in Hc. Qed.

Lemma snoop_evict snd (s : Sys) j c k v :
  Sys.caches s !! j = Some c → cache_ok c → in_mem v → evict_pkt k v →
  ∃ k', Cache.recvAtomicSnoop P (λ A, @Sys.on_cache F j A) snd Sys.above k s = Ok (k', s) ∧ (k' = k ∨ k' = setBlockCached k).
Proof using G rw private mem_aligned mem_served.
  intros Hj C Hv Hk. pose proof Hk as (_ & Ha & Hs & Hu). destruct (evict_cmd k v Hk) as (E1 & E2 & E3 & E4 & _).
  unfold Cache.recvAtomicSnoop. rewrite Ha, Hs. rewrite (M_bind_ok _ _ _ _ _ (lift_ok _ _ s (mem_served v Hv))). cbn [negb].
  rewrite (M_bind_ok _ _ _ c s); [|unfold Sys.on_cache; rewrite Hj; cbn [of_option mbind res_bind]; unfold gets; by rewrite (set_cache_id j c s Hj : Sys.mkSys _ _ _ _ = s)].
  unfold handleSnoop. rewrite E1. rewrite (M_bind_ok _ _ _ tt s) by done. rewrite E2. cbn [andb].
  rewrite (M_bind_ok _ _ _ tt s) by done. rewrite private. rewrite (M_bind_ok _ _ _ k s) by done.
  pose proof (findBlock_view c v C (mem_aligned v Hv)) as Hf. destruct (Tags.findBlock _ _ _ _) as [i|]; cbn [fmap option_fmap option_map].
  - destruct Hf as (b & Hp & Hvw).
    assert (peek (Some (InTags i)) c = Ok (Some b, c)) as Hpk by (unfold peek; by rewrite (M_bind_ok _ _ _ _ _ (get_points _ _ _ _ _ Hp))).
    rewrite (M_bind_ok _ _ _ _ _ (on_cache_ok j c c s _ _ Hj Hpk)), (set_cache_id j c s Hj), E3.
    pose proof Hp as (? & _ & (_ & Hval & _)). rewrite Hval. cbn [negb]. rewrite rw. cbn [andb negb]. rewrite (M_bind_ok _ _ _ tt s) by done.
    exists (setBlockCached k). split; [|by right]. rewrite (on_cache_ok j c c s _ (setBlockCached k) Hj); [by rewrite (set_cache_id j c s Hj)|].
    unfold snoop_hit. by rewrite E4.
  - assert (peek None c = Ok (None, c)) as Hpk by done. rewrite (M_bind_ok _ _ _ _ _ (on_cache_ok j c c s _ _ Hj Hpk)), (set_cache_id j c s Hj).
    exists k. split; [done|by left].
Qed.

Lemma loop_evict snd v i D : ∀ k (s : Sys),
  in_mem v → all_ok s → evict_pkt k v → (∀ j, j ∈ D → (j < length (Sys.caches s))%nat) →
  ∃ k', Sys.atomic_loop (λ j k, Cache.recvAtomicSnoop P (λ A, @Sys.on_cache F j A) (snd j) Sys.above k) (cmd k) i D k InvalidCmd s =
      Ok ((k', InvalidCmd), s) ∧ (k' = k ∨ k' = setBlockCached k).
Proof using G rw private mem_aligned mem_served.
  induction D as [|j D IH]; intros k s Hv Hall Hk Hlt; cbn [Sys.atomic_loop]; [exists k; split; [done|by left]|].
  assert (∀ j, j ∈ D → (j < length (Sys.caches s))%nat) as Hlt' by (intros x Hx; apply Hlt; by right).
  case_bool_decide; [by apply IH|].
  destruct (lookup_lt_is_Some_2 (Sys.caches s) j ltac:(apply Hlt; by left)) as (c & Hj).
  destruct (snoop_evict (snd j) s j c k v Hj (Hall j c Hj) Hv Hk) as (k1 & H1 & Hk1). rewrite (M_bind_ok _ _ _ _ _ H1).
  destruct (evict_cmd k v Hk) as (_ & _ & _ & _ & E5 & _).
  assert (cmd k1 = cmd k ∧ evict_pkt k1 v) as [Ec Hk1'] by (destruct Hk1 as [-> | ->]; done).
  rewrite Ec, E5. cbn [negb]. rewrite <-Ec. destruct (IH k1 s Hv Hall Hk1' Hlt') as (k2 & H2 & Hk2). exists k2. split; [done|].
  destruct Hk1 as [-> | ->]; [done|]. right. by destruct Hk2 as [-> | ->].
Qed.

Lemma mem_writeback k v m d bs :
  in_mem v → evict_pkt k v → cmd k = WritebackDirty → size k = blkSize → data k = Some bs → Z.of_nat (length bs) = blkSize →
  cacheResponding k = false → Mem.pmem m = Some d → Z.of_nat (length d) = msize → Mem.lockedAddrList m = [] →
  Mem.recvAtomic range k m = Ok (k, Mem.set_pmem (splice (Z.to_nat (v - start)) bs d) m).
Proof using G range_eq start_pos range_fits mem_within.
  intros Hv (_ & Ha & _) Hc Hs Hd Hbs Hcr Hm Hl Hlk. destruct (mem_within v Hv). pose proof (blkSize_pos _ _ _ G).
  unfold Mem.recvAtomic, Mem.access. rewrite Hcr. unfold isCleanEviction. rewrite Hc. cbn [bool_decide decide orb].
  rewrite bool_decide_false, bool_decide_false by done. cbn [orb].
  rewrite (M_bind_ok _ _ _ _ _ (lift_ok _ _ m (subset_ok k v Hv Ha Hs))). rewrite (M_bind_ok _ _ _ tt m) by done. rewrite bool_decide_false by done.
  change (isRead WritebackDirty) with false. change (isInvalidate WritebackDirty || isClean WritebackDirty) with false.
  change (isWrite WritebackDirty) with true. cbn iota.
  assert (Mem.write_host range k m = Ok (tt, Mem.set_pmem (splice (Z.to_nat (v - start)) bs d) m)) as Hw.
  { unfold Mem.write_host. rewrite (M_bind_ok _ _ _ m m), Hm by done.
    rewrite (M_bind_ok _ _ _ (splice (Z.to_nat (v - start)) bs d) m); [done|]. apply lift_ok.
    assert (isMaskedWrite k = false) as Hmw by (unfold isMaskedWrite; by rewrite Hc, bool_decide_false).
    unfold writeData, getConstPtr. rewrite Hd, Hs, Hmw. cbn [of_option mbind res_bind]. rewrite copy_out_ok by lia. cbn [mbind res_bind].
    rewrite toHostAddr_eq, Ha. rewrite <-Hbs, Nat2Z.id. change (Z.to_nat 0) with 0%nat. rewrite slice_all. rewrite copy_in_ok by lia. done. }
  assert (Mem.writeOK k m = Ok ((true, k), m)) as Hok.
  { unfold Mem.writeOK. rewrite (M_bind_ok _ _ _ m m), Hlk by done. rewrite bool_decide_true, Hc by done. done. }
  rewrite (M_bind_ok _ _ _ k (Mem.set_pmem (splice (Z.to_nat (v - start)) bs d) m)).
  - rewrite Hc. done.
  - rewrite (M_bind_ok _ _ _ _ _ Hok). cbn [fst snd when]. by rewrite (M_bind_ok _ _ _ _ _ Hw).
Qed.

(** The memory after an eviction. *)
Definition written_back (l : Line) (v : Z) (m m' : Mem.Mem) : Prop :=
  Mem.lockedAddrList m' = Mem.lockedAddrList m ∧
  if dirty l then ∀ d, Mem.pmem m = Some d → Mem.pmem m' = Some (splice (Z.to_nat (v - start)) (bytes l) d) else Mem.pmem m' = Mem.pmem m.

Lemma evict_below wb k v l (s : Sys) d :
  in_mem v → evicts P wb v l → k = wb ∨ k = setBlockCached wb → (dirty l = true → Z.of_nat (length (bytes l)) = blkSize) →
  Mem.pmem (Sys.memory s) = Some d → Z.of_nat (length d) = msize → Mem.lockedAddrList (Sys.memory s) = [] →
  ∃ m', Sys.access_below X range k s = Ok (k, Sys.mkSys (Sys.caches s) m' (Sys.tracker s) (Sys.outstandingCMO s)) ∧
    written_back l v (Sys.memory s) m'.
Proof using G range_eq start_pos range_fits mem_within coherence_point.
  intros Hv He Hk Hbl Hm Hl Hlk. pose proof He as [Ha Hse Hsi Hrq (Hcr & Hbc & Hsat) Hdi Hcl].
  assert (Sys.mkSys (Sys.caches s) (Sys.memory s) (Sys.tracker s) (Sys.outstandingCMO s) = s) as Hid by (by destruct s).
  assert (cmd k = cmd wb ∧ cacheResponding k = false ∧ addr k = v ∧ isSecure k = false ∧ size k = blkSize ∧ data k = data wb ∧ req k = req wb)
    as (Ec & Ecr & Eka & Eks & Esz & Eda & Ereq) by (destruct Hk as [-> | ->]; simpl; split_and!; congruence).
  assert (Sys.isDestination X k = false) as Hdst by (unfold Sys.isDestination; by rewrite Ereq, Hrq).
  unfold Sys.access_below, Sys.sinkPacket, Sys.forwardPacket. rewrite Ecr, coherence_point, Hdst, Ec. unfold written_back. destruct (dirty l) eqn:Ed.
  - destruct (Hdi eq_refl) as [Hc Hd]. rewrite Hc. cbn [negb andb orb isRead isWrite isClean].
    assert (isCleanEviction k = false) as Hce by (unfold isCleanEviction; by rewrite Ec, Hc).
    rewrite Hce. change (isRead WritebackDirty) with false. change (isWrite WritebackDirty) with true.
    change (isClean WritebackDirty) with false. change (needsResponse WritebackDirty) with false. cbn [negb andb orb].
    eexists. split.
    + unfold Sys.on_mem. rewrite (mem_writeback k v _ d (bytes l)); try done; try congruence; [|by auto].
      split; [rewrite Ec, Hc; by left|]. split_and!; try done. by rewrite Ereq, Hrq.
    + split; [done|]. intros d' Hd'. rewrite Hm in Hd'. injection Hd' as <-. done.
  - destruct (Hcl eq_refl) as [Hc|Hc]; rewrite Hc.
    + exists (Sys.memory s). rewrite Hid. split; [|done]. done.
    + assert (isCleanEviction k = true) as Hce by (unfold isCleanEviction; by rewrite Ec, Hc). rewrite Hce.
      change (isRead WritebackClean) with false. change (isWrite WritebackClean) with true. change (isClean WritebackClean) with false.
      change (needsResponse WritebackClean) with false. change (needsWritable WritebackClean) with false. cbn [negb andb orb].
      rewrite orb_false_r. exists (Sys.memory s). rewrite Hid. split; [|done]. destruct (blockCached k); [done|].
      unfold Sys.on_mem, Mem.recvAtomic, Mem.access. rewrite Ecr, Hce. cbn [mret M_ret]. unfold mret, M_ret. by rewrite Hid.
Qed.

Lemma evict_ok snd i wb v l (s : Sys) K d :
  in_mem v → all_ok s → evicts P wb v l → (dirty l = true → Z.of_nat (length (bytes l)) = blkSize) →
  length (Sys.caches s) = ncaches → (i < ncaches)%nat → tracks (Sys.tracker s) K → K v i →
  Mem.pmem (Sys.memory s) = Some d → Z.of_nat (length d) = msize → Mem.lockedAddrList (Sys.memory s) = [] →
  ∃ k' s', Sys.recvAtomicBackdoor X range (λ j k, Cache.recvAtomicSnoop P (λ A, @Sys.on_cache F j A) (snd j) Sys.above k) i wb s = Ok (k', s') ∧
    Sys.caches s' = Sys.caches s ∧ tracks (Sys.tracker s') (without_copy K v i) ∧ written_back l v (Sys.memory s) (Sys.memory s').
Proof using G rw private mem_aligned mem_served range_eq start_pos range_fits mem_within coherence_point caches_used.
  intros Hv Hall He Hbl Hlen Hi Htr HK Hm Hl Hlk. pose proof He as [Ha Hse Hsi Hrq (Hcr & Hbc & Hsat) Hdi Hcl].
  assert (cmd wb ∈ [WritebackDirty; WritebackClean; CleanEvict]) as Hin.
  { destruct (dirty l); [rewrite (proj1 (Hdi eq_refl)); by left|]. destruct (Hcl eq_refl) as [-> | ->]; set_solver. }
  assert (evict_pkt wb v) as Hk by (split_and!; try done; by rewrite Hrq).
  destruct (evict_cmd wb v Hk) as (E1 & E2 & E3 & E4 & E5 & E6 & E7 & _).
  destruct (lookup_evict_ok (Sys.tracker s) K wb v i Htr) as (D & f & Hlkp & Htr' & Hlt); try done.
  { split; try done. by rewrite Hrq. } { by apply mem_aligned. }
  set (s0 := Sys.mkSys (Sys.caches s) (Sys.memory s) f (Sys.outstandingCMO s)).
  assert (∃ k, Sys.snoop_caches X (λ j k, Cache.recvAtomicSnoop P (λ A, @Sys.on_cache F j A) (snd j) Sys.above k) wb i s = Ok ((k, InvalidCmd), s0) ∧
    (k = wb ∨ k = setBlockCached wb)) as (k & Hsn & Hkk).
  { unfold Sys.snoop_caches. rewrite (M_bind_ok _ _ _ D s0) by (unfold Sys.on_tracker; by rewrite Hlkp). rewrite E6, andb_true_r.
    destruct tr_filters.
    - eexists. split; [done|]. case_bool_decide; auto.
    - unfold Sys.forwardAtomic. rewrite caches_used. rewrite (M_bind_ok _ _ _ tt s0) by done.
      apply (loop_evict snd v); try done. intros j Hj. change (Sys.caches s0) with (Sys.caches s). rewrite Hlen. auto. }
  unfold Sys.recvAtomicBackdoor. rewrite caches_used, bool_decide_false by done. cbn [negb andb]. rewrite (M_bind_ok _ _ _ _ _ Hsn).
  destruct (evict_below wb k v l s0 d) as (m' & H' & Hw); try done. rewrite (M_bind_ok _ _ _ _ _ H').
  assert (cmd k = cmd wb) as Ec by (destruct Hkk as [-> | ->]; done). rewrite Ec, E5, andb_false_r. cbn [when].
  set (s1 := Sys.mkSys _ m' _ _). rewrite (M_bind_ok _ _ _ tt s1) by done. rewrite bool_decide_true by done. cbn [negb when].
  rewrite (M_bind_ok _ _ _ tt s1) by done.
  rewrite (M_bind_ok _ _ _ tt s1); [|unfold Sys.atomic_clean; rewrite (M_bind_ok _ _ _ s1 s1) by done; rewrite Ec, E3; cbn [andb]; by rewrite bool_decide_false].
  exists k, s1. done.
Qed.
End bus.
