(* ===== verification/CacheAccess.v ===== *)
(** * Accesses of a core in one cache

    What a cache does with a read or write of the core above it: a hit, the
    request it sends on a miss, and how it uses the response. *)
From stdpp Require Import base tactics list strings sets.
From Stdlib Require Import ZArith Lia.
From S2P Require Import Prelude MemCmd AddrRange CachePkt CacheBlk CacheTags Cache CacheProps.
Import CachePkt Cache.
Local Open Scope Z_scope.

Section access.
Context (P : Params) (nb sb now : Z) (G : geometry (tp P) nb sb) (locking : bool) (rw : isReadOnly P = false).
Notation blkSize := (Tags.blkSize (tp P)).
Notation cache_ok := (cache_ok P nb sb locking).
Notation view := (view P).
Notation points := (points P).

(** A read or write of bytes [d] within the line at [a]. *)
Record core_pkt (k : Pkt) (a : Z) (d : list Z) : Prop := {
  cp_line : in_line P k a;
  cp_data : data k = Some d;
  cp_len : Z.of_nat (length d) = size k;
  cp_mask : isMasked (req k) = false;
  cp_cmd : cmd k ∈ [ReadReq; LoadLockedReq; WriteReq; WriteLineReq; StoreCondReq];
  cp_whole : cmd k = WriteLineReq → size k = blkSize;
  cp_locks : locks_fine locking k;
  cp_req : paddr (req k) = addr k ∧ secure (req k) = false ∧ uncacheable (req k) = false ∧ maintenance (req k) = false;
  cp_flags : hasSharers k = false ∧ cacheResponding k = false;
}.

Ltac by_cmd H := repeat (apply elem_of_cons in H as [H|H]; [rewrite H in *; done|]); by apply elem_of_nil in H.

Lemma core_cmd k a d : core_pkt k a d →
  isRequest (cmd k) = true ∧ isEviction (cmd k) = false ∧ cmd k ≠ WriteClean ∧ isClean (cmd k) = false ∧ isWriteback (cmd k) = false ∧
  fromCache (cmd k) = false ∧ needsResponse (cmd k) = true ∧ needsWritable (cmd k) = isWrite (cmd k) ∧ cmd k ≠ CleanEvict ∧
  cmd k ≠ InvalidateReq ∧ isUpgrade (cmd k) = false ∧ allocOnFill P (cmd k) = true ∧ isMaskedWrite k = false ∧
  cmd k ≠ SCUpgradeFailReq ∧ cmd k ≠ StoreCondFailReq.
Proof.
  intros [_ _ _ Hm Hc _ _ _ _]. unfold allocOnFill, isMaskedWrite. rewrite Hm, andb_false_r.
  assert (∀ c, c ∈ [ReadReq; LoadLockedReq; WriteReq; WriteLineReq; StoreCondReq] →
    bool_decide (clusivity P = mostly_incl) || bool_decide (c = WriteLineReq) || bool_decide (c = ReadReq) || bool_decide (c = WriteReq) ||
    isPrefetch c || isLLSC c = true) as Hal.
  { intros c Hin. repeat (apply elem_of_cons in Hin as [->|Hin]; [by destruct (bool_decide (clusivity P = mostly_incl))|]). by apply elem_of_nil in Hin. }
  rewrite Hal by done. by_cmd Hc.
Qed.

Lemma core_read k a d : core_pkt k a d → isWrite (cmd k) = false → cmd k = ReadReq ∨ cmd k = LoadLockedReq.
Proof. intros [_ _ _ _ Hc _ _ _ _] Hw. repeat (apply elem_of_cons in Hc as [Hc|Hc]; [rewrite Hc in *; auto; done|]). by apply elem_of_nil in Hc. Qed.
Lemma core_write k a d : core_pkt k a d → isWrite (cmd k) = true → cmd k = WriteReq ∨ cmd k = WriteLineReq ∨ cmd k = StoreCondReq.
Proof. intros [_ _ _ _ Hc _ _ _ _] Hw. repeat (apply elem_of_cons in Hc as [Hc|Hc]; [rewrite Hc in *; auto; done|]). by apply elem_of_nil in Hc. Qed.

(** ** The lookup *)

(** The block of the line in the cache, if it is there. *)
Definition found (c : Cache) (a : Z) (blk : option BlkPtr) : Prop :=
  match view c a with Some l => ∃ p b, blk = Some p ∧ points c a p b ∧ abs b = l | None => blk = None end.

Lemma access_start c k a d :
  cache_ok c → core_pkt k a d →
  ∃ blk c1, cache_ok c1 ∧ (∀ a', view c1 a' = view c a') ∧ found c1 a blk ∧
    access P now k c =
      (b ← peek blk;
       match blk, b with
       | Some p, Some b =>
           if (if needsWritable (cmd k) then CacheBlk.isSet CacheBlk.WritableBit b else CacheBlk.isSet CacheBlk.ReadableBit b) then
             k' ← satisfyRequest P k p false false;
             maintainClusivity P (fromCache (cmd k')) blk ;;
             mret (true, k', blk, [])
           else mret (false, k, blk, [])
       | _, _ =>
           if isLLSC (cmd k) && isWrite (cmd k) then mret (true, set_extraData 0 k, blk, [])
           else mret (false, k, blk, [])
       end) c1.
Proof using G rw.
  intros C Hk. pose proof (cp_line _ _ _ Hk) as Hl. destruct (cp_req _ _ _ Hk) as (_ & _ & Hu & Hm).
  destruct (core_cmd _ _ _ Hk) as (E1 & _ & E3 & _ & E5 & _ & _ & _ & E9 & _).
  destruct (accessBlock_ok P nb sb now G locking c k a C (il_secure _ _ _ Hl) (il_addr _ _ _ Hl) (il_align _ _ _ Hl))
    as (blk & c1 & H1 & C1 & V1 & Hf).
  exists blk, c1. split; [done|]. split; [done|]. split; [unfold found; by rewrite V1|].
  unfold access, access_base. rewrite Hu, E1. rewrite (M_bind_ok _ _ _ tt c) by done. rewrite rw. cbn [andb negb].
  rewrite (M_bind_ok _ _ _ tt c) by done. rewrite (M_bind_ok _ _ _ _ _ H1), Hm, E5. by rewrite !bool_decide_false by done.
Qed.

Lemma points_bits c a p b : cache_ok c → points c a p b →
  CacheBlk.valid b = true ∧ CacheBlk.isSet CacheBlk.WritableBit b = writable (abs b) ∧ CacheBlk.isSet CacheBlk.ReadableBit b = true ∧
  CacheBlk.isSet CacheBlk.DirtyBit b = dirty (abs b).
Proof.
  intros C (i & _ & (Hi & Hv & _)). rewrite !isSet_has, Hv. cbn [andb]. destruct (co_blk _ _ _ _ _ C i b Hi Hv) as [(_ & -> & _) _]. done.
Qed.

Lemma peek_points c a p b : points c a p b → peek (Some p) c = Ok (Some b, c).
Proof. intros Hp. unfold peek. by rewrite (M_bind_ok _ _ _ _ _ (get_points _ _ _ _ _ Hp)). Qed.

Lemma maintain_core c a p b : points c a p b → maintainClusivity P false (Some p) c = Ok (tt, c).
Proof. intros Hp. unfold maintainClusivity. by rewrite (M_bind_ok _ _ _ _ _ (get_points _ _ _ _ _ Hp)). Qed.

(** ** Hits *)

Lemma access_hit_read c k a d l :
  cache_ok c → core_pkt k a d → isWrite (cmd k) = false → view c a = Some l →
  ∃ p b c', access P now k c = Ok ((true, set_data (Some (slice (off k a) (Z.to_nat (size k)) (bytes l))) k, Some p, []), c') ∧
    cache_ok c' ∧ points c' a p b ∧ (∀ a', view c' a' = view c a').
Proof using G rw.
  intros C Hk Hw Hv. destruct (access_start c k a d C Hk) as (blk & c1 & C1 & V1 & Hf & ->). unfold found in Hf. rewrite V1, Hv in Hf.
  destruct Hf as (p & b & -> & Hp & Hb). rewrite (M_bind_ok _ _ _ _ _ (peek_points _ _ _ _ Hp)).
  destruct (points_bits _ _ _ _ C1 Hp) as (_ & _ & Er & _). destruct (core_cmd _ _ _ Hk) as (_ & _ & _ & _ & _ & E6 & _ & E8 & _).
  rewrite E8, Hw, Er. destruct (satisfyRequest_read P nb sb G locking c1 k a p b d C1 Hp) as (c2 & H2 & C2 & V2 & b2 & Hp2 & _);
    [apply (cp_line _ _ _ Hk)|apply (cp_data _ _ _ Hk)|by eapply core_read|apply (cp_locks _ _ _ Hk)|].
  rewrite (M_bind_ok _ _ _ _ _ H2). cbn [cmd set_data]. rewrite E6, (M_bind_ok _ _ _ _ _ (maintain_core _ _ _ _ Hp2)).
  subst l. exists p, b2, c2. split; [done|]. split; [done|]. split; [done|]. intros a'. by rewrite V2, V1.
Qed.

(** The packet after a write, and whether it was done. *)
Definition wrote (k k' : Pkt) (ok : bool) : Prop :=
  if isLLSC (cmd k) then k' = set_extraData (Z.b2z ok) k else ok = true ∧ k' = k.

Lemma access_hit_write c k a d l :
  cache_ok c → core_pkt k a d → isWrite (cmd k) = true → view c a = Some l → writable l = true →
  ∃ ok k' p b c', access P now k c = Ok ((true, k', Some p, []), c') ∧ cache_ok c' ∧ points c' a p b ∧ wrote k k' ok ∧
    (∀ a', view c' a' = upd (view c) a (Some (mkLine true true (if ok then splice (off k a) d (bytes l) else bytes l))) a').
Proof using G rw.
  intros C Hk Hw Hv Hwr. destruct (access_start c k a d C Hk) as (blk & c1 & C1 & V1 & Hf & ->). unfold found in Hf. rewrite V1, Hv in Hf.
  destruct Hf as (p & b & -> & Hp & Hb). rewrite (M_bind_ok _ _ _ _ _ (peek_points _ _ _ _ Hp)).
  destruct (points_bits _ _ _ _ C1 Hp) as (_ & Ew & _). destruct (core_cmd _ _ _ Hk) as (_ & _ & _ & _ & _ & E6 & _ & E8 & _ & _ & _ & _ & E13 & _).
  rewrite E8, Hw, Ew, Hb, Hwr. subst l. destruct (satisfyRequest_write P nb sb G locking c1 k a p b d C1 Hp) as (ok & k' & c2 & H2 & C2 & V2 & (b2 & Hp2) & Hk2);
    [apply (cp_line _ _ _ Hk)|apply (cp_data _ _ _ Hk)|apply (cp_len _ _ _ Hk)|done|by eapply core_write|apply (cp_locks _ _ _ Hk)|done|].
  rewrite (M_bind_ok _ _ _ _ _ H2). assert (cmd k' = cmd k) as Ec by (destruct (isLLSC (cmd k)); [by subst|by destruct Hk2 as [_ ->]]).
  rewrite Ec, E6, (M_bind_ok _ _ _ _ _ (maintain_core _ _ _ _ Hp2)). exists ok, k', p, b2, c2. split; [done|]. split; [done|]. split; [done|].
  split; [done|]. intros a'. rewrite V2. unfold upd. by rewrite V1.
Qed.

(** A store conditional that misses has failed. *)
Lemma access_miss_sc c k a d :
  cache_ok c → core_pkt k a d → cmd k = StoreCondReq → view c a = None →
  ∃ c', access P now k c = Ok ((true, set_extraData 0 k, None, []), c') ∧ cache_ok c' ∧ (∀ a', view c' a' = view c a').
Proof using G rw.
  intros C Hk Hc Hv. destruct (access_start c k a d C Hk) as (blk & c1 & C1 & V1 & Hf & ->). unfold found in Hf. rewrite V1, Hv in Hf. subst blk.
  rewrite (M_bind_ok _ _ _ None c1) by done. rewrite Hc. by exists c1.
Qed.

(** Other requests need the crossbar. *)
Definition misses (c : Cache) (k : Pkt) (a : Z) : Prop :=
  match view c a with Some l => isWrite (cmd k) = true ∧ writable l = false | None => cmd k ≠ StoreCondReq end.

Lemma access_miss c k a d :
  cache_ok c → core_pkt k a d → misses c k a →
  ∃ blk c', access P now k c = Ok ((false, k, blk, []), c') ∧ cache_ok c' ∧ (∀ a', view c' a' = view c a') ∧ found c' a blk.
Proof using G rw.
  intros C Hk Hm. destruct (access_start c k a d C Hk) as (blk & c1 & C1 & V1 & Hf & ->). exists blk, c1.
  split; [|done]. unfold found, misses in *. rewrite V1 in Hf. destruct (view c a) as [l|].
  - destruct Hf as (p & b & -> & Hp & <-). destruct Hm as [Hw Hwr]. rewrite (M_bind_ok _ _ _ _ _ (peek_points _ _ _ _ Hp)).
    destruct (points_bits _ _ _ _ C1 Hp) as (_ & Ew & _). destruct (core_cmd _ _ _ Hk) as (_ & _ & _ & _ & _ & _ & _ & E8 & _).
    by rewrite E8, Hw, Ew, Hwr.
  - subst blk. rewrite (M_bind_ok _ _ _ None c1) by done. pose proof (cp_cmd _ _ _ Hk) as Hc.
    repeat (apply elem_of_cons in Hc as [Hc|Hc]; [rewrite Hc in *; done|]). by apply elem_of_nil in Hc.
Qed.

(** ** The request of a miss *)

(** What the cache asks for. *)
Definition miss_cmd (k : Pkt) (l : option Line) : Command :=
  if isWholeLineWrite k blkSize then InvalidateReq
  else match l with
  | Some _ => if isLLSC (cmd k) then SCUpgradeReq else UpgradeReq
  | None => if isWrite (cmd k) then ReadExReq else if bool_decide (clusivity P = mostly_excl) then ReadCleanReq else ReadSharedReq
  end.

Lemma miss_cmd_in k l : miss_cmd k l ∈ [ReadSharedReq; ReadCleanReq; ReadExReq; UpgradeReq; SCUpgradeReq; InvalidateReq].
Proof. unfold miss_cmd. repeat case_match; set_solver. Qed.

Lemma whole_write k : isWholeLineWrite k blkSize = true → isWrite (cmd k) = true ∧ isLLSC (cmd k) = false.
Proof. unfold isWholeLineWrite. case_bool_decide as E1; [by rewrite E1|]. case_bool_decide as E2; [by rewrite E2|done]. Qed.

Lemma miss_cmd_invalidate c k a l : misses c k a → view c a = l → isInvalidate (miss_cmd k l) = isWrite (cmd k).
Proof.
  intros Hm Hl. unfold miss_cmd, misses in *. rewrite Hl in Hm. destruct (isWholeLineWrite k blkSize) eqn:Ew; [by rewrite (proj1 (whole_write _ Ew))|].
  destruct l as [l|]; [rewrite (proj1 Hm); by destruct (isLLSC _)|]. destruct (isWrite (cmd k)); [done|]. by case_bool_decide.
Qed.

Lemma createMissPacket_ok c k a d blk :
  cache_ok c → core_pkt k a d → misses c k a → found c a blk →
  ∃ b q, peek blk c = Ok (b, c) ∧ createMissPacket P k b (needsWritable (cmd k)) (isWholeLineWrite k blkSize) = Ok (Some q) ∧
    bus_request P q a ∧ cmd q = miss_cmd k (view c a) ∧ cacheResponding q = false ∧ responderHadWritable q = false ∧ hasSharers q = false.
Proof using G rw.
  intros C Hk Hm Hf. destruct (core_cmd _ _ _ Hk) as (E1 & E2 & E3 & E4 & E5 & E6 & E7 & E8 & E9 & E10 & E11 & E12 & E13 & E14 & E15).
  destruct (cp_req _ _ _ Hk) as (Hpa & Hse & Hu & Hma). destruct (cp_flags _ _ _ Hk) as [Hsh _].
  pose proof (in_line_aligned P nb sb G k a (cp_line _ _ _ Hk)) as Hal.
  assert (∃ b, peek blk c = Ok (b, c) ∧ match b with Some b => CacheBlk.valid b | None => false end = bool_decide (is_Some (view c a)) ∧
    (is_Some (view c a) → match b with Some b => CacheBlk.isSet CacheBlk.WritableBit b | None => false end = false)) as (b & Hpk & Hval & Hwr).
  { unfold found, misses in *. destruct (view c a) as [l|].
    - destruct Hf as (p & b & -> & Hp & <-). destruct Hm as [_ Hw]. exists (Some b). split; [by eapply peek_points|].
      destruct (points_bits _ _ _ _ C Hp) as (-> & -> & _). done.
    - subst. exists None. split; [done|]. split; [done|]. intros []. done. }
  set (q0 := new_block (req k) (miss_cmd k (view c a)) blkSize (id k)).
  assert (addr q0 = a) as Ha.
  { change (addr q0) with (Tags.blkAlign (tp P) (paddr (req k))). rewrite Hpa. apply (il_align _ _ _ (cp_line _ _ _ Hk)). }
  assert (∃ q, allocate q0 = Ok q ∧ bus_request P q a ∧ cmd q = miss_cmd k (view c a) ∧ cacheResponding q = false ∧
    responderHadWritable q = false ∧ hasSharers q = false) as (q & Hall & Hq).
  { pose proof (miss_cmd_in k (view c a)) as Hin. unfold allocate. destruct (hasData (cmd q0) || hasRespData q0) eqn:Hd.
    - eexists. split; [done|]. split; [|done]. split; try done. intros _. by eexists.
    - exists q0. split; [done|]. split; [|done]. split; try done. intros Hr. exfalso. unfold hasRespData in Hd. revert Hr Hd.
      change (cmd q0) with (miss_cmd k (view c a)). by_cmd Hin. }
  exists b, q. split; [done|]. split; [|done]. unfold createMissPacket. rewrite E2, Hu, E11, E4, Hval, E8, E7, Hsh. rewrite andb_false_r.
  rewrite (bool_decide_false (cmd k = InvalidateReq)) by done. cbn [negb orb andb].
  assert (bool_decide (cmd k = WriteLineReq) && negb (isWholeLineWrite k blkSize) = false) as ->.
  { destruct (bool_decide_reflect (cmd k = WriteLineReq)) as [El|]; [|done]. unfold isWholeLineWrite. rewrite El, (cp_whole _ _ _ Hk El), Z.eqb_refl, andb_true_r.
    destruct (in_line_offset P nb sb G k a (cp_line _ _ _ Hk)) as [-> ?]. pose proof (il_fit _ _ _ (cp_line _ _ _ Hk)).
    rewrite (cp_whole _ _ _ Hk El) in *. by rewrite (proj2 (Z.eqb_eq _ _)) by lia. }
  rewrite !(bool_decide_false (cmd k = _)) by done. cbn [orb].
  rewrite rw. cbn [orb].
  match goal with |- mbind _ ?e = _ => assert (e = Ok (miss_cmd k (view c a))) as -> end.
  { unfold misses, miss_cmd in *. destruct (isWholeLineWrite k blkSize).
    - destruct (bool_decide_reflect (is_Some (view c a))) as [Ev|]; [|done]. by rewrite (Hwr Ev).
    - destruct (view c a) as [l|]; [|done]. rewrite bool_decide_true by done. destruct Hm as [-> _]. by rewrite (Hwr ltac:(done)). }
  cbn [mbind res_bind]. fold q0. rewrite (getBlockAddr_aligned P q0 a Hal Ha), Ha, Z.eqb_refl. cbn [negb]. by rewrite Hall.
Qed.

(** ** The response *)

(** The response to the request of a miss; [ld] is the line, if it has data. *)
Record miss_response (c : Cache) (k q : Pkt) (a : Z) (ld : list Z) : Prop := {
  mr_cmd : cmd q = resp_cmd (miss_cmd k (view c a));
  mr_addr : addr q = a;
  mr_secure : isSecure q = false;
  mr_size : size q = blkSize;
  mr_data : isRead (cmd q) = true → data q = Some ld;
  mr_len : Z.of_nat (length ld) = blkSize;
  mr_line : ∀ l, view c a = Some l → bytes l = ld;
  mr_sharers : isWrite (cmd k) = true → hasSharers q = false;
}.

Lemma miss_resp_cmd k l :
  let r := resp_cmd (miss_cmd k l) in
  isResponse r = true ∧ isError r = false ∧ r ≠ WriteReq ∧ (r = InvalidateResp ↔ isWholeLineWrite k blkSize = true) ∧
  (isWholeLineWrite k blkSize = false → isInvalidate r = false ∧ isRead r || bool_decide (r = UpgradeResp) = true ∧
     isRead r = bool_decide (l = None) ∧ hasData r = bool_decide (l = None)).
Proof.
  unfold miss_cmd. destruct (isWholeLineWrite k blkSize); [done|]. destruct l; [by destruct (isLLSC _)|]. destruct (isWrite _); [done|].
  by destruct (bool_decide (clusivity P = mostly_excl)).
Qed.

Lemma response_bus c k q a ld : miss_response c k q a ld → bus_response q a.
Proof.
  intros [Hc Ha Hs _ _ _ _ Hsh]. destruct (miss_resp_cmd k (view c a)) as (R1 & _ & _ & R4 & _). rewrite <-Hc in *. split; try done.
  intros Hi. apply Hsh. by apply whole_write, R4.
Qed.

(** The line arrives, or becomes writable. *)
Lemma fill_any c k q a blk ld :
  cache_ok c → found c a blk → aligned P a → miss_response c k q a ld → isWrite (cmd k) = true →
  ∃ p wbs f c' b, handleFill P now q blk true c = Ok ((p, wbs), c') ∧ cache_ok c' ∧ points c' a p b ∧
    makes_room P wbs (view c) f ∧ f a = view c a ∧ writable (abs b) = true ∧
    (isWholeLineWrite k blkSize = false → bytes (abs b) = ld) ∧ (∀ a', view c' a' = upd f a (Some (abs b)) a').
Proof using G rw.
  intros C Hf Hal Hq Hw. pose proof (response_bus _ _ _ _ _ Hq) as Hb. pose proof Hq as [Hc _ _ Hsz Hd Hl Hv Hs].
  destruct (miss_resp_cmd k (view c a)) as (_ & _ & R3 & R4 & R5). rewrite <-Hc in *. unfold found in Hf. destruct (view c a) as [l|] eqn:Ev.
  - destruct Hf as (p & b & -> & Hp & Hbl). assert (isRead (cmd q) = false) as Hr.
    { destruct (isWholeLineWrite k blkSize); [by rewrite (proj2 R4)|]. by destruct (R5 eq_refl) as (_ & _ & -> & _). }
    destruct (handleFill_upgrade P nb sb now G locking rw c q a p b true C Hp Hb Hr) as (c' & b' & H' & C' & Hp' & Hab & V').
    rewrite (Hs Hw) in Hab. exists p, [], (view c), c', b'. split; [done|]. split; [done|]. split; [done|]. split; [by left|]. split; [done|].
    rewrite Hab in *. split; [done|]. split; [|done]. intros _. cbn [bytes]. rewrite Hbl. by apply Hv.
  - subst blk. destruct (handleFill_new P nb sb now G locking rw c q a ld C Ev Hal Hb) as (p & wbs & f & c' & b' & H' & C' & Hp' & Hroom & Hfa & HW & _ & Hby & V').
    { destruct (isWholeLineWrite k blkSize); [left; by apply R4|]. right. destruct (R5 eq_refl) as (_ & _ & Hr & Hh). rewrite Hr in *. split_and!; auto. }
    exists p, wbs, f, c', b'. split; [done|]. split; [done|]. split; [done|]. split; [done|]. split; [done|].
    rewrite HW, (Hs Hw). split; [done|]. split; [|done]. intros E. destruct (R5 E) as (_ & _ & Hr & _). by apply Hby.
Qed.

Lemma handle_response_write c k q a d blk ld :
  cache_ok c → core_pkt k a d → found c a blk → miss_response c k q a ld → isWrite (cmd k) = true →
  ∃ ok k' p wbs f c' b, handle_response P now k q blk c = Ok ((k', Some p, wbs, false), c') ∧ cache_ok c' ∧ points c' a p b ∧
    wrote k k' ok ∧ makes_room P wbs (view c) f ∧ f a = view c a ∧
    (∀ a', view c' a' = upd f a (Some (mkLine true true (if ok then splice (off k a) d ld else ld))) a').
Proof using G rw.
  intros C Hk Hf Hq Hw. pose proof (in_line_aligned P nb sb G k a (cp_line _ _ _ Hk)) as Hal.
  destruct (fill_any c k q a blk ld C Hf Hal Hq Hw) as (p & wbs & f & c1 & b1 & H1 & C1 & Hp1 & Hroom & Hfa & HW & Hby & V1).
  destruct (core_cmd _ _ _ Hk) as (_ & _ & _ & _ & _ & E6 & E7 & _ & _ & _ & _ & E12 & E13 & _).
  destruct (satisfyRequest_write P nb sb G locking c1 k a p b1 d C1 Hp1) as (ok & k' & c2 & H2 & C2 & V2 & (b2 & Hp2) & Hk2);
    [apply (cp_line _ _ _ Hk)|apply (cp_data _ _ _ Hk)|apply (cp_len _ _ _ Hk)|done|by eapply core_write|apply (cp_locks _ _ _ Hk)|done|].
  assert (cmd k' = cmd k) as Ec by (destruct (isLLSC (cmd k)); [by subst|by destruct Hk2 as [_ ->]]).
  destruct (miss_resp_cmd k (view c a)) as (R1 & R2 & _ & R4 & R5). rewrite <-(mr_cmd _ _ _ _ _ Hq) in *.
  exists ok, k', p, wbs, f, c2, b2. split; [|split; [done|split; [done|split; [done|split; [done|split; [done|]]]]]].
  - unfold handle_response. rewrite E7, R1. cbn [negb]. rewrite (M_bind_ok _ _ _ tt c) by done. rewrite R2, E12.
    destruct (isWholeLineWrite k blkSize).
    + rewrite (M_bind_ok _ _ _ _ _ H1). cbn [fst snd]. by rewrite (M_bind_ok _ _ _ _ _ H2).
    + destruct (R5 eq_refl) as (-> & -> & _). rewrite (M_bind_ok _ _ _ _ _ H1). cbn [fst snd]. rewrite (M_bind_ok _ _ _ _ _ H2), Ec, E6.
      by rewrite (M_bind_ok _ _ _ _ _ (maintain_core _ _ _ _ Hp2)).
  - intros a'. rewrite V2. unfold upd. destruct (decide (a' = a)) as [->|Hne]; [|rewrite V1; by apply upd_ne]. do 2 f_equal.
    destruct (isWholeLineWrite k blkSize) eqn:Ew; [|by rewrite <-Hby].
    destruct (whole_write k Ew) as [_ Hll]. rewrite Hll in Hk2. destruct Hk2 as [-> _].
    unfold isWholeLineWrite in Ew. apply andb_true_iff in Ew as [[_ Ho%Z.eqb_eq]%andb_true_iff Hsz%Z.eqb_eq].
    destruct (in_line_offset P nb sb G k a (cp_line _ _ _ Hk)) as [Hoff _]. unfold off. rewrite <-Hoff, Ho. change (Z.to_nat 0) with 0%nat.
    pose proof (cp_len _ _ _ Hk). pose proof (mr_len _ _ _ _ _ Hq). pose proof (points_data _ _ _ _ _ _ _ _ C1 Hp1).
    rewrite !splice_all; [done|lia..].
Qed.

Lemma handle_response_read c k q a d ld :
  cache_ok c → core_pkt k a d → view c a = None → miss_response c k q a ld → isWrite (cmd k) = false →
  ∃ p wbs f c' b, handle_response P now k q None c = Ok ((set_data (Some (slice (off k a) (Z.to_nat (size k)) ld)) k, Some p, wbs, false), c') ∧
    cache_ok c' ∧ points c' a p b ∧ makes_room P wbs (view c) f ∧ f a = None ∧
    (∀ a', view c' a' = upd f a (Some (mkLine (negb (hasSharers q)) (negb (hasSharers q) && cacheResponding q) ld)) a').
Proof using G rw.
  intros C Hk Hn Hq Hw. pose proof (in_line_aligned P nb sb G k a (cp_line _ _ _ Hk)) as Hal.
  assert (isWholeLineWrite k blkSize = false) as Hwh.
  { destruct (isWholeLineWrite k blkSize) eqn:E; [|done]. by rewrite (proj1 (whole_write _ E)) in Hw. }
  destruct (miss_resp_cmd k (view c a)) as (R1 & R2 & R3 & R4 & R5). rewrite <-(mr_cmd _ _ _ _ _ Hq), Hn in *. destruct (R5 Hwh) as (I1 & I2 & I3 & I4).
  destruct (handleFill_new P nb sb now G locking rw c q a ld C Hn Hal (response_bus _ _ _ _ _ Hq))
    as (p & wbs & f & c1 & b1 & H1 & C1 & Hp1 & Hroom & Hfa & HW & HD & Hby & V1).
  { right. pose proof Hq as [? ? ? ? Hd ? ? ?]. split_and!; auto. }
  specialize (Hby I3). destruct (core_cmd _ _ _ Hk) as (_ & _ & _ & _ & _ & E6 & E7 & _ & _ & _ & _ & E12 & _).
  destruct (satisfyRequest_read P nb sb G locking c1 k a p b1 d C1 Hp1) as (c2 & H2 & C2 & V2 & b2 & Hp2 & _);
    [apply (cp_line _ _ _ Hk)|apply (cp_data _ _ _ Hk)|by eapply core_read|apply (cp_locks _ _ _ Hk)|].
  change (CacheBlk.data b1) with (bytes (abs b1)) in H2. rewrite Hby in H2.
  exists p, wbs, f, c2, b2. split; [|split; [done|split; [done|split; [done|split; [done|]]]]].
  - unfold handle_response. rewrite E7, R1. cbn [negb]. rewrite (M_bind_ok _ _ _ tt c) by done. rewrite R2, Hwh, I2, E12.
    rewrite (M_bind_ok _ _ _ _ _ H1). cbn [fst snd]. rewrite (M_bind_ok _ _ _ _ _ H2). cbn [cmd set_data].
    rewrite E6, (M_bind_ok _ _ _ _ _ (maintain_core _ _ _ _ Hp2)). by rewrite I1.
  - intros a'. rewrite V2, V1. unfold upd. destruct (decide (a' = a)) as [->|Hne]; [|done]. f_equal. rewrite <-HD, <-HW, <-Hby. done.
Qed.

Lemma drop_nothing c a p b : points c a p b → drop_block P false (Some p) c = Ok (tt, c).
Proof. intros Hp. unfold drop_block. by rewrite (M_bind_ok _ _ _ _ _ (get_points _ _ _ _ _ Hp)). Qed.

Lemma clean_nothing c a k blk : isClean (cmd k) = false → (blk = None ∨ ∃ p b, blk = Some p ∧ points c a p b) → clean_dirty P k blk c = Ok ((k, []), c).
Proof.
  intros Hc [->|(p & b & -> & Hp)]; unfold clean_dirty; [by rewrite (M_bind_ok _ _ _ None c)|].
  rewrite (M_bind_ok _ _ _ _ _ (peek_points _ _ _ _ Hp)). by rewrite Hc.
Qed.
End access.
