(* ===== verification/CacheCoherent.v ===== *)
(** * Coherence of the caches

    A system of private caches on a crossbar refines one array of bytes: in atomic
    mode every access of every core sees the memory that the accesses before it
    left.  The invariant says what the copies of a line in the caches and in
    memory have to do with each other. *)
From stdpp Require Import base tactics list gmap strings sets.
From Stdlib Require Import ZArith Lia.
From S2P Require Import Prelude MemCmd AddrRange CachePkt CacheBlk CacheTags Cache AbstractMem CacheSys CacheProps CacheBus CacheAccess.
Import CachePkt Cache.
Local Open Scope Z_scope.

(** ** The specification: one array of bytes *)

(** An access of a core to an array that starts at address [start]: the packet,
    the array, the response, the array after it. *)
Inductive flat_access (start : Z) : Pkt → list Z → Pkt → list Z → Prop :=
| flat_read k m :
    cmd k = ReadReq ∨ cmd k = LoadLockedReq →
    flat_access start k m (set_cmd ReadResp (set_data (Some (slice (Z.to_nat (addr k - start)) (Z.to_nat (size k)) m)) k)) m
| flat_write k d m :
    cmd k = WriteReq ∨ cmd k = WriteLineReq → data k = Some d →
    flat_access start k m (set_cmd WriteResp k) (splice (Z.to_nat (addr k - start)) d m)
| flat_store_cond k d m (ok : bool) :
    cmd k = StoreCondReq → data k = Some d →
    flat_access start k m (set_cmd StoreCondResp (set_extraData (Z.b2z ok) k))
      (if ok then splice (Z.to_nat (addr k - start)) d m else m).

Inductive flat_run (start : Z) : list (Z * nat * Pkt) → list Z → list Pkt → list Z → Prop :=
| flat_nil m : flat_run start [] m [] m
| flat_cons now i k k' ks m m' m'' accesses :
    flat_access start k m k' m' → flat_run start accesses m' ks m'' → flat_run start ((now, i, k) :: accesses) m (k' :: ks) m''.

Section coherence.
Context {F : Type} {T : Tracker F} (X : Sys.XParams) (P : Params) (range : AddrRange.AddrRange).
Context (nb sb : Z) (G : geometry (tp P) nb sb) (locking : bool) (rw : isReadOnly P = false) (private : forwardSnoops P = false).
Context (ncaches : nat) {L : TrackerLaws T P ncaches}.
Context (start msize : Z) (range_eq : range = AddrRange.range start (start + msize)) (start_pos : 0 ≤ start) (range_fits : start + msize < 2 ^ 64).
Notation blkSize := (Tags.blkSize (tp P)).
Notation Sys := (Sys.Sys F).
Notation V := (V P).
Notation all_ok := (all_ok P nb sb locking).
Notation line_of := (line_of P start).
Notation core_pkt := (core_pkt P locking).

(** The lines of the memory. *)
Definition in_mem (a : Z) : Prop := aligned P a ∧ start ≤ a ∧ a + blkSize ≤ start + msize.
Context (mem_served : ∀ a, in_mem a → inRange (addrRanges P) a = Ok true).
Context (coherence_point : Sys.pointOfCoherency X = true) (caches_used : Sys.bypassCaches X = false).

(** ** Lines *)

Lemma line_of_length d a : in_mem a → Z.of_nat (length d) = msize → Z.of_nat (length (line_of d a)) = blkSize.
Proof using G start_pos. intros (_ & ? & ?) Hd. pose proof (blkSize_pos _ _ _ G). unfold CacheBus.line_of. rewrite slice_length; lia. Qed.

Lemma lines_apart a a' : in_mem a → in_mem a' → a' ≠ a → a + blkSize ≤ a' ∨ a' + blkSize ≤ a.
Proof using G.
  intros ([_ Ha] & _) ([_ Ha'] & _) Hne. rewrite (blkAlign_eq _ _ _ G) in Ha, Ha'. rewrite (geo_blk _ _ _ G). pose proof (geo_pos_blk _ _ _ G).
  assert (a / 2 ^ nb ≠ a' / 2 ^ nb) by congruence. nia.
Qed.

Lemma line_write k a d m :
  core_pkt k a d → in_mem a → Z.of_nat (length m) = msize →
  let m' := splice (Z.to_nat (addr k - start)) d m in
  Z.of_nat (length m') = msize ∧ line_of m' a = splice (off k a) d (line_of m a) ∧ (∀ a', in_mem a' → a' ≠ a → line_of m' a' = line_of m a').
Proof using G start_pos.
  intros Hk Ha Hm m'. pose proof (cp_len _ _ _ _ _ Hk) as Hlen. pose proof (il_fit _ _ _ (cp_line _ _ _ _ _ Hk)) as Hfit.
  destruct (in_line_offset P nb sb G k a (cp_line _ _ _ _ _ Hk)) as [_ Ho]. pose proof Ha as (_ & Hs & He).
  pose proof (blkSize_pos _ _ _ G). unfold m', CacheBus.line_of, off. split; [rewrite splice_length; lia|]. split.
  - replace (Z.to_nat (addr k - start)) with (Z.to_nat (a - start) + Z.to_nat (addr k - a))%nat by lia. apply slice_splice_in; lia.
  - intros a' Ha' Hne. destruct (lines_apart a a' Ha Ha' Hne); destruct Ha' as (_ & ? & ?); apply slice_splice_ne; lia.
Qed.

Lemma line_read k a d m :
  core_pkt k a d → in_mem a → Z.of_nat (length m) = msize →
  slice (off k a) (Z.to_nat (size k)) (line_of m a) = slice (Z.to_nat (addr k - start)) (Z.to_nat (size k)) m.
Proof using G start_pos.
  intros Hk Ha Hm. pose proof (il_fit _ _ _ (cp_line _ _ _ _ _ Hk)) as Hfit. pose proof (il_size _ _ _ (cp_line _ _ _ _ _ Hk)).
  destruct (in_line_offset P nb sb G k a (cp_line _ _ _ _ _ Hk)) as [_ Ho]. pose proof Ha as (_ & Hs & He).
  unfold CacheBus.line_of, off. rewrite slice_slice by lia. f_equal. lia.
Qed.

Lemma line_put v bs d :
  in_mem v → Z.of_nat (length bs) = blkSize → Z.of_nat (length d) = msize →
  let d' := splice (Z.to_nat (v - start)) bs d in
  Z.of_nat (length d') = msize ∧ line_of d' v = bs ∧ (∀ a, in_mem a → a ≠ v → line_of d' a = line_of d a).
Proof using G start_pos.
  intros Hv Hb Hd d'. pose proof Hv as (_ & ? & ?). pose proof (blkSize_pos _ _ _ G). unfold d', CacheBus.line_of. split; [rewrite splice_length; lia|]. split.
  - rewrite <-Hb, Nat2Z.id. apply splice_slice. lia.
  - intros a Ha Hne. destruct (lines_apart v a Hv Ha Hne); destruct Ha as (_ & ? & ?); apply slice_splice_ne; lia.
Qed.

(** ** The invariant *)

(** The lines [U] of the caches, the memory [d] below, and the bytes [m] that the
    cores see: copies are right, a cache that may write a line is the only one
    that has it, at most one cache has a line dirty, and the memory is right
    unless one has. *)
Record one_memory (U : nat → Z → option Line) (d m : list Z) : Prop := {
  om_copy : ∀ i a l, U i a = Some l → in_mem a ∧ bytes l = line_of m a;
  om_one : ∀ i j a l l', i ≠ j → U i a = Some l → U j a = Some l' → writable l = false ∧ (dirty l = true → dirty l' = false);
  om_below : ∀ a, in_mem a → (∀ i l, U i a = Some l → dirty l = false) → line_of d a = line_of m a;
}.

Record coherent (s : Sys) (m : list Z) : Prop := {
  ch_len : length (Sys.caches s) = ncaches;
  ch_ok : all_ok s;
  ch_size : Z.of_nat (length m) = msize;
  ch_locks : Mem.lockedAddrList (Sys.memory s) = [];
  ch_memory : ∃ d, Mem.pmem (Sys.memory s) = Some d ∧ Z.of_nat (length d) = msize ∧ one_memory (V s) d m;
  ch_tracks : ∃ K, tracks (Sys.tracker s) K ∧ ∀ i a l, V s i a = Some l → K a i;
}.

Lemma one_memory_ext U U' d m : (∀ i a, U' i a = U i a) → one_memory U d m → one_memory U' d m.
Proof using Type.
  intros E [H1 H2 H3]. split.
  - intros i a l. rewrite E. apply H1.
  - intros i j a l l'. rewrite !E. apply H2.
  - intros a Ha Hd. apply H3; [done|]. intros i l. rewrite <-E. apply Hd.
Qed.

(** A line leaves a cache. *)
Lemma one_memory_evict U d m i v l :
  one_memory U d m → U i v = Some l → Z.of_nat (length d) = msize → Z.of_nat (length m) = msize →
  one_memory (λ j a, if decide (j = i ∧ a = v) then None else U j a)
    (if dirty l then splice (Z.to_nat (v - start)) (bytes l) d else d) m.
Proof using G start_pos.
  intros [H1 H2 H3] Hl Hd Hm. destruct (H1 i v l Hl) as [Hv Hb]. split.
  - intros j a l'. case_decide; [done|]. apply H1.
  - intros j j' a l1 l2 Hne. case_decide; [done|]. case_decide; [done|]. by apply H2.
  - intros a Ha Hcl. assert (Z.of_nat (length (bytes l)) = blkSize) as Hbl by (rewrite Hb; by apply line_of_length).
    destruct (line_put v (bytes l) d Hv Hbl Hd) as (_ & Hsame & Hother).
    assert (a ≠ v → line_of d a = line_of m a) as Hne.
    { intros Hn. apply H3; [done|]. intros j l' Hj. apply (Hcl j). by rewrite decide_False by (by intros [_ ?]). }
    destruct (dirty l) eqn:Ed.
    + destruct (decide (a = v)) as [->|Hn]; [by rewrite Hsame|]. rewrite Hother by done. by apply Hne.
    + destruct (decide (a = v)) as [->|Hn]; [|by apply Hne]. apply H3; [done|]. intros j l' Hj.
      destruct (decide (j = i)) as [->|Hji]; [rewrite Hl in Hj; by injection Hj as <-|]. apply (Hcl j). by rewrite decide_False by (by intros [? _]).
Qed.

(** A cache gets a copy to read. *)
Lemma one_memory_read U d m i a sh :
  one_memory U d m → in_mem a → U i a = None → (sh = false → ∀ j, j ≠ i → U j a = None) →
  one_memory (λ j a', if decide (a' = a) then if decide (j = i) then Some (mkLine (negb sh) false (line_of m a)) else snoop_line false (U j a)
                      else U j a') d m.
Proof using Type.
  intros [H1 H2 H3] Ha Hn Hsh.
  assert (∀ j l, snoop_line false (U j a) = Some l → ∃ l0, U j a = Some l0 ∧ l = mkLine false (dirty l0) (bytes l0)) as Hsn.
  { intros j l. unfold snoop_line. destruct (U j a) as [l0|]; [|done]. intros [= <-]. by exists l0. }
  split.
  - intros j a' l. case_decide; [subst a'|apply H1]. case_decide; [by intros [= <-]|]. intros (l0 & Hj & ->)%Hsn. by apply (H1 j a l0).
  - intros j j' a' l l' Hne. case_decide; [subst a'|by apply H2].
    assert (∀ x lx, x ≠ i → U x a = Some lx → sh = true) as Hshared.
    { intros x lx Hx Hlx. destruct sh; [done|]. by rewrite Hsh in Hlx. }
    destruct (decide (j = i)) as [->|Hji]; destruct (decide (j' = i)) as [->|Hji']; try done.
    + intros [= <-] (l0 & Hj & ->)%Hsn. rewrite (Hshared j' l0) by done. done.
    + intros (l0 & Hj & ->)%Hsn [= <-]. done.
    + intros (l0 & Hj & ->)%Hsn (l1 & Hj' & ->)%Hsn. simpl. split; [done|]. intros Hd. by eapply (H2 j j').
  - intros a' Ha' Hcl. apply H3; [done|]. intros j l Hj. specialize (Hcl j). destruct (decide (a' = a)) as [->|]; [|by apply Hcl].
    destruct (decide (j = i)) as [->|]; [by rewrite Hn in Hj|]. rewrite Hj in Hcl. by apply (Hcl _ eq_refl).
Qed.

(** A cache takes a line and writes it. *)
Lemma one_memory_write U d m m' i a bs :
  one_memory U d m → in_mem a → bs = line_of m' a → (∀ a', in_mem a' → a' ≠ a → line_of m' a' = line_of m a') →
  one_memory (λ j a', if decide (a' = a) then if decide (j = i) then Some (mkLine true true bs) else None else U j a') d m'.
Proof using Type.
  intros [H1 H2 H3] Ha Hb Hother. split.
  - intros j a' l. case_decide; [subst a'; case_decide; [by intros [= <-]|done]|]. intros Hj. destruct (H1 j a' l Hj). rewrite Hother; done.
  - intros j j' a' l l' Hne. case_decide; [|by apply H2]. case_decide; [subst j|done]. by rewrite decide_False by (by intros ->).
  - intros a' Ha' Hcl. destruct (decide (a' = a)) as [->|Hne].
    + specialize (Hcl i). rewrite decide_True in Hcl by done. by specialize (Hcl _ eq_refl).
    + rewrite Hother by done. by apply H3.
Qed.

(** ** Evictions *)

Notation send now i := (Sys.send X P range 2 now i).

Lemma makes_room_upd wbs g f a x : makes_room P wbs g f → f a = g a → makes_room P wbs (upd g a x) (upd f a x).
Proof using Type.
  intros [[-> Hf]|(wb & v & l & -> & Hv & He & Hf)] Ha.
  - left. split; [done|]. intros a'. unfold upd. by case_decide.
  - assert (a ≠ v) as Hne by (intros ->; rewrite Hf, upd_eq, Hv in Ha; done). right. exists wb, v, l. split; [done|].
    split; [by rewrite upd_ne|]. split; [done|]. intros a'. destruct (decide (a' = a)) as [->|]; [by rewrite (upd_ne _ v), !upd_eq|].
    rewrite (upd_ne f) by done. rewrite Hf. unfold upd. by rewrite (decide_False (P := a' = a)).
Qed.

(** The caches hold [U], but for a line that cache [i] is about to write back. *)
Lemma writebacks_ok now i wbs (s : Sys) U d m K :
  length (Sys.caches s) = ncaches → (i < ncaches)%nat → all_ok s → Z.of_nat (length m) = msize →
  Mem.lockedAddrList (Sys.memory s) = [] → Mem.pmem (Sys.memory s) = Some d → Z.of_nat (length d) = msize →
  one_memory U d m → tracks (Sys.tracker s) K → (∀ j a l, U j a = Some l → K a j) →
  makes_room P wbs (U i) (V s i) → (∀ j a, j ≠ i → V s j a = U j a) →
  ∃ s', doWritebacksAtomic P (send now i) Sys.above wbs s = Ok (tt, s') ∧ Sys.caches s' = Sys.caches s ∧ coherent s' m.
Proof using G rw private range_eq start_pos range_fits mem_served coherence_point caches_used.
  intros Hlen Hi Hok Hm Hlk Hd Hdl Hone Htr HK Hroom Hoth. destruct Hroom as [[-> Hsame]|(wb & v & l & -> & Hv & He & Hf)].
  - exists s. split; [done|]. split; [done|].
    assert (∀ j a, V s j a = U j a) as HU by (intros j a; destruct (decide (j = i)) as [->|]; [apply Hsame|by apply Hoth]).
    split; try done; [exists d; split; [done|]; split; [done|]; by eapply one_memory_ext|].
    exists K. split; [done|]. intros j a l. rewrite HU. apply HK.
  - destruct (om_copy _ _ _ Hone i v l Hv) as [Hvm Hb].
    assert (Z.of_nat (length (bytes l)) = blkSize) as Hbl by (rewrite Hb; by apply line_of_length).
    destruct (evict_ok X P range nb sb G locking rw private ncaches in_mem ltac:(by intros ? [? _]) mem_served start msize range_eq start_pos range_fits
      ltac:(by intros ? (_ & ? & ?)) coherence_point caches_used (Sys.send X P range 1 now) i wb v l s K d)
      as (k' & s' & Hs & Hc & Ht & Hw & Hmem); try done; [by eapply HK|].
    exists s'. split.
    { cbn [doWritebacksAtomic]. unfold isCachedAbove. rewrite private. cbn [negb]. rewrite (M_bind_ok _ _ _ (wb, false) s) by done. cbn iota beta.
      cbn [negb orb when]. change (Sys.send X P range 2 now i wb) with
        (Sys.recvAtomicBackdoor X range (λ j k, Cache.recvAtomicSnoop P (λ A, @Sys.on_cache F j A) (Sys.send X P range 1 now j) Sys.above k) i wb).
      rewrite (M_bind_ok _ _ _ tt s'); [done|]. by rewrite (M_bind_ok _ _ _ _ _ Hs). }
    split; [done|]. assert (∀ j a, V s' j a = if decide (j = i ∧ a = v) then None else U j a) as HU.
    { intros j a. unfold CacheBus.V. rewrite Hc. fold (V s j a). destruct (decide (j = i ∧ a = v)) as [[-> ->]|Hn]; [by rewrite Hf, upd_eq|].
      destruct (decide (j = i)) as [->|Hj]; [|by apply Hoth]. rewrite Hf. apply upd_ne. by intros ->; apply Hn. }
    pose proof (one_memory_evict U d m i v l Hone Hv Hdl Hm) as Hone'. split; try done.
    + by rewrite Hc.
    + intros j c. rewrite Hc. apply Hok.
    + by rewrite Hw.
    + destruct (line_put v (bytes l) d Hvm Hbl Hdl) as (Hdl' & _). destruct (dirty l).
      * eexists. split; [by apply Hmem|]. split; [done|]. exact (one_memory_ext _ _ _ _ HU Hone').
      * exists d. split; [by rewrite Hmem|]. split; [done|]. exact (one_memory_ext _ _ _ _ HU Hone').
    + eexists. split; [done|]. intros j a l'. rewrite HU. case_decide as E; [done|]. intros Hj. split; [by eapply HK|tauto].
Qed.

(** ** Accesses *)

(** The last steps of an access. *)
Lemma access_ends now i k blk (s : Sys) c :
  Sys.caches s !! i = Some c → (∀ p, blk = Some p → p ≠ Temp) → needsResponse (cmd k) = true →
  (retire_temp P (λ A, @Sys.on_cache F i A) (send now i) Sys.above blk ;; if needsResponse (cmd k) then lift (makeResponse k) else mret k) s =
  lift (makeResponse k) s.
Proof using Type.
  intros Hi Hb Hn. rewrite Hn. rewrite (M_bind_ok _ _ _ tt s); [done|]. unfold retire_temp.
  rewrite (M_bind_ok _ _ _ c s).
  - rewrite bool_decide_false; [done|]. intros E. by apply (Hb _ E).
  - assert (gets (λ c, c) c = Ok (c, c)) as Hg by done. rewrite (on_cache_ok i c c s _ _ Hi Hg). by rewrite set_cache_id.
Qed.

Notation cache_ok := (cache_ok P nb sb locking).
Notation view := (view P).
Notation points := (points P).
Notation self i := (λ A, @Sys.on_cache F i A).

Lemma V_eq (s : Sys) i c a : Sys.caches s !! i = Some c → V s i a = view c a.
Proof using Type. intros Hi. unfold CacheBus.V. by rewrite Hi. Qed.

Lemma makeResponse_ok k a d : core_pkt k a d →
  makeResponse k = Ok (set_cmd (if isWrite (cmd k) then if isLLSC (cmd k) then StoreCondResp else WriteResp else ReadResp) k).
Proof using Type.
  intros [_ _ _ _ Hc _ _ _ _]. unfold makeResponse. repeat (apply elem_of_cons in Hc as [Hc|Hc]; [by rewrite Hc|]). by apply elem_of_nil in Hc.
Qed.

(** A request that hits. *)
Lemma hit_steps now i c c' k k' a blk (s : Sys) :
  Sys.caches s !! i = Some c → access P now k c = Ok ((true, k', blk, []), c') →
  isClean (cmd k') = false → needsResponse (cmd k') = true → (blk = None ∨ ∃ p b, blk = Some p ∧ points c' a p b) →
  recvAtomic_base P now (self i) (send now i) Sys.above k s = lift (makeResponse k') (set_cache i c' s).
Proof using Type.
  intros Hi Ha Hcl Hn Hb. unfold recvAtomic_base. rewrite (M_bind_ok _ _ _ _ _ (on_cache_ok i c c' s _ _ Hi Ha)). cbn iota beta.
  assert (Sys.caches (set_cache i c' s) !! i = Some c') as Hi' by (apply set_cache_lookup; by eapply lookup_lt_Some).
  pose proof (clean_nothing P c' a k' blk Hcl Hb) as Hcn.
  rewrite (M_bind_ok _ _ _ _ _ (on_cache_ok i c' c' _ _ _ Hi' Hcn)), (set_cache_id i c' _ Hi'). cbn iota beta.
  rewrite (M_bind_ok _ _ _ tt (set_cache i c' s)) by done. rewrite (M_bind_ok _ _ _ (k', blk, []) (set_cache i c' s)) by done. cbn iota beta.
  rewrite (M_bind_ok _ _ _ tt (set_cache i c' s)) by done. apply (access_ends now i k' blk _ c' Hi'); [|done].
  intros p ->. destruct Hb as [?|(p' & b & [= <-] & (n & -> & _))]; done.
Qed.

(** The system after a change of one cache. *)
Lemma coherent_set i c c' (s : Sys) m m' :
  coherent s m → Sys.caches s !! i = Some c → cache_ok c' → Z.of_nat (length m') = msize → (∀ a, is_Some (view c' a) → is_Some (view c a)) →
  (∀ d, one_memory (V s) d m → one_memory (λ j a, if decide (j = i) then view c' a else V s j a) d m') →
  coherent (set_cache i c' s) m'.
Proof using Type.
  intros [Hlen Hok Hm Hlk (d & Hd & Hdl & Hone) (K & Htr & HK)] Hi C' Hm' Hsub Hstep.
  assert (i < length (Sys.caches s))%nat as Hlt by (by eapply lookup_lt_Some).
  assert (∀ j a, V (set_cache i c' s) j a = if decide (j = i) then view c' a else V s j a) as HV by (intros; by apply V_set_cache).
  split; try done.
  - simpl. by rewrite length_insert.
  - by apply all_ok_set.
  - exists d. split; [done|]. split; [done|]. apply (one_memory_ext _ _ _ _ HV). by apply Hstep.
  - exists K. split; [done|]. intros j a l. rewrite HV. case_decide as E; [|apply HK]. subst j. intros Hl.
    destruct (Hsub a) as [l' Hl']; [by exists l|]. apply (HK i a l'). by rewrite (V_eq _ _ _ _ Hi).
Qed.

Lemma coherent_same i c c' (s : Sys) m :
  coherent s m → Sys.caches s !! i = Some c → cache_ok c' → (∀ a, view c' a = view c a) → coherent (set_cache i c' s) m.
Proof using Type.
  intros H Hi C' HV. apply (coherent_set i c c' s m m H Hi C' (ch_size _ _ H)); [intros a; by rewrite HV|].
  intros d Hone. apply (one_memory_ext (V s)); [|done]. intros j a. case_decide as E; [|done]. subst j. by rewrite HV, (V_eq _ _ _ _ Hi).
Qed.

(** ** Misses *)

Lemma miss_bus now i k a d (s : Sys) m c :
  coherent s m → Sys.caches s !! i = Some c → core_pkt k a d → in_mem a → misses P c k a →
  ∃ blk c1 b q q' s1 K' d0,
    access P now k c = Ok ((false, k, blk, []), c1) ∧ cache_ok c1 ∧ (∀ a', view c1 a' = view c a') ∧ found P c1 a blk ∧
    peek blk c1 = Ok (b, c1) ∧ createMissPacket P k b (needsWritable (cmd k)) (isWholeLineWrite k blkSize) = Ok (Some q) ∧
    coherent (set_cache i c1 s) m ∧ send now i q (set_cache i c1 s) = Ok (q', s1) ∧ Sys.caches s1 !! i = Some c1 ∧
    Mem.pmem (Sys.memory s) = Some d0 ∧ Z.of_nat (length d0) = msize ∧ one_memory (V s) d0 m ∧
    cmd q = miss_cmd P k (view c a) ∧ bus_done P nb sb locking ncaches start q a i d0 (set_cache i c1 s) q' s1 K' ∧
    miss_response P c1 k q' a (line_of m a).
Proof using G rw private range_eq start_pos range_fits mem_served coherence_point caches_used.
  intros H Hi Hk Ha Hm. pose proof (ch_ok _ _ H i c Hi) as C.
  assert (i < length (Sys.caches s))%nat as Hlt by (by eapply lookup_lt_Some).
  destruct (access_miss P nb sb now G locking rw c k a d C Hk Hm) as (blk & c1 & Hac & C1 & V1 & Hf).
  assert (misses P c1 k a) as Hm1 by (unfold misses; by rewrite V1).
  destruct (createMissPacket_ok P nb sb G locking rw c1 k a d blk C1 Hk Hm1 Hf) as (b & q & Hpk & Hmp & Hq & Hqc & Hq1 & Hq2 & Hq3).
  rewrite V1 in Hqc. pose proof (coherent_same i c c1 s m H Hi C1 V1) as H1. pose proof H1 as [Hlen Hok Hms Hlk (d0 & Hd & Hdl & Hone) (K & Htr & HK)].
  destruct (recvAtomicBackdoor_ok X P range nb sb G locking rw private ncaches in_mem ltac:(by intros ? [? _]) mem_served start msize range_eq
    start_pos range_fits ltac:(by intros ? (_ & ? & ?)) coherence_point caches_used (Sys.send X P range 1 now) i q a (set_cache i c1 s) K d0)
    as (q' & s1 & K' & Hsend & Hbd); try done.
  { rewrite <-Hlen. simpl. by rewrite length_insert. }
  { intros j j' l l' Hne Hj Hj'. apply (om_one _ _ _ Hone j j' a l l' Hne Hj Hj'). }
  assert (Sys.caches (set_cache i c1 s) !! i = Some c1) as Hi1 by (by apply set_cache_lookup).
  assert (Sys.caches s1 !! i = Some c1) as Hi2 by (by rewrite (bd_self _ _ _ _ _ _ _ _ _ _ _ _ _ _ Hbd)).
  assert (one_memory (V s) d0 m) as Hone0.
  { apply (one_memory_ext (V (set_cache i c1 s))); [|done]. intros j a'. rewrite V_set_cache by done. case_decide as E; [|done]. subst j.
    by rewrite V1, (V_eq _ _ _ _ Hi). }
  exists blk, c1, b, q, q', s1, K', d0. split_and!; try done.
  pose proof (bd_same _ _ _ _ _ _ _ _ _ _ _ _ _ _ Hbd) as (Ea & Es & Esz). pose proof (bd_cmd _ _ _ _ _ _ _ _ _ _ _ _ _ _ Hbd) as Ec.
  destruct (bus_resp _ q a Hq) as (_ & _ & _ & _ & R5 & _).
  assert (∀ j l, V (set_cache i c1 s) j a = Some l → bytes l = line_of m a) as Hcopy by (intros j l Hj; by apply (om_copy _ _ _ Hone j)).
  split.
  - by rewrite Ec, Hqc, V1.
  - rewrite Ea. apply (bq_addr _ _ _ Hq).
  - rewrite Es. apply (bq_secure _ _ _ Hq).
  - rewrite Esz. apply (bq_size _ _ _ Hq).
  - rewrite Ec, R5. intros Hr. destruct (bd_data _ _ _ _ _ _ _ _ _ _ _ _ _ _ Hbd Hr) as [(l & (j & _ & Hj & _) & ->)|(Hnd & ->)].
    + by rewrite (Hcopy j l Hj).
    + f_equal. apply (om_below _ _ _ Hone a Ha). intros j l Hj. destruct (dirty l) eqn:Ed; [|done]. exfalso. apply Hnd. exists l, j.
      split; [|done]. intros ->. rewrite (V_eq _ _ _ _ Hi1), V1 in Hj. rewrite Hqc, Hj in Hr. unfold miss_cmd in Hr.
      destruct (isWholeLineWrite _ _); [done|]. by destruct (isLLSC _).
  - by apply line_of_length.
  - intros l Hl. apply (Hcopy i). by rewrite (V_eq _ _ _ _ Hi1).
  - intros Hw. destruct (hasSharers q') eqn:Esh; [|done]. apply (bd_sharers _ _ _ _ _ _ _ _ _ _ _ _ _ _ Hbd) in Esh as [Hinv _].
    rewrite Hqc, (miss_cmd_invalidate P c k a (view c a) Hm eq_refl), Hw in Hinv. done.
Qed.

(** The steps of an access that misses, up to the writeback of the victim. *)
Lemma miss_steps now i c c1 c2 k k' q q' a blk b wbs p b2 (s s1 : Sys) :
  Sys.caches s !! i = Some c → isClean (cmd k) = false → isEviction (cmd k) = false → cmd k ≠ WriteClean → uncacheable (req k) = false →
  access P now k c = Ok ((false, k, blk, []), c1) → found P c1 a blk → peek blk c1 = Ok (b, c1) →
  createMissPacket P k b (needsWritable (cmd k)) (isWholeLineWrite k blkSize) = Ok (Some q) →
  send now i q (set_cache i c1 s) = Ok (q', s1) → Sys.caches s1 !! i = Some c1 →
  handle_response P now k q' blk c1 = Ok ((k', Some p, wbs, false), c2) → points c2 a p b2 →
  recvAtomic_base P now (self i) (send now i) Sys.above k s =
  (doWritebacksAtomic P (send now i) Sys.above wbs ;;
   retire_temp P (self i) (send now i) Sys.above (Some p) ;;
   if needsResponse (cmd k') then lift (makeResponse k') else mret k') (set_cache i c2 s1).
Proof using Type.
  intros Hi Hcl Hev Hwc Hu Ha Hf Hpk Hmp Hs Hi1 Hr Hp. unfold recvAtomic_base.
  rewrite (M_bind_ok _ _ _ _ _ (on_cache_ok i c c1 s _ _ Hi Ha)). cbn iota beta.
  assert (Sys.caches (set_cache i c1 s) !! i = Some c1) as Hi' by (apply set_cache_lookup; by eapply lookup_lt_Some).
  assert (clean_dirty P k blk c1 = Ok ((k, []), c1)) as Hcn.
  { apply (clean_nothing P c1 a); [done|]. unfold found in Hf. destruct (view c1 a); [right|by left]. destruct Hf as (p0 & b0 & ? & ? & _). eauto. }
  rewrite (M_bind_ok _ _ _ _ _ (on_cache_ok i c1 c1 _ _ _ Hi' Hcn)), (set_cache_id i c1 _ Hi'). cbn iota beta.
  rewrite (M_bind_ok _ _ _ tt (set_cache i c1 s)) by done.
  rewrite (M_bind_ok _ _ _ (k', Some p, wbs) (set_cache i c2 s1)); [done|]. unfold handleAtomicReqMiss.
  rewrite Hev, Hu. rewrite bool_decide_false by done. cbn [orb andb].
  rewrite (M_bind_ok _ _ _ _ _ (on_cache_ok i c1 c1 _ _ _ Hi' Hpk)), (set_cache_id i c1 _ Hi').
  rewrite (M_bind_ok _ _ _ _ _ (lift_ok _ _ _ Hmp)). rewrite (M_bind_ok _ _ _ _ _ Hs).
  rewrite (M_bind_ok _ _ _ _ _ (on_cache_ok i c1 c2 s1 _ _ Hi1 Hr)). cbn iota beta.
  assert (Sys.caches (set_cache i c2 s1) !! i = Some c2) as Hi2 by (apply set_cache_lookup; by eapply lookup_lt_Some).
  rewrite (M_bind_ok _ _ _ _ _ (on_cache_ok i c2 c2 _ _ _ Hi2 (drop_nothing P c2 a p b2 Hp))). by rewrite (set_cache_id i c2 _ Hi2).
Qed.

(** The victim is written back, and the system is coherent again. *)
Lemma miss_finish now i q a d0 (s0 s1 : Sys) q' K' c1 c2 m m' l wbs f :
  coherent s0 m → bus_done P nb sb locking ncaches start q a i d0 s0 q' s1 K' → Sys.caches s0 !! i = Some c1 → Sys.caches s1 !! i = Some c1 →
  Mem.pmem (Sys.memory s0) = Some d0 → Z.of_nat (length d0) = msize → Z.of_nat (length m') = msize →
  cache_ok c2 → makes_room P wbs (view c1) f → f a = view c1 a → (∀ a', view c2 a' = upd f a (Some l) a') →
  one_memory (λ j a', if decide (a' = a) then if decide (j = i) then Some l else snoop_line (isInvalidate (cmd q)) (V s0 j a) else V s0 j a') d0 m' →
  ∃ s', doWritebacksAtomic P (send now i) Sys.above wbs (set_cache i c2 s1) = Ok (tt, s') ∧ Sys.caches s' !! i = Some c2 ∧ coherent s' m'.
Proof using G rw private range_eq start_pos range_fits mem_served coherence_point caches_used.
  intros H Hbd Hi0 Hi1 Hd Hdl Hm' C2 Hroom Hfa V2 Hone. pose proof Hbd as [_ _ _ _ _ _ HV1 Hok1 Hlen1 Hmem1 (Htr & HKa & HK)].
  assert (i < length (Sys.caches s1))%nat as Hlt by (by eapply lookup_lt_Some). pose proof (ch_len _ _ H) as Hlen.
  set (U := λ j a', if decide (a' = a) then if decide (j = i) then Some l else snoop_line (isInvalidate (cmd q)) (V s0 j a) else V s0 j a') in *.
  assert (∀ j a', V (set_cache i c2 s1) j a' = if decide (j = i) then view c2 a' else V s1 j a') as HV2 by (intros; by apply V_set_cache).
  assert (∀ j a', j ≠ i → V s1 j a' = U j a') as HU.
  { intros j a' Hj. rewrite HV1. unfold U. rewrite (decide_False (P := j = i)) by done. destruct (decide (a' = a)).
    - by rewrite decide_True.
    - by rewrite decide_False by (by intros [_ ?]). }
  assert (∀ a', U i a' = upd (view c1) a (Some l) a') as HUi.
  { intros a'. unfold U, upd. rewrite (decide_True (P := i = i)) by done. destruct (decide (a' = a)); [done|]. by apply V_eq. }
  destruct (writebacks_ok now i wbs (set_cache i c2 s1) U d0 m' K') as (s' & Hs' & Hc' & H'); try done.
  - simpl. rewrite length_insert. lia.
  - lia.
  - by apply all_ok_set.
  - simpl. rewrite Hmem1. apply (ch_locks _ _ H).
  - simpl. by rewrite Hmem1.
  - intros j a' l' Hj. destruct (decide (j = i)) as [->|Hne]; [|apply (HK j a' l'); by rewrite HU].
    rewrite HUi in Hj. unfold upd in Hj. destruct (decide (a' = a)) as [->|]; [done|]. apply (HK i a' l'). by rewrite (V_eq _ _ _ _ Hi1).
  - pose proof (makes_room_upd wbs (view c1) f a (Some l) Hroom Hfa) as Hr.
    destruct Hr as [[-> Hs]|(wb & v & lv & -> & Hv & He & Hs)]; [left|right].
    + split; [done|]. intros a'. by rewrite HV2, decide_True, V2, Hs, HUi.
    + exists wb, v, lv. split; [done|]. split; [by rewrite HUi|]. split; [done|]. intros a'. rewrite HV2, decide_True, V2, Hs by done.
      unfold upd at 1 3. destruct (decide (a' = v)); [done|]. by rewrite HUi.
  - intros j a' Hj. rewrite HV2, decide_False by done. by apply HU.
  - exists s'. split; [done|]. split; [|done]. rewrite Hc'. by apply set_cache_lookup.
Qed.

(** ** Every access *)

(** The access is done, and the bytes are those of one memory. *)
Definition serves (now : Z) (i : nat) (k : Pkt) (s : Sys) (m : list Z) : Prop :=
  ∃ k' s' m', recvAtomic_base P now (self i) (send now i) Sys.above k s = Ok (k', s') ∧ flat_access start k m k' m' ∧ coherent s' m'.

Lemma core_same k k' a d :
  core_pkt k a d → cmd k' = cmd k → addr k' = addr k → isSecure k' = isSecure k → size k' = size k → req k' = req k →
  hasSharers k' = hasSharers k → cacheResponding k' = cacheResponding k → ∀ d', data k' = Some d' → Z.of_nat (length d') = size k → core_pkt k' a d'.
Proof using Type.
  intros [[L1 L2 L3 L4 L5] Hd Hl Hm Hc Hw Hk Hr Hf] E1 E2 E3 E4 E5 E6 E7 d' Hd' Hl'. unfold locks_fine in *.
  split; rewrite ?E1, ?E2, ?E4, ?E5, ?E6, ?E7; try done. split; by rewrite ?E2, ?E3, ?E4. unfold locks_fine. by rewrite E1, E5.
Qed.

(** The response to a read. *)
Lemma read_response k a d m :
  core_pkt k a d → isWrite (cmd k) = false → in_mem a → Z.of_nat (length m) = msize →
  let k1 := set_data (Some (slice (off k a) (Z.to_nat (size k)) (line_of m a))) k in
  ∃ k', makeResponse k1 = Ok k' ∧ flat_access start k m k' m.
Proof using G start_pos.
  intros Hk Hw Ha Hm k1. pose proof (il_fit _ _ _ (cp_line _ _ _ _ _ Hk)). pose proof (il_size _ _ _ (cp_line _ _ _ _ _ Hk)).
  destruct (in_line_offset P nb sb G k a (cp_line _ _ _ _ _ Hk)) as [_ ?]. pose proof (line_of_length m a Ha Hm).
  assert (core_pkt k1 a (slice (off k a) (Z.to_nat (size k)) (line_of m a))) as Hk1.
  { apply (core_same k k1 a d Hk); try done. rewrite slice_length; unfold off; lia. }
  rewrite (makeResponse_ok k1 a _ Hk1). change (cmd k1) with (cmd k). rewrite Hw. eexists. split; [done|].
  unfold k1. rewrite (line_read k a d m) by done. apply flat_read. by eapply core_read.
Qed.

(** The response to a write. *)
Lemma write_response k k1 a d m ok :
  core_pkt k a d → isWrite (cmd k) = true → wrote k k1 ok →
  ∃ k', makeResponse k1 = Ok k' ∧ cmd k1 = cmd k ∧ flat_access start k m k' (if ok then splice (Z.to_nat (addr k - start)) d m else m).
Proof using Type.
  intros Hk Hw Hk1. unfold wrote in Hk1. assert (core_pkt k1 a d) as Hc1.
  { destruct (isLLSC (cmd k)); [subst k1|by destruct Hk1 as [_ ->]]. apply (core_same k _ a d Hk); try done; [apply (cp_data _ _ _ _ _ Hk)|apply (cp_len _ _ _ _ _ Hk)]. }
  assert (cmd k1 = cmd k) as Ec by (destruct (isLLSC (cmd k)); [by subst|by destruct Hk1 as [_ ->]]).
  rewrite (makeResponse_ok k1 a d Hc1), Ec, Hw. eexists. split; [done|]. split; [done|].
  destruct (core_write _ _ _ _ _ Hk Hw) as [E|[E|E]]; rewrite E in *.
  1,2: destruct Hk1 as [-> ->]; apply flat_write; [auto|apply (cp_data _ _ _ _ _ Hk)].
  change (k1 = set_extraData (Z.b2z ok) k) in Hk1. subst k1. apply flat_store_cond; [done|apply (cp_data _ _ _ _ _ Hk)].
Qed.

(** The memory after a write. *)
Lemma written_lines k a d m (ok : bool) :
  core_pkt k a d → in_mem a → Z.of_nat (length m) = msize →
  let m' := if ok then splice (Z.to_nat (addr k - start)) d m else m in
  Z.of_nat (length m') = msize ∧ (if ok then splice (off k a) d (line_of m a) else line_of m a) = line_of m' a ∧
  (∀ a', in_mem a' → a' ≠ a → line_of m' a' = line_of m a').
Proof using G start_pos.
  intros Hk Ha Hm m'. destruct (line_write k a d m Hk Ha Hm) as (? & ? & ?). unfold m'. by destruct ok.
Qed.

Section one.
Context (now : Z) (i : nat) (k : Pkt) (a : Z) (d : list Z) (s : Sys) (m : list Z) (c : Cache).
Context (H : coherent s m) (Hi : Sys.caches s !! i = Some c) (Hk : core_pkt k a d) (Ha : in_mem a).

Lemma read_hit l : isWrite (cmd k) = false → view c a = Some l → serves now i k s m.
Proof using G rw start_pos H Hi Hk Ha.
  intros Hw Hl. pose proof (ch_ok _ _ H i c Hi) as C.
  destruct (access_hit_read P nb sb now G locking rw c k a d l C Hk Hw Hl) as (p & b & c' & Hac & C' & Hp & V').
  destruct (core_cmd _ _ _ _ _ Hk) as (_ & _ & _ & E4 & _ & _ & E7 & _). pose proof (ch_memory _ _ H) as (d0 & _ & _ & Hone).
  assert (bytes l = line_of m a) as Hb by (apply (om_copy _ _ _ Hone i a l); by rewrite (V_eq _ _ _ _ Hi)). rewrite Hb in Hac.
  destruct (read_response k a d m Hk Hw Ha (ch_size _ _ H)) as (k' & Hr & Hflat).
  exists k', (set_cache i c' s), m. split; [|split; [done|by apply (coherent_same i c)]].
  rewrite (hit_steps now i c c' k _ a (Some p) s Hi Hac); [by apply lift_ok|done|done|]. right. eauto.
Qed.

Lemma write_hit l : isWrite (cmd k) = true → view c a = Some l → writable l = true → serves now i k s m.
Proof using G rw start_pos H Hi Hk Ha.
  intros Hw Hl Hwr. pose proof (ch_ok _ _ H i c Hi) as C.
  destruct (access_hit_write P nb sb now G locking rw c k a d l C Hk Hw Hl Hwr) as (ok & k1 & p & b & c' & Hac & C' & Hp & Hk1 & V').
  destruct (core_cmd _ _ _ _ _ Hk) as (_ & _ & _ & E4 & _ & _ & E7 & _).
  assert (bytes l = line_of m a) as Hb.
  { pose proof (ch_memory _ _ H) as (d0 & _ & _ & Hone). apply (om_copy _ _ _ Hone i a l). by rewrite (V_eq _ _ _ _ Hi). }
  rewrite Hb in V'. destruct (write_response k k1 a d m ok Hk Hw Hk1) as (k' & Hr & Ec & Hflat).
  destruct (written_lines k a d m ok Hk Ha (ch_size _ _ H)) as (Hm' & Hline & Hother).
  eexists k', (set_cache i c' s), _. split; [|split; [exact Hflat|]].
  - rewrite (hit_steps now i c c' k k1 a (Some p) s Hi Hac); [by apply lift_ok|by rewrite Ec..|]. right. eauto.
  - apply (coherent_set i c c' s m _ H Hi C' Hm').
    + intros a' [l' Hl']. rewrite V' in Hl'. unfold upd in Hl'. destruct (decide (a' = a)) as [->|]; [by exists l|by exists l'].
    + intros d1 Hone. eapply one_memory_ext; [|exact (one_memory_write (V s) d1 m _ i a _ Hone Ha Hline Hother)].
      intros j a'. cbn beta. destruct (decide (j = i)) as [->|Hj].
      * rewrite V'. unfold upd. destruct (decide (a' = a)); [done|]. by rewrite (V_eq _ _ _ _ Hi).
      * destruct (decide (a' = a)) as [->|]; [|done]. destruct (V s j a) as [l'|] eqn:Ej; [|done].
        destruct (om_one _ _ _ Hone i j a l l') as [Hf _]; [done|by rewrite (V_eq _ _ _ _ Hi)|done|]. by rewrite Hwr in Hf.
Qed.

Lemma store_cond_miss : cmd k = StoreCondReq → view c a = None → serves now i k s m.
Proof using G rw H Hi Hk.
  intros Hc Hn. pose proof (ch_ok _ _ H i c Hi) as C.
  destruct (access_miss_sc P nb sb now G locking rw c k a d C Hk Hc Hn) as (c' & Hac & C' & V').
  assert (wrote k (set_extraData 0 k) false) as Hwk by (unfold wrote; by rewrite Hc).
  destruct (write_response k (set_extraData 0 k) a d m false Hk ltac:(by rewrite Hc) Hwk) as (k' & Hr & Ec & Hflat).
  exists k', (set_cache i c' s), m. split; [|split; [done|by apply (coherent_same i c)]].
  rewrite (hit_steps now i c c' k _ a None s Hi Hac); [by apply lift_ok|by rewrite Ec, Hc..|by left].
Qed.

Lemma read_miss : isWrite (cmd k) = false → view c a = None → serves now i k s m.
Proof using G rw private range_eq start_pos range_fits mem_served coherence_point caches_used H Hi Hk Ha.
  intros Hw Hn. assert (misses P c k a) as Hm.
  { unfold misses. rewrite Hn. intros E. by rewrite E in Hw. }
  destruct (miss_bus now i k a d s m c H Hi Hk Ha Hm) as (blk & c1 & b & q & q' & s1 & K' & d0 & Hac & C1 & V1 & Hf & Hpk & Hmp & H1 & Hs & Hi1 & Hd & Hdl & Hone & Hqc & Hbd & Hmr).
  assert (view c1 a = None) as Hn1 by (by rewrite V1). pose proof Hf as Hblk. unfold found in Hblk. rewrite Hn1 in Hblk. subst blk.
  destruct (handle_response_read P nb sb now G locking rw c1 k q' a d (line_of m a) C1 Hk Hn1 Hmr Hw)
    as (p & wbs & f & c2 & b2 & Hhr & C2 & Hp2 & Hroom & Hfa & V2).
  assert (Sys.caches (set_cache i c1 s) !! i = Some c1) as Hi' by (apply set_cache_lookup; by eapply lookup_lt_Some).
  assert (i < length (Sys.caches s))%nat as Hlt by (by eapply lookup_lt_Some).
  destruct (core_cmd _ _ _ _ _ Hk) as (_ & E2 & E3 & E4 & _ & _ & E7 & _). destruct (cp_req _ _ _ _ _ Hk) as (_ & _ & Hu & _).
  pose proof (ch_memory _ _ H1) as (d1 & Hd1 & _ & Hone1). assert (d1 = d0) as -> by (simpl in Hd1; rewrite Hd in Hd1; by injection Hd1).
  assert (isInvalidate (cmd q) = false) as Hinv by (by rewrite Hqc, (miss_cmd_invalidate P c k a _ Hm eq_refl)).
  assert (∃ s', doWritebacksAtomic P (send now i) Sys.above wbs (set_cache i c2 s1) = Ok (tt, s') ∧ Sys.caches s' !! i = Some c2 ∧ coherent s' m)
    as (s' & Hwb & Hc' & H').
  { eapply (miss_finish now i q a d0 (set_cache i c1 s) s1 q' K' c1 c2 m m _ wbs f); try done; [apply (ch_size _ _ H)|by rewrite Hfa|].
    assert (negb (hasSharers q') && cacheResponding q' = false) as ->.
    { destruct (cacheResponding q') eqn:Er; [|apply andb_false_r]. apply (bd_responding _ _ _ _ _ _ _ _ _ _ _ _ _ _ Hbd) in Er as (l & j & Hj & Hl & _).
      rewrite (proj2 (bd_sharers _ _ _ _ _ _ _ _ _ _ _ _ _ _ Hbd)); [done|]. split; [done|]. eauto. }
    rewrite Hinv. apply one_memory_read; [done|done|by rewrite (V_eq _ _ _ _ Hi')|].
    intros Hsh j Hj. destruct (V (set_cache i c1 s) j a) as [l|] eqn:El; [|done].
    rewrite (proj2 (bd_sharers _ _ _ _ _ _ _ _ _ _ _ _ _ _ Hbd)) in Hsh; [done|]. split; [done|]. eauto. }
  destruct (read_response k a d m Hk Hw Ha (ch_size _ _ H)) as (k' & Hr & Hflat).
  exists k', s', m. split; [|done]. set (k1 := set_data (Some (slice (off k a) (Z.to_nat (size k)) (line_of m a))) k) in *.
  rewrite (miss_steps now i c c1 c2 k k1 q q' a None b wbs p b2 s s1); try done. rewrite (M_bind_ok _ _ _ _ _ Hwb).
  rewrite (access_ends now i k1 (Some p) s' c2 Hc'); [by apply lift_ok| |done]. intros p0 [= <-]. destruct Hp2 as (n & -> & _). done.
Qed.

Lemma write_miss : isWrite (cmd k) = true → misses P c k a → serves now i k s m.
Proof using G rw private range_eq start_pos range_fits mem_served coherence_point caches_used H Hi Hk Ha.
  intros Hw Hm.
  destruct (miss_bus now i k a d s m c H Hi Hk Ha Hm) as (blk & c1 & b & q & q' & s1 & K' & d0 & Hac & C1 & V1 & Hf & Hpk & Hmp & H1 & Hs & Hi1 & Hd & Hdl & Hone & Hqc & Hbd & Hmr).
  destruct (handle_response_write P nb sb now G locking rw c1 k q' a d blk (line_of m a) C1 Hk Hf Hmr Hw)
    as (ok & k1 & p & wbs & f & c2 & b2 & Hhr & C2 & Hp2 & Hk1 & Hroom & Hfa & V2).
  assert (Sys.caches (set_cache i c1 s) !! i = Some c1) as Hi' by (apply set_cache_lookup; by eapply lookup_lt_Some).
  assert (i < length (Sys.caches s))%nat as Hlt by (by eapply lookup_lt_Some).
  destruct (core_cmd _ _ _ _ _ Hk) as (_ & E2 & E3 & E4 & _ & _ & E7 & _). destruct (cp_req _ _ _ _ _ Hk) as (_ & _ & Hu & _).
  pose proof (ch_memory _ _ H1) as (d1 & Hd1 & _ & Hone1). assert (d1 = d0) as -> by (simpl in Hd1; rewrite Hd in Hd1; by injection Hd1).
  assert (isInvalidate (cmd q) = true) as Hinv by (by rewrite Hqc, (miss_cmd_invalidate P c k a _ Hm eq_refl)).
  destruct (write_response k k1 a d m ok Hk Hw Hk1) as (k' & Hr & Ec & Hflat).
  destruct (written_lines k a d m ok Hk Ha (ch_size _ _ H)) as (Hm' & Hline & Hother).
  assert (∃ s', doWritebacksAtomic P (send now i) Sys.above wbs (set_cache i c2 s1) = Ok (tt, s') ∧ Sys.caches s' !! i = Some c2 ∧
    coherent s' (if ok then splice (Z.to_nat (addr k - start)) d m else m)) as (s' & Hwb & Hc' & H').
  { eapply (miss_finish now i q a d0 (set_cache i c1 s) s1 q' K' c1 c2 m _ _ wbs f); try done.
    eapply one_memory_ext; [|exact (one_memory_write _ d0 m _ i a _ Hone1 Ha Hline Hother)].
    intros j a'. cbn beta. rewrite Hinv. destruct (decide (a' = a)); [|done]. destruct (decide (j = i)); [done|].
    unfold snoop_line. by destruct (V (set_cache i c1 s) j a). }
  eexists k', s', _. split; [|split; [exact Hflat|done]].
  rewrite (miss_steps now i c c1 c2 k k1 q q' a blk b wbs p b2 s s1); try done. rewrite (M_bind_ok _ _ _ _ _ Hwb).
  rewrite (access_ends now i k1 (Some p) s' c2 Hc'); [by apply lift_ok| |by rewrite Ec]. intros p0 [= <-]. destruct Hp2 as (n & -> & _). done.
Qed.
End one.

Lemma serves_all now i k a d s m : coherent s m → (i < ncaches)%nat → core_pkt k a d → in_mem a → serves now i k s m.
Proof using G rw private range_eq start_pos range_fits mem_served coherence_point caches_used.
  intros H Hlt Hk Ha. destruct (lookup_lt_is_Some_2 (Sys.caches s) i ltac:(by rewrite (ch_len _ _ H))) as (c & Hi).
  destruct (isWrite (cmd k)) eqn:Hw; destruct (view c a) as [l|] eqn:Hl.
  - destruct (writable l) eqn:Hwr; [by eapply write_hit|]. eapply write_miss; [done..|]. unfold misses. by rewrite Hl.
  - destruct (decide (cmd k = StoreCondReq)); [by eapply store_cond_miss|]. eapply write_miss; [done..|]. unfold misses. by rewrite Hl.
  - by eapply read_hit.
  - by eapply read_miss.
Qed.

End coherence.
