(* ===== verification/CacheRefine.v ===== *)
(** * Caches and memory are one memory

    The theorems about whole runs: from empty caches, any sequence of reads,
    writes, load-locked and store-conditional requests of any cores ends, every
    request is answered, and the answers and the bytes are those of one array.
    They hold for every snoop tracker that keeps the laws of [TrackerLaws]. *)
From stdpp Require Import base tactics list gmap strings sets.
From Stdlib Require Import ZArith Lia.
From S2P Require Import Prelude MemCmd AddrRange CachePkt CacheBlk CacheTags Cache AbstractMem CacheSys CacheProps CacheBus CacheAccess CacheCoherent.
Import CachePkt Cache.
Local Open Scope Z_scope.

(** A board: [ncaches] caches with parameters [P] on a crossbar [X] above a memory
    of [msize] bytes at address [start].  The caches are not read-only, the cores
    above them are not snooped, the crossbar is the point of coherency. *)
Record board (X : Sys.XParams) (P : Params) (range : AddrRange.AddrRange) (start msize nb sb : Z) : Prop := {
  bo_tags : geometry (tp P) nb sb;
  bo_size : Tags.size (tp P) = Tags.numSets (tp P) * Tags.assoc (tp P) * Tags.blkSize (tp P);
  bo_writes : isReadOnly P = false;
  bo_private : forwardSnoops P = false;
  bo_range : range = AddrRange.range start (start + msize);
  bo_start : 0 ≤ start;
  bo_fits : start + msize < 2 ^ 64;
  bo_served : ∀ a, in_mem P start msize a → inRange (addrRanges P) a = Ok true;
  bo_coherency : Sys.pointOfCoherency X = true;
  bo_caches : Sys.bypassCaches X = false;
}.

(** Everything is off: empty caches, the bytes [m] in memory. *)
Definition power_on {F} (P : Params) (n : nat) (f : F) (m : list Z) : res (Sys.Sys F) :=
  c ← new_cache P;
  Ok (Sys.mkSys (replicate n c) (Mem.mkMem (Some m) []) f ∅).

Section board.
Context {F : Type} {T : Tracker F} (X : Sys.XParams) (P : Params) (range : AddrRange.AddrRange) (start msize nb sb : Z).
Context (B : board X P range start msize nb sb) (locking : bool) (ncaches : nat) {L : TrackerLaws T P ncaches}.
Notation Sys := (Sys.Sys F).
Notation coherent := (coherent P nb sb locking ncaches start msize).

(** An access that a core may make: within a line of the memory. *)
Definition core_access (x : Z * nat * Pkt) : Prop :=
  let a := Tags.blkAlign (tp P) (addr x.2) in
  (x.1.2 < ncaches)%nat ∧ in_mem P start msize a ∧ ∃ d, core_pkt P locking x.2 a d.

(** ** One access *)

(** Whole-line writes are promoted; the response is the same. *)
Lemma promote_core k a d :
  core_pkt P locking k a d → core_pkt P locking (promoteWholeLineWrites P k) a d ∧
  ∀ m k' m', flat_access start (promoteWholeLineWrites P k) m k' m' → flat_access start k m k' m'.
Proof using B.
  intros Hk. unfold promoteWholeLineWrites. destruct (_ && _) eqn:E; [|done].
  apply andb_true_iff in E as [[[Hc Hs%Z.eqb_eq]%andb_true_iff _]%andb_true_iff _]. apply bool_decide_eq_true in Hc. split.
  - destruct Hk as [[L1 L2 L3 L4 L5] Hd Hl Hm Hin Hw Hlk Hr Hf]. unfold locks_fine in *. split; try done; [simpl; set_solver|].
    unfold locks_fine. rewrite Hc in Hlk. by destruct locking.
  - intros m k' m' Hfl. inversion Hfl as [? ? Hx|? d1 ? Hx Hdx|? ? ? ? Hx]; subst; simpl in *; [by destruct Hx| |done].
    apply (flat_write start k d1 m (or_introl Hc) Hdx).
Qed.

Lemma access_ok now i k (s : Sys) m :
  core_access (now, i, k) → coherent s m →
  ∃ k' s' m', Sys.recvAtomic X P range now i k s = Ok (k', s') ∧ flat_access start k m k' m' ∧ coherent s' m'.
Proof using B.
  intros (Hi & Ha & d & Hk) H. destruct B. destruct (promote_core k _ d Hk) as [Hk0 Hflat].
  destruct (serves_all X P range nb sb bo_tags0 locking bo_writes0 bo_private0 ncaches start msize bo_range0 bo_start0 bo_fits0 bo_served0
    bo_coherency0 bo_caches0 now i _ _ d s m H Hi Hk0 Ha) as (k' & s' & m' & Hr & Hf & H').
  exists k', s', m'. split; [|by auto]. unfold Sys.recvAtomic, Cache.recvAtomic. destruct (cp_flags _ _ _ _ _ Hk0) as [_ ->]. exact Hr.
Qed.

Lemma run_ok accesses : ∀ (s : Sys) m,
  Forall core_access accesses → coherent s m →
  ∃ ks s' m', Sys.run X P range accesses s = Ok (ks, s') ∧ flat_run start accesses m ks m' ∧ coherent s' m'.
Proof using B.
  induction accesses as [|[[now i] k] accesses IH]; intros s m Hall H.
  - exists [], s, m. split; [done|]. split; [constructor|done].
  - apply Forall_cons in Hall as [Hx Hall]. destruct (access_ok now i k s m Hx H) as (k' & s1 & m1 & Hr & Hf & H1).
    destruct (IH s1 m1 Hall H1) as (ks & s2 & m2 & Hrun & Hfs & H2). exists (k' :: ks), s2, m2.
    split; [|split; [by econstructor|done]]. cbn [Sys.run]. rewrite (M_bind_ok _ _ _ _ _ Hr). by rewrite (M_bind_ok _ _ _ _ _ Hrun).
Qed.

(** ** The first state *)

Lemma new_cache_ok : ∃ c, new_cache P = Ok c ∧ cache_ok P nb sb locking c ∧ ∀ a, view P c a = None.
Proof using B.
  destruct B. destruct (tagsInit_ok (tp P) nb sb bo_tags0 bo_size0) as (bs & Hbs & W & Hinv). unfold new_cache. rewrite Hbs. cbn [mbind res_bind].
  eexists. split; [done|]. assert (cache_ok P nb sb locking (mkCache bs (CacheBlk.mkBlk false false CacheBlk.MaxAddr 0
    (replicate (Z.to_nat (Tags.blkSize (tp P))) 0) [] 0 0) 0 None false)) as C.
  { split; try done. intros i b Hb Hv. by rewrite (Hinv i b Hb) in Hv. }
  split; [done|]. intros a. destruct (view P _ a) as [l|] eqn:E; [|done].
  apply (view_line P nb sb bo_tags0 locking) in E as (_ & p & b & (i & _ & (Hb & Hv & _)) & _); [|done]. by rewrite (Hinv i b Hb) in Hv.
Qed.

Lemma power_on_ok (f : F) m :
  Z.of_nat (length m) = msize → tracks f (λ _ _, False) → ∃ s, power_on P ncaches f m = Ok s ∧ coherent s m.
Proof using B.
  intros Hm Hf. destruct new_cache_ok as (c & Hc & C & HV). unfold power_on. rewrite Hc. cbn [mbind res_bind]. eexists. split; [done|].
  assert (∀ i a, V P (Sys.mkSys (replicate ncaches c) (Mem.mkMem (Some m) []) f ∅) i a = None) as HN.
  { intros i a. unfold V. simpl. destruct (replicate ncaches c !! i) as [c'|] eqn:E; [|done]. apply lookup_replicate in E as [-> _]. apply HV. }
  split; simpl; try done.
  - apply length_replicate.
  - intros i c' Hi. simpl in Hi. apply lookup_replicate in Hi as [-> _]. done.
  - exists m. split; [done|]. split; [done|]. split; [intros i a l; by rewrite HN|intros i j a l l' _; by rewrite HN|done].
  - exists (λ _ _, False). split; [done|]. intros i a l. by rewrite HN.
Qed.
End board.

(** ** The specification is a function *)

(** Without store conditionals, an array gives one answer. *)
Lemma flat_access_det start k m k1 m1 k2 m2 :
  isLLSC (cmd k) = false → flat_access start k m k1 m1 → flat_access start k m k2 m2 → k1 = k2 ∧ m1 = m2.
Proof.
  intros Hl H1 H2. inversion H1 as [? ? C1|? d1 ? C1 D1|? d1 ? ? C1 D1]; subst; inversion H2 as [? ? C2|? d2 ? C2 D2|? d2 ? ? C2 D2]; subst;
    rewrite ?C1, ?C2 in Hl; try done.
  - exfalso. by destruct C1 as [C1|C1], C2 as [C2|C2]; rewrite C1 in C2.
  - exfalso. by destruct C1 as [C1|C1], C2 as [C2|C2]; rewrite C1 in C2.
  - rewrite D1 in D2. injection D2 as ->. done.
Qed.

Lemma flat_run_det start accesses : ∀ m ks1 m1 ks2 m2,
  Forall (λ x, isLLSC (cmd x.2) = false) accesses → flat_run start accesses m ks1 m1 → flat_run start accesses m ks2 m2 → ks1 = ks2 ∧ m1 = m2.
Proof.
  induction accesses as [|x accesses IH]; intros m ks1 m1 ks2 m2 Hall H1 H2; inversion H1; subst; inversion H2; subst; [done|].
  apply Forall_cons in Hall as [Hx Hall]. simpl in Hx.
  match goal with Ha : flat_access _ _ _ ?a ?b, Hb : flat_access _ _ _ ?c ?d |- _ => destruct (flat_access_det _ _ _ _ _ _ _ Hx Ha Hb) as [? ?]; subst end.
  match goal with Ha : flat_run _ accesses _ ?a _, Hb : flat_run _ accesses _ ?b _ |- _ :: ?a = _ :: ?b ∧ _ =>
    destruct (IH _ _ _ _ _ Hall Ha Hb) as [? ?]; by subst end.
Qed.

(** C2. The caches are transparent.  On a board, from empty caches, every sequence of
    reads, writes, load-locked and store-conditional requests of the cores ends
    without an error; the responses, and the bytes the next accesses see, are those
    of one array of bytes that serves the requests one after the other. *)
Theorem caches_refine_memory {F} {T : Tracker F} X P range start msize nb sb locking ncaches {L : TrackerLaws T P ncaches} (f : F) m accesses :
  board X P range start msize nb sb → Z.of_nat (length m) = msize → tracks f (λ _ _, False) →
  Forall (core_access P start msize locking ncaches) accesses →
  ∃ s ks s' m', power_on P ncaches f m = Ok s ∧ Sys.run X P range accesses s = Ok (ks, s') ∧ flat_run start accesses m ks m' ∧
    coherent P nb sb locking ncaches start msize s' m'.
Proof.
  intros B Hm Hf Hall. destruct (power_on_ok X P range start msize nb sb B locking ncaches f m Hm Hf) as (s & Hs & H).
  destruct (run_ok X P range start msize nb sb B locking ncaches accesses s m Hall H) as (ks & s' & m' & Hr). eauto 8.
Qed.

(** C13. A line has one writer.  After any sequence of accesses from empty caches, a
    cache that may write a line is the only one that has a copy of it; all copies
    have the same bytes, and at most one of them is dirty. *)
Theorem single_writer {F} {T : Tracker F} X P range start msize nb sb locking ncaches {L : TrackerLaws T P ncaches} (f : F) m accesses s ks s' :
  board X P range start msize nb sb → Z.of_nat (length m) = msize → tracks f (λ _ _, False) →
  Forall (core_access P start msize locking ncaches) accesses →
  power_on P ncaches f m = Ok s → Sys.run X P range accesses s = Ok (ks, s') →
  ∀ i j a l l', i ≠ j → V P s' i a = Some l → V P s' j a = Some l' →
    writable l = false ∧ bytes l' = bytes l ∧ (dirty l = true → dirty l' = false).
Proof.
  intros B Hm Hf Hall Hs Hr i j a l l' Hne Hi Hj. destruct (power_on_ok X P range start msize nb sb B locking ncaches f m Hm Hf) as (s0 & Hs0 & H).
  rewrite Hs in Hs0. injection Hs0 as <-.
  destruct (run_ok X P range start msize nb sb B locking ncaches accesses s m Hall H) as (ks' & s1 & m' & Hr' & _ & H').
  rewrite Hr in Hr'. injection Hr' as <- <-. destruct (ch_memory _ _ _ _ _ _ _ _ _ H') as (d & _ & _ & [Hcopy Hone _]).
  destruct (Hone i j a l l' Hne Hi Hj). destruct (Hcopy i a l Hi) as [_ ->], (Hcopy j a l' Hj) as [_ ->]. done.
Qed.

(** C17. How a board is built does not matter.  Two boards over the same memory, with
    any number, size and associativity of caches, with a snoop filter or without,
    give the same responses to the same reads and writes. *)
Theorem boards_agree {F F'} {T : Tracker F} {T' : Tracker F'} X X' P P' range range' start msize nb nb' sb sb' n n'
    {L : TrackerLaws T P n} {L' : TrackerLaws T' P' n'} (f : F) (f' : F') m accesses :
  board X P range start msize nb sb → board X' P' range' start msize nb' sb' → Z.of_nat (length m) = msize →
  tracks f (λ _ _, False) → tracks f' (λ _ _, False) →
  Forall (core_access P start msize false n) accesses → Forall (core_access P' start msize false n') accesses →
  ∃ s s' ks t t', power_on P n f m = Ok s ∧ power_on P' n' f' m = Ok s' ∧
    Sys.run X P range accesses s = Ok (ks, t) ∧ Sys.run X' P' range' accesses s' = Ok (ks, t').
Proof.
  intros B B' Hm Hf Hf' Hall Hall'.
  destruct (power_on_ok X P range start msize nb sb B false n f m Hm Hf) as (s & Hs & H).
  destruct (power_on_ok X' P' range' start msize nb' sb' B' false n' f' m Hm Hf') as (s' & Hs' & H').
  destruct (run_ok X P range start msize nb sb B false n accesses s m Hall H) as (ks & t & m1 & Hr & Hfl & _).
  destruct (run_ok X' P' range' start msize nb' sb' B' false n' accesses s' m Hall' H') as (ks' & t' & m2 & Hr' & Hfl' & _).
  destruct (flat_run_det start accesses m ks m1 ks' m2) as [-> _]; [|done..|].
  - eapply Forall_impl; [exact Hall|]. intros x (_ & _ & d & Hk). apply (cp_locks _ _ _ _ _ Hk).
  - eauto 10.
Qed.
