(* ===== verification/CacheFilter.v ===== *)
(** * The snoop filter as a tracker

    The snoop filter keeps the laws of [TrackerLaws]: it never fails for the
    requests, responses and evictions of the caches of a board, and it tells the
    crossbar every cache that may have a copy.  So what is proved of the caches
    holds with the filter as well as without. *)
From stdpp Require Import base tactics list gmap strings sets.
From Stdlib Require Import ZArith Lia.
From S2P Require Import Prelude MemCmd SnoopFilter SnoopFilterProps SnoopFilterSpec CachePkt CacheTags Cache CacheSys CacheProps CacheBus.
Import SnoopFilter.
Local Open Scope Z_scope.

(** The ports of the caches of a board. *)
Definition cache_ports (n : nat) : list Port := map cache_port (seq 0 n).

(** A filter for [n] caches with the line size of the caches. *)
Record filters (P : Cache.Params) (n : nat) (c : Config) : Prop := {
  fl_configured : configured (cache_ports n) c;
  fl_line : linesize c = Tags.blkSize (Cache.tp P);
}.

Lemma snooping_all n : snooping (cache_ports n) = cache_ports n.
Proof. unfold snooping, cache_ports. induction (seq 0 n) as [|x l IH]; [done|]. simpl. rewrite filter_cons_True by done. by rewrite IH. Qed.

Lemma cache_ports_lookup n k p : cache_ports n !! k = Some p ↔ (k < n)%nat ∧ p = cache_port k.
Proof.
  unfold cache_ports. change (map cache_port (seq 0 n)) with (cache_port <$> seq 0 n). rewrite list_lookup_fmap, fmap_Some. split.
  - intros (x & Hx & ->). apply lookup_seq in Hx as [-> ?]. done.
  - intros [Hk ->]. exists k. split; [|done]. by apply lookup_seq.
Qed.

Lemma filters_setup P n lat cap c :
  setCPUSidePorts (cache_ports n) (Tags.blkSize (Cache.tp P)) lat cap = Ok c → filters P n c.
Proof.
  intros H. split.
  - eapply setCPUSidePorts_configured; [| |exact H].
    + unfold cache_ports. change (map cache_port (seq 0 n)) with (cache_port <$> seq 0 n). rewrite <-list_fmap_compose.
      apply NoDup_fmap; [|apply NoDup_ListNoDup, seq_NoDup]. intros x y E. simpl in E. lia.
    + apply Forall_forall. intros p Hp. apply list_elem_of_lookup in Hp as [k Hk]. pose proof Hk as [Hlt ->]%cache_ports_lookup.
      unfold cache_ports. rewrite length_map, length_seq. simpl. lia.
  - unfold setCPUSidePorts in H. destruct (number_ports _ _ _ _) as [[[x y] z]|]; [|done]. cbn [mbind res_bind] in H.
    destruct (_ <? _); [done|]. destruct (_ =? _); [done|]. injection H as <-. done.
Qed.

Section filter.
Context (P : Cache.Params) (n : nat) (c : Config) (Fl : filters P n c).

Lemma cache_mask j : (j < n)%nat → portToMask c (cache_port j) = Ok (2 ^ Z.of_nat j).
Proof using Fl. intros Hj. apply (cf_bit _ _ (fl_configured _ _ _ Fl)). rewrite snooping_all. by apply cache_ports_lookup. Qed.

Lemma line_key k a : CachePkt.isSecure k = false → CachePkt.addr k = a → aligned P a → line_addr c (filter_pkt k) = a.
Proof using Fl. intros Hs Ha [_ E]. unfold line_addr. simpl. rewrite Hs, Ha, (fl_line _ _ _ Fl). exact E. Qed.

(** The caches of a mask. *)
Lemma mask_caches m : ∃ r, maskToPortList c m = Ok r ∧ NoDup (map (λ p, Z.to_nat (p_id p)) r) ∧
  ∀ j, j ∈ map (λ p, Z.to_nat (p_id p)) r ↔ (j < n)%nat ∧ Z.testbit m (Z.of_nat j) = true.
Proof using Fl.
  destruct (maskToPortList_ok _ c m (fl_configured _ _ _ Fl)) as (r & Hr & Hin). exists r. split; [done|]. rewrite snooping_all in Hin.
  assert (∀ p, p ∈ r → ∃ j, p = cache_port j ∧ (j < n)%nat ∧ Z.testbit m (Z.of_nat j) = true) as Hp.
  { intros p (k & [Hk ->]%cache_ports_lookup & Ht)%Hin. eauto. }
  change (map (λ p, Z.to_nat (p_id p)) r) with ((λ p, Z.to_nat (p_id p)) <$> r). split.
  - apply NoDup_fmap_2_strong.
    + intros p q (j & -> & _)%Hp (j' & -> & _)%Hp E. simpl in E. rewrite !Nat2Z.id in E. by subst.
    + unfold maskToPortList in Hr. rewrite (cf_tracked _ _ (fl_configured _ _ _ Fl)) in Hr.
      assert (∀ l r, mask_to_ports c m l = Ok r → r `sublist_of` l) as Hsub.
      { clear. induction l as [|p l IH]; intros r Hr; cbn [mask_to_ports] in Hr; [by injection Hr as <-|].
        destruct (portToMask c p); [|done]. cbn [mbind res_bind] in Hr. destruct (mask_to_ports c m l) as [r'|]; [|done]. cbn [mbind res_bind] in Hr.
        injection Hr as <-. specialize (IH r' eq_refl). destruct (any _); by constructor. }
      eapply sublist_NoDup; [|by apply Hsub]. apply (cf_nodup _ _ (fl_configured _ _ _ Fl)).
  - intros j. rewrite list_elem_of_fmap. split.
    + intros (p & -> & (x & -> & ? & ?)%Hp). simpl. by rewrite Nat2Z.id.
    + intros [Hj Ht]. exists (cache_port j). split; [simpl; by rewrite Nat2Z.id|]. apply Hin. exists j. split; [by apply cache_ports_lookup|done].
Qed.

(** A lookup that is tracked. *)
Lemma lookup_run k i a f i' :
  CachePkt.isSecure k = false → CachePkt.addr k = a → aligned P a → (i < n)%nat →
  CachePkt.uncacheable (CachePkt.req k) = false → fromCache (CachePkt.cmd k) = true →
  track (filter_pkt k) (2 ^ Z.of_nat i) (item a f) = Ok i' →
  ∃ l f', tr_lookup (Tracker := snoop_filter c) k i f = Ok (l, f') ∧ stores a i' f f' ∧ NoDup l ∧
    ∀ j, j ∈ l ↔ (j < n)%nat ∧ Z.testbit (Z.ldiff (Z.lor (holder (item a f)) (requested (item a f))) (2 ^ Z.of_nat i)) (Z.of_nat j) = true.
Proof using Fl.
  intros Hs Ha Hal Hi Hu Hfc Ht. pose proof (line_key k a Hs Ha Hal) as Hkey.
  destruct (mask_caches (Z.ldiff (Z.lor (holder (item a f)) (requested (item a f))) (2 ^ Z.of_nat i))) as (r & Hr & Hnd & Hin).
  assert (∃ f1, lookupRequest c (filter_pkt k) (cache_port i) f = Ok ((r, lookupLatency c), f1) ∧ lookup_it f1 = Some a ∧
    cachedLocations f1 = <[a := i']> (cachedLocations f)) as (f1 & H1 & Hit & Hc1).
  { unfold lookupRequest. rewrite Hkey. cbn [p_snooping cache_port pk_uncacheable filter_pkt pk_cmd]. rewrite Hu, Hfc. cbn [negb andb].
    rewrite (M_bind_ok _ _ _ _ _ (lift_ok _ _ f (cache_mask i Hi))). rewrite (M_bind_ok _ _ _ f f) by done. rewrite andb_false_r.
    set (f0 := if negb (bool_decide (is_Some (cachedLocations f !! a))) then put a (mkItem 0 0) f else f).
    rewrite (M_bind_ok _ _ _ tt f0) by (unfold f0; by destruct (negb _)). rewrite (M_bind_ok _ _ _ tt (set_lookup (Some a) f0)) by done.
    rewrite (M_bind_ok _ _ _ (set_lookup (Some a) f0) (set_lookup (Some a) f0)) by done.
    assert (item a (set_lookup (Some a) f0) = item a f) as ->.
    { unfold item, f0. destruct (cachedLocations f !! a) eqn:E; simpl; [by rewrite E|by rewrite lookup_insert_eq]. }
    rewrite (M_bind_ok _ _ _ tt (set_retry (item a f) (set_lookup (Some a) f0))) by done.
    set (f2 := set_stats (count_request (bool_decide (is_Some (cachedLocations f !! a))) (Z.lor (holder (item a f)) (requested (item a f))))
      (set_retry (item a f) (set_lookup (Some a) f0))). rewrite (M_bind_ok _ _ _ tt f2) by done. cbn [when].
    rewrite (M_bind_ok _ _ _ tt (put a i' f2)) by (by rewrite (M_bind_ok _ _ _ _ _ (lift_ok _ _ f2 Ht))).
    rewrite (M_bind_ok _ _ _ _ _ (lift_ok _ _ _ Hr)). eexists. split; [done|]. split; [done|]. simpl. unfold f0.
    destruct (negb _); [|done]. simpl. by rewrite insert_insert_eq. }
  destruct (finishRequest_ok c false (filter_pkt k) f1 i') as (f2 & H2 & Hst); [by rewrite Hkey|by rewrite Hkey, Hc1, lookup_insert_eq|].
  rewrite Hkey in Hst. eexists _, f2. split; [|split; [|split; [exact Hnd|exact Hin]]].
  - cbn [tr_lookup snoop_filter]. rewrite (M_bind_ok _ _ _ _ _ H1). by rewrite (M_bind_ok _ _ _ _ _ H2).
  - unfold stores in *. rewrite Hst, Hc1. destruct (none _); [by rewrite delete_insert_eq|by rewrite insert_insert_eq].
Qed.

(** ** The laws *)

Definition knows (f : Filter) (K : Copies) : Prop :=
  no_null f ∧ ∀ a j, aligned P a → (j < n)%nat → K a j → Z.testbit (holder (item a f)) (Z.of_nat j) = true.

Definition filter_tracks (f : Filter) (K : Copies) : Prop := knows f K ∧ ∀ a, requested (item a f) = 0.
Definition filter_asked (f : Filter) (K : Copies) (a : Z) (i : nat) : Prop :=
  knows f K ∧ is_Some (cachedLocations f !! a) ∧ requested (item a f) = 2 ^ Z.of_nat i ∧ ∀ b, b ≠ a → requested (item b f) = 0.

Lemma stores_at a i f f' : stores a i f f' →
  (item a f' = i ∧ (none (Z.lor (requested i) (holder i)) = false → is_Some (cachedLocations f' !! a)) ∨
   none (Z.lor (requested i) (holder i)) = true ∧ item a f' = mkItem 0 0) ∧ ∀ b, b ≠ a → item b f' = item b f.
Proof using Type.
  intros Hs. split; [|by apply (stores_item a i f f')]. unfold stores, item in *. rewrite Hs. destruct (none _) eqn:E.
  - right. by rewrite lookup_delete_eq.
  - left. rewrite lookup_insert_eq. eauto.
Qed.

Lemma item_zero i : none (Z.lor (requested i) (holder i)) = true → i = mkItem 0 0.
Proof using Type. intros [E1 E2]%Z.eqb_eq%Z.lor_eq_0_iff. destruct i; simpl in *. by subst. Qed.

Lemma stores_eq a i f f' : stores a i f f' → item a f' = i ∧ ∀ b, b ≠ a → item b f' = item b f.
Proof using Type. intros [[[? _]|[Hn Hi]] Hb]%stores_at; (split; [|done]); [done|]. by rewrite Hi, (item_zero i). Qed.

Lemma stores_knows a i f f' (K K' : Copies) :
  no_null f → stores a i f f' → (∀ b j, b ≠ a → K' b j → K b j) → knows f K →
  (∀ j, (j < n)%nat → K' a j → Z.testbit (holder i) (Z.of_nat j) = true) → knows f' K'.
Proof using Type.
  intros Hn Hs Hsub [_ HK] Ha. destruct (stores_eq _ _ _ _ Hs) as [Hi Hb]. split; [by eapply stores_no_null|].
  intros b j Hal Hj HKb. destruct (decide (b = a)) as [->|Hne]; [rewrite Hi; by apply Ha|]. rewrite Hb by done. apply HK; [done|done|by apply Hsub].
Qed.

Lemma pow2_bit j i : Z.testbit (2 ^ Z.of_nat i) (Z.of_nat j) = bool_decide (j = i).
Proof using Type.
  case_bool_decide as E; [subst; apply Z.pow2_bits_true; lia|]. apply Z.pow2_bits_false. lia.
Qed.

Lemma pow2_nz i : 0 < 2 ^ Z.of_nat i.
Proof using Type. apply Z.pow_pos_nonneg; lia. Qed.

Lemma none_land m i : none (Z.land m (2 ^ Z.of_nat i)) = negb (Z.testbit m (Z.of_nat i)).
Proof using Type. rewrite <-(land_pow2 m (Z.of_nat i)) by lia. by rewrite any_none, negb_involutive. Qed.

Lemma filter_lookup f K k a i :
  filter_tracks f K → bus_request P k a → CachePkt.cacheResponding k = false → aligned P a → (i < n)%nat →
  ∃ l f', tr_lookup (Tracker := snoop_filter c) k i f = Ok (l, f') ∧ filter_asked f' K a i ∧ NoDup l ∧
    (∀ j, j ∈ l → (j < n)%nat) ∧ (∀ j, (j < n)%nat → j ≠ i → K a j → j ∈ l).
Proof using Fl.
  intros [[Hn HK] Hreq] Hk Hcr Hal Hi. destruct (bus_cmd _ _ _ Hk) as (_ & Hnr & _).
  assert (fromCache (CachePkt.cmd k) = true) as Hfc.
  { pose proof (bq_cmd _ _ _ Hk) as Hc. repeat (apply elem_of_cons in Hc as [Hc|Hc]; [by rewrite Hc|]). by apply elem_of_nil in Hc. }
  assert (track (filter_pkt k) (2 ^ Z.of_nat i) (item a f) = Ok (mkItem (2 ^ Z.of_nat i) (holder (item a f)))) as Ht.
  { unfold track. cbn [pk_cmd filter_pkt pk_cacheResponding]. rewrite Hnr, Hcr, Hreq. cbn [negb]. by rewrite Z.land_0_l. }
  destruct (lookup_run k i a f _ (bq_secure _ _ _ Hk) (bq_addr _ _ _ Hk) Hal Hi (proj1 (bq_cached _ _ _ Hk)) Hfc Ht) as (l & f' & Hl & Hst & Hnd & Hin).
  exists l, f'. split; [done|]. destruct (stores_eq _ _ _ _ Hst) as [Hia Hib]. split; [|split; [done|split]].
  - split; [by eapply (stores_knows a _ f f' K K); eauto; split|]. split; [|split; [by rewrite Hia|intros b Hb; by rewrite Hib]].
    destruct (stores_at _ _ _ _ Hst) as [[[_ H]|[H _]] _]; [apply H|apply item_zero in H; injection H as H _; pose proof (pow2_nz i); lia].
    simpl. apply Z.eqb_neq. intros [E _]%Z.lor_eq_0_iff. pose proof (pow2_nz i). lia.
  - intros j Hj. by apply Hin.
  - intros j Hj Hne HKj. apply Hin. split; [done|]. rewrite Z.ldiff_spec, Z.lor_spec, (HK a j Hal Hj HKj), pow2_bit. by rewrite bool_decide_false.
Qed.

Lemma filter_lookup_evict f K k a i :
  filter_tracks f K → tracked_eviction k a → aligned P a → (i < n)%nat → K a i →
  ∃ l f', tr_lookup (Tracker := snoop_filter c) k i f = Ok (l, f') ∧ filter_tracks f' (without_copy K a i) ∧ (∀ j, j ∈ l → (j < n)%nat).
Proof using Fl.
  intros [[Hn HK] Hreq] [Ha Hs Hc [Hu _] Hb] Hal Hi HKi.
  assert (fromCache (CachePkt.cmd k) = true ∧ needsResponse (CachePkt.cmd k) = false ∧ isEviction (CachePkt.cmd k) = true) as (Hfc & Hnr & Hev).
  { repeat (apply elem_of_cons in Hc as [->|Hc]; [done|]). by apply elem_of_nil in Hc. }
  assert (track (filter_pkt k) (2 ^ Z.of_nat i) (item a f) = Ok (mkItem 0 (Z.ldiff (holder (item a f)) (2 ^ Z.of_nat i)))) as Ht.
  { unfold track. cbn [pk_cmd filter_pkt pk_blockCached]. rewrite Hnr, Hev, none_land, (HK a i Hal Hi HKi), Hb, Hreq. done. }
  destruct (lookup_run k i a f _ Hs Ha Hal Hi Hu Hfc Ht) as (l & f' & Hl & Hst & _ & Hin). exists l, f'. split; [done|].
  destruct (stores_eq _ _ _ _ Hst) as [Hia Hib]. split; [|intros j Hj; by apply Hin]. split.
  - eapply (stores_knows a _ f f' K); [done|exact Hst|by intros b j _ [? _]|by split|].
    intros j Hj [HKj Hnot]. simpl. rewrite Z.ldiff_spec, (HK a j Hal Hj HKj), pow2_bit. rewrite bool_decide_false; [done|]. by intros ->; apply Hnot.
  - intros b. destruct (decide (b = a)) as [->|]; [by rewrite Hia|by rewrite Hib].
Qed.

Lemma asked_done a i i' f f' K K' :
  filter_asked f K a i → stores a i' f f' → requested i' = 0 → (∀ b j, b ≠ a → K' b j → K b j) →
  (∀ j, (j < n)%nat → K' a j → Z.testbit (holder i') (Z.of_nat j) = true) → filter_tracks f' K'.
Proof using Type.
  intros ([Hn HK] & _ & _ & Hother) Hst Hr Hsub Ha. destruct (stores_eq _ _ _ _ Hst) as [Hia Hib].
  split; [by eapply (stores_knows a i' f f' K K')|]. intros b. destruct (decide (b = a)) as [->|]; [by rewrite Hia|rewrite Hib by done; auto].
Qed.

Lemma filter_snoop_response f K k a i j :
  filter_asked f K a i → tracked_response k a → CachePkt.cacheResponding k = true → aligned P a → (i < n)%nat → (j < n)%nat → K a j →
  ∃ f', tr_snoop_response (Tracker := snoop_filter c) k j i f = Ok (tt, f') ∧ filter_tracks f' (handed_over K a i (CachePkt.hasSharers k)).
Proof using Fl.
  intros Hask [Ha Hs Hr [Hu _] Hw] Hcr Hal Hi Hj HKj. pose proof Hask as ([Hn HK] & _ & Hreq & _). pose proof (line_key k a Hs Ha Hal) as Hkey.
  set (i' := mkItem (Z.ldiff (requested (item a f)) (2 ^ Z.of_nat i)) (Z.lor (if CachePkt.hasSharers k then holder (item a f) else 0) (2 ^ Z.of_nat i))).
  assert (none (Z.lor (requested i') (holder i')) = false) as Hnn.
  { apply Z.eqb_neq. intros [_ [_ E]%Z.lor_eq_0_iff]%Z.lor_eq_0_iff. pose proof (pow2_nz i). lia. }
  exists (put a i' (put a (item a f) f)). split.
  - cbn [tr_snoop_response snoop_filter]. unfold updateSnoopResponse. rewrite Hkey.
    cbn [pk_cmd filter_pkt pk_cacheResponding pk_uncacheable pk_hasSharers p_snooping cache_port]. rewrite Hr, Hcr, Hu. cbn [negb orb].
    do 2 rewrite (M_bind_ok _ _ _ tt f) by done. rewrite (M_bind_ok _ _ _ _ _ (lift_ok _ _ f (cache_mask j Hj))).
    rewrite (M_bind_ok _ _ _ _ _ (lift_ok _ _ f (cache_mask i Hi))). rewrite (M_bind_ok _ _ _ f f) by done.
    set (f1 := put a (item a f) f). rewrite (M_bind_ok _ _ _ tt f1) by done.
    rewrite (none_land (holder (item a f))), (HK a j Hal Hj HKj). cbn [negb].
    assert (none (Z.land (requested (item a f)) (2 ^ Z.of_nat i)) = false) as -> by (by rewrite none_land, Hreq, pow2_bit, bool_decide_true).
    rewrite Hw. cbn [negb]. rewrite (M_bind_ok _ _ _ tt f1) by done. fold i'. rewrite (M_bind_ok _ _ _ tt (put a i' f1)) by done.
    rewrite any_none, Hnn. done.
  - apply (asked_done a i i' f _ K); [done| | | |].
    + unfold stores. rewrite Hnn. simpl. by rewrite insert_insert_eq.
    + unfold i'. simpl. rewrite Hreq. apply Z.ldiff_diag.
    + intros b x Hb. unfold handed_over. by rewrite decide_False.
    + intros x Hx. unfold handed_over. rewrite decide_True by done. unfold i'. simpl. rewrite Z.lor_spec, pow2_bit. intros [->|[-> HKx]].
      * rewrite bool_decide_true by done. apply orb_true_r.
      * by rewrite (HK a x Hal Hx HKx).
Qed.

Lemma filter_response f K k a i :
  filter_asked f K a i → tracked_response k a → aligned P a → (i < n)%nat →
  ∃ f', tr_response (Tracker := snoop_filter c) k i f = Ok (tt, f') ∧ filter_tracks f' (with_copy K a i).
Proof using Fl.
  intros Hask [Ha Hs Hr [Hu Hm] _] Hal Hi. pose proof Hask as ([Hn HK] & [it Hit] & Hreq & _). pose proof (line_key k a Hs Ha Hal) as Hkey.
  assert (item a f = it) as Hia by (unfold item; by rewrite Hit).
  assert (cache_port i ∈ cache_ports n) as Hin by (apply list_elem_of_lookup; exists i; by apply cache_ports_lookup).
  pose proof (updateResponse_ok _ c (filter_pkt k) (cache_port i) _ it f (fl_configured _ _ _ Fl) Hn Hin eq_refl (cache_mask i Hi) Hr Hu) as Hup.
  rewrite Hia in Hreq. rewrite Hkey, none_land, Hreq, pow2_bit, bool_decide_true in Hup by done. cbn [negb andb] in Hup.
  destruct (Hup Hit) as (f' & Hf & Hst). exists f'. split; [done|]. change (pk_maintenance (filter_pkt k)) with (CachePkt.maintenance (CachePkt.req k)) in Hst.
  rewrite Hm in Hst. apply (asked_done a i _ f f' K (with_copy K a i) Hask Hst).
  - simpl. apply Z.ldiff_diag.
  - intros b j Hb [?|[? _]]; done.
  - intros j Hj. simpl. rewrite <-Hia, Z.lor_spec, pow2_bit. intros [HKj|[_ ->]]; [by rewrite (HK a j Hal Hj HKj)|].
    rewrite bool_decide_true by done. apply orb_true_r.
Qed.

#[export] Instance snoop_filter_laws : TrackerLaws (snoop_filter c) P n.
Proof using Fl.
  refine {| tracks := filter_tracks; asked := filter_asked |}.
  - intros f K K' [[Hn HK] Hr] Hsub. split; [|done]. split; [done|]. intros a j Ha Hj HKj. apply HK; auto.
  - done.
  - apply filter_lookup.
  - apply filter_lookup_evict.
  - apply filter_snoop_response.
  - apply filter_response.
Defined.

Lemma new_filter_tracks : filter_tracks new (λ _ _, False).
Proof using Type. split; [split; [apply map_Forall_empty|done]|]. intros a. done. Qed.
End filter.
