(* ===== verification/CacheWitness.v ===== *)
(** * Boards that run

    Concrete boards for the theorems about the caches: three caches with two sets
    of one way and a snoop filter, and four caches with longer lines and two ways
    without a filter, over the same 64 bytes. *)
From stdpp Require Import base tactics list gmap strings sets.
From Stdlib Require Import ZArith Lia.
From S2P Require Import Prelude MemCmd AddrRange SnoopFilter CachePkt CacheBlk CacheTags Cache AbstractMem CacheSys CacheProps CacheBus CacheAccess CacheCoherent CacheRefine CacheFilter.
Import CachePkt Cache.
Local Open Scope Z_scope.

Definition all_memory : list AddrRange.AddrRange := [AddrRange.range 0 1024].
Definition small_caches : Params := mkParams (Tags.mkParams 8 16 1) false false mostly_incl false all_memory.
Definition large_caches : Params := mkParams (Tags.mkParams 16 64 2) false true mostly_excl false all_memory.
Definition example_xbar : Sys.XParams := Sys.mkXParams false true true.
Definition example_range : AddrRange.AddrRange := AddrRange.range 0 64.
Definition example_bytes : list Z := map Z.of_nat (seq 0 64).

Lemma served_all P a : addrRanges P = all_memory → in_mem P 0 64 a → 4 ≤ Tags.blkSize (tp P) → inRange (addrRanges P) a = Ok true.
Proof.
  intros -> (_ & ? & ?) ?. unfold all_memory, inRange, AddrRange.contains, AddrRange.range. simpl.
  rewrite !(proj2 (Z.leb_le _ _)), !(proj2 (Z.ltb_lt _ _)) by lia. done.
Qed.

Lemma small_board : board example_xbar small_caches example_range 0 64 3 1.
Proof.
  split; try reflexivity; try lia; [split; (reflexivity || (vm_compute; done))|]. intros a Ha. by apply served_all.
Qed.
Lemma large_board : board example_xbar large_caches example_range 0 64 4 1.
Proof.
  split; try reflexivity; try lia; [split; (reflexivity || (vm_compute; done))|]. intros a Ha. by apply served_all.
Qed.

Definition example_filter : SnoopFilter.Config :=
  match SnoopFilter.setCPUSidePorts (cache_ports 3) 8 1 65536 with Ok c => c | Err _ => SnoopFilter.mkConfig [] [] 0 0 0 end.
Lemma example_filters : filters small_caches 3 example_filter.
Proof. apply (filters_setup small_caches 3 1 65536). vm_compute. reflexivity. Qed.
#[local] Instance example_filter_laws : TrackerLaws (snoop_filter example_filter) small_caches 3 :=
  snoop_filter_laws small_caches 3 example_filter example_filters.

(** Requests of the core with context 1. *)
Definition example_pkt (c : Command) (a : Z) (d : list Z) : Pkt :=
  set_data (Some d) (CachePkt.new (mkReq a (Z.of_nat (length d)) false 1 false false false false false false [] None false) c 1).
Definition rd (a n : Z) : Pkt := example_pkt ReadReq a (replicate (Z.to_nat n) 0).
Definition wr (a : Z) (d : list Z) : Pkt := example_pkt WriteReq a d.

(** What [core_access] asks of such a packet, to be computed. *)
Definition access_fine (P : Params) (n : nat) (locking : bool) (i : nat) (c : Command) (a : Z) (d : list Z) : bool :=
  (i <? n)%nat && (0 <=? a) && (a + Z.of_nat (length d) <=? 64) && (1 <=? Z.of_nat (length d)) &&
  (a - Tags.blkAlign (tp P) a + Z.of_nat (length d) <=? Tags.blkSize (tp P)) &&
  bool_decide (c ∈ [ReadReq; LoadLockedReq; WriteReq; StoreCondReq]) && (locking || negb (isLLSC c)) &&
  bool_decide (aligned P (Tags.blkAlign (tp P) a)) && (0 <=? Tags.blkAlign (tp P) a) && (Tags.blkAlign (tp P) a + Tags.blkSize (tp P) <=? 64).

Lemma access_fine_ok P n locking now i c a d :
  access_fine P n locking i c a d = true → core_access P 0 64 locking n (now, i, example_pkt c a d).
Proof.
  unfold access_fine. rewrite !andb_true_iff, !Z.leb_le, !bool_decide_eq_true, Nat.ltb_lt.
  intros [[[[[[[[[Hi Ha0] Ha1] Hd] Hfit] Hc] Hl] Hal] Hb0] Hb1]. split; [done|]. split; [done|]. exists d. split; try done.
  - split; simpl; try done. lia.
  - simpl. set_solver.
  - simpl. intros ->. exfalso. repeat (apply elem_of_cons in Hc as [Hc|Hc]; [done|]). by apply elem_of_nil in Hc.
  - unfold locks_fine. destruct locking; [done|]. simpl. by apply negb_true_iff in Hl.
Qed.

Ltac accesses := repeat (apply Forall_cons; split; [apply access_fine_ok; vm_compute; reflexivity|]); apply Forall_nil; exact I.

(** Two cores share a line, one of them takes a lock and loses it to the other. *)
Definition example_accesses : list (Z * nat * Pkt) :=
  [(1, 0%nat, rd 4 2); (2, 1%nat, example_pkt LoadLockedReq 4 [0; 0]); (3, 0%nat, wr 5 [77]); (4, 1%nat, example_pkt StoreCondReq 4 [1; 2]);
   (5, 1%nat, rd 4 4); (6, 2%nat, wr 0 [1; 2; 3; 4; 5; 6; 7; 8]); (7, 2%nat, rd 16 8); (8, 0%nat, rd 0 8)].

Lemma caches_refine_memory_witness : ∃ ks s' m',
  flat_run 0 example_accesses example_bytes ks m' ∧ coherent (T := snoop_filter example_filter) small_caches 3 1 true 3 0 64 s' m' ∧
  map data ks = [Some [4; 5]; Some [4; 5]; Some [77]; Some [1; 2]; Some [4; 77; 6; 7]; Some [1; 2; 3; 4; 5; 6; 7; 8];
    Some [16; 17; 18; 19; 20; 21; 22; 23]; Some [1; 2; 3; 4; 5; 6; 7; 8]] ∧ map extraData ks = [0; 0; 0; 0; 0; 0; 0; 0].
Proof.
  destruct (caches_refine_memory (T := snoop_filter example_filter) example_xbar small_caches example_range 0 64 3 1 true 3
    SnoopFilter.new example_bytes example_accesses small_board) as (s & ks & s' & m' & Hs & Hr & Hf & H).
  - reflexivity.
  - apply new_filter_tracks.
  - accesses.
  - exists ks, s', m'. split; [exact Hf|]. split; [exact H|].
    assert (match power_on small_caches 3 SnoopFilter.new example_bytes with
      | Ok s => match Sys.run (T := snoop_filter example_filter) example_xbar small_caches example_range example_accesses s with
        | Ok (ks, _) => map data ks = [Some [4; 5]; Some [4; 5]; Some [77]; Some [1; 2]; Some [4; 77; 6; 7]; Some [1; 2; 3; 4; 5; 6; 7; 8];
            Some [16; 17; 18; 19; 20; 21; 22; 23]; Some [1; 2; 3; 4; 5; 6; 7; 8]] ∧ map extraData ks = [0; 0; 0; 0; 0; 0; 0; 0]
        | Err _ => False end
      | Err _ => False end) as E by (vm_compute; split; reflexivity).
    rewrite Hs, Hr in E. exact E.
Defined.

(** A core reads what another one wrote. *)
Definition example_sharing : list (Z * nat * Pkt) := [(1, 0%nat, wr 4 [9]); (2, 1%nat, rd 4 1)].

(** The writer keeps a dirty copy that it may no longer write. *)
Lemma single_writer_witness : ∃ s ks s',
  power_on small_caches 3 SnoopFilter.new example_bytes = Ok s ∧
  Sys.run (T := snoop_filter example_filter) example_xbar small_caches example_range example_sharing s = Ok (ks, s') ∧
  V small_caches s' 0 0 = Some (mkLine false true [0; 1; 2; 3; 9; 5; 6; 7]) ∧
  V small_caches s' 1 0 = Some (mkLine false false [0; 1; 2; 3; 9; 5; 6; 7]) ∧
  (writable (mkLine false true [0; 1; 2; 3; 9; 5; 6; 7]) = false ∧
   bytes (mkLine false false [0; 1; 2; 3; 9; 5; 6; 7]) = bytes (mkLine false true [0; 1; 2; 3; 9; 5; 6; 7]) ∧
   (dirty (mkLine false true [0; 1; 2; 3; 9; 5; 6; 7]) = true → dirty (mkLine false false [0; 1; 2; 3; 9; 5; 6; 7]) = false)).
Proof.
  assert (∃ s ks s', power_on small_caches 3 SnoopFilter.new example_bytes = Ok s ∧
    Sys.run (T := snoop_filter example_filter) example_xbar small_caches example_range example_sharing s = Ok (ks, s') ∧
    V small_caches s' 0 0 = Some (mkLine false true [0; 1; 2; 3; 9; 5; 6; 7]) ∧
    V small_caches s' 1 0 = Some (mkLine false false [0; 1; 2; 3; 9; 5; 6; 7])) as (s & ks & s' & Hs & Hr & H0 & H1).
  { eexists _, _, _. split; [vm_compute; reflexivity|]. split; [vm_compute; reflexivity|]. split; vm_compute; reflexivity. }
  exists s, ks, s'. split; [exact Hs|]. split; [exact Hr|]. split; [exact H0|]. split; [exact H1|].
  apply (single_writer (T := snoop_filter example_filter) example_xbar small_caches example_range 0 64 3 1 true 3 SnoopFilter.new example_bytes
    example_sharing s ks s' small_board) with (i := 0%nat) (j := 1%nat) (a := 0); [reflexivity|apply new_filter_tracks|accesses|exact Hs|exact Hr|done|exact H0|exact H1].
Defined.

(** Reads and writes of three cores, with conflicts in the small caches. *)
Definition example_mix : list (Z * nat * Pkt) :=
  [(1, 0%nat, rd 4 2); (2, 1%nat, wr 5 [77; 78]); (3, 0%nat, rd 4 4); (4, 2%nat, wr 0 [1; 2; 3; 4; 5; 6; 7; 8]); (5, 1%nat, rd 0 8);
   (6, 1%nat, wr 2 [9]); (7, 1%nat, rd 16 8); (8, 0%nat, rd 0 8); (9, 2%nat, rd 32 1)].

Lemma boards_agree_witness : ∃ s s' ks t t',
  power_on small_caches 3 SnoopFilter.new example_bytes = Ok s ∧ power_on large_caches 4 tt example_bytes = Ok s' ∧
  Sys.run (T := snoop_filter example_filter) example_xbar small_caches example_range example_mix s = Ok (ks, t) ∧
  Sys.run (T := no_filter 4) example_xbar large_caches example_range example_mix s' = Ok (ks, t').
Proof.
  apply (boards_agree (T := snoop_filter example_filter) (T' := no_filter 4) example_xbar example_xbar small_caches large_caches
    example_range example_range 0 64 3 4 1 1 3 4 SnoopFilter.new tt example_bytes example_mix small_board large_board);
    [reflexivity|apply new_filter_tracks|exact I|accesses|accesses].
Defined.
