(* ===== verification/Mshr.v ===== *)
(** * Miss status holding registers

    [mem/cache/mshr.hh], [mem/cache/mshr.cc] and the base class of
    [mem/cache/queue_entry.hh]: the requests that wait for one block, in two lists
    of targets; snoops that arrive meanwhile; and the flag by which a cache further
    down tells the registers above that their request has not yet been ordered.

    A register is a cell of a heap that all caches share, because the sender state
    of a packet points to the register of the cache above that sent it, and both
    [add] and [clearDownstreamPending] write through that pointer.  Packets are held
    by value.  Functional accesses and printing are left out.  What a cache does with
    its register when a response arrives is in [MshrResp.v]. *)
From stdpp Require Import base tactics list strings gmap.
From Stdlib Require Import ZArith Lia.
From S2P Require Import Prelude MemCmd CachePkt.
Import CachePkt.
Local Open Scope Z_scope.

Module Mshr.

(** ** Data *)

(** A pointer to a register. *)
Notation Ref := nat (only parsing).

Inductive Source := FromCPU | FromSnoop | FromPrefetcher.

#[export] Instance Source_eq_dec : EqDecision Source.
Proof. solve_decision. Defined.

(** A packet with what only the timing path asks: [EXPRESS_SNOOP],
    [STATIC_DATA], whether its request has one of the flags that forbid merging
    writes, and what [findNextSenderState<MSHR>()] finds. *)
Record MPkt := mkMPkt {
  pk : Pkt;
  expressSnoop : bool;
  staticData : bool;
  noMerge : bool;
  sender : option Ref;
}.

Definition set_pk (k : Pkt) (p : MPkt) : MPkt :=
  mkMPkt k (expressSnoop p) (staticData p) (noMerge p) (sender p).

Record Target := mkTgt {
  recvTime : Z;
  t_readyTime : Z;
  t_order : Z;
  t_pkt : MPkt;
  source : Source;
  markedPending : bool;
  t_allocOnFill : bool;
}.

Definition set_pkt (p : MPkt) (t : Target) : Target :=
  mkTgt (recvTime t) (t_readyTime t) (t_order t) p (source t) (markedPending t) (t_allocOnFill t).
Definition unmark (t : Target) : Target :=
  mkTgt (recvTime t) (t_readyTime t) (t_order t) (t_pkt t) (source t) false (t_allocOnFill t).

Record TargetList := mkTL {
  tgts : list Target;
  needsWritableF : bool;
  hasUpgrade : bool;
  allocOnFill : bool;
  hasFromCache : bool;
  tl_blkAddr : Z;
  tl_blkSize : Z;
  canMergeWrites : bool;
  writesBitmap : list bool;
}.

Definition set_tgts (l : list Target) (tl : TargetList) : TargetList :=
  mkTL l (needsWritableF tl) (hasUpgrade tl) (allocOnFill tl) (hasFromCache tl) (tl_blkAddr tl) (tl_blkSize tl)
    (canMergeWrites tl) (writesBitmap tl).
Definition set_writable (b : bool) (tl : TargetList) : TargetList :=
  mkTL (tgts tl) b (hasUpgrade tl) (allocOnFill tl) (hasFromCache tl) (tl_blkAddr tl) (tl_blkSize tl)
    (canMergeWrites tl) (writesBitmap tl).
Definition set_hasUpgrade (b : bool) (tl : TargetList) : TargetList :=
  mkTL (tgts tl) (needsWritableF tl) b (allocOnFill tl) (hasFromCache tl) (tl_blkAddr tl) (tl_blkSize tl)
    (canMergeWrites tl) (writesBitmap tl).
Definition set_writes (c : bool) (bm : list bool) (tl : TargetList) : TargetList :=
  mkTL (tgts tl) (needsWritableF tl) (hasUpgrade tl) (allocOnFill tl) (hasFromCache tl) (tl_blkAddr tl) (tl_blkSize tl)
    c bm.

Record MSHR := mkMSHR {
  m_readyTime : Z;
  m_uncacheable : bool;
  inService : bool;
  m_order : Z;
  blkAddr : Z;
  blkSize : Z;
  m_secure : bool;
  downstreamPending : bool;
  pendingModified : bool;
  postInvalidate : bool;
  postDowngrade : bool;
  wasWholeLineWrite : bool;
  isForward : bool;
  targets : TargetList;
  deferredTargets : TargetList;
}.

Definition set_targets (l : TargetList) (m : MSHR) : MSHR :=
  mkMSHR (m_readyTime m) (m_uncacheable m) (inService m) (m_order m) (blkAddr m) (blkSize m) (m_secure m)
    (downstreamPending m) (pendingModified m) (postInvalidate m) (postDowngrade m) (wasWholeLineWrite m) (isForward m)
    l (deferredTargets m).
Definition set_deferred (l : TargetList) (m : MSHR) : MSHR :=
  mkMSHR (m_readyTime m) (m_uncacheable m) (inService m) (m_order m) (blkAddr m) (blkSize m) (m_secure m)
    (downstreamPending m) (pendingModified m) (postInvalidate m) (postDowngrade m) (wasWholeLineWrite m) (isForward m)
    (targets m) l.
Definition set_downstream (b : bool) (m : MSHR) : MSHR :=
  mkMSHR (m_readyTime m) (m_uncacheable m) (inService m) (m_order m) (blkAddr m) (blkSize m) (m_secure m)
    b (pendingModified m) (postInvalidate m) (postDowngrade m) (wasWholeLineWrite m) (isForward m)
    (targets m) (deferredTargets m).
Definition set_inService (b : bool) (m : MSHR) : MSHR :=
  mkMSHR (m_readyTime m) (m_uncacheable m) b (m_order m) (blkAddr m) (blkSize m) (m_secure m)
    (downstreamPending m) (pendingModified m) (postInvalidate m) (postDowngrade m) (wasWholeLineWrite m) (isForward m)
    (targets m) (deferredTargets m).
Definition set_pending (modified inv down : bool) (m : MSHR) : MSHR :=
  mkMSHR (m_readyTime m) (m_uncacheable m) (inService m) (m_order m) (blkAddr m) (blkSize m) (m_secure m)
    (downstreamPending m) modified inv down (wasWholeLineWrite m) (isForward m)
    (targets m) (deferredTargets m).
Definition set_wholeLine (b : bool) (m : MSHR) : MSHR :=
  mkMSHR (m_readyTime m) (m_uncacheable m) (inService m) (m_order m) (blkAddr m) (blkSize m) (m_secure m)
    (downstreamPending m) (pendingModified m) (postInvalidate m) (postDowngrade m) b (isForward m)
    (targets m) (deferredTargets m).
Definition set_forward (b : bool) (m : MSHR) : MSHR :=
  mkMSHR (m_readyTime m) (m_uncacheable m) (inService m) (m_order m) (blkAddr m) (blkSize m) (m_secure m)
    (downstreamPending m) (pendingModified m) (postInvalidate m) (postDowngrade m) (wasWholeLineWrite m) b
    (targets m) (deferredTargets m).
Definition set_ready (t o : Z) (m : MSHR) : MSHR :=
  mkMSHR t (m_uncacheable m) (inService m) o (blkAddr m) (blkSize m) (m_secure m)
    (downstreamPending m) (pendingModified m) (postInvalidate m) (postDowngrade m) (wasWholeLineWrite m) (isForward m)
    (targets m) (deferredTargets m).

(** The constructors.  What they leave indeterminate is written by [init] before
    it is read. *)
Definition new_list : TargetList := mkTL [] false false false false 0 0 true [].
Definition new_mshr : MSHR :=
  mkMSHR 0 false false 0 0 0 false false false false false false false new_list new_list.

(** ** Lists of targets *)

Definition resetFlags (tl : TargetList) : TargetList :=
  mkTL (tgts tl) false false false false (tl_blkAddr tl) (tl_blkSize tl) true ((λ _, false) <$> writesBitmap tl).

Definition init (blk_addr blk_size : Z) (tl : TargetList) : TargetList :=
  resetFlags (mkTL (tgts tl) (needsWritableF tl) (hasUpgrade tl) (allocOnFill tl) (hasFromCache tl) blk_addr blk_size
    (canMergeWrites tl) (resize (Z.to_nat blk_size) false (writesBitmap tl))).

Definition isReset (tl : TargetList) : bool :=
  negb (needsWritableF tl) && negb (hasUpgrade tl) && negb (allocOnFill tl) && negb (hasFromCache tl) && canMergeWrites tl.

Definition wholeLine (tl : TargetList) : bool := forallb (λ b, b) (writesBitmap tl).

(** [std::fill] over a part of the bitmap. *)
Definition fill (bm : list bool) (off n : Z) : res (list bool) :=
  if (0 <=? off) && (0 <=? n) && (off + n <=? Z.of_nat (length bm))
  then Ok (take (Z.to_nat off) bm ++ replicate (Z.to_nat n) true ++ drop (Z.to_nat (off + n)) bm) else Err EOutOfRange.

Definition updateWriteFlags (k : MPkt) (tl : TargetList) : res TargetList :=
  if wholeLine tl then Ok tl else
  if canMergeWrites tl then
    if negb (isWrite (cmd (pk k))) then Ok (set_writes false (writesBitmap tl) tl) else
    let compat_write := negb (noMerge k) in
    let first_write := bool_decide (tgts tl = []) in
    bm ← (if first_write || compat_write
          then fill (writesBitmap tl) (getOffset (pk k) (tl_blkSize tl)) (size (pk k)) else Ok (writesBitmap tl));
    Ok (set_writes compat_write bm tl)
  else Ok tl.

Definition updateFlags (k : MPkt) (s : Source) (alloc_on_fill : bool) (tl : TargetList) : res TargetList :=
  if bool_decide (s = FromSnoop) then Ok tl else
  if negb (isRequest (cmd (pk k))) then Err (EAssert "isRequest()") else
  let tl1 := mkTL (tgts tl) (needsWritableF tl || needsWritable (cmd (pk k)))
               (hasUpgrade tl || isUpgrade (cmd (pk k)) || bool_decide (cmd (pk k) = StoreCondReq))
               (allocOnFill tl || alloc_on_fill) (hasFromCache tl) (tl_blkAddr tl) (tl_blkSize tl)
               (canMergeWrites tl) (writesBitmap tl) in
  if bool_decide (s = FromPrefetcher) then Ok tl1 else
  updateWriteFlags k (mkTL (tgts tl1) (needsWritableF tl1) (hasUpgrade tl1) (allocOnFill tl1)
    (hasFromCache tl1 || fromCache (cmd (pk k))) (tl_blkAddr tl1) (tl_blkSize tl1) (canMergeWrites tl1) (writesBitmap tl1)).

Fixpoint update_all (l : list Target) (tl : TargetList) : res TargetList :=
  match l with
  | [] => Ok tl
  | t :: l' => tl ← updateFlags (t_pkt t) (source t) (t_allocOnFill t) tl; update_all l' tl
  end.
Definition populateFlags (tl : TargetList) : res TargetList := update_all (tgts tl) (resetFlags tl).

Definition replaceUpgrade (k : MPkt) : res MPkt :=
  let has_data := hasData (cmd (pk k)) || hasRespData (pk k) in
  let c := match cmd (pk k) with
           | UpgradeReq => ReadExReq
           | SCUpgradeReq => SCUpgradeFailReq
           | StoreCondReq => StoreCondFailReq
           | c => c
           end in
  let p := set_cmd c (pk k) in
  if has_data then Ok (set_pk p k) else
  if hasData (cmd p) then Err (EAssert "!pkt->hasData()") else
  p ← (if hasRespData p then allocate p else Ok p);
  Ok (set_pk p k).

Definition replace_target (t : Target) : res Target :=
  k ← replaceUpgrade (t_pkt t); Ok (set_pkt k t).
Definition replaceUpgrades (tl : TargetList) : res TargetList :=
  if negb (hasUpgrade tl) then Ok tl else
  l ← mapM replace_target (tgts tl);
  Ok (set_hasUpgrade false (set_tgts l tl)).

Definition front (tl : TargetList) : res Target := of_option EBadPointer (head (tgts tl)).

(** ** The heap *)

Notation Heap := (gmap nat MSHR).

Definition get (i : Ref) : M Heap MSHR := λ h, m ← of_option EBadPointer (h !! i); Ok (m, h).
Definition update (i : Ref) (f : MSHR → MSHR) : M Heap unit := λ h,
  m ← of_option EBadPointer (h !! i); Ok (tt, <[i := f m]> h).

(** One of the two lists of a register. *)
Inductive Which := Main | Deferred.
Definition tlist (w : Which) (m : MSHR) : TargetList :=
  match w with Main => targets m | Deferred => deferredTargets m end.
Definition set_tlist (w : Which) (l : TargetList) (m : MSHR) : MSHR :=
  match w with Main => set_targets l m | Deferred => set_deferred l m end.
Definition on_tlist (w : Which) (f : TargetList → TargetList) (m : MSHR) : MSHR := set_tlist w (f (tlist w m)) m.

Section mshr.
(** [curTick()]; and a bound on the number of caches above one another. *)
Context (now : Z) (levels : nat).

Definition mark (k : MPkt) (markPending : bool) : M Heap bool :=
  if markPending then
    match sender k with
    | Some u =>
        mu ← get u;
        massert "!mshr->downstreamPending" (negb (downstreamPending mu)) ;;
        update u (set_downstream true) ;;
        mret true
    | None => mret false
    end
  else mret false.

Definition add (i : Ref) (w : Which) (k : MPkt) (ready o : Z) (s : Source) (markPending alloc_on_fill : bool) : M Heap unit :=
  m ← get i;
  tl ← lift (updateFlags k s alloc_on_fill (tlist w m));
  update i (set_tlist w tl) ;;
  b ← mark k markPending;
  update i (on_tlist w (λ tl, set_tgts (tgts tl ++ [mkTgt now ready o k s b alloc_on_fill]) tl)).

(** [clearDownstreamPending(begin, end)] over the first [n] targets of a list. *)
Definition clear_target (clear : Ref → M Heap unit) (i : Ref) (w : Which) (j : Z) : M Heap unit :=
  m ← get i;
  t ← lift (vec_get (tgts (tlist w m)) j);
  if markedPending t then
    match sender (t_pkt t) with Some u => clear u | None => mret tt end ;;
    update i (on_tlist w (λ tl, set_tgts (alter unmark (Z.to_nat j) (tgts tl)) tl))
  else mret tt.
Definition clear_range (clear : Ref → M Heap unit) (i : Ref) (w : Which) (n : nat) : M Heap unit :=
  for_up 0 (Z.of_nat n) (clear_target clear i w).

Fixpoint clearDownstreamPending (fuel : nat) (i : Ref) : M Heap unit :=
  match fuel with
  | O => throw EDiverge
  | S fuel =>
      m ← get i;
      massert "downstreamPending" (downstreamPending m) ;;
      update i (set_downstream false) ;;
      clear_range (clearDownstreamPending fuel) i Main (length (tgts (targets m)))
  end.

(** ** A register *)

Definition isPendingModified (m : MSHR) : res bool :=
  if inService m then Ok (pendingModified m) else Err (EAssert "inService").
Definition hasPostInvalidate (m : MSHR) : res bool :=
  if inService m then Ok (postInvalidate m) else Err (EAssert "inService").
Definition hasPostDowngrade (m : MSHR) : res bool :=
  if inService m then Ok (postDowngrade m) else Err (EAssert "inService").

Definition isWholeLineWrite (m : MSHR) : bool := wholeLine (targets m).
Definition hasTargets (m : MSHR) : bool := negb (bool_decide (tgts (targets m) = [])).
Definition getNumTargets (m : MSHR) : Z := Z.of_nat (length (tgts (targets m)) + length (tgts (deferredTargets m))).
Definition getTarget (m : MSHR) : res Target :=
  if hasTargets m then front (targets m) else Err (EAssert "hasTargets()").
Definition popTarget (m : MSHR) : res MSHR :=
  match tgts (targets m) with
  | [] => Err EBadPointer
  | _ :: l => Ok (set_targets (set_tgts l (targets m)) m)
  end.
Definition delay (ticks : Z) (m : MSHR) : res MSHR :=
  if m_readyTime m <=? now then Ok (set_ready (now + ticks) (m_order m) m) else Err (EAssert "readyTime <= curTick()").
Definition matchBlockAddr (m : MSHR) (a : Z) (sec : bool) : res bool :=
  if hasTargets m then Ok ((blkAddr m =? a) && Bool.eqb (m_secure m) sec) else Err (EAssert "hasTargets()").
Definition hasLockedRMWReadTarget (m : MSHR) : bool :=
  match tgts (targets m) with t :: _ => bool_decide (cmd (pk (t_pkt t)) = LockedRMWReadReq) | [] => false end.

(** [Packet::matchBlockAddr(other, blk_size)] *)
Definition same_block (k k' : Pkt) (blk_size : Z) : bool :=
  (getBlockAddr k blk_size =? getBlockAddr k' blk_size) && Bool.eqb (CachePkt.isSecure k) (CachePkt.isSecure k').

(** A new dummy packet, with the identifier [ident], in place of the one that is
    answered; packets are compared by their identifiers. *)
Definition updateLockedRMWReadTarget (k : Pkt) (ident : Z) (m : MSHR) : res MSHR :=
  match tgts (targets m) with
  | t :: l =>
      if id (pk (t_pkt t)) =? id k
      then Ok (set_targets (set_tgts (set_pkt (mkMPkt (CachePkt.new (req k) LockedRMWReadReq ident) false false
             (noMerge (t_pkt t)) None) t :: l) (targets m)) m)
      else Err (EAssert "targets.front().pkt == pkt")
  | [] => Err (EAssert "!targets.empty()")
  end.

Definition allocate (i : Ref) (blk_addr blk_size : Z) (target : MPkt) (when_ready o : Z) (alloc_on_fill : bool) : M Heap unit :=
  update i (λ m, mkMSHR when_ready (uncacheable (req (pk target))) false o blk_addr blk_size (CachePkt.isSecure (pk target))
    false (pendingModified m) (postInvalidate m) (postDowngrade m) false false
    (init blk_addr blk_size (targets m)) (init blk_addr blk_size (deferredTargets m))) ;;
  let s := if bool_decide (cmd (pk target) = HardPFReq) then FromPrefetcher else FromCPU in
  add i Main target when_ready o s true alloc_on_fill ;;
  m ← get i;
  t ← lift (front (targets m));
  massert "target->matchBlockAddr(targets.front().pkt, blkSize)" (same_block (pk target) (pk (t_pkt t)) blk_size).

Definition markInService (i : Ref) (pending_modified_resp : bool) : M Heap unit :=
  m ← get i;
  massert "!inService" (negb (inService m)) ;;
  update i (λ m, set_pending (needsWritableF (targets m) || pending_modified_resp) false false (set_inService true m)) ;;
  when (negb (downstreamPending m)) (clear_range (clearDownstreamPending levels) i Main (length (tgts (targets m)))) ;;
  update i (λ m, set_wholeLine (isWholeLineWrite m) m).

Definition deallocate (m : MSHR) : res MSHR :=
  if negb (bool_decide (tgts (targets m) = [])) then Err (EAssert "targets.empty()") else
  if negb (isReset (deferredTargets m)) then Err (EAssert "deferredTargets.isReset()") else
  Ok (set_inService false (set_targets (resetFlags (targets m)) m)).

(** Whether a new target has to wait for another response. *)
Definition must_defer (m : MSHR) (tgt_pkt k : MPkt) : bool :=
  maintenance (req (pk k)) || maintenance (req (pk tgt_pkt)) ||
  negb (bool_decide (tgts (deferredTargets m) = [])) ||
  (inService m &&
   (postInvalidate m || (needsWritable (cmd (pk k)) && (negb (pendingModified m) || postDowngrade m || isForward m)))).

Definition allocateTarget (i : Ref) (k : MPkt) (whenReady o : Z) (alloc_on_fill : bool) : M Heap unit :=
  massert "pkt->cmd != MemCmd::HardPFReq" (negb (bool_decide (cmd (pk k) = HardPFReq))) ;;
  m ← get i;
  t ← lift (front (targets m));
  if must_defer m (t_pkt t) k then
    k ← lift (if inService m && postInvalidate m then replaceUpgrade k else Ok k);
    add i Deferred k whenReady o FromCPU true alloc_on_fill
  else add i Main k whenReady o FromCPU (negb (inService m)) alloc_on_fill.

(** [Packet(pkt, true, true)] *)
Definition copy_packet (k : MPkt) : res MPkt :=
  let p := pk k in
  let p := mkPkt (cmd p) (addr p) (CachePkt.isSecure p) (size p) (if staticData k then data p else None) (req p) (id p)
             (extraData p) false false false false false false in
  p ← (if staticData k then Ok p else CachePkt.allocate p);
  Ok (mkMPkt p false (staticData k) (noMerge k) (sender k)).

(** The rest of [handleSnoop], when the request of the register precedes the snoop. *)
Definition snoop_after (i : Ref) (k : MPkt) (o : Z) (m : MSHR) : M Heap (bool * MPkt) :=
  let will_respond := pendingModified m && needsResponse (cmd (pk k)) && negb (isClean (cmd (pk k))) in
  k ← (if pendingModified m || isInvalidate (cmd (pk k)) then
         cp_pkt ← lift (if will_respond then copy_packet k
           else Ok (mkMPkt (new_block (req (pk k)) (cmd (pk k)) (blkSize m) (id (pk k))) false false (noMerge k) None));
         p ← lift (if will_respond then p ← setCacheResponding (pk k); setResponderHadWritable p
                   else if pendingModified m && isClean (cmd (pk k)) then setSatisfied (pk k) else Ok (pk k));
         add i Main cp_pkt now o FromSnoop (downstreamPending m && needsWritableF (targets m)) false ;;
         when (needsWritable (cmd p) || isInvalidate (cmd p))
           (update i (λ m, set_pending (pendingModified m) true (postDowngrade m) m)) ;;
         mret (set_pk p k)
       else mret k);
  if negb (needsWritable (cmd (pk k))) && negb (uncacheable (req (pk k))) then
    update i (λ m, set_pending (pendingModified m) (postInvalidate m) true m) ;;
    mret (will_respond, set_pk (setHasSharers (pk k)) k)
  else mret (will_respond, k).

(** The packet is returned with the flags the snoop sets. *)
Definition handleSnoop (i : Ref) (k : MPkt) (o : Z) : M Heap (bool * MPkt) :=
  massert "isRequest()" (isRequest (cmd (pk k))) ;;
  (if negb (Bool.eqb (needsWritable (cmd (pk k))) (isInvalidate (cmd (pk k)))) && negb (maintenance (req (pk k)))
   then throw (EPanic "needsWritable does not match isInvalidate") else mret tt) ;;
  m ← get i;
  let takes := needsWritable (cmd (pk k)) || cacheInvalidate (req (pk k)) in
  if negb (inService m) || (expressSnoop k && downstreamPending m) then
    (if takes then
       tl ← lift (replaceUpgrades (targets m));
       dl ← lift (replaceUpgrades (deferredTargets m));
       update i (λ m, set_deferred dl (set_targets tl m))
     else mret tt) ;;
    mret (false, k)
  else
    (if takes then
       dl ← lift (replaceUpgrades (deferredTargets m));
       update i (set_deferred dl)
     else mret tt) ;;
    t ← lift (front (targets m));
    if postInvalidate m || cacheInvalidate (req (pk (t_pkt t))) then mret (true, k)
    else snoop_after i k o m.

(** The loop over the targets after the first, when the response invalidates:
    snoops are serviced, requests stay. *)
Fixpoint split_snoops (l : list Target) : res (list Target * list Target) :=
  match l with
  | [] => Ok ([], [])
  | t :: l' =>
      if bool_decide (source t = FromCPU) then
        r ← split_snoops l'; Ok (r.1, t :: r.2)
      else if bool_decide (source t = FromSnoop) then
        r ← split_snoops l'; Ok (t :: r.1, r.2)
      else Err (EAssert "it->source == Target::FromSnoop")
  end.

(** The loop otherwise: everything up to a locked read, which also stays. *)
Fixpoint split_locked (l : list Target) : list Target * list Target :=
  match l with
  | [] => ([], [])
  | t :: l' =>
      if bool_decide (cmd (pk (t_pkt t)) = LockedRMWReadReq) then ([t], t :: l')
      else let r := split_locked l' in (t :: r.1, r.2)
  end.

(** The targets a response services, and those that stay. *)
Definition serviceable (k : Pkt) (l : list Target) : res (list Target * list Target) :=
  if bool_decide (cmd k = ReadRespWithInvalidate) then
    match l with
    | [] => Err EBadPointer
    | t :: l =>
        if bool_decide (source t = FromSnoop) then Err (EAssert "it->source == Target::FromCPU || ...") else
        if bool_decide (cmd (pk (t_pkt t)) = LockedRMWReadReq) then Ok ([t], t :: l) else
        r ← split_snoops l; Ok (t :: r.1, r.2)
    end
  else Ok (split_locked l).

Definition extractServiceableTargets (k : Pkt) (m : MSHR) : res (TargetList * MSHR) :=
  r ← serviceable k (tgts (targets m));
  ready ← populateFlags (set_tgts r.1 (init (blkAddr m) (blkSize m) new_list));
  tl ← populateFlags (set_tgts r.2 (targets m));
  Ok (ready, set_targets tl m).

(** The targets before the first that satisfies a test. *)
Fixpoint before {A} (p : A → bool) (l : list A) : nat :=
  match l with [] => 0 | x :: l' => if p x then 0 else S (before p l') end.

Definition is_maintenance (t : Target) : bool := maintenance (req (pk (t_pkt t))).

Definition promoteDeferredTargets (m : MSHR) : res (bool * MSHR) :=
  if bool_decide (tgts (targets m) = []) && bool_decide (tgts (deferredTargets m) = []) then Ok (false, m) else
  let n := before is_maintenance (tgts (deferredTargets m)) in
  let n := if (n =? 0)%nat then if bool_decide (tgts (targets m) = []) then 1%nat else 0%nat else n in
  dl ← populateFlags (set_tgts (drop n (tgts (deferredTargets m))) (deferredTargets m));
  tl ← populateFlags (set_tgts (tgts (targets m) ++ take n (tgts (deferredTargets m))) (targets m));
  t ← front tl;
  Ok (true, set_ready (Z.max now (t_readyTime t)) (t_order t) (set_targets tl (set_deferred dl m))).

(** [std::find_if_not], with a test that may fail. *)
Fixpoint find_if_not (p : Target → res bool) (l : list Target) : res nat :=
  match l with
  | [] => Ok 0%nat
  | t :: l' => b ← p t; if (b : bool) then n ← find_if_not p l'; Ok (S n) else Ok 0%nat
  end.

Definition promoteIf (i : Ref) (pred : Target → res bool) : M Heap unit :=
  m ← get i;
  massert "!downstreamPending" (negb (downstreamPending m)) ;;
  n ← lift (find_if_not pred (tgts (deferredTargets m)));
  clear_range (clearDownstreamPending levels) i Deferred n ;;
  m ← get i;
  let dts := tgts (deferredTargets m) in
  dl ← lift (populateFlags (set_tgts (drop n dts) (deferredTargets m)));
  update i (λ m, set_deferred dl (set_targets (set_tgts (tgts (targets m) ++ take n dts) (targets m)) m)).

Definition readable_pred (t : Target) : res bool :=
  if negb (bool_decide (source t = FromCPU)) then Err (EAssert "t.source == Target::FromCPU") else
  Ok (negb (cacheInvalidate (req (pk (t_pkt t)))) && negb (needsWritable (cmd (pk (t_pkt t))))).
Definition writable_pred (t : Target) : res bool :=
  if negb (bool_decide (source t = FromCPU)) then Err (EAssert "t.source == Target::FromCPU") else
  Ok (negb (cacheInvalidate (req (pk (t_pkt t))))).

Definition promoteReadable (i : Ref) : M Heap unit :=
  m ← get i;
  if bool_decide (tgts (deferredTargets m) = []) then mret tt else
  b ← lift (hasPostInvalidate m);
  if (b : bool) then mret tt else promoteIf i readable_pred.

Definition promoteWritable (i : Ref) : M Heap unit :=
  m ← get i;
  match tgts (deferredTargets m) with
  | [] => mret tt
  | t :: _ =>
      if negb (needsWritableF (deferredTargets m)) then mret tt else
      b ← lift (b1 ← hasPostInvalidate m; if (b1 : bool) then Ok true else hasPostDowngrade m);
      if (b : bool) || cacheInvalidate (req (pk (t_pkt t))) then mret tt else
      massert "!targets.needsWritable" (negb (needsWritableF (targets m))) ;;
      update i (on_tlist Main (set_writable true)) ;;
      promoteIf i writable_pred
  end.

End mshr.
End Mshr.
