(* ===== verification/MshrResp.v ===== *)
(** * Responses for miss registers

    The part of [BaseCache::recvTimingResp] ([mem/cache/base.cc]) that handles the
    response to a miss, with [Cache::serviceMSHRTargets], the deferred snoops of
    [Cache::handleSnoop] and [Cache::doTimingSupplyResponse]
    ([mem/cache/cache.cc]): the block is filled, targets are promoted, every
    serviceable target is answered from the block or from the response, and the
    register is kept for a locked write, sent again or freed.

    The blocks are those of the atomic model ([Cache.v]), whose [handleFill],
    [satisfyRequest] and [evictBlock] the timing path calls too.  Delays, statistics,
    the blocked flags of the cache, the prefetcher and the mark of a prefetched block
    are left out; there is no write allocator and no compressor. *)
From stdpp Require Import base tactics list strings gmap.
From Stdlib Require Import ZArith Lia.
From S2P Require Import Prelude MemCmd AddrRange CachePkt CacheBlk CacheTags Cache Mshr.
Import CachePkt Mshr.
Local Open Scope Z_scope.
#[local] Existing Instance Cache.BlkPtr_eq_dec.

Module MshrResp.

(** What the cache hands to its ports and to its write buffer. *)
Inductive Out :=
  | Resp (k : Pkt)        (* cpuSidePort.schedTimingResp *)
  | Broadcast (k : Pkt)   (* memSidePort.schedTimingSnoopResp of a copy for the other caches *)
  | SnoopResp (k : Pkt)   (* memSidePort.schedTimingSnoopResp *)
  | Writeback (k : Pkt).  (* doWritebacks *)

(** The cache and its register while targets are serviced. *)
Record St := mkSt { blocks : Cache.Cache; reg : MSHR; outs : list Out }.

Definition on_cache {A} (f : M Cache.Cache A) : M St A := λ s,
  match f (blocks s) with Ok (a, c) => Ok (a, mkSt c (reg s) (outs s)) | Err e => Err e end.
Definition emit (o : Out) : M St unit := modify (λ s, mkSt (blocks s) (reg s) (outs s ++ [o])).
Definition set_reg (m : MSHR) : M St unit := modify (λ s, mkSt (blocks s) m (outs s)).

(** [RESPONDER_FLAGS] are [HAS_SHARERS] and [CACHE_RESPONDING]. *)
Definition copyResponderFlags (k from : Pkt) : res Pkt :=
  if negb (isRequest (cmd k)) then Err (EAssert "isRequest()") else
  if cacheResponding from && cacheResponding k then Err (EAssert "!pkt->cacheResponding() || !cacheResponding()") else
  Ok (mkPkt (cmd k) (addr k) (CachePkt.isSecure k) (size k) (data k) (req k) (id k) (extraData k) (hasSharers k || hasSharers from)
    (cacheResponding k || cacheResponding from) (responderHadWritable k) (writeThrough k) (satisfied k) (blockCached k)).

Definition matchAddr (k k' : Pkt) : bool := (addr k =? addr k') && Bool.eqb (CachePkt.isSecure k) (CachePkt.isSecure k').

Section resp.
(** The parameters of the cache, [curTick()], a bound on the number of caches above
    one another; the identifier of a packet the cache makes; and what comes back of
    a snoop sent to the caches above. *)
Context (P : Cache.Params) (now : Z) (levels : nat) (ident : Z) (sendTimingSnoopReq : Pkt → Pkt).
Notation blkSize := (Tags.blkSize (Cache.tp P)).

(** [blk && blk->isValid()], [blk && blk->isSet(bit)] *)
Definition blk_valid (blk : option Cache.BlkPtr) : M St bool :=
  b ← on_cache (Cache.peek blk);
  mret (match b with Some b => CacheBlk.valid b | None => false end).
Definition blk_set (bit : Z) (blk : option Cache.BlkPtr) : M St bool :=
  b ← on_cache (Cache.peek blk);
  mret (match b with Some b => CacheBlk.isSet bit b | None => false end).
(** [blk->clearCoherenceBits(bit)], [blk->setCoherenceBits(bit)] *)
Definition clear_bit (bit : Z) (p : Cache.BlkPtr) : M St unit :=
  on_cache (Cache.upd_blk p (λ b, Ok (CacheBlk.clearCoherenceBits bit b))).
Definition set_bit (bit : Z) (p : Cache.BlkPtr) : M St unit :=
  on_cache (Cache.upd_blk p (CacheBlk.setCoherenceBits bit)).

(** ** Deferred snoops *)

(** [doTimingSupplyResponse], with a packet that was copied already. *)
Definition doTimingSupplyResponse (k : Pkt) (blk_data : list Z) (pending_inval : bool) : M St unit :=
  massert "req_pkt->isRequest()" (isRequest (cmd k)) ;;
  massert "req_pkt->needsResponse()" (needsResponse (cmd k)) ;;
  massert "isUncacheable() || isInvalidate() || hasSharers()" (uncacheable (req k) || isInvalidate (cmd k) || hasSharers k) ;;
  k ← lift (makeResponse k);
  k ← lift (if isRead (cmd k) then setDataFromBlock k blk_data blkSize else Ok k);
  emit (SnoopResp (if bool_decide (cmd k = ReadResp) && pending_inval then set_cmd ReadRespWithInvalidate k else k)).

(** The snoop is sent on to the caches above, with a copy of the packet. *)
Definition forward_snoop (k : MPkt) : M St Pkt :=
  if Cache.forwardSnoops P then
    cp ← lift (copy_packet k);
    let s := sendTimingSnoopReq (pk cp) in
    let p := if blockCached s then setBlockCached (pk k) else pk k in
    p ← lift (if satisfied s then setSatisfied p else Ok p);
    lift (copyResponderFlags p s)
  else mret (pk k).

(** [respond] of [handleSnoop]: the block is dirty and supplies the data. *)
Definition supply (k : Pkt) (p : Cache.BlkPtr) (invalidate pending_inval : bool) : M St unit :=
  k ← lift (setCacheResponding k);
  b ← on_cache (Cache.get_blk p);
  k ← lift (if negb (isClean (cmd k)) && CacheBlk.isSet CacheBlk.WritableBit b then setResponderHadWritable k else Ok k);
  (if negb invalidate && negb (hasSharers k) then throw (EPanic "is passing a Modified line but keeping the block") else mret tt) ;;
  doTimingSupplyResponse k (CacheBlk.data b) pending_inval.

(** [handleSnoop(pkt, blk, true, true, pending_inval)] *)
Definition deferredSnoop (k : MPkt) (blk : option Cache.BlkPtr) (pending_inval : bool) : M St unit :=
  massert "pkt->isRequest()" (isRequest (cmd (pk k))) ;;
  let invalidate := isInvalidate (cmd (pk k)) in
  let needs_writable := needsWritable (cmd (pk k)) in
  (if invalidate && uncacheable (req (pk k)) then throw (EPanic "got an invalidating uncacheable snoop request") else mret tt) ;;
  k ← forward_snoop k;
  v ← blk_valid blk;
  d ← blk_set CacheBlk.DirtyBit blk;
  r ← on_cache (Cache.clean_dirty P k blk);
  let '(k, wbs) := r in
  mapM (λ wb, emit (Writeback wb)) wbs ;;
  if negb (isClean (cmd k)) && negb v then
    massert "pkt->needsResponse()" (needsResponse (cmd k)) ;;
    massert "pkt->cacheResponding()" (cacheResponding k)
  else
    massert "Should never have a dirty block in a read-only cache" (isClean (cmd k) || negb (Cache.isReadOnly P && d)) ;;
    let respond := negb (isClean (cmd k)) && d && needsResponse (cmd k) in
    if mustCheckAbove k then mret tt else
    let read := isRead (cmd k) && negb invalidate in
    when read (massert "!needs_writable" (negb needs_writable)) ;;
    let k := if read then setHasSharers k else k in
    when (read && negb (uncacheable (req k)))
      (p ← lift (of_option EBadPointer blk); clear_bit CacheBlk.WritableBit p) ;;
    (if respond then p ← lift (of_option EBadPointer blk); supply k p invalidate pending_inval
     else massert "pkt->needsResponse()" (needsResponse (cmd k))) ;;
    when (v && invalidate) (p ← lift (of_option EBadPointer blk); on_cache (Cache.invalidateBlock P p)).

(** ** Targets *)

Section targets.
(** The response, and the block it found or filled. *)
Context (k : Pkt) (blk : option Cache.BlkPtr) (is_invalidate : bool).
Notation is_error := (isError (cmd k)).

(** The data of the response are for the target itself. *)
Definition forward_response (tgt : Pkt) : M St Pkt :=
  v ← blk_valid blk;
  when (is_invalidate && v) (p ← lift (of_option EBadPointer blk); on_cache (Cache.invalidateBlock P p)) ;;
  tgt ← (if is_error then mret tgt
         else if isRead (cmd k) then
           massert "pkt->matchAddr(tgt_pkt)" (matchAddr k tgt) ;;
           massert "pkt->getSize() >= tgt_pkt->getSize()" (size tgt <=? size k) ;;
           d ← lift (getConstPtr k);
           lift (setData tgt d 0)
         else
           massert "!tgt_pkt->hasRespData()" (negb (hasRespData tgt)) ;;
           mret tgt);
  lift (copyResponderFlags tgt k).

(** The block has the data.  A locked read leaves a dummy packet in the register.
    ([satisfyRequest] changes neither the command nor the request of a packet.) *)
Definition satisfy_target (tgt : Pkt) (p : Cache.BlkPtr) : M St Pkt :=
  s ← gets (λ s, s);
  down ← lift (hasPostDowngrade (reg s));
  tgt' ← on_cache (Cache.satisfyRequest P tgt p true down);
  massert "!tgt_pkt->req->isUncacheable()" (negb (uncacheable (req tgt))) ;;
  when (bool_decide (cmd tgt = LockedRMWReadReq))
    (m ← lift (updateLockedRMWReadTarget tgt ident (reg s));
     set_reg m ;;
     clear_bit CacheBlk.WritableBit p ;;
     clear_bit CacheBlk.ReadableBit p) ;;
  mret tgt'.

Definition from_block (m : MSHR) (v : bool) : bool := v && (negb (isForward m) || negb (hasData (cmd k))).

(** The target gets its answer from the block or from the response.  A locked read
    that is not answered from the block stays in the register with a packet that is
    no longer the cache's. *)
Definition fill_target (tgt : Pkt) : M St Pkt :=
  s ← gets (λ s, s);
  v ← blk_valid blk;
  match blk, from_block (reg s) v with
  | Some p, true => satisfy_target tgt p
  | _, _ =>
      (if bool_decide (cmd tgt = LockedRMWReadReq) then throw EBadPointer else mret tt) ;;
      if bool_decide (cmd k = UpgradeFailResp) then
        massert "StoreCondReq, StoreCondFailReq or SCUpgradeFailReq"
          (bool_decide (cmd tgt = StoreCondReq) || bool_decide (cmd tgt = StoreCondFailReq) || bool_decide (cmd tgt = SCUpgradeFailReq)) ;;
        mret (set_extraData 0 tgt)
      else if bool_decide (cmd k = LockedRMWWriteResp) then mret tgt
      else forward_response tgt
  end.

(** [case MSHR::Target::FromCPU] *)
Definition serve_core (t : Target) : M St unit :=
  let tgt := pk (t_pkt t) in
  if isSWPrefetch (cmd tgt) then
    when (needsWritable (cmd tgt))
      (p ← lift (of_option (EAssert "blk") blk);
       set_bit CacheBlk.DirtyBit p ;;
       if Cache.isReadOnly P then throw (EPanic "Prefetch exclusive requests from read-only cache") else mret tt)
  else
    when (bool_decide (cmd tgt = WriteLineReq))
      (massert "!is_error" (negb is_error) ;;
       _ ← lift (of_option (EAssert "blk") blk);
       w ← blk_set CacheBlk.WritableBit blk;
       massert "blk->isSet(CacheBlk::WritableBit)" w) ;;
    tgt ← fill_target tgt;
    rsp ← lift (makeResponse tgt);
    rsp ← lift (if is_error then copyError rsp k else Ok rsp);
    s ← gets (λ s, s);
    inv ← lift (if bool_decide (cmd rsp = ReadResp) then if is_invalidate then Ok true else hasPostInvalidate (reg s) else Ok false);
    let rsp := if (inv : bool) then set_cmd ReadRespWithInvalidate rsp else rsp in
    emit (Resp rsp) ;;
    when (broadcast (req rsp))
      (b ← lift (copy_packet (set_pk rsp (t_pkt t)));
       emit (Broadcast (pk b))).

(** [case MSHR::Target::FromSnoop] *)
Definition serve_snoop (t : Target) : M St unit :=
  massert "!is_error" (negb is_error) ;;
  s ← gets (λ s, s);
  inv ← lift (hasPostInvalidate (reg s));
  massert "!is_invalidate || ..." (negb is_invalidate || bool_decide (cmd k = InvalidateResp) || maintenance (req k) || inv) ;;
  deferredSnoop (t_pkt t) blk inv.

Definition serve (t : Target) : M St unit :=
  match source t with
  | FromCPU => serve_core t
  | FromPrefetcher => massert "tgt_pkt->cmd == MemCmd::HardPFReq" (bool_decide (cmd (pk (t_pkt t)) = HardPFReq))
  | FromSnoop => serve_snoop t
  end.

(** The loop, and what the response and the snoops leave of the block. *)
Definition serve_targets (ready : TargetList) : M St unit :=
  mapM serve (tgts ready) ;;
  s ← gets (λ s, s);
  if hasLockedRMWReadTarget (reg s) then mret tt else
  on_cache (Cache.maintainClusivity P (hasFromCache ready) blk) ;;
  v ← blk_valid blk;
  match blk, v with
  | Some p, true =>
      inv ← lift (if is_invalidate then Ok true else hasPostInvalidate (reg s));
      if (inv : bool) then on_cache (Cache.invalidateBlock P p) else
      down ← lift (hasPostDowngrade (reg s));
      when down (clear_bit CacheBlk.WritableBit p)
  | _, _ => mret tt
  end.
End targets.

(** [serviceMSHRTargets]: the targets that were serviced, and the cache. *)
Definition serviceMSHRTargets (i : Ref) (k : Pkt) (blk : option Cache.BlkPtr) (c : Cache.Cache)
    : M Heap (list Target * Cache.Cache * list Out) :=
  m ← get i;
  t ← lift (getTarget m);
  let is_invalidate := isInvalidate (cmd k) && negb (wasWholeLineWrite m) in
  when (bool_decide (cmd k = LockedRMWWriteResp))
    (massert "initial_tgt->pkt->cmd == MemCmd::LockedRMWReadReq" (bool_decide (cmd (pk (t_pkt t)) = LockedRMWReadReq)) ;;
     m' ← lift (popTarget m); update i (λ _, m')) ;;
  m ← get i;
  r ← lift (extractServiceableTargets k m);
  s ← lift (serve_targets k blk is_invalidate r.1 (mkSt c r.2 []));
  update i (λ _, reg s.2) ;;
  mret (tgts r.1, blocks s.2, outs s.2).

(** ** The response *)

(** The block the response is for, after the fill if there is one; [allocate] is
    [mshr->allocOnFill()]. *)
Definition fill_block (k : Pkt) (m : MSHR) (c : Cache.Cache) : res (option Cache.BlkPtr * list Pkt * Cache.Cache) :=
  let is_fill := negb (isForward m) && (isRead (cmd k) || bool_decide (cmd k = UpgradeResp) || wasWholeLineWrite m) in
  let blk := Cache.InTags <$> Tags.findBlock (Cache.tp P) (addr k) (CachePkt.isSecure k) (Cache.blks c) in
  if is_fill && negb (isError (cmd k)) then
    r ← Cache.handleFill P now k blk (allocOnFill (targets m)) c;
    Ok (Some r.1.1, r.1.2, r.2)
  else Ok (blk, [], c).

(** Deferred targets that the block can serve now. *)
Definition promote_targets (i : Ref) (k : Pkt) (blk : option Cache.BlkPtr) (c : Cache.Cache) : M Heap Cache.Cache :=
  b ← lift (Cache.peek blk c);
  c ← match blk, b.1 with
      | Some p, Some b =>
          if CacheBlk.valid b && isClean (cmd k) && negb (isInvalidate (cmd k)) then
            r ← lift (Cache.upd_blk p (CacheBlk.setCoherenceBits CacheBlk.ReadableBit) c);
            promoteReadable levels i ;;
            mret r.2
          else mret c
      | _, _ => mret c
      end;
  b ← lift (Cache.peek blk c);
  match b.1 with
  | Some b =>
      when (CacheBlk.isSet CacheBlk.WritableBit b && negb (cacheInvalidate (req k))) (promoteWritable levels i) ;;
      mret c
  | None => mret c
  end.

(** The cache after a register was sent again or freed: its block is not readable
    while a request for it is out, and a temporary block goes. *)
Definition settle_block (again : bool) (blk : option Cache.BlkPtr) : M Cache.Cache (list Pkt) :=
  match blk with
  | Some p =>
      when again (Cache.upd_blk p (λ b, Ok (CacheBlk.clearCoherenceBits CacheBlk.ReadableBit b))) ;;
      c ← gets (λ c, c);
      if bool_decide (p = Cache.Temp) && CacheBlk.valid (Cache.tempBlock c)
      then k ← Cache.evictBlock P Cache.Temp; mret [k] else mret []
  | None => mret []
  end.

(** The targets that were serviced; what becomes of the register: it is kept for a
    locked write ([None]), sent again ([Some true]) or freed ([Some false]); and the
    cache with what it hands out.  The response of an uncacheable write is not for a
    register.  Neither is the broadcast of another cache's read, which has no sender
    state and is left out here. *)
Definition respond (i : Ref) (k : Pkt) (c : Cache.Cache) : M Heap (list Target * option bool * Cache.Cache * list Out) :=
  massert "pkt->isResponse()" (isResponse (cmd k)) ;;
  if isWrite (cmd k) && negb (bool_decide (cmd k = LockedRMWWriteResp)) then
    massert "pkt->req->isUncacheable()" (uncacheable (req k)) ;;
    mret ([], None, c, [])
  else
    m ← get i;
    _ ← lift (getTarget m);
    massert "!mshr->wasWholeLineWrite || pkt->isInvalidate()" (negb (wasWholeLineWrite m) || isInvalidate (cmd k)) ;;
    f ← lift (fill_block k m c);
    let '(blk, wbs, c) := f in
    c ← (if hasLockedRMWReadTarget m then mret c else promote_targets i k blk c);
    r ← serviceMSHRTargets i k blk c;
    let '(ready, c, outs) := r in
    m ← get i;
    if hasLockedRMWReadTarget m then mret (ready, None, c, outs ++ (Writeback <$> wbs)) else
    p ← lift (promoteDeferredTargets now m);
    update i (λ _, p.2) ;;
    e ← lift (settle_block p.1 blk c);
    mret (ready, Some p.1, e.2, outs ++ (Writeback <$> wbs ++ e.1)).
End resp.
End MshrResp.
