(* ===== verification/MshrProps.v ===== *)
(** * Miss registers: specifications of the operations

    Every operation on a register, as an equation for that register; the registers
    of the caches above keep everything but the two flags by which the caches tell
    each other that a request is not ordered yet. *)
From stdpp Require Import base tactics list strings gmap.
From Stdlib Require Import ZArith Lia.
From S2P Require Import Prelude MemCmd CachePkt Mshr.
Import CachePkt Mshr.
Local Open Scope Z_scope.

(** ** What the pending flags do not touch *)

Definition strip (tl : TargetList) : TargetList := set_tgts (unmark <$> tgts tl) tl.

(** A register without its pending flags. *)
Definition core (m : MSHR) : MSHR :=
  set_downstream false (set_deferred (strip (deferredTargets m)) (set_targets (strip (targets m)) m)).

(** Two heaps that differ in pending flags only. *)
Definition pend_eq (h h' : Heap) : Prop := core <$> h' = core <$> h.

(** Two heaps that differ in a register, and in pending flags. *)
Definition frame (i : Ref) (h h' : Heap) : Prop :=
  ∀ j, j ≠ i → core <$> h' !! j = core <$> h !! j.

Lemma pend_eq_lookup h h' i : pend_eq h h' → core <$> h' !! i = core <$> h !! i.
Proof. intros E. rewrite <-!lookup_fmap. by rewrite E. Qed.

Lemma pend_eq_at h h' i m : pend_eq h h' → h !! i = Some m → ∃ m', h' !! i = Some m' ∧ core m' = core m.
Proof.
  intros E Hm. pose proof (pend_eq_lookup _ _ i E) as Hi. rewrite Hm in Hi. simpl in Hi.
  destruct (h' !! i) as [m'|]; [|discriminate Hi]. exists m'. split; [done|]. by apply (inj Some).
Qed.

#[export] Instance pend_eq_refl : Reflexive pend_eq.
Proof. done. Qed.
#[export] Instance pend_eq_trans : Transitive pend_eq.
Proof. intros h1 h2 h3. unfold pend_eq. congruence. Qed.
#[export] Instance frame_refl i : Reflexive (frame i).
Proof. by intros h j _. Qed.
#[export] Instance frame_trans i : Transitive (frame i).
Proof. intros h1 h2 h3 E1 E2 j Hj. by rewrite E2, E1. Qed.

Lemma pend_frame i h h' : pend_eq h h' → frame i h h'.
Proof. intros E j _. by apply pend_eq_lookup. Qed.

Lemma unmark_unmark t : unmark (unmark t) = unmark t.
Proof. done. Qed.

Lemma strip_strip tl : strip (strip tl) = strip tl.
Proof.
  unfold strip, set_tgts. simpl. f_equal. rewrite <-list_fmap_compose. by apply list_fmap_ext.
Qed.

Lemma core_core m : core (core m) = core m.
Proof. unfold core, set_downstream, set_deferred, set_targets; simpl. by rewrite !strip_strip. Qed.

(** ** The heap *)

Lemma get_inv i h m h' : get i h = Ok (m, h') → h !! i = Some m ∧ h' = h.
Proof. unfold get, of_option. simpl. destruct (h !! i) eqn:E; simpl; [|done]. by intros [= -> ->]. Qed.

Lemma update_inv i f h u h' :
  update i f h = Ok (u, h') → ∃ m, h !! i = Some m ∧ h' = <[i := f m]> h.
Proof. unfold update, of_option. simpl. destruct (h !! i) eqn:E; simpl; [|done]. intros [= <- <-]. eauto. Qed.

Lemma get_ok i h m : h !! i = Some m → get i h = Ok (m, h).
Proof. intros E. unfold get. by rewrite E. Qed.

Lemma update_ok i f h m : h !! i = Some m → update i f h = Ok (tt, <[i := f m]> h).
Proof. intros E. unfold update. by rewrite E. Qed.

Lemma update_frame i h m : frame i h (<[i := m]> h).
Proof. intros j Hj. by rewrite lookup_insert_ne by done. Qed.

Lemma update_pend i h m m' : h !! i = Some m → core m' = core m → pend_eq h (<[i := m']> h).
Proof.
  intros Hm E. unfold pend_eq. rewrite fmap_insert, E. apply insert_id. by rewrite lookup_fmap, Hm.
Qed.

Lemma mret_inv {St A} (a b : A) (s t : St) : (mret a : M St A) s = Ok (b, t) → b = a ∧ t = s.
Proof. by intros [= -> ->]. Qed.

Lemma lift_inv {St A} (r : res A) a (s t : St) : lift r s = Ok (a, t) → r = Ok a ∧ t = s.
Proof. unfold lift. destruct r; [|done]. by intros [= -> ->]. Qed.

Lemma assert_inv {St} w b u (s t : St) : massert w b s = Ok (u, t) → b = true ∧ t = s.
Proof. unfold massert. destruct b; [|done]. by intros [= _ ->]. Qed.

(** Take a successful run apart. *)
Ltac heap_step H :=
  lazymatch type of H with
  | (_ ≫= _) _ = Ok _ =>
      let a := fresh "a" in let s := fresh "s" in let H1 := fresh "H" in
      apply M_bind_inv in H as (a & s & H1 & H); heap_step H1
  | get _ _ = Ok _ => apply get_inv in H as [H ->]
  | update _ _ _ = Ok _ => let m := fresh "m" in let E := fresh "E" in apply update_inv in H as (m & H & ->)
  | mret _ _ = Ok _ => apply mret_inv in H as [-> ->]
  | lift _ _ = Ok _ => apply lift_inv in H as [H ->]
  | massert _ _ _ = Ok _ => apply assert_inv in H as [H ->]
  | _ => idtac
  end.
Ltac heap_run H := repeat (progress heap_step H).

(** ** Pending flags *)

Lemma mark_pend k b h r h' : mark k b h = Ok (r, h') → pend_eq h h'.
Proof.
  unfold mark. destruct b; [|intros H; heap_run H; done]. destruct (sender k); [|intros H; heap_run H; done].
  intros H. heap_run H. simplify_eq. eapply update_pend; [eassumption|]. done.
Qed.

Lemma on_tlist_pend w f m :
  (∀ tl, strip (f tl) = strip tl) → core (on_tlist w f m) = core m.
Proof. intros E. destruct w; unfold core, on_tlist, set_downstream, set_deferred, set_targets; simpl; by rewrite E. Qed.

Lemma alter_unmark (l : list Target) (j : nat) : unmark <$> alter unmark j l = unmark <$> l.
Proof.
  apply list_eq. intros n. rewrite !list_lookup_fmap.
  destruct (decide (n = j)) as [->|]; [rewrite list_lookup_alter_eq|by rewrite list_lookup_alter_ne].
  by destruct (l !! j).
Qed.

Lemma clear_target_pend clear i w j h u h' :
  (∀ v h u h', clear v h = Ok (u, h') → pend_eq h h') →
  clear_target clear i w j h = Ok (u, h') → pend_eq h h'.
Proof.
  intros Hc H. unfold clear_target in H.
  apply M_bind_inv in H as (m & s & H1 & H). apply get_inv in H1 as [Hm ->].
  apply M_bind_inv in H as (t & s & H1 & H). apply lift_inv in H1 as [Ht ->].
  destruct (markedPending t); [|by apply mret_inv in H as [_ ->]].
  apply M_bind_inv in H as (v & s & H1 & H). apply update_inv in H as (m2 & Hm2 & ->). transitivity s.
  - destruct (sender (t_pkt t)) as [x|]; [by eapply Hc|by apply mret_inv in H1 as [_ ->]].
  - eapply update_pend; [eassumption|]. apply on_tlist_pend. intros tl. unfold strip, set_tgts; simpl.
    by rewrite alter_unmark.
Qed.

Lemma for_loop_pend (body : Z → M Heap unit) n j h u h' :
  (∀ j h u h', body j h = Ok (u, h') → pend_eq h h') →
  for_loop n j body h = Ok (u, h') → pend_eq h h'.
Proof.
  intros Hb. revert j h. induction n as [|n IH]; intros j h H; simpl in H.
  - by heap_run H.
  - apply M_bind_inv in H as (a & s & H1 & H). transitivity s; [by eapply Hb|by eapply IH].
Qed.

Lemma clear_range_pend clear i w n h u h' :
  (∀ v h u h', clear v h = Ok (u, h') → pend_eq h h') →
  clear_range clear i w n h = Ok (u, h') → pend_eq h h'.
Proof. intros Hc. apply for_loop_pend. intros j t v t'. by apply clear_target_pend. Qed.

Lemma clear_pend fuel i h u h' : clearDownstreamPending fuel i h = Ok (u, h') → pend_eq h h'.
Proof.
  revert i h u h'. induction fuel as [|fuel IH]; intros i h u h' H; [done|]. simpl in H.
  apply M_bind_inv in H as (m & s & H1 & H). apply get_inv in H1 as [Hm ->].
  apply M_bind_inv in H as (x & s & H1 & H). apply assert_inv in H1 as [_ ->].
  apply M_bind_inv in H as (y & s & H1 & H). apply update_inv in H1 as (m2 & Hm2 & ->).
  transitivity (<[i := set_downstream false m2]> h); [by eapply update_pend|].
  by eapply clear_range_pend.
Qed.

#[export] Hint Resolve mark_pend clear_pend clear_range_pend pend_frame update_frame : mshr.

(** ** Adding a target *)

Definition push (t : Target) (tl : TargetList) : TargetList := set_tgts (tgts tl ++ [t]) tl.

Lemma strip_push t tl : strip (push t tl) = push (unmark t) (strip tl).
Proof. unfold strip, push, set_tgts; simpl. by rewrite fmap_app. Qed.

Lemma core_push w t m : core (on_tlist w (push t) m) = on_tlist w (push (unmark t)) (core m).
Proof.
  destruct w; unfold core, on_tlist, set_tlist, tlist, set_downstream, set_deferred, set_targets;
    cbn [targets deferredTargets]; by rewrite strip_push.
Qed.

(** A register [i] that became [f] of what it was. *)
Definition becomes (i : Ref) (f : MSHR → MSHR) (h h' : Heap) : Prop :=
  ∃ m m', h !! i = Some m ∧ h' !! i = Some m' ∧ core m' = core (f m) ∧ frame i h h'.

Lemma add_spec now i w k ready o s mp al h u h' :
  add now i w k ready o s mp al h = Ok (u, h') →
  ∃ m tl, h !! i = Some m ∧ updateFlags k s al (tlist w m) = Ok tl ∧
    becomes i (λ m, set_tlist w (push (mkTgt now ready o k s false al) tl) m) h h'.
Proof.
  unfold add. intros H.
  apply M_bind_inv in H as (m & s0 & H1 & H). apply get_inv in H1 as [Hm ->].
  apply M_bind_inv in H as (tl & s0 & H1 & H). apply lift_inv in H1 as [Htl ->].
  apply M_bind_inv in H as (x & s0 & H1 & H). apply update_inv in H1 as (m1 & Hm1 & ->).
  rewrite Hm in Hm1. injection Hm1 as <-. apply M_bind_inv in H as (b & s1 & Hmark & H). apply mark_pend in Hmark.
  apply update_inv in H as (m2 & Hm2 & ->).
  destruct (pend_eq_at _ _ i (set_tlist w tl m) Hmark) as (m3 & Hm3 & Hc); [by rewrite lookup_insert_eq|].
  rewrite Hm2 in Hm3. injection Hm3 as <-. exists m, tl. split; [done|]. split; [done|]. eexists m, _. split; [done|].
  split; [by rewrite lookup_insert_eq|]. split.
  - etransitivity; [apply core_push|]. rewrite Hc.
    replace (set_tlist w (push _ tl) m) with (on_tlist w (push (mkTgt now ready o k s false al)) (set_tlist w tl m))
      by (by destruct w). by rewrite core_push.
  - transitivity (<[i:=set_tlist w tl m]> h); [apply update_frame|].
    transitivity s1; [by apply pend_frame|]. apply update_frame.
Qed.
