(* ===== verification/MshrInv.v ===== *)
(** * Miss registers: what the flags say of the targets *)
From stdpp Require Import base tactics list strings gmap.
From Stdlib Require Import ZArith Lia.
From S2P Require Import Prelude MemCmd CachePkt Mshr MshrProps.
Import CachePkt Mshr.
Local Open Scope Z_scope.

(** ** Targets, as the theorems see them

    Everything that decides about a target and that neither the pending flags nor
    the replacement of upgrades or of a locked read's packet change. *)
Record Key := mkKey {
  q_order : Z;
  q_source : Source;
  q_request : bool;    (* isRequest() *)
  q_writable : bool;   (* needsWritable() *)
  q_invalidate : bool; (* isInvalidate() *)
  q_write : bool;      (* isWrite() *)
  q_locked : bool;     (* LockedRMWReadReq *)
  q_req : Request;
  q_addr : Z;
  q_size : Z;
}.

(** For a locked read, which is answered and leaves a dummy packet for its write,
    address and size are those of the request. *)
Notation locked k := (bool_decide (cmd k = LockedRMWReadReq)) (only parsing).
Definition pkt_key (o : Z) (s : Source) (k : Pkt) : Key :=
  mkKey o s (isRequest (cmd k)) (needsWritable (cmd k)) (isInvalidate (cmd k)) (isWrite (cmd k)) (locked k) (req k)
    (if locked k then paddr (req k) else addr k) (if locked k then rsize (req k) else size k).
Definition key (t : Target) : Key := pkt_key (t_order t) (source t) (pk (t_pkt t)).

Lemma write_unlocked k : isWrite (cmd k) = true → locked k = false.
Proof. intros H. apply bool_decide_eq_false. intros E. by rewrite E in H. Qed.

(** A request of a cache or a core above, or of the prefetcher. *)
Definition demand (q : Key) : Prop := q_source q ≠ FromSnoop.

#[export] Instance demand_dec q : Decision (demand q).
Proof. unfold demand. apply _. Defined.

(** A snoop that takes the block away. *)
Definition takes (q : Key) : bool := q_writable q || q_invalidate q.

Definition keys (tl : TargetList) : list Key := key <$> tgts tl.

Lemma keys_strip tl : keys (strip tl) = keys tl.
Proof. unfold keys, strip; simpl. rewrite <-list_fmap_compose. by apply list_fmap_ext. Qed.

Lemma keys_push t tl : keys (push t tl) = keys tl ++ [key t].
Proof. unfold keys, push; simpl. by rewrite fmap_app. Qed.

(** ** Replaced upgrades *)

Lemma replaceUpgrade_key o s k k' : replaceUpgrade k = Ok k' → pkt_key o s (pk k') = pkt_key o s (pk k).
Proof.
  unfold replaceUpgrade. set (c := match cmd (pk k) with UpgradeReq => _ | _ => _ end).
  assert (Hc : ∀ p, cmd p = c → req p = req (pk k) → addr p = addr (pk k) → size p = size (pk k) →
      pkt_key o s p = pkt_key o s (pk k)).
  { intros p Hp E1 E2 E3. unfold pkt_key. rewrite Hp, E1, E2, E3. unfold c. by destruct (cmd (pk k)). }
  destruct (_ || _); [intros [= <-]; by apply Hc|]. destruct (hasData _); [done|].
  destruct (hasRespData _); simpl.
  - unfold CachePkt.allocate. destruct (_ || _); simpl; [|intros [= <-]; by apply Hc].
    destruct (data _); simpl; [done|]. intros [= <-]. by apply Hc.
  - intros [= <-]. by apply Hc.
Qed.

Lemma mapM_key l l' : mapM replace_target l = Ok l' → key <$> l' = key <$> l.
Proof.
  revert l'. induction l as [|t l IH]; intros l' H; simpl in H; [by injection H as <-|].
  destruct (replaceUpgrade (t_pkt t)) as [k|] eqn:Ek; unfold replace_target in H; rewrite Ek in H; simpl in H; [|done].
  fold replace_target in H. destruct (mapM _ l) as [l1|]; simpl in H; [|done]. injection H as <-. csimpl.
  rewrite (IH l1 eq_refl). f_equal. by apply replaceUpgrade_key.
Qed.

(** ** The flags of a list *)

(** A write that covers byte [b] of the block. *)
Definition covers (bs : Z) (q : Key) (b : nat) : Prop :=
  q_write q = true ∧ Z.land (q_addr q) (bs - 1) ≤ Z.of_nat b < Z.land (q_addr q) (bs - 1) + q_size q.

(** Writes, before anything else was asked, cover what the bitmap has. *)
Definition bits_ok (ks : list Key) (tl : TargetList) : Prop :=
  ∃ pre post, filter (λ q, q_source q = FromCPU) ks = pre ++ post ∧ Forall (λ q, q_write q = true) pre ∧
    (∀ b, writesBitmap tl !! b = Some true → Exists (λ q, covers (tl_blkSize tl) q b) pre) ∧
    (canMergeWrites tl = true → wholeLine tl = false → post = []).

Definition flags_for (ks : list Key) (tl : TargetList) : Prop :=
  Forall (λ q, demand q → q_writable q = true → needsWritableF tl = true) ks ∧ bits_ok ks tl.

Lemma fill_lookup bm off n bm' b :
  fill bm off n = Ok bm' → bm' !! b = Some true → bm !! b = Some true ∨ off ≤ Z.of_nat b < off + n.
Proof.
  unfold fill. destruct (Z.leb_spec 0 off); [|done]. destruct (Z.leb_spec 0 n); [|done].
  destruct (Z.leb_spec (off + n) (Z.of_nat (length bm))); [|done]. simpl. intros [= <-] Hb.
  destruct (decide (Z.of_nat b < off)) as [Hlt|].
  { left. rewrite lookup_app_l in Hb by (rewrite length_take; lia). by rewrite lookup_take in Hb; case_decide. }
  destruct (decide (Z.of_nat b < off + n)) as [Hin|]; [right; lia|]. left.
  rewrite lookup_app_r in Hb by (rewrite length_take; lia).
  rewrite lookup_app_r in Hb by (rewrite length_take, length_replicate; lia).
  rewrite length_take, length_replicate, lookup_drop in Hb. rewrite <-Hb. f_equal. lia.
Qed.

Lemma fill_length bm off n bm' : fill bm off n = Ok bm' → length bm' = length bm.
Proof.
  unfold fill. destruct (Z.leb_spec 0 off); [|done]. destruct (Z.leb_spec 0 n); [|done].
  destruct (Z.leb_spec (off + n) (Z.of_nat (length bm))); [|done]. simpl. intros [= <-].
  rewrite !length_app, length_take, length_replicate, length_drop. lia.
Qed.

(** What [updateFlags] leaves alone. *)
Definition same_list (tl tl' : TargetList) : Prop :=
  tgts tl' = tgts tl ∧ tl_blkSize tl' = tl_blkSize tl ∧ tl_blkAddr tl' = tl_blkAddr tl ∧
  length (writesBitmap tl') = length (writesBitmap tl).

#[export] Instance same_list_refl : Reflexive same_list.
Proof. by intros tl. Qed.
#[export] Instance same_list_trans : Transitive same_list.
Proof. unfold same_list. intros a b c (?&?&?&?) (?&?&?&?). repeat split; congruence. Qed.

Lemma updateWriteFlags_same k tl tl' :
  updateWriteFlags k tl = Ok tl' →
  same_list tl tl' ∧ needsWritableF tl' = needsWritableF tl.
Proof.
  unfold updateWriteFlags. destruct (wholeLine tl); [by intros [= <-]|]. destruct (canMergeWrites tl); [|by intros [= <-]].
  destruct (isWrite (cmd (pk k))); simpl; [|by intros [= <-]].
  destruct (_ || _); simpl; [|by intros [= <-]].
  destruct (fill _ _ _) as [bm|] eqn:Ef; simpl; [|done]. intros [= <-].
  repeat split; try done. simpl. by eapply fill_length.
Qed.

Lemma updateWriteFlags_ok ks k o tl tl' :
  bits_ok ks tl → updateWriteFlags k tl = Ok tl' → bits_ok (ks ++ [pkt_key o FromCPU (pk k)]) tl'.
Proof.
  intros (pre & post & Hks & Hpre & Hbits & Hmerge). set (q := pkt_key o FromCPU (pk k)).
  assert (Hks' : filter (λ q, q_source q = FromCPU) (ks ++ [q]) = pre ++ post ++ [q]).
  { rewrite filter_app, Hks, filter_cons_True by done. by rewrite filter_nil, <-app_assoc. }
  unfold updateWriteFlags. destruct (wholeLine tl) eqn:Ew.
  { intros [= <-]. exists pre, (post ++ [q]). repeat split; try done. congruence. }
  destruct (canMergeWrites tl) eqn:Em.
  2:{ intros [= <-]. exists pre, (post ++ [q]). repeat split; try done. congruence. }
  specialize (Hmerge eq_refl eq_refl). subst post. rewrite app_nil_l in Hks'.
  destruct (isWrite (cmd (pk k))) eqn:Ewr; simpl.
  2:{ intros [= <-]. exists pre, [q]. repeat split; done. }
  intros H. exists (pre ++ [q]), []. rewrite app_nil_r. split; [done|].
  assert (Forall (λ q, q_write q = true) (pre ++ [q])) by (apply Forall_app; by repeat constructor).
  split; [done|]. destruct (_ || _); simpl in H.
  2:{ injection H as <-. split; [|done]. intros b Hb. apply Exists_app. left. by apply Hbits. }
  destruct (fill _ _ _) as [bm|] eqn:Ef; simpl in H; [|done]. injection H as <-. split; [|done].
  intros b Hb. apply Exists_app. simpl in *. destruct (fill_lookup _ _ _ _ _ Ef Hb) as [|Hin]; [left; by apply Hbits|].
  right. constructor. unfold covers, q. simpl. by rewrite (write_unlocked _ Ewr).
Qed.
Lemma bits_ok_other ks q tl : q_source q ≠ FromCPU → bits_ok ks tl → bits_ok (ks ++ [q]) tl.
Proof.
  intros Hq (pre & post & Hks & H). exists pre, post. split; [|done].
  by rewrite filter_app, Hks, filter_cons_False, filter_nil, app_nil_r.
Qed.

Lemma updateFlags_same k s al tl tl' : updateFlags k s al tl = Ok tl' → same_list tl tl'.
Proof.
  unfold updateFlags. destruct (bool_decide _); [by intros [= <-]|]. destruct (negb _); [done|].
  destruct (bool_decide _); [by intros [= <-]|]. intros H. apply updateWriteFlags_same in H as [H _]. done.
Qed.

(** The flags after one more target are right for one more target. *)
Lemma updateFlags_for ks k s al o tl tl' :
  flags_for ks tl → updateFlags k s al tl = Ok tl' → flags_for (ks ++ [pkt_key o s (pk k)]) tl'.
Proof.
  intros [Hw Hb]. unfold updateFlags. set (q := pkt_key o s (pk k)).
  case_bool_decide as Hs.
  { intros [= <-]. split; [|by apply bits_ok_other; [simpl; congruence|]].
    apply Forall_app. split; [done|]. constructor; [|done]. by intros Hd. }
  destruct (isRequest _); simpl; [|done].
  assert (Hw' : Forall (λ q, demand q → q_writable q = true →
      needsWritableF tl || needsWritable (cmd (pk k)) = true) (ks ++ [q])).
  { apply Forall_app. split; [|constructor; [|done]].
    - eapply Forall_impl; [exact Hw|]. intros x Hx Hd Hn. by rewrite Hx.
    - intros _ Hn. simpl in Hn. rewrite Hn. apply orb_true_r. }
  case_bool_decide as Hs2.
  { intros [= <-]. split; [done|]. by apply bits_ok_other; [simpl; congruence|]. }
  intros H. pose proof (updateWriteFlags_same _ _ _ H) as [_ En]. simpl in En. split.
  - by rewrite En.
  - destruct s; [|done|done]. eapply updateWriteFlags_ok; [|exact H]. exact Hb.
Qed.

Lemma update_all_for l ks tl tl' :
  flags_for ks tl → update_all l tl = Ok tl' → flags_for (ks ++ (key <$> l)) tl' ∧ same_list tl tl'.
Proof.
  revert ks tl. induction l as [|t l IH]; intros ks tl Hf H; simpl in H.
  - injection H as <-. by rewrite app_nil_r.
  - destruct (updateFlags _ _ _ tl) as [tl1|] eqn:E; simpl in H; [|done].
    pose proof (updateFlags_for ks _ _ _ (t_order t) _ _ Hf E) as Hf1.
    destruct (IH _ _ Hf1 H) as [Hf2 Hs]. rewrite <-app_assoc in Hf2. split; [done|].
    etransitivity; [by eapply updateFlags_same|done].
Qed.

Lemma resetFlags_for tl : flags_for [] (resetFlags tl).
Proof.
  split; [done|]. exists [], []. repeat split; try done. intros b Hb. exfalso.
  simpl in Hb. rewrite list_lookup_fmap in Hb. by destruct (_ !! b).
Qed.

(** The flags of a list are right for its targets, and its bitmap has the size of
    the block. *)
Definition good (tl : TargetList) : Prop :=
  flags_for (keys tl) tl ∧ length (writesBitmap tl) = Z.to_nat (tl_blkSize tl).

Lemma populateFlags_same tl tl' : populateFlags tl = Ok tl' → tgts tl' = tgts tl ∧ tl_blkSize tl' = tl_blkSize tl.
Proof.
  intros H. destruct (update_all_for _ [] _ _ (resetFlags_for tl) H) as [_ (H1 & H2 & _)]. done.
Qed.

Lemma populateFlags_good tl tl' :
  length (writesBitmap tl) = Z.to_nat (tl_blkSize tl) → populateFlags tl = Ok tl' → good tl'.
Proof.
  intros Hl H. destruct (update_all_for _ [] _ _ (resetFlags_for tl) H) as [Hf (H1 & H2 & _ & H4)].
  split; [unfold keys; by rewrite H1|]. rewrite H4, H2. simpl. by rewrite length_fmap.
Qed.

Lemma populateFlags_reset tl tl' : tgts tl = [] → populateFlags tl = Ok tl' → isReset tl' = true.
Proof. unfold populateFlags. intros ->. simpl. by intros [= <-]. Qed.

Lemma add_good tl tl' k s al o now ready :
  good tl → updateFlags k s al tl = Ok tl' → good (push (mkTgt now ready o k s false al) tl').
Proof.
  intros [Hf Hl] H. pose proof (updateFlags_same _ _ _ _ _ H) as (E1 & E2 & _ & E4). split.
  - rewrite keys_push. pose proof (updateFlags_for _ _ _ _ o _ _ Hf H) as Hf'. unfold keys in *. by rewrite E1.
  - simpl. congruence.
Qed.

Lemma replaceUpgrades_keys tl tl' :
  replaceUpgrades tl = Ok tl' →
  keys tl' = keys tl ∧ same_list (set_tgts [] tl) (set_tgts [] tl') ∧ (∀ ks, flags_for ks tl → flags_for ks tl').
Proof.
  unfold replaceUpgrades. destruct (hasUpgrade tl); simpl; [|by intros [= <-]].
  destruct (mapM _ _) as [l|] eqn:E; simpl; [|done]. intros [= <-]. split; [by apply mapM_key|]. done.
Qed.

Lemma replaceUpgrades_reset tl tl' : replaceUpgrades tl = Ok tl' → isReset tl = true → isReset tl' = true.
Proof.
  unfold replaceUpgrades, isReset. destruct (hasUpgrade tl) eqn:E; simpl; [|by intros [= <-]; rewrite E].
  destruct (mapM _ _); simpl; [|done]. intros [= <-]. simpl. rewrite andb_false_r. done.
Qed.

Lemma replaceUpgrades_good tl tl' : replaceUpgrades tl = Ok tl' → good tl → good tl'.
Proof.
  intros H [Hf Hl]. destruct (replaceUpgrades_keys _ _ H) as (E1 & (_ & E2 & _ & E3) & Hff). simpl in *.
  split; [rewrite E1; by apply Hff|congruence].
Qed.

Lemma init_good a bs tl : tgts tl = [] → good (init a bs tl).
Proof.
  intros E. split; [unfold keys; simpl; rewrite E; apply resetFlags_for|].
  simpl. by rewrite length_fmap, length_resize.
Qed.
