(* ===== verification/MshrSteps.v ===== *)
(** * Miss registers: what each operation does to the targets that wait *)
From stdpp Require Import base tactics list strings gmap.
From Stdlib Require Import ZArith Lia.
From S2P Require Import Prelude MemCmd CachePkt CacheBlk CacheTags Cache Mshr MshrResp MshrProps MshrInv.
Import CachePkt Mshr MshrResp.
Local Open Scope Z_scope.

(** ** The requests that wait, and the invariant *)

Definition waiting (m : MSHR) : list Key := keys (targets m) ++ keys (deferredTargets m).

(** The requests that wait, in the order they will be served. *)
Definition line (m : MSHR) : list Key := filter demand (waiting m).

(** [b] of a target that is not a snoop. *)
Notation reader := (λ q, demand q → q_writable q = false).

Record Base (m : MSHR) : Prop := mkBase {
  b_bits : length (writesBitmap (targets m)) = Z.to_nat (tl_blkSize (targets m));
  b_size : tl_blkSize (targets m) = blkSize m;
  b_dbits : length (writesBitmap (deferredTargets m)) = Z.to_nat (tl_blkSize (deferredTargets m));
  b_dsize : tl_blkSize (deferredTargets m) = blkSize m;
  b_dreset : keys (deferredTargets m) = [] → isReset (deferredTargets m) = true;
  b_def : Forall (λ q, q_source q = FromCPU) (keys (deferredTargets m));
  b_lock : Forall (λ q, q_locked q = false) (waiting m);
}.

(** While the request is out: a request that needs a writable block waits in the
    main list only if the response will be writable; behind a snoop that takes a
    shared copy there is none; and behind a snoop that takes the block away there
    is nothing at all.  A snoop is never first. *)
Record Ordered (ks : list Key) (modified inv down : bool) : Prop := mkOrdered {
  o_mod : modified = false → Forall reader ks;
  o_some : ks ≠ [];
  o_snoop : ∀ pre s post, ks = pre ++ s :: post → q_source s = FromSnoop → pre ≠ [] ∧
    (takes s = true → inv = true ∧ post = []) ∧
    (q_writable s = false → uncacheable (q_req s) = false → down = true ∧ Forall reader post);
}.

Record Inv (m : MSHR) : Prop := mkInv {
  i_base : Base m;
  i_good : flags_for (keys (targets m)) (targets m);
  i_idle : inService m = false → Forall demand (keys (targets m));
  i_out : inService m = true → Ordered (keys (targets m)) (pendingModified m) (postInvalidate m) (postDowngrade m);
}.

(** None of it depends on the pending flags. *)
Definition view_eq (m m' : MSHR) : Prop :=
  keys (targets m') = keys (targets m) ∧ keys (deferredTargets m') = keys (deferredTargets m) ∧
  (∀ ks, flags_for ks (targets m) → flags_for ks (targets m')) ∧
  length (writesBitmap (targets m')) = length (writesBitmap (targets m)) ∧
  tl_blkSize (targets m') = tl_blkSize (targets m) ∧ blkSize m' = blkSize m ∧
  inService m' = inService m ∧ pendingModified m' = pendingModified m ∧
  postInvalidate m' = postInvalidate m ∧ postDowngrade m' = postDowngrade m ∧
  length (writesBitmap (deferredTargets m')) = length (writesBitmap (deferredTargets m)) ∧
  tl_blkSize (deferredTargets m') = tl_blkSize (deferredTargets m) ∧
  (isReset (deferredTargets m) = true → isReset (deferredTargets m') = true).

Lemma core_view m m' : core m = core m' → view_eq m m'.
Proof.
  intros E. assert (Et : strip (targets m) = strip (targets m')) by apply (f_equal targets E).
  assert (Ed : strip (deferredTargets m) = strip (deferredTargets m')) by apply (f_equal deferredTargets E).
  split; [rewrite <-(keys_strip (targets m)), <-(keys_strip (targets m')); by rewrite Et|].
  split; [rewrite <-(keys_strip (deferredTargets m)), <-(keys_strip (deferredTargets m')); by rewrite Ed|].
  split; [intros ks H; change (flags_for ks (strip (targets m'))); by rewrite <-Et|].
  split; [change (length (writesBitmap (strip (targets m'))) = length (writesBitmap (strip (targets m)))); by rewrite Et|].
  split; [change (tl_blkSize (strip (targets m')) = tl_blkSize (strip (targets m))); by rewrite Et|].
  split_and!; [symmetry; apply (f_equal blkSize E)|symmetry; apply (f_equal inService E)|
    symmetry; apply (f_equal pendingModified E)|symmetry; apply (f_equal postInvalidate E)|
    symmetry; apply (f_equal postDowngrade E)|symmetry; apply (f_equal (λ tl, length (writesBitmap tl)) Ed)|
    symmetry; apply (f_equal tl_blkSize Ed)|].
  change (isReset (strip (deferredTargets m)) = true → isReset (strip (deferredTargets m')) = true). by rewrite Ed.
Qed.

Lemma view_waiting m m' : view_eq m m' → waiting m' = waiting m.
Proof. intros (E1 & E2 & _). unfold waiting. by rewrite E1, E2. Qed.

Lemma view_eq_line m m' : view_eq m m' → line m' = line m.
Proof. intros E. unfold line. by rewrite (view_waiting _ _ E). Qed.

Lemma view_base m m' : view_eq m m' → Base m → Base m'.
Proof.
  intros E [H1 H2 H5 H6 H7 H3 H4]. pose proof (view_waiting _ _ E) as Ew. destruct E as (E1 & E2 & _ & E4 & E5 & E6 & _ & _ & _ & _ & E11 & E12 & E13).
  split; [congruence..|rewrite E2; by auto|by rewrite E2|by rewrite Ew].
Qed.

Lemma view_inv m m' : view_eq m m' → Inv m → Inv m'.
Proof.
  intros E [H1 H2 H3 H4]. split; [by eapply view_base| | |];
    destruct E as (E1 & E2 & E3 & E4 & E5 & E6 & E7 & E8 & E9 & E10 & _).
  - rewrite E1. by apply E3.
  - by rewrite E7, E1.
  - by rewrite E7, E1, E8, E9, E10.
Qed.

Lemma view_set_pending md iv dn m m' :
  view_eq m m' → view_eq (set_pending md iv dn m) (set_pending md iv dn m').
Proof.
  intros (E1 & E2 & E3 & E4 & E5 & E6 & E7 & _ & _ & _ & E11 & E12 & E13).
  exact (conj E1 (conj E2 (conj E3 (conj E4 (conj E5 (conj E6 (conj E7 (conj eq_refl (conj eq_refl (conj eq_refl
    (conj E11 (conj E12 E13)))))))))))).
Qed.

#[export] Hint Resolve view_inv view_base view_eq_line core_view : mshr.

(** ** Small facts on the lists *)

Lemma line_app m : line m = filter demand (keys (targets m)) ++ filter demand (keys (deferredTargets m)).
Proof. unfold line, waiting. by rewrite filter_app. Qed.

Lemma def_line m : Base m → filter demand (keys (deferredTargets m)) = keys (deferredTargets m).
Proof. intros [_ _ _ _ _ H _]. apply filter_all. eapply Forall_impl; [exact H|]. intros q Hq. unfold demand. by rewrite Hq. Qed.

Lemma app_snoc_split {A} (l pre post : list A) (x s : A) :
  l ++ [x] = pre ++ s :: post → (post = [] ∧ s = x ∧ pre = l) ∨ ∃ post', post = post' ++ [x] ∧ l = pre ++ s :: post'.
Proof.
  destruct post as [|y post _] using rev_ind.
  - intros [-> [= ->]]%app_inj_tail. by left.
  - intros H. right. exists post. rewrite app_comm_cons, app_assoc in H. apply app_inj_tail in H as [-> ->]. done.
Qed.

(** ** Being sent *)

Lemma markInService_step levels i p h u h' :
  markInService levels i p h = Ok (u, h') →
  ∃ m m', h !! i = Some m ∧ h' !! i = Some m' ∧ frame i h h' ∧ blkSize m' = blkSize m ∧ inService m = false ∧ inService m' = true ∧
    waiting m' = waiting m ∧ (keys (targets m) ≠ [] → Inv m → Inv m').
Proof.
  unfold markInService. intros H.
  apply M_bind_inv in H as (m & s & H1 & H). apply get_inv in H1 as [Hm ->].
  apply M_bind_inv in H as (x & s & H1 & H). apply assert_inv in H1 as [Hi ->]. apply negb_true_iff in Hi.
  apply M_bind_inv in H as (y & s & H1 & H). apply update_inv in H1 as (m1 & Hm1 & ->).
  rewrite Hm in Hm1. injection Hm1 as <-.
  set (m1 := set_pending _ _ _ _) in H.
  apply M_bind_inv in H as (z & s & H1 & H). apply update_inv in H as (m2 & Hm2 & ->).
  assert (Hp : pend_eq (<[i := m1]> h) s).
  { destruct (downstreamPending m); simpl in H1; [by apply mret_inv in H1 as [_ ->]|]. eapply clear_range_pend; [|exact H1]. apply clear_pend. }
  destruct (pend_eq_at _ _ i m1 Hp) as (m2' & Hm2' & Hc); [by rewrite lookup_insert_eq|].
  rewrite Hm2 in Hm2'. injection Hm2' as <-. symmetry in Hc. apply core_view in Hc.
  exists m, (set_wholeLine (isWholeLineWrite m2) m2). split; [done|]. split; [by rewrite lookup_insert_eq|].
  assert (Hv : view_eq m1 (set_wholeLine (isWholeLineWrite m2) m2)) by exact Hc.
  split; [|split; [by destruct Hv as (_&_&_&_&_&->&_)|split; [done|split; [|split]]]].
  - transitivity (<[i := m1]> h); [apply update_frame|]. transitivity s; [by apply pend_frame|]. apply update_frame.
  - by destruct Hv as (_&_&_&_&_&_&->&_).
  - by rewrite (view_waiting _ _ Hv).
  - intros Hne [B G I _]. eapply view_inv; [exact Hv|]. split; [by destruct B|done|done|]. intros _. specialize (I Hi). split.
    + simpl. intros Hn. apply orb_false_iff in Hn as [Hn _]. destruct G as [G _].
      eapply Forall_impl; [exact G|]. intros q Hq Hd. destruct (q_writable q) eqn:Eq; [|done]. by rewrite Hq in Hn.
    + exact Hne.
    + intros pre sn post E Hs. simpl in E. rewrite E in I. apply Forall_app in I as [_ I]. by apply Forall_cons in I as [I _].
Qed.

(** ** A new target *)

(** The register after a target was added to one of its lists. *)
Lemma becomes_push now i w k ready o s al tl h h' m :
  h !! i = Some m → updateFlags k s al (tlist w m) = Ok tl →
  becomes i (λ m, set_tlist w (push (mkTgt now ready o k s false al) tl) m) h h' →
  ∃ m', h' !! i = Some m' ∧ frame i h h' ∧ keys (tlist w m') = keys (tlist w m) ++ [pkt_key o s (pk k)] ∧
    view_eq (set_tlist w (push (mkTgt now ready o k s false al) tl) m) m'.
Proof.
  intros Hm Ht (m0 & m' & Hm0 & Hm' & Hc & Hf). rewrite Hm in Hm0. injection Hm0 as <-. exists m'.
  symmetry in Hc. apply core_view in Hc. split; [done|]. split; [done|]. split; [|done].
  destruct (updateFlags_same _ _ _ _ _ Ht) as (E & _).
  destruct Hc as (E1 & E2 & _). destruct w; simpl in *; [rewrite E1|rewrite E2]; rewrite keys_push; unfold keys; by rewrite E.
Qed.

Lemma base_push_deferred t tl m :
  Base m → same_list (deferredTargets m) tl → q_source (key t) = FromCPU → q_locked (key t) = false →
  Base (set_deferred (push t tl) m).
Proof.
  intros [H1 H2 H5 H6 H7 H3 H4] (E & E2 & _ & E4) Hs Hl. split; simpl; [done|done|congruence|congruence| | |].
  - rewrite keys_push. intros E'. by destruct (keys tl).
  - rewrite keys_push. unfold keys in *. rewrite E. apply Forall_app. by repeat constructor.
  - unfold waiting in *; simpl. rewrite keys_push. unfold keys in *. rewrite E. rewrite app_assoc. apply Forall_app. by repeat constructor.
Qed.

Lemma waiting_push_deferred t tl m :
  tgts tl = tgts (deferredTargets m) → waiting (set_deferred (push t tl) m) = waiting m ++ [key t].
Proof. intros E. unfold waiting; simpl. rewrite keys_push. unfold keys. by rewrite E, app_assoc. Qed.

Lemma base_push_main t tl m :
  Base m → same_list (targets m) tl → q_locked (key t) = false → Base (set_targets (push t tl) m).
Proof.
  intros [H1 H2 H5 H6 H7 H3 H4] (E1 & E2 & _ & E4) Hl. split; simpl; [congruence|congruence|done|done|done|done|].
  unfold waiting in *; simpl. rewrite keys_push. unfold keys in *. rewrite E1. rewrite Forall_app in H4. destruct H4 as [Ha Hb].
  apply Forall_app. split; [|done]. apply Forall_app. by repeat constructor.
Qed.

(** A target that may follow what the main list has. *)
Lemma ordered_push q ks md dn inv' dn' :
  Ordered ks md false dn → (dn = true → dn' = true) →
  (demand q → q_writable q = true → md = true ∧ dn = false) →
  (q_source q = FromSnoop → takes q = true → inv' = true) →
  (q_source q = FromSnoop → q_writable q = false → uncacheable (q_req q) = false → dn' = true) →
  Ordered (ks ++ [q]) md inv' dn'.
Proof.
  intros [O1 Os O2] Hdn Hw Hs1 Hs2. split; [|by destruct ks|].
  - intros Hm. apply Forall_app. split; [by apply O1|]. repeat constructor. intros Hd.
    destruct (q_writable q) eqn:Eq; [|done]. destruct (Hw Hd eq_refl); congruence.
  - intros pre sn post [(-> & -> & ->)|(post' & -> & E)]%app_snoc_split Hs; [by auto|].
    destruct (O2 _ _ _ E Hs) as (Hpre & Ha & Hb). split; [done|]. split; [intros Hx; by destruct (Ha Hx)|].
    intros Hx Hu. destruct (Hb Hx Hu) as [Hd Hr]. split; [by auto|]. apply Forall_app. split; [done|].
    repeat constructor. intros Hdem. destruct (q_writable q) eqn:Eq; [|done].
    destruct (Hw Hdem eq_refl); congruence.
Qed.

Lemma inv_push_main t tl k s al m :
  Inv m → updateFlags k s al (targets m) = Ok tl → key t = pkt_key (t_order t) s (pk k) → q_locked (key t) = false →
  (inService m = false → demand (key t)) →
  (inService m = true → demand (key t) ∧ postInvalidate m = false ∧
     (q_writable (key t) = true → pendingModified m = true ∧ postDowngrade m = false)) →
  Inv (set_targets (push t tl) m).
Proof.
  intros [B G I O] Ht Ek Hl Hidle Hout. pose proof (updateFlags_same _ _ _ _ _ Ht) as Hsame.
  assert (Ek2 : keys tl = keys (targets m)) by (unfold keys; by rewrite (proj1 Hsame)).
  split; [by apply base_push_main| | |]; simpl; rewrite keys_push, Ek2.
  - rewrite Ek. by apply (updateFlags_for _ _ _ _ _ _ _ G Ht).
  - intros Hi. apply Forall_app. split; [by apply I|]. repeat constructor. by apply Hidle.
  - intros Hi. specialize (O Hi). destruct (Hout Hi) as (Hd & Hp & Hw). rewrite Hp in *.
    eapply ordered_push; [exact O|done|by auto|done|done].
Qed.

(** ** A request that finds a register *)

Lemma must_defer_false m t k :
  must_defer m t k = false →
  tgts (deferredTargets m) = [] ∧
  (inService m = true → postInvalidate m = false ∧
     (needsWritable (cmd (pk k)) = true → pendingModified m = true ∧ postDowngrade m = false)).
Proof.
  unfold must_defer. rewrite !orb_false_iff. intros [[[_ _] Hd] Hs]. split.
  - by case_bool_decide.
  - intros Hi. rewrite Hi in Hs. simpl in Hs. apply orb_false_iff in Hs as [Hp Hs]. split; [done|].
    intros Hn. rewrite Hn in Hs. simpl in Hs. destruct (pendingModified m), (postDowngrade m); done.
Qed.

Lemma allocateTarget_step now i k ready o al h u h' :
  allocateTarget now i k ready o al h = Ok (u, h') →
  ∃ m m', h !! i = Some m ∧ h' !! i = Some m' ∧ frame i h h' ∧ blkSize m' = blkSize m ∧
    waiting m' = waiting m ++ [pkt_key o FromCPU (pk k)] ∧ keys (targets m) ≠ [] ∧
    (cmd (pk k) ≠ LockedRMWReadReq → Inv m → Inv m').
Proof.
  unfold allocateTarget. intros H.
  apply M_bind_inv in H as (x & s & H1 & H). apply assert_inv in H1 as [_ ->].
  apply M_bind_inv in H as (m & s & H1 & H). apply get_inv in H1 as [Hm ->].
  apply M_bind_inv in H as (t & s & H1 & H). apply lift_inv in H1 as [Hfr ->].
  assert (Hne : keys (targets m) ≠ []) by (intros E%fmap_nil_inv; unfold front in Hfr; by rewrite E in Hfr).
  destruct (must_defer m (t_pkt t) k) eqn:Ed.
  - apply M_bind_inv in H as (k' & s & H1 & H). apply lift_inv in H1 as [Hk ->].
    assert (Ek : pkt_key o FromCPU (pk k') = pkt_key o FromCPU (pk k)).
    { destruct (_ && _); [by apply replaceUpgrade_key|congruence]. }
    apply add_spec in H as (m0 & tl & Hm0 & Htl & Hb). rewrite Hm in Hm0. injection Hm0 as <-.
    destruct (becomes_push _ _ _ _ _ _ _ _ _ _ _ _ Hm Htl Hb) as (m' & Hm' & Hf & _ & Hv).
    pose proof (updateFlags_same _ _ _ _ _ Htl) as Hsame.
    exists m, m'. split; [done|]. split; [done|]. split; [done|]. split; [by destruct Hv as (_&_&_&_&_&->&_)|]. split.
    + rewrite (view_waiting _ _ Hv). simpl. rewrite waiting_push_deferred by apply Hsame. by f_equal; f_equal.
    + split; [done|]. intros Hl [B G I O]. eapply view_inv; [exact Hv|]. split; [|done|done|done].
      apply base_push_deferred; [done|done|done|]. change (q_locked (pkt_key o FromCPU (pk k')) = false).
      rewrite Ek. simpl. by case_bool_decide.
  - apply must_defer_false in Ed as [Ed Eo].
    apply add_spec in H as (m0 & tl & Hm0 & Htl & Hb). rewrite Hm in Hm0. injection Hm0 as <-.
    destruct (becomes_push _ _ _ _ _ _ _ _ _ _ _ _ Hm Htl Hb) as (m' & Hm' & Hf & Ekeys & Hv).
    exists m, m'. split; [done|]. split; [done|]. split; [done|]. split; [by destruct Hv as (_&_&_&_&_&->&_)|]. split.
    + simpl in Ekeys. unfold waiting. rewrite Ekeys. destruct Hv as (_ & Hd & _). rewrite Hd. simpl.
      unfold keys at 2 4. rewrite Ed. by rewrite !app_nil_r.
    + split; [done|]. intros Hl Hi. eapply view_inv; [exact Hv|]. simpl. eapply inv_push_main; [done|exact Htl|done| |done|].
      * unfold key; simpl. by case_bool_decide.
      * intros Hs. destruct (Eo Hs) as [? ?]. done.
Qed.

(** ** A snoop that finds a register *)

Lemma inv_push_snoop t m inv' dn' :
  Inv m → inService m = true → postInvalidate m = false → q_source (key t) = FromSnoop → q_locked (key t) = false →
  (takes (key t) = true → inv' = true) →
  (q_writable (key t) = false → uncacheable (q_req (key t)) = false → dn' = true) →
  (postDowngrade m = true → dn' = true) →
  Inv (set_pending (pendingModified m) inv' dn' (set_targets (push t (targets m)) m)).
Proof.
  intros [B G I O] Hi Hp Hs Hl H1 H2 H3. split; simpl.
  - destruct (base_push_main t (targets m) m B) as [B1 B2 B5 B6 B8 B3 B4]; [done|done|]. by split.
  - rewrite keys_push. destruct G as [Gw Gb]. split; [|by apply bits_ok_other; [congruence|]].
    apply Forall_app. split; [done|]. repeat constructor. by intros [].
  - congruence.
  - intros _. rewrite keys_push. specialize (O Hi). rewrite Hp in O.
    eapply ordered_push; [exact O|done|by intros []|done|done].
Qed.

Lemma inv_downgrade m inv' : Inv m → (postInvalidate m = true → inv' = true) →
  Inv (set_pending (pendingModified m) inv' true m).
Proof.
  intros [[B1 B2 B5 B6 B8 B3 B4] G I O] H. split; simpl; [by split|done|done|]. intros Hi. destruct (O Hi) as [O1 Os O2]. split; [done|done|].
  intros pre s post E Hs. destruct (O2 _ _ _ E Hs) as (Hpre & Ha & Hb). split; [done|]. split.
  - intros Ht. destruct (Ha Ht). split; [by apply H|done].
  - intros Hw Hu. by destruct (Hb Hw Hu).
Qed.

Lemma copy_packet_key o s k k' : copy_packet k = Ok k' → pkt_key o s (pk k') = pkt_key o s (pk k).
Proof.
  unfold copy_packet. destruct (staticData k); simpl; [by intros [= <-]|].
  unfold CachePkt.allocate; simpl. destruct (_ || _); simpl; by intros [= <-].
Qed.

(** The flags a snoop may set on its packet. *)
Lemma snoop_flags_cmd (b c : bool) k p :
  (if b then p ← setCacheResponding k; setResponderHadWritable p
   else if c then setSatisfied k else Ok k) = Ok p → cmd p = cmd k ∧ req p = req k.
Proof.
  unfold setCacheResponding, setResponderHadWritable, setSatisfied.
  destruct b; [|destruct c]; repeat (case_match; simpl; try done); intros [= <-]; done.
Qed.

(** Snoops were added to the main list, or nothing. *)
Definition snooped (m m' : MSHR) : Prop :=
  ∃ sn, Forall (λ q, q_source q = FromSnoop) sn ∧ keys (targets m') = keys (targets m) ++ sn ∧
    keys (deferredTargets m') = keys (deferredTargets m).

Lemma snooped_line m m' : snooped m m' → line m' = line m.
Proof.
  intros (sn & Hsn & E1 & E2). rewrite !line_app, E1, E2, filter_app, (filter_none demand sn), app_nil_r; [done|].
  eapply Forall_impl; [exact Hsn|]. by intros q Hq [].
Qed.

Lemma view_snooped m m' : view_eq m m' → snooped m m'.
Proof. intros (E1 & E2 & _). exists []. by rewrite app_nil_r. Qed.

(** The two flags at the end. *)
Lemma snoop_end i k (r : bool) (h h' : Heap) x m :
  h !! i = Some m →
  (if negb (needsWritable (cmd (pk k))) && negb (uncacheable (req (pk k))) then
    update i (λ m, set_pending (pendingModified m) (postInvalidate m) true m) ;;
    mret (r, set_pk (setHasSharers (pk k)) k)
  else mret (r, k)) h = Ok (x, h') →
  frame i h h' ∧ h' !! i = Some (if negb (needsWritable (cmd (pk k))) && negb (uncacheable (req (pk k)))
    then set_pending (pendingModified m) (postInvalidate m) true m else m).
Proof.
  intros Hm. destruct (_ && _); intros H.
  - apply M_bind_inv in H as (a & s & H1 & H). apply update_inv in H1 as (m1 & Hm1 & ->). apply mret_inv in H as [_ ->].
    rewrite Hm in Hm1. injection Hm1 as <-. split; [apply update_frame|]. by rewrite lookup_insert_eq.
  - apply mret_inv in H as [_ ->]. done.
Qed.

Lemma snoop_after_step now i k o m0 m h r h' :
  h !! i = Some m → view_eq m0 m → inService m = true → postInvalidate m = false →
  snoop_after now i k o m0 h = Ok (r, h') →
  ∃ m', h' !! i = Some m' ∧ frame i h h' ∧ blkSize m' = blkSize m ∧ snooped m m' ∧ (cmd (pk k) ≠ LockedRMWReadReq → Inv m → Inv m').
Proof.
  intros Hm Hv0 Hi Hp H. unfold snoop_after in H.
  apply M_bind_inv in H as (k1 & s & H1 & H). destruct (_ || _).
  2:{ apply mret_inv in H1 as [-> ->]. destruct (snoop_end _ _ _ _ _ _ _ Hm H) as [Hf Hm']. eexists. split; [exact Hm'|].
      split; [done|]. split; [by destruct (_ && _)|]. split; [exists []; rewrite app_nil_r; by destruct (_ && _)|].
      destruct (_ && _); [|done]. intros _ HI. by apply inv_downgrade. }
  apply M_bind_inv in H1 as (cp & s1 & H2 & H1). apply lift_inv in H2 as [Hcp ->].
  apply M_bind_inv in H1 as (p & s1 & H2 & H1). apply lift_inv in H2 as [Hpk ->]. apply snoop_flags_cmd in Hpk as [Ecmd Ereq].
  assert (Ecp : cmd (pk cp) = cmd (pk k) ∧ req (pk cp) = req (pk k)).
  { destruct (_ && _) in Hcp; [|by injection Hcp as <-]. apply (copy_packet_key 0 FromSnoop) in Hcp as E.
    split; [|by apply (f_equal q_req) in E]. unfold copy_packet in Hcp. destruct (staticData k); simpl in Hcp; [by injection Hcp as <-|].
    unfold CachePkt.allocate in Hcp; simpl in Hcp. destruct (_ || _); simpl in Hcp; by injection Hcp as <-. }
  destruct Ecp as [Ecp1 Ecp2].
  apply M_bind_inv in H1 as (u & s1 & H2 & H1). apply add_spec in H2 as (m1 & tl & Hm1 & Htl & Hb).
  rewrite Hm in Hm1. injection Hm1 as <-.
  destruct (becomes_push _ _ _ _ _ _ _ _ _ _ _ _ Hm Htl Hb) as (m1 & Hm1 & Hf & Ekeys & Hv).
  unfold updateFlags in Htl. rewrite bool_decide_true in Htl by done. injection Htl as <-.
  set (t := mkTgt now now o cp FromSnoop false false) in *.
  assert (Hk : q_source (key t) = FromSnoop ∧ takes (key t) = needsWritable (cmd p) || isInvalidate (cmd p) ∧
      q_writable (key t) = needsWritable (cmd p) ∧ q_req (key t) = req p).
  { unfold key, takes, t; simpl. by rewrite Ecp1, Ecp2, Ecmd, Ereq. }
  destruct Hk as (Hk1 & Hk2 & Hk3 & Hk4).
  apply M_bind_inv in H1 as (u2 & s2 & H2 & H1). apply mret_inv in H1 as [-> ->].
  set (inv' := needsWritable (cmd p) || isInvalidate (cmd p)) in *.
  assert (∃ m2, s2 !! i = Some m2 ∧ frame i s1 s2 ∧
     view_eq (set_pending (pendingModified m) (inv' || postInvalidate m) (postDowngrade m) (set_targets (push t (targets m)) m)) m2)
    as (m2 & Hm2 & Hf2 & Hv2).
  { destruct inv'; simpl in H2.
    - apply update_inv in H2 as (m2 & Hm2 & ->). rewrite Hm1 in Hm2. injection Hm2 as <-. eexists.
      split; [by rewrite lookup_insert_eq|]. split; [apply update_frame|].
      pose proof Hv as (_&_&_&_&_&_&_&E8&_&E10&_). rewrite E8, E10. exact (view_set_pending _ _ _ _ _ Hv).
    - apply mret_inv in H2 as [_ ->]. exists m1. split; [done|]. split; [done|]. exact Hv. }
  destruct (snoop_end _ _ _ _ _ _ _ Hm2 H) as [Hf3 Hm3]. simpl in Hm3. eexists. split; [exact Hm3|].
  split; [by transitivity s1; [|transitivity s2]|].
  set (dn := negb (needsWritable (cmd p)) && negb (uncacheable (req p))) in *.
  assert (Hv3 : view_eq (set_pending (pendingModified m) (inv' || postInvalidate m) (dn || postDowngrade m)
      (set_targets (push t (targets m)) m)) (if dn then set_pending (pendingModified m2) (postInvalidate m2) true m2 else m2)).
  { destruct dn; [|exact Hv2]. pose proof Hv2 as (_&_&_&_&_&_&_&E8&E9&_). rewrite E8, E9.
    exact (view_set_pending _ _ true _ _ Hv2). }
  split; [by destruct Hv3 as (_&_&_&_&_&->&_)|]. split.
  - exists [key t]. destruct Hv3 as (E1 & E2 & _). split; [by repeat constructor|]. rewrite E1, E2. split; [apply keys_push|done].
  - intros Hlock HI. eapply view_inv; [exact Hv3|]. apply inv_push_snoop; [done..| | | |].
    + unfold key; simpl. rewrite Ecp1. by case_bool_decide.
    + rewrite Hk2. by intros ->.
    + rewrite Hk3, Hk4. intros E1 E2. unfold dn. by rewrite E1, E2.
    + intros ->. apply orb_true_r.
Qed.

Lemma replace_deferred_view m dl :
  replaceUpgrades (deferredTargets m) = Ok dl → view_eq m (set_deferred dl m).
Proof.
  intros H. destruct (replaceUpgrades_keys _ _ H) as (E & (_ & E2 & _ & E3) & _). split_and!; try done.
  by apply replaceUpgrades_reset.
Qed.

Lemma replace_main_view m tl :
  replaceUpgrades (targets m) = Ok tl → view_eq m (set_targets tl m).
Proof.
  intros H. destruct (replaceUpgrades_keys _ _ H) as (E & (_ & E2 & _ & E3) & Hf). by split_and!.
Qed.

Lemma view_trans m1 m2 m3 : view_eq m1 m2 → view_eq m2 m3 → view_eq m1 m3.
Proof.
  intros (A1&A2&A3&A4&A5&A6&A7&A8&A9&A10&A11&A12&A13) (B1&B2&B3&B4&B5&B6&B7&B8&B9&B10&B11&B12&B13).
  split_and!; try congruence; by auto.
Qed.

Lemma handleSnoop_step now i k o h r h' :
  handleSnoop now i k o h = Ok (r, h') →
  ∃ m m', h !! i = Some m ∧ h' !! i = Some m' ∧ frame i h h' ∧ blkSize m' = blkSize m ∧ snooped m m' ∧
    (cmd (pk k) ≠ LockedRMWReadReq → Inv m → Inv m').
Proof.
  intros H. unfold handleSnoop in H.
  apply M_bind_inv in H as (x & s & H1 & H). apply assert_inv in H1 as [_ ->].
  apply M_bind_inv in H as (x2 & s & H1 & H). destruct (_ && _) in H1; [done|]. apply mret_inv in H1 as [_ ->].
  apply M_bind_inv in H as (m & s & H1 & H). apply get_inv in H1 as [Hm ->].
  set (tk := _ || cacheInvalidate (req (pk k))) in H. exists m. destruct (negb (inService m) || _) eqn:Eout.
  - apply M_bind_inv in H as (x3 & s & H1 & H). apply mret_inv in H as [_ ->].
    assert (∃ m', s !! i = Some m' ∧ frame i h s ∧ view_eq m m') as (m' & Hm' & Hf & Hv).
    { destruct tk; [|apply mret_inv in H1 as [_ ->]; by exists m].
      apply M_bind_inv in H1 as (tl & s1 & H2 & H1). apply lift_inv in H2 as [Htl ->].
      apply M_bind_inv in H1 as (dl & s1 & H2 & H1). apply lift_inv in H2 as [Hdl ->].
      apply update_inv in H1 as (m1 & Hm1 & ->). rewrite Hm in Hm1. injection Hm1 as <-.
      eexists. split; [by rewrite lookup_insert_eq|]. split; [apply update_frame|].
      eapply view_trans; [by apply replace_main_view|]. by apply replace_deferred_view. }
    exists m'. split_and!; [done..|by destruct Hv as (_&_&_&_&_&->&_)|by apply view_snooped|intros _; by apply view_inv].
  - apply orb_false_iff in Eout as [Ei _]. apply negb_false_iff in Ei.
    apply M_bind_inv in H as (x3 & s & H1 & H).
    assert (∃ m1, s !! i = Some m1 ∧ frame i h s ∧ view_eq m m1) as (m1 & Hm1 & Hf & Hv).
    { destruct tk; [|apply mret_inv in H1 as [_ ->]; by exists m].
      apply M_bind_inv in H1 as (dl & s1 & H2 & H1). apply lift_inv in H2 as [Hdl ->].
      apply update_inv in H1 as (m1 & Hm1 & ->). rewrite Hm in Hm1. injection Hm1 as <-.
      eexists. split; [by rewrite lookup_insert_eq|]. split; [apply update_frame|]. by apply replace_deferred_view. }
    apply M_bind_inv in H as (t & s1 & H2 & H). apply lift_inv in H2 as [_ ->].
    destruct (postInvalidate m || _) eqn:Epost.
    { apply mret_inv in H as [_ ->]. exists m1. split_and!; [done..|by destruct Hv as (_&_&_&_&_&->&_)|by apply view_snooped|intros _; by apply view_inv]. }
    apply orb_false_iff in Epost as [Ep _]. pose proof Hv as (Ek1&Ek2&_&_&_&E6&E7&_&E9&_).
    destruct (snoop_after_step now i k o m m1 s r h' Hm1 Hv) as (m' & Hm' & Hf' & Hz & (sn & Hsn & Hk1 & Hk2) & HI); [congruence..|done|].
    exists m'. split; [done|]. split; [done|]. split; [by transitivity s|]. split; [congruence|]. split.
    + exists sn. split; [done|]. split; congruence.
    + intros Hlock Hi. apply HI; [done|]. by eapply view_inv.
Qed.

(** ** A register that is taken *)

Lemma allocate_step now i ba bs k ready o al h u h' m :
  h !! i = Some m → waiting m = [] → allocate now i ba bs k ready o al h = Ok (u, h') →
  ∃ m', h' !! i = Some m' ∧ frame i h h' ∧ blkSize m' = bs ∧
    waiting m' = [pkt_key o (if bool_decide (cmd (pk k) = HardPFReq) then FromPrefetcher else FromCPU) (pk k)] ∧
    (cmd (pk k) ≠ LockedRMWReadReq → Inv m').
Proof.
  intros Hm Hw H. apply app_eq_nil in Hw as [Hw1 Hw2]. apply fmap_nil_inv in Hw1, Hw2. unfold allocate in H.
  apply M_bind_inv in H as (x & s & H1 & H). apply update_inv in H1 as (m1 & Hm1 & ->). rewrite Hm in Hm1. injection Hm1 as <-.
  set (m1 := mkMSHR _ _ _ _ _ _ _ _ _ _ _ _ _ _ _) in H. set (src := if bool_decide _ then _ else _) in *.
  apply M_bind_inv in H as (y & s & H1 & H). apply add_spec in H1 as (m2 & tl & Hm2 & Htl & Hb).
  apply M_bind_inv in H as (m3 & s1 & H1 & H). apply get_inv in H1 as [Hm3 ->].
  apply M_bind_inv in H as (t & s1 & H1 & H). apply lift_inv in H1 as [_ ->]. apply assert_inv in H as [_ ->].
  destruct (becomes_push _ _ _ _ _ _ _ _ _ _ _ _ Hm2 Htl Hb) as (m' & Hm' & Hf & Ekeys & Hv).
  rewrite lookup_insert_eq in Hm2. injection Hm2 as <-.
  exists m'. split; [done|]. split; [transitivity (<[i:=m1]> h); [apply update_frame|done]|]. split; [by destruct Hv as (_&_&_&_&_&->&_)|]. split.
  - unfold waiting. simpl in Ekeys. destruct Hv as (_ & Ed & _). rewrite Ekeys, Ed. unfold keys; simpl. by rewrite Hw1, Hw2.
  - intros Hl. eapply view_inv; [exact Hv|]. simpl.
    assert (Hd : ∀ p, demand (pkt_key o src p)) by (intros p; unfold demand, src; simpl; by destruct (bool_decide _)).
    eapply inv_push_main; [|exact Htl|done| |intros _; apply Hd|done].
    + destruct (init_good ba bs (targets m) Hw1) as [Hg Hg2]. destruct (init_good ba bs (deferredTargets m) Hw2) as [_ Hg3].
      split; simpl; [split; simpl| | |]; unfold waiting, keys in *; simpl in *; rewrite ?Hw1, ?Hw2 in *; done.
    + unfold key; simpl. by case_bool_decide.
Qed.

(** ** Promotions *)

Lemma keys_set l tl : keys (set_tgts l tl) = key <$> l.
Proof. done. Qed.

(** The first [n] deferred targets at the end of the main list. *)
Lemma waiting_move n m tl dl :
  tgts tl = tgts (targets m) ++ take n (tgts (deferredTargets m)) → tgts dl = drop n (tgts (deferredTargets m)) →
  waiting (set_deferred dl (set_targets tl m)) = waiting m.
Proof.
  intros E1 E2. unfold waiting, keys; simpl. rewrite E1, E2, fmap_app, <-app_assoc. f_equal.
  by rewrite <-fmap_app, take_drop.
Qed.

Lemma base_move n m tl dl :
  tgts tl = tgts (targets m) ++ take n (tgts (deferredTargets m)) → tgts dl = drop n (tgts (deferredTargets m)) →
  length (writesBitmap tl) = Z.to_nat (tl_blkSize tl) → tl_blkSize tl = tl_blkSize (targets m) →
  length (writesBitmap dl) = Z.to_nat (tl_blkSize dl) → tl_blkSize dl = tl_blkSize (deferredTargets m) →
  (tgts dl = [] → isReset dl = true) → Base m → Base (set_deferred dl (set_targets tl m)).
Proof.
  intros E1 E2 Hl Hs Hl' Hs' Hr [B1 B2 B5 B6 B8 B3 B4]. split; simpl; [done|congruence|done|congruence|by intros E%fmap_nil_inv; apply Hr| |by erewrite waiting_move].
  unfold keys. rewrite E2, fmap_drop. by apply Forall_drop.
Qed.

Lemma promoteIf_step levels i pred h u h' m :
  h !! i = Some m → promoteIf levels i pred h = Ok (u, h') →
  ∃ m', h' !! i = Some m' ∧ frame i h h' ∧ blkSize m' = blkSize m ∧ waiting m' = waiting m ∧ (∃ l, keys (targets m') = keys (targets m) ++ l) ∧
    (Base m → Base m').
Proof.
  intros Hm H. unfold promoteIf in H.
  apply M_bind_inv in H as (m0 & s & H1 & H). apply get_inv in H1 as [Hm0 ->]. rewrite Hm in Hm0. injection Hm0 as <-.
  apply M_bind_inv in H as (x & s & H1 & H). apply assert_inv in H1 as [_ ->].
  apply M_bind_inv in H as (n & s & H1 & H). apply lift_inv in H1 as [_ ->].
  apply M_bind_inv in H as (y & s & H1 & H). apply clear_range_pend in H1; [|apply clear_pend].
  destruct (pend_eq_at _ _ i m H1 Hm) as (m1 & Hm1 & Hc). symmetry in Hc. apply core_view in Hc.
  apply M_bind_inv in H as (m2 & s1 & H2 & H). apply get_inv in H2 as [Hm2 ->]. rewrite Hm1 in Hm2. injection Hm2 as <-.
  apply M_bind_inv in H as (dl & s1 & H2 & H). apply lift_inv in H2 as [Hdl ->]. pose proof (populateFlags_same _ _ Hdl) as [Edl Edl2].
  apply update_inv in H as (m2 & Hm2 & ->). rewrite Hm1 in Hm2. injection Hm2 as <-.
  eexists. split; [by rewrite lookup_insert_eq|]. split; [transitivity s; [by apply pend_frame|apply update_frame]|].
  split; [by destruct Hc as (_&_&_&_&_&E&_)|]. split; [rewrite (waiting_move n) by done; by apply view_waiting|]. split.
  - exists (key <$> take n (tgts (deferredTargets m1))). unfold keys at 1; simpl. rewrite fmap_app. f_equal.
    by destruct Hc as (E & _).
  - intros B. eapply view_base in B; [|exact Hc]. eapply base_move; [done|done|simpl; by destruct B|done| |done| |done].
    + eapply populateFlags_good; [|exact Hdl]. simpl. by destruct B.
    + intros E. eapply populateFlags_reset; [|exact Hdl]. by rewrite <-Edl.
Qed.

Lemma promoteReadable_step levels i h u h' m :
  h !! i = Some m → promoteReadable levels i h = Ok (u, h') →
  ∃ m', h' !! i = Some m' ∧ frame i h h' ∧ blkSize m' = blkSize m ∧ waiting m' = waiting m ∧ (∃ l, keys (targets m') = keys (targets m) ++ l) ∧
    (Base m → Base m').
Proof.
  intros Hm H. unfold promoteReadable in H.
  apply M_bind_inv in H as (m0 & s & H1 & H). apply get_inv in H1 as [Hm0 ->]. rewrite Hm in Hm0. injection Hm0 as <-.
  assert (Hid : ∃ m', h !! i = Some m' ∧ frame i h h ∧ blkSize m' = blkSize m ∧ waiting m' = waiting m ∧
    (∃ l, keys (targets m') = keys (targets m) ++ l) ∧ (Base m → Base m')).
  { exists m. split_and!; try done. exists []. by rewrite app_nil_r. }
  destruct (bool_decide _); [by apply mret_inv in H as [_ ->]|].
  apply M_bind_inv in H as (b & s & H1 & H). apply lift_inv in H1 as [_ ->].
  destruct b; [by apply mret_inv in H as [_ ->]|]. by eapply promoteIf_step.
Qed.

Lemma promoteWritable_step levels i h u h' m :
  h !! i = Some m → promoteWritable levels i h = Ok (u, h') →
  ∃ m', h' !! i = Some m' ∧ frame i h h' ∧ blkSize m' = blkSize m ∧ waiting m' = waiting m ∧ (∃ l, keys (targets m') = keys (targets m) ++ l) ∧
    (Base m → Base m').
Proof.
  intros Hm H. unfold promoteWritable in H.
  apply M_bind_inv in H as (m0 & s & H1 & H). apply get_inv in H1 as [Hm0 ->]. rewrite Hm in Hm0. injection Hm0 as <-.
  assert (Hid : ∃ m', h !! i = Some m' ∧ frame i h h ∧ blkSize m' = blkSize m ∧ waiting m' = waiting m ∧
    (∃ l, keys (targets m') = keys (targets m) ++ l) ∧ (Base m → Base m')).
  { exists m. split_and!; try done. exists []. by rewrite app_nil_r. }
  destruct (tgts (deferredTargets m)) as [|t l]; [by apply mret_inv in H as [_ ->]|].
  destruct (negb _); [by apply mret_inv in H as [_ ->]|].
  apply M_bind_inv in H as (b & s & H1 & H). apply lift_inv in H1 as [_ ->].
  destruct (_ || _); [by apply mret_inv in H as [_ ->]|].
  apply M_bind_inv in H as (x & s & H1 & H). apply assert_inv in H1 as [_ ->].
  apply M_bind_inv in H as (y & s & H1 & H). apply update_inv in H1 as (m1 & Hm1 & ->). rewrite Hm in Hm1. injection Hm1 as <-.
  destruct (promoteIf_step _ _ _ _ _ _ (on_tlist Main (set_writable true) m) ltac:(by rewrite lookup_insert_eq) H)
    as (m' & Hm' & Hf & Hz & Hw & Hl & HB).
  exists m'. split; [done|]. split; [transitivity (<[i:=on_tlist Main (set_writable true) m]> h); [apply update_frame|done]|].
  split; [done|]. split; [done|]. split; [done|]. intros B. apply HB. by destruct B.
Qed.

Lemma promoteDeferredTargets_step now m b m' :
  promoteDeferredTargets now m = Ok (b, m') →
  waiting m' = waiting m ∧ (b = false → m' = m ∧ waiting m = []) ∧ (b = true → keys (targets m') ≠ []) ∧
  (Base m → Base m') ∧ inService m' = inService m ∧ blkSize m' = blkSize m ∧
  (Base m → flags_for (keys (targets m)) (targets m) → flags_for (keys (targets m')) (targets m')) ∧
  (Base m → Forall demand (keys (targets m)) → Forall demand (keys (targets m'))).
Proof.
  unfold promoteDeferredTargets. intros H. destruct (bool_decide _ && bool_decide _) eqn:Ee.
  { injection H as <- <-. apply andb_true_iff in Ee as [E1 E2]. apply bool_decide_eq_true in E1, E2.
    split_and!; try done. intros _. split; [done|]. unfold waiting, keys. by rewrite E1, E2. }
  set (n := if (before _ _ =? 0)%nat then _ else _) in H. simpl in H. clearbody n.
  destruct (populateFlags (set_tgts (drop n _) _)) as [dl|] eqn:Ed; simpl in H; [|done].
  destruct (populateFlags (set_tgts (_ ++ _) _)) as [tl|] eqn:Et; simpl in H; [|done].
  destruct (front tl) as [t|] eqn:Ef; simpl in H; [|done]. injection H as <- <-.
  pose proof (populateFlags_same _ _ Ed) as [Ed1 Ed2]. pose proof (populateFlags_same _ _ Et) as [Et1 Et2]. simpl in *.
  assert (Hg : Base m → good tl) by (intros B; eapply populateFlags_good; [|exact Et]; simpl; by destruct B).
  assert (Hg' : Base m → good dl) by (intros B; eapply populateFlags_good; [|exact Ed]; simpl; by destruct B).
  split; [by apply (waiting_move n m)|]. split; [done|]. split.
  { intros _ E. unfold front in Ef. simpl in E. apply fmap_nil_inv in E. by rewrite E in Ef. }
  split; [|split; [done|split; [done|split]]].
  - intros B. destruct (Hg B) as [_ Hl]. destruct (Hg' B) as [_ Hl'].
    assert (Hr : tgts dl = [] → isReset dl = true).
    { intros E. eapply populateFlags_reset; [|exact Ed]. simpl. by rewrite <-Ed1. }
    pose proof (base_move n m tl dl Et1 Ed1 Hl Et2 Hl' Ed2 Hr B) as [B1 B2 B5 B6 B8 B3 B4]. by split.
  - intros B _. by destruct (Hg B).
  - intros [_ _ _ _ _ B3 _] Hd. simpl. unfold keys in *. rewrite Et1, fmap_app, fmap_take. apply Forall_app. split; [done|].
    apply Forall_take. eapply Forall_impl; [exact B3|]. intros q Hq. unfold demand. by rewrite Hq.
Qed.

(** ** A response *)

Lemma split_locked_spec l r rest :
  split_locked l = (r, rest) →
  (l = r ∧ rest = [] ∧ Forall (λ t, q_locked (key t) = false) l) ∨
  (∃ pre t rest', l = pre ++ t :: rest' ∧ r = pre ++ [t] ∧ rest = t :: rest' ∧ q_locked (key t) = true ∧
     Forall (λ t, q_locked (key t) = false) pre).
Proof.
  revert r rest. induction l as [|t l IH]; intros r rest H; simpl in H; [injection H as <- <-; by left|].
  case_bool_decide as Hc.
  - injection H as <- <-. right. exists [], t, l. split_and!; try done. simpl. by rewrite bool_decide_true.
  - destruct (split_locked l) as [r1 rest1]. injection H as <- <-. simpl.
    assert (Ht : q_locked (key t) = false) by (simpl; by rewrite bool_decide_false).
    destruct (IH r1 rest1 eq_refl) as [(-> & -> & Hl)|(pre & t' & rest' & -> & -> & -> & Hl & Hp)].
    + left. split_and!; try done. by constructor.
    + right. exists (t :: pre), t', rest'. split_and!; try done. by constructor.
Qed.

Lemma split_snoops_spec l r :
  split_snoops l = Ok r →
  filter demand (key <$> r.1) = [] ∧ filter demand (key <$> l) = key <$> r.2 ∧ Forall (λ t, source t = FromCPU) r.2 ∧
  (Forall (λ q, q_locked q = false) (key <$> l) → Forall (λ q, q_locked q = false) (key <$> r.2)).
Proof.
  revert r. induction l as [|t l IH]; intros r H; simpl in H; [by injection H as <-|].
  case_bool_decide as H1; [|case_bool_decide as H2; [|done]];
    destruct (split_snoops l) as [[r1 r2]|]; simpl in H; try done; injection H as <-;
    destruct (IH _ eq_refl) as (Ha & Hb & Hc & Hd); csimpl in *.
  - rewrite filter_cons_True by (unfold demand; simpl; by rewrite H1). rewrite Hb. split_and!; try done; [by constructor|].
    intros [? ?]%Forall_cons. constructor; [done|by apply Hd].
  - rewrite !filter_cons_False by (unfold demand; simpl; by intros []). split_and!; try done.
    intros [? ?]%Forall_cons. by apply Hd.
Qed.

(** A request that is answered for good; a locked read stays until its write. *)
Definition settled (q : Key) : Prop := demand q ∧ q_locked q = false.

#[export] Instance settled_dec q : Decision (settled q).
Proof. unfold settled. apply _. Defined.

Lemma filter_settled ks : Forall (λ q, q_locked q = false) ks → filter settled ks = filter demand ks.
Proof.
  intros H. apply filter_iff_on. intros q Hq. unfold settled. rewrite Forall_forall in H. specialize (H _ Hq). tauto.
Qed.

(** The targets that are taken out, and those that stay. *)
Definition parted (l ready rest : list Target) : Prop :=
  filter demand (key <$> l) = filter settled (key <$> ready) ++ filter demand (key <$> rest) ∧
  (Forall (λ q, q_locked q = false) (key <$> l) →
     Forall demand (key <$> rest) ∧ Forall (λ q, q_locked q = false) (key <$> rest)).

Lemma parted_locked l ready rest : split_locked l = (ready, rest) → parted l ready rest.
Proof.
  intros [(-> & -> & Hl)|(pre & t & rest' & -> & -> & -> & Hl & Hp)]%split_locked_spec.
  - split; [|done]. rewrite filter_settled by by apply Forall_fmap. by rewrite app_nil_r.
  - split.
    + rewrite !fmap_app, !filter_app. rewrite (filter_settled (key <$> pre)) by by apply Forall_fmap. csimpl.
      rewrite (filter_cons_False settled); [|by unfold settled; rewrite Hl; intros []]. by rewrite filter_nil, app_nil_r.
    + rewrite fmap_app. csimpl. intros [_ [Ht _]%Forall_cons]%Forall_app. congruence.
Qed.

Lemma parted_invalidate t l r :
  source t ≠ FromSnoop → q_locked (key t) = false → split_snoops l = Ok r → parted (t :: l) (t :: r.1) r.2.
Proof.
  intros Hs Hl H. destruct (split_snoops_spec _ _ H) as (H1 & H2 & H3 & H4).
  assert (Hd : Forall demand (key <$> r.2)).
  { apply Forall_fmap. eapply Forall_impl; [exact H3|]. intros x Hx. unfold demand; simpl. by rewrite Hx. }
  split.
  - csimpl. rewrite (filter_cons_True demand), (filter_cons_True settled) by done. rewrite H2, (filter_all demand (key <$> r.2) Hd).
    replace (filter settled (key <$> r.1)) with (@nil Key); [done|]. symmetry. apply filter_none.
    assert (Hn : Forall (λ q, ¬ demand q) (key <$> r.1)).
    { apply Forall_forall. intros q Hq Hdq. assert (Hin : q ∈ filter demand (key <$> r.1)) by by apply list_elem_of_filter.
      rewrite H1 in Hin. by apply not_elem_of_nil in Hin. }
    eapply Forall_impl; [exact Hn|]. unfold settled. tauto.
  - csimpl. intros [_ Hu]%Forall_cons. split; [done|by apply H4].
Qed.

Lemma extract_step k m ready m' :
  extractServiceableTargets k m = Ok (ready, m') →
  parted (tgts (targets m)) (tgts ready) (tgts (targets m')) ∧ (∃ tl, m' = set_targets tl m) ∧
  (Base m → flags_for (keys (targets m')) (targets m') ∧ Base m' ∧ Forall demand (keys (targets m'))).
Proof.
  unfold extractServiceableTargets. intros H.
  match type of H with (?x ≫= _) = _ => destruct x as [[rd rest]|] eqn:Ex; simpl in H; [|done] end.
  destruct (populateFlags (set_tgts rd _)) as [rl|] eqn:E1; simpl in H; [|done].
  destruct (populateFlags (set_tgts rest _)) as [tl|] eqn:E2; simpl in H; [|done]. injection H as <- <-.
  pose proof (populateFlags_same _ _ E1) as [E1t _]. pose proof (populateFlags_same _ _ E2) as [E2t E2s]. simpl in *.
  assert (Hp : parted (tgts (targets m)) rd rest).
  { unfold serviceable in Ex. destruct (bool_decide _); [|injection Ex as Ex; by apply parted_locked].
    destruct (tgts (targets m)) as [|t l] eqn:El; [done|]. case_bool_decide as Hs; [done|].
    case_bool_decide as Hl.
    - injection Ex as <- <-. apply parted_locked. simpl. by rewrite bool_decide_true.
    - destruct (split_snoops l) as [r|] eqn:Es; simpl in Ex; [|done]. injection Ex as <- <-.
      apply parted_invalidate; [done| |done]. simpl. by rewrite bool_decide_false. }
  rewrite E1t, E2t. split; [done|]. split; [by exists tl|]. intros [B1 B2 B5 B6 B8 B3 B4].
  destruct Hp as [_ Hp]. unfold waiting in B4. apply Forall_app in B4 as [B4 B7]. destruct (Hp B4) as [Hd Hu].
  assert (Hg : good tl) by (eapply populateFlags_good; [|exact E2]; done). destruct Hg as [Hg1 Hg2].
  split; [done|]. unfold keys at 1; simpl. rewrite E2t. split; [|done]. split; simpl; [done|congruence|done|done|done|done|].
  unfold waiting; simpl. apply Forall_app. split; [|done]. unfold keys. by rewrite E2t.
Qed.

(** A locked read whose write has come. *)
Definition popped (k : Pkt) (m : MSHR) : list Key :=
  if bool_decide (cmd k = LockedRMWWriteResp) then filter demand (take 1 (keys (targets m))) else [].

Definition answered (ts : list Target) : list Key := filter settled (key <$> ts).

(** *** Promotions *)

(** The register keeps all that waits; what is promoted joins the main list. *)
Definition promoted (i : Ref) (h h' : Heap) : Prop := ∀ m, h !! i = Some m →
  ∃ m', h' !! i = Some m' ∧ frame i h h' ∧ blkSize m' = blkSize m ∧ waiting m' = waiting m ∧
    (∃ l, keys (targets m') = keys (targets m) ++ l) ∧ (Base m → Base m').

Lemma promoted_refl i h : promoted i h h.
Proof. intros m Hm. exists m. split_and!; try done. exists []. by rewrite app_nil_r. Qed.

Lemma promoted_trans i h h1 h2 : promoted i h h1 → promoted i h1 h2 → promoted i h h2.
Proof.
  intros H1 H2 m Hm. destruct (H1 m Hm) as (m1 & Hm1 & Hf1 & Hz1 & Hw1 & (l1 & Hl1) & HB1).
  destruct (H2 m1 Hm1) as (m2 & Hm2 & Hf2 & Hz2 & Hw2 & (l2 & Hl2) & HB2).
  exists m2. split; [done|]. split; [by transitivity h1|]. split; [congruence|]. split; [congruence|]. split; [|by auto].
  exists (l1 ++ l2). by rewrite Hl2, Hl1, app_assoc.
Qed.

Lemma promote_step levels i k blk c h c' h' : promote_targets levels i k blk c h = Ok (c', h') → promoted i h h'.
Proof.
  unfold promote_targets. intros H. apply M_bind_inv in H as (b & s & H1 & H). apply lift_inv in H1 as [_ ->].
  apply M_bind_inv in H as (c1 & s & H1 & H). apply (promoted_trans _ _ s).
  - destruct blk as [p|]; [|apply mret_inv in H1 as [_ ->]; apply promoted_refl].
    destruct b.1 as [b'|]; [|apply mret_inv in H1 as [_ ->]; apply promoted_refl].
    destruct (_ && _); [|apply mret_inv in H1 as [_ ->]; apply promoted_refl].
    apply M_bind_inv in H1 as (r & s1 & H2 & H1). apply lift_inv in H2 as [_ ->].
    apply M_bind_inv in H1 as (u & s1 & H2 & H1). apply mret_inv in H1 as [_ ->]. intros m Hm. by eapply promoteReadable_step.
  - apply M_bind_inv in H as (b' & s1 & H2 & H). apply lift_inv in H2 as [_ ->].
    destruct b'.1 as [b2|]; [|apply mret_inv in H as [_ ->]; apply promoted_refl].
    apply M_bind_inv in H as (u & s1 & H2 & H). apply mret_inv in H as [_ ->].
    destruct (_ && _); [|apply mret_inv in H2 as [_ ->]; apply promoted_refl]. intros m Hm. by eapply promoteWritable_step.
Qed.

(** *** Service *)

(** Only packets of the register's targets change, and a dummy packet has the key of
    the one it replaces. *)
Definition same_keys (m m' : MSHR) : Prop :=
  ∃ l, m' = set_targets (set_tgts l (targets m)) m ∧ key <$> l = keys (targets m).

#[export] Instance same_keys_refl : Reflexive same_keys.
Proof. intros m. exists (tgts (targets m)). split; [|done]. by destruct m as [????????????? [] ?]. Qed.
#[export] Instance same_keys_trans : Transitive same_keys.
Proof. intros a b c (l & -> & E) (l' & -> & E'). exists l'. split; [done|]. rewrite E'. exact E. Qed.

(** The keys of a register stay, provided a locked read, of which a dummy packet
    stays, is the first target. *)
Definition first_locked (t : Target) (m : MSHR) : Prop :=
  source t = FromCPU → q_locked (key t) = true → head (keys (targets m)) = Some (key t).
Definition serves (t : Target) (m m' : MSHR) : Prop := first_locked t m → same_keys m m'.

Lemma same_keys_eq m m' : same_keys m m' → keys (targets m') = keys (targets m).
Proof. by intros (l & -> & E). Qed.

#[export] Instance serves_preorder t : PreOrder (serves t).
Proof.
  split; [by intros m _|]. intros a b c H1 H2 Ha. transitivity b; [by apply H1|]. apply H2. intros Hs Hl.
  rewrite (same_keys_eq _ _ (H1 Ha)). by apply Ha.
Qed.

(** Computations that move the register along a preorder. *)
Definition moves (R : MSHR → MSHR → Prop) {A} (f : M St A) : Prop := ∀ s a s', f s = Ok (a, s') → R (reg s) (reg s').

Section moves.
Context (R : MSHR → MSHR → Prop) {HR : PreOrder R}.
Lemma moves_lift {A} (r : res A) : moves R (lift r).
Proof. intros s a s' H. apply lift_inv in H as [_ ->]. reflexivity. Qed.
Lemma moves_ret {A} (x : A) : moves R (mret x).
Proof. intros s a s' H. apply mret_inv in H as [_ ->]. reflexivity. Qed.
Lemma moves_throw {A} e : moves R (throw (A := A) e).
Proof. done. Qed.
Lemma moves_gets {A} (f : St → A) : moves R (gets f).
Proof. intros s a s' [= _ <-]. reflexivity. Qed.
Lemma moves_on_cache {A} (f : M Cache.Cache A) : moves R (on_cache f).
Proof. intros s a s'. unfold on_cache. destruct (f (blocks s)) as [[x c]|]; [|done]. intros [= _ <-]. reflexivity. Qed.
Lemma moves_emit o : moves R (emit o).
Proof. intros s a s' [= _ <-]. reflexivity. Qed.
Lemma moves_massert what b : moves R (massert what b).
Proof. unfold massert. destruct b; [apply moves_ret|apply moves_throw]. Qed.
Lemma moves_when b f : moves R f → moves R (when b f).
Proof. destruct b; [done|]. intros _. apply moves_ret. Qed.
Lemma moves_bind {A B} (f : M St A) (g : A → M St B) : moves R f → (∀ a, moves R (g a)) → moves R (f ≫= g).
Proof. intros Hf Hg s b s' H. apply M_bind_inv in H as (a & s1 & H1 & H). transitivity (reg s1); [by eapply Hf|by eapply Hg]. Qed.
Lemma moves_mapM {A B} (f : B → M St A) l : (∀ x, moves R (f x)) → moves R (mapM f l).
Proof.
  intros Hf. induction l as [|x l IH]; [apply moves_ret|]. simpl. apply moves_bind; [done|]. intros y.
  apply moves_bind; [done|]. intros. apply moves_ret.
Qed.
End moves.

Create HintDb moves.
#[export] Hint Resolve moves_lift moves_ret moves_throw moves_gets moves_on_cache moves_emit moves_massert : moves.

(** Split a body along its binds, tests and matches. *)
Ltac moves_tac :=
  repeat match goal with
  | |- moves _ (let _ := _ in _) => intros
  | |- moves _ (_ ≫= _) => apply moves_bind; [typeclasses eauto| |intros ?]
  | |- moves _ (when _ _) => apply moves_when; [typeclasses eauto|]
  | |- moves _ (mapM _ _) => apply moves_mapM; [typeclasses eauto|intros ?]
  | |- moves _ (if ?b then _ else _) => destruct b
  | |- moves _ (match ?x with _ => _ end) => destruct x
  | |- _ => solve [eauto with moves typeclass_instances]
  end.

Section serving.
Context (P : Cache.Params) (ident : Z) (snoop : Pkt → Pkt) (R : MSHR → MSHR → Prop) {HR : PreOrder R}.

Lemma moves_valid blk : moves R (blk_valid blk).
Proof using HR. unfold blk_valid. moves_tac. Qed.
Lemma moves_set bit blk : moves R (blk_set bit blk).
Proof using HR. unfold blk_set. moves_tac. Qed.
Lemma moves_clear_bit bit p : moves R (clear_bit bit p).
Proof using HR. unfold clear_bit. moves_tac. Qed.
Lemma moves_set_bit bit p : moves R (set_bit bit p).
Proof using HR. unfold set_bit. moves_tac. Qed.
Hint Resolve moves_valid moves_set moves_clear_bit moves_set_bit : moves.

Lemma moves_snoop k blk b : moves R (deferredSnoop P snoop k blk b).
Proof using HR. unfold deferredSnoop, forward_snoop, supply, doTimingSupplyResponse. moves_tac. Qed.
Lemma moves_forward k blk b tgt : moves R (forward_response P k blk b tgt).
Proof using HR. unfold forward_response. moves_tac. Qed.
End serving.
#[export] Hint Resolve moves_valid moves_set moves_clear_bit moves_set_bit moves_snoop moves_forward : moves.

Lemma locked_replaced tgt ident m m' t :
  pk (t_pkt t) = tgt → source t = FromCPU → cmd tgt = LockedRMWReadReq → updateLockedRMWReadTarget tgt ident m = Ok m' → serves t m m'.
Proof.
  intros Et Hs Hc H Hf. specialize (Hf Hs). unfold updateLockedRMWReadTarget in H. destruct (tgts (targets m)) as [|t0 l] eqn:El; [done|].
  destruct (_ =? _); [|done]. injection H as <-. eexists. split; [done|]. unfold keys in *. rewrite El in *. csimpl. f_equal.
  assert (Ek : key t0 = key t).
  { assert (Hl : q_locked (key t) = true) by (simpl; by rewrite Et, Hc). specialize (Hf Hl). by apply (inj Some) in Hf. }
  unfold key in Ek |- *. simpl. unfold pkt_key in Ek |- *. rewrite Et in Ek. simpl in Ek |- *. rewrite Hc in Ek. simpl in Ek.
  injection Ek as E1 E2 E3 E4 E5 E6 E7 E8 E9 E10. f_equal; done || congruence.
Qed.

Lemma getTarget_ok m t : getTarget m = Ok t → ∃ l, tgts (targets m) = t :: l.
Proof.
  unfold getTarget, hasTargets, front. destruct (tgts (targets m)) as [|t' l]; simpl; [done|]. intros [= <-]. eauto.
Qed.

Lemma hasLocked_base m : Base m → hasLockedRMWReadTarget m = false.
Proof.
  intros [_ _ _ _ _ _ B]. unfold hasLockedRMWReadTarget. destruct (tgts (targets m)) as [|t l] eqn:E; [done|].
  unfold waiting, keys in B. rewrite E in B. csimpl in B. by apply Forall_cons in B as [B _].
Qed.

Section serve.
Context (P : Cache.Params) (now : Z) (levels : nat) (ident : Z) (snoop : Pkt → Pkt) (k : Pkt) (blk : option Cache.BlkPtr) (inv : bool).

Lemma satisfy_serves t p : source t = FromCPU → moves (serves t) (satisfy_target P ident (pk (t_pkt t)) p).
Proof.
  intros Hs s a s' H. unfold satisfy_target in H. apply M_bind_inv in H as (s0 & y & [= <- <-] & H).
  apply M_bind_inv in H as (d & y & H1 & H). apply lift_inv in H1 as [_ ->].
  apply M_bind_inv in H as (tgt & s1 & H1 & H). apply (moves_on_cache eq) in H1.
  apply M_bind_inv in H as (u & y & H2 & H). apply assert_inv in H2 as [_ ->].
  apply M_bind_inv in H as (u2 & s2 & H2 & H). apply mret_inv in H as [_ ->]. rewrite H1.
  case_bool_decide as Hc; [|apply mret_inv in H2 as [_ ->]; reflexivity]. cbn [when] in H2.
  apply M_bind_inv in H2 as (m & y & H3 & H2). apply lift_inv in H3 as [Hm ->]. rewrite H1 in Hm.
  apply M_bind_inv in H2 as (u3 & y & [= _ <-] & H2).
  apply M_bind_inv in H2 as (u4 & s3 & H3 & H2). apply (moves_clear_bit eq) in H3. apply (moves_clear_bit eq) in H2.
  rewrite <-H2, <-H3. simpl. by eapply locked_replaced.
Qed.

Lemma core_serves t : source t = FromCPU → moves (serves t) (serve_core P ident k blk inv t).
Proof.
  intros Hs. unfold serve_core. destruct (isSWPrefetch _); [moves_tac|].
  apply moves_bind; [typeclasses eauto|moves_tac|intros _]. apply moves_bind; [typeclasses eauto| |intros tgt; moves_tac].
  unfold fill_target. apply moves_bind; [typeclasses eauto|moves_tac|intros s]. apply moves_bind; [typeclasses eauto|moves_tac|intros v].
  destruct blk as [p|]; [|moves_tac]. destruct (from_block _ _ _); [by apply satisfy_serves|moves_tac].
Qed.

Lemma serve_serves t : moves (serves t) (serve P ident snoop k blk inv t).
Proof.
  unfold serve. destruct (source t) eqn:Hs; [by apply core_serves| |moves_tac]. unfold serve_snoop. moves_tac.
Qed.

Lemma loop_serves l s r s' :
  mapM (serve P ident snoop k blk inv) l s = Ok (r, s') → Forall (λ t, first_locked t (reg s)) l → same_keys (reg s) (reg s').
Proof.
  revert s r. induction l as [|t l IH]; intros s r H Hl; simpl in H; [apply mret_inv in H as [_ ->]; reflexivity|].
  apply Forall_cons in Hl as [Ht Hl]. apply M_bind_inv in H as (u & s1 & H1 & H). apply M_bind_inv in H as (us & s2 & H2 & H).
  apply mret_inv in H as [_ ->]. pose proof (serve_serves _ _ _ _ H1 Ht) as Hk. transitivity (reg s1); [done|]. eapply IH; [exact H2|].
  eapply Forall_impl; [exact Hl|]. intros x Hx E1 E2. rewrite (same_keys_eq _ _ Hk). by apply Hx.
Qed.

Lemma targets_serve ready s u s' :
  serve_targets P ident snoop k blk inv ready s = Ok (u, s') → Forall (λ t, first_locked t (reg s)) (tgts ready) →
  same_keys (reg s) (reg s').
Proof.
  unfold serve_targets. intros H Hl. apply M_bind_inv in H as (us & s1 & H1 & H). apply loop_serves in H1; [|done].
  transitivity (reg s1); [done|]. revert H. generalize s1. clear. intros s1 H.
  match type of H with ?f _ = _ => assert (moves eq f) as Hm by moves_tac end. apply Hm in H as ->. reflexivity.
Qed.
End serve.

Lemma serviceable_locked k l rd rest :
  serviceable k l = Ok (rd, rest) → Forall (λ t, source t = FromCPU → q_locked (key t) = true → head (key <$> rest) = Some (key t)) rd.
Proof.
  unfold serviceable. destruct (bool_decide _).
  - destruct l as [|t l]; [done|]. destruct (bool_decide (source t = _)); [done|]. case_bool_decide as Hc; [by intros [= <- <-]; repeat constructor|].
    destruct (split_snoops l) as [r|] eqn:Er; [|done]. intros [= <- <-]. constructor; [simpl; rewrite bool_decide_false by done; done|].
    destruct (split_snoops_spec _ _ Er) as (H1 & _). apply Forall_forall. intros x Hx Hs _. exfalso.
    assert (Hin : key x ∈ filter demand (key <$> r.1)).
    { apply list_elem_of_filter. split; [unfold demand; simpl; by rewrite Hs|]. apply list_elem_of_fmap. by exists x. }
    rewrite H1 in Hin. by apply not_elem_of_nil in Hin.
  - intros [= H]. destruct (split_locked_spec _ _ _ H) as [(-> & -> & Hl)|(pre & t & rest' & -> & -> & -> & Ht & Hl)].
    + eapply Forall_impl; [exact Hl|]. intros x Hx _ Hx'. congruence.
    + apply Forall_app. split; [|by repeat constructor]. eapply Forall_impl; [exact Hl|]. intros x Hx _ Hx'. congruence.
Qed.

Lemma extract_locked k m ready m' :
  extractServiceableTargets k m = Ok (ready, m') → Forall (λ t, first_locked t m') (tgts ready).
Proof.
  unfold extractServiceableTargets. intros H. destruct (serviceable k (tgts (targets m))) as [[rd rest]|] eqn:Es; [|done]. simpl in H.
  destruct (populateFlags (set_tgts rd _)) as [rl|] eqn:E1; simpl in H; [|done].
  destruct (populateFlags (set_tgts rest _)) as [tl|] eqn:E2; simpl in H; [|done]. injection H as <- <-.
  pose proof (populateFlags_same _ _ E1) as [-> _]. pose proof (populateFlags_same _ _ E2) as [E2t _]. simpl in *.
  eapply Forall_impl; [by eapply serviceable_locked|]. intros t Ht Hs Hl. unfold keys. simpl. rewrite E2t. by apply Ht.
Qed.

(** Nothing a register is judged by changes with the packets. *)
Lemma same_keys_view m m' : same_keys m m' →
  waiting m' = waiting m ∧ keys (targets m') = keys (targets m) ∧ blkSize m' = blkSize m ∧ (Base m → Base m') ∧
  (∀ ks, flags_for ks (targets m) → flags_for ks (targets m')).
Proof.
  intros (l & -> & E). assert (waiting (set_targets (set_tgts l (targets m)) m) = waiting m) as Ew by (unfold waiting, keys in *; simpl; by rewrite E).
  split_and!; [done|done|done| |done]. intros [B1 B2 B5 B6 B8 B3 B4]. split; simpl; [done..|]. by rewrite Ew.
Qed.

(** What the service of the targets does: the requests it answers are the first
    that wait. *)
Lemma service_step P ident snoop i k blk c h ready c' outs h' m1 :
  h !! i = Some m1 → serviceMSHRTargets P ident snoop i k blk c h = Ok ((ready, c', outs), h') →
  ∃ m3, h' !! i = Some m3 ∧ frame i h h' ∧ blkSize m3 = blkSize m1 ∧
    line m1 = popped k m1 ++ answered ready ++ line m3 ∧
    (Base m1 → flags_for (keys (targets m3)) (targets m3) ∧ Base m3 ∧ Forall demand (keys (targets m3))).
Proof.
  intros Hm1 H. unfold serviceMSHRTargets in H.
  apply M_bind_inv in H as (m1' & s1 & H1 & H). apply get_inv in H1 as [Hm1' ->]. rewrite Hm1 in Hm1'. injection Hm1' as <-.
  apply M_bind_inv in H as (t1 & s1 & H1 & H). apply lift_inv in H1 as [Ht1 ->]. apply getTarget_ok in Ht1 as [l1 Hl1].
  apply M_bind_inv in H as (y & s1 & H1 & H).
  assert (∃ m2, s1 !! i = Some m2 ∧ frame i h s1 ∧ blkSize m2 = blkSize m1 ∧ line m1 = popped k m1 ++ line m2 ∧ (Base m1 → Base m2))
    as (m2 & Hm2 & Hf2 & Hz2 & Hln & HB2).
  { unfold popped. destruct (bool_decide (cmd k = _)); [|apply mret_inv in H1 as [_ ->]; by exists m1].
    apply M_bind_inv in H1 as (z & s2 & H2 & H1). apply assert_inv in H2 as [_ ->].
    apply M_bind_inv in H1 as (m2 & s2 & H2 & H1). apply lift_inv in H2 as [Hpop ->].
    apply update_inv in H1 as (m3 & _ & ->). exists m2. split; [by rewrite lookup_insert_eq|]. split; [apply update_frame|].
    unfold popTarget in Hpop. rewrite Hl1 in Hpop. injection Hpop as <-.
    assert (Ek : take 1 (keys (targets m1)) = [key t1]) by (unfold keys; by rewrite Hl1). rewrite Ek. split; [done|]. split.
    - rewrite !line_app. unfold keys at 1. rewrite Hl1, fmap_cons, !filter_cons, filter_nil. by case_decide.
    - intros [B1 B2 B5 B6 B8 B3 B4]. split; simpl; [done..|]. unfold waiting, keys in *; simpl. rewrite Hl1 in B4.
      csimpl in B4. by apply Forall_cons in B4 as [_ ?]. }
  clear H1. apply M_bind_inv in H as (m2' & s2 & H1 & H). apply get_inv in H1 as [Hm2' ->]. rewrite Hm2 in Hm2'. injection Hm2' as <-.
  apply M_bind_inv in H as ([rd m3] & s2 & H1 & H). apply lift_inv in H1 as [Hex ->].
  apply M_bind_inv in H as ([u st] & s2 & H1 & H). apply lift_inv in H1 as [Hserve ->]. simpl in Hserve, H.
  apply targets_serve in Hserve; [|by eapply extract_locked]. simpl in Hserve.
  destruct (same_keys_view _ _ Hserve) as (Ew & Ek & Ez & EB & EF). destruct (extract_step _ _ _ _ Hex) as ([Hpt _] & (tl & Em3) & HB3).
  apply M_bind_inv in H as (z & s2 & H1 & H). apply update_inv in H1 as (m4 & _ & ->). apply mret_inv in H as [[= -> -> ->] ->].
  exists (reg st). split; [by rewrite lookup_insert_eq|]. split; [transitivity s1; [done|apply update_frame]|].
  split; [rewrite Ez, Em3; done|]. split.
  - rewrite Hln. f_equal. unfold line at 2. rewrite Ew. fold (line m3). rewrite !line_app. unfold answered, keys at 1. rewrite Hpt, Em3.
    by rewrite <-app_assoc.
  - intros B. destruct (HB3 (HB2 B)) as (F & B' & D). rewrite Ek. split_and!; [by apply EF|by apply EB|done].
Qed.

(** What one response does: the requests it answers are the first that wait; the
    register is freed only if nobody waits, and sent again only if somebody does. *)
Lemma respond_step P now levels ident snoop i k c h ready fate c' outs h' :
  respond P now levels ident snoop i k c h = Ok ((ready, fate, c', outs), h') →
  (isWrite (cmd k) = true ∧ cmd k ≠ LockedRMWWriteResp ∧ ready = [] ∧ fate = None ∧ h' = h) ∨
  ∃ m m', h !! i = Some m ∧ h' !! i = Some m' ∧ frame i h h' ∧ blkSize m' = blkSize m ∧
    line m = popped k m ++ answered ready ++ line m' ∧
    (fate = Some false → waiting m' = []) ∧ (fate = Some true → keys (targets m') ≠ []) ∧
    (Base m → is_Some fate ∧ flags_for (keys (targets m')) (targets m') ∧ Base m' ∧ Forall demand (keys (targets m'))).
Proof.
  unfold respond. intros H. apply M_bind_inv in H as (u & s & H1 & H). apply assert_inv in H1 as [_ ->].
  destruct (isWrite (cmd k) && _) eqn:Ewr.
  { left. apply M_bind_inv in H as (u1 & s & H1 & H). apply assert_inv in H1 as [_ ->]. apply mret_inv in H as [[= -> -> _ _] ->].
    by apply andb_true_iff in Ewr as [? ?%negb_true_iff%bool_decide_eq_false]. }
  right. apply M_bind_inv in H as (m & s & H1 & H). apply get_inv in H1 as [Hm ->].
  apply M_bind_inv in H as (t0 & s & H1 & H). apply lift_inv in H1 as [Ht0 ->]. apply getTarget_ok in Ht0 as [l0 Hl0].
  apply M_bind_inv in H as (u1 & s & H1 & H). apply assert_inv in H1 as [_ ->].
  apply M_bind_inv in H as ([[blk wbs] c0] & s & H1 & H). apply lift_inv in H1 as [_ ->].
  apply M_bind_inv in H as (c1 & s & H1 & H).
  assert (promoted i h s) as Hpr.
  { destruct (hasLockedRMWReadTarget m); [apply mret_inv in H1 as [_ ->]; apply promoted_refl|by eapply promote_step]. }
  destruct (Hpr m Hm) as (m1 & Hm1 & Hf1 & Hz1 & Hw1 & (l1 & Hl1) & HB1). clear H1 Hpr.
  apply M_bind_inv in H as ([[rd c2] os] & s1 & H1 & H).
  destruct (service_step _ _ _ _ _ _ _ _ _ _ _ _ _ Hm1 H1) as (m3 & Hm3 & Hf3 & Hz3 & Hln & HB3).
  assert (Hline : line m = popped k m ++ answered rd ++ line m3).
  { unfold line at 1. rewrite <-Hw1. fold (line m1). rewrite Hln. f_equal. unfold popped. destruct (bool_decide _); [|done].
    unfold keys in Hl1 |- *. rewrite Hl1, Hl0. done. }
  apply M_bind_inv in H as (m3' & s2 & H2 & H). apply get_inv in H2 as [Hm3' ->]. rewrite Hm3 in Hm3'. injection Hm3' as <-.
  exists m. destruct (hasLockedRMWReadTarget m3) eqn:Elk.
  - apply mret_inv in H as [[= -> -> _ _] ->]. exists m3. split; [done|]. split; [done|].
    split; [by transitivity s|]. split; [congruence|]. split; [done|]. split; [done|]. split; [done|].
    intros B. destruct (HB3 (HB1 B)) as (_ & B' & _). apply hasLocked_base in B'. congruence.
  - apply M_bind_inv in H as ([b m5] & s2 & H2 & H). apply lift_inv in H2 as [Hpd ->].
    apply M_bind_inv in H as (z2 & s2 & H2 & H). apply update_inv in H2 as (m6 & _ & ->).
    apply M_bind_inv in H as (e & s2 & H2 & H). apply lift_inv in H2 as [_ ->]. apply mret_inv in H as [[= -> -> _ _] ->].
    destruct (promoteDeferredTargets_step _ _ _ _ Hpd) as (P1 & P2 & P3 & P4 & P5 & P0 & P6 & P7).
    exists m5. split; [done|]. split; [by rewrite lookup_insert_eq|].
    split; [transitivity s; [done|]; transitivity s1; [done|apply update_frame]|]. split; [congruence|].
    split; [unfold line at 2; by rewrite P1|].
    split; [intros [= ->]; destruct (P2 eq_refl) as [-> ?]; done|]. split; [intros [= ->]; by apply P3|].
    intros B. destruct (HB3 (HB1 B)) as (F & B' & D). split_and!; [done|by apply P6|by apply P4|by apply P7].
Qed.
