(* ===== verification/MshrRun.v ===== *)
(** * Miss registers: histories

    Everything the caches of a hierarchy do to their registers, in any order: a
    register is taken for a miss, further requests and snoops find it, its request
    is sent and answered, and it is sent again or freed. *)
From stdpp Require Import base tactics list strings gmap.
From Stdlib Require Import ZArith Lia.
From S2P Require Import Prelude MemCmd CachePkt Cache Mshr MshrResp MshrProps MshrInv MshrSteps.
Import CachePkt Mshr MshrResp.
Local Open Scope Z_scope.

(** ** Histories *)

Inductive Op :=
  | Take (blk_addr blk_size : Z) (k : MPkt) (ready o : Z) (alloc_on_fill : bool) (* allocateMissBuffer *)
  | Join (k : MPkt) (ready o : Z) (alloc_on_fill : bool)                          (* handleTimingReqMiss *)
  | Snoop (k : MPkt) (o : Z)                                                      (* recvTimingSnoopReq *)
  | Send (forward pending_modified_resp : bool)                                   (* sendMSHRQueuePacket *)
  | Respond (k : Pkt) (c : Cache.Cache) (ident : Z) (above : Pkt → Pkt)
      (* recvTimingResp of a cache with the blocks [c]; see [MshrResp.respond] *)
  | Squash                                                                        (* forceDeallocateTarget *).

Section exec.
Context (P : Cache.Params) (levels : nat) (now : Z).

(** After a response or a squashed prefetch: [markPending] or [deallocate]. *)
Definition finish_response (i : Ref) (again : bool) : M Heap unit :=
  m ← get i;
  if again then massert "mshr->inService" (inService m) ;; update i (set_inService false)
  else m' ← lift (deallocate m); update i (λ _, m').

(** The result: the requests answered for good. *)
Definition exec (i : Ref) (op : Op) : M Heap (list Key) :=
  match op with
  | Take ba bs k ready o al =>
      m ← get i;
      massert "mshr->getNumTargets() == 0" (getNumTargets m =? 0) ;;
      allocate now i ba bs k ready o al ;;
      mret []
  | Join k ready o al => allocateTarget now i k ready o al ;; mret []
  | Snoop k o => handleSnoop now i k o ;; mret []
  | Send fwd p =>
      m ← get i;
      _ ← lift (getTarget m);
      update i (set_forward fwd) ;; markInService levels i p ;; mret []
  | Respond k c ident above =>
      m ← get i;
      r ← respond P now levels ident above i k c;
      let '(ready, fate, _, _) := r in
      match fate with Some again => finish_response i again | None => mret tt end ;;
      mret (popped k m ++ answered ready)
  | Squash =>
      m ← get i;
      if inService m then mret [] else
      t ← lift (getTarget m);
      if negb (bool_decide (cmd (pk (t_pkt t)) = HardPFReq)) then mret [] else
      m' ← lift (popTarget m);
      (if hasTargets m' then update i (λ _, m') else
       p ← lift (promoteDeferredTargets now m');
       update i (λ _, (p : bool * MSHR).2) ;;
       if (p : bool * MSHR).1 then mret tt else finish_response i false) ;;
      mret (filter demand [key t])
  end.
End exec.

(** The requests an event brings. *)
Definition first_source (k : MPkt) : Source :=
  if bool_decide (cmd (pk k) = HardPFReq) then FromPrefetcher else FromCPU.
Definition accepted (op : Op) : list Key :=
  match op with
  | Take _ _ k _ o _ => [pkt_key o (first_source k) (pk k)]
  | Join k _ o _ => [pkt_key o FromCPU (pk k)]
  | _ => []
  end.

(** A history, with the tick of each event; the log has a register with each
    request. *)
Fixpoint run (P : Cache.Params) (levels : nat) (evs : list (Z * Ref * Op)) (h : Heap) : res (list (Ref * Key) * list (Ref * Key) * Heap) :=
  match evs with
  | [] => Ok ([], [], h)
  | (now, i, op) :: evs' =>
      r ← exec P levels now i op h;
      r' ← run P levels evs' r.2;
      Ok (((λ q, (i, q)) <$> accepted op) ++ r'.1.1, ((λ q, (i, q)) <$> r.1) ++ r'.1.2, r'.2)
  end.

(** The entries of a log for one register. *)
Definition log_of (i : Ref) (l : list (Ref * Key)) : list Key := snd <$> filter (λ p, p.1 = i) l.

(** The packet an event brings. *)
Definition op_pkt (op : Op) : option MPkt :=
  match op with Take _ _ k _ _ _ | Join k _ _ _ | Snoop k _ => Some k | _ => None end.
Definition not_locked (op : Op) : Prop :=
  ∀ k, op_pkt op = Some k → cmd (pk k) ≠ LockedRMWReadReq.

(** The block size of the register after an event. *)
Definition op_size (op : Op) (m : MSHR) : Z :=
  match op with Take _ bs _ _ _ _ => bs | _ => blkSize m end.

(** ** One event *)

Lemma of_app i l l' : log_of i (l ++ l') = log_of i l ++ log_of i l'.
Proof. unfold log_of. by rewrite filter_app, fmap_app. Qed.

Lemma of_same i (l : list Key) : log_of i ((λ o, (i, o)) <$> l) = l.
Proof. unfold log_of. induction l as [|x l IH]; [done|]. csimpl. rewrite filter_cons_True by done. csimpl. by rewrite IH. Qed.

Lemma of_other i j (l : list Key) : i ≠ j → log_of j ((λ o, (i, o)) <$> l) = [].
Proof. intros H. unfold log_of. induction l as [|x l IH]; [done|]. csimpl. by rewrite filter_cons_False. Qed.

Lemma frame_line i j h h' m' : frame i h h' → j ≠ i → h' !! j = Some m' → ∃ m, h !! j = Some m ∧ view_eq m m'.
Proof.
  intros Hf Hj Hm'. specialize (Hf j Hj). rewrite Hm' in Hf. destruct (h !! j) as [m|]; [|done].
  exists m. split; [done|]. apply core_view. symmetry. by apply (inj Some).
Qed.

Lemma finish_step i again h u h' m :
  h !! i = Some m → (again = false → waiting m = []) → finish_response i again h = Ok (u, h') →
  ∃ m', h' !! i = Some m' ∧ frame i h h' ∧ blkSize m' = blkSize m ∧ waiting m' = waiting m ∧
    (Base m → flags_for (keys (targets m)) (targets m) → Forall demand (keys (targets m)) → Inv m').
Proof.
  intros Hm Hw H. unfold finish_response in H.
  apply M_bind_inv in H as (m0 & s & H1 & H). apply get_inv in H1 as [Hm0 ->]. rewrite Hm in Hm0. injection Hm0 as <-.
  destruct again.
  - apply M_bind_inv in H as (x & s & H1 & H). apply assert_inv in H1 as [_ ->]. apply update_inv in H as (m1 & Hm1 & ->).
    rewrite Hm in Hm1. injection Hm1 as <-. eexists. split; [by rewrite lookup_insert_eq|]. split; [apply update_frame|].
    split; [done|]. split; [done|]. intros [B1 B2 B5 B6 B8 B3 B4] F D. split; [by split|done|done|done].
  - apply M_bind_inv in H as (m1 & s & H1 & H). apply lift_inv in H1 as [Hd ->]. apply update_inv in H as (m2 & _ & ->).
    exists m1. split; [by rewrite lookup_insert_eq|]. split; [apply update_frame|].
    specialize (Hw eq_refl). unfold deallocate in Hd. destruct (negb _) in Hd; [done|]. destruct (negb _) in Hd; [done|].
    injection Hd as <-. split; [done|]. split; [done|]. intros [B1 B2 B5 B6 B8 B3 B4] F D.
    apply app_eq_nil in Hw as [Hw1 Hw2].
    split; simpl; [split; simpl; [by rewrite length_fmap|done..]| |done|done].
    change (keys (resetFlags (targets m))) with (keys (targets m)). rewrite Hw1. apply resetFlags_for.
Qed.

(** A squashed prefetch leaves the flags right for what follows it. *)
Lemma flags_tail q ks tl : q_write q = false → flags_for (q :: ks) tl → flags_for ks tl.
Proof.
  intros Hq [Hw (pre & post & E & Hp & Hb & Hm)]. split; [by apply Forall_cons in Hw as [_ ?]|].
  destruct (decide (q_source q = FromCPU)) as [Hs|Hs].
  2:{ rewrite filter_cons_False in E by done. by exists pre, post. }
  rewrite filter_cons_True in E by done. destruct pre as [|q' pre].
  - exists [], (filter (λ q, q_source q = FromCPU) ks). split_and!; try done. intros H1 H2. specialize (Hm H1 H2).
    simpl in E. rewrite Hm in E. done.
  - exfalso. injection E as E1 _. apply Forall_cons in Hp as [Hp _]. subst q'. congruence.
Qed.

(** What an event does to the register it names. *)
Definition effect (i : Ref) (op : Op) (h : Heap) (r : list Key) (h' : Heap) : Prop :=
  ∃ m m', h !! i = Some m ∧ h' !! i = Some m' ∧ frame i h h' ∧ blkSize m' = op_size op m ∧
    (match op with Take _ _ _ _ _ _ => line m = [] | Join _ _ _ _ => keys (targets m) ≠ [] | _ => True end) ∧
    line m ++ accepted op = r ++ line m' ∧ (not_locked op → Inv m → Inv m').

Lemma waiting_line m m' : waiting m' = waiting m → line m' = line m.
Proof. intros E. unfold line. by rewrite E. Qed.

Lemma numTargets_nil m : getNumTargets m = 0 → waiting m = [].
Proof.
  unfold getNumTargets, waiting, keys. intros H. destruct (tgts (targets m)), (tgts (deferredTargets m)); simpl in *; try lia. done.
Qed.

Lemma take_effect P levels now i ba bs k ready o al h r h' :
  exec P levels now i (Take ba bs k ready o al) h = Ok (r, h') → effect i (Take ba bs k ready o al) h r h'.
Proof.
  intros H. simpl in H.
  apply M_bind_inv in H as (m & s & H1 & H). apply get_inv in H1 as [Hm ->].
  apply M_bind_inv in H as (x & s & H1 & H). apply assert_inv in H1 as [Hn ->]. apply Z.eqb_eq, numTargets_nil in Hn.
  apply M_bind_inv in H as (y & s & H1 & H). apply mret_inv in H as [-> ->].
  destruct (allocate_step _ _ _ _ _ _ _ _ _ _ _ _ Hm Hn H1) as (m' & Hm' & Hf & Hz & Hw & HI).
  exists m, m'. split_and!; [done..|unfold line; by rewrite Hn| |intros Hl _; by apply HI, Hl]. unfold line. rewrite Hn, Hw.
  rewrite (filter_cons_True demand); [done|]. unfold demand; simpl. by destruct (bool_decide _).
Qed.

Lemma join_effect P levels now i k ready o al h r h' :
  exec P levels now i (Join k ready o al) h = Ok (r, h') → effect i (Join k ready o al) h r h'.
Proof.
  intros H. simpl in H. apply M_bind_inv in H as (y & s & H1 & H). apply mret_inv in H as [-> ->].
  destruct (allocateTarget_step _ _ _ _ _ _ _ _ _ H1) as (m & m' & Hm & Hm' & Hf & Hz & Hw & Hne & HI).
  exists m, m'. split_and!; [done..| |intros Hl; by apply HI, Hl]. unfold line. rewrite Hw, filter_app.
  by rewrite (filter_cons_True demand).
Qed.

Lemma snoop_effect P levels now i k o h r h' :
  exec P levels now i (Snoop k o) h = Ok (r, h') → effect i (Snoop k o) h r h'.
Proof.
  intros H. simpl in H. apply M_bind_inv in H as (y & s & H1 & H). apply mret_inv in H as [-> ->].
  destruct (handleSnoop_step _ _ _ _ _ _ _ H1) as (m & m' & Hm & Hm' & Hf & Hz & Hs & HI).
  exists m, m'. split_and!; [done..| |intros Hl; by apply HI, Hl]. simpl. rewrite app_nil_r. symmetry. by apply snooped_line.
Qed.

Lemma send_effect P levels now i f p h r h' :
  exec P levels now i (Send f p) h = Ok (r, h') → effect i (Send f p) h r h'.
Proof.
  intros H. simpl in H. apply M_bind_inv in H as (m & s & H1 & H). apply get_inv in H1 as [Hm ->].
  apply M_bind_inv in H as (t & s & H1 & H). apply lift_inv in H1 as [Ht ->]. apply getTarget_ok in Ht as [l Hl].
  apply M_bind_inv in H as (y & s & H1 & H). apply update_inv in H1 as (m0 & Hm0 & ->). rewrite Hm in Hm0. injection Hm0 as <-.
  apply M_bind_inv in H as (z & s & H1 & H). apply mret_inv in H as [-> ->].
  destruct (markInService_step _ _ _ _ _ _ H1) as (m1 & m' & Hm1 & Hm' & Hf & Hz & _ & _ & Hw & HI).
  rewrite lookup_insert_eq in Hm1. injection Hm1 as <-.
  exists m, m'. split_and!; [done|done|transitivity (<[i:=set_forward f m]> h); [apply update_frame|done]|done|done| |].
  - simpl. rewrite app_nil_r. symmetry. by apply waiting_line.
  - intros _ [[B1 B2 B5 B6 B8 B3 B4] G I O]. apply HI; [unfold keys; simpl; by rewrite Hl|]. split; [by split|done|done|done].
Qed.

Lemma respond_effect P levels now i k c id0 above h r h' :
  exec P levels now i (Respond k c id0 above) h = Ok (r, h') → effect i (Respond k c id0 above) h r h'.
Proof.
  intros H. simpl in H. apply M_bind_inv in H as (m & s & H1 & H). apply get_inv in H1 as [Hm ->].
  apply M_bind_inv in H as ([[[ts st] c'] os] & s & H1 & H). apply M_bind_inv in H as (x & s1 & H2 & H). apply mret_inv in H as [-> ->].
  destruct (respond_step _ _ _ _ _ _ _ _ _ _ _ _ _ _ H1)
    as [(_ & Hw & -> & -> & ->)|(m0 & m1 & Hm0 & Hm1 & Hf & Hz & Hl & He & _ & HB)].
  { apply mret_inv in H2 as [_ ->]. exists m, m. split_and!; try done. simpl. unfold popped. by rewrite bool_decide_false, app_nil_r. }
  rewrite Hm in Hm0. injection Hm0 as <-. destruct st as [again|].
  - assert (Hn : again = false → waiting m1 = []) by (intros ->; by apply He).
    destruct (finish_step _ _ _ _ _ _ Hm1 Hn H2) as (m' & Hm' & Hf' & Hz' & Hw & HI).
    exists m, m'. split_and!; [done|done|by transitivity s|simpl; congruence|done| |].
    + simpl. by rewrite app_nil_r, Hl, (waiting_line _ _ Hw), app_assoc.
    + intros _ [B G I O]. destruct (HB B) as (_ & F & B' & D). by apply HI.
  - apply mret_inv in H2 as [_ ->]. exists m, m1. split_and!; [done|done|done|done|done| |].
    + simpl. by rewrite app_nil_r, Hl, app_assoc.
    + intros _ [B G I O]. destruct (HB B) as ([? ?] & _). done.
Qed.

Lemma squash_effect P levels now i h r h' :
  exec P levels now i Squash h = Ok (r, h') → r = [] ∧ h' = h ∨ effect i Squash h r h'.
Proof.
  intros H. simpl in H. apply M_bind_inv in H as (m & s & H1 & H). apply get_inv in H1 as [Hm ->].
  destruct (inService m) eqn:Ei; [left; by apply mret_inv in H as [-> ->]|].
  apply M_bind_inv in H as (t & s & H1 & H). apply lift_inv in H1 as [Ht ->]. apply getTarget_ok in Ht as [l Hl].
  case_bool_decide as Hc; simpl in H; [|left; by apply mret_inv in H as [-> ->]]. right.
  apply M_bind_inv in H as (m1 & s & H1 & H). apply lift_inv in H1 as [Hp ->].
  unfold popTarget in Hp. rewrite Hl in Hp. injection Hp as <-. set (m1 := set_targets _ m) in H.
  apply M_bind_inv in H as (x & s & H1 & H). apply mret_inv in H as [-> ->].
  assert (Hw : waiting m = key t :: waiting m1) by (unfold waiting, keys; simpl; by rewrite Hl).
  assert (Hq : q_write (key t) = false) by (simpl; by rewrite Hc).
  assert (HI1 : Inv m → Inv m1).
  { intros [[B1 B2 B5 B6 B8 B3 B4] G I O]. rewrite Hw in B4. specialize (I Ei). unfold keys in I, G. rewrite Hl in I, G. csimpl in I.
    split; simpl; [|by eapply flags_tail|by intros _; apply Forall_cons in I as [_ ?]|congruence].
    split; [done..|]. by apply Forall_cons in B4 as [_ ?]. }
  assert (Hline : line m = filter demand [key t] ++ line m1).
  { unfold line. rewrite Hw. by rewrite <-filter_app. }
  exists m. destruct (hasTargets m1).
  - apply update_inv in H1 as (m2 & _ & ->). exists m1. split_and!; [done|by rewrite lookup_insert_eq|apply update_frame|done|done| |by auto].
    simpl. by rewrite app_nil_r.
  - apply M_bind_inv in H1 as ([b m2] & s1 & H2 & H1). apply lift_inv in H2 as [Hpd ->].
    apply M_bind_inv in H1 as (y & s1 & H2 & H1). apply update_inv in H2 as (m3 & _ & ->). simpl in H1.
    destruct (promoteDeferredTargets_step _ _ _ _ Hpd) as (P1 & P2 & P3 & P4 & P5 & P0 & P6 & P7).
    assert (HI2 : Inv m1 → Base m2 ∧ flags_for (keys (targets m2)) (targets m2) ∧ Forall demand (keys (targets m2))).
    { intros [B G I O]. split_and!; [by auto|by auto|]. apply P7; [done|]. by apply I. }
    destruct b.
    + apply mret_inv in H1 as [_ ->]. exists m2. split_and!; [done|by rewrite lookup_insert_eq|apply update_frame|done|done| |].
      * simpl. by rewrite app_nil_r, (waiting_line _ _ P1).
      * intros _ HI. destruct (HI2 (HI1 HI)) as (B & F & D). split; [done|done|done|]. rewrite P5. simpl. congruence.
    + assert (Hz : false = false → waiting m2 = []) by (intros _; by destruct (P2 eq_refl) as [-> ?]).
      assert (Hm2 : <[i:=m2]> h !! i = Some m2) by by rewrite lookup_insert_eq.
      destruct (finish_step i false _ _ _ m2 Hm2 Hz H1)
        as (m' & Hm' & Hf' & Hz' & Hw' & HI).
      exists m'. split_and!; [done|done|transitivity (<[i:=m2]> h); [apply update_frame|done]|by rewrite Hz', P0|done| |].
      * simpl. by rewrite app_nil_r, (waiting_line _ _ Hw'), (waiting_line _ _ P1).
      * intros _ HIm. destruct (HI2 (HI1 HIm)) as (B & F & D). by apply HI.
Qed.

Lemma exec_effect P levels now i op h r h' :
  exec P levels now i op h = Ok (r, h') → (r = [] ∧ h' = h ∧ accepted op = []) ∨ effect i op h r h'.
Proof.
  destruct op; [right; by eapply take_effect|right; by eapply join_effect|right; by eapply snoop_effect|
    right; by eapply send_effect|right; by eapply respond_effect|].
  intros [[-> ->]|H]%squash_effect; [by left|by right].
Qed.

(** Every event, on every register. *)
Lemma exec_all P levels now i op h r h' j m' :
  exec P levels now i op h = Ok (r, h') → h' !! j = Some m' →
  ∃ m, h !! j = Some m ∧
    line m ++ (if decide (j = i) then accepted op else []) = (if decide (j = i) then r else []) ++ line m' ∧
    (not_locked op → Inv m → Inv m').
Proof.
  intros H Hm'.
  destruct (exec_effect _ _ _ _ _ _ _ _ H) as [(-> & -> & Ha)|(m0 & m1 & Hm0 & Hm1 & Hf & _ & _ & Hl & HI)].
  { exists m'. split; [done|]. rewrite Ha. destruct (decide _); simpl; rewrite app_nil_r; done. }
  destruct (decide (j = i)) as [->|Hj].
  - rewrite Hm1 in Hm'. injection Hm' as <-. by exists m0.
  - destruct (frame_line _ _ _ _ _ Hf Hj Hm') as (m & Hm & Hv). exists m. split; [done|]. split.
    + simpl. rewrite app_nil_r. symmetry. by apply view_eq_line.
    + intros _. by apply view_inv.
Qed.

Lemma run_all P levels evs h acc ans h' j m' :
  run P levels evs h = Ok (acc, ans, h') → h' !! j = Some m' →
  ∃ m, h !! j = Some m ∧ line m ++ log_of j acc = log_of j ans ++ line m' ∧
    (Forall (λ e, not_locked e.2) evs → Inv m → Inv m').
Proof.
  revert h acc ans. induction evs as [|[[now i] op] evs IH]; intros h acc ans H Hm'; simpl in H.
  { injection H as <- <- <-. exists m'. split; [done|]. simpl. by rewrite app_nil_r. }
  destruct (exec P levels now i op h) as [[s1 h1]|] eqn:E; simpl in H; [|done].
  destruct (run P levels evs h1) as [[[a2 s2] h2]|] eqn:E2; simpl in H; [|done]. injection H as <- <- <-.
  destruct (IH _ _ _ E2 Hm') as (m1 & Hm1 & Hl1 & HI1).
  destruct (exec_all _ _ _ _ _ _ _ _ _ _ E Hm1) as (m & Hm & Hl & HI). exists m. split; [done|]. simpl in Hl. split.
  - rewrite !of_app. destruct (decide (j = i)) as [->|Hj].
    + by rewrite !of_same, app_assoc, Hl, <-!app_assoc, Hl1.
    + rewrite !of_other by done. simpl. rewrite app_nil_r in Hl. simpl in Hl. by rewrite Hl.
  - intros [Hn Hns]%Forall_cons Hi. apply HI1; [done|]. by apply HI.
Qed.

Lemma new_inv : Inv new_mshr.
Proof.
  split; [by split| |done|done]. split; [done|]. exists [], []. by split_and!.
Qed.
