(* ===== verification/MshrServe.v ===== *)
(** * Miss registers: every response answers the request that waits longest *)
From stdpp Require Import base tactics list strings gmap.
From Stdlib Require Import ZArith Lia.
From S2P Require Import Prelude MemCmd CachePkt Cache Mshr MshrProps MshrInv MshrSteps MshrRun.
Import CachePkt Mshr.
Local Open Scope Z_scope.

(** ** Packets within their block *)

Definition fits (bs : Z) (q : Key) : Prop :=
  q_request q = true ∧
  0 ≤ Z.land (q_addr q) (bs - 1) ∧ 0 ≤ q_size q ∧ Z.land (q_addr q) (bs - 1) + q_size q ≤ bs.

#[export] Instance fits_dec bs q : Decision (fits bs q).
Proof. unfold fits. apply _. Defined.

Definition op_fits (bs : Z) (op : Op) : Prop :=
  (match op with Take _ bs' _ _ _ _ => bs' = bs | _ => True end) ∧ Forall (fits bs) (accepted op).

(** All that waits lies within the block, and only the first request may be a
    prefetch. *)
Record Fit (bs : Z) (m : MSHR) : Prop := mkFit {
  f_size : line m ≠ [] → blkSize m = bs;
  f_fits : Forall (fits bs) (line m);
  f_pf : Forall (λ q, q_source q ≠ FromPrefetcher) (tail (line m));
}.

Lemma Forall_tail_app {A} (P : A → Prop) (l new ans l' : list A) :
  l ++ new = ans ++ l' → Forall P (tail l) → (l = [] → Forall P (tail new)) → (l ≠ [] → Forall P new) → Forall P (tail l').
Proof.
  intros E Hl H1 H2. assert (Ht : Forall P (tail (l ++ new))).
  { destruct l as [|x l]; [by apply H1|]. apply Forall_app. split; [done|by apply H2]. }
  rewrite E in Ht. destruct ans as [|y ans]; [done|]. apply Forall_app in Ht as [_ Ht]. by apply Forall_tail.
Qed.

(** The main list begins with a request. *)
Lemma inv_first m : Inv m → keys (targets m) ≠ [] → ∃ q ks, keys (targets m) = q :: ks ∧ demand q.
Proof.
  intros [_ _ I O] Hne. destruct (keys (targets m)) as [|q ks] eqn:E; [done|]. exists q, ks. split; [done|].
  destruct (inService m).
  - destruct (O eq_refl) as [_ _ O2]. intros Hs. by destruct (O2 [] q ks eq_refl Hs).
  - by apply Forall_cons in I as [? _].
Qed.

Lemma inv_line m : Inv m → keys (targets m) ≠ [] → line m ≠ [].
Proof.
  intros HI Hne. destruct (inv_first m HI Hne) as (q & ks & E & Hd). rewrite line_app, E, filter_cons_True by done. done.
Qed.

Lemma effect_fit bs i op h r h' m m' :
  h !! i = Some m → h' !! i = Some m' → effect i op h r h' → op_fits bs op → Inv m → Fit bs m → Fit bs m'.
Proof.
  intros Hm Hm' (m0 & m1 & Hm0 & Hm1 & _ & Hz & Ht & Hl & _) [Hop Hnew] HI [F1 F2 F3].
  rewrite Hm in Hm0. injection Hm0 as <-. rewrite Hm' in Hm1. injection Hm1 as <-. split.
  - intros Hne. rewrite Hz. destruct op; simpl in *; [done|by apply F1, inv_line|..];
      apply F1; intros E; rewrite E in Hl; symmetry in Hl; by apply app_eq_nil in Hl as [_ ?].
  - assert (H : Forall (fits bs) (line m ++ accepted op)) by (by apply Forall_app).
    rewrite Hl in H. by apply Forall_app in H as [_ ?].
  - eapply Forall_tail_app; [exact Hl|done| |].
    + intros _. by destruct op.
    + intros Hne. destruct op; simpl in *; done || by repeat constructor.
Qed.

Lemma run_fit P levels bs evs h acc ans h' :
  run P levels evs h = Ok (acc, ans, h') → Forall (λ e, not_locked e.2) evs → Forall (λ e, op_fits bs e.2) evs →
  (∀ i m, h !! i = Some m → Inv m ∧ Fit bs m) → ∀ i m, h' !! i = Some m → Inv m ∧ Fit bs m.
Proof.
  revert h acc ans. induction evs as [|[[now j] op] evs IH]; intros h acc ans H Hnl Hft Hinit; simpl in H.
  { by injection H as <- <- <-. }
  destruct (exec P levels now j op h) as [[s1 h1]|] eqn:E; simpl in H; [|done].
  destruct (run P levels evs h1) as [[[a2 s2] h2]|] eqn:E2; simpl in H; [|done]. injection H as <- <- <-.
  apply Forall_cons in Hnl as [Hn Hnl]. apply Forall_cons in Hft as [Hf Hft].
  eapply IH; [exact E2|done|done|]. intros i m Hm.
  destruct (exec_all _ _ _ _ _ _ _ _ _ _ E Hm) as (m0 & Hm0 & _ & HI). destruct (Hinit i m0 Hm0) as [HI0 HF0].
  split; [by apply HI|].
  destruct (exec_effect _ _ _ _ _ _ _ _ E) as [(-> & -> & _)|He]; [by apply (Hinit i)|].
  destruct (decide (i = j)) as [->|Hij]; [by eapply effect_fit|].
  destruct He as (m1 & m2 & _ & _ & Hfr & _). destruct (frame_line _ _ _ _ _ Hfr Hij Hm) as (m3 & Hm3 & Hv).
  rewrite Hm0 in Hm3. injection Hm3 as <-. pose proof (view_eq_line _ _ Hv) as El. destruct HF0 as [F1 F2 F3].
  destruct Hv as (_&_&_&_&_&Ez&_). split; rewrite El; [by rewrite Ez|done|done].
Qed.

(** ** Nothing fails *)

Lemma updateFlags_total bs k s al o tl :
  tl_blkSize tl = bs → length (writesBitmap tl) = Z.to_nat bs →
  (demand (pkt_key o s (pk k)) → fits bs (pkt_key o s (pk k))) → ∃ tl', updateFlags k s al tl = Ok tl'.
Proof.
  intros Hs Hl Hf. unfold updateFlags. case_bool_decide as Hd; [eauto|].
  destruct (Hf Hd) as (Hr & H0 & H1 & H2). simpl in *. rewrite Hr. simpl. destruct (bool_decide (s = _)); [eauto|].
  unfold updateWriteFlags; simpl. destruct (wholeLine _); [eauto|]. destruct (canMergeWrites tl); [|eauto].
  destruct (isWrite (cmd (pk k))) eqn:Ew; simpl; [|eauto]. rewrite (write_unlocked _ Ew) in H0, H1, H2.
  match goal with |- context [if ?b then fill _ _ _ else _] => destruct b end; simpl; [|eauto].
  unfold fill, getOffset. rewrite Hs.
  destruct (Z.leb_spec 0 (Z.land (addr (pk k)) (bs - 1))); [|lia]. destruct (Z.leb_spec 0 (size (pk k))); [|lia].
  destruct (Z.leb_spec (Z.land (addr (pk k)) (bs - 1) + size (pk k)) (Z.of_nat (length (writesBitmap tl)))); [|lia].
  simpl. by eexists.
Qed.

Lemma update_all_total bs l tl :
  tl_blkSize tl = bs → length (writesBitmap tl) = Z.to_nat bs →
  Forall (λ q, demand q → fits bs q) (key <$> l) → ∃ tl', update_all l tl = Ok tl'.
Proof.
  revert tl. induction l as [|t l IH]; intros tl Hs Hl Hf; [by eexists|]. csimpl in Hf. apply Forall_cons in Hf as [Ht Hf].
  destruct (updateFlags_total bs (t_pkt t) (source t) (t_allocOnFill t) (t_order t) tl Hs Hl Ht) as [tl1 E]. simpl. rewrite E. simpl.
  destruct (updateFlags_same _ _ _ _ _ E) as (_ & E2 & _ & E4). apply IH; [congruence|congruence|done].
Qed.

Lemma populateFlags_total bs tl :
  tl_blkSize tl = bs → length (writesBitmap tl) = Z.to_nat bs →
  Forall (λ q, demand q → fits bs q) (keys tl) → ∃ tl', populateFlags tl = Ok tl'.
Proof. intros Hs Hl Hf. unfold populateFlags. apply (update_all_total bs); [done|simpl; by rewrite length_fmap|done]. Qed.

Lemma split_snoops_total l :
  Forall (λ q, q_source q ≠ FromPrefetcher) (key <$> l) → ∃ r, split_snoops l = Ok r.
Proof.
  induction l as [|t l IH]; [by eexists|]. csimpl. intros [Ht Hl]%Forall_cons. destruct (IH Hl) as [r E]. rewrite E. simpl.
  case_bool_decide; [eauto|]. case_bool_decide; [eauto|]. simpl in Ht. by destruct (source t).
Qed.

(** The fitting of the requests of a list, from that of all that wait. *)
Lemma fits_part bs m ks ks' :
  waiting m = ks ++ ks' → Forall (fits bs) (line m) →
  Forall (λ q, demand q → fits bs q) ks ∧ Forall (λ q, demand q → fits bs q) ks'.
Proof.
  intros E Hf. unfold line in Hf. rewrite E in Hf.
  assert (H : Forall (λ q, demand q → fits bs q) (ks ++ ks')).
  { apply Forall_forall. intros q Hq Hd. rewrite Forall_forall in Hf. apply Hf. by apply list_elem_of_filter. }
  by apply Forall_app in H.
Qed.

Lemma not_prefetch_tail q ks l :
  demand q → Forall (λ q, q_source q ≠ FromPrefetcher) (tail (filter demand (q :: ks ++ l))) →
  Forall (λ q, q_source q ≠ FromPrefetcher) ks.
Proof.
  intros Hq. rewrite filter_cons_True by done. simpl. rewrite filter_app. intros [H _]%Forall_app.
  apply Forall_forall. intros x Hx. destruct (decide (demand x)) as [Hd|Hd].
  - rewrite Forall_forall in H. apply H. by apply list_elem_of_filter.
  - unfold demand in Hd. destruct (q_source x); naive_solver.
Qed.

Lemma split_snoops_sub l r : split_snoops l = Ok r → ∀ x, x ∈ r.1 ∨ x ∈ r.2 → x ∈ l.
Proof.
  revert r. induction l as [|t l IH]; intros r Er; simpl in Er; [injection Er as <-; set_solver|].
  case_bool_decide; [|case_bool_decide; [|done]]; destruct (split_snoops l) as [r'|]; simpl in Er; try done; injection Er as <-;
    specialize (IH r' eq_refl); simpl; set_solver.
Qed.

Lemma serviceable_total k t l :
  demand (key t) → Forall (λ q, q_source q ≠ FromPrefetcher) (key <$> l) →
  ∃ r, serviceable k (t :: l) = Ok r ∧ (∀ x, x ∈ r.1 ∨ x ∈ r.2 → x ∈ t :: l).
Proof.
  intros Hd Hl. unfold serviceable. destruct (bool_decide (cmd k = _)).
  - case_bool_decide as Hs; [done|]. case_bool_decide; [eexists; split; [done|]; set_solver|].
    destruct (split_snoops_total l Hl) as [r Er]. rewrite Er. simpl. eexists. split; [done|]. simpl.
    pose proof (split_snoops_sub _ _ Er). set_solver.
  - eexists. split; [done|]. destruct (split_locked (t :: l)) as [rd rest] eqn:Es. simpl.
    destruct (split_locked_spec _ _ _ Es) as [(-> & -> & _)|(pre & t' & rest' & -> & -> & -> & _)]; set_solver.
Qed.

Lemma serviceable_first k t l r :
  demand (key t) → q_locked (key t) = false → serviceable k (t :: l) = Ok r → ∃ ks, answered r.1 = key t :: ks.
Proof.
  intros Hd Hl H. assert (∃ l', r.1 = t :: l') as [l' ->].
  { unfold serviceable in H. simpl in Hl. destruct (bool_decide (cmd k = _)).
    - case_bool_decide; [done|]. rewrite Hl in H. destruct (split_snoops l); simpl in H; [|done]. injection H as <-. by eexists.
    - injection H as <-. simpl. rewrite Hl. by eexists. }
  unfold answered. csimpl. rewrite (filter_cons_True settled) by done. by eexists.
Qed.

Lemma extract_total bs k m :
  Inv m → Fit bs m → keys (targets m) ≠ [] →
  ∃ ready m' q ks, extractServiceableTargets k m = Ok (ready, m') ∧ line m = q :: ks ∧ head (answered (tgts ready)) = Some q ∧
    Forall (λ q, demand q → fits bs q) (waiting m') ∧ blkSize m' = bs.
Proof.
  intros HI [F1 F2 F3] Hne. specialize (F1 (inv_line m HI Hne)).
  destruct (inv_first m HI Hne) as (q & ks & Ek & Hd). destruct HI as [[B1 B2 B5 B6 B8 B3 B4] _ _ _].
  destruct (fits_part bs m _ _ eq_refl F2) as [Hfit Hdef].
  unfold keys in Ek. destruct (tgts (targets m)) as [|t l] eqn:El; [done|].
  assert (Et : key t = q) by (apply (f_equal head) in Ek; by apply (inj Some) in Ek).
  assert (Ekl : key <$> l = ks) by exact (f_equal tail Ek).
  assert (Hlk : q_locked (key t) = false).
  { unfold waiting, keys in B4. rewrite El in B4. by apply Forall_cons in B4 as [? _]. }
  assert (Hline : line m = q :: filter demand (ks ++ keys (deferredTargets m))).
  { unfold line, waiting, keys at 1. rewrite El, fmap_cons, Et, Ekl. by rewrite <-app_comm_cons, filter_cons_True. }
  destruct (serviceable_total k t l) as ([rd rest] & Er & Hin); [by rewrite Et| |].
  { rewrite Ekl. apply (not_prefetch_tail q ks (keys (deferredTargets m)) Hd). unfold line, waiting, keys at 1 in F3.
    rewrite El, fmap_cons, Et, Ekl in F3. exact F3. }
  destruct (serviceable_first k t l _ ltac:(by rewrite Et) Hlk Er) as [ks' Hans]. simpl in Hans.
  assert (Hsub : ∀ l', (∀ x, x ∈ l' → x ∈ t :: l) → Forall (λ q, demand q → fits bs q) (key <$> l')).
  { intros l' Hl. apply Forall_fmap, Forall_forall. intros x Hx. unfold keys in Hfit. rewrite El, Forall_fmap, Forall_forall in Hfit.
    by apply Hfit, Hl. }
  simpl in Hin.
  destruct (populateFlags_total bs (set_tgts rd (init (blkAddr m) (blkSize m) new_list))) as [r1 E1];
    [done|simpl; rewrite length_fmap, length_resize; by rewrite F1|apply Hsub; auto|].
  destruct (populateFlags_total bs (set_tgts rest (targets m))) as [r2 E2]; [simpl; congruence|simpl; congruence|apply Hsub; auto|].
  exists r1, (set_targets r2 m), q, (filter demand (ks ++ keys (deferredTargets m))).
  destruct (populateFlags_same _ _ E1) as [Et1 _]. destruct (populateFlags_same _ _ E2) as [Et2 _]. simpl in Et1, Et2.
  split_and!; [|done|rewrite Et1, Hans, <-Et; done| |done].
  - unfold extractServiceableTargets. rewrite El, Er. simpl. rewrite E1. simpl. by rewrite E2.
  - unfold waiting, keys; simpl. rewrite Et2. apply Forall_app. split; [apply Hsub; auto|done].
Qed.

Lemma promoteDeferredTargets_total now bs m :
  Base m → blkSize m = bs → Forall (λ q, demand q → fits bs q) (waiting m) → ∃ r, promoteDeferredTargets now m = Ok r.
Proof.
  intros [B1 B2 B5 B6 B8 B3 B4] Hs Hf. unfold promoteDeferredTargets.
  destruct (bool_decide _ && bool_decide _) eqn:Ee; [eauto|]. set (n := if (before _ _ =? 0)%nat then _ else _).
  unfold waiting, keys in Hf. apply Forall_app in Hf as [Hf1 Hf2].
  destruct (populateFlags_total bs (set_tgts (drop n (tgts (deferredTargets m))) (deferredTargets m))) as [dl Ed];
    [simpl; congruence|simpl; congruence|unfold keys; simpl; rewrite fmap_drop; by apply Forall_drop|].
  destruct (populateFlags_total bs (set_tgts (tgts (targets m) ++ take n (tgts (deferredTargets m))) (targets m))) as [tl Et];
    [simpl; congruence|simpl; congruence|unfold keys; simpl; rewrite fmap_app, fmap_take; apply Forall_app; split; [done|by apply Forall_take]|].
  simpl. fold n. rewrite Ed. simpl. rewrite Et. simpl. destruct (populateFlags_same _ _ Et) as [E _]. simpl in E.
  unfold front. rewrite E. destruct (tgts (targets m)) as [|t l]; [|by eexists].
  destruct (tgts (deferredTargets m)) as [|t l]; [done|].
  assert (∃ k, n = S k) as [k ->]; [|by eexists].
  unfold n. destruct (before _ _) as [|k]; simpl; eauto.
Qed.

(** ** Theorems *)

Section theorems.
Context (P : Cache.Params) (levels : nat) (evs : list (Z * Ref * Op)) (h : Heap) (acc ans : list (Ref * Key)) (h' : Heap).
Hypothesis fresh : ∀ i m, h !! i = Some m → m = new_mshr.
Hypothesis ran : run P levels evs h = Ok (acc, ans, h').

Lemma reach_inv i m : Forall (λ e, not_locked e.2) evs → h' !! i = Some m → Inv m.
Proof.
  intros Hn Hm. destruct (run_all _ _ _ _ _ _ _ _ _ ran Hm) as (m0 & Hm0 & _ & HI). apply HI; [done|].
  rewrite (fresh _ _ Hm0). apply new_inv.
Qed.

Lemma reach_fit bs i m :
  Forall (λ e, not_locked e.2) evs → Forall (λ e, op_fits bs e.2) evs → h' !! i = Some m → Inv m ∧ Fit bs m.
Proof.
  intros Hn Hf. revert i m. eapply run_fit; [exact ran|done|done|]. intros i m Hm. rewrite (fresh _ _ Hm).
  split; [apply new_inv|by split].
Qed.

(** C14. No miss is lost, doubled or overtaken.  In every history of the miss
    registers of a hierarchy, the requests a register accepted are, in this order,
    those it has answered followed by those that still wait in it, the main list
    before the deferred one, whatever was snooped, promoted, replaced, sent again
    or freed meanwhile; a freed register has none waiting. *)
Theorem misses_answered_in_order i m :
  h' !! i = Some m → log_of i acc = log_of i ans ++ line m.
Proof.
  intros Hm. destruct (run_all _ _ _ _ _ _ _ _ _ ran Hm) as (m0 & Hm0 & Hl & _).
  by rewrite (fresh _ _ Hm0) in Hl.
Qed.

(** C15. What is snooped while a request is out bars the way.  In every history
    without locked reads, a register in service has a request that needs a writable
    block in its main list, the requests the next response serves, only if the
    response will be writable.  Behind a snoop in that list that takes a shared copy
    there is no such request.  Behind a snoop that takes the block away there is
    nothing, and every request that comes is deferred to another response, so that
    none is served from a block that is lost. *)
Theorem snoops_bar_later_requests i m :
  Forall (λ e, not_locked e.2) evs → h' !! i = Some m → inService m = true →
  (pendingModified m = false → ∀ q, q ∈ keys (targets m) → demand q → q_writable q = false) ∧
  ∀ pre s post, keys (targets m) = pre ++ s :: post → q_source s = FromSnoop →
    (takes s = true → post = [] ∧ ∀ first k, must_defer m first k = true) ∧
    (q_writable s = false → uncacheable (q_req s) = false → ∀ q, q ∈ post → demand q → q_writable q = false).
Proof.
  intros Hn Hm Hs. destruct (reach_inv i m Hn Hm) as [_ _ _ O]. destruct (O Hs) as [O1 _ O2]. split.
  - intros Hp q Hin. specialize (O1 Hp). rewrite Forall_forall in O1. by apply O1.
  - intros pre s post Hk Hq. destruct (O2 _ _ _ Hk Hq) as (_ & Ha & Hb). split.
    + intros [Hi ->]%Ha. split; [done|]. intros t k. unfold must_defer. rewrite Hs, Hi. simpl. by rewrite orb_true_r.
    + intros Hw Hu q Hin. destruct (Hb Hw Hu) as [_ Hr]. rewrite Forall_forall in Hr. by apply Hr.
Qed.

(** C16. A register asks for a block without its data only if it has all the data.
    In every history without locked reads, when [isWholeLineWrite] holds, the first
    requests of cores and caches above in the main list are writes whose extents
    together cover every byte of the block.  A prefetch may be before them, and byte
    enables are not looked at ([masked_write_counts_as_whole]). *)
Theorem whole_line_covered i m :
  Forall (λ e, not_locked e.2) evs → h' !! i = Some m → isWholeLineWrite m = true →
  ∃ pre post, filter (λ q, q_source q = FromCPU) (keys (targets m)) = pre ++ post ∧
    Forall (λ q, q_write q = true) pre ∧ ∀ b, (b < Z.to_nat (blkSize m))%nat → Exists (λ q, covers (blkSize m) q b) pre.
Proof.
  intros Hn Hm Hw. destruct (reach_inv i m Hn Hm) as [[B1 B2 _ _ _ _ _] [_ (pre & post & E & Hp & Hb & _)] _ _].
  exists pre, post. split; [done|]. split; [done|]. intros b Hlt. rewrite <-B2. apply Hb.
  destruct (lookup_lt_is_Some_2 (writesBitmap (targets m)) b) as [x Hx]; [rewrite B1, B2; lia|]. rewrite Hx. f_equal.
  unfold isWholeLineWrite, wholeLine in Hw. rewrite forallb_forall in Hw. apply Hw.
  apply list_elem_of_In. by eapply list_elem_of_lookup_2.
Qed.

(** C18. A register is always ready for the response to its request.  In every history
    without locked reads whose packets lie within their blocks, for a register in
    service and any response packet: [extractServiceableTargets] fails no assertion;
    the targets it gives to service begin with the request that waits longest, and
    are those that wait first; [promoteDeferredTargets] then fails none either; it
    says that the register has to be sent again only if a target waits in its main
    list, and otherwise nothing waits and [deallocate] succeeds.  (Whether the cache
    can serve the targets depends on the response and the block, see
    [MshrResp.serve].) *)
Theorem response_answers_oldest bs i m now k :
  Forall (λ e, not_locked e.2) evs → Forall (λ e, op_fits bs e.2) evs → h' !! i = Some m → inService m = true →
  ∃ ready m1 again m2 q ks, extractServiceableTargets k m = Ok (ready, m1) ∧ promoteDeferredTargets now m1 = Ok (again, m2) ∧
    line m = q :: ks ∧ head (answered (tgts ready)) = Some q ∧ line m = answered (tgts ready) ++ line m2 ∧
    if (again : bool) then hasTargets m2 = true else waiting m2 = [] ∧ ∃ m3, deallocate m2 = Ok m3.
Proof.
  intros Hn Hf Hm Hs. destruct (reach_fit bs i m Hn Hf Hm) as [HI HF]. pose proof HI as [B _ _ O]. destruct (O Hs) as [_ Hne _].
  destruct (extract_total bs k m HI HF Hne) as (ready & m1 & q & ks & Hex & Hq & Hh & Hf1 & Hz1).
  destruct (extract_step _ _ _ _ Hex) as ([Hpt _] & (tl & Em1) & HB). destruct (HB B) as (_ & B1 & _).
  destruct (promoteDeferredTargets_total now bs m1 B1 Hz1 Hf1) as [[again m2] Hpd].
  destruct (promoteDeferredTargets_step _ _ _ _ Hpd) as (P1 & P2 & P3 & P4 & P5 & _).
  exists ready, m1, again, m2, q, ks. split_and!; [done|done|done|done| |].
  - unfold line at 2. rewrite P1. fold (line m1). rewrite !line_app. unfold answered, keys at 1. rewrite Hpt, Em1. by rewrite <-app_assoc.
  - destruct again.
    + unfold hasTargets. apply negb_true_iff, bool_decide_eq_false. intros E. apply (P3 eq_refl). unfold keys. by rewrite E.
    + destruct (P2 eq_refl) as [-> He]. split; [done|]. apply app_eq_nil in He as [He1 He2]. destruct B1 as [_ _ _ _ B8 _ _].
      unfold deallocate. rewrite (bool_decide_true (tgts (targets m1) = [])) by by apply fmap_nil_inv in He1.
      rewrite (B8 He2). by eexists.
Qed.
End theorems.
