(* ===== verification/MshrWitness.v ===== *)
(** * Miss registers: concrete histories *)
From stdpp Require Import base tactics list strings gmap.
From Stdlib Require Import ZArith Lia.
From S2P Require Import Prelude MemCmd AddrRange CachePkt CacheBlk CacheTags Cache Mshr MshrResp MshrProps MshrInv MshrSteps MshrRun MshrServe.
Import CachePkt Mshr.
Local Open Scope Z_scope.

(** ** Packets for the block of eight bytes at 64 *)

Definition request (a n : Z) (sec clean : bool) (enable : list bool) : Request :=
  mkReq a n sec 0 false clean false clean false false enable None false.
Definition packet (c : Command) (a n : Z) (snd : option Ref) : MPkt :=
  mkMPkt (mkPkt c a false n (Some (replicate (Z.to_nat n) 7)) (request a n false false []) 0 0 false false false false false false)
    false false false snd.

(** A cache of two blocks of eight bytes, still empty. *)
Definition example_params : Cache.Params := Cache.mkParams (Tags.mkParams 8 16 1) false false Cache.mostly_incl false [].
Definition empty_block : CacheBlk.CacheBlk := CacheBlk.mkBlk false false 0 0 (replicate 8 0) [] 0 0.
Definition empty_cache : Cache.Cache :=
  match Cache.new_cache example_params with Ok c => c | Err _ => Cache.mkCache [] empty_block 0 None false end.
(** The response arrives at that cache; the caches above have nothing to say. *)
Definition arrives (k : MPkt) : Op := Respond (pk k) empty_cache 0 (λ k, k).

Definition two_registers : Heap := {[ 0%nat := new_mshr; 1%nat := new_mshr ]}.

(** A read and a write miss; their request is out when another cache takes the
    block, and a later read waits for a second one.  The register of the cache
    below belongs to the same history. *)
Definition taken_history : list (Z * Ref * Op) :=
  [ (0, 0%nat, Take 64 8 (packet ReadReq 64 4 None) 1 1 true);
    (2, 0%nat, Join (packet WriteReq 68 4 None) 3 2 true);
    (4, 1%nat, Take 64 8 (packet ReadExReq 64 8 (Some 0%nat)) 5 1 true);
    (5, 0%nat, Send false false);
    (6, 1%nat, Send false false);
    (7, 0%nat, Snoop (packet ReadExReq 64 8 None) 3);
    (8, 0%nat, Join (packet ReadReq 64 4 None) 9 4 true) ].
Definition answered_history : list (Z * Ref * Op) :=
  taken_history ++ [ (10, 0%nat, arrives (packet ReadExResp 64 8 None)); (11, 0%nat, Send false false) ].

Definition outcome (evs : list (Z * Ref * Op)) : list (Ref * Key) * list (Ref * Key) * Heap :=
  match run example_params 2 evs two_registers with Ok r => r | Err _ => ([], [], ∅) end.
Definition register (evs : list (Z * Ref * Op)) : MSHR := default new_mshr ((outcome evs).2 !! 0%nat).

Lemma two_fresh i m : two_registers !! i = Some m → m = new_mshr.
Proof.
  unfold two_registers. destruct (decide (i = 0%nat)) as [->|H0]; [by intros [= <-]|].
  rewrite lookup_insert_ne by done. intros H. apply lookup_singleton_Some in H as [_ <-]. done.
Qed.

Lemma histories_plain evs :
  evs = taken_history ∨ evs = answered_history → Forall (λ e, not_locked e.2) evs ∧ Forall (λ e, op_fits 8 e.2) evs.
Proof.
  assert (H : Forall (λ e, not_locked e.2) answered_history ∧ Forall (λ e, op_fits 8 e.2) answered_history).
  { split; repeat constructor; try (by intros k [= <-]); vm_compute; congruence. }
  intros [->| ->]; [|done]. destruct H as [H1 H2]. unfold answered_history in *.
  by apply Forall_app in H1 as [H1 _]; apply Forall_app in H2 as [H2 _].
Qed.

Lemma misses_answered_in_order_witness :
  q_order <$> log_of 0 (outcome answered_history).1.1 = [1; 2; 4] ∧
  log_of 0 (outcome answered_history).1.1 = log_of 0 (outcome answered_history).1.2 ++ line (register answered_history) ∧
  q_order <$> line (register answered_history) = [4].
Proof.
  split; [vm_compute; reflexivity|]. split; [|vm_compute; reflexivity].
  apply (misses_answered_in_order example_params 2 answered_history two_registers _ _ (outcome answered_history).2 two_fresh).
  - vm_compute. reflexivity.
  - vm_compute. reflexivity.
Defined.

Lemma snoops_bar_later_requests_witness :
  ∃ pre s, keys (targets (register taken_history)) = pre ++ s :: [] ∧ q_source s = FromSnoop ∧ takes s = true ∧
    ∀ first k, must_defer (register taken_history) first k = true.
Proof.
  set (ks := keys (targets (register taken_history))).
  exists (take 2 ks), (default (pkt_key 0 FromSnoop (pk (packet ReadReq 0 0 None))) (ks !! 2%nat)).
  split; [vm_compute; reflexivity|]. split; [vm_compute; reflexivity|]. split; [vm_compute; reflexivity|].
  destruct (snoops_bar_later_requests example_params 2 taken_history two_registers (outcome taken_history).1.1 (outcome taken_history).1.2
    (outcome taken_history).2 two_fresh ltac:(vm_compute; reflexivity) 0 (register taken_history)) as [_ H].
  - apply histories_plain. by left.
  - vm_compute. reflexivity.
  - vm_compute. reflexivity.
  - apply (H (take 2 ks) (default (pkt_key 0 FromSnoop (pk (packet ReadReq 0 0 None))) (ks !! 2%nat)) []).
    + vm_compute. reflexivity.
    + vm_compute. reflexivity.
    + vm_compute. reflexivity.
Defined.

(** Two writes that fill the block, then a read. *)
Definition filling_history : list (Z * Ref * Op) :=
  [ (0, 0%nat, Take 64 8 (packet WriteReq 64 4 None) 1 1 true);
    (2, 0%nat, Join (packet WriteReq 68 4 None) 3 2 true);
    (4, 0%nat, Join (packet ReadReq 64 4 None) 5 3 true) ].

Lemma whole_line_covered_witness :
  isWholeLineWrite (register filling_history) = true ∧
  ∃ pre post, filter (λ q, q_source q = FromCPU) (keys (targets (register filling_history))) = pre ++ post ∧
    Forall (λ q, q_write q = true) pre ∧ ∀ b, (b < 8)%nat → Exists (λ q, covers 8 q b) pre.
Proof.
  split; [vm_compute; reflexivity|].
  apply (whole_line_covered example_params 2 filling_history two_registers (outcome filling_history).1.1 (outcome filling_history).1.2
    (outcome filling_history).2 two_fresh ltac:(vm_compute; reflexivity) 0 (register filling_history)).
  - repeat constructor; by intros k [= <-].
  - vm_compute. reflexivity.
  - vm_compute. reflexivity.
Defined.

Lemma response_answers_oldest_witness :
  ∃ ready m1 again m2 q ks,
    extractServiceableTargets (pk (packet ReadExResp 64 8 None)) (register answered_history) = Ok (ready, m1) ∧
    promoteDeferredTargets 20 m1 = Ok (again, m2) ∧ line (register answered_history) = q :: ks ∧ head (answered (tgts ready)) = Some q ∧
    line (register answered_history) = answered (tgts ready) ++ line m2 ∧
    if (again : bool) then hasTargets m2 = true else waiting m2 = [] ∧ ∃ m3, deallocate m2 = Ok m3.
Proof.
  apply (response_answers_oldest example_params 2 answered_history two_registers (outcome answered_history).1.1 (outcome answered_history).1.2
    (outcome answered_history).2 two_fresh ltac:(vm_compute; reflexivity) 8 0%nat).
  - apply histories_plain. by right.
  - apply histories_plain. by right.
  - vm_compute. reflexivity.
  - vm_compute. reflexivity.
Defined.

(** ** Where the registers go wrong *)

(** A write miss is out when a cleaning request, and behind it a second write, are
    deferred. *)
Definition clean_packet : MPkt :=
  mkMPkt (CachePkt.new (request 64 8 false true []) CleanSharedReq 0) false false false None.
Definition cleaning_history : list (Z * Ref * Op) :=
  [ (0, 0%nat, Take 64 8 (packet WriteReq 64 4 None) 1 1 true);
    (2, 0%nat, Send false false);
    (3, 0%nat, Join clean_packet 4 2 true);
    (5, 0%nat, Join (packet WriteReq 68 4 None) 6 3 true) ].

(** The writable response then finds a deferred request that needs a writable block,
    in a register whose own request needed one. *)
Theorem clean_behind_write_aborts :
  (∃ r, run example_params 2 cleaning_history two_registers = Ok r) ∧
  exec example_params 2 9 0 (arrives (packet ReadExResp 64 8 None)) (outcome cleaning_history).2
    = Err (EAssert "!targets.needsWritable").
Proof. split; [eexists; vm_compute; reflexivity|]. vm_compute. reflexivity. Qed.

(** A write of the whole block that leaves its last byte out. *)
Definition masked_packet : MPkt :=
  mkMPkt (mkPkt WriteReq 64 false 8 (Some (replicate 8 7)) (request 64 8 false false (replicate 7 true ++ [false]))
    0 0 false false false false false false) false false false None.
Definition masked_history : list (Z * Ref * Op) := [ (0, 0%nat, Take 64 8 masked_packet 1 1 true) ].

(** The block is asked for without its data, though a byte of it is not written. *)
Theorem masked_write_counts_as_whole :
  isMaskedWrite (pk masked_packet) = true ∧ (∃ r, run example_params 2 masked_history two_registers = Ok r) ∧
  isWholeLineWrite (register masked_history) = true.
Proof. split; [reflexivity|]. split; [eexists|]; vm_compute; reflexivity. Qed.

(** A secure read is out when a secure write of the whole line is deferred; the
    response promotes it. *)
Definition secure_packet (c : Command) (n : Z) : MPkt :=
  mkMPkt (mkPkt c 64 true n (Some (replicate (Z.to_nat n) 7)) (request 64 n true false []) 0 0 false false false false false false)
    false false true None.
Definition secure_history : list (Z * Ref * Op) :=
  [ (0, 0%nat, Take 64 8 (secure_packet ReadReq 4) 1 1 true);
    (2, 0%nat, Send false false);
    (3, 0%nat, Join (secure_packet WriteLineReq 8) 4 2 true);
    (5, 0%nat, arrives (set_pk (setHasSharers (pk (secure_packet ReadResp 8))) (secure_packet ReadResp 8))) ].

(** The same write is a whole-line write when it is the first target, and none after
    it was promoted; the request for it then fails an assertion. *)
Theorem promoted_line_write_aborts (P : Cache.Params) :
  isWholeLineWrite (register [ (0, 0%nat, Take 64 8 (secure_packet WriteLineReq 8) 1 1 true) ]) = true ∧
  (∃ r, run example_params 2 secure_history two_registers = Ok r) ∧
  t_order <$> tgts (targets (register secure_history)) = [2] ∧
  isWholeLineWrite (register secure_history) = false ∧
  Cache.createMissPacket P (pk (secure_packet WriteLineReq 8)) None (needsWritableF (targets (register secure_history)))
      (isWholeLineWrite (register secure_history))
    = Err (EAssert "cpu_pkt->cmd != MemCmd::WriteLineReq || is_whole_line_write").
Proof.
  split; [vm_compute; reflexivity|]. split; [eexists; vm_compute; reflexivity|]. split; [vm_compute; reflexivity|].
  assert (E : isWholeLineWrite (register secure_history) = false) by (vm_compute; reflexivity). split; [done|].
  rewrite E. unfold Cache.createMissPacket. by vm_compute.
Qed.

(** ** A locked read *)

(** A locked read misses, and a read waits behind it; its response answers the locked
    read alone, and its write lets the rest go on. *)
Definition locked_history : list (Z * Ref * Op) :=
  [ (0, 0%nat, Take 64 8 (packet LockedRMWReadReq 64 4 None) 1 1 true);
    (2, 0%nat, Join (packet ReadReq 64 4 None) 3 2 true);
    (4, 0%nat, Send false false);
    (6, 0%nat, arrives (packet ReadExResp 64 8 None)) ].

(** The target that stays has a new packet without data, and the key it had. *)
Lemma locked_read_stays :
  q_order <$> log_of 0 (outcome locked_history).1.2 = [] ∧
  (λ t, data (pk (t_pkt t))) <$> head (tgts (targets (register locked_history))) = Some None ∧
  key <$> tgts (targets (register locked_history)) =
    [pkt_key 1 FromCPU (pk (packet LockedRMWReadReq 64 4 None)); pkt_key 2 FromCPU (pk (packet ReadReq 64 4 None))] ∧
  q_order <$> log_of 0 (outcome (locked_history ++ [ (8, 0%nat, arrives (packet LockedRMWWriteResp 64 4 None)) ])).1.2 = [1; 2].
Proof. split_and!; vm_compute; reflexivity. Qed.

(** A register of a whole-line write takes no response that leaves other copies. *)
Theorem whole_line_needs_invalidation :
  exec example_params 2 6 0 (arrives (packet ReadResp 64 8 None)) (outcome (filling_history ++ [ (5, 0%nat, Send false false) ])).2
    = Err (EAssert "!mshr->wasWholeLineWrite || pkt->isInvalidate()").
Proof. vm_compute. reflexivity. Qed.
